(* ===== verification/_CoqProject ===== *)
-Q . S2P
Prelude.v
JsValue.v
JsDate.v
Json.v
JsonFacts.v
JsonParse.v
JsonParseProps.v
Base64.v
Report.v
ReportFacts.v
ReportProps.v
Loader.v
LoaderProps.v
CommFormat.v
CommSeries.v
CommTree.v
CommPage.v
CommOption.v
CommChart.v
CommChartProps.v
Md5.v
Md5Props.v
AddPlugin.v
Uri.v
Cookie.v
CookieProps.v
Highlight.v
HighlightProps.v
Regex.v
ValidPage.v
ValidMethods.v
ValidMethodsProps.v
ValidRules.v
ValidRulesProps.v
Validator.v
ValidatorProps.v
ValidatorForm.v
ValidatorSubmit.v
ValidatorLabels.v
Param.v
ParamProps.v
Deferred.v
DeferredFacts.v
DeferredFire.v
DeferredProps.v
LibraryFacts.v
Ajax.v
AjaxFacts.v
AjaxProps.v
Event.v
EventFacts.v
EventQuiet.v
EventNamespaces.v
EventProps.v
RegExec.v
SizzleTokens.v
Sizzle.v
SizzleClass.v
SizzleSelect.v
SizzleSpec.v
SizzleFrame.v
SizzleChild.v
SizzleRun.v
SizzleSearch.v
SizzleTidy.v
SizzleMeaning.v
SizzleText.v
SizzleScope.v
SizzleExact.v
SizzleProps.v
Traverse.v
TraverseFacts.v
TraverseProps.v
DataCache.v
DataProps.v
Queue.v
QueueProps.v
Classes.v
ClassesProps.v
