(* ===== verification/Prelude.v ===== *)
(** * The JavaScript of XrkMonitor: a verification development

    XrkMonitor is a monitoring system. Its servers and CGI programs are C and C++
    programs; the JavaScript of the repository is the client library that pages use
    to report (language/javascript) and the scripts of the web console
    (html/resource/js). This development is about that JavaScript.

    ** The parts

    - Reporter, language/javascript/dmt_xrkmonitor.js (below [Xrkmonitor_obj]). A page
      calls it with numbers, strings and logs; it buffers them, and sends them as one
      JSON text per request, with a rate limit, one answer awaited at a time, a try
      timer every few seconds and a delay timer for overdue answers.
      [Report] has its state [st] (the object's fields [bf], [tg], [cf] and what the
      browser keeps for it: pending timers, requests handed to XMLHttpRequest), one
      function per method, and [step] and [run], which execute a sequence of calls,
      timers and answers. The clock and what the browser supports come with every
      step, as [env]. [ReportFacts] and [ReportProps] prove: no integer that is added and
      no log is lost or sent twice ([attr_conservation], [log_conservation]), the rate
      limit, one request at a time unless an answer is overdue, increasing sequence
      numbers, well-formed buffers, that a due timer sends all that waits and a timeout
      recovers, and the state from which nothing is ever sent again ([stalled_forever]).
    - Loader, the rest of the same file. [Loader] has the scripts it inserts and their
      events, the plugins' configuration and registration, the search for its own
      address and the sharing of one object by all windows of a page; [LoaderProps]
      proves that plugins are registered at most once and only when their two files
      fit, and that windows share one object.
    - JSON text, language/javascript/dmt_json2.js and the fallback serialiser of
      html/resource/js/jquery.json-2.3.js. [Json] has [Stringify] (json2's
      JSON.stringify with replacers and indentation), [JqueryJson] ($.toJSON) and
      [Reader], the JSON grammar of RFC 8259 as a recursive-descent reader, which is
      the specification: it refuses what the grammar does, numbers such as 010 and +5
      included. [JsonFacts] proves that written texts are read back as the
      value, for values whose numbers are integers up to 2^53 ([clean]), that the two
      serialisers agree, and that the recursion ends; its class
      [JsonLaws] is what the reporter relies on, whichever JSON object the page has.
      [JsonParse] has JSON.parse, $.evalJSON and $.secureEvalJSON with their regular
      expressions as matchers; eval is a parameter, and [JsonEval] says that it reads
      the JSON texts of such values. [JsonParseProps] proves that only JSON tokens reach
      eval, in whatever order ([subtraction_evaluated]), and that what was written
      passes the test.
    - Base64, html/resource/js/base64.js: [Base64], definitions and proofs; decode
      after encode is the text with its line ends normalised.
    - MD5, html/resource/js/jquery.md5.js: [Md5] has the script's signed 32-bit
      arithmetic and its word array; [Md5Props] has RFC 1321 on bytes and unsigned
      words, and the proof that they agree for every text below 2^32 bytes. The bytes are
      those of the units of the text, one by one: a pair of surrogates gives six bytes,
      which are not its UTF-8 ([md5_astral]).
    - Cookies, html/resource/js/jquery.cookie.js and the cookie functions of
      dmt.comm.js: [Cookie] and [CookieProps], what is written is read back, JSON values
      included. [Uri] has encodeURIComponent and decodeURIComponent.
    - Console, html/resource/js/dmt.comm.js, in six files: [CommFormat] (values as
      text), [CommSeries] (time axes, curves, daily increments), [CommTree] (the tree
      of types and the menu of monitor points), [CommPage] (answers, servers, sizes,
      dialogs), [CommOption] and [CommChart] (the option objects for echarts, the loop
      that draws a page, the buttons and their requests, redrawing). They and [CommChartProps]
      prove what they compute: increments add up, curves have exactly the reported
      points, menus list every point once, one shared option object does not leak
      from chart to chart, charts fit the window, redrawing settles.
    - Plugin dialogs, html/resource/js/dmt.addplugin.js: [AddPlugin].
    - Highlighter, html/resource/js/jquery.highlight-3.js: [Highlight] has the tree of
      nodes, the loop over the live list of children and the removal of the marks;
      [HighlightProps] proves that marking ends, keeps the text and can be undone where
      toUpperCase maps the units of the texts one by one, that it throws for a sharp s
      ([sharp_s_throws]), and that the empty term never ends.
    - Form validation, html/resource/js/jquery.validate.js. [Regex] matches the regular
      expressions of its methods by partial derivatives, with the proof that the matcher
      decides their language. [ValidPage] has the fields of a form and what the
      application supplies (the class [Page]: selectors, its own functions, what is
      visible); [ValidMethods] the methods that look at a value alone; [ValidRules] the
      rules of a field from its four sources. [Validator] is the object $.validator of a
      form: a record of what the plugin keeps (the lists of a check, labels, requests to
      the server, the state of a submission), one function per method in a monad of state
      and exceptions, and [step], which executes an event of the user or an answer of the
      server. [ValidatorProps] begins with which parts of the state a function keeps.
      [ValidatorForm] specifies the outcome of a field by its rules alone and proves that
      checking the form refines that; [ValidatorProps] proves the counting of requests,
      [ValidatorSubmit] when the form is submitted and when it is blocked,
      [ValidatorLabels] which error labels are visible, [ValidMethodsProps] and
      [ValidRulesProps] what the methods accept and which source of a rule wins.
    - Callback lists and deferreds, html/resource/js/jquery.js ($.Callbacks, $.Deferred,
      $.when): [Deferred] has the lists and their firing as the library writes them, in a
      store that every callback can change while it is called. [DeferredFacts] has the
      invariant of the done and fail lists of all deferreds and proves that every
      operation keeps it, [DeferredFire] the same of a firing, and that a list stays
      firing only where the callback called last throws ([threw]); [DeferredProps] proves that
      a deferred settles once and calls its callbacks in order, that settling ends when the
      callbacks do nothing but return, and has called all of them whenever it ends
      without an exception, what a callback that throws leaves behind, and what remains of
      a firing after a removal. What stands on the deferreds comes in as an instance of the
      classes [Library] (its state and operations) and [LibraryCode]; the class
      [SafeLibrary] is what its code promises, and the theorems hold for every page with
      a library that keeps the promise. [LibraryFacts]: a relation on the state of the
      library that its code keeps is kept by every execution.
    - Query strings, the same file ($.param, serializeArray, serialize): [Param] and
      [ParamProps], on the encoding of [Uri]; what is written is read back.
    - Requests, the same file ($.ajax): [Ajax], a library of the pages of [Deferred]; its
      operations are the methods of a request, the answer of its transport and its timer.
      [AjaxFacts] proves the promise of [SafeLibrary]; it and [AjaxProps] say how
      often a request ends, the counter of running requests and the start and stop
      events, on every page; the loop of conversions does what its converters do for each
      two types. The state of a page records what happened to the requests for these
      theorems ([happened]).
    - Events, the same file (jQuery.event, jQuery.Event, on, one, off, trigger): [Event],
      another library of the pages of [Deferred], on a tree of nodes that can change; an
      event is an object of a store that all its handlers share. [EventFacts] proves the
      promise of [SafeLibrary] and the invariant of the lists of handlers,
      [EventQuiet] computes which handlers a trigger runs when they only return, and along
      which way ([route], on the tree of parents),
      [EventNamespaces] what the expression made of namespaces matches, [EventProps]
      states what holds of every page: the invariant, the order of a trigger, what off
      removes, and that off does not end for handlers without a type.
    - Selectors, the same file (Sizzle, from its variables to jQuery.find). [RegExec] runs
      regular expressions with captures. [SizzleTokens] has the expressions of the engine,
      the pre-filters and tokenize; [Sizzle] what selectors are compiled to, as data, the
      state that all searches share (caches on the elements, numbers of runs, caches of
      tokens and compiled selectors) and what running the compiled functions does;
      [SizzleSelect] compilation, the seed set, the shortcuts and the entry. The tree and
      the native methods are the class [Document]; its laws are [DocumentLaws] (nodes are
      numbered in document order) and [QueryLaws] (what the native lookups give).
      [SizzleSpec] evaluates compiled functions without caches, [SizzleMeaning] says what
      the tokens of a group mean ([holds]) and that compilation keeps it. [SizzleChild]
      and [SizzleRun] prove the caches of one run right, [SizzleFrame] has
      what a run keeps, [SizzleSearch] goes through the elements of a search, and
      [SizzleTidy] through any sequence of searches, failed ones too.
      [SizzleText]: the tokens are the text; [SizzleClass]: a class name is a word;
      [SizzleScope] and [SizzleExact]: native lookups, seed and context find the same as a
      look at all elements; small documents have the laws. [SizzleProps]
      states what follows: a search finds exactly what its selector means and compiled
      selectors stay right, both for selectors without :not, :has and positions; positions
      of children; and where a search inside a search loses results.
    - Sets of elements, the same file (init, the methods from find to addBack and those
      along parents and siblings). [Traverse] has the objects and the methods; the selector
      engine is the class [Engine] there. What an engine promises about a selector is the
      class [Promise] of [TraverseFacts], with the proof that Sizzle keeps it for selectors
      without :not, :has and positions ([sizzle_promise]); the theorems hold with any
      engine and selector for which it is kept. [TraverseFacts]: walks along parents and
      siblings, sorting. [TraverseProps]: the methods give exactly the nodes that they are to reach, in order
      and each once; closest finds the nearest match; filter and not divide a set; index
      and eq are inverse; and what differs with texts in a set.
    - Data of elements and objects, the same file (jQuery.data and what goes with it).
      [DataCache] has the cache, the numbers on elements and objects, and the functions
      as they are written; [DataProps] has the invariant of cache and numbers and
      proves that the functions implement a table from object and name to value.
    - Queues, the same file (queue, dequeue, delay, clearQueue, promise). [Queue] has the
      arrays kept in the data of an element, the sentinel, the hooks and the timers, on the
      callback lists; [QueueProps] proves that functions leave an array in the order in
      which they came, and what going on to the next and queueing do: whom they call, in
      which state, and that they leave the sentinel in front of fx.
    - Class names, the same file (addClass, removeClass, toggleClass, hasClass): [Classes]
      and [ClassesProps], where they are operations on lists of names.
    - [Prelude] (this file), [JsValue] and [JsDate] hold what of the language the
      scripts use: strings, numbers, bit operators, conversions, dates.

    ** Conventions

    - A string is the list of its UTF-16 code units ([jstr]); literals are written with
      [u] from the UTF-8 of the sources.
    - Numbers are exact rationals with NaN and the infinities ([num]); rounding of
      doubles is not modelled. The theorems where sums matter say for which integers
      doubles are exact (up to 2^53: [attr_conservation], [clean]). The operators that work on 32 bits ([js_and], [js_shl],
      ...) wrap as in the language.
    - A value of unknown type is a [prim] or, with objects, a [jsval]. An exception is a
      value of the result ([Returned] and [TypeError], [option], a sum, or a constructor
      of its own).
    - What a function does to a page is the list of its effects, in order; the charts
      of echarts are the options given to it.
    - Loops over texts and lists are structural. Where a function has fuel: the
      recursion of JSON.stringify has the depth of the value ([str_terminates] proves it
      enough), the loops of MD5, Base64 and the menu have the length of their input
      (the equivalences above prove it enough), decodeURIComponent has the length of the
      text, and marking a term has the cost of the page ([highlight_restored] proves it
      enough). The fuel of [Deferred.eval] bounds the nesting of calls and firings, which a
      page can make infinite; [settling_delivers] says how much is enough for callbacks
      that do nothing but return. The walks up the tree of nodes have one step for each node with a
      parent and two more; the fuel of [event_remove] is the depth of its calls of itself:
      two, and no bound for handlers without a type. [tokens_of] has the length of the
      selector, walks up a document the number of the node, which its ancestors and
      preceding siblings are below. The depth of [Sizzle] and [compile] bounds selectors
      nested with :has and :not; one is enough without them ([search_exact]).

    ** What is not modelled

    - C and C++: the CGI programs (cgi_fcgi), the daemons (the slog directories), their libraries
      (lib) and the clients in C, PHP and shell.
    - Vendored scripts: the rest of jQuery (attributes and properties,
      manipulation, styles, animation), echarts, layui, xheditor, dwz, three, TweenMax, china.js,
      FileSaver, respond, and minified copies of modelled files.
    - The host's eval, which the parsers of JSON texts call: a parameter.
    - Of jquery.validate.js: errorPlacement, wrapper and success as a function, the
      replacement of $.ajax for old versions of jQuery, removeAttrs, and fields whose
      names are members of Object.prototype.
    - The scenes of the login page (html/login/js).
    - Of $.ajax: the merging of the options of a call into settings, which come merged, and
      jQuery.event.trigger, which is a function of the page here.
    - Of jQuery.event: the coordinates that fix computes for mouse events, the fixes for
      browsers whose submit and change events do not bubble, special events of other
      scripts, handlers that are no functions; the engine of selectors is a parameter there.
    - Of Sizzle: setDocument and its tests of browsers, so one document at a time and a
      browser that passes them; the random number that tells apart the runs inside a run,
      which are taken to differ; names that are members of Object.prototype used as pseudos
      or attributes; escapes in a class name where they mean something else in the regular
      expression that the filter makes of it; setFilters of other scripts. The theorems on
      searches leave out :not at the level of tokens (it is in those of [SizzleRun]), :has
      and positions.
    - Of sets of elements: what markup makes and properties given with it, documents in
      frames, native matching (parameters); sets that are arrays or windows, and functions
      given to the ready event.
    - Of data: names that are members of Object.prototype, and the private name data, which
      in the code is the object of the public data and here is not. Of
      queues: a page that changes the arrays, or sets hooks.stop, itself. Of class names:
      a function as argument, and elements whose className is no text (SVG).
    - Console output. *)

From Stdlib Require Import ZArith Lia.
From stdpp Require Import base tactics list numbers strings.

#[export] Set Default Goal Selector "!".

Declare Scope js_scope.
Delimit Scope js_scope with js.

(** ** JavaScript strings

    A string is the list of its UTF-16 code units, each a [Z] below 65536. *)

Abbreviation jstr := (list Z).

(** Decoding of the UTF-8 bytes of a source literal into UTF-16 units, so that
    the literals of the program can be written as they are in its sources. *)
Fixpoint utf16_of_utf8 (bs : list Z) : jstr :=
  match bs with
  | [] => []
  | b0 :: t0 =>
      if (b0 <? 128)%Z then b0 :: utf16_of_utf8 t0
      else match t0 with
      | [] => []
      | b1 :: t1 =>
          if (b0 <? 224)%Z
          then ((b0 - 192) * 64 + (b1 - 128))%Z :: utf16_of_utf8 t1
          else match t1 with
          | [] => []
          | b2 :: t2 =>
              ((b0 - 224) * 4096 + (b1 - 128) * 64 + (b2 - 128))%Z
                :: utf16_of_utf8 t2
          end
      end
  end.

(** [u] reads a string literal of the source. *)
Definition u (s : string) : jstr :=
  utf16_of_utf8 (map (fun b => Z.of_N (Byte.to_N b)) (String.list_byte_of_string s)).
Arguments u s%_string.

Open Scope Z_scope.

(** Every code unit fits in 16 bits. *)
Definition is_unit (c : Z) : bool := (0 <=? c) && (c <? 65536).
Definition units (s : jstr) : Prop := Forall (fun c => 0 <= c < 65536) s.

(** [s.length], [s.charCodeAt(i)] (out of range: NaN, here [None]),
    [s.charAt(i)] (out of range: the empty string). *)
Definition js_length (s : jstr) : Z := Z.of_nat (length s).

Definition char_code_at (s : jstr) (i : Z) : option Z :=
  if i <? 0 then None else s !! Z.to_nat i.

Definition char_at (s : jstr) (i : Z) : jstr :=
  match char_code_at s i with Some c => [c] | None => [] end.

(** [String.fromCharCode(c)] keeps the low 16 bits. *)
Definition from_char_code (c : Z) : jstr := [c mod 65536].

Definition js_eqb (a b : jstr) : bool := bool_decide (a = b).

(** [p] is a prefix of [s]. *)
Fixpoint prefix_b (p s : jstr) : bool :=
  match p, s with
  | [], _ => true
  | c :: p', d :: s' => (c =? d) && prefix_b p' s'
  | _ :: _, [] => false
  end.

(** [s.indexOf(p)]: the first position at which [p] occurs, or -1. *)
Fixpoint index_from (s p : jstr) (i : Z) : Z :=
  if prefix_b p s then i
  else match s with
  | [] => -1
  | _ :: s' => index_from s' p (i + 1)
  end.
Definition index_of (s p : jstr) : Z := index_from s p 0.

(** [s.replace(/p/g, r)] for a literal non-empty [p]: the occurrences are found
    from left to right and do not overlap. [skip] counts the units of the
    current occurrence still to be dropped. *)
Fixpoint replace_from (p r s : jstr) (skip : nat) : jstr :=
  match s with
  | [] => []
  | c :: s' =>
      match skip with
      | S k => replace_from p r s' k
      | O => if prefix_b p s
             then r ++ replace_from p r s' (length p - 1)
             else c :: replace_from p r s' 0
      end
  end.
Definition replace_all (p r s : jstr) : jstr := replace_from p r s 0.

(** [s.replace(p, r)] with a string pattern: the first occurrence only. *)
Fixpoint replace_first (p r s : jstr) : jstr :=
  if prefix_b p s then r ++ drop (length p) s
  else match s with
  | [] => []
  | c :: s' => c :: replace_first p r s'
  end.

(** [s.split(sep)] for a separator of one unit. *)
Fixpoint split_on (sep : Z) (s : jstr) : list jstr :=
  match s with
  | [] => [[]]
  | c :: s' =>
      if c =? sep then [] :: split_on sep s'
      else match split_on sep s' with
           | [] => [[c]]
           | w :: ws => (c :: w) :: ws
           end
  end.

(** [l.join(sep)]. *)
Fixpoint join (sep : jstr) (l : list jstr) : jstr :=
  match l with
  | [] => []
  | [w] => w
  | w :: ws => w ++ sep ++ join sep ws
  end.

(** [s.substring(0, n)]. *)
Definition substring0 (n : Z) (s : jstr) : jstr := take (Z.to_nat n) s.

(** ** 32-bit integers

    The bit operators convert their operands with ToInt32 (ToUint32 for [>>>])
    and give a signed 32-bit result. *)
Definition to_uint32 (x : Z) : Z := x mod 4294967296.
Definition to_int32 (x : Z) : Z :=
  let m := x mod 4294967296 in
  if m <? 2147483648 then m else m - 4294967296.

Definition js_and (x y : Z) : Z := to_int32 (Z.land x y).
Definition js_or (x y : Z) : Z := to_int32 (Z.lor x y).
Definition js_xor (x y : Z) : Z := to_int32 (Z.lxor x y).
Definition js_not (x : Z) : Z := to_int32 (Z.lnot x).
Definition js_shl (x n : Z) : Z := to_int32 (Z.shiftl (to_int32 x) (n mod 32)).
Definition js_shr (x n : Z) : Z := Z.shiftr (to_int32 x) (n mod 32).
Definition js_ushr (x n : Z) : Z := Z.shiftr (to_uint32 x) (n mod 32).

(** [a & b] used as a condition. *)
Definition has_bit (x y : Z) : bool := negb (js_and x y =? 0).

(** ** Decimal digits of an integer ([String(n)] for an integral number below
    10^21). *)
Fixpoint dec_digits (fuel : nat) (n : Z) (acc : jstr) : jstr :=
  match fuel with
  | O => acc
  | S f =>
      let acc' := (48 + n mod 10) :: acc in
      if n / 10 =? 0 then acc' else dec_digits f (n / 10) acc'
  end.
Definition Z_to_str (n : Z) : jstr :=
  if n <? 0 then 45 :: dec_digits (Z.to_nat (Z.log2 (- n)) + 1) (- n) []
  else dec_digits (Z.to_nat (Z.log2 n) + 1) n [].

Example u_ascii : u "a_b" = [97; 95; 98].
Proof. reflexivity. Qed.
Example u_cjk : u "天 " = [22825; 32].
Proof. reflexivity. Qed.
Example replace_ex : replace_all (u "aa") (u "b") (u "aaaxa") = u "baxa".
Proof. reflexivity. Qed.
Example split_ex : split_on 44 (u "1,,-") = [u "1"; []; u "-"].
Proof. reflexivity. Qed.
Example Z_to_str_ex : Z_to_str 12045 = u "12045" /\ Z_to_str (-7) = u "-7" /\ Z_to_str 0 = u "0".
Proof. repeat split. Qed.

(** ** The bit operators on small non-negative operands are arithmetic *)

Lemma to_int32_small x : -2147483648 <= x < 2147483648 -> to_int32 x = x.
Proof.
  intros H. unfold to_int32. destruct (x mod 4294967296 <? 2147483648) eqn:E;
    Z.div_mod_to_equations; lia.
Qed.

Lemma to_int32_range x : -2147483648 <= to_int32 x < 2147483648.
Proof.
  unfold to_int32. pose proof (Z.mod_pos_bound x 4294967296 ltac:(lia)).
  destruct (x mod 4294967296 <? 2147483648) eqn:E; lia.
Qed.

Lemma land_mask word k (Hk : 0 <= k) : Z.land word (2 ^ k - 1) = word mod 2 ^ k.
Proof. by rewrite <- (Z.land_ones word k Hk), Z.ones_equiv. Qed.

Lemma land_disjoint a b n : 0 <= n -> a mod 2 ^ n = 0 -> 0 <= b < 2 ^ n -> Z.land a b = 0.
Proof.
  intros Hn Ha Hb. rewrite <- (Z.mod_small b (2 ^ n)) by lia.
  rewrite <- Z.land_ones by done. rewrite (Z.land_comm b), Z.land_assoc, Z.land_ones by done.
  by rewrite Ha, Z.land_0_l.
Qed.

Lemma lor_disjoint a b n : 0 <= n -> a mod 2 ^ n = 0 -> 0 <= b < 2 ^ n -> Z.lor a b = a + b.
Proof. intros Hn Ha Hb. rewrite <- Z.add_lor_land, (land_disjoint a b n) by done. lia. Qed.

Lemma js_and_mask x n : 0 <= n <= 31 -> 0 <= x < 2147483648 -> js_and x (2 ^ n - 1) = x mod 2 ^ n.
Proof.
  intros Hn Hx. unfold js_and. rewrite land_mask by lia. apply to_int32_small.
  pose proof (Z.pow_pos_nonneg 2 n ltac:(lia) ltac:(lia)).
  pose proof (Z.mod_pos_bound x (2 ^ n) ltac:(lia)).
  pose proof (Z.mod_le x (2 ^ n) ltac:(lia) ltac:(lia)). lia.
Qed.

Lemma js_shr_div x n : 0 <= n < 32 -> 0 <= x < 2147483648 -> js_shr x n = x / 2 ^ n.
Proof.
  intros Hn Hx. unfold js_shr. rewrite to_int32_small by lia.
  rewrite Z.mod_small by lia. apply Z.shiftr_div_pow2. lia.
Qed.

Lemma js_shl_mul x n : 0 <= n < 32 -> 0 <= x -> x * 2 ^ n < 2147483648 -> js_shl x n = x * 2 ^ n.
Proof.
  intros Hn Hx Hm. pose proof (Z.pow_pos_nonneg 2 n ltac:(lia) ltac:(lia)).
  assert (x <= x * 2 ^ n) by nia.
  unfold js_shl. rewrite (to_int32_small x) by lia.
  rewrite Z.mod_small by lia. rewrite Z.shiftl_mul_pow2 by lia. apply to_int32_small. lia.
Qed.

Lemma js_or_add a b n : 0 <= n -> 0 <= a -> a mod 2 ^ n = 0 -> 0 <= b < 2 ^ n ->
  a + b < 2147483648 -> js_or a b = a + b.
Proof.
  intros Hn Ha Hm Hb Hs. unfold js_or. rewrite (lor_disjoint a b n) by done.
  apply to_int32_small. lia.
Qed.

Lemma js_or_comm a b : js_or a b = js_or b a.
Proof. unfold js_or. by rewrite Z.lor_comm. Qed.

(** [index_of] and [char_at] are inverse on a text without repeated units. *)
Lemma from_char_code_small c : 0 <= c < 65536 -> from_char_code c = [c].
Proof. intros H. unfold from_char_code. by rewrite Z.mod_small. Qed.

(** [replace_all] leaves a text without the pattern's first unit as it is. *)
Lemma replace_from_absent c p r s :
  Forall (fun d => d <> c) s -> replace_from (c :: p) r s 0 = s.
Proof.
  induction 1 as [|d s Hd Hs IH]; [done|]. cbn.
  rewrite (proj2 (Z.eqb_neq c d)) by congruence. cbn. by rewrite IH.
Qed.

(** [split_on] cuts at the first separator. *)
Lemma split_on_none sep a : Forall (fun c => c <> sep) a -> split_on sep a = [a].
Proof.
  induction 1 as [|c a Hc Ha IH]; [done|]. cbn. rewrite (proj2 (Z.eqb_neq c sep)) by done. by rewrite IH.
Qed.

Lemma split_on_cons sep a b :
  Forall (fun c => c <> sep) a -> split_on sep (a ++ sep :: b) = a :: split_on sep b.
Proof.
  induction 1 as [|c a Hc Ha IH]; [cbn; by rewrite Z.eqb_refl|].
  cbn. rewrite (proj2 (Z.eqb_neq c sep)) by done. by rewrite IH.
Qed.

Lemma split_on_join sep ws : ws <> [] -> Forall (Forall (fun c => c <> sep)) ws ->
  split_on sep (join [sep] ws) = ws.
Proof.
  intros Hne H. induction H as [|w ws Hw Hws IH]; [done|].
  destruct ws as [|w' ws]; [by apply split_on_none|].
  change (join [sep] (w :: w' :: ws)) with (w ++ sep :: join [sep] (w' :: ws)).
  rewrite split_on_cons by done. by rewrite IH.
Qed.

Lemma split_on_app sep x y : split_on sep (x ++ sep :: y) = split_on sep x ++ split_on sep y.
Proof.
  assert (Hne : forall s, split_on sep s <> []) by (intros [|c s]; cbn; [done|]; destruct (c =? sep); [done|]; by destruct (split_on sep s)).
  induction x as [|c x IH]; [cbn; by rewrite Z.eqb_refl|]. cbn [app split_on]. destruct (c =? sep); [by rewrite IH|]. rewrite IH.
  pose proof (Hne x). by destruct (split_on sep x).
Qed.
(** [prefix_b] finds prefixes. *)
Lemma prefix_b_spec p s : prefix_b p s = true <-> exists r, s = p ++ r.
Proof.
  revert s. induction p as [|c p IH]; intros [|d s]; cbn; try (split; [by eauto|done]).
  - split; [done|by intros [r [=]]].
  - rewrite andb_true_iff, Z.eqb_eq, IH. split; [intros [-> [r ->]]; by exists r|by intros [r [= -> ->]]; eauto].
Qed.

Lemma is_unit_units s : forallb is_unit s = true -> units s.
Proof.
  intros H. apply Forall_forall. intros c Hc. rewrite list_elem_of_In in Hc.
  pose proof (proj1 (forallb_forall _ _) H c Hc) as Hu. unfold is_unit in Hu. lia.
Qed.
