(* ===== verification/JsValue.v ===== *)
(** * JavaScript values: numbers, primitive values, and the objects that the
    JSON text of the program is built from.

    A finite number is an exact rational kept in lowest terms; NaN and the two
    infinities are values of their own. The rounding of a double is not
    modelled: every result below is exact, as it is in the program for integers
    below 2^53. *)

From Stdlib Require Import ZArith QArith Qreduction Lia.
From stdpp Require Import base tactics list numbers strings.
From S2P Require Import Prelude.
Set Warnings "-register-all".
Local Open Scope Z_scope.

Inductive num := Fin (q : Q) | PosInf | NegInf | NaN.

(** Primitive values. *)
Inductive prim := PUndef | PNull | PBool (b : bool) | PNum (n : num) | PStr (s : jstr).

(** Values with arrays, objects (own enumerable properties in enumeration order)
    and functions. *)
Inductive jsval :=
  | VUndef
  | VNull
  | VBool (b : bool)
  | VNum (n : num)
  | VStr (s : jstr)
  | VArr (l : list jsval)
  | VObj (l : list (jstr * jsval))
  | VDate (t : option Z)   (* a Date, [None] when its time value is NaN *)
  | VFun.

Definition of_prim (p : prim) : jsval :=
  match p with
  | PUndef => VUndef | PNull => VNull | PBool b => VBool b
  | PNum n => VNum n | PStr s => VStr s
  end.

Definition fin (q : Q) : num := Fin (Qred q).
Definition of_Z (z : Z) : num := Fin (z # 1).

#[export] Instance Q_eq_dec : EqDecision Q.
Proof. solve_decision. Defined.
#[export] Instance num_eq_dec : EqDecision num.
Proof. solve_decision. Defined.
#[export] Instance prim_eq_dec : EqDecision prim.
Proof. solve_decision. Defined.

(** ** Arithmetic and comparison *)

Definition num_add (x y : num) : num :=
  match x, y with
  | Fin a, Fin b => fin (a + b)
  | NaN, _ | _, NaN => NaN
  | PosInf, NegInf | NegInf, PosInf => NaN
  | PosInf, _ | _, PosInf => PosInf
  | NegInf, _ | _, NegInf => NegInf
  end.

Definition num_neg (x : num) : num :=
  match x with Fin a => fin (- a) | PosInf => NegInf | NegInf => PosInf | NaN => NaN end.

Definition num_sub (x y : num) : num := num_add x (num_neg y).

(** [x <= y], [x < y] and [x == y]: false as soon as one side is NaN. *)
Definition num_leb (x y : num) : bool :=
  match x, y with
  | NaN, _ | _, NaN => false
  | NegInf, _ | _, PosInf => true
  | Fin a, Fin b => Qle_bool a b
  | _, _ => false
  end.
Definition num_ltb (x y : num) : bool :=
  match x, y with
  | NaN, _ | _, NaN => false
  | _, _ => negb (num_leb y x)
  end.
Definition num_eqb (x y : num) : bool :=
  match x, y with
  | Fin a, Fin b => Qeq_bool a b
  | PosInf, PosInf | NegInf, NegInf => true
  | _, _ => false
  end.
Definition is_NaN (x : num) : bool := match x with NaN => true | _ => false end.

(** ** ToNumber on strings *)

Definition is_space (c : Z) : bool :=
  bool_decide (c ∈ [9; 10; 11; 12; 13; 32; 160; 5760; 8232; 8233; 8239; 8287; 12288; 65279])
  || ((8192 <=? c) && (c <=? 8202)).

Fixpoint trim_left (s : jstr) : jstr :=
  match s with
  | c :: s' => if is_space c then trim_left s' else s
  | [] => []
  end.
Definition trim (s : jstr) : jstr := rev (trim_left (rev (trim_left s))).

Definition digit_val (c : Z) : Z :=
  if (48 <=? c) && (c <=? 57) then c - 48
  else if (97 <=? c) && (c <=? 122) then c - 87
  else if (65 <=? c) && (c <=? 90) then c - 55
  else 99.

(** The longest prefix of digits in base [b]: its value, its length, the rest. *)
Fixpoint read_digits (b : Z) (s : jstr) (acc len : Z) : Z * Z * jstr :=
  match s with
  | c :: s' => if digit_val c <? b
               then read_digits b s' (acc * b + digit_val c) (len + 1)
               else (acc, len, s)
  | [] => (acc, len, [])
  end.

Definition pow10 (e : Z) : Q :=
  if 0 <=? e then inject_Z (10 ^ e) else / inject_Z (10 ^ (- e)).

(** The exponent part of a decimal literal, [Some 0] when there is none. *)
Definition read_exponent (s : jstr) : option Z :=
  match s with
  | [] => Some 0
  | c :: s1 =>
      if (c =? 101) || (c =? 69) then
        let '(sg, s2) := match s1 with
                         | 43 :: r => (1, r) | 45 :: r => (-1, r) | _ => (1, s1)
                         end in
        let '(e, n, r) := read_digits 10 s2 0 0 in
        if (n =? 0) || negb (bool_decide (r = [])) then None else Some (sg * e)
      else None
  end.

Definition read_decimal (s : jstr) : num :=
  let '(i, n, r) := read_digits 10 s 0 0 in
  let '(f, m, r') := match r with 46 :: r1 => read_digits 10 r1 i 0 | _ => (i, 0, r) end in
  if (n =? 0) && (m =? 0) then NaN
  else match read_exponent r' with
       | Some e => fin (inject_Z f * pow10 (e - m))
       | None => NaN
       end.

Definition read_radix (b : Z) (s : jstr) : num :=
  let '(v, n, r) := read_digits b s 0 0 in
  if (n =? 0) || negb (bool_decide (r = [])) then NaN else of_Z v.

Definition read_unsigned (s : jstr) : num :=
  if js_eqb s (u "Infinity") then PosInf else read_decimal s.

(** [Number(s)]. *)
Definition str_to_num (s : jstr) : num :=
  match trim s with
  | [] => of_Z 0
  | 48 :: 120 :: r | 48 :: 88 :: r => read_radix 16 r
  | 48 :: 111 :: r | 48 :: 79 :: r => read_radix 8 r
  | 48 :: 98 :: r | 48 :: 66 :: r => read_radix 2 r
  | 43 :: r => read_unsigned r
  | 45 :: r => num_neg (read_unsigned r)
  | r => read_unsigned r
  end.

Definition to_number (p : prim) : num :=
  match p with
  | PUndef => NaN
  | PNull => of_Z 0
  | PBool b => of_Z (if b then 1 else 0)
  | PNum n => n
  | PStr s => str_to_num s
  end.

(** ** Loose equality [==] of primitive values *)

Definition loose_eq (x y : prim) : bool :=
  match x, y with
  | PUndef, (PUndef | PNull) | PNull, (PUndef | PNull) => true
  | PUndef, _ | PNull, _ | _, PUndef | _, PNull => false
  | PStr a, PStr b => js_eqb a b
  | _, _ => num_eqb (to_number x) (to_number y)
  end.

(** Truth of a value used as a condition. *)
Definition truthy (p : prim) : bool :=
  match p with
  | PUndef | PNull => false
  | PBool b => b
  | PNum n => negb (is_NaN n || num_eqb n (of_Z 0))
  | PStr s => negb (bool_decide (s = []))
  end.

(** ** ToString on numbers

    Exact for the numbers whose decimal expansion ends within 20 places and that
    are below 10^21 in absolute value, which are the ones the program prints;
    JavaScript would print the others in rounded or exponent form. *)

Fixpoint drop_zeros (s : jstr) : jstr :=
  match s with 48 :: s' => drop_zeros s' | _ => s end.

Definition pad_left (n : nat) (c : Z) (s : jstr) : jstr := replicate (n - length s) c ++ s.

Definition Q_to_str (q : Q) : jstr :=
  if Qle_bool 0 q && Qeq_bool q (inject_Z (Qnum q / Zpos (Qden q)))
  then Z_to_str (Qnum q / Zpos (Qden q))
  else
    let a := Z.abs (Qnum q) in
    let d := Zpos (Qden q) in
    let frac := rev (drop_zeros (rev (pad_left 20 48 (Z_to_str ((a mod d) * 10 ^ 20 / d))))) in
    (if Qnum q <? 0 then [45] else []) ++ Z_to_str (a / d)
    ++ match frac with [] => [] | _ => 46 :: frac end.

Definition num_to_str (n : num) : jstr :=
  match n with
  | Fin q => Q_to_str q
  | PosInf => u "Infinity" | NegInf => u "-Infinity" | NaN => u "NaN"
  end.

Definition to_str (p : prim) : jstr :=
  match p with
  | PUndef => u "undefined" | PNull => u "null"
  | PBool true => u "true" | PBool false => u "false"
  | PNum n => num_to_str n | PStr s => s
  end.

(** [String(value)] *)
Section ToString.
(** What [String] gives for dates, in local time, and for functions. *)
Context (host_text : jsval -> jstr).
Fixpoint js_String (v : jsval) : jstr :=
  match v with
  | VUndef => u "undefined"
  | VNull => u "null"
  | VBool b => to_str (PBool b)
  | VNum n => num_to_str n
  | VStr s => s
  | VArr l => join [44] (map (fun w => match w with VUndef | VNull => [] | _ => js_String w end) l)
  | VObj _ => u "[object Object]"
  | VDate _ | VFun => host_text v
  end.
End ToString.

Example str_to_num_ex :
  map str_to_num [u "12"; u " 1.5 "; u "1e3"; u "-"; u "0x1F"; u ""; u "-0.25"]
  = [of_Z 12; Fin (3 # 2); of_Z 1000; NaN; of_Z 31; of_Z 0; Fin (-1 # 4)].
Proof. vm_compute. reflexivity. Qed.
Example num_to_str_ex :
  map num_to_str [of_Z 12; Fin (3 # 2); Fin (-1 # 40); of_Z (-5); NaN]
  = [u "12"; u "1.5"; u "-0.025"; u "-5"; u "NaN"].
Proof. vm_compute. reflexivity. Qed.
Example loose_eq_ex :
  loose_eq (PNum (of_Z 1)) (PStr (u " 1 ")) = true /\
  loose_eq (PStr (u "1")) (PStr (u "1.0")) = false /\ loose_eq PNull (PNum (of_Z 0)) = false.
Proof. vm_compute. auto. Qed.

(** ** Laws used by the clients *)

Lemma fin_proper a b : (a == b)%Q -> fin a = fin b.
Proof. intros H. unfold fin. f_equal. by apply Qred_complete. Qed.

Lemma Qred_int z : Qred (z # 1) = z # 1.
Proof.
  unfold Qred. pose proof (Z.ggcd_correct_divisors z 1) as H.
  pose proof (Z.ggcd_gcd z 1) as G. destruct (Z.ggcd z 1) as [g [x y]]. simpl in *.
  rewrite Z.gcd_1_r in G. subst g. destruct H as [H1 H2].
  assert (x = z) as -> by lia. assert (y = 1%Z) as -> by lia. reflexivity.
Qed.

Lemma of_Z_add a b : num_add (of_Z a) (of_Z b) = of_Z (a + b).
Proof.
  unfold num_add, of_Z, fin. f_equal.
  transitivity (Qred ((a + b) # 1)).
  - apply Qred_complete. unfold Qeq; simpl; lia.
  - apply Qred_int.
Qed.

Lemma num_eqb_of_Z a b : num_eqb (of_Z a) (of_Z b) = (a =? b).
Proof. unfold num_eqb, of_Z, Qeq_bool. simpl. by rewrite !Z.mul_1_r. Qed.

Lemma num_leb_of_Z a b : num_leb (of_Z a) (of_Z b) = (a <=? b).
Proof. unfold num_leb, of_Z, Qle_bool. simpl. by rewrite !Z.mul_1_r. Qed.

(** Addition of finite numbers is associative and commutative. *)
Lemma num_add_comm x y : num_add x y = num_add y x.
Proof.
  destruct x, y; try reflexivity. simpl. apply fin_proper. ring.
Qed.

Lemma num_add_assoc x y z : num_add x (num_add y z) = num_add (num_add x y) z.
Proof.
  destruct x, y, z; try reflexivity; simpl; try reflexivity.
  apply fin_proper. rewrite !Qred_correct. ring.
Qed.

(** Induction over values that reaches the elements of arrays and objects. *)
Section JsvalInd.
Context (P : jsval -> Prop).
Context (Hundef : P VUndef) (Hnull : P VNull) (Hbool : forall b, P (VBool b))
  (Hnum : forall n, P (VNum n)) (Hstr : forall s, P (VStr s))
  (Harr : forall l, Forall P l -> P (VArr l))
  (Hobj : forall l, Forall (fun kv => P (snd kv)) l -> P (VObj l))
  (Hdate : forall t, P (VDate t)) (Hfun : P VFun).
Fixpoint jsval_ind' (v : jsval) : P v :=
  match v with
  | VUndef => Hundef | VNull => Hnull | VBool b => Hbool b | VNum n => Hnum n
  | VStr s => Hstr s | VDate t => Hdate t | VFun => Hfun
  | VArr l => Harr l
      ((fix go l : Forall P l :=
          match l with [] => Forall_nil_2 _ | x :: l' => Forall_cons_2 _ _ _ (jsval_ind' x) (go l') end) l)
  | VObj l => Hobj l
      ((fix go l : Forall (fun kv => P (snd kv)) l :=
          match l with
          | [] => Forall_nil_2 _
          | kv :: l' => Forall_cons_2 _ _ _ (jsval_ind' (snd kv)) (go l')
          end) l)
  end.
End JsvalInd.

(** ** Decimal digits read back *)

Lemma digit_val_dec d : 0 <= d < 10 -> digit_val (48 + d) = d.
Proof.
  intros H. unfold digit_val.
  replace ((48 <=? 48 + d) && (48 + d <=? 57)) with true; [lia|].
  symmetry. apply andb_true_iff. lia.
Qed.

Lemma read_dec_digits f : forall n acc,
  0 <= n < 10 ^ Z.of_nat f -> (0 < f)%nat ->
  exists len, 0 < len /\
    read_digits 10 (dec_digits f n acc) 0 0 = read_digits 10 acc n len.
Proof.
  induction f as [|f IH]; intros n acc Hn Hf; [lia|].
  cbn [dec_digits]. pose proof (Z.mod_pos_bound n 10 ltac:(lia)) as Hm.
  pose proof (Z.div_mod n 10 ltac:(lia)) as Hd.
  assert (Hstep : forall a len, read_digits 10 ((48 + n mod 10) :: acc) a len
                    = read_digits 10 acc (a * 10 + n mod 10) (len + 1)).
  { intros a len. cbn [read_digits]. rewrite digit_val_dec by lia.
    destruct (n mod 10 <? 10) eqn:E; [done|lia]. }
  destruct (n / 10 =? 0) eqn:E.
  - exists 1. split; [lia|]. rewrite Hstep. f_equal; lia.
  - destruct (IH (n / 10) ((48 + n mod 10) :: acc)) as (len & Hlen & ->).
    + split; [apply Z.div_pos; lia|]. rewrite Nat2Z.inj_succ, Z.pow_succ_r in Hn by lia.
      apply Z.div_lt_upper_bound; lia.
    + destruct f; [cbn in Hn|]; lia.
    + exists (len + 1). split; [lia|]. rewrite Hstep. f_equal; lia.
Qed.

Definition is_digit (c : Z) : Prop := 48 <= c <= 57.

Lemma dec_digits_digits f : forall n acc,
  Forall is_digit acc -> Forall is_digit (dec_digits f n acc).
Proof.
  induction f as [|f IH]; intros n acc H; [done|]. cbn [dec_digits].
  pose proof (Z.mod_pos_bound n 10 ltac:(lia)) as Hm.
  assert (Forall is_digit ((48 + n mod 10) :: acc)) by (constructor; [unfold is_digit; lia|done]).
  destruct (n / 10 =? 0); auto.
Qed.

Lemma dec_fuel n : 0 <= n -> 0 <= n < 10 ^ Z.of_nat (Z.to_nat (Z.log2 n) + 1).
Proof.
  intros H. split; [done|].
  destruct (decide (n = 0)) as [->|Hn]; [reflexivity|].
  pose proof (Z.log2_spec n ltac:(lia)) as [_ Hl]. pose proof (Z.log2_nonneg n).
  eapply Z.lt_le_trans; [exact Hl|].
  replace (Z.of_nat (Z.to_nat (Z.log2 n) + 1)) with (Z.succ (Z.log2 n)) by lia.
  apply Z.pow_le_mono_l. lia.
Qed.

Definition no_space (s : jstr) : Prop := Forall (fun c => is_space c = false) s.

Lemma trim_no_space s : no_space s -> trim s = s.
Proof.
  assert (Hl : forall s, no_space s -> trim_left s = s).
  { intros s' [|c s'' Hc Hs]; [done|]. cbn [trim_left]. by rewrite Hc. }
  intros H. unfold trim. rewrite (Hl s) by done.
  rewrite Hl by (by apply Forall_rev). apply rev_involutive.
Qed.

Lemma digits_no_space s : Forall is_digit s -> no_space s.
Proof.
  intros H. eapply Forall_impl; [exact H|]. intros c Hc. unfold is_digit in Hc. unfold is_space.
  apply orb_false_iff. split; [|lia].
  apply bool_decide_eq_false. rewrite !list_elem_of_In. cbn. lia.
Qed.

Ltac digit_cases H :=
  unfold is_digit in H;
  repeat match type of H with
  | 48 <= ?c <= 57 =>
      assert (c = 48 \/ c = 49 \/ c = 50 \/ c = 51 \/ c = 52 \/ c = 53 \/ c = 54 \/ c = 55
              \/ c = 56 \/ c = 57) as [->|[->|[->|[->|[->|[->|[->|[->|[->| ->]]]]]]]]] by lia;
      clear H
  end.

Lemma read_unsigned_digits s n len :
  Forall is_digit s -> 0 < len -> read_digits 10 s 0 0 = (n, len, []) ->
  read_unsigned s = of_Z n.
Proof.
  intros Hs Hlen Hr. unfold read_unsigned.
  destruct (js_eqb s (u "Infinity")) eqn:E.
  { apply bool_decide_eq_true in E. subst s. inversion Hs as [|? ? Hc]. unfold is_digit in Hc. lia. }
  unfold read_decimal. rewrite Hr. cbn -[fin pow10].
  destruct (len =? 0) eqn:E'; [lia|]. cbn -[fin pow10].
  unfold of_Z. rewrite <- Qred_int. apply fin_proper.
  change (pow10 (0 - 0)) with 1%Q. rewrite Qmult_1_r. reflexivity.
Qed.

Lemma str_to_num_digits s :
  Forall is_digit s -> s <> [] -> str_to_num s = read_unsigned s.
Proof.
  intros Hs Hne. unfold str_to_num. rewrite trim_no_space by (by apply digits_no_space).
  destruct Hs as [|c s Hc Hs]; [done|]. digit_cases Hc; try reflexivity.
  destruct Hs as [|c s Hc Hs]; [reflexivity|]. digit_cases Hc; reflexivity.
Qed.

Lemma Z_to_str_nonneg_shape n : 0 <= n ->
  Forall is_digit (Z_to_str n) /\
  exists len, 0 < len /\ read_digits 10 (Z_to_str n) 0 0 = (n, len, []).
Proof.
  intros H. unfold Z_to_str. destruct (n <? 0) eqn:E; [lia|].
  split; [by apply dec_digits_digits|].
  destruct (read_dec_digits _ n [] (dec_fuel n H)) as (len & ? & ->); [lia|].
  by exists len.
Qed.

Lemma str_to_num_Z_to_str_nonneg n : 0 <= n -> str_to_num (Z_to_str n) = of_Z n.
Proof.
  intros H. destruct (Z_to_str_nonneg_shape n H) as (Hd & len & Hl & Hr).
  rewrite str_to_num_digits; [by eapply read_unsigned_digits|done|].
  intros E. rewrite E in Hr. cbn in Hr. injection Hr. lia.
Qed.

(** An integer printed and read back. *)
Lemma str_to_num_Z_to_str n : str_to_num (Z_to_str n) = of_Z n.
Proof.
  destruct (decide (0 <= n)) as [H|H]; [by apply str_to_num_Z_to_str_nonneg|].
  assert (E : Z_to_str n = 45 :: Z_to_str (- n)).
  { unfold Z_to_str. rewrite (proj2 (Z.ltb_lt n 0)) by lia.
    by rewrite (proj2 (Z.ltb_ge (- n) 0)) by lia. }
  destruct (Z_to_str_nonneg_shape (- n) ltac:(lia)) as (Hd & len & Hl & Hr).
  rewrite E. unfold str_to_num. rewrite trim_no_space.
  - rewrite (read_unsigned_digits _ (- n) len) by done.
    change (num_neg (of_Z (- n)) = of_Z n). unfold num_neg, of_Z, fin, Qopp.
    cbn [Qnum Qden]. by rewrite Z.opp_involutive, Qred_int.
  - constructor; [reflexivity|by apply digits_no_space].
Qed.

Lemma num_to_str_of_Z n : num_to_str (of_Z n) = Z_to_str n.
Proof.
  assert (Hd : n / 1 = n) by apply Z.div_1_r.
  cbn [num_to_str of_Z]. unfold Q_to_str. cbn [Qnum Qden]. rewrite !Hd.
  destruct (Qle_bool 0 (n # 1)) eqn:E; cbn [andb].
  - replace (Qeq_bool (n # 1) (inject_Z n)) with true; [done|].
    symmetry. apply Qeq_bool_iff. reflexivity.
  - assert (n < 0).
    { apply Z.nle_gt. intros H. assert (Qle_bool 0 (n # 1) = true); [|congruence].
      apply Qle_bool_iff. unfold Qle. cbn. lia. }
    rewrite (proj2 (Z.ltb_lt n 0)), Z.mod_1_r, Z.div_1_r by lia.
    change (rev (drop_zeros _)) with (@nil Z). rewrite app_nil_r.
    unfold Z_to_str. rewrite (proj2 (Z.ltb_lt n 0)) by lia.
    by rewrite (proj2 (Z.ltb_ge (Z.abs n) 0)), Z.abs_neq by lia.
Qed.
