(* ===== verification/JsDate.v ===== *)
(** * Dates: the calendar fields of a time value in milliseconds since the epoch
    (proleptic Gregorian calendar, no leap seconds), in UTC and in a zone given
    by the offset that [getTimezoneOffset] reports. *)

From Stdlib Require Import ZArith Lia.
From stdpp Require Import base tactics list numbers.
From S2P Require Import Prelude.
Local Open Scope Z_scope.

Definition ms_per_day : Z := 86400000.

(** Days before the civil date [y]-[m]-[d] (month 1 to 12), counted from
    1970-01-01. Years begin in March, in eras of 400 years. *)
Definition days_from_civil (y m d : Z) : Z :=
  let y' := if m <=? 2 then y - 1 else y in
  let era := y' / 400 in
  let yoe := y' mod 400 in
  let mp := (m + 9) mod 12 in
  let doy := (153 * mp + 2) / 5 + d - 1 in
  let doe := yoe * 365 + yoe / 4 - yoe / 100 + doy in
  era * 146097 + doe - 719468.

Definition civil_from_days (z0 : Z) : Z * Z * Z :=
  let z := z0 + 719468 in
  let era := z / 146097 in
  let doe := z mod 146097 in
  let yoe := (doe - doe / 1460 + doe / 36524 - doe / 146096) / 365 in
  let doy := doe - (365 * yoe + yoe / 4 - yoe / 100) in
  let mp := (5 * doy + 2) / 153 in
  let d := doy - (153 * mp + 2) / 5 + 1 in
  let m := if mp <? 10 then mp + 3 else mp - 9 in
  (yoe + era * 400 + (if m <=? 2 then 1 else 0), m, d).

Record fields := {
  f_year : Z; f_month : Z (* 0 to 11 *); f_date : Z;
  f_hours : Z; f_minutes : Z; f_seconds : Z; f_ms : Z
}.

(** The UTC fields of the time value [t]. *)
Definition utc_fields (t : Z) : fields :=
  let '(y, m, d) := civil_from_days (t / ms_per_day) in
  let r := t mod ms_per_day in
  {| f_year := y; f_month := m - 1; f_date := d;
     f_hours := r / 3600000; f_minutes := r / 60000 mod 60;
     f_seconds := r / 1000 mod 60; f_ms := r mod 1000 |}.

(** The local fields in a zone whose [getTimezoneOffset()] is [off] minutes. *)
Definition local_fields (off t : Z) : fields := utc_fields (t - off * 60000).

(** [new Date(y, m, d, h, mi, s)] as a time value; [m] counts from 0 and the
    parts may lie outside their ranges. *)
Definition make_local (off y m d h mi s : Z) : Z :=
  let y' := y + m / 12 in
  let m' := m mod 12 + 1 in
  (days_from_civil y' m' 1 + d - 1) * ms_per_day
  + h * 3600000 + mi * 60000 + s * 1000 + off * 60000.

(** The two calendar functions are inverse. *)
Lemma year_of_era yoe doy :
  0 <= yoe < 400 -> 0 <= doy <= 365 ->
  (doy = 365 -> (yoe + 1) mod 4 = 0 /\ ((yoe + 1) mod 100 <> 0 \/ yoe = 399)) ->
  let doe := yoe * 365 + yoe / 4 - yoe / 100 + doy in
  (doe - doe / 1460 + doe / 36524 - doe / 146096) / 365 = yoe.
Proof. intros H1 H2 H3 doe. subst doe. Z.div_mod_to_equations; lia. Qed.

Lemma days_from_civil_from_days z :
  let '(y, m, d) := civil_from_days z in days_from_civil y m d = z.
Proof.
  unfold civil_from_days, days_from_civil.
  set (doe := (z + 719468) mod 146097). set (era := (z + 719468) / 146097).
  set (yoe := (doe - doe / 1460 + doe / 36524 - doe / 146096) / 365).
  set (doy := doe - (365 * yoe + yoe / 4 - yoe / 100)).
  set (mp := (5 * doy + 2) / 153).
  assert (Hdoe : 0 <= doe < 146097) by (subst doe; apply Z.mod_pos_bound; lia).
  assert (Hz : z + 719468 = 146097 * era + doe) by (subst doe era; apply Z.div_mod; lia).
  assert (Hyoe : 0 <= yoe < 400) by (subst yoe; Z.div_mod_to_equations; lia).
  assert (Hdoy : 0 <= doy <= 365) by (subst doy yoe; clear mp; Z.div_mod_to_equations; lia).
  assert (Hmp : 0 <= mp <= 11) by (subst mp; Z.div_mod_to_equations; lia).
  assert (Hm : (if mp <? 10 then mp + 3 else mp - 9) + 9 = mp + 12 * (if mp <? 10 then 1 else 0))
    by (destruct (mp <? 10); lia).
  rewrite Hm. replace ((mp + _) mod 12) with mp.
  2:{ destruct (mp <? 10); [rewrite Z.mul_1_r, Z.add_mod, Z.mod_same, Z.add_0_r, Z.mod_mod by lia |
      rewrite Z.mul_0_r, Z.add_0_r]; symmetry; apply Z.mod_small; lia. }
  set (m := if mp <? 10 then mp + 3 else mp - 9) in *.
  replace (if m <=? 2 then yoe + era * 400 + (if m <=? 2 then 1 else 0) - 1
           else yoe + era * 400 + (if m <=? 2 then 1 else 0)) with (yoe + era * 400)
    by (destruct (m <=? 2); lia).
  rewrite Z.div_add, Z.mod_add, Z.div_small, Z.mod_small by lia. subst doy. lia.
Qed.

Example civil_ex :
  map civil_from_days [0; 59; 11016; 18262; -1]
  = [(1970, 1, 1); (1970, 3, 1); (2000, 2, 29); (2020, 1, 1); (1969, 12, 31)].
Proof. vm_compute. reflexivity. Qed.

(** The fields are in their calendar ranges; the year grows with the day. *)
Lemma civil_ranges z :
  let '(y, m, d) := civil_from_days z in
  1 <= m <= 12 /\ 1 <= d <= 31 /\ (0 <= z -> 1970 <= y) /\ (z < 2932897 -> y <= 9999).
Proof.
  unfold civil_from_days.
  set (doe := (z + 719468) mod 146097). set (era := (z + 719468) / 146097).
  set (yoe := (doe - doe / 1460 + doe / 36524 - doe / 146096) / 365).
  set (doy := doe - (365 * yoe + yoe / 4 - yoe / 100)).
  set (mp := (5 * doy + 2) / 153).
  assert (Hdoe : 0 <= doe < 146097) by (subst doe; apply Z.mod_pos_bound; lia).
  assert (Hz : z + 719468 = 146097 * era + doe) by (subst doe era; apply Z.div_mod; lia).
  assert (Hyoe : 0 <= yoe < 400) by (subst yoe; Z.div_mod_to_equations; lia).
  assert (Hdoy : 0 <= doy <= 365) by (subst doy yoe; clear mp; Z.div_mod_to_equations; lia).
  assert (Hmp : 0 <= mp <= 11 /\ 153 * mp <= 5 * doy + 2 < 153 * mp + 153)
    by (subst mp; Z.div_mod_to_equations; lia).
  assert (Hy : 365 * yoe + yoe / 4 - yoe / 100 + doy = doe) by (subst doy; lia).
  clearbody doy mp yoe. clear Hdoe.
  repeat split; try (destruct (mp <? 10) eqn:E; [|]; lia);
    try (Z.div_mod_to_equations; lia);
    intros Hb; destruct (mp <? 10) eqn:E; destruct (_ <=? 2) eqn:E2; Z.div_mod_to_equations; lia.
Qed.

Lemma utc_ranges t : let f := utc_fields t in
  0 <= f_month f <= 11 /\ 1 <= f_date f <= 31 /\ 0 <= f_hours f < 24 /\ 0 <= f_minutes f < 60 /\
  0 <= f_seconds f < 60 /\ (0 <= t -> 1970 <= f_year f).
Proof.
  unfold utc_fields. pose proof (civil_ranges (t / ms_per_day)) as H.
  destruct (civil_from_days (t / ms_per_day)) as [[y m] d]. destruct H as (H1 & H2 & H3 & _).
  pose proof (Z.mod_pos_bound t ms_per_day ltac:(unfold ms_per_day; lia)) as Hr.
  unfold ms_per_day in *. cbn. repeat split; try lia; try (Z.div_mod_to_equations; lia).
Qed.

(** A time value made from the fields of [t] is [t], up to its milliseconds. *)
Lemma make_local_utc off t : let f := utc_fields t in
  make_local off (f_year f) (f_month f) (f_date f) (f_hours f) (f_minutes f) (f_seconds f)
  = t - t mod 1000 + off * 60000.
Proof.
  unfold utc_fields, make_local. pose proof (civil_ranges (t / ms_per_day)) as H.
  pose proof (days_from_civil_from_days (t / ms_per_day)) as Hd.
  destruct (civil_from_days (t / ms_per_day)) as [[y m] d]. destruct H as (H1 & H2 & _).
  cbn. rewrite (Z.div_small (m - 1) 12), (Z.mod_small (m - 1) 12), Z.add_0_r, Z.sub_add by lia.
  assert (Hday : days_from_civil y m 1 + d - 1 = t / ms_per_day).
  { rewrite <- Hd. unfold days_from_civil. lia. }
  rewrite Hday. unfold ms_per_day. clear. Z.div_mod_to_equations; lia.
Qed.
