(* ===== verification/Json.v ===== *)
(** * JSON text: the [JSON.stringify] of [language/javascript/dmt_json2.js] and
    the [$.toJSON] of [html/resource/js/jquery.json-2.3.js].

    [Stringify] models the serialiser that the report client loads in browsers
    without a native JSON object; [JqueryJson] the fallback serialiser of the
    console pages; [Reader] is the JSON grammar used as specification. *)

From Stdlib Require Import ZArith Lia QArith.
From stdpp Require Import base tactics list numbers strings.
From S2P Require Import Prelude JsValue JsDate.
Local Open Scope Z_scope.

(** [n.toString(16)]: lower-case hexadecimal without leading zeros. *)
Definition hex_digit (d : Z) : Z := if d <? 10 then 48 + d else 87 + d.
Fixpoint hex_digits (fuel : nat) (n : Z) (acc : jstr) : jstr :=
  match fuel with
  | O => acc
  | S f => let acc' := hex_digit (n mod 16) :: acc in
           if n / 16 =? 0 then acc' else hex_digits f (n / 16) acc'
  end.
Definition Z_to_hex (n : Z) : jstr := hex_digits (Z.to_nat (Z.log2 n) + 1) n [].

(** [s.slice(-n)]: the last [n] units. *)
Definition slice_last (n : nat) (s : jstr) : jstr := drop (length s - n) s.

(** The layout of an array or object text: its parts on one line when [gap] is
    empty, one per line indented by [gap] otherwise. *)
Definition layout (op cl : jstr) (gap mind : jstr) (partial : list jstr) : jstr :=
  match partial with
  | [] => op ++ cl
  | _ => match gap with
         | [] => op ++ join [44] partial ++ cl
         | _ => op ++ [10] ++ gap ++ join ([44; 10] ++ gap) partial ++ [10] ++ mind ++ cl
         end
  end.

Module Stringify.

(** [rx_escapable] *)
Definition escapable (c : Z) : bool :=
  (c =? 92) || (c =? 34) || ((0 <=? c) && (c <=? 31)) || ((127 <=? c) && (c <=? 159))
  || (c =? 173) || ((1536 <=? c) && (c <=? 1540)) || (c =? 1807) || (c =? 6068) || (c =? 6069)
  || ((8204 <=? c) && (c <=? 8207)) || ((8232 <=? c) && (c <=? 8239))
  || ((8288 <=? c) && (c <=? 8303)) || (c =? 65279) || ((65520 <=? c) && (c <=? 65535)).

(** The table [meta] of short escapes. *)
Definition meta (c : Z) : option jstr :=
  match c with
  | 8 => Some (u "\b") | 9 => Some (u "\t") | 10 => Some (u "\n") | 12 => Some (u "\f")
  | 13 => Some (u "\r") | 34 => Some [92; 34] | 92 => Some (u "\\")
  | _ => None
  end.

Definition escape (c : Z) : jstr :=
  match meta c with
  | Some e => e
  | None => u "\u" ++ slice_last 4 (u "0000" ++ Z_to_hex c)
  end.

Definition quote (s : jstr) : jstr :=
  if existsb escapable s
  then [34] ++ flat_map (fun c => if escapable c then escape c else [c]) s ++ [34]
  else [34] ++ s ++ [34].

(** [f(n)]: at least two digits. *)
Definition f (n : Z) : jstr := if n <? 10 then 48 :: Z_to_str n else Z_to_str n.

(** [Date.prototype.toJSON] *)
Definition date_toJSON (t : option Z) : jsval :=
  match t with
  | None => VNull
  | Some ms =>
      let d := utc_fields ms in
      VStr (Z_to_str (f_year d) ++ u "-" ++ f (f_month d + 1) ++ u "-" ++ f (f_date d)
            ++ u "T" ++ f (f_hours d) ++ u ":" ++ f (f_minutes d) ++ u ":"
            ++ f (f_seconds d) ++ u "Z")
  end.

(** The replacer: none, a function of holder, key and value, or a list of keys. *)
Inductive replacer :=
  | RepNone
  | RepFun (g : jsval -> prim -> jsval -> jsval)
  | RepKeys (ks : list jsval).

(** The result of [str]: a text, [undefined], or no answer within the fuel. *)
Inductive outcome := Text (s : jstr) | Undefined | OutOfFuel.

(** [partial[i] = str(i, value) || "null"] for every element. *)
Fixpoint elements_text (rs : list outcome) : option (list jstr) :=
  match rs with
  | [] => Some []
  | OutOfFuel :: _ => None
  | r :: rs' => cons (match r with Text s => s | _ => u "null" end) <$> elements_text rs'
  end.

(** [if (v) partial.push(quote(k) + (gap ? ": " : ":") + v)] for every member. *)
Fixpoint members_text (gap : jstr) (rs : list (jstr * outcome)) : option (list jstr) :=
  match rs with
  | [] => Some []
  | (_, OutOfFuel) :: _ => None
  | (_, Undefined) :: rs' => members_text gap rs'
  | (k, Text v) :: rs' =>
      cons (quote k ++ (match gap with [] => u ":" | _ => u ": " end) ++ v)
      <$> members_text gap rs'
  end.

(** [value[k]] of an own property; a missing one reads [undefined]. *)
Fixpoint get_member (k : jstr) (l : list (jstr * jsval)) : jsval :=
  match l with
  | [] => VUndef
  | (k', v) :: l' => if js_eqb k k' then v else get_member k l'
  end.

Definition string_keys (ks : list jsval) : list jstr :=
  omap (fun k => match k with VStr s => Some s | _ => None end) ks.

Definition finish (op cl gap mind : jstr) (parts : option (list jstr)) : outcome :=
  match parts with Some l => Text (layout op cl gap mind l) | None => OutOfFuel end.

(** [str(key, holder)], where [value0] is [holder[key]]. [mind] is the value of
    the shared variable [gap] on entry, which every path restores. *)
Fixpoint str (fuel : nat) (rep : replacer) (indent mind : jstr)
    (key : prim) (holder value0 : jsval) : outcome :=
  match fuel with
  | O => OutOfFuel
  | S fuel' =>
      let value1 := match value0 with VDate t => date_toJSON t | v => v end in
      let value := match rep with RepFun g => g holder key value1 | _ => value1 end in
      match value with
      | VStr s => Text (quote s)
      | VNum n => Text (match n with Fin _ => num_to_str n | _ => u "null" end)
      | VBool b => Text (if b then u "true" else u "false")
      | VUndef | VFun => Undefined
      | VNull => Text (u "null")
      | VArr l =>
          let gap := mind ++ indent in
          finish [91] [93] gap mind
            (elements_text (imap (fun i x =>
               str fuel' rep indent gap (PNum (of_Z (Z.of_nat i))) value x) l))
      | VDate _ =>   (* a date that a replacer put there: no enumerable property *)
          Text (u "{}")
      | VObj l =>
          let gap := mind ++ indent in
          let go k x := str fuel' rep indent gap (PStr k) value x in
          finish [123] [125] gap mind
            (members_text gap
               (match rep with
                | RepKeys ks => map (fun k => (k, go k (get_member k l))) (string_keys ks)
                | _ => map (fun kv => (fst kv, go (fst kv) (snd kv))) l
                end))
      end
  end.

(** The [space] argument: a number of spaces, a string, or anything else. *)
Inductive space_arg := SpaceNum (n : Z) | SpaceStr (s : jstr) | SpaceOther.
Definition indent_of (sp : space_arg) : jstr :=
  match sp with
  | SpaceNum n => replicate (Z.to_nat n) 32
  | SpaceStr s => s
  | SpaceOther => []
  end.

(** The [replacer] argument: absent or falsy, a function, an object with a
    numeric length, or another value, which is refused. *)
Inductive replacer_arg :=
  | RANone | RAFun (g : jsval -> prim -> jsval -> jsval) | RAArr (ks : list jsval) | RABad.
Inductive thrown := Throws (msg : jstr) | Returns (o : outcome).

(** [JSON.stringify(value, replacer, space)] *)
Definition stringify (fuel : nat) (value : jsval) (ra : replacer_arg) (sp : space_arg) : thrown :=
  let go rep := Returns (str fuel rep (indent_of sp) [] (PStr []) (VObj [([], value)]) value) in
  match ra with
  | RANone => go RepNone
  | RAFun g => go (RepFun g)
  | RAArr ks => go (RepKeys ks)
  | RABad => Throws (u "JSON.stringify")
  end.

(** Fuel enough for a value: its depth. *)
Fixpoint depth (v : jsval) : nat :=
  match v with
  | VArr l => S (fold_right (fun x n => Nat.max (depth x) n) 0%nat l)
  | VObj l => S (fold_right (fun kv n => Nat.max (depth (snd kv)) n) 1%nat l)
  | _ => 1%nat
  end.

(** The text of a value as [JSON.stringify(v)] gives it; [None] is [undefined]. *)
Definition stringify_plain (v : jsval) : option jstr :=
  match stringify (depth v) v RANone SpaceOther with
  | Returns (Text s) => Some s
  | _ => None
  end.

Example stringify_ex :
  stringify_plain (VObj [(u "a", VArr [VNum (of_Z 1); VUndef; VStr [34; 10; 173]]);
                         (u "f", VFun); (u "d", VDate (Some 1577934245000))])
  = Some (u "{" ++ [34; 97; 34] ++ u ":[1,null," ++ [34; 92; 34] ++ u "\n\u00ad" ++ [34] ++ u "],"
          ++ [34; 100; 34] ++ u ":" ++ [34] ++ u "2020-01-02T03:04:05Z" ++ [34] ++ u "}").
Proof. vm_compute. reflexivity. Qed.

End Stringify.

(** The [JSON] object that a page finds: the browser's own, or the one of json2. Its
    clients use [JSON.stringify(value)]; what they rely on is stated in [JsonLaws]
    of [JsonFacts]. *)
Class JsonObject := { JSON_stringify : jsval -> option jstr }.
#[export] Instance json2 : JsonObject := { JSON_stringify := Stringify.stringify_plain }.

(** ** The fallback serialiser of the console pages *)
Module JqueryJson.
Import Stringify.

(** [escapeable] *)
Definition escapeable (c : Z) : bool :=
  (c =? 34) || (c =? 92) || ((0 <=? c) && (c <=? 31)) || ((127 <=? c) && (c <=? 159)).

(** The replacement of one matched unit, with the same table [meta] as json2. *)
Definition escape_unit (c : Z) : jstr :=
  match meta c with
  | Some e => e
  | None => u "\u00" ++ Z_to_hex (c / 16) ++ Z_to_hex (c mod 16)
  end.

Definition quoteString (s : jstr) : jstr :=
  if existsb escapeable s
  then [34] ++ flat_map (fun c => if escapeable c then escape_unit c else [c]) s ++ [34]
  else [34] ++ s ++ [34].

(** [if (n < 10) n = '0' + n] *)
Definition pad2 (n : Z) : jstr := if n <? 10 then 48 :: Z_to_str n else Z_to_str n.

(** The text of a Date: two digits a part, three for the milliseconds (the second
    test compares the text already padded as a number). *)
Definition date_text (t : Z) : jstr :=
  let d := utc_fields t in
  let milli := f_ms d in
  let m1 := if milli <? 100 then 48 :: Z_to_str milli else Z_to_str milli in
  let m2 := if milli <? 10 then 48 :: m1 else m1 in
  [34] ++ Z_to_str (f_year d) ++ u "-" ++ pad2 (f_month d + 1) ++ u "-" ++ pad2 (f_date d)
  ++ u "T" ++ pad2 (f_hours d) ++ u ":" ++ pad2 (f_minutes d) ++ u ":" ++ pad2 (f_seconds d)
  ++ u "." ++ m2 ++ u "Z" ++ [34].

(** A date that is not a time: every field is NaN, and NaN is not below 10. *)
Definition nan_date_text : jstr :=
  [34] ++ u "NaN-NaN-NaNTNaN:NaN:NaN.NaNZ" ++ [34].

Section ToJSON.
(** The [Date.prototype.toJSON] of the host, when it has one. *)
Context (host_date_toJSON : option (option Z -> option jstr)).

(** [type === 'function' || type === 'undefined'] *)
Definition skipped (v : jsval) : bool := match v with VFun | VUndef => true | _ => false end.

(** [$.toJSON(o)]; [None] is [undefined]. A host [toJSON] gives a string or null,
    which is serialised in its turn. *)
Fixpoint toJSON (o : jsval) : option jstr :=
  match o with
  | VNull => Some (u "null")
  | VUndef => None
  | VNum n => Some (num_to_str n)
  | VBool b => Some (if b then u "true" else u "false")
  | VStr s => Some (quoteString s)
  | VDate t =>
      match host_date_toJSON with
      | Some g => match g t with Some s => Some (quoteString s) | None => Some (u "null") end
      | None => Some (match t with Some ms => date_text ms | None => nan_date_text end)
      end
  | VArr l =>
      Some ([91] ++ join [44] (map (fun x => match toJSON x with Some t => t | None => u "null" end) l)
            ++ [93])
  | VObj l =>
      let pairs :=
        flat_map (fun kv =>
          if skipped (snd kv) then []
          else match toJSON (snd kv) with
               | Some t => [quoteString (fst kv) ++ u ":" ++ t]
               | None => []
               end) l in
      Some ([123] ++ join [44] pairs ++ [125])
  | VFun => None
  end.
End ToJSON.

Example toJSON_ex :
  toJSON None (VArr [VUndef; VStr [1; 34]; VDate (Some 1577934245007)])
  = Some (u "[null," ++ [34] ++ u "\u0001\" ++ [34; 34] ++ u "," ++ [34]
          ++ u "2020-01-02T03:04:05.007Z" ++ [34] ++ u "]").
Proof. vm_compute. reflexivity. Qed.

End JqueryJson.

(** ** A reader of JSON texts, the specification of the serialisers *)
Module Reader.

Definition is_ws (c : Z) : bool := (c =? 32) || (c =? 9) || (c =? 10) || (c =? 13).
Fixpoint skip_ws (s : jstr) : jstr :=
  match s with c :: s' => if is_ws c then skip_ws s' else s | [] => [] end.

(** The units a number token is made of. *)
Definition num_char (c : Z) : bool :=
  ((48 <=? c) && (c <=? 57)) || (c =? 43) || (c =? 45) || (c =? 46) || (c =? 69) || (c =? 101).
Fixpoint number_token (s : jstr) : jstr * jstr :=
  match s with
  | c :: s' => if num_char c then let '(t, r) := number_token s' in (c :: t, r) else ([], s)
  | [] => ([], [])
  end.

Definition unescape (c : Z) : option Z :=
  match c with
  | 98 => Some 8 | 116 => Some 9 | 110 => Some 10 | 102 => Some 12 | 114 => Some 13
  | 34 => Some 34 | 92 => Some 92 | 47 => Some 47 | _ => None
  end.

Definition hex4 (a b c d : Z) : option Z :=
  if forallb (fun x => digit_val x <? 16) [a; b; c; d]
  then Some (((digit_val a * 16 + digit_val b) * 16 + digit_val c) * 16 + digit_val d)
  else None.

(** The rest of a string literal after its opening quote. *)
Fixpoint read_string (s : jstr) : option (jstr * jstr) :=
  let more o r := match o, r with Some x, Some (w, r') => Some (x :: w, r') | _, _ => None end in
  match s with
  | [] => None
  | c :: r =>
      if c =? 34 then Some ([], r)
      else if c =? 92 then
        match r with
        | 117 :: a :: b :: c' :: d :: r' => more (hex4 a b c' d) (read_string r')
        | e :: r' => more (unescape e) (read_string r')
        | [] => None
        end
      else if c <? 32 then None
      else more (Some c) (read_string r)
  end.

(** The grammar of numbers: a minus sign, digits without a leading zero, a fraction with
    digits and an exponent with digits. *)
Definition dec (c : Z) : bool := (48 <=? c) && (c <=? 57).
Fixpoint drop_dec (s : jstr) : jstr := match s with c :: r => if dec c then drop_dec r else s | [] => [] end.
Definition some_dec (s : jstr) : option jstr := match s with c :: r => if dec c then Some (drop_dec r) else None | [] => None end.
Definition after_sign (s : jstr) : jstr := match s with c :: r => if c =? 45 then r else s | [] => [] end.
Definition after_int (s : jstr) : option jstr :=
  match s with c :: r => if c =? 48 then Some r else some_dec s | [] => None end.
Definition after_frac (s : jstr) : option jstr := match s with c :: r => if c =? 46 then some_dec r else Some s | [] => Some [] end.
Definition after_exp (s : jstr) : option jstr :=
  match s with
  | c :: r =>
      if (c =? 101) || (c =? 69)
      then some_dec (match r with d :: r' => if (d =? 43) || (d =? 45) then r' else r | [] => [] end) else Some s
  | [] => Some []
  end.
Definition json_number (t : jstr) : bool :=
  match after_int (after_sign t) with
  | Some r => match after_frac r with Some r => bool_decide (after_exp r = Some []) | None => false end
  | None => false
  end.
Definition read_number (s : jstr) : option (jsval * jstr) :=
  let '(t, r) := number_token s in
  if json_number t then match str_to_num t with Fin q => Some (VNum (Fin q), r) | _ => None end else None.

Fixpoint value (fuel : nat) (s : jstr) : option (jsval * jstr) :=
  match fuel with
  | O => None
  | S f =>
      match skip_ws s with
      | 34 :: r => match read_string r with Some (w, r') => Some (VStr w, r') | None => None end
      | 91 :: r =>
          match skip_ws r with
          | 93 :: r' => Some (VArr [], r')
          | _ => match elements f r with Some (l, r') => Some (VArr l, r') | None => None end
          end
      | 123 :: r =>
          match skip_ws r with
          | 125 :: r' => Some (VObj [], r')
          | _ => match members f r with Some (l, r') => Some (VObj l, r') | None => None end
          end
      | 116 :: 114 :: 117 :: 101 :: r => Some (VBool true, r)
      | 102 :: 97 :: 108 :: 115 :: 101 :: r => Some (VBool false, r)
      | 110 :: 117 :: 108 :: 108 :: r => Some (VNull, r)
      | s' => read_number s'
      end
  end
with elements (fuel : nat) (s : jstr) : option (list jsval * jstr) :=
  match fuel with
  | O => None
  | S f =>
      match value f s with
      | Some (v, r) =>
          match skip_ws r with
          | 44 :: r' => match elements f r' with Some (l, r'') => Some (v :: l, r'') | None => None end
          | 93 :: r' => Some ([v], r')
          | _ => None
          end
      | None => None
      end
  end
with members (fuel : nat) (s : jstr) : option (list (jstr * jsval) * jstr) :=
  match fuel with
  | O => None
  | S f =>
      match skip_ws s with
      | 34 :: r =>
          match read_string r with
          | Some (k, r1) =>
              match skip_ws r1 with
              | 58 :: r2 =>
                  match value f r2 with
                  | Some (v, r3) =>
                      match skip_ws r3 with
                      | 44 :: r4 =>
                          match members f r4 with
                          | Some (l, r5) => Some ((k, v) :: l, r5) | None => None
                          end
                      | 125 :: r4 => Some ([(k, v)], r4)
                      | _ => None
                      end
                  | None => None
                  end
              | _ => None
              end
          | None => None
          end
      | _ => None
      end
  end.

(** A whole text: a value and then only white space. The length of the text is
    fuel enough: every call consumes a unit. *)
Definition parse (s : jstr) : option jsval :=
  match value (length s) s with
  | Some (v, r) => if bool_decide (skip_ws r = []) then Some v else None
  | None => None
  end.

Example parse_ex :
  parse (u "[1, -2.5,{ } ,[true]] ")
  = Some (VArr [VNum (of_Z 1); VNum (Fin (-5 # 2)); VObj []; VArr [VBool true]]).
Proof. vm_compute. reflexivity. Qed.
Example strict_ex : map (fun t => parse (u t)) ["010"; "+5"; "1."; ".5"; "-"; "1e"; "1-2"; "[1,]"]%string = replicate 8 None.
Proof. vm_compute. reflexivity. Qed.

End Reader.
