(* ===== verification/JsonFacts.v ===== *)
(** * Facts about the JSON serialisers of [Json.v]: string literals, the text of
    a value read back, fuel. *)

From Stdlib Require Import ZArith Lia QArith.
From stdpp Require Import base tactics list numbers strings.
From S2P Require Import Prelude JsValue JsDate Json.
Import Stringify Reader.
Local Open Scope Z_scope.

(** ** String literals *)

Lemma hex_digit_val d : 0 <= d < 16 -> digit_val (hex_digit d) = d.
Proof.
  intros H. unfold hex_digit, digit_val. destruct (d <? 10) eqn:E.
  - replace ((48 <=? 48 + d) && (48 + d <=? 57)) with true by (symmetry; apply andb_true_iff; lia). lia.
  - replace ((48 <=? 87 + d) && (87 + d <=? 57)) with false by (symmetry; apply andb_false_iff; lia).
    replace ((97 <=? 87 + d) && (87 + d <=? 122)) with true by (symmetry; apply andb_true_iff; lia). lia.
Qed.

Lemma hex_digits_fuel f1 : forall f2 n acc,
  0 <= n < 16 ^ Z.of_nat f1 -> n < 16 ^ Z.of_nat f2 -> (0 < f1)%nat -> (0 < f2)%nat ->
  hex_digits f1 n acc = hex_digits f2 n acc.
Proof.
  induction f1 as [|f1 IH]; intros [|f2] n acc H1 H2 ??; try lia.
  cbn [hex_digits]. destruct (n / 16 =? 0) eqn:E; [done|].
  rewrite Nat2Z.inj_succ, Z.pow_succ_r in H1, H2 by lia.
  assert (0 <= n / 16) by (apply Z.div_pos; lia).
  assert (n / 16 < 16 ^ Z.of_nat f1) by (apply Z.div_lt_upper_bound; lia).
  assert (n / 16 < 16 ^ Z.of_nat f2) by (apply Z.div_lt_upper_bound; lia).
  apply IH; [lia|lia|destruct f1; [cbn in *|]; lia|destruct f2; [cbn in *|]; lia].
Qed.

(** Four digits of a unit, padded. *)
Lemma hex4_text c : 0 <= c < 65536 ->
  slice_last 4 (u "0000" ++ Z_to_hex c)
  = [hex_digit (c / 4096); hex_digit (c / 256 mod 16); hex_digit (c / 16 mod 16); hex_digit (c mod 16)].
Proof.
  intros Hc. unfold Z_to_hex. rewrite (hex_digits_fuel _ 4); try lia.
  2:{ split; [lia|]. destruct (decide (c = 0)) as [->|Hn]; [reflexivity|].
      pose proof (Z.log2_spec c ltac:(lia)) as [_ Hl]. pose proof (Z.log2_nonneg c).
      eapply Z.lt_le_trans; [exact Hl|].
      replace (Z.of_nat (Z.to_nat (Z.log2 c) + 1)) with (Z.succ (Z.log2 c)) by lia.
      apply Z.pow_le_mono_l. lia. }
  change (u "0000") with [48; 48; 48; 48]. cbn [hex_digits].
  rewrite !Z.div_div by lia. change (16 * 16) with 256. change (256 * 16) with 4096.
  assert (Hz : forall k, 0 < k -> c / k = 0 -> hex_digit (c / k mod 16) = 48)
    by (intros k _ ->; reflexivity).
  assert (Hm : hex_digit (c / 4096 mod 16) = hex_digit (c / 4096))
    by (rewrite Z.mod_small; [done|split; [apply Z.div_pos|apply Z.div_lt_upper_bound]; lia]).
  assert (H48 : forall k, c / k = 0 -> hex_digit (c / k) = 48) by (intros k ->; reflexivity).
  assert (Hmono : forall a b, 0 < a -> a <= b -> c / a = 0 -> c / b = 0).
  { intros a b Ha Hb Hq. apply Z.div_small_iff in Hq; [|lia]. apply Z.div_small. lia. }
  destruct (c / 16 =? 0) eqn:E1; [|destruct (c / 256 =? 0) eqn:E2; [|destruct (c / 4096 =? 0) eqn:E3]];
    repeat match goal with H : (_ =? 0) = true |- _ => apply Z.eqb_eq in H end.
  - cbn. rewrite (Hz 16) by lia. rewrite (Hz 256) by (try lia; apply (Hmono 16); lia).
    rewrite (H48 4096) by (apply (Hmono 16); lia). done.
  - cbn. rewrite (Hz 256) by lia. rewrite (H48 4096) by (apply (Hmono 256); lia). done.
  - cbn. by rewrite (H48 4096) by done.
  - case_match; cbn; by rewrite Hm.
Qed.

Lemma hex4_value c : 0 <= c < 65536 ->
  hex4 (hex_digit (c / 4096)) (hex_digit (c / 256 mod 16)) (hex_digit (c / 16 mod 16))
    (hex_digit (c mod 16)) = Some c.
Proof.
  intros Hc. unfold hex4. cbn [forallb].
  rewrite !hex_digit_val by (Z.div_mod_to_equations; lia).
  replace (_ && _) with true.
  - f_equal. Z.div_mod_to_equations; lia.
  - symmetry. rewrite !andb_true_iff. Z.div_mod_to_equations; lia.
Qed.

Definition enc (c : Z) : jstr := if escapable c then escape c else [c].

Lemma quote_flat s : quote s = 34 :: flat_map enc s ++ [34].
Proof.
  unfold quote. destruct (existsb escapable s) eqn:E; [done|]. cbn. do 2 f_equal.
  induction s as [|c s IH]; [done|]. cbn in E. apply orb_false_iff in E as [E1 E2].
  cbn. unfold enc at 1. rewrite E1. cbn. f_equal. by apply IH.
Qed.

Definition push (c : Z) (o : option (jstr * jstr)) : option (jstr * jstr) :=
  match o with Some (w, r) => Some (c :: w, r) | None => None end.

(** Each unit of a literal is read back. *)
Lemma read_enc c r : 0 <= c < 65536 -> read_string (enc c ++ r) = push c (read_string r).
Proof.
  intros Hc. unfold enc. destruct (escapable c) eqn:E.
  - unfold escape. destruct (meta c) as [e|] eqn:Em.
    + unfold meta in Em.
      repeat (case_match; try discriminate Em); injection Em as <-; reflexivity.
    + rewrite hex4_text by done. change (u "\u") with [92; 117].
      pose proof (hex4_value c Hc) as Hv.
      set (a := hex_digit (c / 4096)) in *. set (b := hex_digit (c / 256 mod 16)) in *.
      set (d := hex_digit (c / 16 mod 16)) in *. set (e := hex_digit (c mod 16)) in *.
      cbn [app read_string Z.eqb Pos.eqb]. rewrite Hv. by destruct (read_string r) as [[? ?]|].
  - unfold escapable in E. rewrite !orb_false_iff in E.
    destruct E as [[[[[[[[[[[[[E92 E34] E31] _] _] _] _] _] _] _] _] _] _] _].
    cbn [app read_string]. rewrite E34, E92.
    replace (c <? 32) with false; [done|].
    symmetry. apply andb_false_iff in E31. lia.
Qed.

Lemma read_quote_tail s r : units s -> read_string (flat_map enc s ++ 34 :: r) = Some (s, r).
Proof.
  induction 1 as [|c s Hc Hs IH]; [done|].
  cbn [flat_map]. rewrite <- app_assoc, read_enc by done. by rewrite IH.
Qed.

Lemma value_quote f s r : units s -> value (S f) (quote s ++ r) = Some (VStr s, r).
Proof.
  intros H. rewrite quote_flat. change ((34 :: flat_map enc s ++ [34]) ++ r)
    with (34 :: (flat_map enc s ++ [34]) ++ r). rewrite <- app_assoc.
  change (value (S f) (34 :: flat_map enc s ++ [34] ++ r))
    with (match read_string (flat_map enc s ++ 34 :: r) with
          | Some (w, r') => Some (VStr w, r') | None => None end).
  by rewrite read_quote_tail.
Qed.

(** ** White space and tokens *)

Definition ws (s : jstr) : Prop := Forall (fun c => is_ws c = true) s.

(** The text of a value begins with neither white space nor a closing bracket;
    what follows it does not prolong a number. *)
Definition starts (s : jstr) : Prop :=
  match s with c :: _ => is_ws c = false /\ c <> 93 /\ c <> 125 | [] => False end.
Definition stops (s : jstr) : Prop :=
  match s with c :: _ => num_char c = false | [] => True end.

Lemma skip_ws_app w s : ws w -> skip_ws (w ++ s) = skip_ws s.
Proof. induction 1 as [|c w Hc Hw IH]; [done|]. cbn. by rewrite Hc. Qed.

Lemma skip_ws_starts s r : starts s -> skip_ws (s ++ r) = s ++ r.
Proof. destruct s as [|c s]; [done|]. intros (H & _). cbn. by rewrite H. Qed.

Lemma value_ws f w s : ws w -> value f (w ++ s) = value f s.
Proof. intros H. destruct f; [done|]. cbn [value]. by rewrite skip_ws_app. Qed.
Lemma elements_ws f w s : ws w -> elements f (w ++ s) = elements f s.
Proof. intros H. destruct f; [done|]. cbn [elements]. by rewrite value_ws. Qed.
Lemma members_ws f w s : ws w -> members f (w ++ s) = members f s.
Proof. intros H. destruct f; [done|]. cbn [members]. by rewrite skip_ws_app. Qed.

Lemma number_token_app t r :
  Forall (fun c => num_char c = true) t -> stops r -> number_token (t ++ r) = (t, r).
Proof.
  intros Ht Hr. induction Ht as [|c t Hc Ht IH].
  - destruct r as [|c r]; [done|]. cbn in *. by rewrite Hr.
  - cbn. by rewrite Hc, IH.
Qed.

Lemma digit_num_char s : Forall is_digit s -> Forall (fun c => num_char c = true) s.
Proof.
  intros H. eapply Forall_impl; [exact H|]. intros c Hc. unfold is_digit in Hc.
  unfold num_char. replace ((48 <=? c) && (c <=? 57)) with true; [done|].
  symmetry. apply andb_true_iff. lia.
Qed.

(** ** Values whose text can be read back

    Null, booleans, integers up to 2^53 in size (which doubles have exactly, and which are
    written without an exponent), strings, and arrays and objects of these. *)
Definition safe_integer (q : Q) : bool := bool_decide (Qden q = 1%positive) && (Z.abs (Qnum q) <=? 2 ^ 53).
Fixpoint clean (v : jsval) : bool :=
  match v with
  | VNull | VBool _ => true
  | VNum (Fin q) => safe_integer q
  | VStr s => forallb is_unit s
  | VArr l => forallb clean l
  | VObj l => forallb (fun kv => forallb is_unit (fst kv) && clean (snd kv)) l
  | _ => false
  end.

(** Objects whose names are plain: each once, none of them __proto__ or an index, which
    ECMAScript would merge, take for the prototype, or put in front. *)
Fixpoint plain_keys (v : jsval) : bool :=
  match v with
  | VArr l => forallb plain_keys l
  | VObj l =>
      bool_decide (NoDup (map fst l)) &&
      forallb (fun kv => negb (js_eqb (fst kv) (u "__proto__")) &&
                         (existsb (fun c => negb ((48 <=? c) && (c <=? 57))) (fst kv) || bool_decide (fst kv = []))
                         && plain_keys (snd kv)) l
  | _ => true
  end.

Definition readable (v : jsval) (t : jstr) : Prop :=
  starts t /\ forall f r, (length t <= f)%nat -> stops r -> value f (t ++ r) = Some (v, r).

Lemma readable_pos v t : readable v t -> (0 < length t)%nat.
Proof. intros [H _]. destruct t; [done|cbn; lia]. Qed.

Lemma readable_string s : units s -> readable (VStr s) (quote s).
Proof.
  intros H. split; [by rewrite quote_flat|]. intros [|f] r Hf _.
  - rewrite quote_flat in Hf. cbn in Hf. lia.
  - by apply value_quote.
Qed.

Lemma Z_to_str_head z : exists c s, Z_to_str z = c :: s /\ (c = 45 \/ is_digit c) /\
  Forall (fun c => num_char c = true) (c :: s).
Proof.
  assert (Hpos : forall n, 0 <= n -> exists c s, Z_to_str n = c :: s /\ is_digit c /\
                   Forall is_digit (c :: s)).
  { intros n Hn. destruct (Z_to_str_nonneg_shape n Hn) as (Hd & len & Hl & Hr).
    destruct (Z_to_str n) as [|c s] eqn:E; [cbn in Hr; injection Hr; lia|].
    exists c, s. split; [done|]. split; [by inversion Hd|done]. }
  destruct (decide (0 <= z)) as [H|H].
  - destruct (Hpos z H) as (c & s & E & Hc & Hs).
    exists c, s. split; [done|]. split; [by right|by apply digit_num_char].
  - destruct (Hpos (- z) ltac:(lia)) as (c & s & E & Hc & Hs).
    exists 45, (c :: s). split; [|split; [by left|constructor; [done|by apply digit_num_char]]].
    rewrite <- E. unfold Z_to_str.
    rewrite (proj2 (Z.ltb_lt z 0)) by lia. by rewrite (proj2 (Z.ltb_ge (- z) 0)) by lia.
Qed.

(** No number is written with a leading zero. *)
Lemma dec_digits_head f : forall n acc, 0 < n < 10 ^ Z.of_nat f -> exists d t, dec_digits f n acc = (48 + d) :: t /\ 1 <= d <= 9.
Proof.
  induction f as [|f IH]; intros n acc Hn; [cbn in Hn; lia|]. cbn [dec_digits].
  pose proof (Z.mod_pos_bound n 10 ltac:(lia)). pose proof (Z.div_mod n 10 ltac:(lia)).
  destruct (n / 10 =? 0) eqn:E; [exists (n mod 10), acc; split; [done|lia]|]. apply IH.
  rewrite Nat2Z.inj_succ, Z.pow_succ_r in Hn by lia. split; [|apply Z.div_lt_upper_bound; lia].
  pose proof (Z.div_pos n 10). lia.
Qed.
Lemma drop_dec_digits s : Forall is_digit s -> drop_dec s = [].
Proof.
  induction 1 as [|c s Hc Hs IH]; [done|]. cbn. unfold is_digit in Hc. replace (dec c) with true; [done|]. unfold dec. lia.
Qed.
Lemma json_digits s : (exists c t, s = c :: t /\ 49 <= c <= 57) -> Forall is_digit s -> after_int s = Some [].
Proof.
  intros (c & t & -> & Hc) Hs. apply Forall_cons in Hs as [_ Hs]. unfold after_int, some_dec. rewrite (proj2 (Z.eqb_neq c 48)) by lia.
  replace (dec c) with true by (unfold dec; lia). by rewrite drop_dec_digits.
Qed.
Lemma json_number_int z : json_number (Z_to_str z) = true.
Proof.
  unfold json_number. destruct (decide (z = 0)) as [->|Hz]; [reflexivity|].
  assert (Hpos : forall n, 0 < n -> (exists c t, Z_to_str n = c :: t /\ 49 <= c <= 57) /\ Forall is_digit (Z_to_str n)).
  { intros n Hn. split; [|apply Z_to_str_nonneg_shape; lia]. unfold Z_to_str. destruct (n <? 0) eqn:E; [lia|].
    pose proof (dec_fuel n ltac:(lia)) as Hf. destruct (dec_digits_head _ n [] (conj Hn (proj2 Hf))) as (d & t & -> & Hd). exists (48 + d), t. split; [done|lia]. }
  destruct (Z_lt_le_dec z 0) as [Hn|Hn].
  - assert (E : Z_to_str z = 45 :: Z_to_str (- z))
      by (unfold Z_to_str; rewrite (proj2 (Z.ltb_lt z 0)) by lia; by rewrite (proj2 (Z.ltb_ge (- z) 0)) by lia).
    rewrite E. cbn [after_sign Z.eqb Pos.eqb]. by rewrite json_digits by (apply Hpos; lia).
  - destruct (Hpos z ltac:(lia)) as [(c & t & E & Hc) Hd]. assert (Es : after_sign (Z_to_str z) = Z_to_str z)
      by (rewrite E; cbn; by rewrite (proj2 (Z.eqb_neq c 45)) by lia).
    rewrite Es, json_digits; [done|by exists c, t|done].
Qed.

Lemma readable_int z : readable (VNum (of_Z z)) (Z_to_str z).
Proof.
  destruct (Z_to_str_head z) as (c & s & E & Hc & Hs).
  assert (Hrd : forall r, stops r -> read_number (Z_to_str z ++ r) = Some (VNum (of_Z z), r)).
  { intros r Hr. unfold read_number. rewrite number_token_app by (rewrite ?E; done).
    by rewrite json_number_int, str_to_num_Z_to_str. }
  split.
  - rewrite E. destruct Hc as [->|Hc]; [by repeat split|].
    unfold is_digit in Hc. cbn. unfold is_ws. split; [|lia].
    rewrite !orb_false_iff. lia.
  - intros [|f] r Hf Hr; [rewrite E in Hf; cbn in Hf; lia|].
    rewrite <- (Hrd r Hr), E. destruct Hc as [->|Hc]; [reflexivity|]. digit_cases Hc; reflexivity.
Qed.

Lemma readable_word v t :
  (v, t) = (VNull, u "null") \/ (v, t) = (VBool true, u "true") \/ (v, t) = (VBool false, u "false") ->
  readable v t.
Proof.
  intros [H|[H|H]]; injection H as -> ->;
    (split; [by cbn|intros [|f] r Hf _; [cbn in Hf; lia|reflexivity]]).
Qed.

(** ** Arrays and objects *)

Lemma stops_after (c : Z) w s : ws w -> num_char c = false -> stops (w ++ c :: s).
Proof.
  intros H Hc. destruct H as [|d w Hd Hw]; [done|]. cbn.
  unfold is_ws in Hd. rewrite !orb_true_iff in Hd. unfold num_char.
  rewrite !orb_false_iff. lia.
Qed.

Lemma elements_join w w' l ts : ws w -> ws w' -> Forall2 readable l ts -> l <> [] ->
  forall f r, (length (join (44 :: w)%Z ts) < f)%nat ->
  elements f (join (44 :: w) ts ++ w' ++ 93 :: r) = Some (l, r).
Proof.
  intros Hw Hw'. induction 1 as [|v t l ts Hv Hl IH]; [done|]. intros _ f r Hf.
  pose proof (readable_pos _ _ Hv) as Ht. destruct Hv as [_ Hv].
  destruct f as [|f]; [lia|]. cbn [elements].
  destruct Hl as [|v' t' l ts Hv' Hl].
  - cbn [join] in *. rewrite Hv; [|lia|by apply stops_after].
    by rewrite skip_ws_app by done.
  - set (ts' := t' :: ts) in *. set (l' := v' :: l) in *.
    change (join (44 :: w) (t :: ts')) with (t ++ (44 :: w) ++ join (44 :: w) ts') in *.
    rewrite !length_app in Hf. cbn [length] in Hf.
    rewrite <- !app_assoc. cbn [app]. rewrite Hv; [|lia|reflexivity].
    cbn [skip_ws is_ws Z.eqb Pos.eqb orb]. rewrite elements_ws by done.
    rewrite IH; [done|done|lia].
Qed.

(** The text of a member: its key, a colon, white space, a text with [P]. *)
Definition member_text (P : jsval -> jstr -> Prop) (kv : jstr * jsval) (m : jstr) : Prop :=
  exists w t, m = quote (fst kv) ++ 58 :: w ++ t /\ units (fst kv) /\ ws w /\ P (snd kv) t.

Lemma members_join w w' l ms : ws w -> ws w' -> Forall2 (member_text readable) l ms -> l <> [] ->
  forall f r, (length (join (44 :: w)%Z ms) < f)%nat ->
  members f (join (44 :: w) ms ++ w' ++ 125 :: r) = Some (l, r).
Proof.
  intros Hw Hw'. induction 1 as [|kv m l ms Hm Hl IH]; [done|]. intros _ f r Hf.
  destruct Hm as (w0 & t & -> & Hk & Hw0 & Hv). pose proof (readable_pos _ _ Hv) as Ht.
  destruct Hv as [_ Hv]. destruct kv as [k v]. cbn [fst snd] in *.
  destruct f as [|f]; [lia|]. cbn [members].
  set (m := quote k ++ 58 :: w0 ++ t) in *.
  assert (Hhead : forall rest, skip_ws (m ++ rest)
            = 34 :: flat_map enc k ++ 34 :: 58 :: w0 ++ t ++ rest).
  { intros rest. subst m. rewrite quote_flat. cbn. rewrite <- !app_assoc. cbn. by rewrite <- !app_assoc. }
  assert (Hlen : (length t < length m)%nat)
    by (subst m; rewrite !length_app; cbn [length]; rewrite length_app; lia).
  destruct Hl as [|kv' m' l ms Hm' Hl].
  - cbn [join] in *. rewrite Hhead, read_quote_tail by done.
    cbn [skip_ws is_ws Z.eqb Pos.eqb orb]. rewrite value_ws by done.
    rewrite Hv; [|lia|by apply stops_after]. by rewrite skip_ws_app by done.
  - set (ms' := m' :: ms) in *. set (l' := kv' :: l) in *.
    change (join (44 :: w) (m :: ms')) with (m ++ (44 :: w) ++ join (44 :: w) ms') in *.
    rewrite !length_app in Hf. cbn [length] in Hf.
    rewrite <- !app_assoc, Hhead, read_quote_tail by done. cbn [app].
    cbn [skip_ws is_ws Z.eqb Pos.eqb orb]. rewrite value_ws by done.
    rewrite Hv; [|lia|reflexivity]. cbn [skip_ws is_ws Z.eqb Pos.eqb orb].
    rewrite members_ws by done. rewrite IH; [done|done|lia].
Qed.

(** The two layouts, as white space around a join. *)
Lemma layout_shape op cl gap mind ts : ws gap -> ws mind -> ts <> [] ->
  exists w1 w2 w3, ws w1 /\ ws w2 /\ ws w3 /\
    layout op cl gap mind ts = op ++ w1 ++ join (44 :: w2) ts ++ w3 ++ cl.
Proof.
  intros Hg Hm Hne. unfold layout. destruct ts as [|t ts]; [done|]. destruct gap as [|g gap].
  - exists [], [], []. repeat split; by try constructor.
  - exists (10 :: g :: gap), (10 :: g :: gap), (10 :: mind).
    repeat split; try by constructor.
Qed.

Lemma join_starts w t ts : starts t -> starts (join (44 :: w) (t :: ts)).
Proof. intros H. destruct t; [done|]. by destruct ts. Qed.

Lemma skip_ws_open w1 s c : ws w1 -> starts s ->
  exists d rest, skip_ws (w1 ++ s ++ c) = d :: rest /\ d <> 93 /\ d <> 125.
Proof.
  intros Hw Hs. rewrite skip_ws_app by done. rewrite skip_ws_starts by done.
  destruct s as [|d s]; [done|]. destruct Hs as (_ & H1 & H2). by exists d, (s ++ c).
Qed.

Lemma value_array f s :
  (forall rest, skip_ws s <> 93 :: rest) ->
  value (S f) (91 :: s) = match elements f s with Some (l, r) => Some (VArr l, r) | None => None end.
Proof.
  intros H. cbn [value skip_ws is_ws Z.eqb Pos.eqb orb].
  destruct (skip_ws s) as [|c rest]; [done|].
  assert (Hc : c <> 93) by (intros ->; by apply (H rest)). clear H.
  destruct c as [|p|p]; try done. do 7 (destruct p as [p|p|]; try done).
Qed.

Lemma value_object f s :
  (forall rest, skip_ws s <> 125 :: rest) ->
  value (S f) (123 :: s) = match members f s with Some (l, r) => Some (VObj l, r) | None => None end.
Proof.
  intros H. cbn [value skip_ws is_ws Z.eqb Pos.eqb orb].
  destruct (skip_ws s) as [|c rest]; [done|].
  assert (Hc : c <> 125) by (intros ->; by apply (H rest)). clear H.
  destruct c as [|p|p]; try done. do 7 (destruct p as [p|p|]; try done).
Qed.

Lemma readable_array l ts gap mind :
  ws gap -> ws mind -> Forall2 readable l ts -> readable (VArr l) (layout [91] [93] gap mind ts).
Proof.
  intros Hg Hm H. destruct (decide (l = [])) as [->|Hne].
  { inversion H. subst ts. split; [by cbn|]. intros [|f] r Hf _; [cbn in Hf; lia|reflexivity]. }
  assert (Hts : ts <> []) by (intros ->; by inversion H).
  destruct (layout_shape [91] [93] gap mind ts Hg Hm Hts) as (w1 & w2 & w3 & H1 & H2 & H3 & ->).
  split; [by cbn|]. intros [|f] r Hf _; [cbn in Hf; lia|].
  cbn [app length] in Hf |- *. rewrite !length_app in Hf. cbn [length] in Hf.
  rewrite <- !app_assoc. cbn [app]. rewrite value_array.
  - rewrite elements_ws by done. rewrite elements_join with (l := l); try done. lia.
  - intros rest E. destruct H as [|v t l ts [Hv _] H]; [done|].
    destruct (skip_ws_open w1 (join (44 :: w2) (t :: ts)) (w3 ++ 93 :: r)) as (d & ? & E' & ? & ?);
      [done|by apply join_starts|]. congruence.
Qed.

Lemma readable_object l ms gap mind :
  ws gap -> ws mind -> Forall2 (member_text readable) l ms ->
  readable (VObj l) (layout [123] [125] gap mind ms).
Proof.
  intros Hg Hm H. destruct (decide (l = [])) as [->|Hne].
  { inversion H. subst ms. split; [by cbn|]. intros [|f] r Hf _; [cbn in Hf; lia|reflexivity]. }
  assert (Hts : ms <> []) by (intros ->; by inversion H).
  destruct (layout_shape [123] [125] gap mind ms Hg Hm Hts) as (w1 & w2 & w3 & H1 & H2 & H3 & ->).
  split; [by cbn|]. intros [|f] r Hf _; [cbn in Hf; lia|].
  cbn [app length] in Hf |- *. rewrite !length_app in Hf. cbn [length] in Hf.
  rewrite <- !app_assoc. cbn [app]. rewrite value_object.
  - rewrite members_ws by done. rewrite members_join with (l := l); try done. lia.
  - intros rest E. destruct H as [|kv m l ms (w & t & -> & _ & _ & _) H]; [done|].
    destruct (skip_ws_open w1 (join (44 :: w2) ((quote (fst kv) ++ 58 :: w ++ t) :: ms))
      (w3 ++ 125 :: r)) as (d & ? & E' & ? & ?); [done|apply join_starts; by rewrite quote_flat|].
    congruence.
Qed.

(** ** The serialiser *)

Lemma elements_text_spec fuel indent gap holder (kf : nat -> prim) l ts :
  (forall i, Forall2 (fun v t => str fuel RepNone indent gap (kf i) holder v = Text t) l ts) ->
  elements_text (imap (fun i x => str fuel RepNone indent gap (kf i) holder x) l) = Some ts.
Proof.
  revert kf ts. induction l as [|v l IH]; intros kf ts H.
  - specialize (H 0%nat). inversion H. done.
  - destruct ts as [|t ts]; [specialize (H 0%nat); inversion H|].
    rewrite imap_cons. cbn [elements_text].
    assert (Hv : str fuel RepNone indent gap (kf 0%nat) holder v = Text t)
      by (specialize (H 0%nat); by inversion H).
    rewrite Hv. unfold compose. rewrite (IH (fun i => kf (S i)) ts); [done|].
    intros i. specialize (H (S i)). by inversion H.
Qed.

Lemma depth_elem v l : v ∈ l -> (depth v < depth (VArr l))%nat.
Proof.
  induction 1 as [l|v w l Hv IH]; cbn [depth fold_right] in *; lia.
Qed.
Lemma depth_member kv l : kv ∈ l -> (depth (snd kv) < depth (VObj l))%nat.
Proof.
  induction 1 as [l|v w l Hv IH]; cbn [depth fold_right] in *; lia.
Qed.

Lemma Forall2_choice {A B} (R : A -> B -> Prop) (l : list A) :
  Forall (fun x => exists y, R x y) l -> exists l', Forall2 R l l'.
Proof.
  induction 1 as [|x l [y Hy] Hl [l' IH]]; [by exists []|]. exists (y :: l'). by constructor.
Qed.

(** A property of the texts of clean values that the texts of leaves have and that the
    layout of arrays and objects hands on. *)
Record text_property (P : jsval -> jstr -> Prop) : Prop := {
  tp_string s : units s -> P (VStr s) (quote s);
  tp_int z : P (VNum (of_Z z)) (Z_to_str z);
  tp_null : P VNull (u "null");
  tp_bool b : P (VBool b) (if b then u "true" else u "false");
  tp_array l ts gap mind : ws gap -> ws mind -> Forall2 P l ts -> P (VArr l) (layout [91] [93] gap mind ts);
  tp_object l ms gap mind : ws gap -> ws mind -> Forall2 (member_text P) l ms ->
    P (VObj l) (layout [123] [125] gap mind ms)
}.

(** A property of units that all units of such texts have. *)
Lemma join_Forall (Q : Z -> Prop) sep ts : Forall Q sep -> Forall (Forall Q) ts -> Forall Q (join sep ts).
Proof.
  intros Hs. induction 1 as [|t ts Ht Hts IH]; [constructor|]. destruct ts as [|t' ts]; [done|].
  change (join sep (t :: t' :: ts)) with (t ++ sep ++ join sep (t' :: ts)). by rewrite !Forall_app.
Qed.

Section Units.
Context (Q : Z -> Prop) (Hws : forall c, is_ws c = true -> Q c)
  (Henc : forall c, 0 <= c < 65536 -> Forall Q (enc c)) (Hdigit : forall c, is_digit c -> Q c)
  (Hrest : Forall Q (u "-,:[]{}nulltruefalse" ++ [34])).

Lemma rest_unit c : c ∈ u "-,:[]{}nulltruefalse" ++ [34] -> Q c.
Proof. rewrite Forall_forall in Hrest. auto. Qed.
Local Ltac rest_units :=
  let c := fresh in let H := fresh in apply Forall_forall; intros c H; apply rest_unit;
  repeat (apply elem_of_cons in H as [->|H]; [by apply (bool_decide_unpack _)|]); by apply elem_of_nil in H.

Lemma ws_Forall s : ws s -> Forall Q s.
Proof. intros H. eapply Forall_impl; [exact H|auto]. Qed.
Lemma quote_Forall s : units s -> Forall Q (quote s).
Proof.
  intros H. rewrite quote_flat. constructor; [apply rest_unit; by apply (bool_decide_unpack _)|].
  apply Forall_app. split; [|rest_units].
  induction H as [|c s Hc Hs IH]; [constructor|]. cbn. apply Forall_app. split; [by apply Henc|done].
Qed.
Lemma layout_Forall op cl gap mind ts : Forall Q (op ++ cl) -> ws gap -> ws mind -> Forall (Forall Q) ts ->
  Forall Q (layout op cl gap mind ts).
Proof.
  intros [Ho Hc]%Forall_app Hg%ws_Forall Hm%ws_Forall Hts. unfold layout.
  destruct ts as [|t ts]; [by apply Forall_app|].
  assert (Hcomma : Forall Q [44]) by rest_units. assert (Hnl : Forall Q [10]) by (by repeat constructor; apply Hws).
  assert (Hcn : Forall Q [44; 10]) by (by apply (Forall_app _ [44] [10])).
  destruct gap as [|g gap].
  - rewrite !Forall_app. split_and?; [done| |done]. by apply join_Forall.
  - rewrite !(Forall_app Q). split_and?; try done. apply join_Forall; [by apply (Forall_app Q)|done].
Qed.
Lemma unit_property : text_property (fun _ t => Forall Q t).
Proof.
  constructor.
  - apply quote_Forall.
  - intros z. unfold Z_to_str. destruct (z <? 0) eqn:E.
    + constructor; [apply rest_unit; by apply (bool_decide_unpack _)|].
      destruct (Z_to_str_nonneg_shape (- z) ltac:(lia)) as (Hd & _). unfold Z_to_str in Hd.
      rewrite (proj2 (Z.ltb_ge (- z) 0)) in Hd by lia. eapply Forall_impl; [exact Hd|auto].
    + destruct (Z_to_str_nonneg_shape z ltac:(lia)) as (Hd & _). unfold Z_to_str in Hd. rewrite E in Hd.
      eapply Forall_impl; [exact Hd|auto].
  - rest_units.
  - intros []; rest_units.
  - intros l ts gap mind Hg Hm H. apply layout_Forall; [rest_units|done|done|]. clear -H. by induction H; constructor.
  - intros l ms gap mind Hg Hm H. apply layout_Forall; [rest_units|done|done|].
    induction H as [|kv m l ms (w & t & -> & Hk & Hw & Ht) H IH]; constructor; [|done].
    apply Forall_app. split; [by apply quote_Forall|]. constructor; [apply rest_unit; by apply (bool_decide_unpack _)|].
    apply Forall_app. split; [by apply ws_Forall|done].
Qed.
End Units.

Lemma readable_property : text_property readable.
Proof.
  constructor; auto using readable_string, readable_int, readable_array, readable_object.
  - apply readable_word. by left.
  - intros b. apply (readable_word _ (if b then u "true" else u "false")). destruct b; auto.
Qed.

Lemma units_property : text_property (fun _ t => units t).
Proof.
  apply unit_property.
  - intros c. unfold is_ws. rewrite !orb_true_iff, !Z.eqb_eq. lia.
  - intros c Hc. unfold enc. destruct (escapable c); [|by apply Forall_singleton].
    unfold escape. destruct (meta c) as [e|] eqn:Em.
    + unfold meta in Em. repeat (case_match; try discriminate Em); injection Em as <-; by repeat constructor.
    + rewrite hex4_text by done. change (u "\u") with [92; 117].
      assert (Hd : forall d, 0 <= d < 16 -> 0 <= hex_digit d < 65536)
        by (intros d Hd; unfold hex_digit; destruct (d <? 10); lia).
      repeat (constructor; [first [lia | apply Hd; Z.div_mod_to_equations; lia]|]). constructor.
  - unfold is_digit. lia.
  - by apply is_unit_units.
Qed.

Section Serialising.
Context (P : jsval -> jstr -> Prop) (HP : text_property P).

Definition serialises (indent : jstr) (v : jsval) : Prop :=
  forall mind, ws mind ->
  exists t, P v t /\
    forall fuel, (depth v <= fuel)%nat -> forall key holder,
      str fuel RepNone indent mind key holder v = Text t.

Lemma serialises_leaf indent v t :
  P v t -> (forall f key holder mind, str (S f) RepNone indent mind key holder v = Text t) ->
  serialises indent v.
Proof.
  intros Hr Hs mind _. exists t. split; [done|]. intros [|f] Hf; [destruct v; cbn in Hf; lia|auto].
Qed.

Lemma serialises_array indent l :
  ws indent -> Forall (serialises indent) l -> serialises indent (VArr l).
Proof.
  intros Hi Hl mind Hm. assert (Hg : ws (mind ++ indent)) by (by apply Forall_app).
  destruct (Forall2_choice (fun v t => P v t /\ forall fuel, (depth v <= fuel)%nat ->
    forall key holder, str fuel RepNone indent (mind ++ indent) key holder v = Text t) l) as [ts Hts].
  { eapply Forall_impl; [exact Hl|]. intros v Hv. by apply Hv. }
  exists (layout [91] [93] (mind ++ indent) mind ts). split.
  { apply HP; [done|done|]. eapply Forall2_impl; [exact Hts|]. by intros ?? []. }
  intros [|f] Hf key holder; [cbn in Hf; lia|]. cbn [str]. cbv zeta.
  rewrite elements_text_spec with (kf := fun i => PNum (of_Z (Z.of_nat i))) (ts := ts); [done|].
  intros i. assert (Hd : forall v, v ∈ l -> (depth v <= f)%nat)
    by (intros v Hv; apply depth_elem in Hv; lia).
  set (holder' := VArr l). clearbody holder'. clear Hl Hf.
  induction Hts as [|v t l ts [_ Hv] Hts IH]; constructor.
  - apply Hv, Hd. by left.
  - apply IH. intros w Hw. apply Hd. by right.
Qed.

Lemma serialises_object indent l :
  ws indent -> Forall (fun kv => units (fst kv) /\ serialises indent (snd kv)) l ->
  serialises indent (VObj l).
Proof.
  intros Hi Hl mind Hm. set (gap := mind ++ indent).
  assert (Hg : ws gap) by (by apply Forall_app).
  set (colon := match gap with [] => u ":" | _ => u ": " end).
  assert (Hc : exists w, colon = 58 :: w /\ ws w).
  { subst colon. destruct gap; [exists []|exists [32]]; (split; [done|by repeat constructor]). }
  destruct Hc as (w & Hc & Hw).
  destruct (Forall2_choice (fun kv t => units (fst kv) /\ P (snd kv) t /\ forall fuel,
    (depth (snd kv) <= fuel)%nat ->
    forall key holder, str fuel RepNone indent gap key holder (snd kv) = Text t) l) as [ts Hts].
  { eapply Forall_impl; [exact Hl|]. intros kv [Hk Hv]. destruct (Hv gap Hg) as (t & ? & ?). by exists t. }
  set (ms := zip_with (fun kv t => quote (fst kv) ++ colon ++ t) l ts).
  exists (layout [123] [125] gap mind ms). split.
  { apply HP; [done|done|]. subst ms. clear Hl.
    induction Hts as [|kv t l ts (Hk & Hv & _) Hts IH]; constructor; [|done].
    exists w, t. by rewrite Hc. }
  intros [|f] Hf key holder; [cbn in Hf; lia|]. cbn [str]. cbv zeta. fold gap.
  assert (Hd : forall kv, kv ∈ l -> (depth (snd kv) <= f)%nat)
    by (intros v Hv; apply depth_member in Hv; lia).
  set (holder' := VObj l). clearbody holder'. clear Hl Hf.
  enough (members_text gap (map (fun kv =>
      (fst kv, str f RepNone indent gap (PStr (fst kv)) holder' (snd kv))) l) = Some ms) as -> by done.
  subst ms. induction Hts as [|kv t l ts (_ & _ & Hv) Hts IH]; [done|].
  cbn [map members_text zip_with]. rewrite Hv by (apply Hd; by left).
  rewrite IH by (intros kv' Hkv; apply Hd; by right). done.
Qed.

Lemma clean_serialises indent v : ws indent -> clean v = true -> serialises indent v.
Proof.
  intros Hi. induction v as [| | |n|s|l IH|l IH| |] using jsval_ind'; intros Hc; try discriminate Hc.
  - eapply serialises_leaf; [apply (tp_null _ HP)|reflexivity].
  - eapply serialises_leaf; [apply (tp_bool _ HP)|].
    by destruct b.
  - destruct n as [q| | |]; try discriminate Hc. cbn in Hc. apply andb_true_iff in Hc as [Hc%bool_decide_eq_true _].
    destruct q as [z d]. cbn in Hc. subst d. change (Fin (z # 1)) with (of_Z z).
    eapply serialises_leaf; [apply (tp_int _ HP)|]. intros. cbn [str of_Z].
    change (Fin (z # 1)) with (of_Z z). by rewrite num_to_str_of_Z.
  - eapply serialises_leaf; [by apply HP, is_unit_units|reflexivity].
  - apply serialises_array; [done|]. cbn in Hc. rewrite forallb_forall in Hc.
    rewrite Forall_forall in IH |- *. intros v Hv. apply IH; [done|].
    apply Hc. by apply list_elem_of_In.
  - apply serialises_object; [done|]. cbn in Hc. rewrite forallb_forall in Hc.
    rewrite Forall_forall in IH |- *. intros kv Hkv.
    pose proof (proj1 (list_elem_of_In _ _) Hkv) as Hin. specialize (Hc kv Hin).
    apply andb_true_iff in Hc as [H1 H2]. split; [by apply is_unit_units|by apply IH].
Qed.
End Serialising.

Lemma parse_readable v t : readable v t -> parse t = Some v.
Proof.
  intros [_ H]. unfold parse. rewrite <- (app_nil_r t) at 2. by rewrite H.
Qed.

(** ** The interface

    What a client of a [JSON] object relies on: every clean value has a text, and the
    text reads back as the value. *)
Class JsonLaws (J : JsonObject) := {
  stringify_reads v : clean v = true -> exists t, JSON_stringify v = Some t /\ parse t = Some v /\ units t
}.

#[export] Instance json2_laws : JsonLaws json2.
Proof.
  constructor. intros v H.
  destruct (clean_serialises _ readable_property [] v (List.Forall_nil _) H [] (List.Forall_nil _)) as (t & Hr & Ht).
  destruct (clean_serialises _ units_property [] v (List.Forall_nil _) H [] (List.Forall_nil _)) as (t' & Hr' & Ht').
  specialize (Ht (depth v) ltac:(lia) (PStr []) (VObj [([], v)])). rewrite Ht' in Ht by done. injection Ht as <-.
  exists t'. split; [|by split; [apply parse_readable|]]. cbn. unfold stringify_plain. cbn. by rewrite Ht'.
Qed.

(** ** Properties *)

(** A string literal of [quote] read back gives the string, whatever its units:
    quotes, backslashes, control and format characters included. *)
Theorem quote_roundtrip s r :
  units s -> exists t, quote s ++ r = 34 :: t /\ read_string t = Some (s, r).
Proof.
  intros H. exists (flat_map enc s ++ 34 :: r). split; [|by apply read_quote_tail].
  rewrite quote_flat. cbn. by rewrite <- app_assoc.
Qed.

Lemma quote_roundtrip_witness :
  units [34; 92; 10; 173; 65535] /\
  exists t, quote [34; 92; 10; 173; 65535] ++ u ",1" = 34 :: t /\
    read_string t = Some ([34; 92; 10; 173; 65535], u ",1").
Proof.
  assert (H : units [34; 92; 10; 173; 65535]) by (by apply is_unit_units).
  split; [exact H|apply (quote_roundtrip _ (u ",1") H)].
Defined.

(** C16. [JSON.stringify] without a replacer answers for every value of null, booleans,
    integers up to 2^53, texts, and arrays and objects of these, with every indentation of
    white space; its text is a JSON text (RFC 8259, [parse]), of that value. *)
Theorem stringify_roundtrip v sp :
  clean v = true -> ws (indent_of sp) ->
  exists t, stringify (depth v) v RANone sp = Returns (Text t) /\ parse t = Some v.
Proof.
  intros Hv Hsp. destruct (clean_serialises _ readable_property _ v Hsp Hv []) as (t & Hr & Ht); [constructor|].
  exists t. split; [|by apply parse_readable]. cbn. by rewrite Ht.
Qed.

Lemma stringify_roundtrip_witness :
  let v := VArr [VNum (of_Z (-12)); VObj [(u "k", VStr [34; 10]); (u "e", VArr [])]; VNull] in
  clean v = true /\
  exists t, stringify (depth v) v RANone (SpaceNum 2) = Returns (Text t) /\ parse t = Some v.
Proof.
  intros v. assert (H : clean v = true) by reflexivity.
  split; [exact H|]. apply (stringify_roundtrip v (SpaceNum 2) H). repeat constructor.
Defined.

(** The depth of a value is fuel enough when no replacer function rewrites it. *)
Lemma elements_text_total (rs : list outcome) :
  Forall (fun r => r <> OutOfFuel) rs -> exists l, elements_text rs = Some l.
Proof.
  induction 1 as [|r rs Hr Hrs [l IH]]; [by exists []|]. cbn. rewrite IH.
  destruct r; [by eexists|by eexists|done].
Qed.
Lemma members_text_total gap (rs : list (jstr * outcome)) :
  Forall (fun r => snd r <> OutOfFuel) rs -> exists l, members_text gap rs = Some l.
Proof.
  induction 1 as [|[k r] rs Hr Hrs [l IH]]; [by exists []|]. cbn. rewrite IH.
  destruct r; [by eexists|by eexists|done].
Qed.

Lemma get_member_cases k l : get_member k l = VUndef \/ exists kv, kv ∈ l /\ get_member k l = snd kv.
Proof.
  induction l as [|[k' v] l IH]; [by left|]. cbn. destruct (js_eqb k k').
  - right. exists (k', v). split; [by left|done].
  - destruct IH as [->|(kv & ? & ->)]; [by left|]. right. exists kv. split; [by right|done].
Qed.

Lemma depth_pos v : (1 <= depth v)%nat.
Proof. destruct v; cbn; lia. Qed.

(** [JSON.stringify] without a replacer function never runs out of the fuel [depth v]. *)
Theorem str_terminates v : forall fuel rep indent mind key holder,
  (forall g, rep <> RepFun g) -> (depth v <= fuel)%nat ->
  str fuel rep indent mind key holder v <> OutOfFuel.
Proof.
  induction v as [| | |n|s|l IH|l IH|t|] using jsval_ind';
    intros [|fuel] rep indent mind key holder Hrep Hf; try (cbn in Hf; lia);
    (destruct rep as [|g|ks]; [|by destruct (Hrep g)|]); try discriminate; try (by destruct t).
  1,2: cbn [str]; cbv zeta; match goal with |- finish _ _ _ _ (elements_text ?l0) <> _ =>
         destruct (elements_text_total l0) as [ts ->]; [|done] end;
       apply Forall_forall; intros r Hr; apply list_elem_of_lookup in Hr as [i Hr];
       rewrite list_lookup_imap in Hr; destruct (l !! i) as [x|] eqn:E; [|done];
       cbn in Hr; injection Hr as <-; apply list_elem_of_lookup_2 in E;
       rewrite Forall_forall in IH; apply IH; [done|done|apply depth_elem in E; lia].
  1,2: cbn [str]; cbv zeta; match goal with |- finish _ _ _ _ (members_text ?g ?l0) <> _ =>
         destruct (members_text_total g l0) as [ts ->]; [|done] end;
       apply Forall_forall; intros r Hr; apply list_elem_of_In, in_map_iff in Hr;
       destruct Hr as (x & <- & Hx); apply list_elem_of_In in Hx; cbn [snd];
       rewrite Forall_forall in IH.
  - apply IH; [done|done|]. apply depth_member in Hx. lia.
  - destruct (get_member_cases x l) as [E|(kv & Hkv & E)]; rewrite E.
    + assert (H : (2 <= depth (VObj l))%nat) by (clear; induction l; cbn in *; lia).
      destruct fuel; [lia|done].
    + apply IH; [done|done|]. apply depth_member in Hkv. lia.
Qed.

(** *** The two serialisers agree *)

Import JqueryJson.

(** Units that json2 escapes and the jQuery plugin leaves alone. *)
Definition common_unit (c : Z) : bool := is_unit c && (negb (escapable c) || escapeable c).

(** Values on which the two serialisers agree: finite numbers, no Date, and no
    unit that only json2 escapes. Undefined values and functions may occur. *)
Fixpoint common (v : jsval) : bool :=
  match v with
  | VNum n => match n with Fin _ => true | _ => false end
  | VStr s => forallb common_unit s
  | VArr l => forallb common l
  | VObj l => forallb (fun kv => forallb common_unit (fst kv) && common (snd kv)) l
  | VDate _ => false
  | _ => true
  end.

Lemma escapeable_escapable c : escapeable c = true -> escapable c = true.
Proof.
  unfold escapeable, escapable. intros H.
  rewrite (orb_comm (c =? 34)) in H. by rewrite H.
Qed.

Lemma hex_short c : 0 <= c < 16 -> Z_to_hex c = [hex_digit c].
Proof.
  intros H. unfold Z_to_hex. rewrite (hex_digits_fuel _ 1).
  - cbn. rewrite Z.mod_small by lia. by destruct (c / 16 =? 0).
  - split; [lia|]. destruct (decide (c = 0)) as [->|Hn]; [reflexivity|].
    pose proof (Z.log2_spec c ltac:(lia)) as [_ Hl]. pose proof (Z.log2_nonneg c).
    eapply Z.lt_le_trans; [exact Hl|].
    replace (Z.of_nat (Z.to_nat (Z.log2 c) + 1)) with (Z.succ (Z.log2 c)) by lia.
    apply Z.pow_le_mono_l. lia.
  - cbn. lia.
  - lia.
  - lia.
Qed.

Lemma escape_agrees c : is_unit c = true -> escapeable c = true -> escape_unit c = escape c.
Proof.
  intros Hu H. unfold is_unit in Hu. unfold escape_unit, escape. destruct (meta c); [done|].
  assert (Hc : 0 <= c < 256).
  { unfold escapeable in H. rewrite !orb_true_iff in H. lia. }
  rewrite hex4_text by lia. rewrite !hex_short by (Z.div_mod_to_equations; lia).
  rewrite (Z.div_small c 4096), (Z.div_small c 256) by lia.
  rewrite (Z.mod_small (c / 16)) by (Z.div_mod_to_equations; lia). reflexivity.
Qed.

Lemma quoteString_agrees s : forallb common_unit s = true -> quoteString s = quote s.
Proof.
  intros H. rewrite quote_flat. unfold quoteString.
  assert (Hf : flat_map (fun c => if escapeable c then escape_unit c else [c]) s = flat_map enc s).
  { rewrite forallb_forall in H. induction s as [|c s IH]; [done|]. cbn [flat_map].
    rewrite IH by (intros x Hx; apply H; by right).
    f_equal. assert (Hc : common_unit c = true) by (apply H; by left).
    unfold common_unit in Hc. apply andb_true_iff in Hc as [Hu Hc]. unfold enc.
    destruct (escapeable c) eqn:E.
    - rewrite (escapeable_escapable _ E). by apply escape_agrees.
    - destruct (escapable c); [done|reflexivity]. }
  destruct (existsb escapeable s) eqn:E; [by rewrite Hf|]. cbn. rewrite <- Hf.
  assert (Hid : forall s, existsb escapeable s = false ->
                 flat_map (fun c => if escapeable c then escape_unit c else [c]) s = s).
  { clear. induction s as [|c s IH]; [done|]. cbn. rewrite orb_false_iff. intros [-> H].
    cbn. by rewrite IH. }
  by rewrite Hid.
Qed.

Definition outcome_of (o : option jstr) : outcome :=
  match o with Some t => Text t | None => Undefined end.

(** [$.toJSON] gives the same text as json2's [JSON.stringify]: undefined and
    functions become null in arrays, are left out of objects, and are undefined
    at the top. *)
Theorem toJSON_agrees host v : common v = true ->
  forall fuel key holder, (depth v <= fuel)%nat ->
  str fuel RepNone [] [] key holder v = outcome_of (toJSON host v).
Proof.
  induction v as [| | |n|s|l IH|l IH| |] using jsval_ind';
    intros Hc [|fuel] key holder Hf; try discriminate Hc; try (cbn in Hf; lia); try reflexivity.
  - by destruct n.
  - cbn. f_equal. symmetry. by apply quoteString_agrees.
  - cbn [str toJSON outcome_of finish]. cbv zeta. cbn [app].
    assert (Hd : Forall (fun v => forall key holder,
              str fuel RepNone [] [] key holder v = outcome_of (toJSON host v)) l).
    { rewrite Forall_forall in IH |- *. cbn in Hc. rewrite forallb_forall in Hc.
      intros v Hv key' holder'. apply IH; [done|apply Hc; by apply list_elem_of_In|].
      apply depth_elem in Hv. lia. }
    set (holder' := VArr l). clearbody holder'. clear IH Hc Hf.
    enough (forall kf : nat -> prim, elements_text (imap (fun i x =>
        str fuel RepNone [] [] (kf i) holder' x) l)
      = Some (map (fun x => match toJSON host x with Some t => t | None => u "null" end) l)) as ->.
    { cbn. by destruct l. }
    induction Hd as [|v l Hv Hd IH]; intros kf; [done|]. rewrite imap_cons. cbn [elements_text map].
    rewrite Hv. unfold compose. rewrite (IH (fun i => kf (S i))).
    by destruct (toJSON host v).
  - cbn [str toJSON outcome_of finish]. cbv zeta. cbn [app].
    assert (Hd : Forall (fun kv => quoteString (fst kv) = quote (fst kv) /\ forall key holder,
              str fuel RepNone [] [] key holder (snd kv) = outcome_of (toJSON host (snd kv))) l).
    { rewrite Forall_forall in IH |- *. cbn in Hc. rewrite forallb_forall in Hc.
      intros kv Hv. pose proof (proj1 (list_elem_of_In _ _) Hv) as Hin.
      specialize (Hc kv Hin). apply andb_true_iff in Hc as [H1 H2].
      split; [by apply quoteString_agrees|]. intros key' holder'.
      apply IH; [done|done|]. apply depth_member in Hv. lia. }
    set (holder' := VObj l). clearbody holder'. clear IH Hc Hf.
    match goal with |- finish _ _ _ _ (members_text _ ?a) = Text (123 :: join _ ?b ++ _) =>
      enough (members_text [] a = Some b) as -> end.
    { cbn. by destruct (flat_map _ l). }
    induction Hd as [|kv l [Hk Hv] Hd IH]; [done|]. cbn [map members_text flat_map].
    rewrite Hv, IH, Hk. destruct (snd kv) as [| | |n| | | | |]; try reflexivity;
    by destruct (toJSON host _).
Qed.

Lemma toJSON_agrees_witness :
  let v := VObj [(u "a", VArr [VUndef; VStr [1; 34]]); (u "f", VFun); (u "n", VNum (Fin (1 # 2)))] in
  common v = true /\ str 5 RepNone [] [] (PStr []) VUndef v = outcome_of (toJSON None v).
Proof.
  intros v. assert (H : common v = true) by reflexivity.
  split; [exact H|]. apply (toJSON_agrees None v H 5). cbn. lia.
Defined.

Lemma str_terminates_witness :
  (forall g, RepKeys [VStr (u "b")] <> RepFun g) /\
  str 3 (RepKeys [VStr (u "b")]) [] [] (PStr []) VUndef (VObj [(u "a", VArr [])]) <> OutOfFuel.
Proof.
  assert (H : forall g, RepKeys [VStr (u "b")] <> RepFun g) by (intros g; discriminate).
  split; [exact H|].
  apply (str_terminates (VObj [(u "a", VArr [])]) 3 (RepKeys [VStr (u "b")]) [] [] (PStr []) VUndef H).
  cbn. lia.
Defined.
