(* ===== verification/JsonParse.v ===== *)
(** * [JSON.parse] of [language/javascript/dmt_json2.js] and the parsers of
    [html/resource/js/jquery.json-2.3.js]

    The parsers test a text with regular expressions and hand it to [eval]. The
    expressions are matchers on the units of the text; [eval] belongs to the host and
    is an argument: it gives the value of an expression, or [None] for an exception. *)

From Stdlib Require Import ZArith QArith Lia.
From stdpp Require Import base tactics list numbers strings.
From S2P Require Import Prelude JsValue Json.
Local Open Scope Z_scope.

(** ** Regular expressions

    A matcher gives what follows a match at the start of a text. *)
Definition matcher := jstr -> option jstr.

(** [s.replace(rx, by)] with a global expression that never matches the empty text;
    [fuel] is the length of the text. *)
Fixpoint replace_matches (m : matcher) (by_ : jstr) (fuel : nat) (s : jstr) : jstr :=
  match fuel, s with
  | S fuel, c :: s' =>
      match m s with
      | Some r => by_ ++ replace_matches m by_ fuel r
      | None => c :: replace_matches m by_ fuel s'
      end
  | _, _ => []
  end.
Definition replace_rx (m : matcher) (by_ s : jstr) : jstr := replace_matches m by_ (length s) s.

Definition is_hex (c : Z) : bool := digit_val c <? 16.
Definition is_dec (c : Z) : bool := (48 <=? c) && (c <=? 57).

(** The units that make a pair after a backslash: the quote, the backslash, the slash
    and the letters bfnrt. *)
Definition short_escape (c : Z) : bool :=
  (c =? 34) || (c =? 92) || (c =? 47) || (c =? 98) || (c =? 102) || (c =? 110) || (c =? 114) || (c =? 116).

(** A backslash pair, or a backslash, the letter u and four hexadecimal digits. *)
Definition rx_two : matcher := fun s =>
  match s with
  | b :: e :: r =>
      if negb (b =? 92) then None
      else if short_escape e then Some r
      else if e =? 117 then
        match r with
        | a :: b :: c :: d :: r' => if is_hex a && is_hex b && is_hex c && is_hex d then Some r' else None
        | _ => None
        end
      else None
  | _ => None
  end.

(** A string without backslashes and line ends, after its first quote. *)
Fixpoint string_end (s : jstr) : option jstr :=
  match s with
  | [] => None
  | c :: r =>
      if c =? 34 then Some r
      else if (c =? 92) || (c =? 10) || (c =? 13) then None
      else string_end r
  end.

Fixpoint drop_digits (s : jstr) : jstr :=
  match s with c :: r => if is_dec c then drop_digits r else s | [] => [] end.
(** [\d+] *)
Definition digits1 (s : jstr) : option jstr :=
  match s with c :: r => if is_dec c then Some (drop_digits r) else None | [] => None end.
(** The optional fraction of a number. *)
Definition fraction (s : jstr) : jstr := match s with 46 :: r => drop_digits r | _ => s end.
(** The optional exponent of a number. *)
Definition exponent (s : jstr) : jstr :=
  match s with
  | c :: r =>
      if (c =? 101) || (c =? 69) then
        match digits1 (match r with 43 :: r' | 45 :: r' => r' | _ => r end) with Some r' => r' | None => s end
      else s
  | [] => s
  end.
Definition rx_number : matcher := fun s =>
  match digits1 (match s with 45 :: r => r | _ => s end) with
  | Some r => Some (exponent (fraction r))
  | None => None
  end.

(** Such a string, one of the words true, false and null, or a number: the first
    alternative that matches. *)
Definition alt (m1 m2 : matcher) : matcher := fun s => match m1 s with Some r => Some r | None => m2 s end.
Definition word (w : jstr) : matcher := fun s =>
  if bool_decide (take (length w) s = w) then Some (drop (length w) s) else None.
Definition rx_string : matcher := fun s =>
  match s with c :: r => if c =? 34 then string_end r else None | [] => None end.
Definition rx_three : matcher :=
  alt rx_string (alt (word (u "true")) (alt (word (u "false")) (alt (word (u "null")) rx_number))).

(** One or more opening brackets, each after white space: [best] is what follows the
    last bracket found. *)
Fixpoint brackets (s : jstr) (best : option jstr) : option jstr :=
  match s with
  | c :: r =>
      if c =? 91 then brackets r (Some r)
      else if is_space c then brackets r best
      else best
  | [] => best
  end.
(** Such brackets at the start of the text or after a colon or comma. *)
Definition rx_four_later : matcher := fun s =>
  match s with
  | c :: r => if (c =? 58) || (c =? 44) then brackets r None else None
  | [] => None
  end.
Definition replace_four (s : jstr) : jstr :=
  match brackets s None with
  | Some r => replace_rx rx_four_later [] r
  | None => replace_rx rx_four_later [] s
  end.

(** The units that the last test leaves: punctuation and white space. *)
Definition punctuation (c : Z) : bool :=
  (c =? 93) || (c =? 44) || (c =? 58) || (c =? 123) || (c =? 125) || is_space c.
Definition rx_one (s : jstr) : bool := forallb punctuation s.

(** The text that the last test sees; [two] is the first expression. *)
Definition filtered (two : matcher) (s : jstr) : jstr :=
  replace_four (replace_rx rx_three [93] (replace_rx two [64] s)).

(** ** [JSON.parse] *)

(** [rx_dangerous] *)
Definition dangerous (c : Z) : bool :=
  (c =? 0) || (c =? 173) || ((1536 <=? c) && (c <=? 1540)) || (c =? 1807) || (c =? 6068) || (c =? 6069)
  || ((8204 <=? c) && (c <=? 8207)) || ((8232 <=? c) && (c <=? 8239))
  || ((8288 <=? c) && (c <=? 8303)) || (c =? 65279) || ((65520 <=? c) && (c <=? 65535)).
Definition hex_escape (c : Z) : jstr := u "\u" ++ slice_last 4 (u "0000" ++ Z_to_hex c).
Definition escape_dangerous (s : jstr) : jstr :=
  if existsb dangerous s then flat_map (fun c => if dangerous c then hex_escape c else [c]) s else s.

(** A function to revive values: of the holder, the key and the value. *)
Definition reviver := jsval -> jstr -> jsval -> jsval.

(** [walk(holder, key)], where [value] is [holder[key]]. The members are replaced one
    by one, so the holder that the reviver gets has those before the key revived. A
    deleted element of an array reads [undefined]. *)
Fixpoint walk (g : reviver) (holder : jsval) (key : jstr) (value : jsval) : jsval :=
  g holder key
    match value with
    | VArr l =>
        VArr ((fix elements (done rest : list jsval) : list jsval :=
           match rest with
           | [] => done
           | x :: rest' =>
               elements (done ++ [walk g (VArr (done ++ rest)) (Z_to_str (Z.of_nat (length done))) x]) rest'
           end) [] l)
    | VObj l =>
        VObj ((fix members (done rest : list (jstr * jsval)) : list (jstr * jsval) :=
           match rest with
           | [] => done
           | (k, x) :: rest' =>
               match walk g (VObj (done ++ rest)) k x with
               | VUndef => members done rest'
               | v => members (done ++ [(k, v)]) rest'
               end
           end) [] l)
    | _ => value
    end.

(** A value, a SyntaxError of the parser, or an exception of [eval]. *)
Inductive parsed := Parsed (v : jsval) | NotJson (msg : jstr) | EvalThrows.

Section Parsing.
Context (eval : jstr -> option jsval).

(** [eval('(' + s + ')')] when [s] passes the test. *)
Definition eval_checked (two : matcher) (msg : jstr) (s : jstr) : parsed :=
  if rx_one (filtered two s)
  then match eval (u "(" ++ s ++ u ")") with Some v => Parsed v | None => EvalThrows end
  else NotJson msg.

(** [JSON.parse(text, reviver)] *)
Definition JSON_parse (rev : option reviver) (text : jstr) : parsed :=
  match eval_checked rx_two (u "JSON.parse") (escape_dangerous text) with
  | Parsed j =>
      Parsed match rev with Some g => walk g (VObj [([], j)]) [] j | None => j end
  | r => r
  end.

(** ** [$.evalJSON] and [$.secureEvalJSON] on a host without [JSON.parse] *)

Definition evalJSON (src : jstr) : parsed :=
  match eval (u "(" ++ src ++ u ")") with Some v => Parsed v | None => EvalThrows end.

(** A backslash pair, with the letter u among the units of a pair. *)
Definition rx_pair : matcher := fun s =>
  match s with
  | b :: e :: r => if (b =? 92) && (short_escape e || (e =? 117)) then Some r else None
  | _ => None
  end.
Definition secureEvalJSON (src : jstr) : parsed :=
  eval_checked rx_pair (u "Error parsing JSON, source is not valid.") src.
End Parsing.

Example filtered_ex :
  rx_one (filtered rx_two (u "[{" ++ [34] ++ u "a\n" ++ [34] ++ u ": [-1.5e3, true]}, null]")) = true /\
  rx_one (filtered rx_two (u "alert(1)")) = false /\ rx_one (filtered rx_two (u "{a:1}")) = false /\
  filtered rx_two (u "[[1],2") = u "]],]".
Proof. vm_compute. repeat split. Qed.
