(* ===== verification/JsonParseProps.v ===== *)
(** * Properties of the JSON parsers: what passes their test is a sequence of JSON
    tokens, what [JSON.stringify] writes passes it and is read back *)

From Stdlib Require Import ZArith QArith Lia.
From stdpp Require Import base tactics list numbers strings.
From S2P Require Import Prelude JsValue Json JsonFacts JsonParse.
Import Stringify Reader.
Local Open Scope Z_scope.

Ltac in_list := repeat first [apply list_elem_of_here | apply list_elem_of_further].

(** ** Replacing

    A matcher is local when what it matches is a text of its own, whatever follows. *)
Definition matches (m : matcher) (e : jstr) : Prop := e <> [] /\ forall r, m (e ++ r) = Some r.
Definition consumes (m : matcher) : Prop := forall s r, m s = Some r -> exists e, s = e ++ r /\ e <> [].
Definition local_matcher (m : matcher) : Prop := forall s r, m s = Some r -> exists e, s = e ++ r /\ matches m e.

Lemma local_consumes m : local_matcher m -> consumes m.
Proof. intros H s r E. destruct (H s r E) as (e & -> & He & _). by exists e. Qed.

Lemma replace_matches_fuel m by_ f1 : consumes m -> forall f2 s,
  (length s <= f1)%nat -> (length s <= f2)%nat -> replace_matches m by_ f1 s = replace_matches m by_ f2 s.
Proof.
  intros Hm. induction f1 as [|f1 IH]; intros [|f2] [|c s] H1 H2; cbn in *; try lia; try done.
  destruct (m (c :: s)) as [r|] eqn:E; f_equal; apply IH; try lia.
  all: destruct (Hm _ _ E) as ([|d e] & He & Hne); [done|]; apply (f_equal length) in He;
    cbn in He; rewrite length_app in He; lia.
Qed.

Lemma replace_rx_cons m by_ c s : consumes m ->
  replace_rx m by_ (c :: s)
  = match m (c :: s) with Some r => by_ ++ replace_rx m by_ r | None => c :: replace_rx m by_ s end.
Proof.
  intros Hm. unfold replace_rx. cbn [length replace_matches].
  destruct (m (c :: s)) as [r|] eqn:E; [|done]. f_equal. apply replace_matches_fuel; [done| |lia].
  destruct (Hm _ _ E) as ([|d e] & He & Hne); [done|]. apply (f_equal length) in He.
  cbn in He. rewrite length_app in He. lia.
Qed.

Lemma replace_rx_nil m by_ : replace_rx m by_ [] = [].
Proof. done. Qed.

(** Induction along a replacement. *)
Lemma replace_rx_ind m by_ (P : jstr -> jstr -> Prop) : consumes m ->
  P [] [] ->
  (forall e r t, m (e ++ r) = Some r -> e <> [] -> P r t -> P (e ++ r) (by_ ++ t)) ->
  (forall c s t, m (c :: s) = None -> P s t -> P (c :: s) (c :: t)) ->
  forall s, P s (replace_rx m by_ s).
Proof.
  intros Hm H0 H1 H2 s. remember (length s) as n eqn:En. revert s En.
  induction (lt_wf n) as [n _ IH]. intros [|c s] ->; [done|]. rewrite replace_rx_cons by done.
  destruct (m (c :: s)) as [r|] eqn:E.
  - destruct (Hm _ _ E) as (e & He & Hne). rewrite He in E |- *. apply H1; [done|done|].
    apply (IH (length r)); [|done]. apply (f_equal length) in He.
    destruct e; [done|]. cbn in He |- *. rewrite length_app in He. lia.
  - apply H2; [done|]. by apply (IH (length s)); [cbn; lia|].
Qed.

(** ** The matchers *)

Lemma rx_two_local : local_matcher rx_two.
Proof.
  intros [|b [|e s]] r H; try done. cbn in H. destruct (b =? 92) eqn:Eb; [|done]. cbn in H.
  apply Z.eqb_eq in Eb as ->. destruct (short_escape e) eqn:Ee.
  - injection H as <-. exists [92; e]. split; [done|]. split; [done|]. intros r. cbn. by rewrite Ee.
  - destruct (e =? 117) eqn:Eu; [|done]. destruct s as [|a [|b [|c [|d s]]]]; try done.
    destruct (_ && _) eqn:Eh; [|done]. injection H as <-. exists [92; e; a; b; c; d].
    split; [done|]. split; [done|]. intros r. cbn. by rewrite Ee, Eu, Eh.
Qed.

Lemma rx_pair_local : local_matcher rx_pair.
Proof.
  intros [|b [|e s]] r H; try done. cbn in H. destruct (b =? 92) eqn:Eb; [|done]. cbn in H.
  apply Z.eqb_eq in Eb as ->. destruct (_ || _) eqn:Ee; [|done]. injection H as <-. exists [92; e].
  split; [done|]. split; [done|]. intros r. cbn. by rewrite Ee.
Qed.

Definition raw_unit (c : Z) : Prop := c <> 34 /\ c <> 92 /\ c <> 10 /\ c <> 13.

Lemma string_end_spec s : forall r, string_end s = Some r -> exists b, s = b ++ 34 :: r /\ Forall raw_unit b.
Proof.
  induction s as [|c s IH]; intros r H; [done|]. cbn in H. destruct (c =? 34) eqn:E1.
  - injection H as <-. apply Z.eqb_eq in E1 as ->. by exists [].
  - destruct (_ || _) eqn:E2; [done|]. destruct (IH r H) as (b & -> & Hb). exists (c :: b).
    split; [done|]. constructor; [|done]. rewrite !orb_false_iff in E2. unfold raw_unit. lia.
Qed.

Lemma string_end_body b r : Forall raw_unit b -> string_end (b ++ 34 :: r) = Some r.
Proof.
  induction 1 as [|c b Hc Hb IH]; [done|]. cbn. unfold raw_unit in Hc.
  rewrite (proj2 (Z.eqb_neq c 34)), (proj2 (Z.eqb_neq c 92)), (proj2 (Z.eqb_neq c 10)),
    (proj2 (Z.eqb_neq c 13)) by tauto. done.
Qed.

(** ** Numbers

    The texts of the expression for numbers: a minus sign or none, digits, and perhaps a point
    with digits or none, and an exponent. *)
Definition digits (d : jstr) : Prop := Forall (fun c => is_dec c = true) d.
Definition number_text (t : jstr) : Prop := exists sign ds frac ex,
  t = sign ++ ds ++ frac ++ ex /\ (sign = [] \/ sign = [45]) /\ ds <> [] /\ digits ds /\
  (frac = [] \/ exists d, frac = 46 :: d /\ digits d) /\
  (ex = [] \/ exists e s d, ex = e :: s ++ d /\ (e = 101 \/ e = 69) /\ (s = [] \/ s = [43] \/ s = [45]) /\ d <> [] /\ digits d).
Lemma digits_chars d : digits d -> Forall (fun c => num_char c = true) d.
Proof. intros H. eapply Forall_impl; [exact H|]. intros c Hc. cbn in Hc. unfold num_char. unfold is_dec in Hc. by rewrite Hc. Qed.
Lemma number_text_chars t : number_text t -> t <> [] /\ Forall (fun c => num_char c = true) t.
Proof.
  intros (sign & ds & frac & ex & -> & Hs & Hne & Hd & Hf & He). split.
  - destruct sign; [by destruct ds|done].
  - rewrite !Forall_app. split; [destruct Hs as [->| ->]; by repeat constructor|]. split; [by apply digits_chars|]. split.
    + destruct Hf as [->|(d & -> & Hf)]; [done|]. constructor; [done|by apply digits_chars].
    + destruct He as [->|(e & s & d & -> & He & Hs' & _ & Hd')]; [done|]. constructor; [by destruct He as [->| ->]|].
      apply Forall_app. split; [destruct Hs' as [->|[->| ->]]; by repeat constructor|by apply digits_chars].
Qed.
Lemma drop_digits_spec s : exists d, s = d ++ drop_digits s /\ digits d.
Proof.
  induction s as [|c s (d & E & Hd)]; [exists []; by split; [|constructor]|]. cbn. destruct (is_dec c) eqn:Ec; [|exists []; by split; [|constructor]].
  exists (c :: d). split; [cbn; congruence|]. by constructor.
Qed.
Lemma digits1_spec s r : digits1 s = Some r -> exists d, s = d ++ r /\ d <> [] /\ digits d.
Proof.
  destruct s as [|c s]; [done|]. cbn. destruct (is_dec c) eqn:E; [|done]. intros [= <-].
  destruct (drop_digits_spec s) as (d & Hd & H). exists (c :: d). split; [cbn; congruence|]. split; [done|by constructor].
Qed.
Ltac by_unit c := destruct c as [|pos|pos]; try done; do 7 (try (destruct pos as [pos|pos|]; try done)).
Lemma fraction_unit c s : fraction (c :: s) = if c =? 46 then drop_digits s else c :: s.
Proof. by_unit c. Qed.
Lemma exponent_sign c s : match c :: s with 43 :: r' | 45 :: r' => r' | _ => c :: s end = if (c =? 43) || (c =? 45) then s else c :: s.
Proof. by_unit c. Qed.
Lemma minus_sign c s : match c :: s with 45 :: r' => r' | _ => c :: s end = if c =? 45 then s else c :: s.
Proof. by_unit c. Qed.
Lemma fraction_spec s : exists f, s = f ++ fraction s /\ (f = [] \/ exists d, f = 46 :: d /\ digits d).
Proof.
  destruct s as [|c s]; [exists []; auto|]. rewrite fraction_unit. destruct (Z.eqb_spec c 46) as [->|Hc].
  - destruct (drop_digits_spec s) as (d & Hd & H). exists (46 :: d). split; [cbn; congruence|]. right. by exists d.
  - exists []. auto.
Qed.
Lemma exponent_spec s : exists x, s = x ++ exponent s /\
  (x = [] \/ exists e g d, x = e :: g ++ d /\ (e = 101 \/ e = 69) /\ (g = [] \/ g = [43] \/ g = [45]) /\ d <> [] /\ digits d).
Proof.
  destruct s as [|c s]; [exists []; auto|]. unfold exponent.
  destruct (_ || _) eqn:E; [|exists []; auto].
  assert (Hc : c = 101 \/ c = 69) by (apply orb_true_iff in E as [E%Z.eqb_eq|E%Z.eqb_eq]; auto). clear E.
  set (s' := match s with 43 :: r' | 45 :: r' => r' | _ => s end).
  assert (Hs : exists g, s = g ++ s' /\ (g = [] \/ g = [43] \/ g = [45])).
  { subst s'. destruct s as [|x s]; [exists []; auto|]. rewrite exponent_sign.
    destruct (Z.eqb_spec x 43) as [->|H1]; [exists [43]; auto|]. destruct (Z.eqb_spec x 45) as [->|H2]; [exists [45]; auto|]. exists []. auto. }
  clearbody s'. destruct (digits1 s') as [r|] eqn:Ed; [|exists []; auto]. apply digits1_spec in Ed as (d & Ed & Hd1 & Hd2).
  destruct Hs as (g & -> & Hg). exists (c :: g ++ d). split; [rewrite Ed; cbn; by rewrite <- app_assoc|]. right. by exists c, g, d.
Qed.
Lemma rx_number_spec s r : rx_number s = Some r -> exists t, s = t ++ r /\ number_text t.
Proof.
  unfold rx_number. set (s0 := match s with 45 :: r0 => r0 | _ => s end).
  assert (H0 : exists g, s = g ++ s0 /\ (g = [] \/ g = [45])).
  { subst s0. destruct s as [|x s]; [exists []; auto|]. rewrite minus_sign. destruct (Z.eqb_spec x 45) as [->|H2]; [exists [45]; auto|].
    exists []. auto. }
  clearbody s0. destruct H0 as (g & -> & Hg). destruct (digits1 s0) as [r0|] eqn:E; [|done]. intros [= <-]. apply digits1_spec in E as (d & -> & Hd1 & Hd2).
  destruct (fraction_spec r0) as (f & Hf & Hf'). destruct (exponent_spec (fraction r0)) as (x & Hx & Hx').
  exists (g ++ d ++ f ++ x). split; [|by exists g, d, f, x]. rewrite Hf at 1. rewrite Hx at 1. by rewrite <- !app_assoc.
Qed.

(** What the second expression finds. *)
Inductive raw_token : jstr -> Prop :=
  | RawString b : Forall raw_unit b -> raw_token (34 :: b ++ [34])
  | RawWord t : t ∈ [u "true"; u "false"; u "null"] -> raw_token t
  | RawNumber t : number_text t -> raw_token t.

Definition finds_token (m : matcher) : Prop :=
  forall s r, m s = Some r -> exists e, s = e ++ r /\ raw_token e /\ e <> [].

Lemma alt_token m1 m2 : finds_token m1 -> finds_token m2 -> finds_token (alt m1 m2).
Proof. intros H1 H2 s r H. unfold alt in H. destruct (m1 s) eqn:E; [injection H as ->; eauto|eauto]. Qed.

Lemma word_token w : w ∈ [u "true"; u "false"; u "null"] -> finds_token (word w).
Proof.
  intros Hw s r H. unfold word in H. case_bool_decide as E; [|done]. injection H as <-.
  exists w. split; [by rewrite <- E at 1; rewrite take_drop|]. split; [by apply RawWord|].
  intros ->. apply list_elem_of_In in Hw. by destruct Hw as [?|[?|[?|[]]]].
Qed.

Lemma rx_string_token : finds_token rx_string.
Proof.
  intros [|c s] r H; [done|]. cbn in H. destruct (c =? 34) eqn:E; [|done]. apply Z.eqb_eq in E as ->.
  apply string_end_spec in H as (b & -> & Hb). exists (34 :: b ++ [34]).
  split; [by rewrite <- app_comm_cons, <- app_assoc|]. split; [by constructor|done].
Qed.

Lemma rx_number_token : finds_token rx_number.
Proof.
  intros s r (d & -> & Hd)%rx_number_spec. exists d. split; [done|]. split; [by apply RawNumber|]. by apply number_text_chars.
Qed.

Lemma rx_three_token : finds_token rx_three.
Proof.
  repeat apply alt_token; auto using rx_string_token, rx_number_token; apply word_token;
    in_list.
Qed.
Lemma rx_three_consumes : consumes rx_three.
Proof. intros s r H. apply rx_three_token in H as (e & -> & _ & He). by exists e. Qed.

Lemma brackets_spec s : forall best r, brackets s best = Some r ->
  (exists p, s = p ++ r /\ p <> [] /\ Forall (fun c => c = 91 \/ is_space c = true) p) \/ best = Some r.
Proof.
  induction s as [|c s IH]; intros best r H; [by right|]. cbn in H. destruct (c =? 91) eqn:E.
  - apply Z.eqb_eq in E as ->. left. destruct (IH _ _ H) as [(p & -> & _ & Hp)|[= ->]].
    + exists (91 :: p). repeat split; [done|]. constructor; [by left|done].
    + exists [91]. repeat split; [done|]. constructor; [by left|constructor].
  - destruct (is_space c) eqn:Es; [|by right]. destruct (IH _ _ H) as [(p & -> & _ & Hp)|?]; [left|by right].
    exists (c :: p). repeat split; [done|]. constructor; [by right|done].
Qed.

(** Brackets, commas, colons, braces and white space: the units of the text that the
    last two expressions see. *)
Definition structural (c : Z) : Prop := c ∈ [91; 93; 44; 58; 123; 125] \/ is_space c = true.

Lemma bracket_structural c : c = 91 \/ is_space c = true -> structural c.
Proof. intros [->|H]; [left; in_list|by right]. Qed.
Lemma punctuation_structural c : punctuation c = true -> structural c.
Proof.
  unfold punctuation. rewrite !orb_true_iff, !Z.eqb_eq.
  intros [[[[[->| ->]| ->]| ->]| ->]|H]; [left; in_list..|by right].
Qed.

Lemma rx_four_spec s r : rx_four_later s = Some r -> exists p, s = p ++ r /\ p <> [] /\ Forall structural p.
Proof.
  destruct s as [|c s]; [done|]. cbn. destruct (_ || _) eqn:E; [|done]. intros H.
  assert (Hc : structural c) by (apply orb_true_iff in E as [->%Z.eqb_eq| ->%Z.eqb_eq]; left; in_list).
  apply brackets_spec in H as [(p & -> & _ & Hp)|[=]]. exists (c :: p). repeat split; [done|].
  constructor; [done|]. eapply Forall_impl; [exact Hp|]. apply bracket_structural.
Qed.
Lemma rx_four_consumes : consumes rx_four_later.
Proof. intros s r H. apply rx_four_spec in H as (p & -> & Hp & _). by exists p. Qed.

(** What the test accepts was made of punctuation and opening brackets. *)
Lemma rx_four_structural s : Forall structural (replace_rx rx_four_later [] s) -> Forall structural s.
Proof.
  apply (replace_rx_ind rx_four_later [] (fun s t => Forall structural t -> Forall structural s));
    [apply rx_four_consumes|done| |].
  - intros e r t Hm Hne IH Ht. apply rx_four_spec in Hm as (p & E & _ & Hp).
    apply app_inv_tail in E as ->. apply Forall_app. auto.
  - intros c s' t _ IH Ht. inversion Ht; subst. constructor; auto.
Qed.

Lemma accepted_structural s : rx_one (replace_four s) = true -> Forall structural s.
Proof.
  intros H. unfold rx_one in H. rewrite forallb_forall in H.
  assert (Ht : Forall structural (replace_four s)).
  { apply Forall_forall. intros c Hc. apply punctuation_structural, H. by apply list_elem_of_In. }
  unfold replace_four in Ht. destruct (brackets s None) as [r|] eqn:E; [|by apply rx_four_structural].
  apply brackets_spec in E as [(p & -> & _ & Hp)|[=]]. apply Forall_app. split; [|by apply rx_four_structural].
  eapply Forall_impl; [exact Hp|]. apply bracket_structural.
Qed.

(** ** Accepted texts are sequences of tokens *)

(** The parts of a string literal: a unit, or what the first expression finds. *)
Definition string_part (two : matcher) (e : jstr) : Prop := (exists c, e = [c] /\ raw_unit c) \/ matches two e.

Inductive token (two : matcher) : jstr -> Prop :=
  | TString ps : Forall (string_part two) ps -> token two (34 :: concat ps ++ [34])
  | TWord t : t ∈ [u "true"; u "false"; u "null"] -> token two t
  | TNumber t : number_text t -> token two t
  | TStructural c : structural c -> token two [c].

(** The text before the second replacement, in the pieces that it replaces or keeps. *)
Lemma rx_three_pieces s : Forall structural (replace_rx rx_three [93] s) ->
  exists ps, s = concat ps /\ Forall (fun p => raw_token p \/ exists c, p = [c] /\ structural c) ps.
Proof.
  apply (replace_rx_ind rx_three [93] (fun s t => Forall structural t -> exists ps, s = concat ps /\
    Forall (fun p => raw_token p \/ exists c, p = [c] /\ structural c) ps)); [apply rx_three_consumes|..].
  - intros _. by exists [].
  - intros e r t Hm Hne IH Ht. apply Forall_app in Ht as [_ Ht]. destruct (IH Ht) as (ps & -> & Hps).
    apply rx_three_token in Hm as (e' & E & He & _). apply app_inv_tail in E as ->.
    exists (e' :: ps). split; [done|]. constructor; [by left|done].
  - intros c s' t _ IH Ht. inversion Ht; subst. destruct (IH ltac:(done)) as (ps & -> & Hps).
    exists ([c] :: ps). split; [done|]. constructor; [right; by exists c|done].
Qed.

(** The text itself, in the pieces that the first replacement turns into units. *)
Definition origin (two : matcher) (e : jstr) (c : Z) : Prop := e = [c] \/ (c = 64 /\ matches two e).

Lemma rx_two_pieces two s : local_matcher two ->
  exists es, s = concat es /\ Forall2 (origin two) es (replace_rx two [64] s).
Proof.
  intros Hl. apply (replace_rx_ind two [64] (fun s t => exists es, s = concat es /\ Forall2 (origin two) es t));
    [by apply local_consumes|..].
  - by exists [].
  - intros e r t Hm Hne (es & -> & Hes). apply Hl in Hm as (e' & E & He). apply app_inv_tail in E as ->.
    exists (e' :: es). split; [done|]. constructor; [by right|done].
  - intros c s' t _ (es & -> & Hes). exists ([c] :: es). split; [done|]. constructor; [by left|done].
Qed.

Lemma origin_plain two es p : Forall2 (origin two) es p -> Forall (fun c => c <> 64) p -> concat es = p.
Proof.
  induction 1 as [|e c es p He Hes IH]; [done|]. inversion 1; subst. cbn. rewrite IH by done.
  by destruct He as [->|[-> _]].
Qed.

Lemma origin_body two es b : Forall2 (origin two) es b -> Forall raw_unit b -> Forall (string_part two) es.
Proof.
  induction 1 as [|e c es b He Hes IH]; [done|]. inversion 1; subst. constructor; [|by apply IH].
  destruct He as [->|[_ He]]; [left; by exists c|by right].
Qed.

Lemma num_char_not_at t : Forall (fun c => num_char c = true) t -> Forall (fun c => c <> 64) t.
Proof. intros H. eapply Forall_impl; [exact H|]. by intros c Hc ->. Qed.

Lemma origin_token two es p : Forall2 (origin two) es p ->
  (raw_token p \/ exists c, p = [c] /\ structural c) -> token two (concat es).
Proof.
  intros He [Hp|(c & -> & Hc)].
  - destruct Hp as [b Hb|t Ht|t Ht].
    + inversion He as [|e1 c1 es1 ? H1 H2]; subst. apply Forall2_app_inv_r in H2 as (es2 & es3 & H2 & H3 & ->).
      inversion H3 as [|e3 c3 es4 ? H4 H5]; subst. inversion H5; subst.
      destruct H1 as [->|[[=] _]], H4 as [->|[[=] _]]. cbn. rewrite concat_app. cbn.
      apply TString. by eapply origin_body.
    + rewrite (origin_plain two es t He); [by apply TWord|]. apply list_elem_of_In in Ht.
      destruct Ht as [<-|[<-|[<-|[]]]]; by repeat constructor.
    + rewrite (origin_plain two es t He) by (by apply num_char_not_at, number_text_chars). by apply TNumber.
  - rewrite (origin_plain two es [c] He); [by apply TStructural|]. repeat constructor.
    intros ->. destruct Hc as [Hc|Hc]; [|done]. apply list_elem_of_In in Hc. cbn in Hc. lia.
Qed.

Lemma accepted_tokens two s : local_matcher two -> rx_one (filtered two s) = true ->
  exists ts, s = concat ts /\ Forall (token two) ts.
Proof.
  intros Hl H. apply accepted_structural, rx_three_pieces in H as (ps & Eps & Hps).
  destruct (rx_two_pieces two s Hl) as (es & -> & Hes). rewrite Eps in Hes. clear Eps Hl. revert es Hes.
  induction Hps as [|p ps Hp Hps IH]; intros es Hes.
  - inversion Hes; subst. by exists [].
  - cbn in Hes. apply Forall2_app_inv_r in Hes as (es1 & es2 & H1 & H2 & ->).
    destruct (IH es2 H2) as (ts & E & Hts). exists (concat es1 :: ts).
    split; [by rewrite concat_app, E|]. constructor; [by eapply origin_token|done].
Qed.

(** ** Written texts are accepted *)

(** The text after the first two replacements. *)
Definition masked (s : jstr) : jstr := replace_rx rx_three [93] (replace_rx rx_two [64] s).

(** The units between values. *)
Definition between : list Z := [91; 93; 44; 58; 123; 125; 32; 9; 10; 13].
Definition follows (s : jstr) : Prop := match s with c :: _ => c ∈ between | [] => True end.

Ltac each_between H :=
  unfold between in H; repeat (apply elem_of_cons in H as [->|H]); [..|by apply elem_of_nil in H].

Lemma word_other w c s : (match w with d :: _ => d <> c | [] => False end) -> word w (c :: s) = None.
Proof.
  intros H. destruct w as [|d w]; [done|]. unfold word. rewrite bool_decide_false; [done|].
  cbn. intros [= E _]. congruence.
Qed.

Lemma rx_two_other c s : c <> 92 -> rx_two (c :: s) = None.
Proof. intros H. destruct s; [done|]. cbn. by rewrite (proj2 (Z.eqb_neq c 92) H). Qed.

Lemma rx_three_between c s : c ∈ between -> rx_three (c :: s) = None.
Proof.
  intros H. unfold rx_three, alt. rewrite !word_other by (each_between H; discriminate).
  each_between H; reflexivity.
Qed.

Lemma two_cons c s : c <> 92 -> replace_rx rx_two [64] (c :: s) = c :: replace_rx rx_two [64] s.
Proof.
  intros H. rewrite replace_rx_cons by apply local_consumes, rx_two_local. by rewrite rx_two_other.
Qed.
Lemma two_app t s : Forall (fun c => c <> 92) t ->
  replace_rx rx_two [64] (t ++ s) = t ++ replace_rx rx_two [64] s.
Proof. induction 1 as [|c t Hc Ht IH]; [done|]. cbn [app]. by rewrite two_cons, IH. Qed.

Lemma masked_between c s : c ∈ between -> masked (c :: s) = c :: masked s.
Proof.
  intros H. unfold masked. rewrite two_cons by (each_between H; discriminate).
  rewrite replace_rx_cons by apply rx_three_consumes. by rewrite rx_three_between.
Qed.

(** A token of the second expression becomes a bracket. *)
Lemma masked_token t s : Forall (fun c => c <> 92) t -> t <> [] ->
  rx_three (t ++ replace_rx rx_two [64] s) = Some (replace_rx rx_two [64] s) -> masked (t ++ s) = 93 :: masked s.
Proof.
  intros Ht Hne H. unfold masked. rewrite two_app by done. destruct t as [|c t]; [done|].
  cbn [app] in H |- *. rewrite replace_rx_cons by apply rx_three_consumes. by rewrite H.
Qed.

Lemma word_app w s : word w (w ++ s) = Some s.
Proof. unfold word. rewrite take_app_length, drop_app_length. by rewrite bool_decide_true. Qed.

Lemma masked_word t s : t ∈ [u "true"; u "false"; u "null"] -> masked (t ++ s) = 93 :: masked s.
Proof.
  intros Ht. apply list_elem_of_In in Ht. destruct Ht as [<-|[<-|[<-|[]]]];
    (apply masked_token; [by repeat constructor|done|]); unfold rx_three, alt;
    rewrite ?word_other, ?word_app by discriminate; try reflexivity.
Qed.

Definition mask (c : Z) : Z := if escapable c then 64 else c.

Lemma is_hex_digit d : 0 <= d < 16 -> is_hex (hex_digit d) = true.
Proof. intros H. unfold is_hex. rewrite hex_digit_val by done. lia. Qed.

Lemma two_enc c s : 0 <= c < 65536 -> replace_rx rx_two [64] (enc c ++ s) = mask c :: replace_rx rx_two [64] s.
Proof.
  intros Hc. unfold enc, mask. destruct (escapable c) eqn:E.
  - assert (Hm : rx_two (escape c ++ s) = Some s).
    { unfold escape. destruct (meta c) as [e|] eqn:Em.
      - unfold meta in Em. repeat (case_match; try discriminate Em); injection Em as <-; reflexivity.
      - rewrite hex4_text by done. change (u "\u") with [92; 117]. cbn [app rx_two negb Z.eqb Pos.eqb].
        rewrite !is_hex_digit by (Z.div_mod_to_equations; lia). reflexivity. }
    assert (He : escape c <> []) by (unfold escape; destruct (meta c) eqn:Em; [|done];
      unfold meta in Em; repeat (case_match; try discriminate Em); by injection Em as <-).
    destruct (escape c) as [|d e] eqn:Ee; [done|]. cbn [app] in Hm |- *.
    rewrite replace_rx_cons by apply local_consumes, rx_two_local. by rewrite Hm.
  - apply two_cons. intros ->. discriminate E.
Qed.

Lemma masked_quote k s : units k -> masked (quote k ++ s) = 93 :: masked s.
Proof.
  intros Hk. rewrite quote_flat. unfold masked. rewrite <- app_comm_cons, <- app_assoc.
  rewrite two_cons by done.
  assert (E : replace_rx rx_two [64] (flat_map enc k ++ [34] ++ s)
              = map mask k ++ 34 :: replace_rx rx_two [64] s).
  { induction Hk as [|c k Hc Hk IH]; [by apply two_cons|].
    cbn [flat_map map]. rewrite <- app_assoc, two_enc by done. by rewrite IH. }
  rewrite E, replace_rx_cons by apply rx_three_consumes. unfold rx_three, alt.
  change (rx_string (34 :: ?x)) with (string_end x). rewrite string_end_body; [done|].
  apply Forall_map. eapply Forall_impl; [exact Hk|]. intros c Hc. unfold mask, compose, raw_unit.
  destruct (escapable c) eqn:Ee; [lia|]. repeat split; intros ->; discriminate Ee.
Qed.

Lemma Z_to_str_digits z : exists d, Forall is_digit d /\ d <> [] /\ (Z_to_str z = d \/ Z_to_str z = 45 :: d).
Proof.
  assert (Hpos : forall n, 0 <= n -> Forall is_digit (Z_to_str n) /\ Z_to_str n <> []).
  { intros n Hn. destruct (Z_to_str_nonneg_shape n Hn) as (Hd & len & Hl & Hr). split; [done|].
    intros E. rewrite E in Hr. cbn in Hr. injection Hr. lia. }
  destruct (decide (0 <= z)) as [H|H].
  - destruct (Hpos z H). by exists (Z_to_str z); auto.
  - destruct (Hpos (- z) ltac:(lia)). exists (Z_to_str (- z)). repeat split; [done|done|]. right.
    unfold Z_to_str. rewrite (proj2 (Z.ltb_lt z 0)) by lia. by rewrite (proj2 (Z.ltb_ge (- z) 0)) by lia.
Qed.

Lemma is_dec_digit c : is_digit c -> is_dec c = true.
Proof. unfold is_digit, is_dec. intros H. apply andb_true_iff. lia. Qed.

Lemma two_follows s : follows s -> follows (replace_rx rx_two [64] s).
Proof.
  destruct s as [|c s]; [done|]. intros H. rewrite two_cons; [done|]. intros ->.
  cbn in H. unfold between in H. apply list_elem_of_In in H. cbn in H. lia.
Qed.

Lemma drop_digits_app d s : Forall is_digit d -> follows s -> drop_digits (d ++ s) = s.
Proof.
  intros Hd Hs. induction Hd as [|c d Hc Hd IH]; cbn.
  - destruct s as [|c s]; [done|]. cbn in Hs. by each_between Hs.
  - by rewrite is_dec_digit.
Qed.

Lemma number_end s : follows s -> exponent (fraction s) = s.
Proof. destruct s as [|c s]; [done|]. cbn [follows]. intros H. by each_between H. Qed.

Lemma rx_number_app z s : follows s -> rx_number (Z_to_str z ++ s) = Some s.
Proof.
  intros Hs. destruct (Z_to_str_digits z) as (d & Hd & Hne & E).
  assert (Hd1 : digits1 (d ++ s) = Some s).
  { destruct Hd as [|c d Hc Hd]; [done|]. cbn. rewrite is_dec_digit by done. by rewrite drop_digits_app. }
  enough (rx_number (d ++ s) = Some s /\ rx_number (45 :: d ++ s) = Some s) by (destruct E as [-> | ->]; tauto).
  assert (Hm : forall t, t = d ++ s -> match digits1 t with Some r => Some (exponent (fraction r)) | None => None end = Some s)
    by (intros t ->; by rewrite Hd1, number_end).
  split; [|by apply Hm]. destruct Hd as [|c d Hc Hd]; [done|]. digit_cases Hc; by apply Hm.
Qed.

Lemma masked_number z s : follows s -> masked (Z_to_str z ++ s) = 93 :: masked s.
Proof.
  intros Hs. destruct (Z_to_str_head z) as (c & t & E & Hc & Ht). apply masked_token.
  - rewrite E. eapply Forall_impl; [exact Ht|]. by intros d Hd ->.
  - by rewrite E.
  - unfold rx_three, alt. rewrite E. cbn [app].
    assert (Hr : c <> 34 /\ c <> 116 /\ c <> 102 /\ c <> 110) by (unfold is_digit in Hc; lia).
    rewrite !word_other by (cbn; lia). change (c :: t ++ ?x) with ((c :: t) ++ x). rewrite <- E.
    rewrite rx_number_app by by apply two_follows. rewrite E. cbn [app rx_string].
    by rewrite (proj2 (Z.eqb_neq c 34)) by lia.
Qed.

(** In such a text every opening bracket stands where the last expression deletes it:
    after the beginning, a colon or a comma, or after another one. *)
Fixpoint good (opens : bool) (s : jstr) : bool :=
  match s with
  | [] => true
  | c :: r =>
      if c =? 91 then opens && good true r
      else if is_space c then good opens r
      else punctuation c && good ((c =? 58) || (c =? 44)) r
  end.

Lemma good_mono s : good false s = true -> good true s = true.
Proof. induction s as [|c s IH]; [done|]. cbn. destruct (c =? 91); [done|]. destruct (is_space c); auto. Qed.

Lemma brackets_good s : forall best, good true s = true ->
  (exists r, brackets s best = Some r /\ good false r = true /\ (length r < length s)%nat)
  \/ (brackets s best = best /\ good false s = true).
Proof.
  induction s as [|c s IH]; intros best H; [by right|]. cbn in H |- *. destruct (c =? 91) eqn:E.
  - left. destruct (IH (Some s) H) as [(r & Hr & Hg & Hl)|[Hr Hg]]; [exists r|exists s]; repeat split; auto; lia.
  - destruct (is_space c) eqn:Es; [|by right].
    destruct (IH best H) as [(r & Hr & Hg & Hl)|[Hr Hg]]; [left; exists r; repeat split; auto; lia|by right].
Qed.

Lemma good_later s : good false s = true -> rx_one (replace_rx rx_four_later [] s) = true.
Proof.
  remember (length s) as n eqn:En. revert s En. induction (lt_wf n) as [n _ IH].
  intros [|c s] -> H; [done|]. cbn in IH, H. rewrite replace_rx_cons by apply rx_four_consumes.
  destruct (c =? 91) eqn:E; [done|]. cbn [rx_four_later].
  assert (Hp : punctuation c = true).
  { destruct (is_space c) eqn:Es; [|by apply andb_true_iff in H as [? _]].
    unfold punctuation. rewrite Es. by rewrite !orb_true_r. }
  assert (Hkeep : good false s = true -> rx_one (c :: replace_rx rx_four_later [] s) = true).
  { intros Hg. cbn. rewrite Hp. by apply (IH (length s)); [lia|..]. }
  destruct ((c =? 58) || (c =? 44)) eqn:Ec.
  - assert (Hg : good true s = true).
    { destruct (is_space c) eqn:Es; [by apply good_mono|by apply andb_true_iff in H as [_ ?]]. }
    destruct (brackets_good s None Hg) as [(r & -> & Hr & Hl)|[-> Hr]]; [|by apply Hkeep].
    apply (IH (length r)); [lia|done|done].
  - apply Hkeep. destruct (is_space c); [done|by apply andb_true_iff in H as [_ ?]].
Qed.

Lemma good_accepted s : good true s = true -> rx_one (replace_four s) = true.
Proof.
  intros H. unfold replace_four.
  destruct (brackets_good s None H) as [(r & -> & Hr & _)|[-> Hr]]; by apply good_later.
Qed.

(** A text of a value after which the test goes on as before. *)
Definition accepted (v : jsval) (t : jstr) : Prop :=
  forall r, follows r -> good false (masked r) = true -> good true (masked (t ++ r)) = true.

Lemma accepted_leaf v t : (forall r, follows r -> masked (t ++ r) = 93 :: masked r) -> accepted v t.
Proof. intros H r Hr Hg. by rewrite H. Qed.

Lemma ws_between w : ws w -> Forall (fun c => c ∈ [32; 9; 10; 13]) w.
Proof.
  intros H. eapply Forall_impl; [exact H|]. intros c Hc. unfold is_ws in Hc.
  rewrite !orb_true_iff, !Z.eqb_eq in Hc. destruct Hc as [[[->| ->]| ->]| ->]; in_list.
Qed.

Lemma space_between c : c ∈ [32; 9; 10; 13] -> c ∈ between.
Proof.
  intros H. repeat (apply elem_of_cons in H as [->|H]; [in_list|]). by apply elem_of_nil in H.
Qed.

Lemma follows_ws w s : ws w -> follows s -> follows (w ++ s).
Proof.
  intros Hw Hs. apply ws_between in Hw. destruct Hw as [|c w Hc Hw]; [done|]. by apply space_between.
Qed.

Lemma good_ws op w s : ws w -> good op (masked (w ++ s)) = good op (masked s).
Proof.
  intros H. apply ws_between in H. induction H as [|c w Hc Hw IH]; [done|]. rewrite <- app_comm_cons.
  rewrite masked_between by by apply space_between. rewrite <- IH.
  repeat (apply elem_of_cons in Hc as [->|Hc]; [reflexivity|]). by apply elem_of_nil in Hc.
Qed.

(** Texts that stand one after the other, separated by commas. *)
Lemma good_join (Q : jstr -> Prop) op w ts : ws w ->
  (forall t r, Q t -> follows r -> good false (masked r) = true -> good op (masked (t ++ r)) = true) ->
  Forall Q ts -> ts <> [] -> (op = true \/ forall s, good false s = true -> good op s = true) ->
  forall r, follows r -> good false (masked r) = true ->
  good op (masked (join (44 :: w) ts ++ r)) = true.
Proof.
  intros Hw HQ Hts Hne Hop r Hr Hg. induction Hts as [|t ts Ht Hts IH]; [done|].
  destruct ts as [|t' ts']; [cbn; by apply HQ|].
  change (join (44 :: w) (t :: t' :: ts')) with (t ++ (44 :: w) ++ join (44 :: w) (t' :: ts')).
  rewrite <- !app_assoc. specialize (IH ltac:(done)).
  apply HQ; [done|cbn; in_list|].
  rewrite <- app_comm_cons, masked_between by in_list.
  change (good false (44 :: ?s)) with (good true s). rewrite good_ws by done.
  destruct op; [done|]. by apply good_mono.
Qed.

Lemma accepted_array l ts gap mind :
  ws gap -> ws mind -> Forall2 accepted l ts -> accepted (VArr l) (layout [91] [93] gap mind ts).
Proof.
  intros Hg Hm H r Hr Hgr. destruct (decide (ts = [])) as [->|Hne].
  { cbn [layout app]. by rewrite !masked_between by in_list. }
  destruct (layout_shape [91] [93] gap mind ts Hg Hm Hne) as (w1 & w2 & w3 & H1 & H2 & H3 & ->).
  cbn [app]. rewrite <- !app_assoc. rewrite masked_between by in_list.
  change (good true (91 :: ?s)) with (good true s). rewrite good_ws by done.
  assert (Hc : good false (masked (93 :: r)) = true) by (rewrite masked_between by in_list; done).
  apply (good_join (fun t => exists v, accepted v t)); [done| | |done|by left| |].
  - intros t r' [v Ht]. apply Ht.
  - clear -H. induction H; constructor; [by eexists|done].
  - apply follows_ws; [done|]. cbn. in_list.
  - by rewrite good_ws.
Qed.

Lemma accepted_object l ms gap mind :
  ws gap -> ws mind -> Forall2 (member_text accepted) l ms ->
  accepted (VObj l) (layout [123] [125] gap mind ms).
Proof.
  intros Hg Hm H r Hr Hgr. destruct (decide (ms = [])) as [->|Hne].
  { cbn [layout app]. by rewrite !masked_between by in_list. }
  destruct (layout_shape [123] [125] gap mind ms Hg Hm Hne) as (w1 & w2 & w3 & H1 & H2 & H3 & ->).
  cbn [app]. rewrite <- !app_assoc. rewrite masked_between by in_list.
  change (good true (123 :: ?s)) with (good false s). rewrite good_ws by done.
  assert (Hc : good false (masked (125 :: r)) = true) by (rewrite masked_between by in_list; done).
  apply (good_join (fun t => exists kv, member_text accepted kv t)); [done| | |done|by right| |].
  - intros t r' [kv (w & t' & -> & Hk & Hw & Ht)] Hr' Hg'. rewrite <- app_assoc, masked_quote by done.
    rewrite <- app_comm_cons, masked_between by in_list.
    change (good false (93 :: 58 :: ?s)) with (good true s). rewrite <- app_assoc, good_ws by done. by apply Ht.
  - clear -H. induction H; constructor; [by eexists|done].
  - apply follows_ws; [done|]. cbn. in_list.
  - by rewrite good_ws.
Qed.

Lemma accepted_property : text_property accepted.
Proof.
  constructor; auto using accepted_array, accepted_object; intros; apply accepted_leaf; intros r Hr.
  - by apply masked_quote.
  - by apply masked_number.
  - apply masked_word. in_list.
  - apply masked_word. destruct b; in_list.
Qed.

(** ** Dangerous units are not written *)

Definition harmless (v : jsval) (t : jstr) : Prop := Forall (fun c => dangerous c = false) t.

Lemma low_harmless t : Forall (fun c => 0 < c < 173) t -> Forall (fun c => dangerous c = false) t.
Proof.
  intros H. eapply Forall_impl; [exact H|]. intros c Hc. cbv beta in Hc |- *. unfold dangerous.
  rewrite !orb_false_iff, !andb_false_iff. lia.
Qed.

Lemma ws_harmless w : ws w -> Forall (fun c => dangerous c = false) w.
Proof.
  intros H. apply low_harmless. eapply Forall_impl; [apply ws_between, H|]. intros c Hc.
  repeat (apply elem_of_cons in Hc as [->|Hc]; [lia|]). by apply elem_of_nil in Hc.
Qed.

Lemma enc_harmless c : 0 <= c < 65536 -> Forall (fun c => dangerous c = false) (enc c).
Proof.
  intros Hc. unfold enc. destruct (escapable c) eqn:E.
  - unfold escape. destruct (meta c) as [e|] eqn:Em.
    + unfold meta in Em. repeat (case_match; try discriminate Em); injection Em as <-; by repeat constructor.
    + rewrite hex4_text by done. apply low_harmless. change (u "\u") with [92; 117]. cbn [app].
      assert (Hd : forall d, 0 <= d < 16 -> 0 < hex_digit d < 173)
        by (intros d Hd; unfold hex_digit; destruct (d <? 10); lia).
      repeat (constructor; [first [lia | apply Hd; Z.div_mod_to_equations; lia]|]). constructor.
  - repeat constructor. unfold escapable in E. rewrite !orb_false_iff in E. unfold dangerous.
    rewrite !orb_false_iff. destruct E as [[[[[[[[[[[[[? ?] E31] ?] ?] ?] ?] ?] ?] ?] ?] ?] ?] ?].
    repeat split; try done. apply andb_false_iff in E31. lia.
Qed.

Lemma harmless_property : text_property harmless.
Proof.
  apply unit_property.
  - intros c Hc. assert (H : harmless VNull [c]) by (apply ws_harmless; by repeat constructor). by inversion H.
  - apply enc_harmless.
  - intros c Hc. assert (H : harmless VNull [c]) by (apply low_harmless; repeat constructor; unfold is_digit in Hc; lia).
    by inversion H.
  - by repeat constructor.
Qed.

Lemma escape_dangerous_harmless t : Forall (fun c => dangerous c = false) t -> escape_dangerous t = t.
Proof.
  intros H. unfold escape_dangerous. replace (existsb dangerous t) with false; [done|].
  symmetry. induction H as [|c t Hc Ht IH]; [done|]. cbn. by rewrite Hc.
Qed.

(** The text of a value has every such property. *)
Lemma text_of P v sp : text_property P -> clean v = true -> ws (indent_of sp) ->
  exists t, stringify (depth v) v RANone sp = Returns (Text t) /\ P v t.
Proof.
  intros HP Hv Hsp. destruct (clean_serialises P HP _ v Hsp Hv []) as (t & Hr & Ht); [constructor|].
  exists t. split; [|done]. cbn. by rewrite Ht.
Qed.

(** ** The host

    ECMAScript reads a JSON text as an expression of the same value, but for the line
    separators in it, and for names that are not plain ([plain_keys]). *)
Class JsonEval (eval : jstr -> option jsval) := eval_json : forall t v,
  Reader.parse t = Some v -> clean v = true -> plain_keys v = true -> Forall (fun c => c <> 8232 /\ c <> 8233) t ->
  eval (u "(" ++ t ++ u ")") = Some v.

(** The reader as such a host. *)
Definition eval_reader (s : jstr) : option jsval := Reader.parse (removelast (tail s)).
#[export] Instance eval_reader_json : JsonEval eval_reader.
Proof.
  intros t v Ht _ _ _. unfold eval_reader. change (tail (u "(" ++ t ++ u ")")) with (t ++ [41]).
  by rewrite removelast_last.
Qed.

(** ** Properties *)

(** C18. What [JSON.parse] hands to [eval] is a sequence of these tokens: string literals
    without line ends and with the escapes of JSON alone, the words true, false and null,
    numbers (a minus sign or none, digits, fraction, exponent), brackets, braces, commas,
    colons and white space; any other text is refused. So no other name, no parenthesis and
    no operator is evaluated but the sign of a number; how the tokens follow each other is
    not tested ([subtraction_evaluated]). *)
Theorem parse_evaluates_tokens eval rev text :
  JSON_parse eval rev text = NotJson (u "JSON.parse") \/
  exists ts, escape_dangerous text = concat ts /\ Forall (token rx_two) ts.
Proof.
  unfold JSON_parse, eval_checked. destruct (rx_one _) eqn:E; [right|by left].
  by apply accepted_tokens; [apply rx_two_local|].
Qed.

(** A text that is no JSON text and is evaluated: the second number has the minus sign. *)
Theorem subtraction_evaluated : rx_one (filtered rx_two (u "1-2")) = true /\ Reader.parse (u "1-2") = None.
Proof. by vm_compute. Qed.

(** The same for [$.secureEvalJSON]. *)
Theorem secure_evaluates_tokens eval src :
  secureEvalJSON eval src = NotJson (u "Error parsing JSON, source is not valid.") \/
  exists ts, src = concat ts /\ Forall (token rx_pair) ts.
Proof.
  unfold secureEvalJSON, eval_checked. destruct (rx_one _) eqn:E; [right|by left].
  by apply accepted_tokens; [apply rx_pair_local|].
Qed.

(** C17. What [JSON.stringify] writes for a value of null, booleans, integers up to 2^53,
    texts, and arrays and objects of these with plain names ([plain_keys]), with any
    indentation of white space, [JSON.parse] accepts and gives to the reviver as the value
    that was written, on a host whose [eval] reads the JSON texts of such values. *)
Theorem parse_stringify eval {H : JsonEval eval} v sp rev :
  clean v = true -> plain_keys v = true -> ws (indent_of sp) ->
  exists t, stringify (depth v) v RANone sp = Returns (Text t) /\
    JSON_parse eval rev t = Parsed match rev with Some g => walk g (VObj [([], v)]) [] v | None => v end.
Proof.
  intros Hv Hk Hsp.
  destruct (text_of _ v sp readable_property Hv Hsp) as (t & Ht & Hr).
  destruct (text_of _ v sp accepted_property Hv Hsp) as (t1 & Ht1 & Ha).
  destruct (text_of _ v sp harmless_property Hv Hsp) as (t2 & Ht2 & Hh).
  assert (t1 = t) as -> by congruence. assert (t2 = t) as -> by congruence.
  exists t. split; [done|]. unfold JSON_parse, eval_checked.
  rewrite escape_dangerous_harmless by done.
  assert (Hone : rx_one (filtered rx_two t) = true).
  { apply good_accepted. fold (masked t). rewrite <- (app_nil_r t). by apply Ha. }
  rewrite Hone, (eval_json t v); [by destruct rev|by apply parse_readable|done|done|].
  eapply Forall_impl; [exact Hh|]. by intros c Hc; split; intros ->.
Qed.

Lemma parse_stringify_witness :
  let v := VObj [(u "a", VArr [VNum (of_Z (-3)); VStr [34; 8232; 92]; VObj []]); (u "b", VArr [VArr []])] in
  (clean v = true /\ plain_keys v = true) /\
  exists t, stringify (depth v) v RANone (SpaceNum 2) = Returns (Text t) /\
    JSON_parse eval_reader None t = Parsed v.
Proof.
  intros v. assert (H1 : clean v = true) by reflexivity. assert (H2 : plain_keys v = true) by reflexivity.
  split; [by split|]. apply (parse_stringify eval_reader v (SpaceNum 2) None H1 H2). by repeat constructor.
Defined.

(** ** Reviving *)

(** Reviving bottom up, without a holder. *)
Fixpoint revive (r : jstr -> jsval -> jsval) (key : jstr) (v : jsval) : jsval :=
  r key
    match v with
    | VArr l =>
        VArr ((fix elements (i : nat) (l : list jsval) : list jsval :=
           match l with
           | [] => []
           | x :: l' => revive r (Z_to_str (Z.of_nat i)) x :: elements (S i) l'
           end) 0%nat l)
    | VObj l =>
        VObj (flat_map (fun kv => match revive r (fst kv) (snd kv) with VUndef => [] | x => [(fst kv, x)] end) l)
    | _ => v
    end.

(** With a reviver that does not look at the holder, the walk that changes the members
    in place is that: every member is revived once, after its own members and with
    them, and is deleted when nothing is returned. *)
Theorem walk_revives r holder key v : walk (fun _ => r) holder key v = revive r key v.
Proof.
  revert holder key. induction v as [| | |n|s|l IH|l IH|t|] using jsval_ind'; intros holder key; try done.
  - cbn [walk revive]. do 2 f_equal.
    match goal with |- ?f [] l = ?g 0%nat l => set (go := f); set (spec := g) end.
    enough (Hgo : forall done, go done l = done ++ spec (length done) l) by apply (Hgo []).
    induction IH as [|x l Hx Hl IHl]; intros done; [by rewrite app_nil_r|].
    change (go done (x :: l)) with
      (go (done ++ [walk (fun _ => r) (VArr (done ++ x :: l)) (Z_to_str (Z.of_nat (length done))) x]) l).
    rewrite IHl, Hx, <- app_assoc, length_app, Nat.add_1_r. done.
  - cbn [walk revive]. do 2 f_equal.
    match goal with |- ?f [] l = _ => set (go := f) end.
    enough (Hgo : forall done, go done l = done ++ flat_map (fun kv => match revive r (fst kv) (snd kv) with
              VUndef => [] | x => [(fst kv, x)] end) l) by (rewrite Hgo; done).
    induction IH as [|[k x] l Hx Hl IHl]; intros done; [by rewrite app_nil_r|].
    change (go done ((k, x) :: l)) with
      (match walk (fun _ => r) (VObj (done ++ (k, x) :: l)) k x with
       | VUndef => go done l | v => go (done ++ [(k, v)]) l end).
    cbn [snd] in Hx. rewrite Hx. cbn [flat_map fst snd].
    by destruct (revive r k x); rewrite IHl, <- ?app_assoc.
Qed.
