(* ===== verification/Base64.v ===== *)
(** * [html/resource/js/base64.js]: Base64 of the UTF-8 encoding of a string

    [Utf8] models [_utf8_encode] and [_utf8_decode] (each UTF-16 unit is encoded
    on its own, a surrogate pair as two three-byte sequences), [Codec] the
    methods [encode] and [decode]. *)

From Stdlib Require Import ZArith Lia.
From stdpp Require Import base tactics list numbers strings.
From S2P Require Import Prelude.
Local Open Scope Z_scope.

Module Utf8.

(** The units that one unit [c] is encoded as. *)
Definition encode_unit (c : Z) : jstr :=
  if c <? 128 then from_char_code c
  else if (127 <? c) && (c <? 2048) then
    from_char_code (js_or (js_shr c 6) 192) ++ from_char_code (js_or (js_and c 63) 128)
  else
    from_char_code (js_or (js_shr c 12) 224)
    ++ from_char_code (js_or (js_and (js_shr c 6) 63) 128)
    ++ from_char_code (js_or (js_and c 63) 128).

Definition utf8_encode (string : jstr) : jstr :=
  flat_map encode_unit (replace_all [13; 10] [10] string).

(** A unit past the end reads as NaN, which the bit operators take as 0. *)
Definition at_or_0 (s : jstr) : Z := match s with c :: _ => c | [] => 0 end.

Fixpoint utf8_decode (utftext : jstr) : jstr :=
  match utftext with
  | [] => []
  | c :: t1 =>
      if c <? 128 then from_char_code c ++ utf8_decode t1
      else if (191 <? c) && (c <? 224) then
        let c2 := at_or_0 t1 in
        from_char_code (js_or (js_shl (js_and c 31) 6) (js_and c2 63))
        ++ match t1 with [] => [] | _ :: t2 => utf8_decode t2 end
      else
        let c2 := at_or_0 t1 in
        let c3 := at_or_0 (tail t1) in
        from_char_code (js_or (js_or (js_shl (js_and c 15) 12) (js_shl (js_and c2 63) 6)) (js_and c3 63))
        ++ match t1 with [] => [] | _ :: t2 => match t2 with [] => [] | _ :: t3 => utf8_decode t3 end end
  end.

End Utf8.

Module Codec.
Import Utf8.

Definition keyStr : jstr :=
  u "ABCDEFGHIJKLMNOPQRSTUVWXYZabcdefghijklmnopqrstuvwxyz0123456789+/=".

(** One turn of the loop of [encode]; a missing unit is NaN. *)
Definition encode_group (chr1 : Z) (chr2 chr3 : option Z) : jstr :=
  let n2 := match chr2 with Some c => c | None => 0 end in
  let n3 := match chr3 with Some c => c | None => 0 end in
  let enc1 := js_shr chr1 2 in
  let enc2 := js_or (js_shl (js_and chr1 3) 4) (js_shr n2 4) in
  let enc3 := js_or (js_shl (js_and n2 15) 2) (js_shr n3 6) in
  let enc4 := js_and n3 63 in
  let '(enc3, enc4) :=
    match chr2, chr3 with
    | None, _ => (64, 64)
    | _, None => (enc3, 64)
    | _, _ => (enc3, enc4)
    end in
  char_at keyStr enc1 ++ char_at keyStr enc2 ++ char_at keyStr enc3 ++ char_at keyStr enc4.

Fixpoint encode_loop (input : jstr) : jstr :=
  match input with
  | [] => []
  | c1 :: r1 =>
      encode_group c1 (head r1) (head (tail r1))
      ++ match r1 with [] => [] | _ :: r2 => match r2 with [] => [] | _ :: r3 => encode_loop r3 end end
  end.

Definition encode (input : jstr) : jstr := encode_loop (utf8_encode input).

(** The units that [decode] keeps: [A-Za-z0-9+/=]. *)
Definition b64_char (c : Z) : bool :=
  ((65 <=? c) && (c <=? 90)) || ((97 <=? c) && (c <=? 122)) || ((48 <=? c) && (c <=? 57))
  || (c =? 43) || (c =? 47) || (c =? 61).

(** [_keyStr.indexOf(input.charAt(i++))]: past the end, [charAt] gives the empty
    string, whose index is 0. *)
Definition key_index (o : option Z) : Z :=
  index_of keyStr (match o with Some c => [c] | None => [] end).

Definition decode_group (o1 o2 o3 o4 : option Z) : jstr :=
  let enc1 := key_index o1 in
  let enc2 := key_index o2 in
  let enc3 := key_index o3 in
  let enc4 := key_index o4 in
  let chr1 := js_or (js_shl enc1 2) (js_shr enc2 4) in
  let chr2 := js_or (js_shl (js_and enc2 15) 4) (js_shr enc3 2) in
  let chr3 := js_or (js_shl (js_and enc3 3) 6) enc4 in
  from_char_code chr1
  ++ (if enc3 =? 64 then [] else from_char_code chr2)
  ++ (if enc4 =? 64 then [] else from_char_code chr3).

Fixpoint decode_loop (input : jstr) : jstr :=
  match input with
  | [] => []
  | e1 :: r1 =>
      decode_group (Some e1) (head r1) (head (tail r1)) (head (tail (tail r1)))
      ++ match r1 with
         | _ :: r2 => match r2 with
                      | _ :: r3 => match r3 with _ :: r4 => decode_loop r4 | [] => [] end
                      | [] => [] end
         | [] => [] end
  end.

Definition decode (input : jstr) : jstr :=
  utf8_decode (decode_loop (List.filter b64_char input)).

Example encode_ex : encode (u "Ab1天") = u "QWIx5aSp".
Proof. vm_compute. reflexivity. Qed.
Example decode_ex : decode (u "Q W?Ix5aSp") = u "Ab1天".
Proof. vm_compute. reflexivity. Qed.
End Codec.

(** ** Arithmetic of the two codecs *)

Import Utf8 Codec.

(** The bit operators of both loops with their masks, as arithmetic. *)
Ltac js_bits :=
  repeat first
    [ rewrite js_shr_div by lia
    | match goal with
      | |- context [js_and ?x 3] => change (js_and x 3) with (js_and x (2 ^ 2 - 1))
      | |- context [js_and ?x 15] => change (js_and x 15) with (js_and x (2 ^ 4 - 1))
      | |- context [js_and ?x 31] => change (js_and x 31) with (js_and x (2 ^ 5 - 1))
      | |- context [js_and ?x 63] => change (js_and x 63) with (js_and x (2 ^ 6 - 1))
      end; rewrite js_and_mask by (Z.div_mod_to_equations; lia) ].

Lemma encode_unit_1 c : 0 <= c < 128 -> encode_unit c = [c].
Proof.
  intros H. unfold encode_unit. rewrite (proj2 (Z.ltb_lt c 128)) by lia.
  apply from_char_code_small. lia.
Qed.

Lemma encode_unit_2 c : 128 <= c < 2048 -> encode_unit c = [192 + c / 64; 128 + c mod 64].
Proof.
  intros H. unfold encode_unit. rewrite (proj2 (Z.ltb_ge c 128)) by lia.
  replace ((127 <? c) && (c <? 2048)) with true by (symmetry; apply andb_true_iff; lia).
  js_bits. change (2 ^ 6) with 64.
  rewrite (js_or_comm (c / 64)), (js_or_add 192 (c / 64) 6) by (Z.div_mod_to_equations; lia).
  rewrite (js_or_comm (c mod 64)), (js_or_add 128 (c mod 64) 6) by (Z.div_mod_to_equations; lia).
  rewrite !from_char_code_small by (Z.div_mod_to_equations; lia). done.
Qed.

Lemma encode_unit_3 c : 2048 <= c < 65536 ->
  encode_unit c = [224 + c / 4096; 128 + c / 64 mod 64; 128 + c mod 64].
Proof.
  intros H. unfold encode_unit. rewrite (proj2 (Z.ltb_ge c 128)) by lia.
  replace ((127 <? c) && (c <? 2048)) with false by (symmetry; apply andb_false_iff; lia).
  js_bits. change (2 ^ 6) with 64. change (2 ^ 12) with 4096.
  rewrite (js_or_comm (c / 4096)), (js_or_add 224 (c / 4096) 4) by (Z.div_mod_to_equations; lia).
  rewrite (js_or_comm (c / 64 mod 64)), (js_or_add 128 (c / 64 mod 64) 6)
    by (Z.div_mod_to_equations; lia).
  rewrite (js_or_comm (c mod 64)), (js_or_add 128 (c mod 64) 6) by (Z.div_mod_to_equations; lia).
  rewrite !from_char_code_small by (Z.div_mod_to_equations; lia). done.
Qed.

Definition is_byte (c : Z) : Prop := 0 <= c < 256.

(** Decoding what one unit was encoded as. *)
Lemma decode_encode_unit c r : 0 <= c < 65536 ->
  utf8_decode (encode_unit c ++ r) = c :: utf8_decode r.
Proof.
  intros Hc. destruct (Z_lt_ge_dec c 128) as [H1|H1]; [|destruct (Z_lt_ge_dec c 2048) as [H2|H2]].
  - rewrite encode_unit_1 by lia. cbn [app utf8_decode].
    rewrite (proj2 (Z.ltb_lt c 128)) by lia. by rewrite from_char_code_small.
  - rewrite encode_unit_2 by lia. cbn [app utf8_decode at_or_0].
    rewrite (proj2 (Z.ltb_ge (192 + c / 64) 128)) by (Z.div_mod_to_equations; lia).
    replace ((191 <? 192 + c / 64) && (192 + c / 64 <? 224)) with true
      by (symmetry; apply andb_true_iff; Z.div_mod_to_equations; lia).
    js_bits. change (2 ^ 5) with 32. change (2 ^ 6) with 64.
    replace ((192 + c / 64) mod 32) with (c / 64) by (Z.div_mod_to_equations; lia).
    replace ((128 + c mod 64) mod 64) with (c mod 64) by (Z.div_mod_to_equations; lia).
    rewrite js_shl_mul by (Z.div_mod_to_equations; lia). change (2 ^ 6) with 64.
    rewrite (js_or_add _ _ 6) by (Z.div_mod_to_equations; lia).
    replace (c / 64 * 64 + c mod 64) with c by (Z.div_mod_to_equations; lia).
    by rewrite from_char_code_small.
  - rewrite encode_unit_3 by lia. cbn [app utf8_decode at_or_0 tail].
    rewrite (proj2 (Z.ltb_ge (224 + c / 4096) 128)) by (Z.div_mod_to_equations; lia).
    replace ((191 <? 224 + c / 4096) && (224 + c / 4096 <? 224)) with false
      by (symmetry; apply andb_false_iff; Z.div_mod_to_equations; lia).
    js_bits. change (2 ^ 4) with 16. change (2 ^ 6) with 64.
    replace ((224 + c / 4096) mod 16) with (c / 4096) by (Z.div_mod_to_equations; lia).
    replace ((128 + c / 64 mod 64) mod 64) with (c / 64 mod 64) by (Z.div_mod_to_equations; lia).
    replace ((128 + c mod 64) mod 64) with (c mod 64) by (Z.div_mod_to_equations; lia).
    rewrite !js_shl_mul by (Z.div_mod_to_equations; lia).
    change (2 ^ 6) with 64. change (2 ^ 12) with 4096.
    rewrite (js_or_add (c / 4096 * 4096) _ 12) by (Z.div_mod_to_equations; lia).
    rewrite (js_or_add _ _ 6) by (Z.div_mod_to_equations; lia).
    replace (c / 4096 * 4096 + c / 64 mod 64 * 64 + c mod 64) with c
      by (Z.div_mod_to_equations; lia).
    by rewrite from_char_code_small.
Qed.

Lemma encode_unit_bytes c : 0 <= c < 65536 -> Forall is_byte (encode_unit c).
Proof.
  intros Hc. unfold is_byte.
  destruct (Z_lt_ge_dec c 128) as [H1|H1]; [|destruct (Z_lt_ge_dec c 2048) as [H2|H2]].
  - rewrite encode_unit_1 by lia. repeat constructor; lia.
  - rewrite encode_unit_2 by lia. repeat constructor; Z.div_mod_to_equations; lia.
  - rewrite encode_unit_3 by lia. repeat constructor; Z.div_mod_to_equations; lia.
Qed.

(** ** The Base64 alphabet *)

Lemma alphabet_check :
  forallb (fun n => let e := Z.of_nat n in
     match char_at keyStr e with
     | [k] => b64_char k && (key_index (Some k) =? e)
     | _ => false
     end) (seq 0 65) = true.
Proof. vm_compute. reflexivity. Qed.

Lemma alphabet e : 0 <= e <= 64 ->
  exists k, char_at keyStr e = [k] /\ b64_char k = true /\ key_index (Some k) = e.
Proof.
  intros H. pose proof (proj1 (forallb_forall _ _) alphabet_check (Z.to_nat e)) as Hk.
  rewrite in_seq in Hk. specialize (Hk ltac:(lia)). cbn beta zeta in Hk.
  rewrite Z2Nat.id in Hk by lia. destruct (char_at keyStr e) as [|k [|]]; try done.
  apply andb_true_iff in Hk as [H1 H2]. exists k. split; [done|]. split; [done|lia].
Qed.

(** ** Groups of three units and of four letters *)

Lemma decode_letters e1 e2 e3 e4 k1 k2 k3 k4 :
  key_index (Some k1) = e1 -> key_index (Some k2) = e2 ->
  key_index (Some k3) = e3 -> key_index (Some k4) = e4 ->
  0 <= e1 < 64 -> 0 <= e2 < 64 -> 0 <= e3 <= 64 -> 0 <= e4 <= 64 ->
  decode_group (Some k1) (Some k2) (Some k3) (Some k4)
  = [e1 * 4 + e2 / 16]
    ++ (if e3 =? 64 then [] else [e2 mod 16 * 16 + e3 / 4])
    ++ (if e4 =? 64 then [] else [e3 mod 4 * 64 + e4]).
Proof.
  intros <- <- <- <-. set (e1 := key_index (Some k1)). set (e2 := key_index (Some k2)).
  set (e3 := key_index (Some k3)). set (e4 := key_index (Some k4)). intros H1 H2 H3 H4.
  unfold decode_group. fold e1 e2 e3 e4. js_bits.
  change (2 ^ 2) with 4. change (2 ^ 4) with 16.
  rewrite !js_shl_mul by (Z.div_mod_to_equations; lia).
  change (2 ^ 2) with 4. change (2 ^ 4) with 16. change (2 ^ 6) with 64.
  rewrite (js_or_add (e1 * 4) _ 2) by (Z.div_mod_to_equations; lia).
  rewrite from_char_code_small by (Z.div_mod_to_equations; lia). f_equal. f_equal.
  - destruct (e3 =? 64) eqn:E; [done|].
    rewrite (js_or_add _ _ 4) by (Z.div_mod_to_equations; lia).
    by rewrite from_char_code_small by (Z.div_mod_to_equations; lia).
  - destruct (e4 =? 64) eqn:E; [done|].
    rewrite (js_or_add _ _ 6) by (Z.div_mod_to_equations; lia).
    by rewrite from_char_code_small by (Z.div_mod_to_equations; lia).
Qed.

Definition opt_list (o : option Z) : jstr := match o with Some c => [c] | None => [] end.

(** One group: four letters of the alphabet, which decode to the units encoded. *)
Lemma group_roundtrip a ob oc :
  is_byte a -> (forall b, ob = Some b -> is_byte b) -> (forall c, oc = Some c -> is_byte c) ->
  (ob = None -> oc = None) ->
  exists k1 k2 k3 k4, encode_group a ob oc = [k1; k2; k3; k4]
    /\ forallb b64_char [k1; k2; k3; k4] = true
    /\ decode_group (Some k1) (Some k2) (Some k3) (Some k4) = a :: opt_list ob ++ opt_list oc.
Proof.
  intros Ha Hb Hc Hn. unfold encode_group. unfold is_byte in Ha.
  set (n2 := match ob with Some c => c | None => 0 end).
  set (n3 := match oc with Some c => c | None => 0 end).
  assert (H2 : 0 <= n2 < 256).
  { subst n2. destruct ob as [b|]; [apply (Hb b eq_refl)|lia]. }
  assert (H3 : 0 <= n3 < 256).
  { subst n3. destruct oc as [c|]; [apply (Hc c eq_refl)|lia]. }
  js_bits. change (2 ^ 2) with 4. change (2 ^ 4) with 16. change (2 ^ 6) with 64.
  rewrite !js_shl_mul by (Z.div_mod_to_equations; lia). change (2 ^ 4) with 16. change (2 ^ 2) with 4.
  rewrite (js_or_add _ (n2 / 16) 4) by (Z.div_mod_to_equations; lia).
  rewrite (js_or_add _ (n3 / 64) 2) by (Z.div_mod_to_equations; lia).
  assert (exists e3 e4, match ob with
      | Some _ => match oc with
                  | Some _ => (n2 mod 16 * 4 + n3 / 64, n3 mod 64)
                  | None => (n2 mod 16 * 4 + n3 / 64, 64) end
      | None => (64, 64) end = (e3, e4) /\ 0 <= e3 <= 64 /\ 0 <= e4 <= 64) as (e3 & e4 & E & He3 & He4).
  { destruct ob, oc; do 2 eexists; (split; [reflexivity|]); Z.div_mod_to_equations; lia. }
  rewrite E.
  destruct (alphabet (a / 4)) as (k1 & -> & B1 & K1); [Z.div_mod_to_equations; lia|].
  destruct (alphabet (a mod 4 * 16 + n2 / 16)) as (k2 & -> & B2 & K2); [Z.div_mod_to_equations; lia|].
  destruct (alphabet e3) as (k3 & -> & B3 & K3); [done|].
  destruct (alphabet e4) as (k4 & -> & B4 & K4); [done|].
  exists k1, k2, k3, k4. split; [done|]. split; [cbn; by rewrite B1, B2, B3, B4|].
  rewrite (decode_letters _ _ _ _ _ _ _ _ K1 K2 K3 K4) by (Z.div_mod_to_equations; lia).
  cbn [app]. f_equal; [Z.div_mod_to_equations; lia|].
  destruct ob as [b|]; [|rewrite (Hn eq_refl) in *; by injection E as <- <-].
  destruct oc as [c|]; injection E as <- <-; subst n2 n3; cbn [opt_list].
  - rewrite (proj2 (Z.eqb_neq (b mod 16 * 4 + c / 64) 64)) by (Z.div_mod_to_equations; lia).
    rewrite (proj2 (Z.eqb_neq (c mod 64) 64)) by (Z.div_mod_to_equations; lia).
    assert (E1 : (a mod 4 * 16 + b / 16) mod 16 * 16 + (b mod 16 * 4 + c / 64) / 4 = b)
      by (Z.div_mod_to_equations; lia).
    assert (E2 : (b mod 16 * 4 + c / 64) mod 4 * 64 + c mod 64 = c) by (Z.div_mod_to_equations; lia).
    by rewrite E1, E2.
  - rewrite (proj2 (Z.eqb_neq (b mod 16 * 4 + 0 / 64) 64)) by (Z.div_mod_to_equations; lia).
    assert (E1 : (a mod 4 * 16 + b / 16) mod 16 * 16 + (b mod 16 * 4 + 0 / 64) / 4 = b)
      by (Z.div_mod_to_equations; lia).
    by rewrite E1.
Qed.

Lemma decode_loop_group k1 k2 k3 k4 r :
  decode_loop (k1 :: k2 :: k3 :: k4 :: r)
  = decode_group (Some k1) (Some k2) (Some k3) (Some k4) ++ decode_loop r.
Proof. reflexivity. Qed.

Lemma Forall_head (P : Z -> Prop) s : Forall P s -> forall b, head s = Some b -> P b.
Proof. intros [|c s' Hc Hs] b E; [done|]. by injection E as <-. Qed.
Lemma Forall_tail' (P : Z -> Prop) s : Forall P s -> Forall P (tail s).
Proof. by intros [|c s' Hc Hs]. Qed.
Lemma head_tail_none (s : jstr) : head s = None -> head (tail s) = None.
Proof. by destruct s. Qed.

Lemma loop_roundtrip n : forall s, (length s <= n)%nat -> Forall is_byte s ->
  decode_loop (encode_loop s) = s /\ forallb b64_char (encode_loop s) = true.
Proof.
  induction n as [|n IH]; intros s Hlen Hs; [by destruct s; [|cbn in Hlen; lia]|].
  destruct Hs as [|a s Ha Hs]; [done|].
  destruct (group_roundtrip a (head s) (head (tail s))) as (k1 & k2 & k3 & k4 & E & B & D);
    [done|by apply Forall_head|by apply Forall_head, Forall_tail'|by apply head_tail_none|].
  set (rest := match s with [] => [] | _ :: r2 => match r2 with [] => [] | _ :: r3 => r3 end end).
  assert (Hrest : encode_loop (a :: s) = [k1; k2; k3; k4] ++ encode_loop rest).
  { cbn [encode_loop]. rewrite E. by destruct s as [|? [|]]. }
  destruct (IH rest) as [R1 R2].
  { subst rest. destruct s as [|? [|]]; cbn in *; lia. }
  { subst rest. destruct Hs as [|? ? ? [|]]; by try constructor. }
  rewrite Hrest. split.
  - cbn [app]. rewrite decode_loop_group, D, R1. subst rest. by destruct s as [|? [|]].
  - rewrite forallb_app, B, R2. done.
Qed.

Lemma filter_all (s : jstr) : forallb b64_char s = true -> List.filter b64_char s = s.
Proof.
  induction s as [|c s IH]; [done|]. cbn. rewrite andb_true_iff. intros [-> H]. by rewrite IH.
Qed.

Lemma flat_encode_bytes s : units s -> Forall is_byte (flat_map encode_unit s).
Proof.
  induction 1 as [|c s Hc Hs IH]; [constructor|]. cbn. apply Forall_app.
  split; [by apply encode_unit_bytes|done].
Qed.

Lemma decode_flat_encode s : units s -> utf8_decode (flat_map encode_unit s) = s.
Proof.
  induction 1 as [|c s Hc Hs IH]; [done|]. cbn [flat_map].
  rewrite decode_encode_unit by done. by rewrite IH.
Qed.

Lemma replace_crlf_units s : units s -> units (replace_all [13; 10] [10] s).
Proof.
  intros H. unfold replace_all. generalize 0%nat. induction H as [|c s Hc Hs IH]; intros k; [constructor|].
  cbn. destruct k; [|apply IH]. destruct (_ && _); [|by constructor; [|apply IH]].
  constructor; [lia|apply IH].
Qed.

(** ** Properties *)

(** The UTF-8 encoding is undone by the decoder, up to the normalisation of the
    line ends that the encoder makes. *)
Lemma utf8_roundtrip s : units s ->
  utf8_decode (utf8_encode s) = replace_all [13; 10] [10] s.
Proof. intros H. apply decode_flat_encode, replace_crlf_units, H. Qed.

(** C20. [decode(encode(s))] is [s] with CR LF replaced by LF, for every string. *)
Theorem base64_roundtrip s : units s -> decode (encode s) = replace_all [13; 10] [10] s.
Proof.
  intros H. unfold decode, encode.
  destruct (loop_roundtrip (length (utf8_encode s)) (utf8_encode s)) as [R1 R2]; [done| |].
  - apply flat_encode_bytes, replace_crlf_units, H.
  - rewrite filter_all by done. rewrite R1. by apply utf8_roundtrip.
Qed.

Lemma base64_roundtrip_witness :
  units (u "a天" ++ [13; 10]) /\ decode (encode (u "a天" ++ [13; 10])) = u "a天" ++ [10].
Proof.
  assert (H : units (u "a天" ++ [13; 10])) by (by apply is_unit_units).
  split; [exact H|]. exact (base64_roundtrip _ H).
Defined.

(** The text of [encode] is over the Base64 alphabet and a multiple of four long. *)
Theorem encode_alphabet s : units s ->
  forallb b64_char (encode s) = true /\ exists k, length (encode s) = (4 * k)%nat.
Proof.
  intros H. assert (Hb : Forall is_byte (utf8_encode s)) by (apply flat_encode_bytes, replace_crlf_units, H).
  split; [by apply (loop_roundtrip (length (utf8_encode s)))|].
  unfold encode. revert Hb. generalize (utf8_encode s). intros t. remember (length t) as n eqn:Hn.
  revert t Hn. induction (lt_wf n) as [n _ IH]. intros t -> Hb.
  destruct Hb as [|a t Ha Hb]; [by exists 0%nat|].
  destruct (group_roundtrip a (head t) (head (tail t))) as (k1 & k2 & k3 & k4 & E & _ & _);
    [done|by apply Forall_head|by apply Forall_head, Forall_tail'|by apply head_tail_none|].
  cbn [encode_loop]. rewrite E. destruct Hb as [|b t' _ [|c t'' _ Hb]]; [by exists 1%nat..|].
  destruct (IH (length t'')) with (t := t'') as [k Hk]; [cbn; lia|done|done|].
  exists (S k). rewrite length_app, Hk. cbn. lia.
Qed.

Lemma encode_alphabet_witness :
  units (u "天") /\ (forallb b64_char (encode (u "天")) = true /\
                    exists k, length (encode (u "天")) = (4 * k)%nat).
Proof.
  assert (H : units (u "天")) by (by apply is_unit_units).
  split; [exact H|exact (encode_alphabet _ H)].
Defined.
