(* ===== verification/Report.v ===== *)
(** * The reporting core of [language/javascript/dmt_xrkmonitor.js]

    The object built by [Xrkmonitor_obj] buffers monitor values, string values
    and logs, and posts them to the server one request at a time. [st] is that
    object together with the browser state it acts on: the pending timers and
    the requests handed to XMLHttpRequest. Every method is a function on [st];
    [step] runs one call, timer or response, [run] a sequence of them. What the
    browser answers at a step (the clock, whether an XMLHttpRequest can be made,
    whether JSON is there) is the step's [env]. Console output is not modelled. *)

From Stdlib Require Import ZArith Lia QArith.
From stdpp Require Import base tactics list numbers strings.
From S2P Require Import Prelude JsValue Json.
Local Open Scope Z_scope.

(** ** Data *)

Record attr := Attr { at_id : prim; at_number : num }.
Record strinfo := StrInfo { si_string : jstr; si_number : num }.
Record strattr := StrAttr { sa_id : prim; sa_strings : list strinfo }.
Record log := Log { lg_type : jstr; lg_msg : jstr; lg_time : Z }.
Record window := Window { w_id : Z; w_exception : bool }.

(** A loaded plugin: its configuration, its windows, its own pending logs. *)
Record plugin := Plugin {
  pl_name : jstr; pl_logconfig_id : prim;
  pl_windows : list window; pl_logs : list log; pl_cur_logs_strlen : Z
}.

(** The object [reports] that is serialised. *)
Record reports := Reports {
  rp_log : option (prim * list log);
  rp_attrs : list attr; rp_strattrs : list strattr;
  rp_user : option num; rp_key : option jstr
}.

Inductive timer_kind := TDelay | TFreq | TTry.
Record timer := Timer { tm_id : Z; tm_kind : timer_kind; tm_due : Z }.

(** A request handed to XMLHttpRequest: [rq_sent] unless open or send threw;
    [rq_open] until its answer. *)
Record request := Request {
  rq_seq : Z; rq_time : Z; rq_data : reports; rq_sent : bool; rq_open : bool
}.

Record cfg := Cfg {
  report_url : jstr; log_config_id : prim; master_user_id : num; access_key : jstr;
  set_report_url : bool; debug : bool; on_xrk_response : bool
}.
Record timing := Timing {
  last_delay_timer_id : Z; last_req_seq : Z; req_seq : Z;
  request_start_time : Z; freq_send_start_time : Z; freq_request_times : Z
}.
Record stats := Stats {
  last_api_delay : Z; max_api_delay : Z; max_api_run : num; local_out_ip : prim; callbacks : Z
}.
Record buffers := Buffers {
  logs : list log; cur_logs_strlen : Z;
  attrs : list attr;
  strattrs : list strattr; cur_strattrs_strlen : Z;
  plugins : list plugin
}.
Record st := St {
  cf : cfg; tg : timing; sts : stats; bf : buffers;
  timers : list timer; next_timer : Z; wire : list request
}.

(** Constants of the object. *)
Definition try_timer_ms : Z := 1200.
Definition max_attrs_per_req : Z := 120.
Definition max_strattrs_strlen : Z := 1000.
Definition max_logs_strlen : Z := 900.
Definition freq_check_time : Z := 1500.
Definition freq_check_limit_times : Z := 3.
Definition request_timeout_ms : Z := 8000.

Record env := Env { now : Z; xhr_ok : bool; json_ok : bool; send_ok : bool }.

(** ** Field updates *)

Definition with_cf (f : cfg -> cfg) (s : st) : st :=
  St (f (cf s)) (tg s) (sts s) (bf s) (timers s) (next_timer s) (wire s).
Definition with_tg (f : timing -> timing) (s : st) : st :=
  St (cf s) (f (tg s)) (sts s) (bf s) (timers s) (next_timer s) (wire s).
Definition with_sts (f : stats -> stats) (s : st) : st :=
  St (cf s) (tg s) (f (sts s)) (bf s) (timers s) (next_timer s) (wire s).
Definition with_bf (f : buffers -> buffers) (s : st) : st :=
  St (cf s) (tg s) (sts s) (f (bf s)) (timers s) (next_timer s) (wire s).
Definition with_timers (f : list timer -> list timer) (s : st) : st :=
  St (cf s) (tg s) (sts s) (bf s) (f (timers s)) (next_timer s) (wire s).

Definition set_delay_timer (v : Z) : st -> st :=
  with_tg (fun t => Timing v (last_req_seq t) (req_seq t) (request_start_time t)
                      (freq_send_start_time t) (freq_request_times t)).
Definition set_last_req_seq (v : Z) : st -> st :=
  with_tg (fun t => Timing (last_delay_timer_id t) v (req_seq t) (request_start_time t)
                      (freq_send_start_time t) (freq_request_times t)).
Definition set_req_seq (v : Z) : st -> st :=
  with_tg (fun t => Timing (last_delay_timer_id t) (last_req_seq t) v (request_start_time t)
                      (freq_send_start_time t) (freq_request_times t)).
Definition set_start_time (v : Z) : st -> st :=
  with_tg (fun t => Timing (last_delay_timer_id t) (last_req_seq t) (req_seq t) v
                      (freq_send_start_time t) (freq_request_times t)).
Definition set_freq (start times : Z) : st -> st :=
  with_tg (fun t => Timing (last_delay_timer_id t) (last_req_seq t) (req_seq t)
                      (request_start_time t) start times).
Definition set_logs (l : list log) (len : Z) : st -> st :=
  with_bf (fun b => Buffers l len (attrs b) (strattrs b) (cur_strattrs_strlen b) (plugins b)).
Definition set_attrs (l : list attr) : st -> st :=
  with_bf (fun b => Buffers (logs b) (cur_logs_strlen b) l (strattrs b) (cur_strattrs_strlen b) (plugins b)).
Definition set_strattrs (l : list strattr) (len : Z) : st -> st :=
  with_bf (fun b => Buffers (logs b) (cur_logs_strlen b) (attrs b) l len (plugins b)).
Definition set_plugins (l : list plugin) : st -> st :=
  with_bf (fun b => Buffers (logs b) (cur_logs_strlen b) (attrs b) (strattrs b) (cur_strattrs_strlen b) l).

(** The object as [Xrkmonitor] leaves it, with the fields its configuration sets. *)
Definition Xrkmonitor_obj (c : cfg) : st :=
  St c (Timing 0 0 0 0 0 0) (Stats 0 0 (of_Z 0) (PStr []) 0) (Buffers [] 0 [] [] 0 []) [] 1 [].

(** ** Browser timers *)

Section Methods.
Context (E : env).

Definition setTimeout (k : timer_kind) (delay : Z) (s : st) : Z * st :=
  (next_timer s,
   St (cf s) (tg s) (sts s) (bf s) (timers s ++ [Timer (next_timer s) k (now E + delay)])
      (next_timer s + 1) (wire s)).

Definition clearTimeout (id : Z) : st -> st :=
  with_timers (List.filter (fun t => negb (tm_id t =? id))).

(** ** Sending *)

(** The data of [_to_server]: whether the request was made, and the new state. A
    request refused by the rate limit leaves a timer whose callback fails (it
    reads [p_self.self_xrk], which the object does not have). *)
Definition _to_server (data : reports) (s : st) : bool * st :=
  if negb (xhr_ok E) then (false, s)
  else
    let t := now E in
    let s := set_start_time t s in
    let start := freq_send_start_time (tg s) in
    let times := freq_request_times (tg s) in
    let send (s : st) : bool * st :=
      let seq := req_seq (tg s) in
      let s := set_req_seq (seq + 1) (set_last_req_seq seq s) in
      (true, St (cf s) (tg s) (sts s) (bf s) (timers s) (next_timer s)
               (wire s ++ [Request seq t data (send_ok E) true])) in
    if (start =? 0) || (start + freq_check_time <? t) then send (set_freq t 1 s)
    else if (t <? start + freq_check_time) && (freq_check_limit_times <=? times) then
      let '(id, s) := setTimeout TFreq 500 s in (false, set_delay_timer id s)
    else send (set_freq start (times + 1) s).

(** The logs to report: the object's own, or those of the first plugin that has some. *)
Fixpoint first_plugin_logs (i : nat) (l : list plugin) : option (nat * plugin) :=
  match l with
  | [] => None
  | p :: l' => match pl_logs p with [] => first_plugin_logs (S i) l' | _ => Some (i, p) end
  end.

Definition build_reports (s : st) : reports * option nat :=
  let b := bf s in
  let '(rlog, src) :=
    match logs b with
    | _ :: _ => (Some (log_config_id (cf s), logs b), None)
    | [] => match first_plugin_logs 0 (plugins b) with
            | Some (i, p) => (Some (pl_logconfig_id p, pl_logs p), Some i)
            | None => (None, None)
            end
    end in
  (Reports rlog (attrs b) (strattrs b)
     (if num_eqb (master_user_id (cf s)) (of_Z 0) then None else Some (master_user_id (cf s)))
     (match access_key (cf s) with [] => None | k => Some k end), src).

Definition need_report (r : reports) : bool :=
  match rp_log r with Some _ => true | None => false end
  || negb (bool_decide (rp_attrs r = [])) || negb (bool_decide (rp_strattrs r = [])).

Definition drop_plugin_logs (p : plugin) : plugin :=
  Plugin (pl_name p) (pl_logconfig_id p) (pl_windows p) [] 0.

Definition _report_to_server (delay : option Z) (s : st) : st :=
  if match delay with Some _ => true | None => false end || negb (last_req_seq (tg s) =? 0) then
    if last_delay_timer_id (tg s) =? 0 then
      let '(id, s) := setTimeout TDelay (match delay with Some d => d | None => 100 end) s in
      set_delay_timer id s
    else s
  else
    let s := if last_delay_timer_id (tg s) =? 0 then s
             else set_delay_timer 0 (clearTimeout (last_delay_timer_id (tg s)) s) in
    let '(r, src) := build_reports s in
    let s := set_strattrs (strattrs (bf s)) 0 (set_logs (logs (bf s)) 0 s) in
    if negb (need_report r) then s
    else if json_ok E then
      let '(ok, s) := _to_server r s in
      if ok then
        let s := set_strattrs [] (cur_strattrs_strlen (bf s))
                   (set_attrs [] (set_logs [] (cur_logs_strlen (bf s)) s)) in
        match src with
        | Some i => set_plugins (alter drop_plugin_logs i (plugins (bf s))) s
        | None => s
        end
      else s
    else s.

Definition report_to_server (delay : option Z) (s : st) : st :=
  if js_eqb (report_url (cf s)) [] then s
  else
    let immediate := match delay with Some d => d <=? 0 | None => true end in
    if immediate && (last_req_seq (tg s) =? 0) then
      _report_to_server None
        (if last_delay_timer_id (tg s) =? 0 then s
         else set_delay_timer 0 (clearTimeout (last_delay_timer_id (tg s)) s))
    else
      let d := if immediate then 50 else match delay with Some d => d | None => 50 end in
      if negb (last_delay_timer_id (tg s) =? 0) then s
      else _report_to_server
             (Some (if d <? 10 then 10 else if try_timer_ms <=? d then try_timer_ms else d)) s.

(** The end of a full buffer: the delay timer is cleared but its id is kept. *)
Definition flush_full (s : st) : st :=
  _report_to_server None
    (if last_delay_timer_id (tg s) =? 0 then s else clearTimeout (last_delay_timer_id (tg s)) s).

(** ** Buffering *)

Inductive opr := OAdd | OSet.

Definition update_number (o : opr) (number old : num) : num :=
  match o with OSet => number | OAdd => num_add old number end.

(** [typeof id == 'undefined' || typeof number != 'number' || number <= 0] *)
Definition check_args (id number : prim) : option num :=
  match id, number with
  | PUndef, _ => None
  | _, PNum n => if num_leb n (of_Z 0) then None else Some n
  | _, _ => None
  end.

(** The loop over [attrs]: the first entry with an equal id is updated. *)
Fixpoint update_attr (o : opr) (id : prim) (number : num) (l : list attr) : option (list attr) :=
  match l with
  | [] => None
  | a :: l' =>
      if loose_eq (at_id a) id then Some (Attr (at_id a) (update_number o number (at_number a)) :: l')
      else cons a <$> update_attr o id number l'
  end.

Definition _inner_xrk_report_attr (o : opr) (id number : prim) (s : st) : st :=
  match check_args id number with
  | None => s
  | Some n =>
      match update_attr o id n (attrs (bf s)) with
      | Some l => set_attrs l s
      | None =>
          let s := set_attrs (attrs (bf s) ++ [Attr id n]) s in
          if max_attrs_per_req <=? Z.of_nat (length (attrs (bf s))) then flush_full s else s
      end
  end.

(** The strings of one entry: the first equal one is updated. *)
Fixpoint update_string (o : opr) (string : jstr) (number : num) (l : list strinfo)
    : option (list strinfo) :=
  match l with
  | [] => None
  | i :: l' =>
      if js_eqb (si_string i) string
      then Some (StrInfo (si_string i) (update_number o number (si_number i)) :: l')
      else cons i <$> update_string o string number l'
  end.

(** At most 50 units of a string are kept. *)
Definition cut50 (string : jstr) : jstr :=
  if 50 <? js_length string then substring0 50 string else string.

(** The loop over [strattrs]: [None] when no entry has the id; otherwise the new
    entries and the length by which the buffer grew. *)
Fixpoint update_strattr (o : opr) (id : prim) (string : jstr) (number : num) (l : list strattr)
    : option (list strattr * option Z) :=
  match l with
  | [] => None
  | a :: l' =>
      if loose_eq (sa_id a) id then
        match update_string o string number (sa_strings a) with
        | Some strings => Some (StrAttr (sa_id a) strings :: l', None)
        | None => Some (StrAttr (sa_id a) (sa_strings a ++ [StrInfo (cut50 string) number]) :: l',
                        Some (js_length (cut50 string)))
        end
      else match update_strattr o id string number l' with
           | Some (l'', g) => Some (a :: l'', g)
           | None => None
           end
  end.

(** [cur_strattrs_strlen += len], and a report once the limit is reached. *)
Definition grow_strattrs (len : Z) (s : st) : st :=
  let s := set_strattrs (strattrs (bf s)) (cur_strattrs_strlen (bf s) + len) s in
  if max_strattrs_strlen <=? cur_strattrs_strlen (bf s) then flush_full s else s.

Definition _inner_xrk_report_strattr (o : opr) (id string number : prim) (s : st) : st :=
  match string with
  | PStr str =>
      match check_args id number with
      | None => s
      | Some n =>
          let cur := cur_strattrs_strlen (bf s) in
          match update_strattr o id str n (strattrs (bf s)) with
          | Some (l, None) => set_strattrs l cur s
          | Some (l, Some len) => grow_strattrs len (set_strattrs l cur s)
          | None =>
              grow_strattrs (js_length (cut50 str))
                (set_strattrs (strattrs (bf s) ++ [StrAttr id [StrInfo (cut50 str) n]]) cur s)
          end
      end
  | _ => s
  end.

Definition log_types : list jstr := [u "error"; u "warn"; u "reqerr"; u "info"; u "debug"].

(** [Date.parse(new Date())] drops the milliseconds. *)
Definition _report_log (log_type msg : jstr) (s : st) : st :=
  if loose_eq (log_config_id (cf s)) (PNum (of_Z 0)) then s
  else if negb (bool_decide (log_type ∈ log_types)) then s
  else
    let b := bf s in
    let s := set_logs (logs b ++ [Log log_type msg (now E / 1000 * 1000)])
               (cur_logs_strlen b + js_length msg) s in
    if max_logs_strlen <=? cur_logs_strlen (bf s) then
      _report_to_server None
        (if last_delay_timer_id (tg s) =? 0 then s
         else set_delay_timer 0 (clearTimeout (last_delay_timer_id (tg s)) s))
    else s.

(** ** The public methods *)

Definition report_attr_add (id number : prim) : st -> st := _inner_xrk_report_attr OAdd id number.
Definition report_attr_set (id number : prim) : st -> st := _inner_xrk_report_attr OSet id number.
Definition report_strattr_add (id string number : prim) : st -> st :=
  _inner_xrk_report_strattr OAdd id string number.
Definition report_strattr_set (id string number : prim) : st -> st :=
  _inner_xrk_report_strattr OSet id string number.

Definition report_error_log (msg : jstr) (pos : option jstr) : st -> st :=
  _report_log (u "error") (match pos with Some p => p ++ msg | None => u "[js:log:35]" ++ msg end).
Definition report_warn_log (msg : jstr) (pos : option jstr) : st -> st :=
  _report_log (u "warn") (match pos with Some _ => msg | None => u "[js:log:41]" ++ msg end).
Definition report_reqerr_log (msg : jstr) (pos : option jstr) : st -> st :=
  _report_log (u "reqerr") (match pos with Some _ => msg | None => u "[js:log:47]" ++ msg end).
Definition report_info_log (msg : jstr) (pos : option jstr) : st -> st :=
  _report_log (u "info") (match pos with Some _ => msg | None => u "[js:log:53]" ++ msg end).
Definition report_debug_log (msg : jstr) (pos : option jstr) : st -> st :=
  _report_log (u "debug") (match pos with Some _ => msg | None => u "[js:log:59]" ++ msg end).

Definition set_log_config_id (id : prim) : st -> st :=
  with_cf (fun c => Cfg (report_url c) id (master_user_id c) (access_key c)
                      (set_report_url c) (debug c) (on_xrk_response c)).
Definition set_url (url : jstr) (set : bool) : st -> st :=
  with_cf (fun c => Cfg url (log_config_id c) (master_user_id c) (access_key c)
                      set (debug c) (on_xrk_response c)).
Definition set_user (uid : num) (key : jstr) : st -> st :=
  with_cf (fun c => Cfg (report_url c) (log_config_id c) uid key
                      (set_report_url c) (debug c) (on_xrk_response c)).

(** Arguments that are [undefined] leave their field. *)
Definition init_log (id : prim) (s : st) : st :=
  match id with
  | PUndef => s
  | _ => if loose_eq id (PNum (of_Z 0)) then s else set_log_config_id id s
  end.
Definition set_debug (b_debug : option bool) : st -> st :=
  with_cf (fun c => Cfg (report_url c) (log_config_id c) (master_user_id c) (access_key c)
                      (set_report_url c) (match b_debug with Some b => b | None => true end)
                      (on_xrk_response c)).
Definition open_init_report (log_id : prim) (rurl : option jstr) (s : st) : st :=
  let s := match rurl with
           | Some r => if set_report_url (cf s) then s else set_url r (set_report_url (cf s)) s
           | None => s
           end in
  match log_id with PUndef => s | _ => set_log_config_id log_id s end.
Definition cloud_init_report (log_id : prim) (uid : option num) (ackey : option jstr) (s : st) : st :=
  let s := match uid with Some v => set_user v (access_key (cf s)) s | None => s end in
  let s := match ackey with Some k => set_user (master_user_id (cf s)) k s | None => s end in
  match log_id with PUndef => s | _ => set_log_config_id log_id s end.
Definition reg_on_response (fun_given : bool) : st -> st :=
  with_cf (fun c => Cfg (report_url c) (log_config_id c) (master_user_id c) (access_key c)
                      (set_report_url c) (debug c) fun_given).

(** The parts of a plugin configuration that [_try_set_config] reads, [None] when
    they are not of the type it asks for. *)
Record plugin_config := PluginConfig {
  pc_report_url : option jstr; pc_cloud_user : option num; pc_cloud_key : option jstr
}.
Definition _try_set_config (c : plugin_config) (s : st) : st :=
  let s := match pc_report_url c with
           | Some r => if set_report_url (cf s) then s else set_url r true s
           | None => s
           end in
  match pc_cloud_user c, pc_cloud_key c with
  | Some uid, Some k => if num_eqb (master_user_id (cf s)) (of_Z 0) then set_user uid k s else s
  | _, _ => s
  end.

(** ** Answers and timers *)

(** What is read of the parsed answer: a property that is not there is [undefined],
    as a number NaN. *)
Record answer := Answer { an_client_ip : prim; an_cgi_run_time : num }.

(** [_on_response(retmsg)]: [parsed] is what JSON.parse makes of the message,
    [None] when it throws or gives null, which ends the handler. *)
Definition _on_response (parsed : option answer) (s : st) : st :=
  let d := now E - request_start_time (tg s) in
  let s := with_sts (fun c => Stats d (if max_api_delay c <? d then d else max_api_delay c)
                                (max_api_run c) (local_out_ip c) (callbacks c)) s in
  let finish (s : st) : st :=
    let s := set_last_req_seq 0 s in
    if on_xrk_response (cf s)
    then with_sts (fun c => Stats (last_api_delay c) (max_api_delay c) (max_api_run c)
                              (local_out_ip c) (callbacks c + 1)) s
    else s in
  if json_ok E then
    match parsed with
    | None => s
    | Some a =>
        finish (with_sts (fun c => Stats (last_api_delay c) (max_api_delay c)
          (if num_ltb (max_api_run c) (an_cgi_run_time a) then an_cgi_run_time a else max_api_run c)
          (an_client_ip a) (callbacks c)) s)
    end
  else finish s.

(** The callback that [_report_to_server] gives to its delay timer. *)
Definition on_delay_timer (s : st) : st :=
  let s := set_delay_timer 0 s in
  let s := if (0 <? request_start_time (tg s))
              && (request_start_time (tg s) + request_timeout_ms <=? now E)
           then set_last_req_seq 0 s else s in
  _report_to_server None s.

(** Each plugin loses its first window that has thrown. *)
Fixpoint remove_exception_window (l : list window) : list window :=
  match l with
  | [] => []
  | w :: l' => if w_exception w then l' else w :: remove_exception_window l'
  end.

Definition _try_report_to_server (s : st) : st :=
  let s := set_plugins (map (fun p => Plugin (pl_name p) (pl_logconfig_id p)
             (remove_exception_window (pl_windows p)) (pl_logs p) (pl_cur_logs_strlen p))
             (plugins (bf s))) s in
  let s := report_to_server None s in
  snd (setTimeout TTry try_timer_ms s).

(** A pending timer that is due runs once. *)
Definition fire (id : Z) (s : st) : st :=
  match find (fun t => (tm_id t =? id) && (tm_due t <=? now E)) (timers s) with
  | None => s
  | Some t =>
      let s := clearTimeout id s in
      match tm_kind t with
      | TDelay => on_delay_timer s
      | TFreq => s   (* [undefined.last_delay_timer_id = 0] throws *)
      | TTry => _try_report_to_server s
      end
  end.

(** The answer to the open request [seq]: with status 200 and a body, the handler
    runs; with another status nothing does. *)
Definition close_request (seq : Z) (r : request) : request :=
  if rq_seq r =? seq then Request (rq_seq r) (rq_time r) (rq_data r) (rq_sent r) false else r.

Definition receive (seq : Z) (status200 : bool) (parsed : option answer) (s : st) : st :=
  if existsb (fun r => (rq_seq r =? seq) && rq_sent r && rq_open r) (wire s) then
    let s := St (cf s) (tg s) (sts s) (bf s) (timers s) (next_timer s)
               (map (close_request seq) (wire s)) in
    if status200 then _on_response parsed s else s
  else s.

(** A plugin appends a log of its own. *)
Definition plugin_log (i : nat) (g : log) (s : st) : st :=
  set_plugins (alter (fun p => Plugin (pl_name p) (pl_logconfig_id p) (pl_windows p)
    (pl_logs p ++ [g]) (pl_cur_logs_strlen p + js_length (lg_msg g))) i (plugins (bf s))) s.

(** [o_plugin] pushed once its script is loaded, with the window it monitors. *)
Definition add_plugin (name : jstr) (logconfig_id : prim) (win : window) (s : st) : st :=
  set_plugins (plugins (bf s) ++ [Plugin name logconfig_id [win] [] 0]) s.

(** A monitored window of a plugin turns out not to be accessible. *)
Definition window_fails (i : nat) (id : Z) (s : st) : st :=
  set_plugins (alter (fun p => Plugin (pl_name p) (pl_logconfig_id p)
    (map (fun w => if w_id w =? id then Window id true else w) (pl_windows p))
    (pl_logs p) (pl_cur_logs_strlen p)) i (plugins (bf s))) s.

(** ** Steps *)

Inductive call :=
  | CAttr (o : opr) (id number : prim)
  | CStrattr (o : opr) (id string number : prim)
  | CLog (log_type msg : jstr)
  | CReport (delay : option Z)
  | CInitLog (id : prim)
  | COpenInit (log_id : prim) (rurl : option jstr)
  | CCloudInit (log_id : prim) (uid : option num) (key : option jstr)
  | CSetConfig (c : plugin_config)
  | CRegResponse (fun_given : bool)
  | CPluginLog (i : nat) (g : log)
  | CAddPlugin (name : jstr) (logconfig_id : prim) (win : window)
  | CWindowFails (i : nat) (id : Z)
  | CFire (id : Z)
  | CReceive (seq : Z) (status200 : bool) (parsed : option answer).

Definition do_call (c : call) : st -> st :=
  match c with
  | CAttr o id n => _inner_xrk_report_attr o id n
  | CStrattr o id str n => _inner_xrk_report_strattr o id str n
  | CLog t m => _report_log t m
  | CReport d => report_to_server d
  | CInitLog id => init_log id
  | COpenInit id url => open_init_report id url
  | CCloudInit id uid key => cloud_init_report id uid key
  | CSetConfig c => _try_set_config c
  | CRegResponse b => reg_on_response b
  | CPluginLog i g => plugin_log i g
  | CAddPlugin n c w => add_plugin n c w
  | CWindowFails i id => window_fails i id
  | CFire id => fire id
  | CReceive seq ok p => receive seq ok p
  end.

End Methods.

Definition step (ec : env * call) : st -> st := do_call (fst ec) (snd ec).

Definition run (tr : list (env * call)) (s : st) : st := fold_left (fun s ec => step ec s) tr s.

(** The end of [_init] on its success path: the sequence number becomes 1 and the
    first try timer is set. *)
Definition started (E : env) (c : cfg) : st :=
  let s := Xrkmonitor_obj c in
  snd (setTimeout E TTry try_timer_ms (set_req_seq (req_seq (tg s) + 1) s)).

(** ** The request body *)

Definition num_val (n : num) : jsval := VNum n.
Definition attr_val (a : attr) : jsval :=
  VObj [(u "id", of_prim (at_id a)); (u "number", num_val (at_number a))].
Definition strinfo_val (i : strinfo) : jsval :=
  VObj [(u "string", VStr (si_string i)); (u "number", num_val (si_number i))].
Definition strattr_val (a : strattr) : jsval :=
  VObj [(u "id", of_prim (sa_id a)); (u "strings", VArr (map strinfo_val (sa_strings a)))].
Definition log_val (l : log) : jsval :=
  VObj [(u "type", VStr (lg_type l)); (u "msg", VStr (lg_msg l)); (u "time", VNum (of_Z (lg_time l)))].

(** The object [reports], its properties in the order they were set. *)
Definition reports_val (r : reports) : jsval :=
  VObj (
    match rp_log r with
    | Some (id, l) => [(u "log_config_id", of_prim id); (u "logs", VArr (map log_val l))]
    | None => []
    end
    ++ match rp_attrs r with [] => [] | l => [(u "attrs", VArr (map attr_val l))] end
    ++ match rp_strattrs r with [] => [] | l => [(u "strattrs", VArr (map strattr_val l))] end
    ++ match rp_user r with Some n => [(u "master_user_id", VNum n)] | None => [] end
    ++ match rp_key r with Some k => [(u "access_key", VStr k)] | None => [] end).

(** The POST data of a request. *)
Definition request_body {J : JsonObject} (r : request) : jstr :=
  u "action=http_report_data&" ++ u "req_seq=" ++ Z_to_str (rq_seq r) ++ u "&data="
  ++ match JSON_stringify (reports_val (rq_data r)) with
     | Some t => t | None => u "undefined" end.

Definition cfg0 : cfg := Cfg (u "http://h/cgi-bin/mt_slog_reportinfo") (PNum (of_Z 7)) (of_Z 0) [] false false false.
Definition env0 (t : Z) : env := Env t true true true.

Example run_ex :
  let s := run [(env0 1000, CAttr OAdd (PNum (of_Z 5)) (PNum (of_Z 2)));
                (env0 1001, CAttr OAdd (PStr (u "5")) (PNum (of_Z 3)));
                (env0 2200, CFire 1)] (started (env0 1000) cfg0) in
  map request_body (wire s)
  = [u "action=http_report_data&req_seq=1&data={" ++ [34] ++ u "attrs" ++ [34] ++ u ":[{" ++ [34]
     ++ u "id" ++ [34] ++ u ":5," ++ [34] ++ u "number" ++ [34] ++ u ":5}]}"].
Proof. vm_compute. reflexivity. Qed.
