(* ===== verification/ReportFacts.v ===== *)
(** * Facts about the reporting core: the invariant of its state, what each call
    sends, conservation of the reported data, the request rate, and the state in
    which nothing is sent any more. *)

From Stdlib Require Import ZArith Lia QArith.
From stdpp Require Import base tactics list numbers strings.
From S2P Require Import Prelude JsValue Json Report.
Local Open Scope Z_scope.

(** ** What a report does

    [quiet] keeps the buffers and sends nothing; [sends] hands exactly the
    buffered data to one request and empties the buffers. *)
Record quiet (s s' : st) : Prop := {
  q_wire : wire s' = wire s;
  q_cf : cf s' = cf s;
  q_logs : logs (bf s') = logs (bf s);
  q_attrs : attrs (bf s') = attrs (bf s);
  q_strattrs : strattrs (bf s') = strattrs (bf s);
  q_plugins : plugins (bf s') = plugins (bf s);
  q_seq : req_seq (tg s') = req_seq (tg s);
  q_last : last_req_seq (tg s') = last_req_seq (tg s);
  q_freq : freq_send_start_time (tg s') = freq_send_start_time (tg s);
  q_times : freq_request_times (tg s') = freq_request_times (tg s)
}.

(** The plugins after a report: the one whose logs went out has none left. *)
Definition plugins_after (s : st) : list plugin :=
  match snd (build_reports s) with
  | Some i => alter drop_plugin_logs i (plugins (bf s))
  | None => plugins (bf s)
  end.

(** The window of the rate limit after a request at [t]. *)
Definition freq_after (t : Z) (g : timing) : option (Z * Z) :=
  let start := freq_send_start_time g in
  let times := freq_request_times g in
  if (start =? 0) || (start + freq_check_time <? t) then Some (t, 1)
  else if (t <? start + freq_check_time) && (freq_check_limit_times <=? times) then None
  else Some (start, times + 1).

Record sends (E : env) (s s' : st) : Prop := {
  s_free : last_req_seq (tg s) = 0;
  s_wire : wire s' = wire s ++ [Request (req_seq (tg s)) (now E) (fst (build_reports s)) (send_ok E) true];
  s_cf : cf s' = cf s;
  s_need : need_report (fst (build_reports s)) = true;
  s_logs : logs (bf s') = [];
  s_attrs : attrs (bf s') = [];
  s_strattrs : strattrs (bf s') = [];
  s_plugins : plugins (bf s') = plugins_after s;
  s_seq : req_seq (tg s') = req_seq (tg s) + 1;
  s_last : last_req_seq (tg s') = req_seq (tg s);
  s_start : request_start_time (tg s') = now E;
  s_freq : freq_after (now E) (tg s) = Some (freq_send_start_time (tg s'), freq_request_times (tg s'))
}.

Create HintDb report.

Lemma quiet_refl s : quiet s s.
Proof. by constructor. Qed.
Lemma quiet_trans s1 s2 s3 : quiet s1 s2 -> quiet s2 s3 -> quiet s1 s3.
Proof. intros [] []. constructor; congruence. Qed.
#[export] Hint Resolve quiet_refl : report.

Lemma quiet_setTimeout E k d s : quiet s (snd (setTimeout E k d s)).
Proof. by constructor. Qed.
Lemma quiet_clear id s : quiet s (clearTimeout id s).
Proof. by constructor. Qed.
Lemma quiet_set_delay v s : quiet s (set_delay_timer v s).
Proof. by constructor. Qed.
Lemma quiet_cancel s : quiet s (set_delay_timer 0 (clearTimeout (last_delay_timer_id (tg s)) s)).
Proof. by constructor. Qed.
#[export] Hint Resolve quiet_setTimeout quiet_clear quiet_set_delay quiet_cancel : report.

(** Sending sees only what [quiet] keeps. *)
Lemma build_reports_quiet s s' : quiet s s' -> build_reports s' = build_reports s.
Proof. intros []. unfold build_reports. by rewrite q_logs0, q_plugins0, q_attrs0, q_strattrs0, q_cf0. Qed.

Lemma sends_quiet E s s' s'' : quiet s s' -> sends E s' s'' -> sends E s s''.
Proof.
  intros Q S. pose proof (build_reports_quiet _ _ Q) as B. destruct Q, S.
  constructor; try congruence.
  - rewrite s_plugins0. unfold plugins_after. by rewrite B, q_plugins0.
  - rewrite <- s_freq0. unfold freq_after. by rewrite q_freq0, q_times0.
Qed.

Definition quiet_or_sends (E : env) (s s' : st) : Prop := quiet s s' \/ sends E s s'.
Lemma quiet_or_sends_quiet E s s' s'' : quiet s s' -> quiet_or_sends E s' s'' -> quiet_or_sends E s s''.
Proof. intros Q [H|H]; [left; by eapply quiet_trans|right; by eapply sends_quiet]. Qed.

Lemma _report_to_server_effect E delay s : quiet_or_sends E s (_report_to_server E delay s).
Proof.
  unfold _report_to_server. destruct (_ || _) eqn:Eg.
  { destruct (last_delay_timer_id (tg s) =? 0); left; by constructor. }
  apply orb_false_iff in Eg as [_ Hl]. apply negb_false_iff, Z.eqb_eq in Hl.
  set (s1 := if last_delay_timer_id (tg s) =? 0 then s else _).
  assert (Q1 : quiet s s1) by (subst s1; destruct (_ =? 0); auto with report).
  eapply quiet_or_sends_quiet; [exact Q1|].
  assert (Hl1 : last_req_seq (tg s1) = 0) by (rewrite (q_last _ _ Q1); done).
  clearbody s1. clear s Q1 Hl. rename s1 into s.
  pose (s2 := set_strattrs (strattrs (bf s)) 0 (set_logs (logs (bf s)) 0 s)).
  destruct (build_reports s) as [r src] eqn:Eb. fold s2.
  assert (Q2 : quiet s s2) by by constructor.
  destruct (need_report r) eqn:En; [|by left]. cbn [negb].
  destruct (json_ok E); [|by left]. unfold _to_server.
  destruct (xhr_ok E); [|by left]. cbn [negb].
  destruct ((_ =? 0) || _) eqn:E1; [|destruct ((_ <? _ + _) && _) eqn:E2; [left; by constructor|]].
  all: right; constructor; unfold plugins_after, freq_after; rewrite ?Eb; cbn [fst snd];
    try (destruct src; reflexivity); try done.
  - cbn in E1. rewrite E1. by destruct src.
  - cbn in E1, E2. rewrite E1, E2. by destruct src.
Qed.

(** ** Every call is a change of the buffers or of the configuration, followed by
    at most one report *)

Definition timed_out (E : env) (s : st) : bool :=
  (0 <? request_start_time (tg s)) && (request_start_time (tg s) + request_timeout_ms <=? now E).

Definition due_timer (E : env) (id : Z) (s : st) : option timer :=
  find (fun t => (tm_id t =? id) && (tm_due t <=? now E)) (timers s).

Definition sweep_windows (s : st) : st :=
  set_plugins (map (fun p => Plugin (pl_name p) (pl_logconfig_id p)
    (remove_exception_window (pl_windows p)) (pl_logs p) (pl_cur_logs_strlen p)) (plugins (bf s))) s.

Definition absorb (E : env) (c : call) (s : st) : st :=
  match c with
  | CAttr o id number =>
      match check_args id number with
      | None => s
      | Some n => set_attrs (match update_attr o id n (attrs (bf s)) with
                             | Some l => l | None => attrs (bf s) ++ [Attr id n] end) s
      end
  | CStrattr o id (PStr str) number =>
      match check_args id number with
      | None => s
      | Some n => set_strattrs (match update_strattr o id str n (strattrs (bf s)) with
                                | Some (l, _) => l
                                | None => strattrs (bf s) ++ [StrAttr id [StrInfo (cut50 str) n]]
                                end) (cur_strattrs_strlen (bf s)) s
      end
  | CStrattr _ _ _ _ | CReport _ => s
  | CLog log_type msg =>
      if loose_eq (log_config_id (cf s)) (PNum (of_Z 0)) then s
      else if negb (bool_decide (log_type ∈ log_types)) then s
      else set_logs (logs (bf s) ++ [Log log_type msg (now E / 1000 * 1000)])
             (cur_logs_strlen (bf s) + js_length msg) s
  | CFire id =>
      match due_timer E id s with
      | Some (Timer _ TDelay _) => if timed_out E s then set_last_req_seq 0 s else s
      | Some (Timer _ TTry _) => sweep_windows s
      | _ => s
      end
  | c => do_call E c s
  end.

Lemma flush_full_effect E s : quiet_or_sends E s (flush_full E s).
Proof.
  unfold flush_full. eapply quiet_or_sends_quiet; [|apply _report_to_server_effect].
  destruct (_ =? 0); auto with report.
Qed.

Lemma report_to_server_effect E d s : quiet_or_sends E s (report_to_server E d s).
Proof.
  unfold report_to_server. destruct (js_eqb _ _); [by left|].
  destruct (_ && _).
  - eapply quiet_or_sends_quiet; [|apply _report_to_server_effect].
    destruct (_ =? 0); auto with report.
  - destruct (negb _); [by left|apply _report_to_server_effect].
Qed.

Lemma grow_strattrs_effect E len s : quiet_or_sends E s (grow_strattrs E len s).
Proof.
  unfold grow_strattrs. eapply quiet_or_sends_quiet with (s' := set_strattrs _ _ s); [by constructor|].
  destruct (_ <=? _); [apply flush_full_effect|by left].
Qed.

(** The reports of the three kinds of data and of the timers. *)
Theorem do_call_effect E c s : quiet_or_sends E (absorb E c s) (do_call E c s).
Proof.
  destruct c; cbn [absorb do_call]; try (left; apply quiet_refl).
  - unfold _inner_xrk_report_attr. destruct (check_args id number) as [n|]; [|by left].
    destruct (update_attr _ _ _ _) as [l|]; [by left|].
    destruct (_ <=? _); [apply flush_full_effect|by left].
  - unfold _inner_xrk_report_strattr. destruct string; try by left.
    destruct (check_args id number) as [n|]; [|by left].
    destruct (update_strattr _ _ _ _ _) as [[l [len|]]|]; [apply grow_strattrs_effect|by left|].
    apply grow_strattrs_effect.
  - unfold _report_log. destruct (loose_eq _ _); [by left|]. destruct (negb _); [by left|].
    destruct (_ <=? _); [|by left]. eapply quiet_or_sends_quiet; [|apply _report_to_server_effect].
    destruct (_ =? 0); auto with report.
  - apply report_to_server_effect.
  - unfold fire. fold (due_timer E id s). destruct (due_timer E id s) as [[i k d]|]; [|by left].
    cbn [tm_kind]. destruct k.
    + unfold on_delay_timer. eapply quiet_or_sends_quiet; [|apply _report_to_server_effect].
      unfold timed_out. cbn. destruct (_ && _); by constructor.
    + left. by constructor.
    + unfold _try_report_to_server.
      assert (H : quiet_or_sends E (sweep_windows s)
                    (report_to_server E None (sweep_windows (clearTimeout id s)))).
      { eapply quiet_or_sends_quiet; [|apply report_to_server_effect]. by constructor. }
      destruct H as [H|H]; [left|right].
      * eapply quiet_trans; [exact H|apply quiet_setTimeout].
      * destruct H. by constructor.
Qed.

(** ** Invariants over runs *)

(** The rule of induction used below: what quiet changes, requests and
    [absorb] preserve holds after every run. *)
Lemma run_invariant (P : st -> Prop) (ok : env * call -> Prop) :
  (forall s s', quiet s s' -> P s -> P s') ->
  (forall ec s s', ok ec -> sends (fst ec) s s' -> P s -> P s') ->
  (forall ec s, ok ec -> P s -> P (absorb (fst ec) (snd ec) s)) ->
  forall tr s, Forall ok tr -> P s -> P (run tr s).
Proof.
  intros Hq Hs Ha tr s Hok. revert s. induction Hok as [|ec tr Hec Hok IH]; intros s HP; [done|].
  cbn. apply IH. unfold step.
  destruct (do_call_effect (fst ec) (snd ec) s) as [Q|S]; [by eapply Hq; eauto|by eapply Hs; eauto].
Qed.

(** *** Buffers *)

Definition valid (n : num) : Prop := num_leb n (of_Z 0) = false.

Record buffers_wf (b : buffers) : Prop := {
  (* no two entries with loosely equal ids, the earlier on the left *)
  bw_ids : ForallOrdPairs (fun x y => loose_eq (at_id x) (at_id y) = false) (attrs b);
  bw_numbers : Forall (fun a => valid (at_number a)) (attrs b);
  bw_str_ids : ForallOrdPairs (fun x y => loose_eq (sa_id x) (sa_id y) = false) (strattrs b);
  bw_strings : Forall (fun a => sa_strings a <> [] /\
      Forall (fun i => (length (si_string i) <= 50)%nat /\ valid (si_number i)) (sa_strings a))
    (strattrs b);
  bw_types : Forall (fun g => lg_type g ∈ log_types) (logs b)
}.

Lemma valid_add x y : valid x -> valid y -> valid (num_add x y).
Proof.
  unfold valid. destruct x as [a| | |], y as [b| | |]; try done.
  cbn. intros Ha Hb. apply not_true_iff_false. intros H. apply Qle_bool_iff in H.
  assert (Ha' : ~ (a <= 0)%Q) by (intros H'; apply Qle_bool_iff in H'; unfold of_Z in Ha; congruence).
  assert (Hb' : ~ (b <= 0)%Q) by (intros H'; apply Qle_bool_iff in H'; unfold of_Z in Hb; congruence).
  apply Qnot_le_lt in Ha', Hb'. rewrite Qred_correct in H.
  pose proof (Qplus_lt_le_compat 0 a 0 b Ha' (Qlt_le_weak _ _ Hb')) as Hs.
  apply (Qlt_irrefl 0). eapply Qlt_le_trans; [|exact H]. exact Hs.
Qed.

Lemma valid_update o n old : valid n -> valid old -> valid (update_number o n old).
Proof. destruct o; [|done]. intros. by apply valid_add. Qed.

Lemma check_args_valid id number n : check_args id number = Some n -> id <> PUndef /\ valid n.
Proof.
  unfold check_args, valid. destruct id, number; try done;
  (destruct (num_leb _ _) eqn:E; [done|]; by intros [= <-]).
Qed.

Lemma ForallOrdPairs_snoc {A} (R : A -> A -> Prop) l x :
  ForallOrdPairs R l -> Forall (fun y => R y x) l -> ForallOrdPairs R (l ++ [x]).
Proof.
  induction 1 as [|y l Hy Hl IH]; intros H; [by repeat constructor|].
  inversion H; subst. constructor; [|by apply IH]. apply Forall_app. by repeat constructor.
Qed.

Lemma update_attr_ids o id n l l' : update_attr o id n l = Some l' -> map at_id l' = map at_id l.
Proof.
  revert l'. induction l as [|a l IH]; intros l' H; [done|]. cbn in H.
  destruct (loose_eq _ _); [by injection H as <-|].
  destruct (update_attr o id n l) as [l''|]; [|done]. injection H as <-. cbn. by rewrite (IH l'').
Qed.

Lemma update_attr_none o id n l : update_attr o id n l = None ->
  Forall (fun a => loose_eq (at_id a) id = false) l.
Proof.
  induction l as [|a l IH]; intros H; [done|]. cbn in H. destruct (loose_eq _ _) eqn:E; [done|].
  constructor; [done|]. apply IH. by destruct (update_attr o id n l).
Qed.

Lemma update_attr_valid o id n l l' : valid n -> update_attr o id n l = Some l' ->
  Forall (fun a => valid (at_number a)) l -> Forall (fun a => valid (at_number a)) l'.
Proof.
  intros Hn. revert l'. induction l as [|a l IH]; intros l' H Hl; [done|]. cbn in H.
  inversion Hl; subst. destruct (loose_eq _ _).
  - injection H as <-. constructor; [by apply valid_update|done].
  - destruct (update_attr o id n l) as [l''|]; [|done]. injection H as <-. constructor; [done|auto].
Qed.

Lemma update_strattr_ids o id str n l l' g :
  update_strattr o id str n l = Some (l', g) -> map sa_id l' = map sa_id l.
Proof.
  revert l'. induction l as [|a l IH]; intros l' H; [done|]. cbn in H.
  destruct (loose_eq _ _).
  - destruct (update_string _ _ _ _); injection H as <- <-; done.
  - destruct (update_strattr o id str n l) as [[l'' g']|]; [|done].
    injection H as <- <-. cbn. by rewrite (IH l'').
Qed.

Lemma update_strattr_none o id str n l : update_strattr o id str n l = None ->
  Forall (fun a => loose_eq (sa_id a) id = false) l.
Proof.
  induction l as [|a l IH]; intros H; [done|]. cbn in H. destruct (loose_eq _ _) eqn:E.
  - by destruct (update_string _ _ _ _).
  - constructor; [done|]. apply IH. by destruct (update_strattr o id str n l) as [[? ?]|].
Qed.

Definition string_wf (i : strinfo) : Prop := (length (si_string i) <= 50)%nat /\ valid (si_number i).

Lemma cut50_length str : (length (cut50 str) <= 50)%nat.
Proof.
  unfold cut50, js_length. destruct (50 <? _) eqn:E; [|lia].
  unfold substring0. rewrite length_take. lia.
Qed.

Lemma update_string_wf o str n l l' : valid n -> update_string o str n l = Some l' ->
  Forall string_wf l -> Forall string_wf l' /\ l' <> [].
Proof.
  intros Hn. revert l'. induction l as [|a l IH]; intros l' H Hl; [done|]. cbn in H.
  inversion Hl as [|? ? [H1 H2] Hl']; subst. destruct (js_eqb _ _).
  - injection H as <-. split; [|done]. constructor; [|done]. split; [done|by apply valid_update].
  - destruct (update_string o str n l) as [l''|]; [|done]. injection H as <-.
    split; [|done]. constructor; [done|]. by apply IH.
Qed.

Definition strattr_wf (a : strattr) : Prop := sa_strings a <> [] /\ Forall string_wf (sa_strings a).

Lemma update_strattr_wf o id str n l l' g : valid n ->
  update_strattr o id str n l = Some (l', g) -> Forall strattr_wf l -> Forall strattr_wf l'.
Proof.
  intros Hn. revert l'. induction l as [|a l IH]; intros l' H Hl; [done|]. cbn in H.
  inversion Hl as [|? ? [H1 H2] Hl']; subst. destruct (loose_eq _ _).
  - destruct (update_string _ _ _ _) as [ss|] eqn:E; injection H as <- <-.
    + destruct (update_string_wf _ _ _ _ _ Hn E H2). by repeat constructor.
    + constructor; [|done]. split; [by destruct (sa_strings a)|].
      apply Forall_app. split; [done|].
      constructor; [split; [apply cut50_length|done]|constructor].
  - destruct (update_strattr o id str n l) as [[l'' g']|]; [|done].
    injection H as <- <-. constructor; [done|auto].
Qed.

Lemma ordpairs_map {A K} (rel : K -> K -> Prop) (f : A -> K) l :
  ForallOrdPairs (fun x y => rel (f x) (f y)) l <-> ForallOrdPairs rel (map f l).
Proof.
  induction l as [|x l IH]; cbn; [split; constructor|].
  split; inversion 1; subst; constructor; try (by apply IH); by apply Forall_map.
Qed.

Lemma buffers_wf_absorb E c s : buffers_wf (bf s) -> buffers_wf (bf (absorb E c s)).
Proof.
  intros W. destruct c; cbn [absorb]; try exact W.
  - destruct (check_args id number) as [n|] eqn:Ec; [|done].
    apply check_args_valid in Ec as [_ Hn]. destruct W.
    destruct (update_attr o id n (attrs (bf s))) as [l|] eqn:Eu; constructor; try done; cbn.
    + apply (ordpairs_map (fun a b => loose_eq a b = false) at_id).
      rewrite (update_attr_ids _ _ _ _ _ Eu). by apply (ordpairs_map _ at_id).
    + by eapply update_attr_valid.
    + apply ForallOrdPairs_snoc; [done|]. by eapply update_attr_none.
    + apply Forall_app. by repeat constructor.
  - destruct string as [| | | |str]; try exact W.
    destruct (check_args id number) as [n|] eqn:Ec; [|done].
    apply check_args_valid in Ec as [_ Hn]. destruct W.
    destruct (update_strattr o id str n (strattrs (bf s))) as [[l g]|] eqn:Eu; constructor; try done; cbn.
    + apply (ordpairs_map (fun a b => loose_eq a b = false) sa_id).
      rewrite (update_strattr_ids _ _ _ _ _ _ _ Eu). by apply (ordpairs_map _ sa_id).
    + by eapply update_strattr_wf.
    + apply ForallOrdPairs_snoc; [done|]. by eapply update_strattr_none.
    + apply Forall_app. split; [done|]. constructor; [|constructor]. split; [done|].
      constructor; [split; [apply cut50_length|done]|constructor].
  - destruct (loose_eq _ _); [done|]. destruct (bool_decide _) eqn:Ed; [|done]. cbn [negb].
    apply bool_decide_eq_true in Ed. destruct W. constructor; try done. cbn.
    apply Forall_app. split; [done|by apply Forall_singleton].
  - cbn. unfold init_log. destruct id; try exact W; destruct (loose_eq _ _); exact W.
  - cbn. unfold open_init_report. destruct rurl; [destruct (set_report_url _)|]; destruct log_id; exact W.
  - cbn. unfold cloud_init_report. destruct uid, key, log_id; exact W.
  - cbn. unfold _try_set_config. destruct c as [[url|] [user|] [key|]]; cbn;
      repeat case_match; exact W.
  - destruct W. constructor; done.
  - destruct W. constructor; done.
  - destruct W. constructor; done.
  - destruct (due_timer E id s) as [[i k d]|]; [|done]. destruct k; [by destruct (timed_out E s)|done|].
    destruct W. constructor; done.
  - cbn. unfold receive. destruct (existsb _ _); [|exact W]. destruct status200; [|exact W].
    unfold _on_response. destruct (json_ok E); [destruct parsed; [|exact W]|];
      cbn; destruct (on_xrk_response _); exact W.
Qed.

(** *** Sequence numbers and the wire *)

Fixpoint increasing (l : list Z) : Prop :=
  match l with x :: (y :: _) as l' => x < y /\ increasing l' | _ => True end.

Record seq_wf (s : st) : Prop := {
  sw_next : 1 <= req_seq (tg s);
  sw_last : 0 <= last_req_seq (tg s) < req_seq (tg s);
  sw_range : Forall (fun r => 1 <= rq_seq r < req_seq (tg s)) (wire s);
  sw_order : increasing (map rq_seq (wire s));
  sw_need : Forall (fun r => need_report (rq_data r) = true) (wire s)
}.

Lemma increasing_snoc l x : increasing l -> Forall (fun y => y < x) l -> increasing (l ++ [x]).
Proof.
  induction l as [|y l IH]; intros H1 H2; [done|]. inversion H2; subst.
  destruct l as [|z l]; [by cbn|]. destruct H1. split; [done|]. by apply IH.
Qed.

(** Closing a request changes nothing but its flag. *)
Lemma close_request_map {A} (f : request -> A) seq w :
  (forall r, f (close_request seq r) = f r) -> map f (map (close_request seq) w) = map f w.
Proof. intros H. rewrite map_map. apply map_ext. exact H. Qed.
Lemma close_request_fields seq r :
  rq_seq (close_request seq r) = rq_seq r /\ rq_time (close_request seq r) = rq_time r /\
  rq_data (close_request seq r) = rq_data r.
Proof. unfold close_request. by destruct (rq_seq r =? seq). Qed.

(** What [absorb] leaves of the timing part and of the wire. *)
Lemma absorb_timing E c s :
  req_seq (tg (absorb E c s)) = req_seq (tg s) /\
  (last_req_seq (tg (absorb E c s)) = last_req_seq (tg s) \/ last_req_seq (tg (absorb E c s)) = 0) /\
  freq_send_start_time (tg (absorb E c s)) = freq_send_start_time (tg s) /\
  freq_request_times (tg (absorb E c s)) = freq_request_times (tg s) /\
  (wire (absorb E c s) = wire s \/ exists seq, wire (absorb E c s) = map (close_request seq) (wire s)).
Proof.
  destruct c; cbn [absorb]; try (by auto 10).
  - destruct (check_args id number); by auto 10.
  - destruct string; try (by auto 10). destruct (check_args id number); by auto 10.
  - destruct (loose_eq _ _); [by auto 10|]. destruct (negb _); by auto 10.
  - cbn. unfold init_log. destruct id; try (by auto 10); destruct (loose_eq _ _); by auto 10.
  - cbn. unfold open_init_report.
    destruct rurl; [destruct (set_report_url _)|]; destruct log_id; by auto 10.
  - cbn. unfold cloud_init_report. destruct uid, key, log_id; by auto 10.
  - cbn. unfold _try_set_config. destruct c as [[url|] [user|] [key|]]; cbn; repeat case_match; by auto 10.
  - destruct (due_timer E id s) as [[i k d]|]; [|by auto 10].
    destruct k; [destruct (timed_out E s)| |]; by auto 10.
  - cbn. unfold receive. destruct (existsb _ _); [|by auto 10].
    destruct status200; [|by eauto 10].
    unfold _on_response. destruct (json_ok E); [destruct parsed; [|by eauto 10]|];
      cbn; destruct (on_xrk_response _); by eauto 10.
Qed.

Lemma seq_wf_sends E s s' : sends E s s' -> seq_wf s -> seq_wf s'.
Proof.
  intros S [H1 H2 H3 H4 H5]. destruct S. constructor.
  - lia.
  - lia.
  - rewrite s_wire0, s_seq0. apply Forall_app. split.
    + eapply Forall_impl; [exact H3|]. cbn. intros; lia.
    + apply Forall_singleton. cbn. lia.
  - rewrite s_wire0, map_app. apply increasing_snoc; [done|]. apply Forall_map.
    eapply Forall_impl; [exact H3|]. cbn. intros; lia.
  - rewrite s_wire0. apply Forall_app. split; [done|]. by apply Forall_singleton.
Qed.

Lemma seq_wf_absorb E c s : seq_wf s -> seq_wf (absorb E c s).
Proof.
  intros [H1 H2 H3 H4 H5]. destruct (absorb_timing E c s) as (Es & El & _ & _ & Ew).
  constructor; rewrite ?Es; try lia.
  - destruct Ew as [->|[seq ->]]; [done|]. apply Forall_map. eapply Forall_impl; [exact H3|].
    intros r. cbn. by destruct (close_request_fields seq r) as (-> & _ & _).
  - destruct Ew as [->|[seq ->]]; [done|]. rewrite close_request_map; [done|].
    intros r. apply close_request_fields.
  - destruct Ew as [->|[seq ->]]; [done|]. apply Forall_map. eapply Forall_impl; [exact H5|].
    intros r. cbn. by destruct (close_request_fields seq r) as (_ & _ & ->).
Qed.

(** *** The request rate *)

Definition in_window (s : st) (r : request) : bool :=
  (freq_send_start_time (tg s) <=? rq_time r)
  && (rq_time r <? freq_send_start_time (tg s) + freq_check_time).
Definition window_count (s : st) : Z := Z.of_nat (length (List.filter (in_window s) (wire s))).

Record rate_wf (s : st) : Prop := {
  rw_limit : window_count s <= 3;
  rw_count : window_count s <= freq_request_times (tg s);
  rw_past : Forall (fun r => rq_time r <= freq_send_start_time (tg s) + freq_check_time) (wire s);
  rw_start : freq_send_start_time (tg s) = 0 -> wire s = []
}.

Lemma filter_close s seq w :
  length (List.filter (in_window s) (map (close_request seq) w)) = length (List.filter (in_window s) w).
Proof.
  induction w as [|r w IH]; [done|]. cbn [map List.filter].
  assert (Hr : in_window s (close_request seq r) = in_window s r).
  { unfold in_window. by destruct (close_request_fields seq r) as (_ & -> & _). }
  rewrite Hr. destruct (in_window s r); cbn; by rewrite IH.
Qed.

Lemma window_count_same s s' :
  freq_send_start_time (tg s') = freq_send_start_time (tg s) ->
  length (List.filter (in_window s') (wire s')) = length (List.filter (in_window s') (wire s)) ->
  window_count s' = window_count s.
Proof.
  intros Hf Hw. unfold window_count. rewrite Hw. do 2 f_equal.
  apply List.filter_ext. intros r. unfold in_window. by rewrite Hf.
Qed.

Lemma rate_wf_absorb E c s : rate_wf s -> rate_wf (absorb E c s).
Proof.
  intros [H1 H2 H3 H4]. destruct (absorb_timing E c s) as (_ & _ & Ef & Et & Ew).
  assert (Hc : window_count (absorb E c s) = window_count s).
  { apply window_count_same; [done|]. destruct Ew as [->|[seq ->]]; [done|]. apply filter_close. }
  constructor; rewrite ?Hc, ?Ef, ?Et; try done.
  - destruct Ew as [->|[seq ->]]; [done|]. apply Forall_map. eapply Forall_impl; [exact H3|].
    intros r. cbn. by destruct (close_request_fields seq r) as (_ & -> & _).
  - intros H0. specialize (H4 H0). destruct Ew as [->|[seq ->]]; [done|]. by rewrite H4.
Qed.

Lemma rate_wf_quiet s s' : quiet s s' -> rate_wf s -> rate_wf s'.
Proof.
  intros Q [H1 H2 H3 H4].
  assert (Hc : window_count s' = window_count s)
    by (apply window_count_same; [apply Q|by rewrite (q_wire _ _ Q)]).
  destruct Q. constructor; rewrite ?Hc, ?q_freq0, ?q_times0, ?q_wire0; done.
Qed.

Lemma rate_wf_sends E s s' : now E <> 0 -> sends E s s' -> rate_wf s -> rate_wf s'.
Proof.
  intros Hnow S [H1 H2 H3 H4].
  pose proof (s_freq _ _ _ S) as Hf. pose proof (s_wire _ _ _ S) as Hw. clear S.
  set (new := Request _ _ _ _ _) in Hw. assert (Hn : rq_time new = now E) by done. clearbody new.
  assert (Hcount : window_count s' = Z.of_nat (length (List.filter (in_window s') (wire s)))
                     + if in_window s' new then 1 else 0).
  { unfold window_count. rewrite Hw, List.filter_app, length_app. cbn. destruct (in_window s' new); cbn; lia. }
  unfold freq_after in Hf. destruct ((_ =? 0) || _) eqn:E1.
  - injection Hf as Hs Ht. apply orb_true_iff in E1.
    assert (Hold : List.filter (in_window s') (wire s) = []).
    { destruct E1 as [E1|E1].
      - by rewrite H4 by lia.
      - rewrite Forall_forall in H3. destruct (List.filter _ _) as [|r l] eqn:Er; [done|].
        assert (Hr : In r (List.filter (in_window s') (wire s))) by (rewrite Er; by left).
        apply filter_In in Hr as [Hr1 Hr2]. specialize (H3 r (proj2 (list_elem_of_In _ _) Hr1)).
        unfold in_window in Hr2. rewrite <- Hs in Hr2. lia. }
    rewrite Hold in Hcount. cbn in Hcount. constructor.
    + destruct (in_window s' new); lia.
    + destruct (in_window s' new); lia.
    + rewrite Hw, <- Hs. apply Forall_app. split; [|apply Forall_singleton; unfold freq_check_time; lia].
      destruct E1 as [E1|E1]; [by rewrite H4 by lia|].
      eapply Forall_impl; [exact H3|]. cbn. unfold freq_check_time in *. intros; lia.
    + lia.
  - destruct (_ && _) eqn:E2; [done|]. injection Hf as Hs Ht.
    assert (Hold : length (List.filter (in_window s') (wire s)) = length (List.filter (in_window s) (wire s))).
    { f_equal. apply List.filter_ext. intros r. unfold in_window. by rewrite Hs. }
    rewrite Hold in Hcount. fold (window_count s) in Hcount.
    rewrite orb_false_iff in E1. rewrite andb_false_iff in E2.
    unfold in_window in Hcount. rewrite Hn, <- Hs in Hcount.
    unfold freq_check_time, freq_check_limit_times in *.
    constructor; rewrite <- ?Hs, <- ?Ht.
    + destruct (_ && _) eqn:E3; lia.
    + destruct (_ && _) eqn:E3; lia.
    + rewrite Hw. apply Forall_app. split; [done|]. apply Forall_singleton. unfold freq_check_time. lia.
    + lia.
Qed.

(** *** Conservation of the reported amounts *)

(** Traces whose monitor values are integers added to integer ids; the other
    calls are free. *)
Definition int_add (ec : env * call) : Prop :=
  match snd ec with
  | CAttr o id n => o = OAdd /\ exists k m, id = PNum (of_Z k) /\ n = PNum (of_Z m)
  | _ => True
  end.

Definition int_amount (n : num) : Z := match n with Fin q => Qnum q | _ => 0 end.
Definition attr_sum (k : Z) (l : list attr) : Z :=
  fold_right (fun a n => (if loose_eq (at_id a) (PNum (of_Z k)) then int_amount (at_number a) else 0) + n) 0 l.

(** The amount of monitor [k] that waits, that was handed to requests, and that
    the calls of a trace added. *)
Definition pending (k : Z) (s : st) : Z := attr_sum k (attrs (bf s)).
Definition sent (k : Z) (w : list request) : Z :=
  fold_right (fun r n => attr_sum k (rp_attrs (rq_data r)) + n) 0 w.
Definition added (k : Z) (tr : list (env * call)) : Z :=
  fold_right (fun ec n => match snd ec with
    | CAttr OAdd id (PNum m) =>
        if loose_eq id (PNum (of_Z k)) && num_leb (of_Z 1) m then int_amount m + n else n
    | _ => n end) 0 tr.

Definition int_attr (a : attr) : Prop := exists k m, a = Attr (PNum (of_Z k)) (of_Z m).

Lemma loose_eq_int j k : loose_eq (PNum (of_Z j)) (PNum (of_Z k)) = (j =? k).
Proof. apply num_eqb_of_Z. Qed.

Lemma attr_sum_app k l1 l2 : attr_sum k (l1 ++ l2) = attr_sum k l1 + attr_sum k l2.
Proof. unfold attr_sum. induction l1 as [|a l1 IH]; cbn; [done|]. rewrite IH. lia. Qed.
Lemma sent_app k w1 w2 : sent k (w1 ++ w2) = sent k w1 + sent k w2.
Proof. unfold sent. induction w1 as [|a l1 IH]; cbn; [done|]. rewrite IH. lia. Qed.
Lemma sent_close k seq w : sent k (map (close_request seq) w) = sent k w.
Proof.
  unfold sent. induction w as [|r w IH]; [done|]. cbn. rewrite IH.
  by destruct (close_request_fields seq r) as (_ & _ & ->).
Qed.

Lemma update_attr_sum k j m l l' : Forall int_attr l ->
  update_attr OAdd (PNum (of_Z j)) (of_Z m) l = Some l' ->
  Forall int_attr l' /\ attr_sum k l' = attr_sum k l + if j =? k then m else 0.
Proof.
  revert l'. induction l as [|a l IH]; intros l' Hl H; [done|].
  inversion Hl as [|? ? (k0 & m0 & ->) Hl']; subst. cbn [update_attr at_id at_number] in H.
  rewrite loose_eq_int in H. destruct (k0 =? j) eqn:E.
  - injection H as <-. change (fin ((m0 # 1) + (m # 1))) with (num_add (of_Z m0) (of_Z m)).
    rewrite of_Z_add. split.
    + constructor; [by exists k0, (m0 + m)|done].
    + cbn [attr_sum fold_right at_id at_number]. rewrite loose_eq_int.
      apply Z.eqb_eq in E as ->. cbn. destruct (j =? k); lia.
  - destruct (update_attr _ _ _ l) as [l''|]; [|done]. injection H as <-.
    destruct (IH l'' Hl' eq_refl) as [H1 H2]. split; [by constructor; [by exists k0, m0|]|].
    cbn [attr_sum fold_right at_id at_number]. unfold attr_sum in H2. rewrite H2. lia.
Qed.

Definition ints (s : st) : Prop := Forall int_attr (attrs (bf s)).

Lemma build_reports_attrs s : rp_attrs (fst (build_reports s)) = attrs (bf s).
Proof. unfold build_reports. repeat case_match; done. Qed.

(** A report moves what is pending to the wire. *)
Lemma report_conserves k E s s' : quiet_or_sends E s s' -> ints s ->
  ints s' /\ pending k s' + sent k (wire s') = pending k s + sent k (wire s).
Proof.
  unfold ints, pending. intros [Q|S] H.
  - by rewrite (q_attrs _ _ Q), (q_wire _ _ Q).
  - rewrite (s_attrs _ _ _ S), (s_wire _ _ _ S), sent_app. split; [constructor|].
    cbn [sent fold_right rq_data]. rewrite build_reports_attrs. cbn. lia.
Qed.

Lemma absorb_conserves k ec s : int_add ec -> ints s ->
  ints (absorb (fst ec) (snd ec) s) /\
  pending k (absorb (fst ec) (snd ec) s) + sent k (wire (absorb (fst ec) (snd ec) s))
  = pending k s + sent k (wire s) + added k [ec].
Proof.
  destruct ec as [E c]. unfold ints, pending. cbn [fst snd]. intros Hok H.
  assert (Hw : sent k (wire (absorb E c s)) = sent k (wire s)).
  { destruct (absorb_timing E c s) as (_ & _ & _ & _ & [->|[seq ->]]); [done|apply sent_close]. }
  rewrite Hw. destruct c; cbn [added fold_right snd]; try (split; [exact H|symmetry; exact (Z.add_0_r _)]).
  - destruct Hok as (-> & j & m & -> & ->). cbn [absorb check_args].
    rewrite num_leb_of_Z, num_leb_of_Z, loose_eq_int.
    destruct (m <=? 0) eqn:Em.
    { replace (1 <=? m) with false by lia. rewrite andb_false_r. split; [done|lia]. }
    replace (1 <=? m) with true by lia. rewrite andb_true_r.
    destruct (update_attr OAdd _ _ _) as [l|] eqn:Eu; cbn [bf set_attrs with_bf attrs].
    + destruct (update_attr_sum k j m _ _ H Eu) as [H1 H2]. split; [done|]. rewrite H2. cbn.
      destruct (j =? k); lia.
    + split; [apply Forall_app; split; [done|apply Forall_singleton; by exists j, m]|].
      rewrite attr_sum_app. cbn [attr_sum fold_right at_id at_number]. rewrite loose_eq_int. cbn.
      destruct (j =? k); lia.
  - cbn [absorb]. destruct string; try (split; [exact H|symmetry; exact (Z.add_0_r _)]).
    destruct (check_args id number); (split; [exact H|symmetry; exact (Z.add_0_r _)]).
  - cbn [absorb]. destruct (loose_eq _ _); [split; [exact H|symmetry; exact (Z.add_0_r _)]|].
    destruct (negb _); (split; [exact H|symmetry; exact (Z.add_0_r _)]).
  - cbn. unfold init_log. destruct id; try (split; [exact H|symmetry; exact (Z.add_0_r _)]);
      destruct (loose_eq _ _); (split; [exact H|symmetry; exact (Z.add_0_r _)]).
  - cbn. unfold open_init_report.
    destruct rurl; [destruct (set_report_url _)|]; destruct log_id; (split; [exact H|symmetry; exact (Z.add_0_r _)]).
  - cbn. unfold cloud_init_report. destruct uid, key, log_id; (split; [exact H|symmetry; exact (Z.add_0_r _)]).
  - cbn. unfold _try_set_config. destruct c as [[url|] [user|] [key|]]; cbn; repeat case_match;
      (split; [exact H|symmetry; exact (Z.add_0_r _)]).
  - cbn [absorb]. destruct (due_timer E id s) as [[i kd d]|]; [|split; [exact H|symmetry; exact (Z.add_0_r _)]].
    destruct kd; [destruct (timed_out E s)| |]; (split; [exact H|symmetry; exact (Z.add_0_r _)]).
  - cbn. unfold receive. destruct (existsb _ _); [|split; [exact H|symmetry; exact (Z.add_0_r _)]].
    destruct status200; [|split; [exact H|symmetry; exact (Z.add_0_r _)]].
    unfold _on_response. destruct (json_ok E); [destruct parsed; [|split; [exact H|symmetry; exact (Z.add_0_r _)]]|];
      cbn; destruct (on_xrk_response _); (split; [exact H|symmetry; exact (Z.add_0_r _)]).
Qed.

Lemma added_cons k ec tr : added k (ec :: tr) = added k [ec] + added k tr.
Proof.
  unfold added. cbn [fold_right]. destruct (snd ec) as [o id n|?|?|?|?|?|?|?|?|?|?|?|?|?]; try lia.
  destruct o; [|lia]. destruct n; try lia. destruct (_ && _); lia.
Qed.

Lemma run_conserves k tr : forall s, Forall int_add tr -> ints s ->
  pending k (run tr s) + sent k (wire (run tr s)) = pending k s + sent k (wire s) + added k tr.
Proof.
  induction tr as [|ec tr IH]; intros s Hok H; [cbn; lia|].
  inversion Hok as [|? ? Hec Hok']; subst. cbn [run fold_left]. fold (run tr (step ec s)).
  destruct (absorb_conserves k ec s Hec H) as [H1 H2].
  destruct (report_conserves k _ _ _ (do_call_effect (fst ec) (snd ec) s) H1) as [H3 H4].
  rewrite (IH (step ec s) Hok' H3). unfold step. rewrite H4, H2, (added_cons k ec tr). lia.
Qed.

(** *** Conservation of the logs *)

Definition waiting_logs (s : st) : list log := logs (bf s) ++ flat_map pl_logs (plugins (bf s)).
Definition request_logs (r : request) : list log :=
  match rp_log (rq_data r) with Some (_, l) => l | None => [] end.
Definition sent_logs (s : st) : list log := flat_map request_logs (wire s).

(** The log that a call adds, of the object or of a plugin. *)
Definition taken (ec : env * call) (s : st) : list log :=
  match snd ec with
  | CLog t m =>
      if loose_eq (log_config_id (cf s)) (PNum (of_Z 0)) || negb (bool_decide (t ∈ log_types))
      then [] else [Log t m (now (fst ec) / 1000 * 1000)]
  | CPluginLog i g => if bool_decide (i < length (plugins (bf s)))%nat then [g] else []
  | _ => []
  end.
Fixpoint taken_run (tr : list (env * call)) (s : st) : list log :=
  match tr with [] => [] | ec :: tr' => taken ec s ++ taken_run tr' (step ec s) end.

Lemma first_plugin_logs_spec l : forall j i p, first_plugin_logs j l = Some (i, p) ->
  (j <= i)%nat /\
  flat_map pl_logs (alter drop_plugin_logs (i - j)%nat l) ++ pl_logs p ≡ₚ flat_map pl_logs l.
Proof.
  induction l as [|q l IH]; intros j i p H; [done|]. cbn in H.
  destruct (pl_logs q) as [|g gs] eqn:Eq.
  - destruct (IH (S j) i p H) as [H1 H2]. split; [lia|].
    replace (i - j)%nat with (S (i - S j)) by lia. cbn [flat_map]. rewrite <- H2. cbn.
    by rewrite Eq.
  - injection H as <- <-. split; [lia|]. rewrite Nat.sub_diag. cbn. rewrite Eq.
    apply Permutation_app_comm.
Qed.

Lemma first_plugin_logs_none l : forall j, first_plugin_logs j l = None -> flat_map pl_logs l = [].
Proof.
  induction l as [|q l IH]; intros j H; [done|]. cbn in *.
  destruct (pl_logs q); [|done]. by apply (IH (S j)).
Qed.

Lemma report_logs E s s' : quiet_or_sends E s s' ->
  waiting_logs s' ++ sent_logs s' ≡ₚ waiting_logs s ++ sent_logs s.
Proof.
  unfold waiting_logs, sent_logs. intros [Q|S].
  - by rewrite (q_logs _ _ Q), (q_plugins _ _ Q), (q_wire _ _ Q).
  - rewrite (s_logs _ _ _ S), (s_plugins _ _ _ S), (s_wire _ _ _ S), flat_map_app. clear S.
    unfold plugins_after, build_reports. cbn [app flat_map].
    destruct (logs (bf s)) as [|g gs] eqn:Eg.
    + destruct (first_plugin_logs 0 (plugins (bf s))) as [[i p]|] eqn:Ef.
      * apply first_plugin_logs_spec in Ef as [_ Ef]. rewrite Nat.sub_0_r in Ef.
        cbn [fst snd rq_data rp_log request_logs app]. rewrite app_nil_r, <- Ef. solve_Permutation.
      * cbn. by rewrite !app_nil_r.
    + cbn [fst snd rq_data rp_log request_logs]. rewrite app_nil_r. cbn [app].
      change (g :: gs ++ ?x) with ((g :: gs) ++ x). solve_Permutation.
Qed.

Lemma flat_map_alter_app i g l : (i < length l)%nat ->
  flat_map pl_logs (alter (fun p => Plugin (pl_name p) (pl_logconfig_id p) (pl_windows p)
    (pl_logs p ++ [g]) (pl_cur_logs_strlen p + js_length (lg_msg g))) i l)
  ≡ₚ flat_map pl_logs l ++ [g].
Proof.
  revert i. induction l as [|p l IH]; intros [|i] H; cbn in *; [lia|lia| |].
  - solve_Permutation.
  - rewrite IH by lia. by rewrite app_assoc.
Qed.

Lemma flat_map_same (f : plugin -> plugin) l :
  (forall p, pl_logs (f p) = pl_logs p) -> flat_map pl_logs (map f l) = flat_map pl_logs l.
Proof. intros H. induction l as [|p l IH]; [done|]. cbn. by rewrite H, IH. Qed.
Lemma flat_map_alter_same (f : plugin -> plugin) i l :
  (forall p, pl_logs (f p) = pl_logs p) -> flat_map pl_logs (alter f i l) = flat_map pl_logs l.
Proof.
  intros H. revert i. induction l as [|p l IH]; intros [|i]; [done|done| |].
  - cbn. by rewrite H.
  - cbn. f_equal. apply IH.
Qed.

Lemma sent_logs_absorb E c s : sent_logs (absorb E c s) = sent_logs s.
Proof.
  unfold sent_logs. destruct (absorb_timing E c s) as (_ & _ & _ & _ & [->|[seq ->]]); [done|].
  induction (wire s) as [|r w IH]; [done|]. cbn. rewrite IH. f_equal.
  unfold request_logs. by destruct (close_request_fields seq r) as (_ & _ & ->).
Qed.

Lemma waiting_logs_absorb ec s :
  waiting_logs (absorb (fst ec) (snd ec) s) ≡ₚ waiting_logs s ++ taken ec s.
Proof.
  destruct ec as [E c]. unfold waiting_logs, taken. cbn [fst snd].
  destruct c; cbn [absorb]; rewrite ?app_nil_r; try done.
  - by destruct (check_args id number).
  - destruct string; try done. by destruct (check_args id number).
  - destruct (loose_eq _ _); [by rewrite app_nil_r|]. destruct (bool_decide _); cbn [negb orb].
    + cbn. rewrite <- !app_assoc. solve_Permutation.
    + by rewrite app_nil_r.
  - cbn. unfold init_log. destruct id; try done; by destruct (loose_eq _ _).
  - cbn. unfold open_init_report. destruct rurl; [destruct (set_report_url _)|]; by destruct log_id.
  - cbn. unfold cloud_init_report. by destruct uid, key, log_id.
  - cbn. unfold _try_set_config. destruct c as [[url|] [user|] [key|]]; cbn; by repeat case_match.
  - cbn. destruct (bool_decide _) eqn:Eb.
    + apply bool_decide_eq_true in Eb. rewrite flat_map_alter_app by done. by rewrite app_assoc.
    + apply bool_decide_eq_false in Eb. rewrite app_nil_r.
      replace (alter _ i (plugins (bf s))) with (plugins (bf s)); [done|].
      revert i Eb. induction (plugins (bf s)) as [|p l IH]; intros [|i] H; cbn in *; [done|done|lia|].
      rewrite <- IH by lia. done.
  - cbn. rewrite flat_map_app. cbn. by rewrite app_nil_r.
  - cbn. by rewrite flat_map_alter_same.
  - destruct (due_timer E id s) as [[i kd d]|]; [|done].
    destruct kd; [by destruct (timed_out E s)|done|]. cbn. by rewrite flat_map_same.
  - cbn. unfold receive. destruct (existsb _ _); [|done]. destruct status200; [|done].
    unfold _on_response. destruct (json_ok E); [destruct parsed; [|done]|];
      cbn; by destruct (on_xrk_response _).
Qed.

Lemma run_logs tr : forall s,
  waiting_logs (run tr s) ++ sent_logs (run tr s) ≡ₚ waiting_logs s ++ sent_logs s ++ taken_run tr s.
Proof.
  induction tr as [|ec tr IH]; intros s; cbn [run fold_left taken_run]; [by rewrite app_nil_r|].
  fold (run tr (step ec s)). rewrite IH.
  pose proof (report_logs _ _ _ (do_call_effect (fst ec) (snd ec) s)) as Hr. fold (step ec s) in Hr.
  rewrite app_assoc, Hr, waiting_logs_absorb, sent_logs_absorb. solve_Permutation.
Qed.

(** ** A reporter that waits for an answer with no timer behind its timer id *)

Record stuck (s : st) : Prop := {
  sk_request : last_req_seq (tg s) <> 0;
  sk_timer : last_delay_timer_id (tg s) <> 0;
  sk_none : Forall (fun t => tm_kind t <> TDelay) (timers s)
}.

Lemma _report_to_server_stuck E s : stuck s -> _report_to_server E None s = s.
Proof.
  intros [H1 H2 _]. unfold _report_to_server.
  rewrite (proj2 (Z.eqb_neq _ _) H1), (proj2 (Z.eqb_neq _ _) H2). done.
Qed.

Lemma report_to_server_stuck E d s : stuck s -> report_to_server E d s = s.
Proof.
  intros [H1 H2 _]. unfold report_to_server. destruct (js_eqb _ _); [done|].
  rewrite (proj2 (Z.eqb_neq _ _) H1), (proj2 (Z.eqb_neq _ _) H2), andb_false_r. done.
Qed.

(** [stuck] and the wire depend on nothing else. *)
Definition same_sending (s s' : st) : Prop :=
  wire s' = wire s /\ last_req_seq (tg s') = last_req_seq (tg s) /\
  last_delay_timer_id (tg s') = last_delay_timer_id (tg s) /\
  (forall t, t ∈ timers s' -> t ∈ timers s \/ tm_kind t <> TDelay).

Lemma stuck_same s s' : same_sending s s' -> stuck s -> stuck s'.
Proof.
  intros (_ & H1 & H2 & H3) [K1 K2 K3]. constructor; [congruence|congruence|].
  rewrite Forall_forall in K3 |- *. intros t Ht. destruct (H3 t Ht); auto.
Qed.

Lemma same_sending_refl s : same_sending s s.
Proof. repeat split. by left. Qed.
Ltac unchanged := repeat split; let t := fresh in let H := fresh in intros t H; left; exact H.

Lemma same_sending_trans s1 s2 s3 : same_sending s1 s2 -> same_sending s2 s3 -> same_sending s1 s3.
Proof.
  intros (A1 & A2 & A3 & A4) (B1 & B2 & B3 & B4). repeat split; try congruence.
  intros t Ht. destruct (B4 t Ht) as [H|H]; [by apply A4|by right].
Qed.

Lemma same_sending_clear id s : same_sending s (clearTimeout id s).
Proof.
  repeat split. intros t Ht. left. cbn in Ht. apply list_elem_of_In, filter_In in Ht as [Ht _].
  by apply list_elem_of_In.
Qed.

Lemma flush_full_stuck E s : stuck s -> same_sending s (flush_full E s).
Proof.
  intros H. unfold flush_full.
  set (s1 := if last_delay_timer_id (tg s) =? 0 then s else _).
  assert (S1 : same_sending s s1)
    by (subst s1; destruct (_ =? 0); [unchanged|apply same_sending_clear]).
  rewrite _report_to_server_stuck; [done|by eapply stuck_same].
Qed.

Lemma same_sending_setTimeout E k d s : k <> TDelay -> same_sending s (snd (setTimeout E k d s)).
Proof.
  intros Hk. repeat split. intros t Ht. cbn in Ht. apply elem_of_app in Ht as [Ht|Ht]; [by left|].
  right. apply list_elem_of_In in Ht. destruct Ht as [<-|[]]. done.
Qed.

Lemma grow_strattrs_stuck E len s : stuck s -> same_sending s (grow_strattrs E len s).
Proof.
  intros H. unfold grow_strattrs. set (s1 := set_strattrs _ _ s).
  assert (S1 : same_sending s s1) by unchanged.
  destruct (_ <=? _); [|done]. eapply same_sending_trans; [exact S1|].
  apply flush_full_stuck. by eapply stuck_same.
Qed.

(** Calls other than an answer and a log of the object itself. *)
Definition no_answer_no_log (ec : env * call) : Prop :=
  match snd ec with CReceive _ _ _ | CLog _ _ => False | _ => True end.

Lemma step_stuck ec s : no_answer_no_log ec -> stuck s -> same_sending s (step ec s).
Proof.
  destruct ec as [E c]. unfold no_answer_no_log, step. cbn [fst snd]. intros Hok H.
  destruct c; try done; cbn [do_call]; try unchanged.
  - unfold _inner_xrk_report_attr. destruct (check_args id number) as [n|]; [|unchanged].
    destruct (update_attr _ _ _ _); [unchanged|].
    destruct (_ <=? _); [|unchanged].
    set (s1 := set_attrs _ s). assert (S1 : same_sending s s1) by unchanged.
    eapply same_sending_trans; [exact S1|apply flush_full_stuck; by eapply stuck_same].
  - unfold _inner_xrk_report_strattr. destruct string; try unchanged.
    destruct (check_args id number) as [n|]; [|unchanged].
    destruct (update_strattr _ _ _ _ _) as [[l [len|]]|]; [|unchanged|].
    all: match goal with |- same_sending _ (grow_strattrs _ _ ?s') =>
           apply same_sending_trans with s'; [unchanged|];
           apply grow_strattrs_stuck; apply (stuck_same s); [unchanged|exact H] end.
  - rewrite report_to_server_stuck by done. unchanged.
  - unfold init_log. destruct id; try unchanged; destruct (loose_eq _ _); unchanged.
  - unfold open_init_report.
    destruct rurl; [destruct (set_report_url _)|]; destruct log_id; unchanged.
  - unfold cloud_init_report. destruct uid, key, log_id; unchanged.
  - unfold _try_set_config. destruct c as [[url|] [user|] [key|]]; cbn; repeat case_match;
      unchanged.
  - unfold fire. destruct (find _ _) as [t|] eqn:Ef; [|unchanged].
    apply find_some in Ef as [Hin _]. apply list_elem_of_In in Hin.
    pose proof (sk_none _ H) as K. rewrite Forall_forall in K. specialize (K t Hin).
    pose proof (same_sending_clear id s) as S1.
    destruct (tm_kind t); [done|done|]. unfold _try_report_to_server.
    set (s2 := set_plugins _ (clearTimeout id s)).
    assert (S2 : same_sending s s2) by (eapply same_sending_trans; [exact S1|unchanged]).
    rewrite report_to_server_stuck by (by eapply stuck_same).
    eapply same_sending_trans; [exact S2|by apply same_sending_setTimeout].
Qed.

Lemma run_stuck tr : forall s, Forall no_answer_no_log tr -> stuck s ->
  wire (run tr s) = wire s /\ stuck (run tr s).
Proof.
  induction tr as [|ec tr IH]; intros s Hok H; [done|].
  inversion Hok as [|? ? H1 H2]; subst. pose proof (step_stuck ec s H1 H) as S.
  destruct (IH (step ec s) H2 (stuck_same _ _ S H)) as [Hw K].
  change (run (ec :: tr) s) with (run tr (step ec s)). rewrite Hw. split; [apply S|done].
Qed.
