(* ===== verification/ReportProps.v ===== *)
(** * Properties of the reporting core *)

From Stdlib Require Import ZArith Lia QArith.
From stdpp Require Import base tactics list numbers strings.
From S2P Require Import Prelude JsValue Json JsonFacts Report ReportFacts.
Local Open Scope Z_scope.

Lemma Forall_true {A} (l : list A) : Forall (fun _ => True) l.
Proof. induction l; by constructor. Qed.

(** ** Invariants of every run *)

(** C5. Whatever is called, the buffers stay well formed: one entry per id, no
    number that is at most 0, strings of at most 50 units, known log types. *)
Theorem buffers_invariant E c tr : buffers_wf (bf (run tr (started E c))).
Proof.
  apply (run_invariant (fun s => buffers_wf (bf s)) (fun _ => True)); [..|apply Forall_true|].
  - intros s s' Q [H1 H2 H3 H4 H5]. constructor; rewrite ?(q_attrs _ _ Q), ?(q_strattrs _ _ Q), ?(q_logs _ _ Q); done.
  - intros ec s s' _ S _. constructor; rewrite ?(s_logs _ _ _ S), ?(s_attrs _ _ _ S), ?(s_strattrs _ _ _ S); constructor.
  - intros ec s _. apply buffers_wf_absorb.
  - repeat constructor.
Qed.

(** Sequence numbers start at 1, grow with every request, and the pending one is
    0 or was given out; no request is empty. *)
Theorem sequence_invariant E c tr : seq_wf (run tr (started E c)).
Proof.
  apply (run_invariant seq_wf (fun _ => True)); [..|apply Forall_true|].
  - intros s s' Q [H1 H2 H3 H4 H5]. 
    constructor; rewrite ?(q_seq _ _ Q), ?(q_last _ _ Q), ?(q_wire _ _ Q); done.
  - intros ec s s' _. apply seq_wf_sends.
  - intros ec s _. apply seq_wf_absorb.
  - constructor; cbn; try done; lia.
Qed.

(** C3. At most three requests start in a period of the rate limit. *)
Theorem rate_limit E c tr :
  Forall (fun ec => now (fst ec) <> 0) tr -> window_count (run tr (started E c)) <= 3.
Proof.
  intros H. apply rw_limit.
  apply (run_invariant rate_wf (fun ec => now (fst ec) <> 0)); [..|exact H|].
  - intros s s'. apply rate_wf_quiet.
  - intros ec s s' Hn. by apply rate_wf_sends.
  - intros ec s _. apply rate_wf_absorb.
  - constructor; cbn; try done; lia.
Qed.

Definition burst : list (env * call) :=
  flat_map (fun i => [(env0 (1000 + i), CAttr OAdd (PNum (of_Z i)) (PNum (of_Z 1)));
                      (env0 (1000 + i), CReport None);
                      (env0 (1000 + i), CReceive i true (Some (Answer (PStr []) (of_Z 0))))]) [1; 2; 3; 4; 5].

Lemma rate_limit_witness :
  Forall (fun ec => now (fst ec) <> 0) burst /\
  window_count (run burst (started (env0 1000) cfg0)) <= 3 /\
  length (wire (run burst (started (env0 1000) cfg0))) = 3%nat.
Proof.
  assert (H : Forall (fun ec => now (fst ec) <> 0) burst)
    by (repeat (constructor; [discriminate|]); constructor).
  split; [exact H|]. split; [apply (rate_limit (env0 1000) cfg0 burst H)|vm_compute; reflexivity].
Defined.

(** ** One request at a time *)

Lemma receive_wire E seq ok p s : length (wire (receive E seq ok p s)) = length (wire s).
Proof.
  unfold receive. destruct (existsb _ _); [|done]. destruct ok; [|by cbn; rewrite length_map].
  unfold _on_response. destruct (json_ok E); [destruct p|];
    cbn; try destruct (on_xrk_response _); cbn; by rewrite length_map.
Qed.

(** Only an answer and the late timer end the wait for an answer. *)
Lemma absorb_free E c s : last_req_seq (tg (absorb E c s)) = 0 ->
  last_req_seq (tg s) = 0 \/
  (timed_out E s = true /\ exists id i d, c = CFire id /\ due_timer E id s = Some (Timer i TDelay d)) \/
  exists seq ok p, c = CReceive seq ok p.
Proof.
  destruct c; cbn [absorb do_call]; try by auto.
  - destruct (check_args id number); by auto.
  - destruct string; [..|destruct (check_args id number)]; by auto.
  - destruct (loose_eq _ _); [|destruct (negb _)]; by auto.
  - unfold init_log. destruct id; [|destruct (loose_eq _ _)..]; by auto.
  - unfold open_init_report. destruct rurl; [destruct (set_report_url _)|]; destruct log_id; by auto.
  - unfold cloud_init_report. destruct uid, key, log_id; by auto.
  - unfold _try_set_config. destruct c as [[url|] [user|] [key|]]; cbn; repeat case_match; by auto.
  - destruct (due_timer E id s) as [[i k d]|] eqn:Et; [|by auto].
    destruct k; [destruct (timed_out E s); [|by auto]| |]; [|by auto..]. intros _. right. left. split; [done|]. by exists id, i, d.
  - intros _. right. right. by exists seq, status200, parsed.
Qed.

(** C4. A call, timer or answer starts at most one request, and only when no answer is
    awaited; the delay timer alone starts one while an answer is awaited, and only when
    that is [request_timeout_ms] late. *)
Theorem one_request_at_a_time ec s :
  length (wire (step ec s)) = length (wire s) \/
  (length (wire (step ec s)) = S (length (wire s)) /\
   (last_req_seq (tg s) = 0 \/
    (timed_out (fst ec) s = true /\
     exists id i d, snd ec = CFire id /\ due_timer (fst ec) id s = Some (Timer i TDelay d)))).
Proof.
  destruct ec as [E c]. unfold step. cbn [fst snd].
  assert (Ha : length (wire (absorb E c s)) = length (wire s)).
  { destruct (absorb_timing E c s) as (_ & _ & _ & _ & [->|[seq ->]]); [done|by rewrite length_map]. }
  destruct (do_call_effect E c s) as [Q|S]; [left; by rewrite (q_wire _ _ Q)|].
  assert (Hl : length (wire (do_call E c s)) = Datatypes.S (length (wire s)))
    by (rewrite (s_wire _ _ _ S), length_app, Ha; cbn; lia).
  destruct (absorb_free E c s (s_free _ _ _ S)) as [H|[H|(seq & ok & p & ->)]]; [by auto..|].
  left. apply receive_wire.
Qed.

(** ** Nothing is lost, nothing is sent twice *)

(** Amounts that are positive integers, in the buffer and in all requests. *)
Definition pos_attr (a : attr) : Prop := exists k m, a = Attr (PNum (of_Z k)) (of_Z m) /\ 0 < m.
Definition all_attrs (s : st) : list attr := attrs (bf s) ++ flat_map (fun r => rp_attrs (rq_data r)) (wire s).
Lemma update_attr_pos o j m l l' : 0 < m -> o = OAdd -> Forall pos_attr l ->
  update_attr o (PNum (of_Z j)) (of_Z m) l = Some l' -> Forall pos_attr l'.
Proof.
  intros Hm ->. revert l'. induction l as [|a l IH]; intros l' Hl H; [done|]. apply Forall_cons in Hl as [(k & n & -> & Hn) Hl].
  cbn [update_attr at_id at_number] in H. destruct (loose_eq _ _).
  - injection H as <-. constructor; [|done]. exists k, (n + m). split; [|lia]. f_equal. apply of_Z_add.
  - destruct (update_attr _ _ _ l) as [l''|]; [|done]. injection H as <-. constructor; [by exists k, n|by apply IH].
Qed.
Lemma all_attrs_close seq w :
  flat_map (fun r => rp_attrs (rq_data r)) (map (close_request seq) w) = flat_map (fun r => rp_attrs (rq_data r)) w.
Proof. induction w as [|r w IH]; [done|]. cbn. rewrite IH. unfold close_request. by destruct (_ =? _). Qed.
Lemma absorb_pos ec s : int_add ec -> Forall pos_attr (all_attrs s) -> Forall pos_attr (all_attrs (absorb (fst ec) (snd ec) s)).
Proof.
  destruct ec as [E c]. cbn [fst snd]. unfold all_attrs. rewrite !Forall_app. intros Hok [Hb Hw]. split.
  2:{ destruct (absorb_timing E c s) as (_ & _ & _ & _ & [->|[seq ->]]); [done|by rewrite all_attrs_close]. }
  destruct c; cbn [absorb]; try done.
  - destruct Hok as (-> & j & m & -> & ->). cbn [check_args]. rewrite num_leb_of_Z. destruct (m <=? 0) eqn:Em; [done|].
    cbn [bf set_attrs with_bf attrs]. destruct (update_attr OAdd _ _ _) as [l|] eqn:Eu; [exact (update_attr_pos OAdd j m _ l ltac:(lia) eq_refl Hb Eu)|].
    apply Forall_app. split; [done|]. constructor; [|done]. exists j, m. split; [done|lia].
  - destruct string; try done. by destruct (check_args id number).
  - destruct (loose_eq _ _); [done|]. by destruct (negb _).
  - cbn. unfold init_log. destruct id; try done; by destruct (loose_eq _ _).
  - cbn. unfold open_init_report. destruct rurl; [destruct (set_report_url _)|]; by destruct log_id.
  - cbn. unfold cloud_init_report. by destruct uid, key, log_id.
  - cbn. unfold _try_set_config. destruct c as [[url|] [user|] [key|]]; cbn; repeat case_match; done.
  - destruct (due_timer E id s) as [[i k d]|]; [|done]. destruct k; [destruct (timed_out E s)| |]; done.
  - cbn. unfold receive. destruct (existsb _ _); [|done]. destruct status200; [|done].
    unfold _on_response. destruct (json_ok E); [destruct parsed|]; cbn; try destruct (on_xrk_response _); done.
Qed.
Lemma run_pos tr s : Forall int_add tr -> Forall pos_attr (all_attrs s) -> Forall pos_attr (all_attrs (run tr s)).
Proof.
  apply (run_invariant (fun s => Forall pos_attr (all_attrs s))); unfold all_attrs.
  - intros s0 s' Q. by rewrite (q_attrs _ _ Q), (q_wire _ _ Q).
  - intros ec s0 s' _ S. rewrite (s_attrs _ _ _ S), (s_wire _ _ _ S), flat_map_app. cbn [flat_map rq_data].
    rewrite build_reports_attrs, app_nil_r, !Forall_app. intros [H1 H2]. by split; [constructor|].
  - apply absorb_pos.
Qed.
Lemma attr_sum_bounds k l : Forall pos_attr l -> 0 <= attr_sum k l /\
  forall a, a ∈ l -> loose_eq (at_id a) (PNum (of_Z k)) = true -> exists m, at_number a = of_Z m /\ 0 < m <= attr_sum k l.
Proof.
  intros H. induction H as [|a l (j & m & -> & Hm) Hl [IH1 IH2]]; [split; [done|by intros a Ha%elem_of_nil]|].
  change (attr_sum k (Attr (PNum (of_Z j)) (of_Z m) :: l)) with ((if loose_eq (PNum (of_Z j)) (PNum (of_Z k)) then m else 0) + attr_sum k l).
  split; [destruct (loose_eq _ _); lia|]. intros a [->|Ha]%elem_of_cons Hk.
  - cbn [at_id] in Hk. rewrite Hk. exists m. split; [done|lia].
  - destruct (IH2 a Ha Hk) as (n & E & Hn). exists n. split; [done|]. destruct (loose_eq (PNum (of_Z j)) _); lia.
Qed.
Lemma all_attrs_sum k s : attr_sum k (all_attrs s) = pending k s + sent k (wire s).
Proof.
  unfold all_attrs, pending. rewrite attr_sum_app. f_equal. induction (wire s) as [|r w IH]; [done|].
  cbn [flat_map sent fold_right]. by rewrite attr_sum_app, IH.
Qed.

(** C1. In every run in which report_attr_add gets integers and report_attr_set is not
    called, with any other calls, timers and answers between: for every monitor id, what
    waits plus what was handed to requests is what was added. Every number that waits or
    was handed out is an integer between one and that sum, so that while the sum is at most
    2^53 no addition of doubles rounds. *)
Theorem attr_conservation E c tr k : Forall int_add tr ->
  let s := run tr (started E c) in
  pending k s + sent k (wire s) = added k tr /\
  forall a, a ∈ attrs (bf s) ++ flat_map (fun r => rp_attrs (rq_data r)) (wire s) ->
    loose_eq (at_id a) (PNum (of_Z k)) = true -> exists m, at_number a = of_Z m /\ 0 < m <= added k tr.
Proof.
  intros H s. assert (E1 : pending k s + sent k (wire s) = added k tr) by (unfold s; rewrite run_conserves; [done|done|constructor]).
  split; [done|]. rewrite <- E1, <- all_attrs_sum. apply attr_sum_bounds, run_pos; [done|constructor].
Qed.

Definition adds : list (env * call) :=
  [(env0 1000, CAttr OAdd (PNum (of_Z 5)) (PNum (of_Z 2))); (env0 1100, CReport None);
   (env0 1200, CAttr OAdd (PNum (of_Z 5)) (PNum (of_Z 3)));
   (env0 1200, CAttr OAdd (PNum (of_Z 5)) (PNum (of_Z (-3)))); (env0 1300, CReport None)].

Lemma attr_conservation_witness :
  Forall int_add adds /\
  pending 5 (run adds (started (env0 1000) cfg0)) + sent 5 (wire (run adds (started (env0 1000) cfg0))) = 5 /\
  sent 5 (wire (run adds (started (env0 1000) cfg0))) = 2.
Proof.
  assert (H : Forall int_add adds).
  { unfold adds. repeat (apply Forall_cons_2;
      [unfold int_add; cbn [snd]; first [exact I | split; [reflexivity|eauto]]|]). apply Forall_nil_2. }
  split; [exact H|]. split; [exact (proj1 (attr_conservation (env0 1000) cfg0 adds 5 H))|vm_compute; reflexivity].
Defined.

(** C2. The logs that wait and those handed to requests are together the logs that
    were accepted, each once, those of the plugins included. *)
Theorem log_conservation E c tr :
  waiting_logs (run tr (started E c)) ++ sent_logs (run tr (started E c))
  ≡ₚ taken_run tr (started E c).
Proof. by rewrite run_logs. Qed.

(** ** Progress *)

(** Something waits: values, strings, or logs, of the object or of a plugin. *)
Definition something_waits (s : st) : Prop :=
  attrs (bf s) <> [] \/ strattrs (bf s) <> [] \/ logs (bf s) <> [] \/ Exists (fun p => pl_logs p <> []) (plugins (bf s)).

(** The logs of one request: those of the object, or else those of the first plugin that has
    some, which then has none; what the plugins have before and after. *)
Definition plugin_logs (s : st) : list (prim * list log) := map (fun p => (pl_logconfig_id p, pl_logs p)) (plugins (bf s)).
Inductive logs_go (id : prim) : list log -> list (prim * list log) -> option (prim * list log) -> list (prim * list log) -> Prop :=
  | go_own l ps : l <> [] -> logs_go id l ps (Some (id, l)) ps
  | go_plugin ps1 i l ps2 : l <> [] -> Forall (fun p => p.2 = []) ps1 ->
      logs_go id [] (ps1 ++ (i, l) :: ps2) (Some (i, l)) (ps1 ++ (i, []) :: ps2)
  | go_none ps : Forall (fun p => p.2 = []) ps -> logs_go id [] ps None ps.

(** The state after a request for everything that waits. *)
Definition flushed (E : env) (s s' : st) : Prop :=
  exists r, wire s' = wire s ++ [r] /\ rq_seq r = req_seq (tg s) /\ rq_sent r = send_ok E /\ last_req_seq (tg s') = rq_seq r /\
    rp_attrs (rq_data r) = attrs (bf s) /\ rp_strattrs (rq_data r) = strattrs (bf s) /\
    logs_go (log_config_id (cf s)) (logs (bf s)) (plugin_logs s) (rp_log (rq_data r)) (plugin_logs s') /\
    rp_user (rq_data r) = (if num_eqb (master_user_id (cf s)) (of_Z 0) then None else Some (master_user_id (cf s))) /\
    rp_key (rq_data r) = (if decide (access_key (cf s) = []) then None else Some (access_key (cf s))) /\
    attrs (bf s') = [] /\ strattrs (bf s') = [] /\ logs (bf s') = [].

Lemma first_plugin_shape l : forall j, match first_plugin_logs j l with
  | Some (i, p) => exists l1 l2, l = l1 ++ p :: l2 /\ i = (j + length l1)%nat /\ Forall (fun q => pl_logs q = []) l1 /\ pl_logs p <> []
  | None => Forall (fun q => pl_logs q = []) l
  end.
Proof.
  induction l as [|q l IH]; intros j; [constructor|]. cbn. destruct (pl_logs q) eqn:Eq.
  - specialize (IH (S j)). destruct (first_plugin_logs (S j) l) as [[i p]|]; [|by constructor].
    destruct IH as (l1 & l2 & -> & -> & H1 & H2). exists (q :: l1), l2. split; [done|]. split; [cbn; lia|]. by split; [constructor|].
  - exists [], l. split; [done|]. split; [cbn; lia|]. split; [constructor|congruence].
Qed.
Lemma map_no_logs l : Forall (fun q => pl_logs q = []) l ->
  Forall (fun p : prim * list log => p.2 = []) (map (fun p => (pl_logconfig_id p, pl_logs p)) l).
Proof. intros H. apply Forall_map. eapply Forall_impl; [exact H|done]. Qed.
Lemma sends_flushed E s s' : sends E s s' -> flushed E s s'.
Proof.
  intros S. eexists. split; [exact (s_wire _ _ _ S)|]. cbn [rq_seq rq_sent rq_data]. rewrite (s_last _ _ _ S), (s_logs _ _ _ S), (s_attrs _ _ _ S), (s_strattrs _ _ _ S).
  unfold plugin_logs. rewrite (s_plugins _ _ _ S). clear S. unfold plugins_after, build_reports. do 3 (split; [done|]).
  assert (Hk : match access_key (cf s) with [] => None | k => Some k end = if decide (access_key (cf s) = []) then None else Some (access_key (cf s)))
    by (destruct (access_key (cf s)); [by rewrite decide_True|by rewrite decide_False]).
  destruct (logs (bf s)) as [|g gs] eqn:El.
  - pose proof (first_plugin_shape (plugins (bf s)) 0) as H. destruct (first_plugin_logs 0 (plugins (bf s))) as [[i p]|]; cbn [fst snd rp_attrs rp_strattrs rp_log rp_user rp_key].
    + destruct H as (l1 & l2 & -> & -> & H1 & H2). do 2 (split; [done|]). split; [|done]. cbn [Nat.add].
      rewrite <- (Nat.add_0_r (length l1)), alter_app_r, !map_app. cbn. constructor; [done|by apply map_no_logs].
    + do 2 (split; [done|]). split; [|done]. constructor. by apply map_no_logs.
  - cbn [fst snd rp_attrs rp_strattrs rp_log rp_user rp_key]. do 2 (split; [done|]). split; [|done]. by constructor.
Qed.
(** What waits does not wait in vain. *)
Lemma waits_needed s : something_waits s -> need_report (fst (build_reports s)) = true.
Proof.
  unfold something_waits, need_report, build_reports. intros H. pose proof (first_plugin_shape (plugins (bf s)) 0) as Hp.
  destruct (logs (bf s)) as [|g gs]; [|done]. destruct (first_plugin_logs 0 (plugins (bf s))) as [[i p]|]; [done|]. cbn.
  destruct H as [H|[H|[H|H]]].
  - by rewrite bool_decide_eq_false_2.
  - by rewrite (bool_decide_eq_false_2 _ H), orb_true_r.
  - done.
  - exfalso. apply Exists_exists in H as (q & Hq & Hl). rewrite Forall_forall in Hp. by apply Hl, Hp.
Qed.

(** [_report_to_server] without a delay sends when nothing stands in the way. *)
Lemma report_now E s :
  last_req_seq (tg s) = 0 -> xhr_ok E = true -> json_ok E = true -> something_waits s ->
  freq_after (now E) (tg s) <> None -> sends E s (_report_to_server E None s).
Proof.
  intros H1 H2 H3 H4 H5. destruct (_report_to_server_effect E None s) as [Q|S]; [|exact S].
  exfalso. pose proof (q_wire _ _ Q) as Hw. revert Hw. unfold _report_to_server. rewrite H1. cbn [orb negb Z.eqb].
  set (s1 := if last_delay_timer_id (tg s) =? 0 then s else _).
  assert (Q1 : quiet s s1) by (subst s1; destruct (_ =? 0); auto with report).
  apply waits_needed in H4. rewrite <- (build_reports_quiet _ _ Q1) in H4.
  destruct (build_reports s1) as [r src] eqn:Eb. cbn [fst] in H4. rewrite H4. cbn [negb].
  rewrite H3. unfold _to_server. rewrite H2. cbn [negb].
  unfold freq_after in H5. rewrite <- (q_freq _ _ Q1), <- (q_times _ _ Q1) in H5.
  cbn [tg set_start_time set_strattrs set_logs with_tg with_bf freq_send_start_time freq_request_times].
  destruct ((_ =? 0) || _); [|destruct (_ && _); [done|]];
    rewrite <- (q_wire _ _ Q1); destruct src; cbn; intros Hw;
    apply (f_equal length) in Hw; rewrite length_app in Hw; cbn in Hw; lia.
Qed.

(** C6. A try timer that is due, with no answer awaited and the rate limit open, sends one
    request with all values and all strings that wait and the logs of the object (or else of
    the first plugin that has some), and empties the buffers. *)
Theorem tick_sends E id d s :
  due_timer E id s = Some (Timer id TTry d) ->
  report_url (cf s) <> [] -> last_req_seq (tg s) = 0 -> xhr_ok E = true -> json_ok E = true ->
  something_waits s -> freq_after (now E) (tg s) <> None ->
  flushed E s (step (E, CFire id) s).
Proof.
  intros Ht Hu Hl Hx Hj Hs Hf. unfold step. cbn [fst snd do_call fire].
  unfold fire. fold (due_timer E id s). rewrite Ht. cbn [tm_kind]. unfold _try_report_to_server.
  set (s1 := set_plugins _ (clearTimeout id s)).
  assert (Hp : plugin_logs s1 = plugin_logs s) by (unfold plugin_logs, s1; cbn; by rewrite map_map).
  unfold report_to_server. destruct (js_eqb _ _) eqn:Eu.
  { apply bool_decide_eq_true in Eu. done. }
  change (last_req_seq (tg s1)) with (last_req_seq (tg s)). rewrite Hl. cbn [andb Z.eqb].
  set (s2 := if last_delay_timer_id (tg s1) =? 0 then s1 else _).
  assert (Q2 : quiet s1 s2) by (subst s2; destruct (_ =? 0); auto with report).
  assert (S : sends E s2 (_report_to_server E None s2)).
  { apply report_now; [by rewrite (q_last _ _ Q2)|done|done| |].
    - unfold something_waits. rewrite (q_attrs _ _ Q2), (q_strattrs _ _ Q2), (q_logs _ _ Q2), (q_plugins _ _ Q2). unfold s1. cbn.
      destruct Hs as [H|[H|[H|H]]]; [by auto..|]. right. right. right. apply Exists_exists in H as (q & Hq & Hql).
      apply Exists_exists. eexists. split; [apply list_elem_of_fmap_2, Hq|done].
    - unfold freq_after. rewrite (q_freq _ _ Q2), (q_times _ _ Q2). exact Hf. }
  apply (sends_quiet _ _ _ _ Q2), sends_flushed in S as (r & R). exists r. rewrite Hp in R. exact R.
Qed.

Lemma tick_sends_witness :
  let s := run [(env0 1000, CAttr OAdd (PNum (of_Z 5)) (PNum (of_Z 2)))] (started (env0 1000) cfg0) in
  due_timer (env0 2200) 1 s = Some (Timer 1 TTry 2200) /\
  flushed (env0 2200) s (step (env0 2200, CFire 1) s).
Proof.
  intros s. assert (H : due_timer (env0 2200) 1 s = Some (Timer 1 TTry 2200)) by (vm_compute; reflexivity).
  split; [exact H|].
  apply (tick_sends (env0 2200) 1 2200 s H); try (vm_compute; reflexivity);
    first [left; vm_compute; discriminate | vm_compute; discriminate].
Defined.

(** C7. The delay timer that finds the answer overdue abandons it and sends one request with
    all that waits, as above. *)
Theorem timeout_recovers E id d s :
  due_timer E id s = Some (Timer id TDelay d) -> timed_out E s = true ->
  xhr_ok E = true -> json_ok E = true -> something_waits s ->
  freq_after (now E) (tg s) <> None ->
  flushed E s (step (E, CFire id) s).
Proof.
  intros Ht Hto Hx Hj Hs Hf. unfold step. cbn [fst snd do_call].
  unfold fire. fold (due_timer E id s). rewrite Ht. cbn [tm_kind]. unfold on_delay_timer.
  change ((0 <? request_start_time (tg (set_delay_timer 0 (clearTimeout id s)))) && _)
    with (timed_out E s). rewrite Hto.
  destruct (sends_flushed E (set_last_req_seq 0 (set_delay_timer 0 (clearTimeout id s)))
    (_report_to_server E None (set_last_req_seq 0 (set_delay_timer 0 (clearTimeout id s)))))
    as (r & R); [by apply report_now|by exists r].
Qed.

(** A request at 2200 that is never answered, and a delay timer set at 3400. *)
Definition waiting_trace : list (env * call) :=
  [(env0 1000, CAttr OAdd (PNum (of_Z 5)) (PNum (of_Z 2))); (env0 2200, CFire 1);
   (env0 3000, CAttr OAdd (PNum (of_Z 6)) (PNum (of_Z 1))); (env0 11000, CFire 2)].

Lemma timeout_recovers_witness :
  let s := run waiting_trace (started (env0 1000) cfg0) in
  last_req_seq (tg s) = 1 /\ flushed (env0 11050) s (step (env0 11050, CFire 3) s).
Proof.
  intros s. split; [vm_compute; reflexivity|].
  apply (timeout_recovers (env0 11050) 3 11050 s); try (vm_compute; reflexivity);
    first [left; vm_compute; discriminate | vm_compute; discriminate].
Defined.

(** The state in which nothing gets sent any more: an answer is awaited and the
    remembered delay timer no longer exists. No timer and no report of values
    leaves it, however late it is: only an answer or a full log buffer does. *)
Theorem stalled_forever s tr : stuck s -> Forall no_answer_no_log tr ->
  wire (run tr s) = wire s /\ stuck (run tr s).
Proof. intros H Hok. by apply run_stuck. Qed.

(** It is reached when the 120th monitor value arrives while a request waits for
    its answer and a delay timer is set. *)
Definition many_attrs (t first : Z) (n : nat) : list (env * call) :=
  map (fun i => (env0 t, CAttr OAdd (PNum (of_Z (first + Z.of_nat i))) (PNum (of_Z 1)))) (seq 0 n).
Definition stall_trace : list (env * call) :=
  [(env0 1000, CAttr OAdd (PNum (of_Z 5)) (PNum (of_Z 2))); (env0 2200, CFire 1)]
  ++ many_attrs 2300 100 119 ++ [(env0 3400, CFire 2)] ++ many_attrs 3420 500 1.

Lemma stall_trace_stuck : stuck (run stall_trace (started (env0 1000) cfg0)).
Proof.
  constructor; [vm_compute; discriminate|vm_compute; discriminate|].
  vm_compute. repeat (constructor; [discriminate|]). constructor.
Qed.

Lemma stalled_forever_witness :
  let s := run stall_trace (started (env0 1000) cfg0) in
  (stuck s /\ length (attrs (bf s)) = 120%nat) /\
  wire (run [(env0 4600, CFire 4); (env0 1000000, CReport None)] s) = wire s.
Proof.
  intros s. split; [split; [exact stall_trace_stuck|vm_compute; reflexivity]|].
  apply (stalled_forever s [(env0 4600, CFire 4); (env0 1000000, CReport None)] stall_trace_stuck).
  repeat (constructor; [exact I|]). constructor.
Defined.

(** ** Behaviours that differ from what the comments say *)

Definition late_answer_trace : list (env * call) :=
  waiting_trace ++
  [(env0 11050, CFire 3); (env0 11060, CReceive 1 true (Some (Answer (PStr (u "1.2.3.4")) (of_Z 3))));
   (env0 11070, CAttr OAdd (PNum (of_Z 7)) (PNum (of_Z 1))); (env0 11080, CReport None)].

(** An answer is not matched with the request it belongs to: while the second
    request is out, the late answer to the first one opens the way to a third, so
    two requests wait at the same time. *)
Theorem late_answer_overlap :
  let s := run late_answer_trace (started (env0 1000) cfg0) in
  map (fun r => (rq_seq r, rq_time r, rq_open r)) (wire s)
  = [(1, 2200, false); (2, 11050, true); (3, 11080, true)].
Proof. vm_compute. reflexivity. Qed.

(** A request can carry more values than [max_attrs_per_req]. *)
Theorem attrs_over_limit :
  let s := run (stall_trace ++ many_attrs 3500 700 40
                ++ [(env0 3600, CReceive 1 true (Some (Answer (PStr []) (of_Z 0)))); (env0 3700, CReport None)])
             (started (env0 1000) cfg0) in
  map (fun r => Z.of_nat (length (rp_attrs (rq_data r)))) (wire s) = [1; 160].
Proof. vm_compute. reflexivity. Qed.

(** A string longer than 50 units never meets its own entry again: every report
    of it appends a new one, so equal texts repeat and [set] adds. *)
Theorem long_string_never_merged o str n l :
  50 < js_length str -> Forall strattr_wf l ->
  forall a, a ∈ l -> update_string o str n (sa_strings a) = None.
Proof.
  intros Hs Hl a Ha. rewrite Forall_forall in Hl. destruct (Hl a Ha) as [_ Hw].
  induction Hw as [|i ss [Hi _] Hw IH]; [done|]. cbn. destruct (js_eqb _ _) eqn:E.
  - apply bool_decide_eq_true in E. unfold js_length in Hs. rewrite E in Hi. lia.
  - by rewrite IH.
Qed.

Definition long_text : jstr := replicate 60 97.
Lemma long_string_never_merged_witness :
  let s := run [(env0 1000, CStrattr OAdd (PNum (of_Z 5)) (PStr long_text) (PNum (of_Z 1)));
                (env0 1001, CStrattr OAdd (PNum (of_Z 5)) (PStr long_text) (PNum (of_Z 1)))]
             (started (env0 1000) cfg0) in
  map (fun a => map si_string (sa_strings a)) (strattrs (bf s)) = [[replicate 50 97; replicate 50 97]] /\
  (forall a, a ∈ strattrs (bf s) -> update_string OSet long_text (of_Z 1) (sa_strings a) = None).
Proof.
  intros s. split; [vm_compute; reflexivity|].
  apply (long_string_never_merged OSet long_text (of_Z 1) (strattrs (bf s))); [reflexivity|].
  repeat (constructor; try (vm_compute; repeat split; try discriminate; lia)).
Defined.

(** A call with an undefined id, a number that is not one or at most 0, or a
    string that is not one, changes nothing. *)
Theorem bad_arguments_ignored E o id string number s :
  (id = PUndef \/ (forall n, number = PNum n -> num_leb n (of_Z 0) = true) \/
   (forall x, string <> PStr x)) ->
  _inner_xrk_report_strattr E o id string number s = s /\
  ((forall x, string <> PStr x) \/ _inner_xrk_report_attr E o id number s = s).
Proof.
  intros H.
  assert (Hc : (forall x, string <> PStr x) \/ check_args id number = None).
  { destruct H as [->|[H|H]]; [right; done| |by left]. right.
    destruct id, number; try done; unfold check_args; by rewrite (H _ eq_refl). }
  destruct Hc as [Hc|Hc].
  - split; [|by left]. destruct string; try done. by destruct (Hc s0).
  - split; [|right]; [destruct string; try done|]; cbn;
      unfold _inner_xrk_report_strattr, _inner_xrk_report_attr; by rewrite Hc.
Qed.

Lemma bad_arguments_ignored_witness :
  let s := started (env0 1000) cfg0 in
  _inner_xrk_report_strattr (env0 1) OAdd (PNum (of_Z 5)) (PStr (u "x")) (PNum (of_Z 0)) s = s /\
  ((forall x, PStr (u "x") <> PStr x) \/
   _inner_xrk_report_attr (env0 1) OAdd (PNum (of_Z 5)) (PNum (of_Z 0)) s = s).
Proof.
  intros s. apply (bad_arguments_ignored (env0 1) OAdd (PNum (of_Z 5)) (PStr (u "x")) (PNum (of_Z 0)) s).
  right. left. intros n [= <-]. reflexivity.
Defined.

(** ** The request body *)

(** The body is the action, the sequence number and a JSON text that reads back as
    the reported values, with every [JSON] object that keeps the laws. *)
Theorem request_body_roundtrip {J : JsonObject} {L : JsonLaws J} r :
  clean (reports_val (rq_data r)) = true ->
  exists t, request_body r = u "action=http_report_data&req_seq=" ++ Z_to_str (rq_seq r) ++ u "&data=" ++ t
    /\ Reader.parse t = Some (reports_val (rq_data r)).
Proof.
  intros H. destruct (stringify_reads _ H) as (t & E & P & _). exists t. split; [|done].
  unfold request_body. by rewrite E.
Qed.

Definition sample_request : request :=
  Request 3 1000 (Reports (Some (PNum (of_Z 7), [Log (u "error") (u "a&b=c+d") 1000])) [] [] None None) true true.
Lemma request_body_roundtrip_witness :
  clean (reports_val (rq_data sample_request)) = true /\
  exists t, request_body sample_request = u "action=http_report_data&req_seq=" ++ u "3" ++ u "&data=" ++ t
    /\ Reader.parse t = Some (reports_val (rq_data sample_request)).
Proof.
  assert (H : clean (reports_val (rq_data sample_request)) = true) by reflexivity.
  split; [exact H|exact (request_body_roundtrip sample_request H)].
Defined.

(** The JSON text is not escaped for the form encoding that the request declares:
    an ampersand in a log message ends the data field, and what is left of it is
    no JSON text. *)
Theorem body_not_form_encoded :
  match split_on 38 (request_body sample_request) with
  | [_; _; data; _] => Reader.parse (drop 5 data) = None
  | _ => False
  end.
Proof. vm_compute. reflexivity. Qed.
