(* ===== verification/Loader.v ===== *)
(** * [language/javascript/dmt_xrkmonitor.js]: how the script starts, finds its own
    address, loads its plugins and is shared by the windows of a page

    The files it loads are not part of it: what they leave behind is given by
    [globals]. *)

From Stdlib Require Import ZArith QArith Lia.
From stdpp Require Import base tactics list numbers strings.
From S2P Require Import Prelude JsValue Report.
Local Open Scope Z_scope.

(** ** Configuration *)

Record x_config := XConfig {
  xc_report_url : jstr; xc_plugins_ary : list jstr; xc_js_self_name : jstr; xc_json2_js_name : jstr;
  xc_log_config_id : prim; xc_master_user_id : num; xc_access_key : jstr
}.

Definition Xrkmonitor_config : x_config :=
  XConfig (u "http://xrkmonitor.com/cgi-bin/mt_slog_reportinfo") [u "monitor_website"; []]
    (u "dmt_xrkmonitor.js") (u "dmt_json2_min.js") (PNum (of_Z 0)) (of_Z 0) [].

(** ** The object while it loads *)

(** A plugin's configuration object. *)
Record plugin_conf := PluginConf { pf_name : jstr; pf_settings : plugin_config; pf_logconfig_id : prim }.

(** What the names of a plugin evaluate to: [None] throws, [Some None] is no object. For
    a monitor, the name that the object carries. *)
Record globals := Globals {
  g_config : jstr -> option (option plugin_conf);
  g_monitor : jstr -> option (option jstr)
}.

Inductive callback := CbJson | CbConfig (plugin_name : jstr) | CbPlugin (plugin_name : jstr) (c : plugin_conf).

(** A script element: old browsers report its [readyState]; [sc_armed] as long as its
    handler can still run. *)
Record script := Script { sc_url : jstr; sc_cb : callback; sc_ready_state : bool; sc_armed : bool }.

Record loader := Loader {
  ld_st : st; ld_config : x_config; ld_api_js_url : jstr; ld_load_more : Z; ld_scripts : list script
}.

Definition with_st (f : st -> st) (l : loader) : loader :=
  Loader (f (ld_st l)) (ld_config l) (ld_api_js_url l) (ld_load_more l) (ld_scripts l).
Definition load_more (l : loader) : loader :=
  Loader (ld_st l) (ld_config l) (ld_api_js_url l) (ld_load_more l + 1) (ld_scripts l).

(** A new object with the configuration copied in. *)
Definition new_loader (x : x_config) (b_debug : bool) : loader :=
  Loader (Xrkmonitor_obj (Cfg (xc_report_url x) (xc_log_config_id x) (xc_master_user_id x)
                            (xc_access_key x) false b_debug false))
    x [] 0 [].

Section Loading.
Context (E : env) (G : globals) (old_browser : bool).

Definition load_script (url : jstr) (cb : callback) (l : loader) : loader :=
  Loader (ld_st l) (ld_config l) (ld_api_js_url l) (ld_load_more l)
    (ld_scripts l ++ [Script url cb old_browser true]).

(** The address of another file in the script's directory. *)
Definition sibling (l : loader) (file : jstr) : jstr :=
  replace_first (xc_js_self_name (ld_config l)) file (ld_api_js_url l).

Definition _load_plugin (plugin_name : jstr) (l : loader) : loader :=
  load_script (sibling l (plugin_name ++ u "_conf.js")) (CbConfig plugin_name) l.

Definition _add_plugins (l : loader) : loader :=
  fold_left (fun l name => match name with [] => l | _ => _load_plugin name l end)
    (xc_plugins_ary (ld_config l)) l.

Definition start_try_timer (l : loader) : loader :=
  with_st (fun s => snd (setTimeout E TTry try_timer_ms s)) l.

(** The configuration is there: the plugin's own script is next. *)
Definition on_config (plugin_name : jstr) (l : loader) : loader :=
  match g_config G plugin_name with
  | Some (Some c) =>
      if js_eqb (pf_name c) plugin_name
      then load_script (sibling l (plugin_name ++ u ".js")) (CbPlugin plugin_name c) l
      else l
  | _ => l
  end.

(** The plugin is there: it is registered with its first window, [wid]. *)
Definition on_plugin (plugin_name : jstr) (c : plugin_conf) (wid : Z) (l : loader) : loader :=
  match g_monitor G plugin_name with
  | Some (Some name) =>
      if js_eqb name plugin_name
      then with_st (fun s => add_plugin plugin_name (pf_logconfig_id c) (Window wid false)
                               (_try_set_config (pf_settings c) s)) l
      else l
  | _ => l
  end.

Definition run_callback (cb : callback) (wid : Z) (l : loader) : loader :=
  match cb with
  | CbJson => if json_ok E then start_try_timer (_add_plugins l) else l
  | CbConfig name => on_config name l
  | CbPlugin name c => on_plugin name c wid l
  end.

(** An event of a script element: a change of its [readyState], or its load event,
    which a browser fires once. *)
Definition ready (state : jstr) : bool :=
  js_eqb state (u "loaded") || js_eqb state (u "complete") || js_eqb state (u "done").

Definition script_event (i : nat) (state : jstr) (wid : Z) (l : loader) : loader :=
  match ld_scripts l !! i with
  | Some sc =>
      if sc_armed sc && (negb (sc_ready_state sc) || ready state) then
        run_callback (sc_cb sc) wid
          (Loader (ld_st l) (ld_config l) (ld_api_js_url l) (ld_load_more l)
             (<[i := Script (sc_url sc) (sc_cb sc) (sc_ready_state sc) false]> (ld_scripts l)))
      else l
  | None => l
  end.

(** ** The script's own address *)

(** What the page offers: the source of the running script, or the stack text of the
    exception that reading it throws; the sources of the page's scripts. *)
Record page := Page { pg_current : jstr + jstr; pg_scripts : list jstr }.

Definition is_dec (c : Z) : bool := (48 <=? c) && (c <=? 57).

Fixpoint span (f : Z -> bool) (s : jstr) : jstr * jstr :=
  match s with
  | c :: s' => if f c then let '(a, b) := span f s' in (c :: a, b) else ([], s)
  | [] => ([], [])
  end.

(** The pattern's part after "://": anything on the line up to a slash, a path without
    colons, and a colon with a digit. [acc]: the units before, reversed. *)
Fixpoint uri_tail (acc : jstr) (s : jstr) : option jstr :=
  match s with
  | [] => None
  | c :: s' =>
      let '(path, rest) := span (fun d => negb (d =? 58)) s' in
      match c =? 47, path, rest with
      | true, _ :: _, 58 :: d :: _ =>
          if is_dec d then Some (rev acc ++ 47 :: path)
          else if c =? 10 then None else uri_tail (c :: acc) s'
      | _, _, _ => if (c =? 10) || (c =? 13) || (c =? 8232) || (c =? 8233) then None else uri_tail (c :: acc) s'
      end
  end.

Definition uri_here (s : jstr) : option jstr :=
  let try (p : jstr) := if prefix_b p s then uri_tail (rev p) (drop (length p) s) else None in
  match try (u "http://") with
  | Some r => Some r
  | None => match try (u "https://") with Some r => Some r | None => try (u "file://") end
  end.

(** The first match of the pattern of an address with a line number: the address. *)
Fixpoint rExtractUri (s : jstr) : option jstr :=
  match uri_here s with
  | Some r => Some r
  | None => match s with [] => None | _ :: s' => rExtractUri s' end
  end.

Definition contains (s t : jstr) : bool := 0 <=? index_of s t.

Definition get_cur_js_url (p : page) (curJsName : option jstr) (js_self_name : jstr) : jstr :=
  let curJsName := match curJsName with Some n => n | None => js_self_name end in
  let search := match find (fun src => contains src js_self_name) (rev (pg_scripts p)) with
                | Some src => src
                | None => []
                end in
  let check (url : jstr) := match url with
                            | [] => search
                            | _ => if contains url curJsName then url else search
                            end in
  match pg_current p with
  | inl src => check src
  | inr [] => search
  | inr stack => match rExtractUri stack with
                 | Some url => check url
                 | None => []   (* reading the match throws *)
                 end
  end.

(** Whether a file belongs to the monitor itself. *)
Definition is_xrkmonitor_js (js_file : jstr) (l : loader) : bool :=
  contains js_file (xc_json2_js_name (ld_config l)) || contains js_file (xc_js_self_name (ld_config l))
  || existsb (fun p => contains js_file (pl_name p ++ u ".js") || contains js_file (pl_name p ++ u "_conf.js"))
       (plugins (bf (ld_st l))).

(** ** Start *)

Definition _init (p : page) (l : loader) : loader :=
  let url := get_cur_js_url p None (xc_js_self_name (ld_config l)) in
  let l := Loader (ld_st l) (ld_config l) url (ld_load_more l) (ld_scripts l) in
  match url with
  | [] => l
  | _ =>
      let l := with_st (fun s => set_req_seq (req_seq (tg s) + 1) s) l in
      if json_ok E then start_try_timer (_add_plugins l)
      else load_script (sibling l (xc_json2_js_name (ld_config l))) CbJson l
  end.

Definition _init_more (p : page) (l : loader) : loader := _init p (load_more l).
Definition _init_start (p : page) (l : loader) : loader := _init p l.

(** A new window is monitored by every plugin; making a monitor throws, or its call
    does when it is no object, after the plugins before it got theirs. *)
Fixpoint add_monitors (wid : Z) (l : list plugin) : list plugin * bool :=
  match l with
  | [] => ([], true)
  | p :: l' =>
      match g_monitor G (pl_name p) with
      | None | Some None => (l, false)
      | Some (Some _) =>
          let '(l'', ok) := add_monitors wid l' in
          (Plugin (pl_name p) (pl_logconfig_id p) (pl_windows p ++ [Window wid false])
             (pl_logs p) (pl_cur_logs_strlen p) :: l'', ok)
      end
  end.

Definition plugins_add_monitor (wid : Z) (l : loader) : loader * bool :=
  let '(ps, ok) := add_monitors wid (plugins (bf (ld_st l))) in (with_st (set_plugins ps) l, ok).
End Loading.

(** ** Windows

    The objects made so far, which one the top window has, and which one each window
    uses. A window is given by whether it may read the top window. *)
Record site := Site { si_objects : list loader; si_top : option nat; si_windows : list (Z * nat) }.

Section Windows.
Context (E : env) (G : globals) (old_browser : bool) (x : x_config) (b_debug : bool) (p : page).

Definition put_object (i : nat) (l : loader) (s : site) : site :=
  Site (<[i := l]> (si_objects s)) (si_top s) (si_windows s).

(** The branch taken when the top window cannot be read, or a monitor throws. *)
Definition own_object (wid : Z) (s : site) : site :=
  Site (si_objects s ++ [_init_more E old_browser p (new_loader x b_debug)]) (si_top s)
    (si_windows s ++ [(wid, length (si_objects s))]).

Definition Xrkmonitor (wid : Z) (reads_top : bool) (s : site) : site :=
  if negb reads_top then own_object wid s
  else
    match si_top s with
    | None =>
        let i := length (si_objects s) in
        Site (si_objects s ++ [_init_start E old_browser p (new_loader x b_debug)]) (Some i)
          (si_windows s ++ [(wid, i)])
    | Some i =>
        match si_objects s !! i with
        | None => s
        | Some l =>
            let '(l, ok) := plugins_add_monitor G wid (load_more l) in
            let s := put_object i l s in
            if ok then Site (si_objects s) (si_top s) (si_windows s ++ [(wid, i)])
            else own_object wid s
        end
    end.
End Windows.

Example uri_ex :
  rExtractUri (u "at f (http://h:80/a/b.js:10:5)") = Some (u "http://h:80/a/b.js") /\
  rExtractUri (u "@file:///c/x.js:3") = Some (u "file:///c/x.js") /\
  rExtractUri (u "no address") = None.
Proof. vm_compute. repeat split. Qed.
