(* ===== verification/LoaderProps.v ===== *)
(** * Properties of the loader: plugins are registered once and only when both their
    files fit, windows share one object, the address found is the script's *)

From Stdlib Require Import ZArith QArith Lia.
From stdpp Require Import base tactics list numbers strings.
From S2P Require Import Prelude JsValue Report Loader.
Local Open Scope Z_scope.

(** ** Plugins *)

Record event := Event { ev_env : env; ev_script : nat; ev_state : jstr; ev_window : Z }.

Definition handle (G : globals) (old : bool) (l : loader) (e : event) : loader :=
  script_event (ev_env e) G old (ev_script e) (ev_state e) (ev_window e) l.

Definition wanted (l : loader) : list jstr := List.filter (fun n => negb (bool_decide (n = []))) (xc_plugins_ary (ld_config l)).
Definition registered (l : loader) : list plugin := plugins (bf (ld_st l)).

(** The plugins that a script still to come can register. *)
Definition pending (names : list jstr) (sc : script) : list jstr :=
  if sc_armed sc then match sc_cb sc with CbJson => names | CbConfig n => [n] | CbPlugin n _ => [n] end else [].

Definition outlook (l : loader) : list jstr :=
  map pl_name (registered l) ++ flat_map (pending (wanted l)) (ld_scripts l).

(** A registered plugin, and a script that registers one, have a configuration with the
    plugin's name; a registered plugin's monitor has it too. *)
Definition fits (G : globals) (n : jstr) : Prop := exists c, g_config G n = Some (Some c) /\ pf_name c = n.
Definition sound (G : globals) (l : loader) : Prop :=
  Forall (fun p => fits G (pl_name p) /\ g_monitor G (pl_name p) = Some (Some (pl_name p))) (registered l) /\
  Forall (fun sc => match sc_cb sc with CbPlugin n _ => fits G n | _ => True end) (ld_scripts l).

Lemma load_plugins old l names :
  let l' := fold_left (fun l name => match name with [] => l | _ => _load_plugin old name l end) names l in
  exists scs, ld_scripts l' = ld_scripts l ++ scs /\ ld_st l' = ld_st l /\ ld_config l' = ld_config l /\
    flat_map (pending (wanted l)) scs = List.filter (fun n => negb (bool_decide (n = []))) names /\
    Forall (fun sc => exists n, sc_cb sc = CbConfig n) scs.
Proof.
  cbv zeta. revert l. induction names as [|n names IH]; intros l.
  { exists []. cbn. rewrite app_nil_r. repeat split. constructor. }
  cbn [fold_left List.filter]. destruct n as [|c n].
  { destruct (IH l) as (scs & H1 & H2 & H3 & H4 & H5). by exists scs. }
  destruct (IH (_load_plugin old (c :: n) l)) as (scs & H1 & H2 & H3 & H4 & H5).
  exists (Script (sibling l ((c :: n) ++ u "_conf.js")) (CbConfig (c :: n)) old true :: scs).
  rewrite H1, H2, H3. cbn [_load_plugin load_script ld_scripts ld_st ld_config].
  split; [by rewrite <- app_assoc|]. split; [done|]. split; [done|]. split.
  - cbn [flat_map]. rewrite bool_decide_false by done. cbn. f_equal. exact H4.
  - constructor; [by eexists|done].
Qed.

Lemma add_plugins_facts E G old l : sound G l ->
  let l' := start_try_timer E (_add_plugins old l) in
  sound G l' /\ wanted l' = wanted l /\ outlook l' = outlook l ++ wanted l.
Proof.
  intros [S1 S2]. cbv zeta. unfold _add_plugins.
  destruct (load_plugins old l (xc_plugins_ary (ld_config l))) as (scs & H1 & H2 & H3 & H4 & H5).
  set (l1 := fold_left _ _ l) in *.
  assert (Hr : registered (start_try_timer E l1) = registered l) by (unfold registered; cbn; by rewrite H2).
  assert (Hs : ld_scripts (start_try_timer E l1) = ld_scripts l ++ scs) by exact H1.
  assert (Hw : wanted (start_try_timer E l1) = wanted l) by (unfold wanted; cbn; by rewrite H3).
  split; [|split; [exact Hw|]].
  - split; [by rewrite Hr|]. rewrite Hs. apply Forall_app. split; [done|].
    eapply Forall_impl; [exact H5|]. intros sc [n E']. by rewrite E'.
  - unfold outlook. rewrite Hr, Hs, Hw, flat_map_app, H4, <- app_assoc. done.
Qed.

Lemma flat_map_insert {A} (f : script -> list A) i a b l : l !! i = Some a -> f b = [] ->
  flat_map f l ≡ₚ f a ++ flat_map f (<[i := b]> l).
Proof.
  revert i. induction l as [|x l IH]; intros [|i] Hi Hb; try done; cbn.
  - injection Hi as ->. by rewrite Hb.
  - rewrite (IH i Hi Hb) at 1. rewrite !app_assoc. apply Permutation_app_tail, Permutation_app_comm.
Qed.

Lemma set_config_plugins c s : plugins (bf (_try_set_config c s)) = plugins (bf s).
Proof.
  unfold _try_set_config. destruct (pc_report_url c); [destruct (set_report_url _)|];
    (destruct (pc_cloud_user c); [|done]); (destruct (pc_cloud_key c); [|done]); by destruct (num_eqb _ _).
Qed.

(** One event: what can still be registered only shrinks. *)
Lemma event_step G old l e : sound G l ->
  let l' := handle G old l e in sound G l' /\ wanted l' = wanted l /\ outlook l' ⊆+ outlook l.
Proof.
  intros HS. cbv zeta. unfold handle, script_event.
  destruct (ld_scripts l !! ev_script e) as [sc|] eqn:Ei; [|done].
  destruct (sc_armed sc) eqn:Ea; [|done]. cbn [andb].
  destruct (negb (sc_ready_state sc) || ready (ev_state e)); [|done].
  set (off := Script (sc_url sc) (sc_cb sc) (sc_ready_state sc) false).
  set (l1 := Loader _ _ _ _ _).
  assert (HS1 : sound G l1).
  { destruct HS as [S1 S2]. split; [done|]. apply Forall_insert; [done|].
    rewrite Forall_forall in S2. apply (S2 sc). by eapply list_elem_of_lookup_2. }
  assert (Ho : outlook l ≡ₚ pending (wanted l) sc ++ outlook l1).
  { unfold outlook. change (registered l1) with (registered l). change (wanted l1) with (wanted l).
    cbn [ld_scripts l1]. rewrite (flat_map_insert (pending (wanted l)) _ sc off) by done.
    rewrite !app_assoc. apply Permutation_app_tail, Permutation_app_comm. }
  assert (Hrest : outlook l1 ⊆+ outlook l) by (rewrite Ho; apply submseteq_inserts_l; done).
  assert (Hp : pending (wanted l) sc = match sc_cb sc with CbJson => wanted l | CbConfig n => [n] | CbPlugin n _ => [n] end)
    by (unfold pending; by rewrite Ea).
  rewrite Hp in Ho. destruct (sc_cb sc) as [|n|n c] eqn:Ec; cbn [run_callback].
  - destruct (json_ok (ev_env e)); [|done].
    destruct (add_plugins_facts (ev_env e) G old l1 HS1) as (H1 & H2 & H3).
    split; [exact H1|]. split; [exact H2|]. rewrite H3, Ho. change (wanted l1) with (wanted l).
    by rewrite Permutation_app_comm.
  - unfold on_config. destruct (g_config G n) as [[c|]|] eqn:Eg; [|done|done].
    destruct (js_eqb (pf_name c) n) eqn:En; [|done]. apply bool_decide_eq_true in En.
    split; [|split; [done|]].
    + destruct HS1 as [S1 S2]. split; [done|]. cbn [load_script ld_scripts]. apply Forall_app. split; [done|].
      constructor; [|done]. by exists c.
    + unfold outlook at 1. cbn [load_script ld_scripts]. rewrite flat_map_app, app_assoc.
      change (registered (load_script _ _ _ _)) with (registered l1).
      change (wanted (load_script _ _ _ _)) with (wanted l1). fold (outlook l1).
      rewrite Ho. cbn. by rewrite Permutation_app_comm.
  - unfold on_plugin. destruct (g_monitor G n) as [[m|]|] eqn:Eg; [|done|done].
    destruct (js_eqb m n) eqn:En; [|done]. apply bool_decide_eq_true in En. subst m.
    assert (Hr : registered (with_st (fun s => add_plugin n (pf_logconfig_id c) (Window (ev_window e) false)
                   (_try_set_config (pf_settings c) s)) l1)
                 = registered l1 ++ [Plugin n (pf_logconfig_id c) [Window (ev_window e) false] [] 0]).
    { unfold registered. cbn. by rewrite set_config_plugins. }
    assert (Hfit : fits G n).
    { destruct HS as [_ S2]. rewrite Forall_forall in S2.
      specialize (S2 sc ltac:(by eapply list_elem_of_lookup_2)). by rewrite Ec in S2. }
    split; [|split; [done|]].
    + destruct HS1 as [S1 S2]. split; [|done]. rewrite Hr. apply Forall_app. split; [done|].
      by repeat constructor.
    + unfold outlook at 1. rewrite Hr, map_app, Ho. cbn [map pl_name].
      rewrite (Permutation_app_comm (map pl_name (registered l1)) [n]), <- app_assoc. done.
Qed.

Lemma events_step G old es : forall l, sound G l ->
  let l' := fold_left (handle G old) es l in
  sound G l' /\ wanted l' = wanted l /\ outlook l' ⊆+ outlook l.
Proof.
  induction es as [|e es IH]; intros l HS; [done|]. cbn [fold_left].
  destruct (event_step G old l e HS) as (H1 & H2 & H3). destruct (IH _ H1) as (H4 & H5 & H6).
  split; [done|]. split; [by rewrite H5|]. by transitivity (outlook (handle G old l e)).
Qed.

Lemma init_outlook E G old p x b : let l := _init E old p (new_loader x b) in
  sound G l /\ wanted l = wanted (new_loader x b) /\ outlook l ⊆+ wanted (new_loader x b).
Proof.
  cbv zeta. unfold _init. set (url := get_cur_js_url _ _ _). set (l0 := Loader _ _ _ _ _).
  assert (HS : sound G l0) by (split; constructor).
  destruct url; [by repeat split; try done; apply submseteq_nil_l|].
  set (l1 := with_st _ l0). assert (HS1 : sound G l1) by (split; constructor).
  assert (Ho : outlook l1 = []) by done. destruct (json_ok E).
  - destruct (add_plugins_facts E G old l1 HS1) as (H1 & H2 & H3). rewrite Ho in H3.
    split; [done|]. split; [exact H2|]. by rewrite H3.
  - split; [split; [constructor|]|]. { by repeat constructor. } split; [done|].
    unfold outlook. cbn. by rewrite app_nil_r.
Qed.

(** C38. Whatever the scripts' events, their order and the browser: a plugin is registered at
    most as often as the configuration names it, and only when both its configuration
    and its monitor carry its name. *)
Theorem plugins_registered_once E G old p x b es :
  let l := fold_left (handle G old) es (_init E old p (new_loader x b)) in
  map pl_name (registered l) ⊆+ List.filter (fun n => negb (bool_decide (n = []))) (xc_plugins_ary x) /\
  Forall (fun pl => fits G (pl_name pl) /\ g_monitor G (pl_name pl) = Some (Some (pl_name pl))) (registered l).
Proof.
  cbv zeta. destruct (init_outlook E G old p x b) as (H1 & H2 & H3).
  destruct (events_step G old es _ H1) as ([H4 _] & H5 & H6). split; [|exact H4].
  assert (Hin : forall l, map pl_name (registered l) ⊆+ outlook l)
    by (intros l; unfold outlook; apply submseteq_inserts_r; done).
  etrans; [apply Hin|]. by etrans; [exact H6|].
Qed.

(** ** The script's address *)

(** The address found is empty or names the script. *)
Theorem address_names_script p name :
  let url := get_cur_js_url p None name in url = [] \/ contains url name = true.
Proof.
  cbv zeta. unfold get_cur_js_url. set (search := match find _ _ with Some s => s | None => [] end).
  assert (Hs : search = [] \/ contains search name = true).
  { subst search. destruct (find _ _) as [s|] eqn:Ef; [right|by left]. by apply find_some in Ef as [_ Ef]. }
  assert (Hc : forall url, match url with [] => search | _ => if contains url name then url else search end = [] \/
                contains (match url with [] => search | _ => if contains url name then url else search end) name = true).
  { intros [|c url]; [done|]. destruct (contains (c :: url) name) eqn:Ec; [by right|done]. }
  destruct (pg_current p) as [src|[|c stack]]; [apply Hc|exact Hs|].
  destruct (rExtractUri _); [apply Hc|by left].
Qed.

(** ** Windows *)

Section Share.
Context (E : env) (G : globals) (old : bool) (x : x_config) (b : bool) (p : page).

Definition open_window (s : site) (wid : Z) : site := Xrkmonitor E G old x b p wid true s.

(** Monitors can be made for every plugin there is. *)
Definition monitors_ok : Prop := forall n, exists m, g_monitor G n = Some (Some m).

Lemma add_monitors_ok wid l : monitors_ok ->
  snd (add_monitors G wid l) = true /\
  fst (add_monitors G wid l) = map (fun p => Plugin (pl_name p) (pl_logconfig_id p)
    (pl_windows p ++ [Window wid false]) (pl_logs p) (pl_cur_logs_strlen p)) l.
Proof.
  intros H. induction l as [|q l [IH1 IH2]]; [done|]. cbn [add_monitors map].
  destruct (H (pl_name q)) as [m ->].
  destruct (add_monitors G wid l) as [l' ok]. cbn in *. by rewrite IH2.
Qed.

Lemma open_shared s wid l rest : monitors_ok -> si_top s = Some 0%nat -> si_objects s = l :: rest ->
  exists l', open_window s wid = Site (l' :: rest) (Some 0%nat) (si_windows s ++ [(wid, 0%nat)]) /\
    ld_load_more l' = ld_load_more l + 1 /\
    registered l' = map (fun p => Plugin (pl_name p) (pl_logconfig_id p)
      (pl_windows p ++ [Window wid false]) (pl_logs p) (pl_cur_logs_strlen p)) (registered l).
Proof.
  intros Hm Ht Ho. unfold open_window, Xrkmonitor. cbn [negb]. rewrite Ht, Ho. cbn [lookup list_lookup].
  unfold plugins_add_monitor. destruct (add_monitors_ok wid (plugins (bf (ld_st (load_more l)))) Hm) as [H1 H2].
  destruct (add_monitors _ _ _) as [ps ok]. cbn in H1, H2. subst ok ps.
  eexists. unfold put_object. rewrite Ho, Ht. cbn [insert list_insert si_objects si_top si_windows].
  split; [reflexivity|]. split; reflexivity.
Qed.
End Share.

(** The first window of a page makes the object of the top window. *)
Lemma first_window E G old x b p w0 :
  open_window E G old x b p (Site [] None []) w0
  = Site [_init_start E old p (new_loader x b)] (Some 0%nat) [(w0, 0%nat)].
Proof. reflexivity. Qed.

(** All later windows that can read the top window share that object, however far it
    has loaded: no other is made, it counts the windows that joined, and each plugin
    registered by then monitors all of them, in order, after those it had. *)
Theorem windows_share_one E G old x b p ws : monitors_ok G ->
  forall l pre,
  let s := fold_left (open_window E G old x b p) ws (Site [l] (Some 0%nat) pre) in
  exists l', si_objects s = [l'] /\ si_top s = Some 0%nat /\
    si_windows s = pre ++ map (fun w => (w, 0%nat)) ws /\
    ld_load_more l' = ld_load_more l + Z.of_nat (length ws) /\
    map (fun q => map w_id (pl_windows q)) (registered l')
    = map (fun q => map w_id (pl_windows q) ++ ws) (registered l).
Proof.
  intros Hm. induction ws as [|w ws IH]; intros l pre.
  - exists l. cbn. rewrite app_nil_r. repeat split; [lia|]. apply map_ext. intros q. by rewrite app_nil_r.
  - cbn [fold_left].
    destruct (open_shared E G old x b p (Site [l] (Some 0%nat) pre) w l []) as (l1 & -> & H1 & H2); [done..|].
    destruct (IH l1 (pre ++ [(w, 0%nat)])) as (l' & E1 & E2 & E3 & H3 & H4). exists l'. cbn [si_windows].
    split; [done|]. split; [done|]. split; [by rewrite E3, <- app_assoc|].
    split; [rewrite H3, H1; cbn [length]; lia|].
    rewrite H4, H2, map_map. apply map_ext. intros q. cbn. by rewrite map_app, <- app_assoc.
Qed.

Definition sample_globals : globals :=
  Globals (fun n => Some (Some (PluginConf n (PluginConfig None None None) (PNum (of_Z 3))))) (fun n => Some (Some n)).
Definition sample_page : page := Page (inl (u "http://h/js/dmt_xrkmonitor.js")) [].

(** The object of window 11 after the two files of its plugin arrived, in an old
    browser, the configuration first. *)
Definition loaded : loader :=
  fold_left (handle sample_globals true)
    [Event (env0 1001) 0 (u "loading") 11; Event (env0 1002) 0 (u "loaded") 11;
     Event (env0 1003) 0 (u "complete") 11; Event (env0 1004) 1 (u "complete") 11]
    (_init (env0 1000) true sample_page (new_loader Xrkmonitor_config false)).

Lemma windows_share_one_witness :
  monitors_ok sample_globals /\
  let s := fold_left (open_window (env0 2000) sample_globals true Xrkmonitor_config false sample_page) [12; 13]
             (Site [loaded] (Some 0%nat) [(11, 0%nat)]) in
  exists l', si_objects s = [l'] /\ si_top s = Some 0%nat /\
    si_windows s = [(11, 0%nat); (12, 0%nat); (13, 0%nat)] /\ ld_load_more l' = 2 /\
    map (fun q => map w_id (pl_windows q)) (registered l') = [[11; 12; 13]].
Proof.
  assert (H : monitors_ok sample_globals) by (intros n; by exists n).
  split; [exact H|].
  apply (windows_share_one (env0 2000) sample_globals true Xrkmonitor_config false sample_page [12; 13] H
    loaded [(11, 0%nat)]).
Defined.

Example plugin_arrives :
  map sc_url (ld_scripts loaded) = [u "http://h/js/monitor_website_conf.js"; u "http://h/js/monitor_website.js"] /\
  map pl_name (registered loaded) = [u "monitor_website"].
Proof. vm_compute. split; reflexivity. Qed.
