(* ===== verification/CommFormat.v ===== *)
(** * [html/resource/js/dmt.comm.js]: the functions that turn values into text and
    back

    Amounts and times are integers or exact rationals; a function whose argument
    may have any type takes a [prim]. *)

From Stdlib Require Import ZArith QArith Qround Lia.
From stdpp Require Import base tactics list numbers strings.
From S2P Require Import Prelude JsValue JsDate Base64.
Local Open Scope Z_scope.

(** [Math.round(x)] and [Math.trunc(x)]. *)
Definition math_round (x : Q) : Z := Qfloor (x + (1 # 2)).
Definition math_trunc (x : Q) : Z := Z.quot (Qnum x) (Zpos (Qden x)).

(** ** Durations *)

(** [has_trunc]: the browser has [Math.trunc]; without it the code rounds. *)
Definition dmtMathtrunc (has_trunc : bool) (d : Q) : Z :=
  if has_trunc then math_trunc d else math_round d.

Definition dmtGetHumanTime (has_trunc : bool) (val : Z) : jstr :=
  let quotient (k : positive) := Z_to_str (dmtMathtrunc has_trunc (val # k)) in
  let '(h, val) := if 86400 <=? val
    then (Z_to_str (dmtMathtrunc has_trunc (val # 86400)) ++ u "天 ", Z.rem val 86400) else ([], val) in
  let '(h, val) := if 3600 <=? val
    then (h ++ Z_to_str (dmtMathtrunc has_trunc (val # 3600)) ++ u "小时 ", Z.rem val 3600) else (h, val) in
  let '(h, val) := if 60 <=? val
    then (h ++ Z_to_str (dmtMathtrunc has_trunc (val # 60)) ++ u "分钟 ", Z.rem val 60) else (h, val) in
  if 1 <=? val then h ++ Z_to_str (dmtMathtrunc has_trunc (val # 1)) ++ u "秒 " else h.

Definition dmtShowHumanStaticTime (t : Z) : jstr :=
  match t with
  | 1 => u "1分钟"
  | 5 => u "1分钟"
  | 10 => u "5分钟"
  | 15 => u "15分钟"
  | 30 => u "30分钟"
  | 60 => u "1小时"
  | 120 => u "2小时"
  | 180 => u "3小时"
  | _ => u "unknow"
  end.

(** ** Amounts *)

(** [Math.round(parseFloat(f)*100)/100], as the number of hundredths. *)
Definition hundredths (f : Q) : Z := math_round (f * (100 # 1)).
Definition hundredths_str (f : Q) : jstr := num_to_str (fin (hundredths f # 100)).

(** The value itself below 1024, otherwise a text with its unit. *)
Definition dmtShowChangeValue (value : Q) : prim :=
  if Qle_bool (1073741824 # 1) value then PStr (hundredths_str (value / (1073741824 # 1)) ++ u "G")
  else if Qle_bool (1048576 # 1) value then PStr (hundredths_str (value / (1048576 # 1)) ++ u "M")
  else if Qle_bool (1024 # 1) value then PStr (hundredths_str (value / (1024 # 1)) ++ u "K")
  else PNum (fin value).

(** [f.toFixed(2)] of a non-negative [f]: two digits after the point. *)
Definition to_fixed2 (f : Q) : jstr :=
  let n := math_round (f * (100 # 1)) in
  Z_to_str (n / 100) ++ u "." ++ pad_left 2 48 (Z_to_str (n mod 100)).

(** The label formatter of the value axis. *)
Definition axis_label (value : Q) : prim :=
  if Qle_bool (1073741824 # 1) value then PStr (to_fixed2 (value / (1073741824 # 1)) ++ u "G")
  else if Qle_bool (1048576 # 1) value then PStr (to_fixed2 (value / (1048576 # 1)) ++ u "M")
  else if Qle_bool (1024 # 1) value then PStr (to_fixed2 (value / (1024 # 1)) ++ u "K")
  else PNum (fin value).

(** An undefined amount gives the empty text. *)
Definition dmtGetHumanReadDigitByKB (val : option Q) : jstr :=
  match val with
  | None => []
  | Some v =>
      if Qle_bool (1048576 # 1) v then hundredths_str (v / (1048576 # 1)) ++ u " GB"
      else if Qle_bool (1024 # 1) v then hundredths_str (v / (1024 # 1)) ++ u " MB"
      else num_to_str (fin v) ++ u " KB"
  end.

(** ** Strings *)

Definition dmtGetBytesLength (str : jstr) : Z :=
  fold_left (fun total charCode =>
    total + (if charCode <=? 127 then 1
             else if charCode <=? 2047 then 2
             else if charCode <=? 65535 then 3
             else 4)) str 0.

(** The replacements in their order; the pattern [\\x0A] of the source matches the
    four units of a backslash escape. *)
Definition encode_html_rules : list (jstr * jstr) :=
  [(u "&#39;", u "'"); (u "&#160;", u " "); (u "&#92;", u "\"); (u ">", u "&gt;");
   (u "<", u "&lt;"); (u "_r_n", u "<br>"); (u "\x0A", u "<br>"); (u "\x2F", u "/");
   (u "\x3B", u ";"); (u "\x22", [34]); (u "\x3C", u "<"); (u "\x26", u "&");
   (u "\x27", u "'"); (u "\x5C", u "\"); (u "\x3E", u ">")].

Definition dmtEncodeHTML (str : jstr) : jstr :=
  match str with
  | [] => []
  | _ => fold_left (fun s r => replace_all (fst r) (snd r) s) encode_html_rules str
  end.

(** ** Dates *)

(** [dmtGetDateStr(d, bTime)]; [off t] is the zone's [getTimezoneOffset()] at the
    time value [t], [now] the current time. The month test of the source compares
    the month counted from 0 with 9. *)
Definition dmtGetDateStr (off : Z -> Z) (now d : Z) (bTime : bool) : jstr :=
  let dt := d + off now * 60 * 1000 in
  let f := local_fields (off dt) dt in
  let day :=
    if bTime then []
    else Z_to_str (f_year f)
         ++ (if f_month f <? 9 then u "-0" ++ Z_to_str (f_month f + 1) else u "-" ++ Z_to_str (f_month f + 1))
         ++ (if f_date f <? 10 then u "-0" ++ Z_to_str (f_date f) else u "-" ++ Z_to_str (f_date f)) in
  day
  ++ (if f_hours f <? 10 then u " 0" ++ Z_to_str (f_hours f) else u " " ++ Z_to_str (f_hours f))
  ++ (if f_minutes f <? 10 then u ":0" ++ Z_to_str (f_minutes f) else u ":" ++ Z_to_str (f_minutes f)).

(** The result of a function that may throw a TypeError. *)
Inductive js_result (A : Type) := Returned (a : A) | TypeError.
Arguments Returned {A} _.
Arguments TypeError {A}.

(** [temp[i] - 0] *)
Definition part_num (l : list jstr) (i : nat) : num :=
  match l !! i with Some s => str_to_num s | None => NaN end.

(** The integer parts of date components, when all of them are finite. *)
Fixpoint int_parts (l : list num) : option (list Z) :=
  match l with
  | [] => Some []
  | Fin q :: l' => cons (math_trunc q) <$> int_parts l'
  | _ => None
  end.

(** [new Date(y, m, d, h, mm, s) - 0] in a zone of constant offset [off]: years 0
    to 99 count from 1900, and a time beyond 8.64e15 is NaN. *)
Definition date_value (off : Z) (l : list num) : num :=
  match int_parts l with
  | Some [y; m; d; h; mi; s] =>
      let y := if (0 <=? y) && (y <=? 99) then 1900 + y else y in
      let t := make_local off y m d h mi s in
      if Z.abs t <=? 8640000000000000 then of_Z t else NaN
  | _ => NaN
  end.

Definition num_div1000 (n : num) : num := match n with Fin q => fin (q / (1000 # 1)) | n => n end.

(** [dmtGetTimeStamp(tstr)]: seconds; a text without a space has no second part to
    split, which throws. *)
Definition dmtGetTimeStamp (off : Z) (tstr : option jstr) : js_result num :=
  match tstr with
  | None | Some [] => Returned (of_Z 0)
  | Some t =>
      let tmp := split_on 32 t in
      let temp := split_on 45 (match tmp !! 0%nat with Some a => a | None => [] end) in
      match tmp !! 1%nat with
      | None => TypeError
      | Some clock =>
          let temp2 := split_on 58 clock in
          Returned (num_div1000 (date_value off
            [part_num temp 0; num_sub (part_num temp 1) (of_Z 1); part_num temp 2;
             part_num temp2 0; part_num temp2 1; part_num temp2 2]))
      end
  end.

(** ** Server types *)

Definition dmtGetServerTypeName (type_id : Z) : jstr :=
  match type_id with
  | 1 => u "日志服务器"
  | 2 => u "监控点服务器"
  | 3 => u "mysql 监控点服务器"
  | 4 => u "中心服务器"
  | 11 => u "web 服务器"
  | _ => u "未知类型"
  end.

Definition q34 : jstr := [34].

Definition dmtGetSyssetTypeHtml (shtmlid : jstr) : jstr :=
  u "<label>服务器类型：</label>"
  ++ u "<select name=" ++ q34
  ++ shtmlid ++ q34 ++ u " id=" ++ q34
  ++ shtmlid ++ q34 ++ u ">" ++ q34 ++ u " "
  ++ u "<option value=" ++ q34 ++ u "0" ++ q34 ++ u ">请选择</option>"
  ++ u "<option value=" ++ q34 ++ u "1" ++ q34 ++ u ">日志服务器</option>"
  ++ u "<option value=" ++ q34 ++ u "2" ++ q34 ++ u ">监控点服务器</option>"
  ++ u "<option value=" ++ q34 ++ u "3" ++ q34 ++ u ">mysql 监控点服务器</option>"
  ++ u "<option value=" ++ q34 ++ u "4" ++ q34 ++ u ">中心服务器</option>"
  ++ u "<option value=" ++ q34 ++ u "11" ++ q34 ++ u ">web 服务器</option>"
  ++ u "</select>".

Example human_ex : dmtGetHumanTime true 90061 = u "1天 1小时 1分钟 1秒 ".
Proof. vm_compute. reflexivity. Qed.
Example change_ex : dmtShowChangeValue (1536 # 1) = PStr (u "1.5K") /\
  dmtShowChangeValue (3221225472 # 1) = PStr (u "3G") /\ dmtShowChangeValue (7 # 1) = PNum (of_Z 7).
Proof. vm_compute. auto. Qed.
Example axis_ex : axis_label (1536 # 1) = PStr (u "1.50K").
Proof. vm_compute. reflexivity. Qed.
Example date_ex : dmtGetDateStr (fun _ => -480) 0 1577934245000 false = u "2020-01-02 03:04".
Proof. vm_compute. reflexivity. Qed.
Example stamp_ex :
  dmtGetTimeStamp (-480) (Some (u "2020-01-02 11:04:05")) = Returned (of_Z 1577934245) /\
  dmtGetTimeStamp 0 (Some (u "2020-01-02")) = TypeError.
Proof. vm_compute. auto. Qed.

(** * Properties of the text functions of [html/resource/js/dmt.comm.js]: durations,
    lengths in bytes, the HTML escaping, dates printed and read back. *)

(** ** Durations *)

Definition part (n : Z) (unit_name : jstr) : jstr :=
  if n =? 0 then [] else Z_to_str n ++ unit_name.

Lemma trunc_div n (k : positive) : 0 <= n -> dmtMathtrunc true (n # k) = n / Zpos k.
Proof. intros H. unfold dmtMathtrunc, math_trunc. cbn. by apply Z.quot_div_nonneg. Qed.

(** One line of the function: the quotient is printed unless it is 0, and the
    remainder goes on. *)
Lemma human_step acc n (k : positive) q r name : n = q * Zpos k + r -> 0 <= q -> 0 <= r < Zpos k ->
  (if Zpos k <=? n then (acc ++ Z_to_str (dmtMathtrunc true (n # k)) ++ name, Z.rem n (Zpos k))
   else (acc, n)) = (acc ++ part q name, r).
Proof.
  intros -> Hq Hr. unfold part. destruct (Zpos k <=? q * Zpos k + r) eqn:E.
  - rewrite trunc_div, Z.rem_mod_nonneg by nia.
    rewrite Z.div_add_l, Z.div_small, Z.add_0_r by lia.
    rewrite Z.add_comm, Z.mod_add, Z.mod_small by lia.
    rewrite (proj2 (Z.eqb_neq q 0)) by nia. done.
  - assert (q = 0) as -> by nia. cbn. by rewrite app_nil_r.
Qed.

Lemma human_last acc s name : 0 <= s ->
  (if 1 <=? s then acc ++ Z_to_str (dmtMathtrunc true (s # 1)) ++ name else acc) = acc ++ part s name.
Proof.
  intros Hs. unfold part. destruct (1 <=? s) eqn:E.
  - by rewrite trunc_div, Z.div_1_r, (proj2 (Z.eqb_neq s 0)) by lia.
  - assert (s = 0) as -> by lia. cbn. by rewrite app_nil_r.
Qed.

(** With [Math.trunc], a duration of [d] days, [h] hours, [m] minutes and [s]
    seconds is the text of its parts that are not 0. *)
Theorem human_time_parts d h m s :
  0 <= d -> 0 <= h < 24 -> 0 <= m < 60 -> 0 <= s < 60 ->
  dmtGetHumanTime true (d * 86400 + h * 3600 + m * 60 + s)
  = part d (u "天 ") ++ part h (u "小时 ") ++ part m (u "分钟 ") ++ part s (u "秒 ").
Proof.
  intros Hd Hh Hm Hs. unfold dmtGetHumanTime.
  pose proof (human_step [] (d * 86400 + h * 3600 + m * 60 + s) 86400 d (h * 3600 + m * 60 + s)
    (u "天 ") ltac:(lia) Hd ltac:(lia)) as E.
  cbn [app] in E. cbv zeta. rewrite E; clear E.
  rewrite (human_step _ _ 3600 h (m * 60 + s)) by lia.
  rewrite (human_step _ _ 60 m s) by lia.
  rewrite human_last by lia. by rewrite <- !app_assoc.
Qed.

Lemma human_time_parts_witness :
  (0 <= 1 /\ 0 <= 0 < 24) /\ dmtGetHumanTime true (1 * 86400 + 0 * 3600 + 2 * 60 + 5) = u "1天 2分钟 5秒 ".
Proof.
  split; [lia|]. rewrite (human_time_parts 1 0 2 5) by lia. vm_compute. reflexivity.
Defined.

(** Without [Math.trunc] the replacement rounds: a day and a half is given as two
    days and twelve hours. *)
Theorem human_time_rounds :
  dmtGetHumanTime false 129600 = u "2天 12小时 " /\ dmtGetHumanTime true 129600 = u "1天 12小时 ".
Proof. vm_compute. split; reflexivity. Qed.

(** ** Lengths *)

(** The length in bytes is that of the UTF-8 encoder of the Base64 code, where no
    line ends are normalised: surrogates count three bytes each. *)
Theorem bytes_length_utf8 s : units s ->
  dmtGetBytesLength s = js_length (flat_map Utf8.encode_unit s).
Proof.
  intros H. unfold dmtGetBytesLength, js_length.
  enough (forall acc, fold_left (fun total charCode => total + (if charCode <=? 127 then 1
             else if charCode <=? 2047 then 2 else if charCode <=? 65535 then 3 else 4)) s acc
          = acc + Z.of_nat (length (flat_map Utf8.encode_unit s))) as E by apply E.
  induction H as [|c s Hc Hs IH]; intros acc; cbn [fold_left flat_map]; [cbn; lia|].
  rewrite IH, length_app. unfold Utf8.encode_unit.
  destruct (c <=? 127) eqn:E1; [|destruct (c <=? 2047) eqn:E2].
  - rewrite (proj2 (Z.ltb_lt c 128)) by lia. cbn. lia.
  - rewrite (proj2 (Z.ltb_ge c 128)) by lia.
    replace ((127 <? c) && (c <? 2048)) with true by (symmetry; apply andb_true_iff; lia). cbn. lia.
  - rewrite (proj2 (Z.ltb_ge c 128)) by lia.
    replace ((127 <? c) && (c <? 2048)) with false by (symmetry; apply andb_false_iff; lia).
    rewrite (proj2 (Z.leb_le c 65535)) by lia. cbn. lia.
Qed.

Lemma bytes_length_utf8_witness :
  units (u "a天é") /\ dmtGetBytesLength (u "a天é") = js_length (flat_map Utf8.encode_unit (u "a天é")).
Proof.
  assert (H : units (u "a天é")) by (by apply is_unit_units).
  split; [exact H|exact (bytes_length_utf8 _ H)].
Defined.

(** ** Dates *)

Definition pad0 (n : Z) : jstr := if n <? 10 then 48 :: Z_to_str n else Z_to_str n.

Lemma pad0_digits n : 0 <= n -> Forall is_digit (pad0 n).
Proof.
  intros H. destruct (Z_to_str_nonneg_shape n H) as [Hd _]. unfold pad0.
  destruct (n <? 10); [constructor; [unfold is_digit; lia|]|]; done.
Qed.

Lemma pad0_value n : 0 <= n -> str_to_num (pad0 n) = of_Z n.
Proof.
  intros H. unfold pad0. destruct (n <? 10) eqn:E; [|by apply str_to_num_Z_to_str].
  assert (Hin : n ∈ map Z.of_nat (List.seq 0 10))
    by (apply list_elem_of_In, in_map_iff; exists (Z.to_nat n); rewrite in_seq; lia).
  cbn in Hin. repeat (apply elem_of_cons in Hin as [->|Hin]; [reflexivity|]). by apply elem_of_nil in Hin.
Qed.

Lemma digits_not c s : (c < 48 \/ 57 < c) -> Forall is_digit s -> Forall (fun d => d <> c) s.
Proof. intros Hc Hs. eapply Forall_impl; [exact Hs|]. unfold is_digit. intros d Hd. lia. Qed.

(** The text "yyyy-MM-dd HH:mm:ss" of six numbers. *)
Definition stamp_text (y mo d h mi s : Z) : jstr :=
  Z_to_str y ++ 45 :: pad0 mo ++ 45 :: pad0 d ++ 32 :: pad0 h ++ 58 :: pad0 mi ++ 58 :: pad0 s.

Lemma stamp_text_parts y mo d h mi s :
  0 <= y -> 0 <= mo -> 0 <= d -> 0 <= h -> 0 <= mi -> 0 <= s ->
  split_on 32 (stamp_text y mo d h mi s)
  = [Z_to_str y ++ 45 :: pad0 mo ++ 45 :: pad0 d; pad0 h ++ 58 :: pad0 mi ++ 58 :: pad0 s] /\
  split_on 45 (Z_to_str y ++ 45 :: pad0 mo ++ 45 :: pad0 d) = [Z_to_str y; pad0 mo; pad0 d] /\
  split_on 58 (pad0 h ++ 58 :: pad0 mi ++ 58 :: pad0 s) = [pad0 h; pad0 mi; pad0 s].
Proof.
  intros Hy Hmo Hd Hh Hmi Hs. destruct (Z_to_str_nonneg_shape y Hy) as [Dy _].
  pose proof (pad0_digits mo Hmo) as Dmo. pose proof (pad0_digits d Hd) as Dd.
  pose proof (pad0_digits h Hh) as Dh. pose proof (pad0_digits mi Hmi) as Dmi.
  pose proof (pad0_digits s Hs) as Ds.
  assert (N : forall c a, (c < 48 \/ 57 < c) -> Forall is_digit a -> Forall (fun d => d <> c) a)
    by apply digits_not.
  split; [|split].
  - unfold stamp_text.
    replace (Z_to_str y ++ 45 :: pad0 mo ++ 45 :: pad0 d ++ 32 :: _)
      with ((Z_to_str y ++ 45 :: pad0 mo ++ 45 :: pad0 d) ++ 32 :: pad0 h ++ 58 :: pad0 mi ++ 58 :: pad0 s)
      by (rewrite <- !app_assoc; cbn; by rewrite <- !app_assoc).
    rewrite split_on_cons, split_on_none; [done|..];
      repeat (apply Forall_app; split; [apply N; [lia|done]|constructor; [lia|]]); apply N; done || lia.
  - rewrite !split_on_cons, split_on_none by (apply N; [lia|done]). done.
  - rewrite !split_on_cons, split_on_none by (apply N; [lia|done]). done.
Qed.

Lemma num_div1000_mult k : num_div1000 (of_Z (k * 1000)) = of_Z k.
Proof.
  unfold num_div1000, of_Z. rewrite <- (Qred_int k). apply fin_proper.
  unfold Qeq, Qdiv, Qmult, Qinv. cbn. lia.
Qed.

Lemma num_sub_of_Z a b : num_sub (of_Z a) (of_Z b) = of_Z (a - b).
Proof.
  unfold num_sub. change (num_neg (of_Z b)) with (fin (- b # 1)).
  unfold fin. rewrite Qred_int. apply of_Z_add.
Qed.

(** Six numbers printed are read back as the local time they name. *)
Lemma time_stamp_of_text off y mo d h mi s :
  100 <= y -> 1 <= mo <= 12 -> 0 <= d -> 0 <= h -> 0 <= mi -> 0 <= s ->
  let t := make_local off y (mo - 1) d h mi s in
  Z.abs t <= 8640000000000000 ->
  dmtGetTimeStamp off (Some (stamp_text y mo d h mi s)) = Returned (num_div1000 (of_Z t)).
Proof.
  intros Hy Hmo Hd Hh Hmi Hs t Ht.
  destruct (stamp_text_parts y mo d h mi s) as (E1 & E2 & E3); try lia.
  assert (Hne : exists c r, stamp_text y mo d h mi s = c :: r).
  { destruct (stamp_text y mo d h mi s) eqn:E; [discriminate E1|by eexists _, _]. }
  destruct Hne as (c & r & Hc). unfold dmtGetTimeStamp. rewrite Hc, <- Hc, E1.
  cbn [lookup list_lookup]. rewrite E2, E3. unfold part_num. cbn [lookup list_lookup].
  rewrite str_to_num_Z_to_str, !pad0_value, num_sub_of_Z by lia.
  unfold date_value. cbn [int_parts of_Z math_trunc Qnum Qden fmap option_fmap option_map].
  unfold math_trunc. cbn [Qnum Qden]. rewrite !Z.quot_1_r.
  replace ((0 <=? y) && (y <=? 99)) with false by (symmetry; apply andb_false_iff; lia).
  fold t. by rewrite (proj2 (Z.leb_le (Z.abs t) 8640000000000000)) by lia.
Qed.

Lemma pad0_if c n : (if n <? 10 then [c; 48] ++ Z_to_str n else [c] ++ Z_to_str n) = c :: pad0 n.
Proof. unfold pad0. by destruct (n <? 10). Qed.

Lemma pad0_if_month n :
  (if n <? 9 then [45; 48] ++ Z_to_str (n + 1) else [45] ++ Z_to_str (n + 1)) = 45 :: pad0 (n + 1).
Proof.
  unfold pad0. destruct (n <? 9) eqn:E.
  - by rewrite (proj2 (Z.ltb_lt (n + 1) 10)) by lia.
  - by rewrite (proj2 (Z.ltb_ge (n + 1) 10)) by lia.
Qed.

Lemma date_str_text off now d : let f := utc_fields d in
  dmtGetDateStr (fun _ => off) now d false ++ u ":00"
  = stamp_text (f_year f) (f_month f + 1) (f_date f) (f_hours f) (f_minutes f) 0.
Proof.
  unfold dmtGetDateStr, local_fields. replace (d + off * 60 * 1000 - off * 60000) with d by lia.
  cbv zeta. generalize (utc_fields d). intros f.
  change (u "-0") with [45; 48]. change (u "-") with [45]. change (u " 0") with [32; 48].
  change (u " ") with [32]. change (u ":0") with [58; 48]. change (u ":") with [58].
  rewrite pad0_if_month, !pad0_if. unfold stamp_text. rewrite <- !app_assoc. done.
Qed.

(** A time printed for a chart is in UTC, whatever the zone; completed with seconds
    and read back by [dmtGetTimeStamp], it is the start of its minute, shifted by the
    zone's offset. *)
Theorem date_str_reads_back off now d :
  0 <= d < 253402300800000 -> Z.abs off <= 900 ->
  dmtGetTimeStamp off (Some (dmtGetDateStr (fun _ => off) now d false ++ u ":00"))
  = Returned (of_Z (d / 60000 * 60 + off * 60)).
Proof.
  intros Hd Ho. rewrite date_str_text. pose proof (utc_ranges d) as Hr. cbv zeta in *.
  pose proof (make_local_utc off d) as Hm. cbv zeta in Hm.
  assert (Hs : d - d mod 1000 - f_seconds (utc_fields d) * 1000 = d / 60000 * 60000).
  { unfold utc_fields. destruct (civil_from_days _) as [[y m] dd]. cbn. unfold ms_per_day.
    clear. Z.div_mod_to_equations; lia. }
  revert Hr Hm Hs. generalize (utc_fields d). intros f (H1 & H2 & H3 & H4 & H5 & H6) Hm Hs.
  assert (Ht : make_local off (f_year f) (f_month f) (f_date f) (f_hours f) (f_minutes f) 0
               = (d / 60000 * 60 + off * 60) * 1000) by (unfold make_local in *; lia).
  rewrite time_stamp_of_text; rewrite ?Z.add_simpl_r, ?Ht; try lia.
  - by rewrite num_div1000_mult.
  - Z.div_mod_to_equations; lia.
Qed.

Lemma date_str_reads_back_witness :
  (0 <= 1577934245000 < 253402300800000 /\ Z.abs (-480) <= 900) /\
  dmtGetTimeStamp (-480) (Some (dmtGetDateStr (fun _ => -480) 0 1577934245000 false ++ u ":00"))
  = Returned (of_Z 1577905440).
Proof.
  split; [lia|]. rewrite (date_str_reads_back (-480) 0 1577934245000) by lia. reflexivity.
Defined.

(** ** Escaping *)

Definition html_unit (c : Z) : jstr :=
  if c =? 62 then u "&gt;" else if c =? 60 then u "&lt;" else [c].

Definition plain_unit (c : Z) : bool := negb (c =? 38) && negb (c =? 92) && negb (c =? 95).

Lemma replace_single c r s :
  replace_from [c] r s 0 = flat_map (fun d => if c =? d then r else [d]) s.
Proof.
  induction s as [|d s IH]; [done|]. cbn [replace_from prefix_b flat_map length Nat.sub].
  rewrite andb_true_r. destruct (c =? d); [|cbn]; by rewrite IH.
Qed.

Lemma no_unit c (s : jstr) (s' : Z -> jstr) : Forall (fun d => d <> c) s ->
  (forall d, d <> c -> Forall (fun d => d <> c) (s' d)) -> Forall (fun d => d <> c) (flat_map s' s).
Proof. intros H Hs. induction H; cbn; [constructor|]. apply Forall_app. auto. Qed.

(** A text without ampersands, backslashes and underscores has its angle brackets
    replaced by entities and is otherwise unchanged. *)
Theorem encode_html_plain s : forallb plain_unit s = true ->
  dmtEncodeHTML s = flat_map html_unit s.
Proof.
  intros H.
  assert (Hn : Forall (fun d => d <> 38) s /\ Forall (fun d => d <> 92) s /\ Forall (fun d => d <> 95) s).
  { rewrite !Forall_forall. rewrite forallb_forall in H. unfold plain_unit in H.
    repeat split; intros d Hd E; apply list_elem_of_In, H in Hd; subst d; discriminate. }
  destruct Hn as (N38 & N92 & N95).
  assert (E : dmtEncodeHTML s = fold_left (fun s r => replace_all (fst r) (snd r) s) encode_html_rules s)
    by (by destruct s). rewrite E. unfold encode_html_rules, replace_all. cbn [fold_left fst snd].
  change (u "&#39;") with (38 :: u "#39;"). change (u "&#160;") with (38 :: u "#160;").
  change (u "&#92;") with (38 :: u "#92;"). rewrite 3!(replace_from_absent 38 _ _ s) by done.
  change (u ">") with [62]. change (u "<") with [60]. rewrite !(replace_single _ _ s).
  set (s1 := flat_map (fun d => if 62 =? d then u "&gt;" else [d]) s). rewrite (replace_single 60 (u "&lt;") s1).
  set (s2 := flat_map (fun d => if 60 =? d then u "&lt;" else [d]) s1).
  assert (Hs2 : s2 = flat_map html_unit s).
  { subst s2 s1. clear. induction s as [|c s IH]; [done|]. cbn [flat_map]. rewrite flat_map_app, IH.
    f_equal. unfold html_unit. rewrite (Z.eqb_sym 62), (Z.eqb_sym c 60).
    destruct (c =? 62); [done|]. cbn. rewrite app_nil_r. done. }
  assert (P : forall c, (c = 92 \/ c = 95) -> Forall (fun d => d <> c) s2).
  { intros c Hc. rewrite Hs2. apply no_unit; [destruct Hc; by subst c|].
    intros d Hd. unfold html_unit. destruct (d =? 62); [|destruct (d =? 60)];
      repeat constructor; cbn; destruct Hc; subst c; lia. }
  rewrite <- Hs2. clearbody s2. clear -P.
  assert (P92 := P 92 ltac:(by left)). assert (P95 := P 95 ltac:(by right)).
  change (u "_r_n") with (95 :: u "r_n"). rewrite (replace_from_absent 95 _ _ s2) by done.
  change (u "\x0A") with (92 :: u "x0A"). change (u "\x2F") with (92 :: u "x2F").
  change (u "\x3B") with (92 :: u "x3B"). change (u "\x22") with (92 :: u "x22").
  change (u "\x3C") with (92 :: u "x3C"). change (u "\x26") with (92 :: u "x26").
  change (u "\x27") with (92 :: u "x27"). change (u "\x5C") with (92 :: u "x5C").
  change (u "\x3E") with (92 :: u "x3E").
  by rewrite !(replace_from_absent 92 _ _ s2) by done.
Qed.

Lemma encode_html_plain_witness :
  forallb plain_unit (u "a<b>c") = true /\ dmtEncodeHTML (u "a<b>c") = u "a&lt;b&gt;c".
Proof.
  assert (H : forallb plain_unit (u "a<b>c") = true) by reflexivity.
  split; [exact H|]. rewrite (encode_html_plain _ H). reflexivity.
Defined.

(** The backslash escapes are decoded after the angle brackets were replaced, so a
    text can come out with a live tag. *)
Theorem encode_html_reopens_tags :
  dmtEncodeHTML (u "\x3Cscript\x3Ealert(1)") = u "<script>alert(1)".
Proof. vm_compute. reflexivity. Qed.
