(* ===== verification/CommSeries.v ===== *)
(** * [html/resource/js/dmt.comm.js]: the time axes and the data series of the
    charts

    Monitor values arrive as one text per day range: the values of the statistics
    periods, separated by commas, a dash where nothing was reported. *)

From Stdlib Require Import ZArith QArith Lia Sorted.
From stdpp Require Import base tactics list numbers strings.
From S2P Require Import Prelude JsValue.
Local Open Scope Z_scope.

(** A monitor point as the server describes it. *)
Record attr_info := AttrInfo {
  ai_id : Z; ai_name : jstr; ai_data_type : Z;
  ai_static_time : Z;       (* minutes of one statistics period *)
  ai_static_idx_max : Z;    (* periods of one day *)
  ai_show_class : jstr; ai_attr_type : Z; ai_global : Z
}.

(** The descriptions have no property [length]. *)
Definition ai_length (a : attr_info) : prim := PUndef.

Definition dmtGetXAxisTimeInfo (dateStart count_day : Z) (a : attr_info) : list Z :=
  map (fun i => dateStart + i * ai_static_time a * 60 * 1000)
      (seqZ 0 (ai_static_idx_max a * count_day)).

Definition dmtGetXAxisDayTimeInfo (dateStart count_day : Z) : list Z :=
  map (fun i => dateStart + i * 24 * 60 * 60 * 1000) (seqZ 0 count_day).

(** [s != "-" && !isNaN(s)] *)
Definition numeric (s : jstr) : bool := negb (js_eqb s (u "-")) && negb (is_NaN (str_to_num s)).

(** ** Growth per day *)

(** The first numeric value, counting from [t]; without one, the index after the
    last. *)
Fixpoint first_numeric (l : list jstr) (t : Z) : Z * option num :=
  match l with
  | [] => (t, None)
  | s :: l' => if numeric s then (t, Some (str_to_num s)) else first_numeric l' (t + 1)
  end.

(** At most [n] values downwards from index [k]; an index out of range ends the
    search. *)
Fixpoint scan_down (n : nat) (k : Z) (d : list jstr) : option num :=
  match n with
  | O => None
  | S n' =>
      if (0 <=? k) && (k <? Z.of_nat (length d)) then
        match d !! Z.to_nat k with
        | Some s => if numeric s then Some (str_to_num s) else scan_down n' (k - 1) d
        | None => None
        end
      else None
  end.

(** The last reading of day [iDays], as the middle loop looks for it. *)
Definition day_reading (idx_max iDays : Z) (d : list jstr) : option num :=
  scan_down (Z.to_nat idx_max) ((iDays + 1) * idx_max - 1) d.

Definition or_else (o : option num) (n : num) : num := match o with Some v => v | None => n end.
Definition zero : num := of_Z 0.

(** One turn of the middle loop on (last_idx_val, last_pre_val, data_start); also
    the increment of the day. *)
Definition day_step (reading : option num) (st : num * num * bool) : num * (num * num * bool) :=
  let '(_, last_pre_val, data_start) := st in
  let last_idx_val := or_else reading last_pre_val in
  if negb (num_eqb last_idx_val zero) && negb (num_eqb last_idx_val last_pre_val) then
    if negb data_start && num_eqb last_pre_val zero
    then (zero, (last_idx_val, last_idx_val, true))
    else (num_sub last_idx_val last_pre_val, (last_idx_val, last_idx_val, data_start))
  else (zero, (last_idx_val, last_pre_val, data_start)).

Fixpoint middle_days (days : list Z) (iDays idx_max : Z) (d : list jstr) (st : num * num * bool)
    : list (Z * num) * (num * num * bool) :=
  match days with
  | [] => ([], st)
  | day :: days' =>
      let '(iAdd, st) := day_step (day_reading idx_max iDays d) st in
      let '(l, st) := middle_days days' (iDays + 1) idx_max d st in
      ((day, iAdd) :: l, st)
  end.

(** The increment of the last day. *)
Definition last_day (iDaysLast : Z) (a : attr_info) (cur : num) (d : list jstr)
    (st : num * num * bool) : num :=
  let '(last_idx_val, last_pre_val, data_start) := st in
  let start := iDaysLast * ai_static_idx_max a in
  let t := ai_data_type a in
  if ((t =? 2) || (t =? 4) || (t =? 5) || (t =? 8)) && negb (num_eqb cur zero)
     && num_ltb (of_Z start) (to_number (ai_length a))
  then if num_eqb last_pre_val cur then zero else num_sub cur last_pre_val
  else if start <=? Z.of_nat (length d) then
    let last_idx_val :=
      or_else (scan_down (Z.to_nat (Z.of_nat (length d) - start)) (Z.of_nat (length d) - 1) d) last_idx_val in
    if negb (num_eqb last_idx_val zero) && negb (num_eqb last_idx_val last_pre_val)
       && (data_start || negb (num_eqb last_pre_val zero))
    then num_sub last_idx_val last_pre_val else zero
  else zero.

(** The first reading of the first day and the last one after it. *)
Definition first_day (idx_max : Z) (d : list jstr) : num * num :=
  let '(t, f) := first_numeric (take (Z.to_nat idx_max) d) 0 in
  let first_idx_val := or_else f zero in
  (first_idx_val, or_else (scan_down (Z.to_nat (idx_max - 1 - t)) (idx_max - 1) d) first_idx_val).

Definition dmtGetYAxisDayAddData (day_time_info : list Z) (a : attr_info) (dstr : jstr) (cur : num)
    : list (Z * num) :=
  let d := split_on 44 dstr in
  let idx_max := ai_static_idx_max a in
  match day_time_info with
  | [] => []
  | day0 :: rest =>
      let '(first_idx_val, last_idx_val) := first_day idx_max d in
      let head := (day0, num_sub last_idx_val first_idx_val) in
      match rest with
      | [] => [head]
      | day1 :: rest' =>
          let '(l, st) := middle_days (removelast rest) 1 idx_max d (last_idx_val, last_idx_val, false) in
          head :: l ++ [(List.last rest day0, last_day (Z.of_nat (length rest)) a cur d st)]
      end
  end.

(** ** The points of a curve *)

Fixpoint points_from (j : nat) (time_info : list Z) (l : list jstr) : list (option Z * jstr) :=
  match l with
  | [] => []
  | s :: l' =>
      if numeric s then (time_info !! j, s) :: points_from (S j) time_info l'
      else points_from (S j) time_info l'
  end.

Definition dmtGetYAxisData (time_info : list Z) (dstr : jstr) : list (option Z * jstr) :=
  points_from 0 time_info (split_on 44 dstr).

Definition sample_attr (data_type idx_max : Z) : attr_info :=
  AttrInfo 7 (u "n") data_type 480 idx_max (u "comm") 1 0.

Example series_ex :
  dmtGetYAxisData (dmtGetXAxisTimeInfo 0 1 (sample_attr 1 3)) (u "5,-,7")
  = [(Some 0, u "5"); (Some 57600000, u "7")].
Proof. vm_compute. reflexivity. Qed.

Example growth_ex :
  dmtGetYAxisDayAddData (dmtGetXAxisDayTimeInfo 0 4) (sample_attr 1 2) (u "5,8,-,10,11,-,12,15") zero
  = [(0, of_Z 3); (86400000, of_Z 2); (172800000, of_Z 1); (259200000, of_Z 4)].
Proof. vm_compute. reflexivity. Qed.

(** * Properties of the chart series: the growth per day adds up, every day gets its
    value, and the points of a curve are the numeric entries at their times *)

(** ** Growth per day *)

(** The reading that counts after a day: a missing reading or 0 keeps the last one. *)
Definition carry (pre : num) (r : option num) : num :=
  match r with Some v => if num_eqb v zero then pre else v | None => pre end.

(** The reading of the last day. *)
Definition last_reading (idx_max iDays : Z) (d : list jstr) : option num :=
  let start := iDays * idx_max in
  if start <=? Z.of_nat (length d)
  then scan_down (Z.to_nat (Z.of_nat (length d) - start)) (Z.of_nat (length d) - 1) d else None.

(** The last reading that counts in a text that spans [n + 1] days. *)
Definition final_reading (n : nat) (idx_max : Z) (d : list jstr) : num :=
  fold_left carry (map (fun i => day_reading idx_max i d) (seqZ 1 (Z.of_nat n - 1)) ++
                   [last_reading idx_max (Z.of_nat n) d]) (snd (first_day idx_max d)).

Definition num_sum : list num -> num := foldr num_add zero.

Definition int_num (v : num) : Prop := exists z, v = of_Z z.
Definition int_text (s : jstr) : Prop := numeric s = true -> int_num (str_to_num s).
Definition int_reading (r : option num) : Prop := match r with Some v => int_num v | None => True end.

Lemma num_sub_ints a b : num_sub (of_Z a) (of_Z b) = of_Z (a - b).
Proof.
  unfold num_sub. change (num_neg (of_Z b)) with (fin (- b # 1)).
  unfold fin. rewrite Qred_int. apply of_Z_add.
Qed.

Lemma first_numeric_int l : Forall int_text l -> forall t, int_reading (snd (first_numeric l t)).
Proof.
  induction 1 as [|s l Hs Hl IH]; intros t; [done|]. cbn.
  destruct (numeric s) eqn:E; [by apply Hs|apply IH].
Qed.

Lemma scan_down_int d : Forall int_text d -> forall n k, int_reading (scan_down n k d).
Proof.
  intros Hd n. induction n as [|n IH]; intros k; [done|]. cbn. destruct (_ && _); [|done].
  destruct (d !! Z.to_nat k) as [s|] eqn:E; [|done].
  destruct (numeric s) eqn:En; [|apply IH]. rewrite Forall_forall in Hd.
  exact (Hd s (list_elem_of_lookup_2 _ _ _ E) En).
Qed.

Lemma first_day_int idx_max d : Forall int_text d ->
  int_num (fst (first_day idx_max d)) /\ int_num (snd (first_day idx_max d)).
Proof.
  intros Hd. unfold first_day.
  pose proof (first_numeric_int _ (Forall_take _ (Z.to_nat idx_max) _ Hd) 0) as H.
  destruct (first_numeric _ 0) as [t f]. cbn in *.
  assert (Hf : int_num (or_else f zero)) by (destruct f; [done|by exists 0]).
  split; [done|]. pose proof (scan_down_int d Hd (Z.to_nat (idx_max - 1 - t)) (idx_max - 1)) as Hs.
  by destruct (scan_down _ _ d).
Qed.

(** Once a reading other than 0 is known, a day's increment is the difference of the
    readings that count before and after it. *)
Lemma day_step_carry r l p ds : int_reading r -> p <> 0 -> (l = p \/ l = 0) ->
  exists l' p', day_step r (of_Z l, of_Z p, ds) = (of_Z (p' - p), (of_Z l', of_Z p', ds)) /\
    carry (of_Z p) r = of_Z p' /\ p' <> 0 /\ (l' = p' \/ l' = 0).
Proof.
  intros Hr Hp Hl. unfold day_step, carry, zero.
  destruct r as [v|]; cbn [or_else].
  - destruct Hr as [z ->]. rewrite !num_eqb_of_Z, num_sub_ints.
    destruct (z =? 0) eqn:E; cbn [negb andb].
    + exists z, p. rewrite Z.sub_diag. repeat split; try done. right. lia.
    + rewrite (proj2 (Z.eqb_neq p 0)), andb_false_r by done.
      destruct (z =? p) eqn:E2; cbn [negb].
      * exists z, p. rewrite Z.sub_diag. repeat split; [|done|by left; lia].
        f_equal. lia.
      * exists z, z. repeat split; [lia|by left].
  - rewrite !num_eqb_of_Z, Z.eqb_refl, andb_false_r. exists p, p. rewrite Z.sub_diag.
    repeat split; [done|by left].
Qed.

Lemma middle_days_sum d idx_max : Forall int_text d ->
  forall days i l p ds, p <> 0 -> (l = p \/ l = 0) ->
  exists inc l' p', middle_days days i idx_max d (of_Z l, of_Z p, ds) = (inc, (of_Z l', of_Z p', ds)) /\
    num_sum (map snd inc) = of_Z (p' - p) /\ map fst inc = days /\
    fold_left carry (map (fun i => day_reading idx_max i d) (seqZ i (Z.of_nat (length days)))) (of_Z p) = of_Z p' /\
    p' <> 0 /\ (l' = p' \/ l' = 0).
Proof.
  intros Hd days. induction days as [|day days IH]; intros i l p ds Hp Hl.
  - exists [], l, p. cbn. rewrite Z.sub_diag. repeat split; done.
  - cbn [middle_days length].
    destruct (day_step_carry (day_reading idx_max i d) l p ds) as (l1 & p1 & -> & Hc & Hp1 & Hl1);
      [apply scan_down_int, Hd|done|done|].
    destruct (IH (i + 1) l1 p1 ds Hp1 Hl1) as (inc & l' & p' & -> & Hs & Hf & Hr & Hp' & Hl').
    eexists _, l', p'. split; [reflexivity|]. cbn [map fst snd num_sum foldr]. fold (num_sum (map snd inc)).
    rewrite Hs, of_Z_add, Hf. split; [f_equal; lia|]. split; [done|]. split; [|done].
    rewrite Nat2Z.inj_succ, seqZ_cons by lia. cbn [map fold_left]. rewrite Hc.
    replace (Z.pred (Z.succ (Z.of_nat (length days)))) with (Z.of_nat (length days)) by lia.
    exact Hr.
Qed.

Lemma last_day_carry d a n cur l p ds : Forall int_text d -> p <> 0 -> (l = p \/ l = 0) ->
  exists p', last_day n a cur d (of_Z l, of_Z p, ds) = of_Z (p' - p) /\
    carry (of_Z p) (last_reading (ai_static_idx_max a) n d) = of_Z p'.
Proof.
  intros Hd Hp Hl. unfold last_day, last_reading, carry, zero.
  change (num_ltb _ (to_number (ai_length a))) with false. rewrite andb_false_r.
  destruct (_ <=? Z.of_nat (length d)); [|exists p; by rewrite Z.sub_diag].
  pose proof (scan_down_int d Hd (Z.to_nat (Z.of_nat (length d) - n * ai_static_idx_max a))
    (Z.of_nat (length d) - 1)) as Hr.
  destruct (scan_down _ _ d) as [v|]; cbn [or_else].
  - destruct Hr as [z ->]. rewrite !num_eqb_of_Z, (proj2 (Z.eqb_neq p 0)), orb_true_r, andb_true_r, num_sub_ints by done.
    destruct (z =? 0) eqn:E; cbn [negb andb]; [exists p; by rewrite Z.sub_diag|].
    exists z. split; [|done]. destruct (z =? p) eqn:E2; cbn [negb]; [|done]. f_equal. lia.
  - exists p. split; [|done]. rewrite !num_eqb_of_Z, Z.sub_diag.
    destruct Hl as [->| ->]; [rewrite Z.eqb_refl, andb_false_r; done|reflexivity].
Qed.

Lemma num_sum_snoc l z : num_sum (l ++ [of_Z z]) = num_add (num_sum l) (of_Z z).
Proof.
  induction l as [|x l IH]; [apply num_add_comm|].
  change (num_sum ((x :: l) ++ [of_Z z])) with (num_add x (num_sum (l ++ [of_Z z]))).
  by rewrite IH, num_add_assoc.
Qed.

(** When the readings are integers and the first day ends with a reading other than
    0, the increments of all days add up to the last reading that counts minus the
    first one: growth is neither lost nor counted twice between days. *)
Theorem growth_telescopes day0 rest a dstr cur :
  let d := split_on 44 dstr in
  let first := first_day (ai_static_idx_max a) d in
  Forall int_text d -> rest <> [] -> snd first <> zero ->
  num_sum (map snd (dmtGetYAxisDayAddData (day0 :: rest) a dstr cur))
  = num_sub (final_reading (length rest) (ai_static_idx_max a) d) (fst first).
Proof.
  intros d first Hd Hne Hnz. destruct (first_day_int (ai_static_idx_max a) d Hd) as [[f Hf] [p Hp]].
  unfold dmtGetYAxisDayAddData. fold d. unfold first in *.
  destruct (first_day (ai_static_idx_max a) d) as [fv lv] eqn:E. cbn [fst snd] in *. subst fv lv.
  assert (p <> 0) by (intros ->; done).
  destruct (middle_days_sum d (ai_static_idx_max a) Hd (removelast rest) 1 p p false)
    as (inc & l' & p' & Hm & Hs & _ & Hr & Hp' & Hl'); [done|by left|].
  destruct (last_day_carry d a (Z.of_nat (length rest)) cur l' p' false Hd Hp' Hl') as (p2 & Hlast & Hc).
  unfold final_reading. rewrite E, fold_left_app. cbn [snd fold_left].
  assert (Hlen : Z.of_nat (length rest) - 1 = Z.of_nat (length (removelast rest))).
  { rewrite (app_removelast_last day0 Hne) at 1. rewrite length_app. cbn. lia. }
  rewrite Hlen, Hr, Hc, num_sub_ints. destruct rest as [|day1 rest]; [done|].
  rewrite Hm. cbn [map snd]. rewrite map_app. cbn [map snd num_sum foldr].
  rewrite Hlast, num_sub_ints.
  change (num_add (of_Z (p - f)) (num_sum (map snd inc ++ [of_Z (p2 - p')])) = of_Z (p2 - f)).
  rewrite num_sum_snoc, Hs, !of_Z_add. f_equal. lia.
Qed.

Lemma growth_telescopes_witness :
  let dstr := u "5,8,-,10,11,-,12,15" in
  (Forall int_text (split_on 44 dstr) /\ snd (first_day 2 (split_on 44 dstr)) <> zero) /\
  num_sum (map snd (dmtGetYAxisDayAddData [0; 1; 2; 3] (sample_attr 1 2) dstr zero)) = of_Z 10.
Proof.
  intros dstr.
  assert (H1 : Forall int_text (split_on 44 dstr)).
  { repeat (constructor; [intros Hn; first [by eexists (5)|eexists; vm_compute; reflexivity|discriminate Hn]|]).
    constructor. }
  assert (H2 : snd (first_day 2 (split_on 44 dstr)) <> zero) by (vm_compute; discriminate).
  split; [by split|].
  rewrite (growth_telescopes 0 [1; 2; 3] (sample_attr 1 2) dstr zero H1); [reflexivity|discriminate|exact H2].
Defined.

Lemma middle_days_dates d idx_max days : forall i st, map fst (fst (middle_days days i idx_max d st)) = days.
Proof.
  induction days as [|day days IH]; intros i st; [done|]. cbn [middle_days].
  destruct (day_step _ st) as [inc st']. specialize (IH (i + 1) st').
  destruct (middle_days days _ _ _ _) as [l st'']. cbn in *. by rewrite IH.
Qed.

(** Every day of the axis gets exactly one value, in order, whatever was reported. *)
Theorem growth_per_day days a dstr cur : map fst (dmtGetYAxisDayAddData days a dstr cur) = days.
Proof.
  destruct days as [|day0 rest]; [done|]. unfold dmtGetYAxisDayAddData.
  destruct (first_day _ _) as [f l]. destruct rest as [|day1 rest]; [done|].
  pose proof (middle_days_dates (split_on 44 dstr) (ai_static_idx_max a) (removelast (day1 :: rest)) 1 (l, l, false)) as H.
  destruct (middle_days _ _ _ _ _) as [inc st]. cbn [fst] in H.
  cbn [map fst]. rewrite map_app, H. cbn [map fst]. f_equal.
  symmetry. by apply app_removelast_last.
Qed.

(** The value of the running period never counts: the branch that would use it
    compares a property [length] that the descriptions do not have. *)
Theorem growth_ignores_cur days a dstr cur cur' :
  dmtGetYAxisDayAddData days a dstr cur = dmtGetYAxisDayAddData days a dstr cur'.
Proof.
  assert (H : forall n d st, last_day n a cur d st = last_day n a cur' d st).
  { intros n d [[l p] ds]. unfold last_day.
    change (num_ltb _ (to_number (ai_length a))) with false. by rewrite !andb_false_r. }
  unfold dmtGetYAxisDayAddData. destruct days as [|day0 rest]; [done|].
  destruct (first_day _ _) as [f l]. destruct rest as [|day1 rest]; [done|].
  destruct (middle_days _ _ _ _ _) as [inc st]. by rewrite H.
Qed.

(** ** The points of a curve *)

Lemma points_from_spec ti ws : forall j t v,
  (t, v) ∈ points_from j ti ws <-> exists i, ws !! i = Some v /\ numeric v = true /\ t = ti !! (j + i)%nat.
Proof.
  induction ws as [|w ws IH]; intros j t v; cbn [points_from].
  { split; [by intros H%elem_of_nil|]. by intros (i & H & _). }
  assert (Hc : (exists i, (w :: ws) !! i = Some v /\ numeric v = true /\ t = ti !! (j + i)%nat) <->
    (w = v /\ numeric v = true /\ t = ti !! j) \/ (exists i, ws !! i = Some v /\ numeric v = true /\ t = ti !! (S j + i)%nat)).
  { split.
    - intros ([|i] & H & Hn & Ht); [left|right; exists i].
      + rewrite Nat.add_0_r in Ht. by injection H as ->.
      + by replace (S j + i)%nat with (j + S i)%nat by lia.
    - intros [(-> & Hn & Ht)|(i & H & Hn & Ht)]; [exists 0%nat|exists (S i)].
      + by rewrite Nat.add_0_r.
      + by replace (j + S i)%nat with (S j + i)%nat by lia. }
  rewrite Hc, <- IH. destruct (numeric w) eqn:E.
  - rewrite elem_of_cons. split; (intros [H|H]; [left|by right]).
    + injection H as -> ->. done.
    + by destruct H as (-> & _ & ->).
  - split; [by right|]. intros [(-> & Hn & _)|H]; [congruence|done].
Qed.

Definition earlier (p q : option Z * jstr) : Prop :=
  match fst p, fst q with Some a, Some b => a < b | _, _ => False end.

Lemma points_from_sorted ti ws : forall j,
  (length ws + j <= length ti)%nat -> StronglySorted Z.lt ti ->
  StronglySorted earlier (points_from j ti ws).
Proof.
  induction ws as [|w ws IH]; intros j Hl Hs; cbn [points_from]; [constructor|].
  cbn in Hl. assert (IH' := IH (S j) ltac:(lia) Hs). destruct (numeric w); [|done].
  constructor; [done|]. apply Forall_forall. intros [t v] Hin.
  apply points_from_spec in Hin as (i & Hi & _ & ->). apply lookup_lt_Some in Hi.
  unfold earlier. cbn [fst].
  destruct (lookup_lt_is_Some_2 ti j) as [a Ha]; [lia|].
  destruct (lookup_lt_is_Some_2 ti (S j + i)) as [b Hb]; [lia|].
  rewrite Ha, Hb. clear -Hs Ha Hb. revert j Ha Hb.
  induction Hs as [|x ti Hs IH Hx]; intros [|j] Ha Hb; try done.
  - injection Ha as ->. rewrite Forall_forall in Hx. apply Hx. by apply (list_elem_of_lookup_2 ti i).
  - by apply (IH j).
Qed.

Lemma axis_lookup start days a i : (Z.of_nat i < ai_static_idx_max a * days) ->
  dmtGetXAxisTimeInfo start days a !! i = Some (start + Z.of_nat i * ai_static_time a * 60 * 1000).
Proof.
  intros H. unfold dmtGetXAxisTimeInfo. rewrite list_lookup_fmap, lookup_seqZ_lt by lia. cbn. f_equal. 
Qed.

Lemma axis_sorted start days a : 0 < ai_static_time a -> StronglySorted Z.lt (dmtGetXAxisTimeInfo start days a).
Proof.
  intros H. unfold dmtGetXAxisTimeInfo, seqZ. rewrite map_map.
  generalize (Z.to_nat (ai_static_idx_max a * days)). intros n. generalize 0%nat as k.
  induction n as [|n IH]; intros k; cbn; [constructor|]. constructor; [apply IH|].
  apply Forall_forall. intros x Hx. apply list_elem_of_In, in_map_iff in Hx as (y & <- & Hy).
  apply in_seq in Hy. nia.
Qed.

(** The points of a curve are the numeric entries of the text, each at the time of its
    period, in the order of time. *)
Theorem curve_points start days a ws :
  ws <> [] -> Forall (Forall (fun c => c <> 44)) ws -> 0 < ai_static_time a ->
  Z.of_nat (length ws) <= ai_static_idx_max a * days ->
  let l := dmtGetYAxisData (dmtGetXAxisTimeInfo start days a) (join [44] ws) in
  StronglySorted earlier l /\
  forall t v, (t, v) ∈ l <-> exists i, ws !! i = Some v /\ numeric v = true /\
                t = Some (start + Z.of_nat i * ai_static_time a * 60 * 1000).
Proof.
  intros Hne Hws Hst Hlen l. unfold l, dmtGetYAxisData. rewrite split_on_join by done.
  split.
  - apply points_from_sorted; [|by apply axis_sorted].
    unfold dmtGetXAxisTimeInfo. rewrite length_map, length_seqZ. lia.
  - intros t v. rewrite points_from_spec. cbn [Nat.add].
    split; intros (i & H & Hn & ->); exists i; (split; [done|]; split; [done|]);
      [|symmetry]; apply axis_lookup; apply lookup_lt_Some in H; lia.
Qed.

Lemma curve_points_witness :
  let ws := [u "5"; u "-"; u "7"] in let a := sample_attr 1 3 in
  (ws <> [] /\ 0 < ai_static_time a) /\
  let l := dmtGetYAxisData (dmtGetXAxisTimeInfo 0 1 a) (join [44] ws) in
  StronglySorted earlier l /\
  forall t v, (t, v) ∈ l <-> exists i, ws !! i = Some v /\ numeric v = true /\
                t = Some (0 + Z.of_nat i * ai_static_time a * 60 * 1000).
Proof.
  intros ws a. split; [split; [discriminate|reflexivity]|].
  apply (curve_points 0 1 a ws); [discriminate| |reflexivity|vm_compute; discriminate].
  repeat (constructor; [repeat (constructor; [discriminate|]); constructor|]). constructor.
Defined.
