(* ===== verification/CommTree.v ===== *)
(** * [html/resource/js/dmt.comm.js]: the tree of attribute types, the lookup of
    monitor points and the menu of a view's or a machine's monitor points *)

From Stdlib Require Import ZArith QArith Lia.
From stdpp Require Import base tactics list numbers strings.
From S2P Require Import Prelude JsValue CommSeries.
Local Open Scope Z_scope.

(** ** Attribute types

    A type with [subcount] 0 comes without a list, which is then never read; here it
    has the empty one. *)
Inductive type_tree := TypeTree (type : prim) (name : prim) (subcount : Z) (sub : list type_tree).

Definition tt_type (t : type_tree) : prim := let '(TypeTree ty _ _ _) := t in ty.

Fixpoint dmtSetTypeTree (treeinfo : type_tree) : jstr :=
  let '(TypeTree type name subcount listsub) := treeinfo in
  let item := u "<li><a href='#' " ++ u "name=" ++ to_str type ++ u ">" ++ to_str name ++ u "</a>" in
  if subcount =? 0 then item ++ u "</li>"
  else
    item ++ u "<ul>"
    ++ (fix loop (i : Z) (l : list type_tree) : jstr :=
          match l with
          | [] => []
          | t :: l' => if i <? subcount then dmtSetTypeTree t ++ loop (i + 1) l' else []
          end) 0 listsub
    ++ u "</ul>" ++ u "</li>".

(** [None] is the string "null". *)
Fixpoint dmtGetTypeInfo (treeinfo : type_tree) (type : prim) : option type_tree :=
  let '(TypeTree ty _ subcount listsub) := treeinfo in
  if loose_eq ty type then Some treeinfo
  else
    (fix loop (i : Z) (l : list type_tree) : option type_tree :=
       match l with
       | [] => None
       | t :: l' =>
           if i <? subcount then
             match dmtGetTypeInfo t type with
             | Some info => Some info
             | None => loop (i + 1) l'
             end
           else None
       end) 0 listsub.

(** ** Monitor points *)

(** [attrinfo]: the points of a view or a machine. *)
Record attr_list := AttrList {
  al_view_id : prim; al_machine_id : prim; al_count : Z; al_list : list attr_info
}.

(** The points the loops visit. *)
Definition al_visited (l : attr_list) : list attr_info := take (Z.to_nat (al_count l)) (al_list l).

Definition dmtGetAttrInfo (attrinfo : attr_list) (attr_id : prim) : option attr_info :=
  find (fun a => loose_eq (PNum (of_Z (ai_id a))) attr_id) (al_visited attrinfo).

(** The effects of a jump, in their order. *)
Inductive jump_effect :=
  | Info (msg : jstr)
  | CallBack (attr_show_id : jstr)
  | ScrollTo (ctview : jstr) (off : Z).

(** What the page gives: whether the chart's container exists, and the offsets. *)
Record jump_env := JumpEnv { je_present : bool; je_scrollTop : Z; je_viewoff : Z; je_attroff : Z }.

(** A callback that is no function, or a function with the result of its call. *)
Inductive callback := NoFunction | Function (result : prim).

(** The second part of the id, as it is appended to a text. *)
Definition second_part (attr_show_id : jstr) : jstr :=
  match split_on 95 attr_show_id !! 1%nat with Some p => p | None => u "undefined" end.

Definition dmtJumpToAttrPic (e : jump_env) (attr_show_id ctview : jstr) (callBack : callback)
    : list jump_effect :=
  if negb (je_present e) then
    match callBack with
    | NoFunction => [Info (u "监控点:" ++ second_part attr_show_id ++ u " 无数据上报")]
    | Function r =>
        [CallBack attr_show_id;
         Info (u "监控点:" ++ second_part attr_show_id ++
               if loose_eq (PBool false) r then u " 无数据上报" else u " 上报数据获取中...")]
    end
  else [ScrollTo ctview (je_attroff e - je_viewoff e + je_scrollTop e)].

(** ** The menu of monitor points

    The objects carry a flag [pushed]; here each is paired with it. *)

(** One link; [tail] are the id of the owner and the kind of page. *)
Definition attr_link (jumpid : jstr) (type ctview clickCallBack : jstr) (a : attr_info) : jstr :=
  let attr_show_id := u "attr_" ++ Z_to_str (ai_id a) ++ u "_" ++ jumpid ++ type in
  u "<li>"
  ++ u "<a onclick=" ++ [34] ++ u "dmtJumpToAttrPic('" ++ attr_show_id ++ u "', '"
  ++ ctview ++ u "', " ++ clickCallBack ++ u ")" ++ [34] ++ u " href='#' ctid='" ++ attr_show_id ++ u "'>"
  ++ Z_to_str (ai_id a) ++ u "_" ++ ai_name a
  ++ (if ai_global a =? 1 then u "<font color='blue'>&nbsp;[全局]</font>" else [])
  ++ u "</a>" ++ u "</li>".

Section AttrMenu.
Context (ds_attr_type_list : Z -> option jstr) (link : attr_info -> jstr) (is_site : bool).

(** The inner loop over the points from the current one on: the text, the ids, and
    the points with their new flags. *)
Fixpoint group_loop (ty : Z) (l : list (attr_info * bool)) : jstr * list Z * list (attr_info * bool) :=
  match l with
  | [] => ([], [], [])
  | (a, pushed) :: l' =>
      let '(text, ids, l'') := group_loop ty l' in
      if pushed || negb (ai_attr_type a =? ty) then (text, ids, (a, pushed) :: l'')
      else (link a ++ text, ai_id a :: ids, (a, true) :: l'')
  end.

Definition group_head (ty : Z) : jstr :=
  if is_site then []
  else u "<ul>" ++ u "<li><a href='#'>"
       ++ (match ds_attr_type_list ty with Some n => n | None => u "undefined" end) ++ u "</a>".

(** The outer loop; [fuel] is the number of points left. *)
Fixpoint menu_loop (fuel : nat) (l : list (attr_info * bool)) : jstr * list Z :=
  match fuel, l with
  | S fuel, (a, pushed) :: l' =>
      if pushed then menu_loop fuel l'
      else
        let '(text, ids, l'') := group_loop (ai_attr_type a) l in
        let '(text', ids') := menu_loop fuel (tail l'') in
        (group_head (ai_attr_type a) ++ u "<ul>" ++ text ++ u "</ul>" ++ u "</li>" ++ u "</ul>" ++ text',
         ids ++ ids')
  | _, _ => ([], [])
  end.
End AttrMenu.

(** The menu and the new contents of [attr_list_arry]. *)
Definition dmtSetAttrList (attrinfo : attr_list) (ds_attr_type_list : Z -> option jstr) (type : jstr)
    (attr_list_arry : list Z) (clickCallBack : jstr) : jstr * list Z :=
  let '(head, ctview, jumpid) :=
    if js_eqb type (u "view") then
      (u "<a href='#'>视图【" ++ to_str (al_view_id attrinfo) ++ u "】已绑定的监控点列表",
       u "#ds_ct_attr_show_list_" ++ to_str (al_view_id attrinfo), to_str (al_view_id attrinfo))
    else
      (u "<a href='#'>机器【" ++ to_str (al_machine_id attrinfo) ++ u "】有上报的监控点列表",
       u "#dsm_ct_attr_show_list_" ++ to_str (al_machine_id attrinfo), to_str (al_machine_id attrinfo)) in
  let objects := map (fun a => (a, false)) (al_visited attrinfo) in
  let '(text, ids) :=
    menu_loop ds_attr_type_list (attr_link jumpid type ctview clickCallBack) (js_eqb type (u "site"))
      (length objects) objects in
  (u "<li>" ++ head ++ u "(共:" ++ Z_to_str (al_count attrinfo) ++ u "个)</a>" ++ text ++ u "</li>",
   attr_list_arry ++ ids).

Definition point (id ty : Z) : attr_info := AttrInfo id (u "p") 1 5 288 (u "comm") ty 0.

Example menu_ids :
  snd (dmtSetAttrList (AttrList (PNum (of_Z 1)) PUndef 4 [point 1 7; point 2 8; point 3 7; point 4 8; point 5 7])
    (fun _ => Some (u "t")) (u "view") [9] (u "f")) = [9; 1; 3; 2; 4].
Proof. vm_compute. reflexivity. Qed.

Example menu_text :
  fst (dmtSetAttrList (AttrList (PNum (of_Z 3)) PUndef 1 [AttrInfo 5 (u "cpu") 1 5 288 (u "comm") 2 1])
    (fun _ => Some (u "sys")) (u "view") [] (u "go"))
  = u "<li><a href='#'>视图【3】已绑定的监控点列表(共:1个)</a><ul><li><a href='#'>sys</a><ul><li><a onclick=" ++ [34]
    ++ u "dmtJumpToAttrPic('attr_5_3view', '#ds_ct_attr_show_list_3', go)" ++ [34]
    ++ u " href='#' ctid='attr_5_3view'>5_cpu<font color='blue'>&nbsp;[全局]</font></a></li></ul></li></ul></li>".
Proof. vm_compute. reflexivity. Qed.

Example tree_text :
  dmtSetTypeTree (TypeTree (PNum (of_Z 1)) (PStr (u "root")) 1 [TypeTree (PNum (of_Z 2)) (PStr (u "a")) 0 []])
  = u "<li><a href='#' name=1>root</a><ul><li><a href='#' name=2>a</a></li></ul></li>".
Proof. vm_compute. reflexivity. Qed.

(** * Properties of the attribute tree and the menu of monitor points *)

(** ** The type tree *)

Section TypeTreeInd.
Context (P : type_tree -> Prop) (H : forall ty name n sub, Forall P sub -> P (TypeTree ty name n sub)).
Fixpoint type_tree_ind' (t : type_tree) : P t :=
  match t with
  | TypeTree ty name n sub => H ty name n sub
      ((fix go l : Forall P l :=
          match l with [] => Forall_nil_2 _ | x :: l' => Forall_cons_2 _ _ _ (type_tree_ind' x) (go l') end) sub)
  end.
End TypeTreeInd.

(** The nodes in the order of the menu; a node's children beyond its count are not
    part of it. *)
Fixpoint preorder (t : type_tree) : list type_tree :=
  let '(TypeTree _ _ subcount sub) := t in
  t :: (fix loop (i : Z) (l : list type_tree) : list type_tree :=
          match l with
          | [] => []
          | c :: l' => if i <? subcount then preorder c ++ loop (i + 1) l' else []
          end) 0 sub.

Lemma find_app {A} (f : A -> bool) l1 l2 :
  find f (l1 ++ l2) = match find f l1 with Some x => Some x | None => find f l2 end.
Proof. induction l1 as [|x l IH]; [done|]. cbn. by destruct (f x). Qed.

(** The lookup finds the first node of that type in the order of the menu, wherever
    it is in the tree, and nothing when there is none. *)
Theorem type_lookup_first t type :
  dmtGetTypeInfo t type = find (fun n => loose_eq (tt_type n) type) (preorder t).
Proof.
  induction t as [ty name n sub IH] using type_tree_ind'. cbn [dmtGetTypeInfo preorder find tt_type].
  destruct (loose_eq ty type); [done|]. generalize 0. induction IH as [|c l Hc Hl IHl]; intros i; [done|].
  destruct (i <? n); [|done]. rewrite find_app, <- Hc, IHl. done.
Qed.

(** ** The menu of monitor points *)

(** The points not yet in the menu. *)
Definition waiting (l : list (attr_info * bool)) : list attr_info :=
  map fst (List.filter (fun p => negb (snd p)) l).

Definition same_type (ty : Z) (a : attr_info) : bool := ai_attr_type a =? ty.

Lemma group_loop_spec link ty l :
  let '(text, ids, l') := group_loop link ty l in
  let g := List.filter (same_type ty) (waiting l) in
  text = flat_map link g /\ ids = map ai_id g /\
  waiting l' = List.filter (fun a => negb (same_type ty a)) (waiting l) /\ length l' = length l.
Proof.
  induction l as [|[a pushed] l IH]; [done|]. cbn [group_loop].
  destruct (group_loop link ty l) as [[text ids] l'] eqn:E. cbv zeta in *.
  destruct IH as (-> & -> & IH & Hl).
  destruct pushed; cbn [orb].
  { cbn [length]. by rewrite Hl. }
  change (waiting ((a, false) :: l)) with (a :: waiting l).
  destruct (ai_attr_type a =? ty) eqn:Et; cbn [negb].
  - change (waiting ((a, true) :: l')) with (waiting l'). cbn [List.filter length flat_map map].
    unfold same_type in *. rewrite Et. cbn. by rewrite Hl, IH.
  - change (waiting ((a, false) :: l')) with (a :: waiting l'). cbn [List.filter length].
    unfold same_type in *. rewrite Et. cbn. by rewrite Hl, IH.
Qed.

(** The points in groups of one type, a group where its first point was. *)
Fixpoint by_type (fuel : nat) (l : list attr_info) : list (list attr_info) :=
  match fuel, l with
  | S fuel, a :: l' =>
      List.filter (same_type (ai_attr_type a)) l
      :: by_type fuel (List.filter (fun b => negb (same_type (ai_attr_type a) b)) l')
  | _, _ => []
  end.

Definition group_text (names : Z -> option jstr) (link : attr_info -> jstr) (is_site : bool)
    (g : list attr_info) : jstr :=
  match g with
  | [] => []
  | a :: _ => group_head names is_site (ai_attr_type a) ++ u "<ul>" ++ flat_map link g
              ++ u "</ul>" ++ u "</li>" ++ u "</ul>"
  end.

Lemma filter_length_le {A} (f : A -> bool) l : (length (List.filter f l) <= length l)%nat.
Proof. induction l as [|x l IH]; [done|]. cbn. destruct (f x); cbn; lia. Qed.

Lemma by_type_fuel f1 : forall f2 l, (length l <= f1)%nat -> (length l <= f2)%nat ->
  by_type f1 l = by_type f2 l.
Proof.
  induction f1 as [|f1 IH]; intros [|f2] l H1 H2; try (destruct l; cbn in *; [done|lia]).
  destruct l as [|a l]; [done|]. cbn [by_type]. f_equal.
  pose proof (filter_length_le (fun b => negb (same_type (ai_attr_type a) b)) l).
  cbn in *. apply IH; lia.
Qed.

Lemma waiting_length l : (length (waiting l) <= length l)%nat.
Proof. unfold waiting. rewrite length_map. apply filter_length_le. Qed.

Lemma menu_loop_spec names link is_site fuel : forall l, (length l <= fuel)%nat ->
  menu_loop names link is_site fuel l
  = (flat_map (group_text names link is_site) (by_type fuel (waiting l)),
     map ai_id (concat (by_type fuel (waiting l)))).
Proof.
  induction fuel as [|fuel IH]; intros [|[a pushed] l] Hl; try (cbn in Hl; lia); try done.
  cbn in Hl. cbn [menu_loop]. destruct pushed.
  - rewrite IH by lia. change (waiting ((a, true) :: l)) with (waiting l).
    pose proof (waiting_length l). rewrite (by_type_fuel fuel (S fuel)) by lia. done.
  - pose proof (group_loop_spec link (ai_attr_type a) ((a, false) :: l)) as H.
    destruct (group_loop link (ai_attr_type a) ((a, false) :: l)) as [[text ids] l''] eqn:E.
    destruct H as (-> & -> & Hw & Hlen).
    assert (Hhd : exists l3, l'' = (a, true) :: l3).
    { cbn [group_loop] in E. destruct (group_loop link _ l) as [[? ?] ?].
      cbn [orb] in E. rewrite Z.eqb_refl in E. injection E as _ _ <-. by eexists. }
    destruct Hhd as [l3 ->]. cbn [tail length] in *. rewrite IH by lia.
    change (waiting ((a, true) :: l3)) with (waiting l3) in Hw.
    change (waiting ((a, false) :: l)) with (a :: waiting l) in *.
    assert (Hs : same_type (ai_attr_type a) a = true) by apply Z.eqb_refl.
    cbn [List.filter] in Hw |- *. rewrite Hs in Hw |- *. cbn [negb] in Hw.
    cbn [by_type flat_map concat List.filter]. rewrite Hs, map_app, Hw. cbn [group_text].
    cbn [flat_map]. by rewrite <- !app_assoc.
Qed.

Lemma by_type_perm fuel : forall l, (length l <= fuel)%nat -> concat (by_type fuel l) ≡ₚ l.
Proof.
  induction fuel as [|fuel IH]; intros [|a l] Hl; try (cbn in Hl; lia); try done.
  cbn [by_type concat]. cbn in Hl.
  pose proof (filter_length_le (fun b => negb (same_type (ai_attr_type a) b)) l).
  rewrite IH by lia. cbn [List.filter]. unfold same_type at 1. rewrite Z.eqb_refl. cbn. f_equiv.
  generalize (same_type (ai_attr_type a)). intros f. clear. induction l as [|b l IH]; [done|].
  cbn. destruct (f b); cbn; [by rewrite IH|]. by rewrite <- Permutation_middle, IH.
Qed.

Definition not_pushed (l : list attr_info) : list (attr_info * bool) := map (fun a => (a, false)) l.
Lemma waiting_not_pushed l : waiting (not_pushed l) = l.
Proof.
  induction l as [|a l IH]; [done|].
  change (waiting (not_pushed (a :: l))) with (a :: waiting (not_pushed l)). by rewrite IH.
Qed.

(** The loop with its flags is the grouping by type: the text is the groups' texts,
    the ids those of the groups, a group at the place of its first point. *)
Theorem menu_loop_groups names link is_site (l : list attr_info) :
  menu_loop names link is_site (length l) (not_pushed l)
  = (flat_map (group_text names link is_site) (by_type (length l) l),
     map ai_id (concat (by_type (length l) l))).
Proof.
  rewrite menu_loop_spec by (unfold not_pushed; by rewrite length_map).
  by rewrite waiting_not_pushed.
Qed.

(** Every point of the list gets into [attr_list_arry], once, whatever the types. *)
Theorem menu_complete attrinfo names type arry callback :
  snd (dmtSetAttrList attrinfo names type arry callback) ≡ₚ arry ++ map ai_id (al_visited attrinfo).
Proof.
  unfold dmtSetAttrList. destruct (if js_eqb type (u "view") then _ else _) as [[head ctview] jumpid].
  fold (not_pushed (al_visited attrinfo)). unfold not_pushed at 1. rewrite length_map.
  rewrite menu_loop_spec by (unfold not_pushed; by rewrite length_map).
  rewrite waiting_not_pushed. cbn [snd]. by rewrite by_type_perm.
Qed.

(** A lookup by id finds a point of the list that has it, the first one. *)
Lemma attr_lookup_found l id a : dmtGetAttrInfo l id = Some a ->
  a ∈ al_visited l /\ loose_eq (PNum (of_Z (ai_id a))) id = true.
Proof.
  intros H. apply find_some in H as [H1 H2]. split; [by apply list_elem_of_In|done].
Qed.
