(* ===== verification/CommPage.v ===== *)
(** * [html/resource/js/dmt.comm.js]: answers of the server, the choice of the fastest
    web server, sizes of the page, full screen, small page actions

    What a function does to the page is the list of its effects, in their order. *)

From Stdlib Require Import ZArith QArith Lia.
From stdpp Require Import base tactics list numbers strings.
From S2P Require Import Prelude JsValue.
Local Open Scope Z_scope.

(** ** Answers of the server *)

(** [undefined]; null, the text "null" or a value without [ec]; an answer with [ec]. *)
Inductive ajax_result :=
  | NoResult
  | NoCode
  | Answer (ec : prim) (msg msgid redirect_url : prim).

Inductive page_effect :=
  | CloseDialog | CloseTab
  | OpenLocal (name title : jstr) (height width : Z)
  | Redirect (url : prim)
  | Warn (msg : jstr).

(** The page: whether a dialog is open, and the texts of [DWZ.msg]. *)
Record page_env := PageEnv { pe_dialog : bool; pe_msg : jstr -> jstr }.

Definition close_dialog (e : page_env) : list page_effect := if pe_dialog e then [CloseDialog] else [].

Definition dmtPopDaemonTipMsg (e : page_env) : list page_effect :=
  close_dialog e ++ [OpenLocal (u "dct_dlg_show_daemon_tip_msg") (u "演示版操作提示") 280 410].

Inductive dealt :=
  | Continue                              (* false: the caller goes on *)
  | Handled (effects : list page_effect)  (* true *)
  | ReferenceError.                       (* the name [json] is not defined *)

Definition is_code (ec : prim) (z : Z) : bool := num_eqb (to_number ec) (of_Z z).
Definition code_in (ec : prim) (lo hi : Z) : bool :=
  num_leb (of_Z lo) (to_number ec) && num_ltb (to_number ec) (of_Z hi).

Definition dmtFirstDealAjaxResponse (e : page_env) (result : ajax_result) : dealt :=
  match result with
  | NoResult | NoCode => Continue
  | Answer PUndef _ _ _ => Continue
  | Answer ec msg msgid redirect_url =>
      if is_code ec 666 then Handled (dmtPopDaemonTipMsg e)
      else if is_code ec 111 then Handled ([CloseTab] ++ close_dialog e ++ [Redirect redirect_url])
      else if is_code ec 300 || code_in ec 1 200 then
        let text := u "服务器返回错误，错误码：" ++ to_str ec in
        match msg, msgid with
        | PUndef, PUndef => Handled [Warn text]
        | PUndef, _ => ReferenceError
        | _, _ => Handled [Warn (text ++ u "，错误消息：" ++ to_str msg)]
        end
      else Continue
  end.

(** ** Browsers and bug reports *)

(** The test of the browser's name is commented out. *)
Definition dmtIsExplorerSupport : bool := true.

(** The message is put together, and nothing is done with it. *)
Definition dmtJsBugReport (file func msg : prim) : list page_effect :=
  let bugmsg := u "Js bug report info -- file:" ++ to_str file ++ u "   " in
  let bugmsg := bugmsg ++ u "function:" ++ to_str func ++ u "   " in
  let bugmsg := bugmsg ++ u "info msg:" ++ to_str msg ++ u "   " in
  [].

(** ** The fastest web server *)

Record web := Web { wb_ip : jstr; wb_start : Z; wb_end : option Z }.
Record web_site := WebSite { ws_list : list web; ws_fast : Z; ws_slow : Z }.

(** The loop: the index of the fastest so far, and the two extremes. *)
Fixpoint fast_loop (l : list web) (i fastIdx fast slow : Z) : Z * Z * Z :=
  match l with
  | [] => (fastIdx, fast, slow)
  | w :: l' =>
      match wb_end w with
      | None => fast_loop l' (i + 1) fastIdx fast slow
      | Some e =>
          let s := e - wb_start w in
          let slow := if slow <? s then s else slow in
          if s <? fast then fast_loop l' (i + 1) i s slow else fast_loop l' (i + 1) fastIdx fast slow
      end
  end.

(** Without [r_siteInfo] ([None]) the result is 0. *)
Definition dmtGetFastWebIdx (site : option web_site) : Z * option web_site :=
  match site with
  | None => (0, None)
  | Some s =>
      let n := Z.of_nat (length (ws_list s)) in
      let '(idx, fast, slow) := fast_loop (ws_list s) 0 n (24 * 60 * 60 * 1000) 0 in
      (idx, Some (WebSite (ws_list s) fast slow))
  end.

(** Every server is asked, with the index of its entry; the clock is read for each. *)
Definition speed_url (i : nat) (w : web) : jstr :=
  u "http://" ++ wb_ip w ++ u "/cgi-bin/slog_flogin?action=check_web_speed"
  ++ u "&check_idx=" ++ Z_to_str (Z.of_nat i).

Definition dmtTestWebSvr (clock : nat -> Z) (s : web_site) : web_site * list jstr :=
  (WebSite (imap (fun i w => Web (wb_ip w) (clock i) (wb_end w)) (ws_list s)) (ws_fast s) (ws_slow s),
   imap speed_url (ws_list s)).

(** The success callback of one request. *)
Definition on_web_answer (check_idx now : Z) (s : web_site) : web_site :=
  if (0 <=? check_idx) && (check_idx <? Z.of_nat (length (ws_list s))) then
    WebSite (alter (fun w => Web (wb_ip w) (wb_start w) (Some now)) (Z.to_nat check_idx) (ws_list s))
      (ws_fast s) (ws_slow s)
  else s.

(** ** Sizes *)

(** [x / y], truncated by [dmtMathtrunc] where it is finite; the sign of a divisor 0
    is that of the dividend it was truncated from. *)
Definition trunc_div (x y : Z) : num :=
  if y =? 0 then (if x =? 0 then NaN else PosInf) else of_Z (Z.quot x y).

(** The space of the plugin page, and the sizes the browser reports. *)
Record plugin_size := PluginSize { g_pluginShowWidth : Z; g_pluginShowHeight : Z }.
Record window_env := WindowEnv {
  we_sbar : bool (* DWZ.ui.sbar *); we_sidebar : Z; we_width : Z; we_height : Z;
  we_header : Z; we_footer : Z; we_tabs : Z
}.

Definition dmtSetPluginShowWH (e : window_env) (g : plugin_size) : bool * plugin_size :=
  let iSub := if we_sbar e then we_sidebar e else 35 in
  let iContentW := we_width e - iSub in
  let iContentH := we_height e - we_header e - we_footer e - we_tabs e in
  let '(bChanged, w) := if iContentW =? g_pluginShowWidth g then (false, g_pluginShowWidth g) else (true, iContentW) in
  let '(bChanged, h) := if g_pluginShowHeight g =? iContentH then (bChanged, g_pluginShowHeight g) else (true, iContentH) in
  (bChanged, PluginSize w h).

(** The margin of the plugin list (with [Math.trunc]): NaN or infinite when not even one
    column fits. *)
Inductive margin_effect := SetMargins (list_id css : jstr) | BugReport (msg : jstr).

Definition plugin_margin (e : window_env) : num :=
  let iSub := if we_sbar e then we_sidebar e + 10 else 24 in
  let iContentW := we_width e - iSub - 20 - 45 in
  let xLeft := Z.rem iContentW 452 in
  let xCount := Z.quot iContentW 452 in
  if xCount =? 0 then trunc_div xLeft 0 else of_Z (Z.quot xLeft (2 * xCount)).

Definition dmtSetPluginMarginInfo (e : window_env) (tab : option jstr) (g_PluginMargin : num)
    : bool * num * list margin_effect :=
  let newM := plugin_margin e in
  if num_eqb newM g_PluginMargin then (false, g_PluginMargin, [])
  else
    (true, newM,
     match tab with
     | None => []
     | Some t =>
         if js_eqb t (u "dmt_plugin_open")
         then [SetMargins (u "#dpopen_plugin_list") (u "10px " ++ num_to_str newM ++ u "px")]
         else [BugReport (u "unknow plugin tab:" ++ t)]
     end).

(** ** Full screen *)

(** What the browser offers, and what its fullscreen element is. *)
Record full_env := FullEnv {
  fe_element : prim (* document.fullscreenElement || mozFullScreenElement || webkitFullscreenElement *);
  fe_exit : bool; fe_request : bool; fe_activex : bool; fe_shell : bool
}.
Inductive full_effect := ExitFull | RequestFull | SendF11.

Definition dmtCheckFull (e : full_env) : prim :=
  match fe_element e with PUndef | PNull => PBool false | p => p end.

Definition dmtToggleFullScreen (e : full_env) : jstr * list full_effect :=
  if truthy (dmtCheckFull e) then
    (u "no", if fe_exit e then [ExitFull] else if fe_activex e && fe_shell e then [SendF11] else [])
  else if fe_request e then (u "yes", [RequestFull])
  else if fe_activex e && fe_shell e then (u "yes", [SendF11])
  else (u "error", []).

(** ** Small actions *)

(** The answer to an export request. *)
Inductive export_effect := ExportWarn (msg : jstr) | ExportEmpty | Download (file : jstr).
Definition export_answer (statusCode record_count : prim) (msg file : jstr) : export_effect :=
  if negb (loose_eq statusCode (PNum (of_Z 0))) then ExportWarn msg
  else if loose_eq record_count (PNum (of_Z 0)) then ExportEmpty
  else Download file.

(** The question asked first, and the POST request made when it is confirmed. *)
Record export := Export { ex_question : jstr; ex_url : jstr; ex_data : jstr }.
Definition dmtExport (url data : jstr) : export := Export (u "确实要导出这些记录吗?") url data.

(** The button clicked to fold or unfold the side bar. *)
Definition dmtTriggerLeftMenu (sbar : prim) : option jstr :=
  if loose_eq sbar (PBool true) then Some (u "#sidebar .toggleCollapse div")
  else if loose_eq sbar (PBool false) then Some (u "#sidebar_s .toggleCollapse div")
  else None.

(** Closing a dialog stops its timer: the timer cleared, and the variable's new value
    ([PUndef] when it does not exist). *)
Definition stop_timer (timer : prim) : option prim * prim :=
  match timer with
  | PUndef | PNull => (None, timer)
  | t => (Some t, PNull)
  end.
Definition dmtLv2CheckCodeDlgClose (g_dclc_TimerId : prim) : bool * (option prim * prim) := (true, stop_timer g_dclc_TimerId).
Definition dmt_duc_dlg_modify_name_close (g_dci_TimerId : prim) : bool * (option prim * prim) := (true, stop_timer g_dci_TimerId).

(** ** Properties *)

Definition speed (w : web) : option Z := (fun e => e - wb_start w) <$> wb_end w.

(** An entry among the first [i] that is as fast as [m]. *)
Lemma fast_loop_spec l : forall i idx fast slow,
  let '(idx', fast', slow') := fast_loop l i idx fast slow in
  (fast' <= fast /\ slow <= slow') /\
  (forall w s, w ∈ l -> speed w = Some s -> fast' <= s /\ s <= slow') /\
  ((idx' = idx /\ fast' = fast) \/
   (fast' < fast /\ exists k w, l !! k = Some w /\ speed w = Some fast' /\ idx' = i + Z.of_nat k /\
      forall j v s, (j < k)%nat -> l !! j = Some v -> speed v = Some s -> fast' < s)).
Proof.
  induction l as [|w l IH]; intros i idx fast slow; cbn [fast_loop].
  { split; [lia|]. split; [by intros w s Hw%elem_of_nil|]. by left. }
  destruct (wb_end w) as [e|] eqn:Ew.
  2:{ specialize (IH (i + 1) idx fast slow). destruct (fast_loop l _ _ _ _) as [[idx' fast'] slow'].
      destruct IH as (H1 & H2 & H3). split; [done|]. split.
      - intros v s [->|Hv]%elem_of_cons Hs; [|by apply (H2 v)]. unfold speed in Hs. by rewrite Ew in Hs.
      - destruct H3 as [H3|(Hlt & k & v & Hk & Hv & -> & Hm)]; [by left|right]. split; [done|].
        exists (S k), v. repeat split; [done|done|lia|]. intros [|j] v' s Hj Hv' Hs.
        + injection Hv' as ->. unfold speed in Hs. by rewrite Ew in Hs.
        + apply (Hm j v'); [lia|done|done]. }
  assert (Hsp : speed w = Some (e - wb_start w)) by (unfold speed; by rewrite Ew).
  set (s0 := e - wb_start w) in *. set (slow0 := if slow <? s0 then s0 else slow).
  assert (Hslow : slow <= slow0 /\ s0 <= slow0) by (unfold slow0; destruct (slow <? s0) eqn:E; lia).
  destruct (s0 <? fast) eqn:Ef.
  - specialize (IH (i + 1) i s0 slow0). destruct (fast_loop l _ _ _ _) as [[idx' fast'] slow'].
    destruct IH as ([H1 H1'] & H2 & H3). split; [lia|]. split.
    + intros v s [->|Hv]%elem_of_cons Hs; [|by apply (H2 v)]. rewrite Hsp in Hs. injection Hs as <-. lia.
    + right. destruct H3 as [[-> ->]|(Hlt & k & v & Hk & Hv & -> & Hm)].
      * split; [lia|]. exists 0%nat, w. repeat split; [done|lia|]. intros j v s Hj. lia.
      * split; [lia|]. exists (S k), v. repeat split; [done|done|lia|]. intros [|j] v' s Hj Hv' Hs.
        -- injection Hv' as ->. rewrite Hsp in Hs. injection Hs as <-. lia.
        -- apply (Hm j v'); [lia|done|done].
  - specialize (IH (i + 1) idx fast slow0). destruct (fast_loop l _ _ _ _) as [[idx' fast'] slow'].
    destruct IH as ([H1 H1'] & H2 & H3). split; [lia|]. split.
    + intros v s [->|Hv]%elem_of_cons Hs; [|by apply (H2 v)]. rewrite Hsp in Hs. injection Hs as <-. lia.
    + destruct H3 as [H3|(Hlt & k & v & Hk & Hv & -> & Hm)]; [by left|right]. split; [done|].
      exists (S k), v. repeat split; [done|done|lia|]. intros [|j] v' s Hj Hv' Hs.
      * injection Hv' as ->. rewrite Hsp in Hs. injection Hs as <-. lia.
      * apply (Hm j v'); [lia|done|done].
Qed.

(** When some server answered within a day, the index given is that of an answering
    server no slower than any other, the first of them; without such an answer it is
    the number of servers. *)
Theorem fast_web_minimal s :
  let idx := fst (dmtGetFastWebIdx (Some s)) in
  (exists w f, ws_list s !! Z.to_nat idx = Some w /\ 0 <= idx /\ speed w = Some f /\ f < 86400000 /\
     (forall v t, v ∈ ws_list s -> speed v = Some t -> f <= t) /\
     (forall j v t, (j < Z.to_nat idx)%nat -> ws_list s !! j = Some v -> speed v = Some t -> f < t))
  \/ (idx = Z.of_nat (length (ws_list s)) /\
      forall v t, v ∈ ws_list s -> speed v = Some t -> 86400000 <= t).
Proof.
  unfold dmtGetFastWebIdx. cbv zeta.
  pose proof (fast_loop_spec (ws_list s) 0 (Z.of_nat (length (ws_list s))) (24 * 60 * 60 * 1000) 0) as H.
  destruct (fast_loop _ _ _ _ _) as [[idx fast] slow]. cbn [fst].
  destruct H as ([H1 _] & H2 & [[-> ->]|(Hlt & k & w & Hk & Hw & -> & Hm)]).
  - right. split; [done|]. intros v t Hv Ht. by apply (H2 v t).
  - left. exists w, fast. rewrite Z.add_0_l, Nat2Z.id. repeat split; [done|lia|done|lia| |done].
    intros v t Hv Ht. by apply (H2 v t).
Qed.

(** An error answer that has a message id but no message is not shown: reading the
    id goes through a name that does not exist. *)
Theorem msgid_answer_throws e ec id url :
  code_in ec 1 200 = true -> is_code ec 111 = false -> id <> PUndef ->
  dmtFirstDealAjaxResponse e (Answer ec PUndef id url) = ReferenceError.
Proof.
  intros H1 H2 H3. cbn. destruct ec; [discriminate H1|..]; rewrite H1, H2, orb_true_r;
    (match goal with |- context [is_code ?x 666] => destruct (is_code x 666) eqn:E end;
     [exfalso|by destruct id]).
  all: unfold is_code, code_in, num_ltb, num_leb, num_eqb in *;
    match type of E with context [to_number ?x] => destruct (to_number x) as [f| | |] end; try done.
  all: apply Qeq_bool_iff in E; apply andb_true_iff in H1 as [_ H1]; apply negb_true_iff in H1;
    assert (Qle_bool (200 # 1) f = true); [|unfold of_Z in *; congruence];
    apply Qle_bool_iff; rewrite E; done.
Qed.

Lemma msgid_answer_throws_witness :
  code_in (PNum (of_Z 5)) 1 200 = true /\
  dmtFirstDealAjaxResponse (PageEnv false id) (Answer (PNum (of_Z 5)) PUndef (PStr (u "m")) PUndef) = ReferenceError.
Proof.
  split; [reflexivity|].
  apply (msgid_answer_throws (PageEnv false id) (PNum (of_Z 5)) (PStr (u "m")) PUndef); [reflexivity..|discriminate].
Defined.
