(* ===== verification/CommOption.v ===== *)
(** * [html/resource/js/dmt.comm.js]: the option objects handed to echarts

    An option is a JavaScript value; its functions (formatters, click handlers) are
    opaque in it. [put] is the assignment of a property by its path. *)

From Stdlib Require Import ZArith QArith Lia.
From stdpp Require Import base tactics list numbers strings.
From S2P Require Import Prelude JsValue CommSeries.
Local Open Scope Z_scope.

Inductive key := K (name : jstr) | I (index : nat).

(** [o[k] = v] on the members of an object: the property keeps its place, a new one
    is the last. *)
Fixpoint put_member (k : jstr) (f : jsval -> jsval) (l : list (jstr * jsval)) : list (jstr * jsval) :=
  match l with
  | [] => [(k, f VUndef)]
  | (k', v) :: l' => if js_eqb k' k then (k', f v) :: l' else (k', v) :: put_member k f l'
  end.

Definition update_at (k : key) (f : jsval -> jsval) (v : jsval) : jsval :=
  match k, v with
  | K name, VObj l => VObj (put_member name f l)
  | I i, VArr l => VArr (alter f i l)
  | _, _ => v
  end.

Fixpoint put (path : list key) (x v : jsval) : jsval :=
  match path with
  | [] => x
  | k :: path' => update_at k (put path' x) v
  end.

Definition get_at (k : key) (v : jsval) : jsval :=
  match k, v with
  | K name, VObj l => match find (fun kv => js_eqb (fst kv) name) l with Some kv => snd kv | None => VUndef end
  | I i, VArr l => match l !! i with Some x => x | None => VUndef end
  | _, _ => VUndef
  end.
Definition get (path : list key) (v : jsval) : jsval := fold_left (fun v k => get_at k v) path v.

Definition vstr (s : jstr) : jsval := VStr s.
Definition vint (z : Z) : jsval := VNum (of_Z z).
Definition yes : jsval := VBool true.
Definition no : jsval := VBool false.
Notation "k ~> v" := (pair (u k) v) (at level 70, only parsing) : js_scope.
Local Open Scope js_scope.

(** ** The line charts of [dmtShowAttrInfo] *)

Definition tool_button (title icon : jstr) (doc_path : jstr) : jsval :=
  VObj ["show" ~> yes; "title" ~> vstr title;
        "icon" ~> vstr (u "image://" ++ doc_path ++ icon); "onclick" ~> VFun].

Definition empty_series : jsval :=
  VObj ["name" ~> vstr []; "showSymbol" ~> no; "cursor" ~> vstr (u "pointer"); "smooth" ~> yes;
        "smoothMonotone" ~> vstr (u "x"); "type" ~> vstr (u "line"); "data" ~> VArr []].

Definition line_toolbox (doc_path : jstr) : jsval :=
  VObj ["show" ~> yes; "orient" ~> vstr (u "vertical"); "top" ~> vstr (u "center"); "right" ~> vint 20;
        "feature" ~> VObj
          ["myUnMaskWarningData" ~> tool_button (u "取消屏蔽告警") (u "images/phone_sound.png") doc_path;
           "myMaskWarningData" ~> tool_button (u "屏蔽告警") (u "images/phone_delete.png") doc_path;
           "mySetWarningData" ~> tool_button (u "设置告警") (u "images/phone_edit.png") doc_path;
           "myShowSingleData" ~> tool_button (u "单独显示图表数据") (u "images/arrow_out_longer.png") doc_path;
           "restore" ~> VObj ["show" ~> yes; "title" ~> vstr (u "还原图表显示")];
           "dataZoom" ~> VObj ["show" ~> yes; "xAxisIndex" ~> vint 0; "yAxisIndex" ~> no];
           "saveAsImage" ~> VObj ["show" ~> yes]]].

(** The literal with which the function starts. *)
Definition line_option (doc_path : jstr) : jsval :=
  VObj
   ["legend" ~> VObj ["show" ~> no; "bottom" ~> vint 10];
    "title" ~> VObj ["text" ~> vstr []; "x" ~> vstr (u "center"); "subtext" ~> vstr [];
                     "top" ~> vstr (u "top"); "subtextStyle" ~> VObj []; "show" ~> yes];
    "useUTC" ~> yes;
    "toolbox" ~> line_toolbox doc_path;
    "grid" ~> VObj ["tooltip" ~> VObj ["show" ~> yes; "trigger" ~> vstr (u "axis")];
                    "top" ~> vint 70; "bottom" ~> vint 50];
    "xAxis" ~> VObj ["show" ~> yes; "type" ~> vstr (u "time");
                     "axisPointer" ~> VObj ["label" ~> VObj ["formatter" ~> VFun]]];
    "yAxis" ~> VObj ["splitArea" ~> VObj ["show" ~> yes]; "show" ~> yes;
                     "axisLabel" ~> VObj ["formatter" ~> VFun]; "type" ~> vstr (u "value")];
    "tooltip" ~> VObj ["trigger" ~> vstr (u "none");
                       "axisPointer" ~> VObj ["type" ~> vstr (u "cross"); "snap" ~> yes]];
    "dataZoom" ~> VArr [VObj ["type" ~> vstr (u "inside"); "xAxisIndex" ~> vint 0]];
    "series" ~> VArr [empty_series; empty_series; empty_series]].

(** A point of a curve: an object whose [value] is the pair of time and entry. *)
Definition point_val (p : option Z * jstr) : jsval :=
  VObj ["value" ~> VArr [match fst p with Some t => vint t | None => VUndef end; VStr (snd p)]].

(** ** The charts of string monitor points *)

(** An entry of [str_list]. *)
Record str_item := StrItem { st_name : jstr; st_value : Z }.
Definition str_item_val (i : str_item) : jsval := VObj ["name" ~> vstr (st_name i); "value" ~> vint (st_value i)].

Definition title_literal : jsval :=
  VObj ["x" ~> vstr (u "left"); "subtext" ~> vstr []; "top" ~> vstr (u "top");
        "subtextStyle" ~> VObj []; "show" ~> yes; "text" ~> vstr []].

Definition geo_option : jsval :=
  VObj
   ["title" ~> title_literal;
    "tooltip" ~> VObj ["trigger" ~> vstr (u "item"); "confine" ~> yes;
                       "formatter" ~> vstr (u "{b}<br/>访问次数: {c}")];
    "visualMap" ~> VObj ["min" ~> vint 0; "max" ~> vint 10000; "realtime" ~> yes; "calculable" ~> yes;
                         "inRange" ~> VObj ["color" ~> VArr [vstr (u "lightskyblue"); vstr (u "yellow"); vstr (u "orangered")]]];
    "toolbox" ~> VObj ["show" ~> yes; "orient" ~> vstr (u "vertical"); "top" ~> vstr (u "center"); "right" ~> vint 20;
                       "feature" ~> VObj ["dataView" ~> VObj ["readOnly" ~> no]; "restore" ~> VObj [];
                                          "saveAsImage" ~> VObj []]];
    "legend" ~> VObj ["type" ~> vstr (u "scroll"); "orient" ~> vstr (u "vertical"); "left" ~> vstr (u "left");
                      "top" ~> vstr (u "70"); "show" ~> yes];
    "series" ~> VArr [VObj ["type" ~> vstr (u "map"); "mapType" ~> vstr (u "china");
                            "label" ~> VObj ["show" ~> yes]; "data" ~> VArr []; "geoIndex" ~> vint 0]]].

Definition pie_option : jsval :=
  VObj
   ["title" ~> title_literal;
    "tooltip" ~> VObj ["trigger" ~> vstr (u "item"); "confine" ~> yes;
                       "formatter" ~> vstr (u "上报字符串：{b}<br>上报值: {c} ({d}%)")];
    "legend" ~> VObj ["type" ~> vstr (u "scroll"); "orient" ~> vstr (u "vertical"); "right" ~> vstr (u "right");
                      "top" ~> vstr (u "70"); "show" ~> yes];
    "series" ~> VArr [VObj
       ["type" ~> vstr (u "pie"); "radius" ~> vstr (u "55%"); "center" ~> VArr [vstr (u "40%"); vstr (u "55%")];
        "data" ~> VArr [];
        "label" ~> VObj ["show" ~> yes; "emphasis" ~> VObj ["show" ~> yes]];
        "itemStyle" ~> VObj ["emphasis" ~> VObj ["shadowBlur" ~> vint 10; "shadowOffsetX" ~> vint 0;
                                                 "shadowColor" ~> vstr (u "rgba(0, 0, 0, 0.5)")]]]]].

(** What both functions write when nothing was reported. *)
Definition no_report (op : jsval) : jsval :=
  put [K (u "title"); K (u "subtext")] (vstr (u "暂无数据上报"))
   (put [K (u "title"); K (u "subtextStyle"); K (u "fontWeight")] (vstr (u "bold"))
    (put [K (u "title"); K (u "subtextStyle"); K (u "color")] (vstr (u "red"))
     (put [K (u "series"); I 0; K (u "data")] (VArr []) op))).

(** ** The ring of a share in percent ([dmtGetUsePerPieOption])

    The caller gives the colours; the numbers of items and the link have defaults. *)
Record per_pie := PerPie {
  pp_name : jstr; pp_text : jstr; pp_subtext : jstr; pp_val : Z;
  pp_colors : list jstr; pp_items : option Z; pp_sublink : option jstr
}.

(** [op.c_colors[i] || op.c_colors[j]] *)
Definition color_or (l : list jstr) (i j : nat) : jsval :=
  match l !! i with
  | Some (c :: s) => vstr (c :: s)
  | _ => match l !! j with Some s => vstr s | None => VUndef end
  end.

Definition color_stops (l : list jstr) : jsval :=
  VObj ["colorStops" ~> VArr [VObj ["offset" ~> vint 0; "color" ~> color_or l 0 1];
                              VObj ["offset" ~> vint 1; "color" ~> color_or l 2 3]]].

Definition hidden : jsval := VObj ["show" ~> no].
Definition per_font : jsval := vstr (u "PingFangSC-Regular").

Definition dmtGetUsePerPieOption (op : per_pie) : jsval :=
  let c_items := match pp_items op with Some n => n | None => 1 end in
  let c_sublink := match pp_sublink op with Some s => s | None => [] end in
  let subtext_color := match pp_colors op !! 4%nat with Some c => c | None => u "blue" end in
  let text_color := if 1 <? c_items then u "blue" else u "#044" in
  let title :=
    ["id" ~> vstr (pp_name op); "text" ~> vstr (pp_text op); "triggerEvent" ~> yes;
     "subtext" ~> vstr (pp_subtext op); "left" ~> vstr (u "center"); "top" ~> vstr (u "center");
     "textStyle" ~> VObj ["color" ~> vstr text_color; "fontSize" ~> vint 14; "fontFamily" ~> per_font];
     "subtextStyle" ~> VObj ["color" ~> vstr subtext_color;
                             "fontSize" ~> vint (if 1 <? c_items then 14 else 18);
                             "fontFamily" ~> per_font; "fontWeight" ~> vstr (u "bold"); "top" ~> vstr (u "center")];
     "itemGap" ~> vint (-1)] in
  let link := match c_sublink with
              | [] => []
              | _ => ["sublink" ~> vstr c_sublink; "subtarget" ~> vstr (u "self")]
              end in
  VObj
   ["title" ~> VObj (title ++ link);
    "series" ~> VArr [VObj
      ["name" ~> vstr (pp_name op); "type" ~> vstr (u "pie"); "clockWise" ~> yes;
       "radius" ~> VArr [vstr (u "80%"); vstr (u "95%")];
       "itemStyle" ~> VObj ["normal" ~> VObj ["label" ~> hidden; "labelLine" ~> hidden]];
       "hoverAnimation" ~> no;
       "data" ~> VArr
         [VObj ["value" ~> vint (pp_val op); "name" ~> vstr (u "completed");
                "itemStyle" ~> VObj ["normal" ~> VObj
                  ["borderWidth" ~> vint 8; "borderColor" ~> color_stops (pp_colors op);
                   "color" ~> color_stops (pp_colors op); "label" ~> hidden; "labelLine" ~> hidden]]];
          VObj ["name" ~> vstr (u "gap"); "value" ~> vint (100 - pp_val op);
                "itemStyle" ~> VObj ["normal" ~> VObj
                  ["label" ~> hidden; "labelLine" ~> hidden;
                   "color" ~> vstr (u "rgba(0, 0, 0, 0)"); "borderColor" ~> vstr (u "rgba(0, 0, 0, 0)");
                   "borderWidth" ~> vint 0]]]]]]].

Example put_ex :
  get [K (u "series"); I 1; K (u "name")] (put [K (u "series"); I 1; K (u "name")] (vstr (u "x")) (line_option []))
  = vstr (u "x").
Proof. vm_compute. reflexivity. Qed.
