(* ===== verification/CommChart.v ===== *)
(** * [html/resource/js/dmt.comm.js]: the charts of monitor points and their warning
    configuration

    The functions work on the option object [op], on the charts remembered in
    [g_all_charts] and on the page; what they hand to echarts and to the page is part
    of the state. *)

From Stdlib Require Import ZArith QArith Lia.
From stdpp Require Import base tactics list numbers strings gmap.
From S2P Require Import Prelude JsValue CommFormat CommSeries CommTree CommPage CommOption.
Local Open Scope Z_scope.

(** ** Data *)

(** The values of one monitor point. *)
Record attr_val := AttrVal {
  av_id : Z; av_max : Z; av_min : Z; av_total : Z; av_cur : Z;
  av_value_list_str : option jstr; av_value_list_yst_str : jstr; av_value_list_lwk_str : jstr;
  av_warn_flag : Z; av_warn_max : prim; av_warn_min : prim; av_warn_wave : prim; av_warn_config_id : Z;
  av_str_count : Z; av_str_list : list str_item
}.

Record attr_val_list := AttrValList {
  vl_list : option (list attr_val); vl_view_id : prim; vl_machine_id : prim;
  vl_type : Z; vl_date_time_start_utc : Z; vl_monday : bool (* date_time_monday is given *);
  vl_date_time : jstr; vl_date_time_cur : jstr; vl_date_time_yst : jstr; vl_date_time_wkd : jstr;
  vl_cust_date : jstr; vl_cgi_path : jstr; vl_show_single_type : prim
}.

Record warn_info := WarnInfo {
  wi_warn_cfg_id : Z; wi_cgi_path : option jstr; wi_show_class : prim; wi_attr_name : prim; wi_mask : Z
}.

(** [g_siteInfo] *)
Record site_info := SiteInfo { si_cgi_path : option jstr; si_doc_path : jstr }.

(** What [dmtGetAttrInfo] may give: a monitor point, or the string "null", which has
    none of the properties read ([None]). *)
Definition ref_name (a : option attr_info) : prim := match a with Some a => PStr (ai_name a) | None => PUndef end.
Definition ref_id (a : option attr_info) : prim := match a with Some a => PNum (of_Z (ai_id a)) | None => PUndef end.
Definition ref_data_type (a : option attr_info) : option Z := ai_data_type <$> a.
Definition ref_show_class (a : option attr_info) : prim := match a with Some a => PStr (ai_show_class a) | None => PUndef end.
Definition ref_static_text (a : option attr_info) : jstr :=
  match a with Some a => dmtShowHumanStaticTime (ai_static_time a) | None => u "unknow" end.
Definition ref_time_info (dateStart count_day : Z) (a : option attr_info) : list Z :=
  match a with Some a => dmtGetXAxisTimeInfo dateStart count_day a | None => [] end.

(** ** Titles *)

Definition change_text (v : Z) : jstr := to_str (dmtShowChangeValue (v # 1)).

(** The description of the thresholds, shared by the chart and the mask handler. *)
Definition warn_text (warn_flag : Z) (warn_max warn_min warn_wave : prim) (percent : bool) : jstr :=
  let showclass := if percent then u "%" else [] in
  (if has_bit warn_flag 1 then to_str warn_max ++ showclass else u "无 ")
  ++ u "，最小值："
  ++ (if has_bit warn_flag 2 then to_str warn_min ++ showclass else u "无 ")
  ++ u "，波动值："
  ++ (if has_bit warn_flag 4 then to_str warn_wave ++ u "% " else u "无 ")
  ++ (if has_bit warn_flag 32 then u "，屏蔽状态：已屏蔽" else [])
  ++ u " 】".

Definition is_percent (show_class : prim) : bool := loose_eq show_class (PStr (u "percent")).

Definition dmtGetViewSubTitle (attr_val_list : attr_val_list) (v : attr_val) (a : option attr_info) : jstr :=
  (if 0 <? av_max v then
     u " 【" ++ u "最大值：" ++ change_text (av_max v)
     ++ u ", 图表累计上报：" ++ change_text (av_total v) ++ u ", 当前统计周期："
     ++ change_text (av_cur v) ++ u "/" ++ ref_static_text a ++ u "】" ++ [10] ++ u " "
   else if 0 <? av_cur v then
     u " 当前时间：" ++ vl_date_time attr_val_list ++ u ", "
     ++ u " 当前统计周期：" ++ change_text (av_cur v) ++ u "/" ++ ref_static_text a ++ [10; 10]
   else u "暂无数据上报" ++ [10; 10])
  ++ u "告警配置【 最大值："
  ++ warn_text (av_warn_flag v) (av_warn_max v) (av_warn_min v) (av_warn_wave v) (is_percent (ref_show_class a)).

(** [undefined] when the page is neither a view nor a machine. *)
Definition dmtGetViewTitle (showtype : jstr) (l : attr_val_list) (a : option attr_info) : jsval :=
  let owner id := u "ID【" ++ to_str id ++ u "】" ++ u "监控点【" ++ to_str (ref_name a) ++ u "-"
                  ++ to_str (ref_id a) ++ u "】" in
  if js_eqb showtype (u "view") then VStr (u "视图" ++ owner (vl_view_id l))
  else if js_eqb showtype (u "machine") then VStr (u "服务器" ++ owner (vl_machine_id l))
  else VUndef.

(** ** Dialogs *)

(** [$.pdialog.open(url, dlg, title, op)]; the options are given as text. *)
Record dialog := Dialog { dg_url : jstr; dg_name : jstr; dg_title : jstr; dg_options : jstr }.

Definition q (s : string) : jstr := [34] ++ u s ++ [34].
Arguments q s%_string.

Definition g_dmtSingleChartMinWidth : Z := 1100.
Definition g_dmtSingleChartHeight : Z := 520.

Definition dmtShowSingle (cust_date : jstr) (attr_name show_single_type : prim) (cgi_path type : jstr)
    (type_id attr_id site_url : prim) : dialog :=
  let title :=
    if js_eqb type (u "view") then
      u "视图【" ++ to_str type_id ++ u "】" ++ u "监控点【" ++ to_str attr_id ++ u "_" ++ to_str attr_name ++ u "】"
    else if js_eqb type (u "machine") then
      u "服务器【" ++ to_str type_id ++ u "】" ++ u "监控点【" ++ to_str attr_id ++ u "_" ++ to_str attr_name ++ u "】"
    else u "监控网点【" ++ to_str attr_id ++ u "_" ++ to_str attr_name ++ u "】 站点链接：" ++ to_str site_url in
  Dialog
    (cgi_path ++ u "/mt_slog_showview?action=show_single" ++ u "&type_id=" ++ to_str type_id
     ++ u "&cust_date=" ++ cust_date ++ u "&show_type=" ++ type ++ u "&attr_id=" ++ to_str attr_id
     ++ u "&show_single_type=" ++ to_str show_single_type)
    (u "dc_dlg_show_single_" ++ to_str type_id ++ u "_" ++ to_str attr_id)
    (title ++ u " - 上报数据查看")
    (u "{" ++ q "mask" ++ u ":true," ++ q "maxable" ++ u ":false," ++ q "height" ++ u ":"
     ++ Z_to_str g_dmtSingleChartHeight ++ u "," ++ q "width" ++ u ":" ++ Z_to_str g_dmtSingleChartMinWidth
     ++ u "," ++ q "resizable" ++ u ":true}").

(** ** Buttons of a chart *)

(** The click handlers: the argument lists of the calls they make. *)
Inductive click :=
  | NoClick
  | ShowSingle (cust_date : jstr) (attr_name show_single_type : prim) (cgi_path type : jstr)
               (type_id attr_id site_url : prim)
  | MaskWarn (warn_type : jstr) (warn_type_id attr_id : prim)
  | SetWarn (warn_type : jstr) (warn_type_id attr_id : prim).

Record clicks := Clicks { on_unmask : click; on_mask : click; on_set : click; on_single : click }.
Definition no_clicks : clicks := Clicks NoClick NoClick NoClick NoClick.

Definition feature (name : jstr) : list key := [K (u "toolbox"); K (u "feature"); K name; K (u "show")].
Definition f_unmask : jstr := u "myUnMaskWarningData".
Definition f_mask : jstr := u "myMaskWarningData".
Definition f_set : jstr := u "mySetWarningData".
Definition f_single : jstr := u "myShowSingleData".

(** The visibility of the three warning buttons. *)
Definition show_buttons (unmask set mask : bool) (op : jsval) : jsval :=
  put (feature f_mask) (VBool mask) (put (feature f_set) (VBool set) (put (feature f_unmask) (VBool unmask) op)).

Definition has_threshold (warn_flag : Z) : bool := has_bit warn_flag 1 || has_bit warn_flag 2 || has_bit warn_flag 4.

(** The sites' variant of the handler that shows one chart. *)
Definition dmtSetShowSingleSite (site_id site_url : prim) (showtype : jstr) (l : attr_val_list)
    (a : option attr_info) (c : clicks) : clicks :=
  Clicks (on_unmask c) (on_mask c) (on_set c)
    (ShowSingle (vl_cust_date l) (ref_name a) (vl_show_single_type l) (vl_cgi_path l) showtype site_id
       (ref_id a) site_url).

Definition dmtSetCustToolBox (site : site_info) (op : jsval) (showtype : jstr) (l : attr_val_list)
    (v : attr_val) (a : option attr_info) (warnInfo_cgi_path : option jstr) : jsval * clicks * warn_info :=
  let warn_type_id := if js_eqb showtype (u "view") then vl_view_id l else vl_machine_id l in
  let single := ShowSingle (vl_cust_date l) (ref_name a) (vl_show_single_type l) (vl_cgi_path l) showtype
                  warn_type_id (ref_id a) PUndef in
  let cfg_id := if has_bit (av_warn_flag v) 24 then av_warn_config_id v else 0 in
  let cgi_path := match si_cgi_path site with
                  | Some [] => warnInfo_cgi_path
                  | _ => Some (vl_cgi_path l)
                  end in
  let '(op, mask) :=
    if has_bit (av_warn_flag v) 32 then (show_buttons true false false op, 0)
    else if has_threshold (av_warn_flag v) then (show_buttons false true true op, 1)
    else (show_buttons false true false op, 0) in
  (op,
   Clicks (MaskWarn showtype warn_type_id (ref_id a)) (MaskWarn showtype warn_type_id (ref_id a))
          (SetWarn showtype warn_type_id (ref_id a)) single,
   WarnInfo cfg_id cgi_path (ref_show_class a) (ref_name a) mask).

(** ** Charts *)

(** A chart: the options it was given, oldest first, the handlers of its buttons, and
    the fields the page adds to it. *)
Record chart := Chart {
  ch_options : list jsval; ch_clicks : clicks; ch_warnInfo : option warn_info; ch_setwidth : num
}.
Abbreviation charts := (gmap jstr chart).

Definition set_option (op : jsval) (c : chart) : chart :=
  Chart (ch_options c ++ [op]) (ch_clicks c) (ch_warnInfo c) (ch_setwidth c).
Definition set_warn (w : warn_info) (c : chart) : chart :=
  Chart (ch_options c) (ch_clicks c) (Some w) (ch_setwidth c).
Definition set_width (w : num) (c : chart) : chart :=
  Chart (ch_options c) (ch_clicks c) (ch_warnInfo c) w.

Definition chart_idx (warn_type : jstr) (warn_type_id attr_id : prim) : jstr :=
  u "attr_" ++ to_str attr_id ++ u "_" ++ to_str warn_type_id ++ warn_type.

Definition no_warn_info (idx : jstr) : jstr := u "javascript 脚本错误, 无告警信息:" ++ idx.

Definition warn_of (cs : charts) (idx : jstr) : option warn_info :=
  match cs !! idx with Some c => ch_warnInfo c | None => None end.

(** The site's path when it has one, otherwise the one kept with the chart. *)
Definition cgi_path_of (site : site_info) (w : warn_info) : jstr :=
  match si_cgi_path site with
  | Some (c :: s) => c :: s
  | _ => match wi_cgi_path w with Some p => p | None => u "undefined" end
  end.

(** The request of the mask buttons, or the error shown. *)
Record mask_request := MaskRequest { mq_url : jstr; mq_mask : Z; mq_warn_cfg_id : Z }.

Definition dmtMaskWarnConfig (site : site_info) (cs : charts) (warn_type : jstr)
    (warn_type_id attr_id : prim) : jstr + mask_request :=
  let idx := chart_idx warn_type warn_type_id attr_id in
  match warn_of cs idx with
  | None => inl (no_warn_info idx)
  | Some w => inr (MaskRequest (cgi_path_of site w ++ u "mt_slog_warn") (wi_mask w) (wi_warn_cfg_id w))
  end.

(** The answer to it. *)
Record mask_answer := MaskAnswer {
  ma_deal : ajax_result; ma_status : prim; ma_msgid : jstr;
  ma_flag : Z; ma_max : prim; ma_min : prim; ma_wave : prim; ma_config_id : Z
}.

(** The option literal of the answer's handler. *)
Definition mask_literal (subtitle : jstr) : jsval :=
  let shown := VObj [(u "show", yes)] in
  VObj [(u "title", VObj [(u "subtext", VStr subtitle)]);
        (u "toolbox", VObj [(u "feature", VObj [(f_unmask, shown); (f_mask, shown); (f_set, shown)])])].

(** Its buttons: the threshold test sets the "set" button again, where the chart's own
    toolbox sets the "mask" button. *)
Definition mask_buttons (flag : Z) (op : jsval) : jsval * Z :=
  if has_bit flag 32 then (show_buttons true false false op, 0)
  else
    let op := put (feature f_set) yes (put (feature f_unmask) no op) in
    if has_threshold flag then (put (feature f_set) yes op, 1) else (put (feature f_set) no op, 0).

Inductive mask_result :=
  | MaskDealt (d : dealt)
  | MaskWarnMsg (msgid : jstr)
  | MaskDone (cs : charts).

(** [cur_subtext]: the subtitle that the chart shows ([getOption]). Its first line is
    kept. The chart is still the one whose button was clicked, so that [w] is its
    [warnInfo] object. *)
Definition mask_success (e : page_env) (cs : charts) (idx : jstr) (w : warn_info) (cur_subtext : jstr)
    (r : mask_answer) : mask_result :=
  match dmtFirstDealAjaxResponse e (ma_deal r) with
  | Continue =>
      if negb (loose_eq (ma_status r) (PNum (of_Z 200))) then MaskWarnMsg (ma_msgid r)
      else
        let first_line := match split_on 10 cur_subtext with l :: _ => l | [] => [] end in
        let subtitle := first_line ++ [10] ++ u " 告警配置【 最大值："
          ++ warn_text (ma_flag r) (ma_max r) (ma_min r) (ma_wave r) (is_percent (wi_show_class w)) in
        let '(op, mask) := mask_buttons (ma_flag r) (mask_literal subtitle) in
        let w := WarnInfo (ma_config_id r) (wi_cgi_path w) (wi_show_class w) (wi_attr_name w) mask in
        MaskDone (alter (fun c => set_option op (set_warn w c)) idx cs)
  | d => MaskDealt d
  end.

(** The dialog of the "set" button, or the error shown. *)
Definition dmtSetWarnConfig (site : site_info) (cs : charts) (warn_type : jstr)
    (warn_type_id attr_id : prim) : jstr + dialog :=
  let idx := chart_idx warn_type warn_type_id attr_id in
  match warn_of cs idx with
  | None => inl (no_warn_info idx)
  | Some w =>
      let target := u "【" ++ to_str warn_type_id ++ u "】" ++ u "监控点【" ++ to_str attr_id ++ u "_"
                    ++ to_str (wi_attr_name w) ++ u "】" in
      inr (Dialog
        (cgi_path_of site w ++ u "/mt_slog_warn?action=chart_set_attr_warn"
         ++ u "&warn_cfg_id=" ++ Z_to_str (wi_warn_cfg_id w) ++ u "&show_class=" ++ to_str (wi_show_class w)
         ++ u "&attr_name=" ++ to_str (wi_attr_name w) ++ u "&warn_type_id=" ++ to_str warn_type_id
         ++ u "&warn_attr_id=" ++ to_str attr_id ++ u "&warn_type=" ++ warn_type)
        (u "dc_dlg_set_warn_" ++ to_str warn_type_id ++ u "_" ++ to_str attr_id)
        (if js_eqb warn_type (u "view") then u "设置视图告警：视图" ++ target else u "设置服务器告警：服务器" ++ target)
        (u "{" ++ q "mask" ++ u ":true," ++ q "maxable" ++ u ":false," ++ q "height" ++ u ":260,"
         ++ q "width" ++ u ":530," ++ q "resizable" ++ u ":false}"))
  end.

(** ** Charts of string monitor points *)

Definition sum_values (l : list str_item) : Z := fold_left (fun total i => total + st_value i) l 0.

(** [None]: fewer entries than [str_count] says, and reading a missing one throws. *)
Definition dmtSetStrAttrInfoChartIpGeo (a : option attr_info) (js : attr_val) (l : attr_val_list)
    (showtype : jstr) : option jsval :=
  let name := (if js_eqb showtype (u "view")
               then u "视图ID【" ++ to_str (vl_view_id l) else u "服务器ID【" ++ to_str (vl_machine_id l))
              ++ u "】" ++ u "监控点：" ++ to_str (ref_name a) ++ u "-" ++ to_str (ref_id a) in
  let op := put [K (u "title"); K (u "text")] (VStr name) geo_option in
  if 0 <? av_str_count js then
    if Z.of_nat (length (av_str_list js)) <? av_str_count js then None
    else match av_str_list js with
    | [] => None
    | top :: _ =>
        let total := sum_values (take (Z.to_nat (av_str_count js)) (av_str_list js)) in
        let subtext := u "统计时间：" ++ vl_date_time_cur l ++ u "(总访问次数:" ++ Z_to_str total
                       ++ u ", 部分地理位置不能识别的访问将不显示在地图上) " ++ [10] in
        Some (put [K (u "series"); I 0; K (u "data")] (VArr (map str_item_val (av_str_list js)))
               (put [K (u "visualMap"); K (u "max")] (vint (st_value top + 100))
                 (put [K (u "title"); K (u "subtext")] (VStr subtext) op)))
    end
  else Some (no_report op).

Definition dmtSetStrAttrInfoChart (a : option attr_info) (js : attr_val) (l : attr_val_list)
    (showtype : jstr) : jsval :=
  let name := (if js_eqb showtype (u "view")
               then u "视图ID【" ++ to_str (vl_view_id l) else u "服务器ID【" ++ to_str (vl_machine_id l))
              ++ u "】" ++ u "字符串型监控点：" ++ to_str (ref_name a) in
  let op := put [K (u "title"); K (u "text")] (VStr name) pie_option in
  if 0 <? av_str_count js then
    put [K (u "series"); I 0; K (u "data")] (VArr (map str_item_val (av_str_list js)))
      (put [K (u "title"); K (u "subtext")]
        (VStr (u "统计时间：" ++ vl_date_time_cur l ++ u ", 显示排名前 20 个")) op)
  else
    put [K (u "title"); K (u "top")] (vstr (u "20%"))
      (put [K (u "title"); K (u "x")] (vstr (u "center")) (no_report op)).

(** ** [dmtShowAttrInfo] *)

(** What happens to the page, in order. *)
Inductive chart_event :=
  | ClearDiv (id : jstr)
  | AppendDiv (html : jstr)
  | SetHeight (id : jstr) (h : Z)
  | DisposeChart (id : jstr)
  | DrawChart (id : jstr) (op : jsval).

(** The page: its events, the ids of its containers, and [g_all_charts]. *)
Record view := View { vw_events : list chart_event; vw_ids : list jstr; vw_charts : charts }.

Definition g_dmtChartMargin : Z := 20.
Definition g_dmtChartMinWidth : Z := 560.
Definition g_dmtChartHeight : Z := 460.

(** [attr_val_list.show_single_type = attr_val_list.type] *)
Definition with_single_type (l : attr_val_list) : attr_val_list :=
  AttrValList (vl_list l) (vl_view_id l) (vl_machine_id l) (vl_type l) (vl_date_time_start_utc l)
    (vl_monday l) (vl_date_time l) (vl_date_time_cur l) (vl_date_time_yst l) (vl_date_time_wkd l)
    (vl_cust_date l) (vl_cgi_path l) (PNum (of_Z (vl_type l))).

Section ShowAttrInfo.
Context (site : site_info) (g_dmtChartWidth : num) (off : Z)
  (attr_list : attr_list) (attr_val_list : attr_val_list) (showtype : jstr).

Definition jumpid : prim :=
  if js_eqb showtype (u "view") then vl_view_id attr_val_list
  else if js_eqb showtype (u "machine") then vl_machine_id attr_val_list else PUndef.

Definition show_id (v : attr_val) : jstr :=
  u "attr_" ++ Z_to_str (av_id v) ++ u "_" ++ to_str jumpid ++ showtype.

Definition container (id : jstr) : jstr :=
  let attr (s : jstr) := [34] ++ s ++ [34] in
  u "<div style=" ++ [34] ++ u "width:" ++ num_to_str g_dmtChartWidth ++ u "px; "
  ++ u " height:" ++ Z_to_str g_dmtChartHeight ++ u "px; "
  ++ u " border:2px solid #335cad; padding-top:5px;"
  ++ u " float:left; margin:" ++ Z_to_str g_dmtChartMargin ++ u "px;" ++ [34] ++ u " "
  ++ u " type=" ++ attr showtype ++ u " "
  ++ u " id=" ++ attr id ++ u " "
  ++ u " type_id=" ++ attr (to_str jumpid) ++ u " >"
  ++ u "</div>".

Definition is_today : bool := vl_type attr_val_list =? 1.
Definition date_start : Z := vl_date_time_start_utc attr_val_list * 1000 - off * 60 * 1000.
Definition day_count : Z := if vl_monday attr_val_list then 7 else 1.

(** The option literal, prepared for the kind of page. *)
Definition first_option : jsval :=
  let op := line_option (si_doc_path site) in
  if is_today
  then put [K (u "grid"); K (u "bottom")] (vint 80) (put [K (u "legend"); K (u "show")] yes op)
  else op.

Definition points (l : list (option Z * jstr)) : jsval := VArr (map point_val l).
Definition series (i : nat) (k : jstr) : list key := [K (u "series"); I i; K k].

(** The curves, and whether there is anything to show. *)
Definition has_data (v : attr_val) : bool :=
  (match av_value_list_str v with Some _ => true | None => false end && (0 <? av_max v))
  || (is_today && (negb (js_eqb (av_value_list_yst_str v) (u "0")) || negb (js_eqb (av_value_list_lwk_str v) (u "0")))).

Definition put_series (time_info : list Z) (v : attr_val) (op : jsval) : jsval :=
  let d0 := match av_value_list_str v with
            | Some s => if 0 <? av_max v then points (dmtGetYAxisData time_info s) else VArr []
            | None => VArr []
            end in
  let other (s : jstr) := if js_eqb s (u "0") then VArr [] else points (dmtGetYAxisData time_info s) in
  let op := put (series 0 (u "data")) d0 op in
  if is_today then
    let op := put (series 0 (u "name")) (VStr (u "今日 [" ++ vl_date_time_cur attr_val_list ++ u "]")) op in
    let op := put (series 1 (u "data")) (other (av_value_list_yst_str v)) op in
    let op := put (series 1 (u "name")) (VStr (u "昨日 [" ++ vl_date_time_yst attr_val_list ++ u "]")) op in
    let op := put (series 2 (u "data")) (other (av_value_list_lwk_str v)) op in
    put (series 2 (u "name")) (VStr (u "上周同日 [" ++ vl_date_time_wkd attr_val_list ++ u "]")) op
  else op.

(** The looks of a chart with data and of one without. *)
Definition put_looks (has : bool) (op : jsval) : jsval :=
  put (feature f_single) (VBool has)
   (put (feature (u "dataZoom")) (VBool has)
    (put [K (u "yAxis"); K (u "show")] (VBool has)
     (put [K (u "xAxis"); K (u "show")] (VBool has)
      (put [K (u "title"); K (u "top")] (vstr (if has then u "top" else u "20%"))
       (put [K (u "title"); K (u "subtextStyle"); K (u "color")] (vstr (if has then u "gray" else u "red")) op))))).

(** The option of one monitor point, written over the one of the point before. *)
Definition line_chart (a : option attr_info) (v : attr_val) (op : jsval) : jsval * clicks * warn_info :=
  let op := put_series (ref_time_info date_start day_count a) v op in
  let op := put [K (u "yAxis"); K (u "min")]
              (vint (if bool_decide (ref_data_type a = Some 5) then av_min v else 0)) op in
  let op := put [K (u "title"); K (u "text")] (dmtGetViewTitle showtype attr_val_list a) op in
  let op := put [K (u "title"); K (u "subtext")] (VStr (dmtGetViewSubTitle attr_val_list v a)) op in
  let '(op, clicks, w) := dmtSetCustToolBox site op showtype (with_single_type attr_val_list) v a None in
  (put_looks (has_data v) op, clicks, w).

(** A drawn chart replaces the one of the same container. *)
Definition draw (id : jstr) (op : jsval) (c : clicks) (w : option warn_info) (s : view) : view :=
  View (vw_events s ++ [DrawChart id op]) (vw_ids s)
    (<[id := Chart [op] c w g_dmtChartWidth]> (vw_charts s)).

(** The container of a value: an existing one is emptied, a new one is added. *)
Definition add_container (id : jstr) (s : view) : view :=
  View (vw_events s ++ (if bool_decide (id ∈ vw_ids s) then [ClearDiv id] else [])
        ++ [AppendDiv (container id)])
    (vw_ids s ++ [id]) (vw_charts s).

Definition dispose (id : jstr) (s : view) : view :=
  match vw_charts s !! id with
  | Some _ => View (vw_events s ++ [DisposeChart id]) (vw_ids s) (vw_charts s)
  | None => s
  end.

Definition set_height (id : jstr) (s : view) : view :=
  View (vw_events s ++ [SetHeight id g_dmtChartHeight]) (vw_ids s) (vw_charts s).

(** The monitor point of the [i]-th value: the [i]-th one, or the one found by its id.
    [None]: there is no [i]-th one, and reading its id throws. *)
Definition attr_of (i : nat) (v : attr_val) : option (option attr_info) :=
  match al_list attr_list !! i with
  | None => None
  | Some a => if ai_id a =? av_id v then Some (Some a)
              else Some (dmtGetAttrInfo attr_list (PNum (of_Z (av_id v))))
  end.

(** One turn of the loop: the option as it is left, the page, and whether the turn
    ended without an exception. *)
Definition show_value (i : nat) (v : attr_val) (op : jsval) (s : view) : jsval * view * bool :=
  let id := show_id v in
  let s := add_container id s in
  match attr_of i v with
  | None => (op, s, false)
  | Some a =>
      let s := dispose id s in
      if bool_decide (ref_data_type a = Some 7) then
        let s := set_height id s in
        match dmtSetStrAttrInfoChartIpGeo a v attr_val_list showtype with
        | Some o => (op, draw id o no_clicks None s, true)
        | None => (op, s, false)
        end
      else if bool_decide (ref_data_type a = Some 6) then
        (op, draw id (dmtSetStrAttrInfoChart a v attr_val_list showtype) no_clicks None (set_height id s), true)
      else
        let '(op, clicks, w) := line_chart a v op in
        (op, draw id op clicks (Some w) s, true)
  end.

Fixpoint show_loop (i : nat) (l : list attr_val) (op : jsval) (s : view) : view * bool :=
  match l with
  | [] => (s, true)
  | v :: l' =>
      let '(op, s, ok) := show_value i v op s in
      if ok then show_loop (S i) l' op s else (s, false)
  end.

(** The page after the call, and whether it ended without an exception. *)
Definition dmtShowAttrInfo (s : view) : view * bool :=
  match vl_list attr_val_list with
  | None => (s, true)
  | Some l => show_loop 0 l first_option s
  end.
End ShowAttrInfo.

(** ** Sizes of the charts *)

(** What is remembered of the last page shown. *)
Record last_page := LastPage { g_dmtLastTypeId : prim; g_dmtLastType : prim; g_dmtLastLeftShow : prim }.

(** [dmtSetChartSize] (with [Math.trunc]); [left_menu] is the width of the page's menu. *)
Definition dmtSetChartSize (e : window_env) (left_menu : Z) (g : last_page) : num :=
  let iSub := if we_sbar e then we_sidebar e + 10 else 24 in
  let iContentW := we_width e - iSub - 5 - 45 in
  let iContentW := if truthy (g_dmtLastLeftShow g) then iContentW - left_menu else iContentW in
  let xWidth := g_dmtChartMinWidth + g_dmtChartMargin * 2 in
  let xLeft := Z.rem iContentW xWidth in
  let xCount := Z.quot iContentW xWidth in
  num_add (of_Z g_dmtChartMinWidth) (trunc_div xLeft xCount).

Definition dmtSetRedrawChartsInfo (type_id type isLeftShow : prim) : last_page := LastPage type_id type isLeftShow.

(** The charts a redraw is about: those with the page's mark in their id. The ids and
    kinds of pages have no characters that are special in a pattern. *)
Definition page_key (g : last_page) : jstr := u "_" ++ to_str (g_dmtLastTypeId g) ++ to_str (g_dmtLastType g).
Definition in_page (keystr : jstr) (id : jstr) : bool := 0 <=? index_of id keystr.

Definition g_dmtRedrawChartCountShowProc : Z := 5.

(** What a redraw does: nothing; the call of the plugin's own function; or a redraw
    after a short time, with the progress bar shown when there are many charts. *)
Inductive redraw :=
  | NoRedraw
  | PluginChange (id : jstr)
  | RedrawLater (keystr : jstr) (show_progress : bool).

(** The walk over the charts ends the function at the first one that has the width. *)
Fixpoint count_redraw (keystr : jstr) (width : num) (l : list (jstr * chart)) (n : Z) : option Z :=
  match l with
  | [] => Some n
  | (id, c) :: l' =>
      if in_page keystr id then
        if num_eqb (ch_setwidth c) width then None else count_redraw keystr width l' (n + 1)
      else count_redraw keystr width l' n
  end.

(** [arg]: the page given to the call, if one is; otherwise the last one counts. *)
Definition dmtRedrawCharts (e : window_env) (left_menu : Z) (arg : option last_page) (g : last_page)
    (p : plugin_size) (width : num) (cs : charts) : last_page * plugin_size * num * redraw :=
  let g := match arg with Some a => a | None => g end in
  match g_dmtLastTypeId g with
  | PUndef | PNull => (g, p, width, NoRedraw)
  | id =>
      if loose_eq (g_dmtLastType g) (PStr (u "plugin")) then
        let '(changed, p) := dmtSetPluginShowWH e p in
        (g, p, width, if changed then PluginChange (to_str id) else NoRedraw)
      else
        let width := dmtSetChartSize e left_menu g in
        (g, p, width,
         match count_redraw (page_key g) width (map_to_list cs) 0 with
         | None => NoRedraw
         | Some n => RedrawLater (page_key g) (g_dmtRedrawChartCountShowProc <? n)
         end)
  end.

(** The callback of the redraw: the page's charts get the width of that moment. *)
Definition redraw_now (keystr : jstr) (width : num) (cs : charts) : charts :=
  map_imap (fun id c => Some (if in_page keystr id then set_width width c else c)) cs.

(** ** Pages and tabs *)

(** The part of a tab's id after its first underscore; an id without one has no such
    part. *)
Definition tab_type_id (nid : jstr) : prim :=
  match split_on 95 nid !! 1%nat with Some p => PStr p | None => PUndef end.

Definition has_text (nid t : jstr) : bool := 0 <=? index_of nid t.

(** [hidden id]: the left menu of the page [id] is not displayed. [None]: the tab
    shows no charts. *)
Definition redrawChartsOnSwitchTab (nid : jstr) (hidden : jstr -> bool) : option last_page :=
  let id := tab_type_id nid in
  if has_text nid (u "showmachine_") then
    Some (dmtSetRedrawChartsInfo id (PStr (u "machine")) (PBool (negb (hidden (u "#dsmLeftMenu_" ++ to_str id)))))
  else if has_text nid (u "showplugin_") then
    Some (dmtSetRedrawChartsInfo id (PStr (u "plugin")) (PBool false))
  else if has_text nid (u "showview_") then
    Some (dmtSetRedrawChartsInfo id (PStr (u "view")) (PBool (negb (hidden (u "#dsLeftMenu_" ++ to_str id)))))
  else None.

(** The functions called when the window changes its size. *)
Inductive resize_call := RedrawTab | PluginMargin (tab : jstr) | OnMainPage | MainSize | MainRedraw.

Definition redrawCharts (nid : option jstr) : list resize_call :=
  match nid with
  | Some nid =>
      (if has_text nid (u "showmachine_") || has_text nid (u "showview_") || has_text nid (u "showplugin_")
       then [RedrawTab] else [])
      ++ (if has_text nid (u "dmt_plugin_") then [PluginMargin nid] else [])
  | None => [OnMainPage]
  end.

Definition redrawChartsMain (main_selected : bool) : list resize_call :=
  if main_selected then [MainSize; MainRedraw] else [].
