(* ===== verification/CommChartProps.v ===== *)
(** * Properties of the charts: options do not leak from one chart to the next, every
    value gets its chart, the buttons, the sizes *)

From Stdlib Require Import ZArith QArith Lia.
From stdpp Require Import base tactics list numbers strings gmap.
From S2P Require Import Prelude JsValue CommFormat CommSeries CommTree CommPage CommOption CommChart.
Local Open Scope Z_scope.

(** ** One option object for all charts *)

(** The values that one turn writes. *)
Record writes := Writes {
  w_d0 : jsval; w_n0 : jsval; w_d1 : jsval; w_n1 : jsval; w_d2 : jsval; w_n2 : jsval;
  w_min : jsval; w_text : jsval; w_sub : jsval; w_unmask : bool; w_set : bool; w_mask : bool;
  w_has : jsval; w_top : jsval; w_color : jsval
}.

Definition write (today : bool) (w : writes) (op : jsval) : jsval :=
  let op := put (series 0 (u "data")) (w_d0 w) op in
  let op := if today then
      put (series 2 (u "name")) (w_n2 w) (put (series 2 (u "data")) (w_d2 w)
        (put (series 1 (u "name")) (w_n1 w) (put (series 1 (u "data")) (w_d1 w)
          (put (series 0 (u "name")) (w_n0 w) op))))
    else op in
  let op := put [K (u "yAxis"); K (u "min")] (w_min w) op in
  let op := put [K (u "title"); K (u "subtext")] (w_sub w) (put [K (u "title"); K (u "text")] (w_text w) op) in
  let op := show_buttons (w_unmask w) (w_set w) (w_mask w) op in
  put (feature f_single) (w_has w)
   (put (feature (u "dataZoom")) (w_has w)
    (put [K (u "yAxis"); K (u "show")] (w_has w)
     (put [K (u "xAxis"); K (u "show")] (w_has w)
      (put [K (u "title"); K (u "top")] (w_top w)
       (put [K (u "title"); K (u "subtextStyle"); K (u "color")] (w_color w) op))))).

Lemma write_twice site l w w' :
  let op := first_option site l in
  write (is_today l) w (write (is_today l) w' op) = write (is_today l) w op.
Proof.
  unfold first_option. destruct (is_today l), w, w'; vm_compute; reflexivity.
Qed.

Section Writes.
Context (site : site_info) (off : Z) (l : attr_val_list) (showtype : jstr).

(** The values that a monitor point's turn writes: they depend on nothing else. *)
Definition writes_of (a : option attr_info) (v : attr_val) : writes :=
  let ti := ref_time_info (date_start off l) (day_count l) a in
  let other (s : jstr) := if js_eqb s (u "0") then VArr [] else points (dmtGetYAxisData ti s) in
  let masked := has_bit (av_warn_flag v) 32 in
  Writes
    (match av_value_list_str v with
     | Some s => if 0 <? av_max v then points (dmtGetYAxisData ti s) else VArr [] | None => VArr [] end)
    (VStr (u "今日 [" ++ vl_date_time_cur l ++ u "]"))
    (other (av_value_list_yst_str v)) (VStr (u "昨日 [" ++ vl_date_time_yst l ++ u "]"))
    (other (av_value_list_lwk_str v)) (VStr (u "上周同日 [" ++ vl_date_time_wkd l ++ u "]"))
    (vint (if bool_decide (ref_data_type a = Some 5) then av_min v else 0))
    (dmtGetViewTitle showtype l a) (VStr (dmtGetViewSubTitle l v a))
    masked (negb masked) (negb masked && has_threshold (av_warn_flag v))
    (VBool (has_data l v)) (vstr (if has_data l v then u "top" else u "20%"))
    (vstr (if has_data l v then u "gray" else u "red")).

Lemma line_chart_writes a v op :
  fst (fst (line_chart site off l showtype a v op)) = write (is_today l) (writes_of a v) op.
Proof.
  unfold line_chart, put_series, dmtSetCustToolBox, put_looks, write, writes_of.
  cbn [w_d0 w_n0 w_d1 w_n1 w_d2 w_n2 w_min w_text w_sub w_unmask w_set w_mask w_has w_top w_color].
  destruct (is_today l); (destruct (has_bit (av_warn_flag v) 32); [|destruct (has_threshold (av_warn_flag v))]);
    reflexivity.
Qed.

(** The handlers and the warning data of a turn do not depend on the option. *)
Lemma line_chart_rest a v op op' :
  snd (fst (line_chart site off l showtype a v op)) = snd (fst (line_chart site off l showtype a v op')) /\
  snd (line_chart site off l showtype a v op) = snd (line_chart site off l showtype a v op').
Proof.
  unfold line_chart, dmtSetCustToolBox.
  destruct (has_bit (av_warn_flag v) 32); [|destruct (has_threshold (av_warn_flag v))]; done.
Qed.

(** An option as the loop can have it: the literal, or one written by a turn. *)
Definition loop_option (op : jsval) : Prop :=
  op = first_option site l \/ exists a v, op = write (is_today l) (writes_of a v) (first_option site l).

Lemma line_chart_alone a v op : loop_option op ->
  line_chart site off l showtype a v op = line_chart site off l showtype a v (first_option site l).
Proof.
  intros H. destruct (line_chart_rest a v op (first_option site l)) as [H1 H2].
  assert (H3 : fst (fst (line_chart site off l showtype a v op))
               = fst (fst (line_chart site off l showtype a v (first_option site l)))).
  { rewrite !line_chart_writes. destruct H as [->|(a' & v' & ->)]; [done|apply write_twice]. }
  destruct (line_chart _ _ _ _ _ _ op) as [[o c] w], (line_chart _ _ _ _ _ _ (first_option site l)) as [[o' c'] w'].
  cbn in *. by subst.
Qed.
End Writes.

Local Opaque line_chart first_option write container.

Section Show.
Context (site : site_info) (width : num) (off : Z) (al : attr_list) (l : attr_val_list) (showtype : jstr).

Local Abbreviation show_value := (show_value site width off al l showtype).
Local Abbreviation show_loop := (show_loop site width off al l showtype).

Lemma show_value_alone i v op s : loop_option site off l showtype op ->
  snd (fst (show_value i v op s)) = snd (fst (show_value i v (first_option site l) s)) /\
  snd (show_value i v op s) = snd (show_value i v (first_option site l) s) /\
  loop_option site off l showtype (fst (fst (show_value i v op s))).
Proof.
  intros H. unfold CommChart.show_value.
  assert (same : forall (s : view) (ok : bool), s = s /\ ok = ok /\ loop_option site off l showtype op) by done.
  destruct (attr_of al i v) as [a|]; [|exact (same _ false)].
  destruct (bool_decide (ref_data_type a = Some 7)).
  { destruct (dmtSetStrAttrInfoChartIpGeo _ _ _ _); [exact (same _ true)|exact (same _ false)]. }
  destruct (bool_decide (ref_data_type a = Some 6)); [exact (same _ true)|]. rewrite (line_chart_alone site off l showtype a v op H).
  pose proof (line_chart_writes site off l showtype a v (first_option site l)) as Hw.
  destruct (line_chart _ _ _ _ _ _ (first_option site l)) as [[o c] w]. cbn in *. subst o.
  repeat split. right. by exists a, v.
Qed.

(** The loop with a fresh option for each value. *)
Fixpoint show_each (i : nat) (vs : list attr_val) (s : view) : view * bool :=
  match vs with
  | [] => (s, true)
  | v :: vs' =>
      let '(_, s, ok) := show_value i v (first_option site l) s in
      if ok then show_each (S i) vs' s else (s, false)
  end.

Lemma show_loop_each vs : forall i op s, loop_option site off l showtype op ->
  show_loop i vs op s = show_each i vs s.
Proof.
  induction vs as [|v vs IH]; intros i op s Hop; [done|]. cbn [CommChart.show_loop show_each].
  destruct (show_value_alone i v op s Hop) as (H1 & H2 & H3).
  destruct (show_value i v op s) as [[o1 s1] ok1], (show_value i v (first_option site l) s) as [[o2 s2] ok2].
  cbn [fst snd] in *. subst. destruct ok2; [|done]. by apply IH.
Qed.

(** ** Every value gets its chart *)

Lemma show_value_draws i v op s : snd (show_value i v op s) = true ->
  let s' := snd (fst (show_value i v op s)) in
  vw_ids s' = vw_ids s ++ [show_id l showtype v] /\
  exists o c w, vw_charts s' = <[show_id l showtype v := Chart [o] c w width]> (vw_charts s).
Proof.
  intros Hok. cbv zeta. revert Hok. unfold CommChart.show_value. destruct (attr_of al i v) as [a|]; [|done].
  set (s1 := dispose _ (add_container _ _ _ _ _)).
  assert (Hs1 : vw_ids s1 = vw_ids s ++ [show_id l showtype v] /\ vw_charts s1 = vw_charts s).
  { subst s1. unfold dispose. by destruct (vw_charts (add_container _ _ _ _ _) !! _). }
  destruct Hs1 as [H1 H2]. destruct (bool_decide _); [|destruct (bool_decide _)].
  - destruct (dmtSetStrAttrInfoChartIpGeo _ _ _ _); [|done]. intros _. cbn. split; [done|].
    rewrite H2. by eexists _, _, _.
  - intros _. cbn. split; [done|]. rewrite H2. by eexists _, _, _.
  - destruct (line_chart _ _ _ _ _ _ _) as [[o c] w]. intros _. cbn. split; [done|].
    rewrite H2. by eexists _, _, _.
Qed.

Lemma show_loop_draws vs : forall i op s, snd (show_loop i vs op s) = true ->
  let s' := fst (show_loop i vs op s) in
  vw_ids s' = vw_ids s ++ map (show_id l showtype) vs /\
  (forall id, id ∈ map (show_id l showtype) vs -> exists o c w, vw_charts s' !! id = Some (Chart [o] c w width)) /\
  (forall id, id ∉ map (show_id l showtype) vs -> vw_charts s' !! id = vw_charts s !! id).
Proof.
  induction vs as [|v vs IH]; intros i op s Hok; cbn [CommChart.show_loop map] in *.
  { cbn. rewrite app_nil_r. split; [done|]. split; [by intros id ?%elem_of_nil|done]. }
  pose proof (show_value_draws i v op s) as Hv.
  destruct (show_value i v op s) as [[op' s1] ok]. cbn [fst snd] in *. destruct ok; [|done].
  destruct (Hv eq_refl) as (Hids & o & c & w & Hc). destruct (IH (S i) op' s1 Hok) as (H1 & H2 & H3).
  split; [by rewrite H1, Hids, <- app_assoc|]. split.
  - intros id Hid. destruct (decide (id ∈ map (show_id l showtype) vs)) as [Hin|Hout]; [by apply H2|].
    apply elem_of_cons in Hid as [->|Hid]; [|done]. rewrite H3, Hc by done.
    exists o, c, w. apply lookup_insert_eq.
  - intros id [Hne Hout]%not_elem_of_cons. rewrite H3, Hc by done. by apply lookup_insert_ne.
Qed.
End Show.

(** C39. All charts are drawn from one option object that each turn changes: the result is
    the same as with a fresh object for every chart, so nothing of one monitor point
    shows in the next. *)
Theorem options_do_not_leak site width off al l showtype vs s :
  vl_list l = Some vs ->
  dmtShowAttrInfo site width off al l showtype s = show_each site width off al l showtype 0 vs s.
Proof.
  intros H. unfold dmtShowAttrInfo. rewrite H. apply show_loop_each. by left.
Qed.

(** When the call ends without an exception, every value of the list has a container
    and a chart of the current width; the charts of other containers are as before. *)
Theorem every_value_shown site width off al l showtype vs s :
  vl_list l = Some vs -> snd (dmtShowAttrInfo site width off al l showtype s) = true ->
  let s' := fst (dmtShowAttrInfo site width off al l showtype s) in
  vw_ids s' = vw_ids s ++ map (show_id l showtype) vs /\
  (forall v, v ∈ vs -> exists o c w, vw_charts s' !! show_id l showtype v = Some (Chart [o] c w width)) /\
  (forall id, id ∉ map (show_id l showtype) vs -> vw_charts s' !! id = vw_charts s !! id).
Proof.
  unfold dmtShowAttrInfo. intros -> Hok.
  destruct (show_loop_draws site width off al l showtype vs 0 (first_option site l) s Hok) as (H1 & H2 & H3).
  split; [done|]. split; [|done]. intros v Hv. apply H2.
  apply list_elem_of_In, in_map. by apply list_elem_of_In.
Qed.

(** A view with a curve and a ring of strings. *)
Definition sample_site : site_info := SiteInfo (Some (u "/cgi-bin/")) (u "/doc/").
Definition sample_points : attr_list :=
  AttrList (PNum (of_Z 3)) PUndef 2 [AttrInfo 5 (u "cpu") 1 5 288 (u "percent") 1 0; AttrInfo 6 (u "err") 6 5 288 (u "comm") 1 0].
Definition sample_vals : list attr_val :=
  [AttrVal 6 0 0 0 0 None (u "0") (u "0") 0 PUndef PUndef PUndef 0 1 [StrItem (u "x") 4];
   AttrVal 5 9 1 10 2 (Some (u "1,-,9")) (u "0") (u "0") 1 (PNum (of_Z 8)) PUndef PUndef 4 0 []].
Definition sample_list : attr_val_list :=
  AttrValList (Some sample_vals) (PNum (of_Z 3)) PUndef 1 1000 false [] [] [] [] [] (u "/cgi/") PUndef.
Definition empty_view : view := View [] [] ∅.

Lemma options_do_not_leak_witness :
  vl_list sample_list = Some sample_vals /\
  dmtShowAttrInfo sample_site (of_Z 560) 0 sample_points sample_list (u "view") empty_view
  = show_each sample_site (of_Z 560) 0 sample_points sample_list (u "view") 0 sample_vals empty_view.
Proof.
  assert (H : vl_list sample_list = Some sample_vals) by reflexivity.
  split; [exact H|]. apply (options_do_not_leak sample_site (of_Z 560) 0 sample_points sample_list (u "view")).
  exact H.
Defined.

Lemma every_value_shown_witness :
  let s' := fst (dmtShowAttrInfo sample_site (of_Z 560) 0 sample_points sample_list (u "view") empty_view) in
  vw_ids s' = [u "attr_6_3view"; u "attr_5_3view"] /\
  exists o c w, vw_charts s' !! u "attr_5_3view" = Some (Chart [o] c w (of_Z 560)).
Proof.
  destruct (every_value_shown sample_site (of_Z 560) 0 sample_points sample_list (u "view") sample_vals empty_view)
    as (H1 & H2 & _); [reflexivity|vm_compute; reflexivity|].
  split; [exact H1|]. apply (H2 (List.nth 1 sample_vals (AttrVal 0 0 0 0 0 None [] [] 0 PUndef PUndef PUndef 0 0 []))).
  right. left.
Defined.

(** ** Buttons *)

Local Transparent line_chart first_option write.

(** Which of the three warning buttons an option shows: unmask, set, mask. *)
Definition buttons (op : jsval) : jsval * jsval * jsval :=
  (get (feature f_unmask) op, get (feature f_set) op, get (feature f_mask) op).

(** The buttons of a new chart. *)
Lemma chart_buttons site l showtype v a :
  buttons (fst (fst (dmtSetCustToolBox site (line_option []) showtype l v a None)))
  = let masked := has_bit (av_warn_flag v) 32 in
    (VBool masked, VBool (negb masked), VBool (negb masked && has_threshold (av_warn_flag v))).
Proof.
  unfold dmtSetCustToolBox. destruct (has_bit (av_warn_flag v) 32); [|destruct (has_threshold _)];
    vm_compute; reflexivity.
Qed.

Lemma answer_buttons flag subtitle :
  buttons (fst (mask_buttons flag (mask_literal subtitle)))
  = if has_bit flag 32 then (yes, no, no)
    else (no, VBool (has_threshold flag), yes).
Proof.
  unfold mask_buttons. destruct (has_bit flag 32); [|destruct (has_threshold flag)]; vm_compute; reflexivity.
Qed.

(** After a mask request is answered, the chart shows the buttons that a new chart with
    the same flags has, except for flags without threshold and mask: then the "set"
    button is hidden and the "mask" button is left, the other way round than in a new
    chart. *)
Theorem answer_buttons_agree site l showtype v a subtitle :
  buttons (fst (mask_buttons (av_warn_flag v) (mask_literal subtitle)))
  = buttons (fst (fst (dmtSetCustToolBox site (line_option []) showtype l v a None)))
  <-> has_bit (av_warn_flag v) 32 = true \/ has_threshold (av_warn_flag v) = true.
Proof.
  rewrite chart_buttons, answer_buttons.
  destruct (has_bit (av_warn_flag v) 32), (has_threshold (av_warn_flag v)); cbn; unfold yes, no;
    split; try (intros [H|H]; done); try (by intros _; auto); try done.
Qed.

(** The chart remembers the request to make: mask (1) exactly when the "mask" button
    is shown. *)
Theorem mask_matches_button site l showtype v a :
  let '(op, _, w) := dmtSetCustToolBox site (line_option []) showtype l v a None in
  get (feature f_mask) op = VBool (wi_mask w =? 1) /\ (wi_mask w = 0 \/ wi_mask w = 1).
Proof.
  unfold dmtSetCustToolBox. destruct (has_bit (av_warn_flag v) 32); [|destruct (has_threshold _)];
    (split; [vm_compute; reflexivity|cbn; auto]).
Qed.

(** With an empty site path the chart keeps no path of its own, and the requests of its
    buttons go to an address that starts with the word undefined. *)
Theorem empty_path_lost doc op l showtype v a id :
  let site := SiteInfo (Some []) doc in
  let '(op', c, w) := dmtSetCustToolBox site op showtype l v a None in
  dmtMaskWarnConfig site {[ chart_idx showtype id (ref_id a) := Chart [op'] c (Some w) zero ]} showtype id (ref_id a)
  = inr (MaskRequest (u "undefinedmt_slog_warn") (wi_mask w) (wi_warn_cfg_id w)).
Proof.
  cbv zeta. unfold dmtSetCustToolBox. cbn [si_cgi_path].
  destruct (has_bit (av_warn_flag v) 32); [|destruct (has_threshold (av_warn_flag v))];
    cbv beta iota; unfold dmtMaskWarnConfig, warn_of; cbv beta zeta; rewrite lookup_singleton_eq; reflexivity.
Qed.

(** ** Sizes *)

Definition content_width (e : window_env) (left_menu : Z) (g : last_page) : Z :=
  let w := we_width e - (if we_sbar e then we_sidebar e + 10 else 24) - 5 - 45 in
  if truthy (g_dmtLastLeftShow g) then w - left_menu else w.

(** In a window wide enough for one chart, the charts have at least their least width
    and as many of them as fit with it still fit in a row, with less than one pixel
    each to spare. *)
Theorem charts_fit e left_menu g :
  let c := content_width e left_menu g in
  600 <= c ->
  exists w, dmtSetChartSize e left_menu g = of_Z w /\ 560 <= w /\
    let n := c / 600 in n * (w + 40) <= c < n * (w + 41).
Proof.
  intros c Hc. unfold dmtSetChartSize.
  change (if truthy (g_dmtLastLeftShow g) then _ else _) with c.
  change (g_dmtChartMinWidth + g_dmtChartMargin * 2) with 600.
  rewrite Z.rem_mod_nonneg, Z.quot_div_nonneg by lia. unfold trunc_div.
  assert (Hn : 1 <= c / 600) by (apply Z.div_le_lower_bound; lia).
  rewrite (proj2 (Z.eqb_neq (c / 600) 0)) by lia.
  pose proof (Z.mod_pos_bound c 600 ltac:(lia)) as Hm. rewrite Z.quot_div_nonneg by lia.
  rewrite of_Z_add. eexists. split; [reflexivity|]. unfold g_dmtChartMinWidth.
  pose proof (Z.div_mod c 600 ltac:(lia)) as Hd. set (n := c / 600) in *. set (r := c mod 600) in *.
  pose proof (Z.div_mod r n ltac:(lia)) as Hr. pose proof (Z.mod_pos_bound r n ltac:(lia)).
  pose proof (Z.div_pos r n ltac:(lia) ltac:(lia)). set (k := r / n) in *. nia.
Qed.

Lemma charts_fit_witness :
  let e := WindowEnv true 200 1500 800 50 30 20 in
  let g := LastPage (PNum (of_Z 1)) (PStr (u "view")) (PBool false) in
  600 <= content_width e 0 g /\ exists w, dmtSetChartSize e 0 g = of_Z w /\ 560 <= w /\
    let n := content_width e 0 g / 600 in n * (w + 40) <= content_width e 0 g < n * (w + 41).
Proof.
  intros e g. assert (H : 600 <= content_width e 0 g) by (vm_compute; discriminate).
  split; [exact H|exact (charts_fit e 0 g H)].
Defined.

(** A window narrower than one chart gives no usable width. *)
Theorem narrow_window_width e left_menu g :
  let c := content_width e left_menu g in
  0 < c < 600 -> dmtSetChartSize e left_menu g = PosInf.
Proof.
  intros c Hc. unfold dmtSetChartSize. change (if truthy (g_dmtLastLeftShow g) then _ else _) with c.
  change (g_dmtChartMinWidth + g_dmtChartMargin * 2) with 600.
  rewrite Z.rem_small, Z.quot_small by lia. unfold trunc_div. cbn [Z.eqb].
  by rewrite (proj2 (Z.eqb_neq c 0)) by lia.
Qed.

Lemma narrow_window_width_witness :
  let e := WindowEnv true 200 600 800 50 30 20 in
  let g := LastPage (PNum (of_Z 1)) (PStr (u "view")) (PBool false) in
  0 < content_width e 0 g < 600 /\ dmtSetChartSize e 0 g = PosInf.
Proof.
  intros e g. assert (H : 0 < content_width e 0 g < 600) by (vm_compute; split; reflexivity).
  split; [exact H|exact (narrow_window_width e 0 g H)].
Defined.

(** ** Redrawing *)

Lemma count_redraw_none keystr w l : forall n,
  (exists id c, (id, c) ∈ l /\ in_page keystr id = true /\ num_eqb (ch_setwidth c) w = true) ->
  count_redraw keystr w l n = None.
Proof.
  induction l as [|[id c] l IH]; intros n (id' & c' & Hin & H1 & H2); [by apply elem_of_nil in Hin|].
  cbn. apply elem_of_cons in Hin as [[= <- <-]|Hin].
  - by rewrite H1, H2.
  - destruct (in_page keystr id); [destruct (num_eqb (ch_setwidth c) w); [reflexivity|]|]; apply IH; by exists id', c'.
Qed.

(** A redraw gives all charts of the page the new width and leaves the others; asked
    again in the same window, nothing is redrawn. *)
Theorem redraw_settles e left_menu arg g p w cs g' p' w' k shown :
  dmtRedrawCharts e left_menu arg g p w cs = (g', p', w', RedrawLater k shown) ->
  num_eqb w' w' = true -> (exists id c, cs !! id = Some c /\ in_page k id = true) ->
  let cs' := redraw_now k w' cs in
  (forall id, cs' !! id = (fun c => if in_page k id then set_width w' c else c) <$> cs !! id) /\
  dmtRedrawCharts e left_menu None g' p' w' cs' = (g', p', w', NoRedraw).
Proof.
  intros H Hw (id & c & Hid & Hk). cbv zeta.
  assert (Hl : forall id, redraw_now k w' cs !! id = (fun c => if in_page k id then set_width w' c else c) <$> cs !! id).
  { intros i. unfold redraw_now. rewrite map_lookup_imap. by destruct (cs !! i). }
  split; [exact Hl|]. unfold dmtRedrawCharts in *.
  set (g1 := match arg with Some a => a | None => g end) in *.
  assert (Hc : forall X, count_redraw k w' (map_to_list (redraw_now k w' cs)) X = None).
  { intros X. apply count_redraw_none. exists id, (set_width w' c).
    split; [apply elem_of_map_to_list; by rewrite Hl, Hid; cbn; rewrite Hk|]. by split. }
  destruct (g_dmtLastTypeId g1) eqn:Et; try discriminate H;
    (destruct (loose_eq (g_dmtLastType g1) _) eqn:Ep;
     [destruct (dmtSetPluginShowWH e p) as [[] ?]; discriminate H|]);
    (destruct (count_redraw _ _ _ _); [|discriminate H]); injection H as <- <- <- <- <-;
    rewrite Et, Ep, Hc; reflexivity.
Qed.

Lemma redraw_settles_witness :
  let e := WindowEnv true 200 1500 800 50 30 20 in
  let g := LastPage (PNum (of_Z 3)) (PStr (u "view")) (PBool false) in
  let cs : charts := {[ u "attr_5_3view" := Chart [] no_clicks None (of_Z 560) ]} in
  let k := u "_3view" in
  dmtRedrawCharts e 0 (Some g) g (PluginSize 0 0) NaN cs = (g, PluginSize 0 0, of_Z 580, RedrawLater k false) /\
  dmtRedrawCharts e 0 None g (PluginSize 0 0) (of_Z 580) (redraw_now k (of_Z 580) cs)
  = (g, PluginSize 0 0, of_Z 580, NoRedraw).
Proof.
  intros e g cs k.
  assert (H : dmtRedrawCharts e 0 (Some g) g (PluginSize 0 0) NaN cs = (g, PluginSize 0 0, of_Z 580, RedrawLater k false))
    by (vm_compute; reflexivity).
  split; [exact H|].
  apply (redraw_settles e 0 (Some g) g (PluginSize 0 0) NaN cs g (PluginSize 0 0) (of_Z 580) k false H); [reflexivity|].
  exists (u "attr_5_3view"), (Chart [] no_clicks None (of_Z 560)). split; reflexivity.
Defined.
