(* ===== verification/Md5.v ===== *)
(** * [html/resource/js/jquery.md5.js]: the MD5 digest of a string

    The words of the script are signed 32-bit integers, as its bit operators leave
    them. *)

From Stdlib Require Import ZArith Lia.
From stdpp Require Import base tactics list numbers strings.
From S2P Require Import Prelude Base64 Json.
Local Open Scope Z_scope.

Definition rotateLeft (lValue iShiftBits : Z) : Z :=
  js_or (js_shl lValue iShiftBits) (js_ushr lValue (32 - iShiftBits)).

Definition addUnsigned (lX lY : Z) : Z :=
  let lX8 := js_and lX 0x80000000 in
  let lY8 := js_and lY 0x80000000 in
  let lX4 := js_and lX 0x40000000 in
  let lY4 := js_and lY 0x40000000 in
  let lResult := js_and lX 0x3FFFFFFF + js_and lY 0x3FFFFFFF in
  if has_bit lX4 lY4 then js_xor (js_xor (js_xor lResult 0x80000000) lX8) lY8
  else if negb (js_or lX4 lY4 =? 0) then
    if has_bit lResult 0x40000000
    then js_xor (js_xor (js_xor lResult 0xC0000000) lX8) lY8
    else js_xor (js_xor (js_xor lResult 0x40000000) lX8) lY8
  else js_xor (js_xor lResult lX8) lY8.

Definition F (x y z : Z) : Z := js_or (js_and x y) (js_and (js_not x) z).
Definition G (x y z : Z) : Z := js_or (js_and x z) (js_and y (js_not z)).
Definition H (x y z : Z) : Z := js_xor (js_xor x y) z.
Definition I (x y z : Z) : Z := js_xor y (js_or x (js_not z)).

(** [FF], [GG], [HH] and [II] differ in their function only. *)
Definition step_with (f : Z -> Z -> Z -> Z) (a b c d x s ac : Z) : Z :=
  let a := addUnsigned a (addUnsigned (addUnsigned (f b c d) x) ac) in
  addUnsigned (rotateLeft a s) b.
Definition FF : Z -> Z -> Z -> Z -> Z -> Z -> Z -> Z := step_with F.
Definition GG : Z -> Z -> Z -> Z -> Z -> Z -> Z -> Z := step_with G.
Definition HH : Z -> Z -> Z -> Z -> Z -> Z -> Z -> Z := step_with H.
Definition II : Z -> Z -> Z -> Z -> Z -> Z -> Z -> Z := step_with I.

(** ** The words of the message

    A place of the array that was never written counts as 0. *)

Definition set_bits (w : nat) (v : Z) (l : list Z) : list Z := alter (fun x => js_or x v) w l.

(** The loop over the bytes from [lByteCount] on. *)
Fixpoint fill (lByteCount : Z) (string : jstr) (lWordArray : list Z) : list Z :=
  match string with
  | [] => lWordArray
  | c :: string' =>
      let lWordCount := (lByteCount - lByteCount mod 4) / 4 in
      let lBytePosition := lByteCount mod 4 * 8 in
      fill (lByteCount + 1) string' (set_bits (Z.to_nat lWordCount) (js_shl c lBytePosition) lWordArray)
  end.

Definition number_of_words (lMessageLength : Z) : Z :=
  let one := lMessageLength + 8 in
  let two := (one - one mod 64) / 64 in
  (two + 1) * 16.

Definition convertToWordArray (string : jstr) : list Z :=
  let lMessageLength := js_length string in
  let lNumberOfWords := number_of_words lMessageLength in
  let lWordArray := fill 0 string (replicate (Z.to_nat lNumberOfWords) 0) in
  let lWordCount := (lMessageLength - lMessageLength mod 4) / 4 in
  let lBytePosition := lMessageLength mod 4 * 8 in
  let lWordArray := set_bits (Z.to_nat lWordCount) (js_shl 0x80 lBytePosition) lWordArray in
  <[Z.to_nat (lNumberOfWords - 1) := js_ushr lMessageLength 29]>
    (<[Z.to_nat (lNumberOfWords - 2) := js_shl lMessageLength 3]> lWordArray).

(** ** The digest *)

Definition wordToHex (lValue : Z) : jstr :=
  flat_map (fun lCount =>
    let lByte := js_and (js_ushr lValue (lCount * 8)) 255 in
    slice_last 2 (48 :: Z_to_hex lByte)) [0; 1; 2; 3].

(** Four lines of the main loop: [a], [d], [c] and [b] are rewritten in turn. *)
Definition four (f : Z -> Z -> Z -> Z -> Z -> Z -> Z -> Z) (x : nat -> Z)
    (ks : nat * nat * nat * nat) (ss acs : Z * Z * Z * Z) (st : Z * Z * Z * Z) : Z * Z * Z * Z :=
  let '(k1, k2, k3, k4) := ks in
  let '(s1, s2, s3, s4) := ss in
  let '(ac1, ac2, ac3, ac4) := acs in
  let '(a, b, c, d) := st in
  let a := f a b c d (x k1) s1 ac1 in
  let d := f d a b c (x k2) s2 ac2 in
  let c := f c d a b (x k3) s3 ac3 in
  let b := f b c d a (x k4) s4 ac4 in
  (a, b, c, d).

Definition S1 : Z * Z * Z * Z := (7, 12, 17, 22).
Definition S2 : Z * Z * Z * Z := (5, 9, 14, 20).
Definition S3 : Z * Z * Z * Z := (4, 11, 16, 23).
Definition S4 : Z * Z * Z * Z := (6, 10, 15, 21).

(** The body of the main loop, on the 16 words of one block. *)
Definition block (x : nat -> Z) (st : Z * Z * Z * Z) : Z * Z * Z * Z :=
  let '(AA, BB, CC, DD) := st in
  let st := four FF x (0, 1, 2, 3)%nat S1 (0xD76AA478, 0xE8C7B756, 0x242070DB, 0xC1BDCEEE) st in
  let st := four FF x (4, 5, 6, 7)%nat S1 (0xF57C0FAF, 0x4787C62A, 0xA8304613, 0xFD469501) st in
  let st := four FF x (8, 9, 10, 11)%nat S1 (0x698098D8, 0x8B44F7AF, 0xFFFF5BB1, 0x895CD7BE) st in
  let st := four FF x (12, 13, 14, 15)%nat S1 (0x6B901122, 0xFD987193, 0xA679438E, 0x49B40821) st in
  let st := four GG x (1, 6, 11, 0)%nat S2 (0xF61E2562, 0xC040B340, 0x265E5A51, 0xE9B6C7AA) st in
  let st := four GG x (5, 10, 15, 4)%nat S2 (0xD62F105D, 0x2441453, 0xD8A1E681, 0xE7D3FBC8) st in
  let st := four GG x (9, 14, 3, 8)%nat S2 (0x21E1CDE6, 0xC33707D6, 0xF4D50D87, 0x455A14ED) st in
  let st := four GG x (13, 2, 7, 12)%nat S2 (0xA9E3E905, 0xFCEFA3F8, 0x676F02D9, 0x8D2A4C8A) st in
  let st := four HH x (5, 8, 11, 14)%nat S3 (0xFFFA3942, 0x8771F681, 0x6D9D6122, 0xFDE5380C) st in
  let st := four HH x (1, 4, 7, 10)%nat S3 (0xA4BEEA44, 0x4BDECFA9, 0xF6BB4B60, 0xBEBFBC70) st in
  let st := four HH x (13, 0, 3, 6)%nat S3 (0x289B7EC6, 0xEAA127FA, 0xD4EF3085, 0x4881D05) st in
  let st := four HH x (9, 12, 15, 2)%nat S3 (0xD9D4D039, 0xE6DB99E5, 0x1FA27CF8, 0xC4AC5665) st in
  let st := four II x (0, 7, 14, 5)%nat S4 (0xF4292244, 0x432AFF97, 0xAB9423A7, 0xFC93A039) st in
  let st := four II x (12, 3, 10, 1)%nat S4 (0x655B59C3, 0x8F0CCC92, 0xFFEFF47D, 0x85845DD1) st in
  let st := four II x (8, 15, 6, 13)%nat S4 (0x6FA87E4F, 0xFE2CE6E0, 0xA3014314, 0x4E0811A1) st in
  let st := four II x (4, 11, 2, 9)%nat S4 (0xF7537E82, 0xBD3AF235, 0x2AD7D2BB, 0xEB86D391) st in
  let '(a, b, c, d) := st in
  (addUnsigned a AA, addUnsigned b BB, addUnsigned c CC, addUnsigned d DD).

(** The main loop; [fuel] bounds the number of blocks by the number of words. *)
Fixpoint blocks (fuel : nat) (x : list Z) (st : Z * Z * Z * Z) : Z * Z * Z * Z :=
  match fuel, x with
  | S fuel, _ :: _ => blocks fuel (drop 16 x) (block (fun i => List.nth i x 0) st)
  | _, _ => st
  end.

Definition to_lower (s : jstr) : jstr := map (fun c => if (65 <=? c) && (c <=? 90) then c + 32 else c) s.

(** [uTF8Encode] is, unit for unit, the encoder of the Base64 code. *)
Definition md5 (string : jstr) : jstr :=
  let x := convertToWordArray (Utf8.utf8_encode string) in
  let '(a, b, c, d) := blocks (length x) x (0x67452301, 0xEFCDAB89, 0x98BADCFE, 0x10325476) in
  to_lower (wordToHex a ++ wordToHex b ++ wordToHex c ++ wordToHex d).

Example md5_empty : md5 [] = u "d41d8cd98f00b204e9800998ecf8427e".
Proof. vm_compute. reflexivity. Qed.
Example md5_abc : md5 (u "abc") = u "900150983cd24fb0d6963f7d28e17f72".
Proof. vm_compute. reflexivity. Qed.
Example md5_persian : md5 (u "I'm Persian.") = u "b8c901d0f02223f9761016cfff9d68df".
Proof. vm_compute. reflexivity. Qed.
Example md5_long :
  md5 (u "12345678901234567890123456789012345678901234567890123456789012345678901234567890")
  = u "57edf4a22be3c955ac49da2e2107b67a".
Proof. vm_compute. reflexivity. Qed.
