(* ===== verification/Md5Props.v ===== *)
(** * The script computes the MD5 digest of RFC 1321

    The reference works on bytes and on unsigned 32-bit words, in the step order of
    the RFC's loop of 64 operations. *)

From Stdlib Require Import ZArith Lia.
From stdpp Require Import base tactics list numbers strings.
From S2P Require Import Prelude Base64 Json Md5.
Local Open Scope Z_scope.

(** ** The reference *)

Definition w32 : Z := 4294967296.
Definition rotl (x s : Z) : Z := (x * 2 ^ s + x / 2 ^ (32 - s)) mod w32.
Definition unot (x : Z) : Z := w32 - 1 - x.

Definition K_table : list Z :=
  [0xd76aa478; 0xe8c7b756; 0x242070db; 0xc1bdceee; 0xf57c0faf; 0x4787c62a; 0xa8304613; 0xfd469501;
   0x698098d8; 0x8b44f7af; 0xffff5bb1; 0x895cd7be; 0x6b901122; 0xfd987193; 0xa679438e; 0x49b40821;
   0xf61e2562; 0xc040b340; 0x265e5a51; 0xe9b6c7aa; 0xd62f105d; 0x02441453; 0xd8a1e681; 0xe7d3fbc8;
   0x21e1cde6; 0xc33707d6; 0xf4d50d87; 0x455a14ed; 0xa9e3e905; 0xfcefa3f8; 0x676f02d9; 0x8d2a4c8a;
   0xfffa3942; 0x8771f681; 0x6d9d6122; 0xfde5380c; 0xa4beea44; 0x4bdecfa9; 0xf6bb4b60; 0xbebfbc70;
   0x289b7ec6; 0xeaa127fa; 0xd4ef3085; 0x04881d05; 0xd9d4d039; 0xe6db99e5; 0x1fa27cf8; 0xc4ac5665;
   0xf4292244; 0x432aff97; 0xab9423a7; 0xfc93a039; 0x655b59c3; 0x8f0ccc92; 0xffeff47d; 0x85845dd1;
   0x6fa87e4f; 0xfe2ce6e0; 0xa3014314; 0x4e0811a1; 0xf7537e82; 0xbd3af235; 0x2ad7d2bb; 0xeb86d391].
Definition s_table : list Z := [7; 12; 17; 22; 5; 9; 14; 20; 4; 11; 16; 23; 6; 10; 15; 21].

(** The function and the word of operation [i]. *)
Definition rfc_f (i : nat) (b c d : Z) : Z :=
  match (i / 16)%nat with
  | 0%nat => Z.lor (Z.land b c) (Z.land (unot b) d)
  | 1%nat => Z.lor (Z.land b d) (Z.land c (unot d))
  | 2%nat => Z.lxor (Z.lxor b c) d
  | _ => Z.lxor c (Z.lor b (unot d))
  end.
Definition rfc_g (i : nat) : nat :=
  match (i / 16)%nat with
  | 0%nat => i
  | 1%nat => (5 * i + 1) mod 16
  | 2%nat => (3 * i + 5) mod 16
  | _ => (7 * i) mod 16
  end.
Definition rfc_s (i : nat) : Z := List.nth (i / 16 * 4 + i mod 4) s_table 0.
Definition rfc_K (i : nat) : Z := List.nth i K_table 0.

Definition rfc_step (M : nat -> Z) (st : Z * Z * Z * Z) (i : nat) : Z * Z * Z * Z :=
  let '(a, b, c, d) := st in
  (d, (b + rotl ((a + rfc_f i b c d + M (rfc_g i) + rfc_K i) mod w32) (rfc_s i)) mod w32, b, c).

Definition add4 (p q : Z * Z * Z * Z) : Z * Z * Z * Z :=
  let '(a, b, c, d) := p in let '(a', b', c', d') := q in
  ((a + a') mod w32, (b + b') mod w32, (c + c') mod w32, (d + d') mod w32).

Definition rfc_block (M : nat -> Z) (st : Z * Z * Z * Z) : Z * Z * Z * Z :=
  add4 (fold_left (rfc_step M) (seq 0 64) st) st.

(** Little-endian words of four bytes, and bytes of a word. *)
Definition le_word (b0 b1 b2 b3 : Z) : Z := b0 + 256 * b1 + 65536 * b2 + 16777216 * b3.
Fixpoint le_words (l : list Z) : list Z :=
  match l with
  | b0 :: b1 :: b2 :: b3 :: l' => le_word b0 b1 b2 b3 :: le_words l'
  | _ => []
  end.
Definition le_bytes (n : nat) (x : Z) : list Z := map (fun i => x / 2 ^ (8 * Z.of_nat i) mod 256) (seq 0 n).

(** The message, a byte 128, zeros, and the length in bits in eight bytes. *)
Definition rfc_pad (m : list Z) : list Z :=
  m ++ [128] ++ replicate (Z.to_nat ((55 - Z.of_nat (length m)) mod 64)) 0
  ++ le_bytes 8 (8 * Z.of_nat (length m)).

Fixpoint rfc_blocks (fuel : nat) (x : list Z) (st : Z * Z * Z * Z) : Z * Z * Z * Z :=
  match fuel, x with
  | S fuel, _ :: _ => rfc_blocks fuel (drop 16 x) (rfc_block (fun i => List.nth i x 0) st)
  | _, _ => st
  end.

Definition rfc_md5 (m : list Z) : list Z :=
  let x := le_words (rfc_pad m) in
  let '(a, b, c, d) := rfc_blocks (length x) x (0x67452301, 0xefcdab89, 0x98badcfe, 0x10325476) in
  le_bytes 4 a ++ le_bytes 4 b ++ le_bytes 4 c ++ le_bytes 4 d.

Definition hex_text (l : list Z) : jstr := flat_map (fun b => [hex_digit (b / 16); hex_digit (b mod 16)]) l.

Example rfc_abc : hex_text (rfc_md5 (u "abc")) = u "900150983cd24fb0d6963f7d28e17f72".
Proof. vm_compute. reflexivity. Qed.

(** ** Words *)

Lemma to_uint32_int32 x : to_uint32 (to_int32 x) = to_uint32 x.
Proof.
  unfold to_uint32, to_int32. pose proof (Z.mod_pos_bound x 4294967296 ltac:(lia)).
  destruct (_ <? _); [by rewrite Z.mod_mod by lia|].
  replace (x mod 4294967296 - 4294967296) with (x mod 4294967296 + (-1) * 4294967296) by lia.
  by rewrite Z.mod_add, Z.mod_mod by lia.
Qed.

Lemma uint32_land x : to_uint32 x = Z.land x (Z.ones 32).
Proof. unfold to_uint32. by rewrite Z.land_ones by lia. Qed.

Lemma uint32_bits x n : 0 <= n -> Z.testbit (to_uint32 x) n = Z.testbit x n && (n <? 32).
Proof.
  intros Hn. rewrite uint32_land, Z.land_spec. f_equal.
  destruct (n <? 32) eqn:E; [apply Z.ones_spec_low; lia|apply Z.ones_spec_high; lia].
Qed.

Ltac word_bits :=
  apply Z.bits_inj'; intros n Hn;
  repeat rewrite ?Z.land_spec, ?Z.lor_spec, ?Z.lxor_spec, ?uint32_bits, ?Z.lnot_spec by done;
  repeat match goal with |- context [Z.testbit ?x n] => destruct (Z.testbit x n) end;
  destruct (n <? 32); done.

Lemma u_and x y : to_uint32 (js_and x y) = Z.land (to_uint32 x) (to_uint32 y).
Proof. unfold js_and. rewrite to_uint32_int32. word_bits. Qed.
Lemma u_or x y : to_uint32 (js_or x y) = Z.lor (to_uint32 x) (to_uint32 y).
Proof. unfold js_or. rewrite to_uint32_int32. word_bits. Qed.
Lemma u_xor x y : to_uint32 (js_xor x y) = Z.lxor (to_uint32 x) (to_uint32 y).
Proof. unfold js_xor. rewrite to_uint32_int32. word_bits. Qed.
Lemma u_not x : to_uint32 (js_not x) = unot (to_uint32 x).
Proof.
  unfold js_not. rewrite to_uint32_int32. unfold unot, w32, to_uint32, Z.lnot.
  pose proof (Z.mod_pos_bound x 4294967296 ltac:(lia)). rewrite <- Z.sub_1_r.
  symmetry. apply (Z.mod_unique_pos _ _ (- (x / 4294967296) - 1)); [lia|].
  pose proof (Z.div_mod x 4294967296 ltac:(lia)). lia.
Qed.

(** ** Addition *)

(** A word as its low 30 bits and the rest. *)
Definition low30 : Z := 1073741824.

Lemma lxor_high r a b : 0 <= r < low30 ->
  Z.lxor (r + low30 * a) (low30 * b) = r + low30 * Z.lxor a b.
Proof.
  intros Hr. rewrite !(Z.mul_comm low30).
  change low30 with (2 ^ 30) in *. rewrite <- !Z.shiftl_mul_pow2 by lia.
  assert (L : forall c, r + Z.shiftl c 30 = Z.lor r (Z.shiftl c 30)).
  { intros c. rewrite Z.lor_comm, (lor_disjoint _ _ 30); [lia|lia| |lia].
    rewrite Z.shiftl_mul_pow2 by lia. apply Z.mod_mul. lia. }
  rewrite !L, Z.shiftl_lxor. apply Z.bits_inj'. intros n Hn.
  rewrite !Z.lxor_spec, !Z.lor_spec, Z.lxor_spec.
  destruct (decide (n < 30)).
  - rewrite !Z.shiftl_spec_low by lia. by destruct (Z.testbit r n).
  - assert (Z.testbit r n = false) as ->.
    { rewrite <- (Z.mod_small r (2 ^ 30)) by lia. apply Z.mod_pow2_bits_high. lia. }
    done.
Qed.

Lemma land_high r a b : 0 <= r < low30 -> Z.land (r + low30 * a) (low30 * b) = low30 * Z.land a b.
Proof.
  intros Hr. rewrite !(Z.mul_comm low30). change low30 with (2 ^ 30) in *.
  rewrite <- !Z.shiftl_mul_pow2 by lia. rewrite (Z.shiftl_land a b).
  apply Z.bits_inj'. intros n Hn. rewrite !Z.land_spec.
  destruct (decide (n < 30)) as [Hlt|Hge].
  - rewrite !Z.shiftl_spec_low by lia. by rewrite !andb_false_r.
  - replace (r + Z.shiftl a 30) with (Z.lor (Z.shiftl a 30) r).
    + rewrite Z.lor_spec. rewrite <- (Z.mod_small r (2 ^ 30)) by lia.
      rewrite (Z.mod_pow2_bits_high r 30 n) by lia. by rewrite orb_false_r.
    + rewrite (lor_disjoint _ _ 30); [lia|lia| |lia].
      rewrite Z.shiftl_mul_pow2 by lia. apply Z.mod_mul. lia.
Qed.

Lemma word_split x : exists l h, to_uint32 x = l + low30 * h /\ 0 <= l < low30 /\ 0 <= h < 4 /\ l = x mod low30.
Proof.
  exists (to_uint32 x mod low30), (to_uint32 x / low30). unfold to_uint32, low30.
  repeat split; Z.div_mod_to_equations; lia.
Qed.

Lemma and_low30 x : js_and x 0x3FFFFFFF = x mod low30.
Proof.
  unfold js_and. change 0x3FFFFFFF with (2 ^ 30 - 1). rewrite land_mask by lia.
  change (2 ^ 30) with low30. apply to_int32_small. unfold low30. Z.div_mod_to_equations; lia.
Qed.

Lemma and_bit30 x l h : to_uint32 x = l + low30 * h -> 0 <= l < low30 ->
  js_and x 0x40000000 = to_int32 (low30 * Z.land h 1).
Proof.
  intros E Hl. unfold js_and. f_equal. change 0x40000000 with (low30 * 1).
  rewrite <- (land_high l h 1), <- E by done. rewrite uint32_land, <- Z.land_assoc. f_equal.
Qed.

(** A sum of high parts, however it is written with exclusive ors. *)
Lemma high_words r c p q m : 0 <= r < low30 -> 0 <= Z.lxor (Z.lxor c p) q < 4 ->
  Z.lxor (Z.lxor c p) q = m mod 4 ->
  Z.lxor (Z.lxor (r + low30 * c) (low30 * p)) (low30 * q) = (r + low30 * m) mod w32.
Proof.
  intros Hr Hk E. rewrite !lxor_high by done. rewrite E in *.
  unfold low30, w32 in *. Z.div_mod_to_equations; lia.
Qed.

Lemma high_words3 r c p q k m : 0 <= r < low30 -> 0 <= Z.lxor (Z.lxor (Z.lxor c k) p) q < 4 ->
  Z.lxor (Z.lxor (Z.lxor c k) p) q = m mod 4 ->
  Z.lxor (Z.lxor (Z.lxor (r + low30 * c) (low30 * k)) (low30 * p)) (low30 * q) = (r + low30 * m) mod w32.
Proof. intros Hr Hk E. rewrite (lxor_high r c k) by done. by apply high_words. Qed.

(** The conditions of closed terms, evaluated. *)
Ltac decide_ifs :=
  repeat match goal with
  | |- context [if ?b then _ else _] => let v := eval vm_compute in b in change b with v; cbv iota
  end.

(** [addUnsigned] adds modulo 2^32. *)
Lemma u_add x y : to_uint32 (addUnsigned x y) = (to_uint32 x + to_uint32 y) mod w32.
Proof.
  unfold addUnsigned. rewrite !and_low30.
  destruct (word_split x) as (xl & xh & Ex & Hxl & Hxh & <-).
  destruct (word_split y) as (yl & yh & Ey & Hyl & Hyh & <-).
  rewrite (and_bit30 x xl xh), (and_bit30 y yl yh) by done.
  assert (Hr : exists r c, xl + yl = r + low30 * c /\ 0 <= r < low30 /\ 0 <= c < 2).
  { exists ((xl + yl) mod low30), ((xl + yl) / low30). unfold low30 in *.
    repeat split; Z.div_mod_to_equations; lia. }
  destruct Hr as (r & c & Er & Hr & Hc). rewrite Er.
  assert (Eu : to_uint32 (r + low30 * c) = r + low30 * c)
    by (unfold to_uint32, low30 in *; apply Z.mod_small; lia).
  assert (Hbit : js_and (r + low30 * c) 0x40000000 = to_int32 (low30 * Z.land c 1))
    by (by apply (and_bit30 _ r c)).
  unfold has_bit. rewrite Hbit.
  assert (E8 : forall z l h, to_uint32 z = l + low30 * h -> 0 <= l < low30 ->
             to_uint32 (js_and z 0x80000000) = low30 * Z.land h 2).
  { intros z l h Ez Hl. rewrite u_and, Ez. change (to_uint32 0x80000000) with (low30 * 2). by apply land_high. }
  pose proof (E8 x xl xh Ex Hxl) as Ex8. pose proof (E8 y yl yh Ey Hyl) as Ey8. clear E8.
  transitivity ((r + low30 * (c + xh + yh)) mod w32); [|rewrite Ex, Ey; f_equal; lia].
  assert (Hx : xh = 0 \/ xh = 1 \/ xh = 2 \/ xh = 3) by lia.
  assert (Hy : yh = 0 \/ yh = 1 \/ yh = 2 \/ yh = 3) by lia.
  assert (Hc' : c = 0 \/ c = 1) by lia.
  clear Hbit Ex Ey Hxl Hyl Er.
  destruct Hx as [->|[->|[->| ->]]]; destruct Hy as [->|[->|[->| ->]]]; destruct Hc' as [->| ->];
    decide_ifs; rewrite !u_xor, Ex8, Ey8, Eu; first [by apply high_words|by apply (high_words3 _ _ _ _ 1)|by apply (high_words3 _ _ _ _ 2)|by apply (high_words3 _ _ _ _ 3)].
Qed.

(** ** Rotation and steps *)

Lemma uint32_range x : 0 <= to_uint32 x < w32.
Proof. unfold to_uint32, w32. apply Z.mod_pos_bound. lia. Qed.

Lemma uint32_id x : 0 <= x < w32 -> to_uint32 x = x.
Proof. intros Hx. unfold to_uint32, w32 in *. by apply Z.mod_small. Qed.

Lemma u_rotate v s : 0 < s < 32 -> to_uint32 (rotateLeft v s) = rotl (to_uint32 v) s.
Proof.
  intros Hs. unfold rotateLeft. rewrite u_or. unfold js_shl, js_ushr, rotl.
  rewrite to_uint32_int32, !Z.mod_small by lia.
  rewrite Z.shiftl_mul_pow2, Z.shiftr_div_pow2 by lia.
  pose proof (uint32_range v) as Hv. set (V := to_uint32 v) in *.
  assert (E : to_uint32 (to_int32 v * 2 ^ s) = (V * 2 ^ s) mod w32).
  { pose proof (to_uint32_int32 v) as Ev. fold V in Ev. unfold to_uint32, w32 in *.
    rewrite <- Ev. by rewrite Z.mul_mod_idemp_l by lia. }
  rewrite E.
  assert (Hp : 2 ^ s * 2 ^ (32 - s) = w32) by (rewrite <- Z.pow_add_r by lia; by replace (s + (32 - s)) with 32 by lia).
  pose proof (Z.pow_pos_nonneg 2 s ltac:(lia) ltac:(lia)) as H1.
  pose proof (Z.pow_pos_nonneg 2 (32 - s) ltac:(lia) ltac:(lia)) as H2.
  assert (Hq : 0 <= V / 2 ^ (32 - s) < 2 ^ s).
  { split; [apply Z.div_pos; lia|]. apply Z.div_lt_upper_bound; lia. }
  assert (Hm : (V * 2 ^ s) mod w32 = (V mod 2 ^ (32 - s)) * 2 ^ s).
  { rewrite <- Hp, (Z.mul_comm (2 ^ s)). by rewrite Z.mul_mod_distr_r by lia. }
  pose proof (Z.mod_pos_bound V (2 ^ (32 - s)) ltac:(lia)) as Hr.
  assert (Hsum : 0 <= (V mod 2 ^ (32 - s)) * 2 ^ s + V / 2 ^ (32 - s) < w32) by nia.
  rewrite (uint32_id (V / 2 ^ (32 - s))) by nia.
  rewrite Hm, (lor_disjoint _ _ s); [|lia|apply Z.mod_mul; lia|done].
  rewrite <- (Z.mod_small ((V mod 2 ^ (32 - s)) * 2 ^ s + V / 2 ^ (32 - s)) w32) by done.
  rewrite <- Hm. apply Z.add_mod_idemp_l. unfold w32. lia.
Qed.

(** A script function [f] that computes [g] on unsigned words. *)
Definition computes (f g : Z -> Z -> Z -> Z) : Prop :=
  forall b c d, to_uint32 (f b c d) = g (to_uint32 b) (to_uint32 c) (to_uint32 d).

Lemma F_computes : computes F (rfc_f 0).
Proof. intros b c d. unfold F. by rewrite u_or, !u_and, u_not. Qed.
Lemma G_computes : computes G (rfc_f 16).
Proof. intros b c d. unfold G. by rewrite u_or, !u_and, u_not. Qed.
Lemma H_computes : computes H (rfc_f 32).
Proof. intros b c d. unfold H. by rewrite !u_xor. Qed.
Lemma I_computes : computes I (rfc_f 48).
Proof. intros b c d. unfold I. by rewrite u_xor, u_or, u_not. Qed.

Lemma u_step f g a b c d x s ac : computes f g -> 0 < s < 32 -> 0 <= ac < w32 ->
  to_uint32 (step_with f a b c d x s ac)
  = (to_uint32 b + rotl ((to_uint32 a + g (to_uint32 b) (to_uint32 c) (to_uint32 d) + to_uint32 x + ac) mod w32) s) mod w32.
Proof.
  intros Hf Hs Hac. unfold step_with. rewrite u_add, u_rotate, !u_add, Hf, (uint32_id ac) by done.
  rewrite Z.add_comm. do 3 f_equal. unfold w32. Z.div_mod_to_equations; lia.
Qed.

(** ** Blocks *)

Definition U4 (st : Z * Z * Z * Z) : Z * Z * Z * Z :=
  let '(a, b, c, d) := st in (to_uint32 a, to_uint32 b, to_uint32 c, to_uint32 d).

(** The parameters of one line of the script are those of operation [i]. *)
Definition line_ok (g : Z -> Z -> Z -> Z) (i k : nat) (s ac : Z) : Prop :=
  rfc_f i = g /\ rfc_g i = k /\ rfc_s i = s /\ rfc_K i = ac /\ 0 < s < 32 /\ 0 <= ac < w32.

Lemma four_rfc f g i x k1 k2 k3 k4 s1 s2 s3 s4 a1 a2 a3 a4 st :
  computes f g -> line_ok g i k1 s1 a1 -> line_ok g (S i) k2 s2 a2 ->
  line_ok g (S (S i)) k3 s3 a3 -> line_ok g (S (S (S i))) k4 s4 a4 ->
  U4 (four (step_with f) x (k1, k2, k3, k4) (s1, s2, s3, s4) (a1, a2, a3, a4) st)
  = fold_left (rfc_step (fun j => to_uint32 (x j))) (seq i 4) (U4 st).
Proof.
  intros Hf (F1 & G1 & R1 & C1 & B1 & D1) (F2 & G2 & R2 & C2 & B2 & D2)
    (F3 & G3 & R3 & C3 & B3 & D3) (F4 & G4 & R4 & C4 & B4 & D4).
  destruct st as [[[a b] c] d]. cbn [four U4 seq fold_left rfc_step].
  rewrite F1, G1, R1, C1, F2, G2, R2, C2, F3, G3, R3, C3, F4, G4, R4, C4.
  by rewrite !(u_step f g) by done.
Qed.

Ltac line := repeat split; vm_compute; first [reflexivity|discriminate].
Ltac peel f i C := rewrite (four_rfc f (rfc_f i) i) by (apply C || line).

Lemma block_rfc x st : U4 (block x st) = rfc_block (fun j => to_uint32 (x j)) (U4 st).
Proof.
  assert (Hadd : forall p q, U4 (let '(AA, BB, CC, DD) := q in let '(a, b, c, d) := p in
      (addUnsigned a AA, addUnsigned b BB, addUnsigned c CC, addUnsigned d DD)) = add4 (U4 p) (U4 q)).
  { intros [[[a b] c] d] [[[a' b'] c'] d']. cbn. by rewrite !u_add. }
  unfold rfc_block.
  change (seq 0 64) with (seq 0 4 ++ seq 4 4 ++ seq 8 4 ++ seq 12 4 ++ seq 16 4 ++ seq 20 4 ++ seq 24 4
    ++ seq 28 4 ++ seq 32 4 ++ seq 36 4 ++ seq 40 4 ++ seq 44 4 ++ seq 48 4 ++ seq 52 4 ++ seq 56 4 ++ seq 60 4).
  rewrite !fold_left_app. unfold block. destruct st as [[[AA BB] CC] DD].
  etransitivity; [apply (Hadd _ (AA, BB, CC, DD))|]. f_equal.
  unfold FF, GG, HH, II, S1, S2, S3, S4. set (st := (AA, BB, CC, DD)).
  peel I 60%nat I_computes. peel I 56%nat I_computes. peel I 52%nat I_computes. peel I 48%nat I_computes.
  peel H 44%nat H_computes. peel H 40%nat H_computes. peel H 36%nat H_computes. peel H 32%nat H_computes.
  peel G 28%nat G_computes. peel G 24%nat G_computes. peel G 20%nat G_computes. peel G 16%nat G_computes.
  peel F 12%nat F_computes. peel F 8%nat F_computes. peel F 4%nat F_computes. peel F 0%nat F_computes.
  reflexivity.
Qed.

Lemma rfc_block_ext M M' st : (forall j, M j = M' j) -> rfc_block M st = rfc_block M' st.
Proof.
  intros HM.
  assert (Hs : forall st i, rfc_step M st i = rfc_step M' st i).
  { intros [[[a b] c] d] i. unfold rfc_step. by rewrite HM. }
  assert (Hl : forall l st, fold_left (rfc_step M) l st = fold_left (rfc_step M') l st).
  { intros l. induction l as [|i l IH]; intros st'; [done|]. cbn [fold_left]. by rewrite Hs, IH. }
  unfold rfc_block. by rewrite Hl.
Qed.

Lemma blocks_rfc fuel : forall x st,
  U4 (blocks fuel x st) = rfc_blocks fuel (map to_uint32 x) (U4 st).
Proof.
  induction fuel as [|fuel IH]; intros [|w x] st; try done.
  cbn [blocks map rfc_blocks]. rewrite IH. f_equal.
  - change (to_uint32 w :: map to_uint32 x) with (map to_uint32 (w :: x)). by rewrite fmap_drop.
  - rewrite block_rfc. apply rfc_block_ext. intros j.
    change (to_uint32 w :: map to_uint32 x) with (map to_uint32 (w :: x)).
    change 0 with (to_uint32 0) at 2. by rewrite map_nth.
Qed.

(** ** The words of the message *)

Definition zeros (n : nat) : list Z := replicate n 0.

Lemma le_words_zeros n : le_words (zeros (4 * n)) = zeros n.
Proof.
  induction n as [|n IH]; [done|]. replace (4 * S n)%nat with (S (S (S (S (4 * n))))) by lia.
  cbn [zeros replicate le_words]. unfold zeros in *. by rewrite IH.
Qed.

Lemma four_steps (P : list Z -> Prop) :
  P [] -> (forall a, P [a]) -> (forall a b, P [a; b]) -> (forall a b c, P [a; b; c]) ->
  (forall a b c d l, P l -> P (a :: b :: c :: d :: l)) -> forall l, P l.
Proof.
  intros H0 H1 H2 H3 H4 l. remember (length l) as n eqn:Hn. revert l Hn.
  induction (lt_wf n) as [n _ IH]. intros l ->.
  destruct l as [|a [|b [|c [|d l]]]]; auto. apply H4. apply (IH (length l)); [cbn; lia|done].
Qed.

Lemma le_words_app l1 l2 : (length l1 mod 4 = 0)%nat -> le_words (l1 ++ l2) = le_words l1 ++ le_words l2.
Proof.
  induction l1 as [|a|a b|a b c|a b c d l IH] using four_steps; try discriminate; [done|].
  intros Hl. cbn [app le_words]. rewrite IH; [done|].
  cbn [length] in Hl. replace (S (S (S (S (length l))))) with (length l + 1 * 4)%nat in Hl by lia.
  by rewrite Nat.Div0.mod_add in Hl.
Qed.

Ltac inv_bytes := repeat match goal with Hf : Forall _ (_ :: _) |- _ => inversion_clear Hf end.

(** Setting a byte that was 0. *)
Lemma le_words_set m c n : Forall is_byte m -> is_byte c -> ((length m + S n) mod 4 = 0)%nat ->
  le_words (m ++ c :: zeros n)
  = alter (fun x => Z.lor x (c * 2 ^ (8 * Z.of_nat (length m mod 4)))) (length m / 4)%nat (le_words (m ++ 0 :: zeros n)).
Proof.
  intros Hm Hc. revert n.
  assert (Hl : forall a k, 0 <= a < 2 ^ k -> 0 <= k -> Z.lor a (c * 2 ^ k) = a + c * 2 ^ k).
  { intros a k Ha Hk. rewrite Z.lor_comm, (lor_disjoint _ _ k); [lia|done|apply Z.mod_mul; lia|done]. }
  unfold is_byte in *. revert Hm.
  induction m as [|a|a b|a b b'|a b b' d m IH] using four_steps; intros Hm n Hn; inv_bytes.
  - destruct n as [|[|[|n]]]; try discriminate. cbn -[Z.lor Z.mul Z.pow]. unfold le_word.
    rewrite Hl by lia. f_equal. lia.
  - destruct n as [|[|n]]; try discriminate. cbn -[Z.lor Z.mul Z.pow]. unfold le_word.
    rewrite Hl by lia. f_equal. lia.
  - destruct n as [|n]; try discriminate. cbn -[Z.lor Z.mul Z.pow]. unfold le_word.
    rewrite Hl by lia. f_equal. lia.
  - cbn -[Z.lor Z.mul Z.pow]. unfold le_word. rewrite Hl by lia. f_equal. lia.
  - cbn [length app le_words].
    replace (S (S (S (S (length m))))) with (length m + 1 * 4)%nat by lia.
    rewrite Nat.Div0.mod_add, Nat.div_add by lia.
    cbn [length] in Hn. replace (S (S (S (S (length m)))) + S n)%nat with (length m + S n + 1 * 4)%nat in Hn by lia.
    rewrite Nat.Div0.mod_add in Hn. rewrite IH by done.
    by replace (length m / 4 + 1)%nat with (S (length m / 4)) by lia.
Qed.

Lemma alter_map (f g : Z -> Z) h i l : (forall x, h (f x) = g (h x)) ->
  map h (alter f i l) = alter g i (map h l).
Proof.
  intros E. revert i. induction l as [|x l IH]; intros [|i]; try done; cbn; [by rewrite E|].
  f_equal. apply IH.
Qed.

(** One byte written by the script. *)
Lemma set_byte m c n arr : Forall is_byte m -> is_byte c -> ((length m + S n) mod 4 = 0)%nat ->
  map to_uint32 arr = le_words (m ++ 0 :: zeros n) ->
  let k := Z.of_nat (length m) in
  map to_uint32 (set_bits (Z.to_nat ((k - k mod 4) / 4)) (js_shl c (k mod 4 * 8)) arr)
  = le_words (m ++ c :: zeros n).
Proof.
  intros Hm Hc Hn E k. rewrite le_words_set by done. unfold set_bits.
  assert (Hk : Z.to_nat ((k - k mod 4) / 4) = (length m / 4)%nat).
  { unfold k. rewrite <- (Nat2Z.id (length m / 4)%nat), Nat2Z.inj_div. f_equal. Z.div_mod_to_equations; lia. }
  assert (Hp : k mod 4 * 8 = 8 * Z.of_nat (length m mod 4)).
  { unfold k. rewrite Nat2Z.inj_mod. lia. }
  rewrite Hk, Hp, <- E. apply alter_map. intros x. rewrite u_or. f_equal.
  assert (Hb : 0 <= Z.of_nat (length m mod 4) < 4) by (rewrite Nat2Z.inj_mod; apply Z.mod_pos_bound; lia).
  set (j := Z.of_nat (length m mod 4)) in *. unfold is_byte in Hc.
  unfold js_shl. rewrite to_uint32_int32, to_int32_small, Z.mod_small by lia.
  rewrite Z.shiftl_mul_pow2 by lia. apply uint32_id. unfold w32.
  assert (Hj : j = 0 \/ j = 1 \/ j = 2 \/ j = 3) by lia.
  destruct Hj as [->|[->|[->| ->]]]; cbn -[Z.mul]; lia.
Qed.

Lemma fill_words s : forall m n arr, Forall is_byte m -> Forall is_byte s ->
  ((length m + length s + n) mod 4 = 0)%nat ->
  map to_uint32 arr = le_words (m ++ zeros (length s + n)) ->
  map to_uint32 (fill (Z.of_nat (length m)) s arr) = le_words (m ++ s ++ zeros n).
Proof.
  induction s as [|c s IH]; intros m n arr Hm Hs Hn E; [done|]. inversion_clear Hs as [|? ? Hc Hs'].
  cbn [fill length] in *.
  replace (Z.of_nat (length m) + 1) with (Z.of_nat (length (m ++ [c]))) by (rewrite length_app; cbn; lia).
  rewrite (IH (m ++ [c]) n); [by rewrite <- app_assoc|by apply Forall_app; split; [done|constructor; [done|constructor]]|done| |].
  - rewrite length_app. cbn. by replace (length m + 1 + length s + n)%nat with (length m + S (length s) + n)%nat by lia.
  - rewrite <- app_assoc. apply set_byte; [done..| |done].
    by replace (length m + S (length s + n))%nat with (length m + S (length s) + n)%nat by lia.
Qed.

(** The length in bits as two words. *)
Lemma le_words_length n : 0 <= n < w32 ->
  le_words (le_bytes 8 (8 * n)) = [to_uint32 (js_shl n 3); to_uint32 (js_ushr n 29)].
Proof.
  intros Hn. unfold le_bytes. cbn [seq map le_words]. unfold js_shl, js_ushr.
  change (3 mod 32) with 3. change (29 mod 32) with 29.
  rewrite to_uint32_int32, Z.shiftl_mul_pow2, Z.shiftr_div_pow2, (uint32_id n) by lia.
  rewrite (uint32_id (n / 2 ^ 29)).
  2:{ unfold w32 in *. change (2 ^ 29) with 536870912. Z.div_mod_to_equations; lia. }
  assert (E : to_uint32 (to_int32 n * 2 ^ 3) = (8 * n) mod w32).
  { rewrite <- (uint32_id n) at 2 by done. rewrite <- (to_uint32_int32 n).
    unfold to_uint32, w32. change (2 ^ 3) with 8. rewrite Z.mul_mod_idemp_r by lia. f_equal. lia. }
  rewrite E. unfold le_word, w32 in *.
  change (8 * Z.of_nat 0) with 0. change (8 * Z.of_nat 1) with 8. change (8 * Z.of_nat 2) with 16.
  change (8 * Z.of_nat 3) with 24. change (8 * Z.of_nat 4) with 32. change (8 * Z.of_nat 5) with 40.
  change (8 * Z.of_nat 6) with 48. change (8 * Z.of_nat 7) with 56.
  change (2 ^ 0) with 1. change (2 ^ 8) with 256. change (2 ^ 16) with 65536. change (2 ^ 24) with 16777216.
  change (2 ^ 29) with 536870912.
  change (2 ^ 32) with 4294967296. change (2 ^ 40) with 1099511627776. change (2 ^ 48) with 281474976710656.
  change (2 ^ 56) with 72057594037927936.
  f_equal; [Z.div_mod_to_equations; lia|]. f_equal. Z.div_mod_to_equations; lia.
Qed.

Lemma number_of_words_eq n : number_of_words n = ((n + 8) / 64 + 1) * 16.
Proof.
  unfold number_of_words. f_equal. f_equal.
  replace (n + 8 - (n + 8) mod 64) with ((n + 8) / 64 * 64); [by rewrite Z.div_mul by lia|].
  Z.div_mod_to_equations; lia.
Qed.

(** The words the script builds are those of the padded message. *)
Lemma words_rfc m : Forall is_byte m -> Z.of_nat (length m) < w32 ->
  map to_uint32 (convertToWordArray m) = le_words (rfc_pad m).
Proof.
  intros Hm Hlen. unfold convertToWordArray, js_length. cbv zeta. rewrite number_of_words_eq.
  set (n := Z.of_nat (length m)) in *. set (N := ((n + 8) / 64 + 1) * 16).
  assert (Hz : exists z, (length m + 1 + z + 8 = 4 * Z.to_nat N)%nat /\ z = Z.to_nat ((55 - n) mod 64)).
  { exists (Z.to_nat ((55 - n) mod 64)). split; [|done]. subst N.
    apply Nat2Z.inj. rewrite !Nat2Z.inj_add, Nat2Z.inj_mul, !Z2Nat.id by (Z.div_mod_to_equations; lia).
    fold n. Z.div_mod_to_equations; lia. }
  destruct Hz as (z & Hz & Ez). assert (HN : 16 <= N) by (subst N; Z.div_mod_to_equations; lia).
  rewrite !list_fmap_insert.
  rewrite (set_byte m 128 (z + 8)); [|done|by unfold is_byte| |].
  2:{ replace (length m + S (z + 8))%nat with (Z.to_nat N * 4)%nat by lia. apply Nat.Div0.mod_mul. }
  2:{ change 0 with (Z.of_nat (@length Z [])). rewrite (fill_words m [] (S (z + 8))); [done|done|done| |].
      - replace (length [] + length m + S (z + 8))%nat with (Z.to_nat N * 4)%nat by (cbn; lia). apply Nat.Div0.mod_mul.
      - cbn [app]. replace (length m + S (z + 8))%nat with (4 * Z.to_nat N)%nat by lia.
        rewrite le_words_zeros. unfold zeros. by rewrite fmap_replicate. }
  assert (Hsplit : m ++ 128 :: zeros (z + 8) = (m ++ [128] ++ zeros z) ++ zeros 8).
  { rewrite <- !app_assoc. cbn. unfold zeros. by rewrite replicate_add. }
  assert (H4 : length (m ++ [128] ++ zeros z) = (4 * (Z.to_nat N - 2))%nat).
  { rewrite !length_app. cbn. unfold zeros. rewrite length_replicate. lia. }
  assert (Hmod : (length (m ++ [128%Z] ++ zeros z) mod 4 = 0)%nat)
    by (rewrite H4, Nat.mul_comm; apply Nat.Div0.mod_mul).
  rewrite Hsplit, le_words_app by done. unfold rfc_pad. fold n. rewrite <- Ez.
  replace (m ++ [128] ++ replicate z 0 ++ le_bytes 8 (8 * n))
    with ((m ++ [128] ++ zeros z) ++ le_bytes 8 (8 * n)) by (by rewrite <- !app_assoc).
  rewrite (le_words_app (m ++ [128] ++ zeros z)), le_words_length by (done || (split; [apply Nat2Z.is_nonneg|done])).
  change (le_words (zeros 8)) with [0; 0].
  assert (HL : length (le_words (m ++ [128] ++ zeros z)) = Z.to_nat (N - 2)).
  { assert (G : forall l, (length l mod 4 = 0)%nat -> (4 * length (le_words l) = length l)%nat).
    { intros l. induction l as [|a|a b|a b c|a b c d l IH] using four_steps; try discriminate; [done|].
      intros Hl. cbn [le_words length] in *. specialize (IH ltac:(
        replace (S (S (S (S (length l))))) with (length l + 1 * 4)%nat in Hl by lia;
        by rewrite Nat.Div0.mod_add in Hl)). lia. }
    specialize (G _ Hmod). rewrite H4 in G. lia. }
  rewrite insert_app_r_alt by lia. rewrite HL, Nat.sub_diag. cbn [insert list_insert].
  rewrite insert_app_r_alt by lia. rewrite HL. by replace (Z.to_nat (N - 1) - Z.to_nat (N - 2))%nat with 1%nat by lia.
Qed.

(** ** The text of the digest *)

Lemma byte_hex_check :
  forallb (fun b => js_eqb (to_lower (slice_last 2 (48 :: Z_to_hex b))) [hex_digit (b / 16); hex_digit (b mod 16)])
    (seqZ 0 256) = true.
Proof. vm_compute. reflexivity. Qed.

Lemma byte_hex b : 0 <= b < 256 ->
  to_lower (slice_last 2 (48 :: Z_to_hex b)) = [hex_digit (b / 16); hex_digit (b mod 16)].
Proof.
  intros Hb. pose proof (proj1 (forallb_forall _ _) byte_hex_check b) as Hc.
  apply bool_decide_eq_true in Hc; [done|]. apply list_elem_of_In, elem_of_seqZ. lia.
Qed.

Lemma word_hex v : to_lower (wordToHex v) = hex_text (le_bytes 4 (to_uint32 v)).
Proof.
  assert (Hb : forall k, 0 <= k < 32 -> js_and (js_ushr v k) 255 = to_uint32 v / 2 ^ k mod 256).
  { intros k Hk. unfold js_ushr, js_and. rewrite Z.mod_small, Z.shiftr_div_pow2 by lia.
    change 255 with (2 ^ 8 - 1). rewrite land_mask by lia. change (2 ^ 8) with 256.
    apply to_int32_small. pose proof (Z.mod_pos_bound (to_uint32 v / 2 ^ k) 256 ltac:(lia)). lia. }
  assert (Hc : forall k, to_lower (slice_last 2 (48 :: Z_to_hex (k mod 256)))
             = [hex_digit (k mod 256 / 16); hex_digit (k mod 256 mod 16)])
    by (intros k; apply byte_hex, Z.mod_pos_bound; lia).
  unfold wordToHex, le_bytes, hex_text. cbn [flat_map map seq]. rewrite !Hb by lia.
  unfold to_lower. rewrite !map_app. fold (to_lower []).
  change (0 * 8) with (8 * Z.of_nat 0). change (1 * 8) with (8 * Z.of_nat 1).
  change (2 * 8) with (8 * Z.of_nat 2). change (3 * 8) with (8 * Z.of_nat 3).
  unfold to_lower in Hc. by rewrite !Hc.
Qed.

Lemma md5_bytes s : units s -> Z.of_nat (length (Utf8.utf8_encode s)) < w32 ->
  md5 s = hex_text (rfc_md5 (flat_map Utf8.encode_unit (replace_all [13; 10] [10] s))).
Proof.
  intros Hs Hlen. unfold md5, Utf8.utf8_encode in *.
  set (m := flat_map Utf8.encode_unit (replace_all [13; 10] [10] s)) in *.
  assert (Hm : Forall is_byte m) by (apply flat_encode_bytes, replace_crlf_units, Hs).
  set (st0 := (0x67452301, 0xEFCDAB89, 0x98BADCFE, 0x10325476)).
  pose proof (blocks_rfc (length (convertToWordArray m)) (convertToWordArray m) st0) as E.
  rewrite words_rfc in E by done.
  assert (HL : length (convertToWordArray m) = length (le_words (rfc_pad m)))
    by (by rewrite <- words_rfc, length_map by done).
  rewrite HL in E |- *. change (U4 st0) with st0 in E. unfold rfc_md5. fold st0.
  destruct (blocks _ _ st0) as [[[a b] c] d]. rewrite <- E. cbn [U4].
  unfold to_lower. rewrite !map_app. fold (to_lower (wordToHex a)) (to_lower (wordToHex b))
    (to_lower (wordToHex c)) (to_lower (wordToHex d)).
  rewrite !word_hex. unfold hex_text. by rewrite !flat_map_app.
Qed.

(** ** The bytes of a text

    UTF-8 of a code point, by the table of RFC 3629. *)
Definition utf8_char (c : Z) : list Z :=
  if c <? 0x80 then [c]
  else if c <? 0x800 then [0xC0 + c / 64; 0x80 + c mod 64]
  else if c <? 0x10000 then [0xE0 + c / 4096; 0x80 + c / 64 mod 64; 0x80 + c mod 64]
  else [0xF0 + c / 262144; 0x80 + c / 4096 mod 64; 0x80 + c / 64 mod 64; 0x80 + c mod 64].
(** CR LF as LF. *)
Fixpoint unix_lines (s : jstr) : jstr :=
  match s with
  | [] => []
  | c :: r => match r with d :: r' => if (c =? 13) && (d =? 10) then 10 :: unix_lines r' else c :: unix_lines r | [] => [c] end
  end.
Lemma unix_lines_cons c d r : unix_lines (c :: d :: r) = if (c =? 13) && (d =? 10) then 10 :: unix_lines r else c :: unix_lines (d :: r).
Proof. done. Qed.
Lemma unix_lines_replaced s : replace_all [13; 10] [10] s = unix_lines s.
Proof.
  unfold replace_all. remember (length s) as n eqn:En. revert s En. induction (lt_wf n) as [n _ IH]. intros [|c [|d r]] ->; [done|..].
  - cbn [replace_from prefix_b]. by rewrite andb_false_r.
  - rewrite unix_lines_cons.
    assert (E : replace_from [13; 10] [10] (c :: d :: r) 0 = if (13 =? c) && ((10 =? d) && true)
      then 10 :: replace_from [13; 10] [10] r 0 else c :: replace_from [13; 10] [10] (d :: r) 0) by done.
    rewrite E, andb_true_r, (Z.eqb_sym 13 c), (Z.eqb_sym 10 d). clear E. destruct ((c =? 13) && (d =? 10)); f_equal.
    + apply (IH (length r)); [cbn; lia|done].
    + apply (IH (length (d :: r))); [cbn; lia|done].
Qed.
Lemma encode_unit_utf8 c : 0 <= c < 65536 -> Utf8.encode_unit c = utf8_char c.
Proof.
  intros H. unfold utf8_char. destruct (Z.ltb_spec c 128); [apply encode_unit_1; lia|].
  destruct (Z.ltb_spec c 2048); [apply encode_unit_2; lia|]. rewrite (proj2 (Z.ltb_lt c 65536)) by lia. apply encode_unit_3; lia.
Qed.
Lemma encoded_text s : units s -> flat_map Utf8.encode_unit s = flat_map utf8_char s.
Proof. intros H. induction H as [|c s Hc Hs IH]; [done|]. cbn [flat_map]. by rewrite IH, encode_unit_utf8. Qed.

(** C19. [$.md5] of a text is the hexadecimal text of RFC 1321's digest of the bytes of its
    units, each written as UTF-8 writes a code point (RFC 3629), CR LF counting as LF, for
    texts below 2^32 bytes: the signed words, the addition in parts and the word array of
    the script compute the same. For texts without surrogates these are the UTF-8 bytes;
    with surrogates they are not ([md5_astral]). *)
Theorem md5_is_rfc1321 s : units s -> let bytes := flat_map utf8_char (unix_lines s) in
  Z.of_nat (length bytes) < w32 -> md5 s = hex_text (rfc_md5 bytes).
Proof.
  intros Hs bytes Hlen. assert (E : flat_map Utf8.encode_unit (replace_all [13; 10] [10] s) = bytes).
  { rewrite encoded_text by (by apply replace_crlf_units). by rewrite unix_lines_replaced. }
  rewrite md5_bytes; [by rewrite E|done|]. unfold Utf8.utf8_encode. by rewrite E.
Qed.

Lemma md5_is_rfc1321_witness :
  (units (u "中a") /\ Z.of_nat (length (flat_map utf8_char (unix_lines (u "中a")))) < w32) /\
  md5 (u "中a") = hex_text (rfc_md5 [228; 184; 173; 97]).
Proof.
  assert (H1 : units (u "中a")) by (by apply is_unit_units).
  assert (H2 : Z.of_nat (length (flat_map utf8_char (unix_lines (u "中a")))) < w32) by reflexivity.
  split; [by split|]. exact (md5_is_rfc1321 _ H1 H2).
Defined.

(** The two surrogates of a character beyond the basic plane are written as six bytes, where
    UTF-8 has four: the digest is not that of the UTF-8 text. *)
Theorem md5_astral : md5 [0xD834; 0xDD1E] <> hex_text (rfc_md5 (utf8_char 0x1D11E)).
Proof. vm_compute. discriminate. Qed.
