(* ===== verification/AddPlugin.v ===== *)
(** * [html/resource/js/dmt.addplugin.js]: the dialogs that install and operate the
    plugins of a machine *)

From Stdlib Require Import ZArith QArith Lia.
From stdpp Require Import base tactics list numbers strings.
From S2P Require Import Prelude JsValue CommFormat.
Local Open Scope Z_scope.

(** ** Machines *)

Record machine := Machine { mc_id : Z; mc_name : jstr; mc_ip : jstr }.
Record machlist := MachList { ml_count : Z; ml_list : list machine }.

(** The loop over the first [n] entries; an entry that is not there throws. *)
Fixpoint find_machine (n : nat) (l : list machine) (mach_id : prim) : js_result (option machine) :=
  match n, l with
  | O, _ => Returned None
  | S _, [] => TypeError
  | S n, m :: l' =>
      if loose_eq (PNum (of_Z (mc_id m))) mach_id then Returned (Some m) else find_machine n l' mach_id
  end.

Definition dmapGetMachineInfo (g_ddap_machlist : option machlist) (mach_id : prim) : js_result jstr :=
  match g_ddap_machlist with
  | None => Returned (u " error, not find machine list ! ")
  | Some ml =>
      match find_machine (Z.to_nat (ml_count ml)) (ml_list ml) mach_id with
      | Returned (Some m) => Returned (u "机器：" ++ mc_name m ++ u " (IP:" ++ mc_ip m ++ u ")")
      | Returned None => Returned (u "机器ID:" ++ to_str mach_id ++ u "(未找到相关信息)")
      | TypeError => TypeError
      end
  end.

(** ** Texts of states *)

Definition dmapGetOprText (st : Z) : jstr :=
  match st with
  | 1 => u "错误：机器未安装该插件"
  | 2 => u "最近5分钟内有未完成的操作, 请稍后再试"
  | 3 => u "操作中，请稍等 ..."
  | 4 => u "服务器发生错误，请稍后再试"
  | 5 => u "未找到操作任务"
  | 6 => u "操作超时(30s 没有完成)"
  | 7 => u "agent 未启动，任务无法处理"
  | 8 => u "agent 在机器上未找到该插件"
  | 12 => u "已发布任务"
  | 13 => u "任务已下发到机器"
  | 14 => u "操作失败，任务未完成"
  | 15 => u "操作成功，已完成"
  | 16 => u "agent 响应超时"
  | _ => u "未知状态"
  end.

(** ** Timers of the dialogs *)

Record timers := Timers { g_addplugin_timerid : Z; g_dmop_timerid : Z }.

(** The timers cleared, and the variables after it; the tab is reloaded first. *)
Definition dmapAddPlugin_reload (t : timers) : list Z * timers :=
  let '(c1, a) := if g_addplugin_timerid t =? 0 then ([], 0) else ([g_addplugin_timerid t], 0) in
  let '(c2, d) := if g_dmop_timerid t =? 0 then ([], 0) else ([g_dmop_timerid t], 0) in
  (c1 ++ c2, Timers a d).

(** ** Dialogs *)

(** [$.pdialog.open]; all have a mask, cannot be maximised, and reload on closing. *)
Record plugin_dialog := PluginDialog { pd_url : jstr; pd_dlg : jstr; pd_title : jstr; pd_height : Z; pd_width : Z }.

Definition ddapMachOprPlugin (cgip machs plugid : jstr) (optype : Z) : plugin_dialog :=
  let url := cgip ++ u "mt_slog?action=ddap_multi_opr_plugin&machines=" ++ machs
             ++ u "&plugin=" ++ plugid ++ u "&opr_type=" ++ Z_to_str optype in
  let '(w, h, tl) :=
    match optype with
    | 1 => (700, 520, u "批量修改插件配置")
    | 2 => (600, 460, u "批量移除插件")
    | 3 => (600, 460, u "批量启用插件")
    | 4 => (600, 460, u "批量禁用插件")
    | _ => (600, 460, [])
    end in
  PluginDialog url (u "dlg_ddap_mach_opr_plugin") tl h w.

Definition dmapMachOprPlugin (cgip mach plugs : jstr) (optype : Z) : plugin_dialog :=
  let url := cgip ++ u "mt_slog?action=dmap_multi_opr_plugin&machine=" ++ mach
             ++ u "&plugins=" ++ plugs ++ u "&opr_type=" ++ Z_to_str optype in
  let tl :=
    match optype with
    | 2 => u "批量移除插件"
    | 3 => u "批量启用插件"
    | 4 => u "批量禁用插件"
    | _ => []
    end in
  PluginDialog url (u "dlg_dmap_mach_opr_plugin") tl 460 600.

Definition dmapModMachPlugin (cgip machine_id plugid : jstr) : plugin_dialog :=
  PluginDialog (cgip ++ u "mt_slog?action=ddap_multi_opr_plugin&machines=" ++ machine_id
                ++ u "&plugin=" ++ plugid ++ u "&opr_type=1")
    (u "dlg_ddap_mach_opr_plugin") (u "修改插件配置") 520 700.

Definition dmapAddPlugin (domain cgip machid plugid : jstr) : plugin_dialog :=
  PluginDialog (cgip ++ u "mt_slog?action=ddap_install_plugin&mach=" ++ machid
                ++ u "&plugin=" ++ plugid ++ u "&self_domain=" ++ domain)
    (u "dlg_ddap_install_plugin") (u "一键部署插件进度") 440 600.

(** ** Progress of an installation *)

(** A line appended to the list [rid], or the content of [wid] replaced. *)
Inductive status_effect := AppendTo (rid html : jstr) | SetHtml (wid html : jstr).

Definition failed (wid text : jstr) : status_effect := SetHtml (35 :: wid) (u "<font color=" ++ [34] ++ u "red" ++ [34] ++ u ">部署失败" ++ text).

Definition dmtAddPluginStatusShow (step : Z) (rid wid : jstr) : status_effect :=
  let done text := AppendTo (35 :: rid) (u "<li>" ++ text ++ u "</li>") in
  match step with
  | 2 => done (u "已分派任务")
  | 3 => done (u "接入服务已接收任务")
  | 4 => done (u "接入服务已下发任务到机器")
  | 5 => done (u "agent 已向云服务查询到安装包下载地址")
  | 6 => done (u "agent 已下载插件部署包")
  | 7 => done (u "agent 已部署插件并启动")
  | 8 => done (u "接入服务已收到插件消息，插件部署成功")
  | 9 => done (u "agent 已部署插件，部署完成")
  | 20 => failed wid (u "：agent 获取插件部署包地址失败, 请检查机器是否安装 wget 工具")
  | 21 => failed wid (u "：agent 获取插件部署包地址, 返回错误码")
  | 22 => failed wid (u "：agent 获取插件部署包地址, 返回内容解析错误")
  | 23 => failed wid (u "：agent 下载插件部署包失败")
  | 24 => failed wid (u "：agent 解压缩部署包失败, 请检查机器是否安装 tar 工具")
  | 25 => failed wid (u "：agent 创建部署目录失败, 请 agent 是否有目录创建权限")
  | 26 => failed wid (u "：agent 启动插件失败, 可能是插件与系统不兼容导致")
  | 27 => failed wid (u "：agent 下载开源版配置文件失败")
  | 28 => failed wid (u "：专有配置文件下载失败")
  | 29 => failed wid (u "：agent 响应超时")
  | _ => failed wid (u "，进度错误：" ++ Z_to_str step)
  end.

(** ** Properties *)

Lemma find_machine_spec l id : forall n, (n <= length l)%nat ->
  find_machine n l id = Returned (find (fun m => loose_eq (PNum (of_Z (mc_id m))) id) (take n l)).
Proof.
  induction l as [|m l IH]; intros [|n] Hn; try (cbn in Hn; lia); try done.
  cbn [find_machine take find]. destruct (loose_eq _ id); [done|]. apply IH. cbn in Hn. lia.
Qed.

(** A list whose count is not larger than its length is searched without an exception:
    the text names the first machine with the id, or says that there is none. *)
Theorem machine_info_first ml id : ml_count ml <= Z.of_nat (length (ml_list ml)) ->
  dmapGetMachineInfo (Some ml) id
  = Returned match find (fun m => loose_eq (PNum (of_Z (mc_id m))) id) (take (Z.to_nat (ml_count ml)) (ml_list ml)) with
             | Some m => u "机器：" ++ mc_name m ++ u " (IP:" ++ mc_ip m ++ u ")"
             | None => u "机器ID:" ++ to_str id ++ u "(未找到相关信息)"
             end.
Proof.
  intros H. unfold dmapGetMachineInfo. rewrite find_machine_spec by lia. by destruct (find _ _).
Qed.

Definition two_machines : machlist := MachList 2 [Machine 3 (u "db") (u "1.2.3.4"); Machine 4 (u "web") (u "1.2.3.5")].
Lemma machine_info_first_witness :
  ml_count two_machines <= Z.of_nat (length (ml_list two_machines)) /\
  dmapGetMachineInfo (Some two_machines) (PStr (u "4")) = Returned (u "机器：web (IP:1.2.3.5)").
Proof.
  assert (H : ml_count two_machines <= Z.of_nat (length (ml_list two_machines))) by (vm_compute; discriminate).
  split; [exact H|]. rewrite (machine_info_first two_machines (PStr (u "4")) H). reflexivity.
Defined.

(** Closing a dialog leaves no timer running: both variables are 0, and exactly the
    timers they named are cleared. *)
Lemma reload_stops_timers t :
  let '(cleared, t') := dmapAddPlugin_reload t in
  t' = Timers 0 0 /\ forall id, id ∈ cleared <-> id <> 0 /\ (id = g_addplugin_timerid t \/ id = g_dmop_timerid t).
Proof.
  unfold dmapAddPlugin_reload.
  destruct (g_addplugin_timerid t =? 0) eqn:E1, (g_dmop_timerid t =? 0) eqn:E2; split; try done;
    intros id; cbn; rewrite ?elem_of_cons, ?elem_of_nil; lia.
Qed.

(** The steps 2 to 9 of an installation add a line; every other one is a failure. *)
Lemma status_kinds step rid wid :
  (exists html, dmtAddPluginStatusShow step rid wid = AppendTo (35 :: rid) html) <-> 2 <= step <= 9.
Proof.
  split.
  - intros [html H]. revert H. unfold dmtAddPluginStatusShow.
    repeat match goal with |- context [match ?x with _ => _ end] => is_var x; destruct x end;
      try discriminate; lia.
  - intros H. assert (Hs : step = 2 \/ step = 3 \/ step = 4 \/ step = 5 \/ step = 6 \/ step = 7 \/ step = 8 \/ step = 9) by lia.
    repeat (destruct Hs as [->|Hs]; [by eexists|]). subst step. by eexists.
Qed.
