(* ===== verification/Uri.v ===== *)
(** * [encodeURIComponent] and [decodeURIComponent]

    The two functions of the language that the cookies and the query strings are made
    with, and the proof that one undoes the other. *)

From Stdlib Require Import ZArith Lia.
From stdpp Require Import base tactics list numbers strings.
From S2P Require Import Prelude JsValue Base64.
Local Open Scope Z_scope.

(** The characters that stay as they are. *)
Definition unreserved (c : Z) : bool :=
  ((65 <=? c) && (c <=? 90)) || ((97 <=? c) && (c <=? 122)) || ((48 <=? c) && (c <=? 57))
  || (c =? 45) || (c =? 95) || (c =? 46) || (c =? 33) || (c =? 126) || (c =? 42) || (c =? 39)
  || (c =? 40) || (c =? 41).

Definition hex_upper (d : Z) : Z := if d <? 10 then 48 + d else 55 + d.
Definition percent (b : Z) : jstr := [37; hex_upper (b / 16); hex_upper (b mod 16)].

Definition is_high (c : Z) : bool := (55296 <=? c) && (c <=? 56319).
Definition is_low (c : Z) : bool := (56320 <=? c) && (c <=? 57343).

(** The UTF-8 bytes of a pair of surrogates. *)
Definition pair_bytes (h l : Z) : list Z :=
  let cp := 65536 + (h - 55296) * 1024 + (l - 56320) in
  [240 + cp / 262144; 128 + cp / 4096 mod 64; 128 + cp / 64 mod 64; 128 + cp mod 64].

(** [None]: a lone surrogate, which throws. *)
Fixpoint encodeURIComponent (s : jstr) : option jstr :=
  match s with
  | [] => Some []
  | c :: s' =>
      if unreserved c then cons c <$> encodeURIComponent s'
      else if is_low c then None
      else if is_high c then
        match s' with
        | l :: s'' => if is_low l
                      then app (flat_map percent (pair_bytes c l)) <$> encodeURIComponent s''
                      else None
        | [] => None
        end
      else app (flat_map percent (Utf8.encode_unit c)) <$> encodeURIComponent s'
  end.

(** A byte written as two hexadecimal digits. *)
Definition hex_byte (a b : Z) : option Z :=
  if (digit_val a <? 16) && (digit_val b <? 16) then Some (digit_val a * 16 + digit_val b) else None.

Definition cont (b : Z) : bool := (128 <=? b) && (b <=? 191).

(** The next escaped byte of the text. *)
Definition next_byte (s : jstr) : option (Z * jstr) :=
  match s with
  | 37 :: a :: b :: s' => (fun v => (v, s')) <$> hex_byte a b
  | _ => None
  end.
Definition next_cont (s : jstr) : option (Z * jstr) :=
  match next_byte s with Some (b, s') => if cont b then Some (b, s') else None | None => None end.

(** The bytes after a first byte [b], as the units of their code point. Overlong forms,
    surrogates and values above 0x10FFFF throw. *)
Definition decode_tail (b : Z) (s : jstr) : option (jstr * jstr) :=
  if b <? 128 then Some ([b], s)
  else if (192 <=? b) && (b <? 224) then
    match next_cont s with
    | Some (b1, s) =>
        let cp := (b - 192) * 64 + (b1 - 128) in
        if cp <? 128 then None else Some ([cp], s)
    | None => None
    end
  else if (224 <=? b) && (b <? 240) then
    match next_cont s with
    | Some (b1, s) =>
        match next_cont s with
        | Some (b2, s) =>
            let cp := (b - 224) * 4096 + (b1 - 128) * 64 + (b2 - 128) in
            if (cp <? 2048) || is_high cp || is_low cp then None else Some ([cp], s)
        | None => None
        end
    | None => None
    end
  else if (240 <=? b) && (b <? 248) then
    match next_cont s with
    | Some (b1, s) =>
        match next_cont s with
        | Some (b2, s) =>
            match next_cont s with
            | Some (b3, s) =>
                let cp := (b - 240) * 262144 + (b1 - 128) * 4096 + (b2 - 128) * 64 + (b3 - 128) in
                if (cp <? 65536) || (1114111 <? cp) then None
                else Some ([55296 + (cp - 65536) / 1024; 56320 + (cp - 65536) mod 1024], s)
            | None => None
            end
        | None => None
        end
    | None => None
    end
  else None.

(** [fuel]: at least the length of the text. *)
Fixpoint decode_loop (fuel : nat) (s : jstr) : option jstr :=
  match s, fuel with
  | [], _ => Some []
  | _, O => None
  | 37 :: _, S fuel =>
      match next_byte s with
      | Some (b, s1) =>
          match decode_tail b s1 with
          | Some (units, s2) => app units <$> decode_loop fuel s2
          | None => None
          end
      | None => None
      end
  | c :: s', S fuel => cons c <$> decode_loop fuel s'
  end.
Definition decodeURIComponent (s : jstr) : option jstr := decode_loop (length s) s.


Example encode_uri_ex : encodeURIComponent (u "a b=天") = Some (u "a%20b%3D%E5%A4%A9").
Proof. vm_compute. reflexivity. Qed.

(** A unit that is not a surrogate. *)
Definition plain16 (c : Z) : bool := is_unit c && negb (is_high c) && negb (is_low c).
(** ** Escapes *)

Definition enc1 (c : Z) : jstr := if unreserved c then [c] else flat_map percent (Utf8.encode_unit c).

(** What [encodeURIComponent] writes: each unit that is no surrogate, and each pair of
    surrogates, by itself. *)
Inductive escaped : jstr -> jstr -> Prop :=
  | EscNil : escaped [] []
  | EscUnit c s t : plain16 c = true -> escaped s t -> escaped (c :: s) (enc1 c ++ t)
  | EscPair h l s t : is_high h = true -> is_low l = true -> escaped s t ->
      escaped (h :: l :: s) (flat_map percent (pair_bytes h l) ++ t).

(** A text without lone surrogates is escaped, any other throws. *)
Lemma encode_escaped_length n : forall s t, (length s <= n)%nat -> units s -> encodeURIComponent s = Some t -> escaped s t.
Proof.
  induction n as [|n IH]; intros s t Hn Hs H.
  { destruct s; [|cbn in Hn; lia]. injection H as <-. constructor. }
  destruct s as [|c s]; [injection H as <-; constructor|]. cbn [length] in Hn.
  inversion Hs as [|? ? Hc Hs']; subst. cbn [encodeURIComponent] in H.
  assert (Hplain : is_high c = false -> is_low c = false -> plain16 c = true)
    by (intros Hh Hl; unfold plain16, is_unit; rewrite Hh, Hl; lia).
  assert (Hu : forall t', escaped s t' -> is_high c = false -> is_low c = false ->
            escaped (c :: s) ((if unreserved c then [c] else flat_map percent (Utf8.encode_unit c)) ++ t'))
    by (intros t' Ht Hh Hl; apply EscUnit; auto).
  destruct (unreserved c) eqn:Eu.
  - apply fmap_Some in H as (t' & H & ->). apply (Hu t'); [apply IH; [lia|done..]| |];
      destruct (is_high c) eqn:Eh, (is_low c) eqn:El; try done; clear -Eu Eh El;
      unfold unreserved, is_high, is_low in *; lia.
  - destruct (is_low c) eqn:El; [done|]. destruct (is_high c) eqn:Eh.
    + destruct s as [|l s]; [done|]. destruct (is_low l) eqn:Ell; [|done].
      apply fmap_Some in H as (t' & H & ->). apply EscPair; [done..|]. cbn in Hn. inversion Hs'; subst.
      apply IH; [lia|done..].
    + apply fmap_Some in H as (t' & H & ->). apply (Hu t'); [apply IH; [lia|done..]|done..].
Qed.
Lemma encode_escaped s t : units s -> encodeURIComponent s = Some t -> escaped s t.
Proof. by apply (encode_escaped_length (length s)). Qed.

Lemma percent_check :
  forallb (fun b => match percent b with
                    | [37; x; y] => bool_decide (hex_byte x y = Some b)
                    | _ => false end) (seqZ 0 256) = true.
Proof. vm_compute. reflexivity. Qed.

Lemma next_percent b r : is_byte b -> next_byte (percent b ++ r) = Some (b, r).
Proof.
  intros Hb. pose proof (proj1 (forallb_forall _ _) percent_check b) as Hc.
  cbn in Hc. apply bool_decide_eq_true in Hc; [cbn; by rewrite Hc|].
  apply list_elem_of_In, elem_of_seqZ. unfold is_byte in Hb. lia.
Qed.

Lemma next_cont_percent b r : 128 <= b < 192 -> next_cont (percent b ++ r) = Some (b, r).
Proof.
  intros Hb. unfold next_cont. rewrite next_percent by (unfold is_byte; lia).
  by replace (cont b) with true by (symmetry; apply andb_true_iff; lia).
Qed.

(** The escapes of a unit are read as that unit. *)
Lemma decode_unit c r : plain16 c = true ->
  exists b t, flat_map percent (Utf8.encode_unit c) ++ r = percent b ++ t /\ is_byte b /\
    decode_tail b t = Some ([c], r).
Proof.
  intros Hc. unfold plain16, is_unit in Hc. unfold is_byte.
  assert (Hu : 0 <= c < 65536) by lia.
  assert (Hs : is_high c || is_low c = false) by (destruct (is_high c), (is_low c); [lia..|done]).
  destruct (decide (c < 128)) as [H1|H1]; [|destruct (decide (c < 2048)) as [H2|H2]].
  - rewrite encode_unit_1 by lia. exists c, r. cbn [flat_map]. rewrite app_nil_r. repeat split; try lia.
    unfold decode_tail. by rewrite (proj2 (Z.ltb_lt c 128)) by lia.
  - rewrite encode_unit_2 by lia. exists (192 + c / 64), (percent (128 + c mod 64) ++ r).
    cbn [flat_map]. rewrite app_nil_r, <- app_assoc.
    assert (0 <= c mod 64 < 64 /\ 2 <= c / 64 < 32) by (Z.div_mod_to_equations; lia).
    repeat split; try lia. unfold decode_tail. rewrite (proj2 (Z.ltb_ge _ 128)) by lia.
    replace ((192 <=? 192 + c / 64) && (192 + c / 64 <? 224)) with true by (symmetry; apply andb_true_iff; lia).
    rewrite next_cont_percent by lia.
    replace ((192 + c / 64 - 192) * 64 + (128 + c mod 64 - 128)) with c by (Z.div_mod_to_equations; lia).
    by rewrite (proj2 (Z.ltb_ge c 128)) by lia.
  - rewrite encode_unit_3 by lia.
    exists (224 + c / 4096), (percent (128 + c / 64 mod 64) ++ percent (128 + c mod 64) ++ r).
    cbn [flat_map]. rewrite app_nil_r, <- !app_assoc.
    assert (0 <= c mod 64 < 64 /\ 0 <= c / 64 mod 64 < 64 /\ 0 <= c / 4096 < 16) by (Z.div_mod_to_equations; lia).
    repeat split; try lia. unfold decode_tail. rewrite (proj2 (Z.ltb_ge _ 128)) by lia.
    replace ((192 <=? 224 + c / 4096) && (224 + c / 4096 <? 224)) with false by (symmetry; apply andb_false_iff; lia).
    replace ((224 <=? 224 + c / 4096) && (224 + c / 4096 <? 240)) with true by (symmetry; apply andb_true_iff; lia).
    rewrite !next_cont_percent by lia.
    replace ((224 + c / 4096 - 224) * 4096 + (128 + c / 64 mod 64 - 128) * 64 + (128 + c mod 64 - 128))
      with c by (Z.div_mod_to_equations; lia).
    by rewrite (proj2 (Z.ltb_ge c 2048)), <- orb_assoc, Hs by lia.
Qed.

(** The escapes of a pair are read as that pair. *)
Lemma decode_pair h l r : is_high h = true -> is_low l = true ->
  exists b t, flat_map percent (pair_bytes h l) ++ r = percent b ++ t /\ is_byte b /\
    decode_tail b t = Some ([h; l], r).
Proof.
  unfold is_high, is_low, is_byte. intros Hh Hl. unfold pair_bytes.
  set (cp := 65536 + (h - 55296) * 1024 + (l - 56320)). assert (Hcp : 65536 <= cp <= 1114111) by (subst cp; lia).
  exists (240 + cp / 262144), (percent (128 + cp / 4096 mod 64) ++ percent (128 + cp / 64 mod 64) ++ percent (128 + cp mod 64) ++ r).
  cbn [flat_map]. rewrite app_nil_r, <- !app_assoc.
  assert (0 <= cp mod 64 < 64 /\ 0 <= cp / 64 mod 64 < 64 /\ 0 <= cp / 4096 mod 64 < 64 /\ 0 <= cp / 262144 < 8)
    by (Z.div_mod_to_equations; lia).
  repeat split; try lia. unfold decode_tail. rewrite (proj2 (Z.ltb_ge _ 128)) by lia.
  replace ((192 <=? 240 + cp / 262144) && (240 + cp / 262144 <? 224)) with false by (symmetry; apply andb_false_iff; lia).
  replace ((224 <=? 240 + cp / 262144) && (240 + cp / 262144 <? 240)) with false by (symmetry; apply andb_false_iff; lia).
  replace ((240 <=? 240 + cp / 262144) && (240 + cp / 262144 <? 248)) with true by (symmetry; apply andb_true_iff; lia).
  rewrite !next_cont_percent by lia.
  replace ((240 + cp / 262144 - 240) * 262144 + (128 + cp / 4096 mod 64 - 128) * 4096 +
           (128 + cp / 64 mod 64 - 128) * 64 + (128 + cp mod 64 - 128)) with cp by (Z.div_mod_to_equations; lia).
  rewrite (proj2 (Z.ltb_ge cp 65536)), (proj2 (Z.ltb_ge 1114111 cp)) by lia. cbn [orb].
  assert (Hq : (cp - 65536) / 1024 = h - 55296 /\ (cp - 65536) mod 1024 = l - 56320)
    by (subst cp; split; Z.div_mod_to_equations; lia).
  destruct Hq as [-> ->]. do 3 f_equal; [lia|f_equal; lia].
Qed.

Lemma decode_percent fuel b t : is_byte b -> decode_loop (S fuel) (percent b ++ t)
  = match decode_tail b t with Some (units, s2) => app units <$> decode_loop fuel s2 | None => None end.
Proof.
  intros Hb. change (decode_loop (S fuel) (percent b ++ t)) with
    (match next_byte (percent b ++ t) with
     | Some (b, s1) => match decode_tail b s1 with
                       | Some (units, s2) => app units <$> decode_loop fuel s2 | None => None end
     | None => None end). by rewrite next_percent.
Qed.

(** What [decodeURIComponent] reads: units as they are, but for the percent sign, and
    escaped units and pairs. *)
Inductive spelled : jstr -> jstr -> Prop :=
  | SpNil : spelled [] []
  | SpRaw c s t : c <> 37 -> spelled s t -> spelled (c :: s) (c :: t)
  | SpUnit c s t : plain16 c = true -> spelled s t -> spelled (c :: s) (flat_map percent (Utf8.encode_unit c) ++ t)
  | SpPair h l s t : is_high h = true -> is_low l = true -> spelled s t ->
      spelled (h :: l :: s) (flat_map percent (pair_bytes h l) ++ t).
Lemma decode_spelled s t : spelled s t -> forall fuel, (length t <= fuel)%nat -> decode_loop fuel t = Some s.
Proof.
  induction 1 as [|c s t Hc Ht IH|c s t Hc Ht IH|h l s t Hh Hl Ht IH]; intros fuel Hf; [by destruct fuel|..].
  - destruct fuel as [|fuel]; [cbn in Hf; lia|].
    assert (E : decode_loop (S fuel) (c :: t) = cons c <$> decode_loop fuel t)
      by (cbn; destruct c as [|p|p]; try done; repeat (destruct p as [p|p|]; try done)).
    rewrite E, IH; [done|]. cbn in Hf. lia.
  - rewrite length_app in Hf. destruct (decode_unit c t Hc) as (b & t' & E & Hb & Hd). rewrite E.
    assert (1 <= length (flat_map percent (Utf8.encode_unit c)))%nat by (unfold Utf8.encode_unit; repeat case_match; cbn; lia).
    destruct fuel as [|fuel]; [lia|]. by rewrite decode_percent, Hd, IH by (done || lia).
  - rewrite length_app in Hf. change (length (flat_map percent (pair_bytes h l))) with 12%nat in Hf.
    destruct (decode_pair h l t Hh Hl) as (b & t' & -> & Hb & Hd). destruct fuel as [|fuel]; [lia|].
    rewrite decode_percent, Hd, IH; [done|lia|done].
Qed.
Lemma escaped_spelled s t : escaped s t -> spelled s t.
Proof.
  induction 1 as [|c s t Hc Ht IH|h l s t Hh Hl Ht IH]; [constructor| |by apply SpPair].
  unfold enc1. destruct (unreserved c) eqn:Eu; [|by apply SpUnit]. apply SpRaw; [|done]. by intros ->.
Qed.
(** Escaped text is decoded to the text it came from. *)
Lemma decode_escaped s t : escaped s t -> forall fuel, (length t <= fuel)%nat -> decode_loop fuel t = Some s.
Proof. intros H. by apply decode_spelled, escaped_spelled. Qed.

(** Every text that can be escaped comes back. *)
Lemma uri_roundtrip s t : units s -> encodeURIComponent s = Some t -> decodeURIComponent t = Some s.
Proof. intros Hs H. unfold decodeURIComponent. by apply (decode_escaped _ _ (encode_escaped _ _ Hs H)). Qed.
