(* ===== verification/Cookie.v ===== *)
(** * Cookies: [html/resource/js/jquery.cookie.js], and the cookie functions of
    [html/resource/js/dmt.comm.js]

    [document.cookie] is read as one text, "name=value" pairs joined by "; "; an
    assignment to it is the text assigned. *)

From Stdlib Require Import ZArith QArith Lia.
From stdpp Require Import base tactics list numbers strings gmap.
From S2P Require Import Prelude JsValue JsDate Base64 Json Uri.
Local Open Scope Z_scope.

(** ** The plugin *)

(** [toUTCString]: the name of the day, the date and the time. *)
Definition day_name (d : Z) : jstr :=
  match d with
  | 0 => u "Sun" | 1 => u "Mon" | 2 => u "Tue" | 3 => u "Wed" | 4 => u "Thu" | 5 => u "Fri" | _ => u "Sat"
  end.
Definition month_name (m : Z) : jstr :=
  match m with
  | 0 => u "Jan" | 1 => u "Feb" | 2 => u "Mar" | 3 => u "Apr" | 4 => u "May" | 5 => u "Jun"
  | 6 => u "Jul" | 7 => u "Aug" | 8 => u "Sep" | 9 => u "Oct" | 10 => u "Nov" | _ => u "Dec"
  end.
Definition two (n : Z) : jstr := pad_left 2 48 (Z_to_str n).
Definition toUTCString (t : Z) : jstr :=
  let f := utc_fields t in
  day_name ((t / ms_per_day + 4) mod 7) ++ u ", " ++ two (f_date f) ++ u " " ++ month_name (f_month f)
  ++ u " " ++ pad_left 4 48 (Z_to_str (f_year f)) ++ u " " ++ two (f_hours f) ++ u ":" ++ two (f_minutes f)
  ++ u ":" ++ two (f_seconds f) ++ u " GMT".

(** The time value of a date: no more than 100 million days from the epoch. *)
Definition time_clip (q : Q) : option Z :=
  if Qle_bool q (8640000000000000 # 1) && Qle_bool (-8640000000000000 # 1) q
  then Some (Z.quot (Qnum q) (Zpos (Qden q))) else None.

(** When a cookie ends: days from now, or a date. *)
Inductive expiry := Days (d : num) | At (t : option Z).
Definition expiry_time (now : Z) (e : expiry) : option Z :=
  match e with
  | Days (Fin d) => time_clip (inject_Z now + d * inject_Z ms_per_day)%Q
  | Days _ => None
  | At t => t
  end.
Definition date_UTC (t : option Z) : jstr := match t with Some t => toUTCString t | None => u "Invalid Date" end.

(** [None]: undefined. *)
Record options := Options {
  o_expires : option expiry; o_path : option jstr; o_domain : option jstr; o_secure : option bool
}.
Definition or_defined {A} (a b : option A) : option A := match a with Some _ => a | None => b end.
(** [$.extend({}, target, source)] *)
Definition extend_options (target source : options) : options :=
  Options (or_defined (o_expires source) (o_expires target)) (or_defined (o_path source) (o_path target))
    (or_defined (o_domain source) (o_domain target)) (or_defined (o_secure source) (o_secure target)).
Definition no_options : options := Options None None None None.

Record config := Config { raw : bool; json : bool; defaults : options }.
Definition cookie_defaults : config := Config false false no_options.

(** [s.slice(1, -1)] *)
Definition slice_inner (s : jstr) : jstr := removelast (tail s).

(** [s.split('; ')]: [skip] is set on the second unit of a separator. *)
Fixpoint split_cookies (s : jstr) (skip : bool) : list jstr :=
  match s with
  | [] => [[]]
  | c :: s' =>
      if skip then split_cookies s' false
      else if prefix_b [59; 32] s then [] :: split_cookies s' true
      else match split_cookies s' false with
           | [] => [[c]]
           | w :: ws => (c :: w) :: ws
           end
  end.

(** The name of a pair and what follows its first equals sign. *)
Definition pair_of (cookie : jstr) : jstr * jstr :=
  let parts := split_on 61 cookie in (match parts with n :: _ => n | [] => [] end, join [61] (tail parts)).

(** The text of an element in [join]. *)
Definition join_text (p : prim) : jstr := match p with PUndef | PNull => [] | _ => to_str p end.

Definition truthy_val (v : jsval) : bool :=
  match v with
  | VUndef | VNull => false
  | VBool b => b
  | VNum n => truthy (PNum n)
  | VStr s => truthy (PStr s)
  | _ => true
  end.

Inductive cookie_result :=
  | Value (v : jsval)                  (* of one cookie; [VUndef] when there is none *)
  | Object (m : gmap jstr jsval)       (* all cookies *)
  | Throws.                            (* a name that cannot be decoded, or the converter *)

(** [JSON.parse] throws on other texts than JSON ([None]); [host_text] is what [String]
    gives for dates, in local time, and for functions. *)
Section Plugin.
Context {J : JsonObject} (JSON_parse : jstr -> option jsval) (host_text : jsval -> jstr) (c : config).

(** [encode] and [decode]; [None] when they throw. *)
Definition cookie_encode (s : prim) : option jstr :=
  if raw c then Some (join_text s) else encodeURIComponent (to_str s).
Definition cookie_decode (s : jstr) : option jstr := if raw c then Some s else decodeURIComponent s.

Definition stringifyCookieValue (value : jsval) : option jstr :=
  cookie_encode (if json c
                 then match JSON_stringify value with Some t => PStr t | None => PUndef end
                 else PStr (js_String host_text value)).

(** [VUndef]: a value that cannot be decoded or parsed is ignored. *)
Definition parseCookieValue (s : jstr) : jsval :=
  let s := match s with
           | 34 :: _ => replace_all [92; 92] [92] (replace_all [92; 34] [34] (slice_inner s))
           | _ => s
           end in
  match decodeURIComponent (replace_all [43] [32] s) with
  | Some s => if json c then default VUndef (JSON_parse s) else VStr s
  | None => VUndef
  end.
Definition read (s : jstr) : jsval := if raw c then VStr s else parseCookieValue s.
(** [read(s, converter)], where the converter may throw. *)
Definition read_with (s : jstr) (converter : option (jsval -> option jsval)) : option jsval :=
  match converter with Some g => g (read s) | None => Some (read s) end.

(** Writing: the text assigned to [document.cookie]. *)
Definition cookie_attributes (now : Z) (o : options) : jstr :=
  (match o_expires o with Some e => u "; expires=" ++ date_UTC (expiry_time now e) | None => [] end)
  ++ (match o_path o with Some ((_ :: _) as p) => u "; path=" ++ p | _ => [] end)
  ++ (match o_domain o with Some ((_ :: _) as d) => u "; domain=" ++ d | _ => [] end)
  ++ (match o_secure o with Some true => u "; secure" | _ => [] end).
Definition write_cookie (now : Z) (key : prim) (value : jsval) (o : options) : option jstr :=
  match cookie_encode key, stringifyCookieValue value with
  | Some k, Some v => Some (k ++ u "=" ++ v ++ cookie_attributes now (extend_options (defaults c) o))
  | _, _ => None
  end.

(** The loop that looks for [key], and the one that collects all cookies. *)
Fixpoint read_loop (key : prim) (converter : option (jsval -> option jsval)) (cookies : list jstr) : cookie_result :=
  match cookies with
  | [] => Value VUndef
  | ck :: cookies' =>
      let '(n, v) := pair_of ck in
      match cookie_decode n with
      | None => Throws
      | Some name =>
          if bool_decide (key = PStr name)
          then match read_with v converter with Some w => Value w | None => Throws end
          else read_loop key converter cookies'
      end
  end.
Fixpoint read_all (result : gmap jstr jsval) (cookies : list jstr) : cookie_result :=
  match cookies with
  | [] => Object result
  | ck :: cookies' =>
      let '(n, v) := pair_of ck in
      match cookie_decode n with
      | None => Throws
      | Some name =>
          read_all (match read v with VUndef => result | w => <[name := w]> result end) cookies'
      end
  end.
Definition cookie_list (document_cookie : jstr) : list jstr :=
  match document_cookie with [] => [] | _ => split_cookies document_cookie false end.
(** Reading: [$.cookie(key)], [$.cookie(key, converter)] and [$.cookie()]. *)
Definition read_cookie (document_cookie : jstr) (key : prim) (converter : option (jsval -> option jsval)) : cookie_result :=
  if truthy key then read_loop key converter (cookie_list document_cookie)
  else read_all ∅ (cookie_list document_cookie).

(** [$.removeCookie]: the text assigned, if any, and the result. [assign] is what
    [document.cookie] is after an assignment. [None]: an exception. *)
Definition removeCookie (now : Z) (assign : jstr -> jstr) (document_cookie : jstr) (key : prim) (o : options)
  : option (option jstr * bool) :=
  match read_cookie document_cookie key None with
  | Throws => None
  | Value VUndef => Some (None, false)
  | _ =>
      match write_cookie now key (VStr []) (extend_options o (Options (Some (Days (of_Z (-1)))) None None None)) with
      | None => None
      | Some w =>
          match read_cookie (assign w) key None with
          | Throws => None
          | Value v => Some (Some w, negb (truthy_val v))
          | Object _ => Some (Some w, false)
          end
      end
  end.
End Plugin.

(** ** The functions of [dmt.comm.js] *)

Fixpoint until (sep : Z) (s : jstr) : jstr :=
  match s with [] => [] | c :: s' => if c =? sep then [] else c :: until sep s' end.

(** The first match of the pattern: at the start or after a space, the name, an equals
    sign, and the value up to a semicolon or the end. [at_start]: the position is the
    start of the text. The name has no characters special in a pattern. *)
Fixpoint match_cookie (name : jstr) (s : jstr) (at_start : bool) : option jstr :=
  if at_start && prefix_b (name ++ [61]) s then Some (until 59 (drop (length name + 1) s))
  else match s with
  | [] => None
  | c :: s' =>
      if (c =? 32) && prefix_b (name ++ [61]) s' then Some (until 59 (drop (length name + 1) s'))
      else match_cookie name s' false
  end.

(** [unescape]: %uXXXX and %XX; anything else stays. *)
Fixpoint unescape_from (s : jstr) (skip : nat) : jstr :=
  match s with
  | [] => []
  | c :: s' =>
      match skip with
      | S k => unescape_from s' k
      | O =>
          match s with
          | 37 :: 117 :: a :: b :: d :: e :: _ =>
              match Reader.hex4 a b d e with
              | Some v => v :: unescape_from s' 5
              | None => c :: unescape_from s' 0
              end
          | 37 :: a :: b :: _ =>
              match hex_byte a b with
              | Some v => v :: unescape_from s' 2
              | None => c :: unescape_from s' 0
              end
          | _ => c :: unescape_from s' 0
          end
      end
  end.
Definition unescape (s : jstr) : jstr := unescape_from s 0.

Definition dmtGetCookie (document_cookie name : jstr) : option jstr :=
  unescape <$> match_cookie name document_cookie true.

(** The text assigned, when the cookie exists: the value as read, seven days ago. *)
Definition dmtDelCookie (now : Z) (document_cookie name : jstr) : option jstr :=
  (fun cval => name ++ u "=" ++ cval ++ u "; expires=" ++ toUTCString (now - 7 * 24 * 60 * 60 * 1000) ++ u ";path=/")
  <$> dmtGetCookie document_cookie name.

Example utc_ex : toUTCString 1577934245000 = u "Thu, 02 Jan 2020 03:04:05 GMT".
Proof. vm_compute. reflexivity. Qed.
Example read_ex :
  let read_cookie := read_cookie Reader.parse in
  read_cookie cookie_defaults (u "x=1; k%20=a+b%3B; y=2") (PStr (u "k ")) None = Value (VStr (u "a b;")) /\
  read_cookie cookie_defaults (u "x=1; y=2") (PStr (u "k")) None = Value VUndef.
Proof. vm_compute. split; reflexivity. Qed.
Example attributes_ex : cookie_attributes 0 (Options None (Some (u "/x")) (Some (u "a.b")) (Some true)) = u "; path=/x; domain=a.b; secure" /\
  cookie_attributes 0 (Options None (Some []) None (Some false)) = [].
Proof. split; reflexivity. Qed.
Example get_ex : dmtGetCookie (u "ab=1; b=%u5929%41; c=3") (u "b") = Some (u "天A").
Proof. vm_compute. reflexivity. Qed.
(** A cookie whose value cannot be decoded counts as none, so it is never removed. *)
Example undecodable_not_removed :
  removeCookie (J := json2) Reader.parse (fun _ => []) cookie_defaults 0 (fun _ => []) (u "k=100%") (PStr (u "k")) no_options
  = Some (None, false).
Proof. vm_compute. reflexivity. Qed.
