(* ===== verification/CookieProps.v ===== *)
(** * Properties of the cookie functions: what was written is read *)

From Stdlib Require Import ZArith Lia.
From stdpp Require Import base tactics list numbers strings gmap.
From S2P Require Import Prelude JsValue JsDate Base64 Json JsonFacts Uri Cookie.
Local Open Scope Z_scope.

(** ** Escaped texts are safe in a cookie *)

Definition safe (c : Z) : bool := negb (bool_decide (c ∈ [59; 61; 32; 43; 34])).

Lemma percent_safe_check : forallb (fun b => forallb safe (percent b)) (seqZ 0 256) = true.
Proof. vm_compute. reflexivity. Qed.

Lemma unreserved_safe c : unreserved c = true -> safe c = true.
Proof.
  intros H. unfold safe. apply negb_true_iff, bool_decide_eq_false. intros Hin.
  rewrite !elem_of_cons, elem_of_nil in Hin.
  destruct Hin as [->|[->|[->|[->|[->|[]]]]]]; discriminate H.
Qed.

Lemma percents_safe l : Forall is_byte l -> forallb safe (flat_map percent l) = true.
Proof.
  induction 1 as [|b l Hb Hl IHl]; [done|]. cbn [flat_map]. rewrite forallb_app, IHl, andb_true_r.
  apply (proj1 (forallb_forall _ _) percent_safe_check b), list_elem_of_In, elem_of_seqZ.
  unfold is_byte in Hb. lia.
Qed.
Lemma escaped_safe s t : escaped s t -> forallb safe t = true.
Proof.
  induction 1 as [|c s t Hc Ht IH|h l s t Hh Hl Ht IH]; [done| |]; rewrite forallb_app, IH, andb_true_r.
  - unfold enc1. destruct (unreserved c) eqn:E; [cbn; by rewrite unreserved_safe|].
    apply percents_safe, encode_unit_bytes. unfold plain16, is_unit in Hc. lia.
  - apply percents_safe. unfold is_high, is_low, pair_bytes in *. set (cp := _ + _ + _).
    assert (65536 <= cp <= 1114111) by (subst cp; lia).
    repeat constructor; unfold is_byte; Z.div_mod_to_equations; lia.
Qed.

Lemma safe_not c s : c ∈ [59; 61; 32; 43; 34] -> forallb safe s = true -> Forall (fun d => d <> c) s.
Proof.
  intros Hc H. apply Forall_forall. intros d Hd ->. rewrite forallb_forall in H.
  apply list_elem_of_In, H in Hd. unfold safe in Hd. apply negb_true_iff, bool_decide_eq_false in Hd. done.
Qed.

Lemma split_cookies_cons a r : Forall (fun c => c <> 59) a ->
  split_cookies (a ++ 59 :: 32 :: r) false = a :: split_cookies r false.
Proof.
  induction 1 as [|c a Hc Ha IH]; [done|]. cbn [app split_cookies].
  assert (E : prefix_b [59; 32] (c :: a ++ 59 :: 32 :: r) = false).
  { cbn [prefix_b]. by rewrite (proj2 (Z.eqb_neq 59 c)) by congruence. }
  by rewrite E, IH.
Qed.

Lemma split_cookies_last a : Forall (fun c => c <> 59) a -> split_cookies a false = [a].
Proof.
  induction 1 as [|c a Hc Ha IH]; [done|]. cbn [split_cookies].
  assert (E : prefix_b [59; 32] (c :: a) = false).
  { cbn [prefix_b]. by rewrite (proj2 (Z.eqb_neq 59 c)) by congruence. }
  by rewrite E, IH.
Qed.

(** ** Pairs *)

Lemma until_app a r : Forall (fun c => c <> 59) a -> r = [] \/ head r = Some 59 -> until 59 (a ++ r) = a.
Proof.
  intros Ha Hr. induction Ha as [|c a Hc Ha IH]; cbn [app until].
  - destruct Hr as [->|Hr]; [done|]. destruct r as [|c r]; [done|]. injection Hr as ->. done.
  - by rewrite (proj2 (Z.eqb_neq c 59) Hc), IH.
Qed.
Lemma attributes_head now o : cookie_attributes now o = [] \/ head (cookie_attributes now o) = Some 59.
Proof.
  unfold cookie_attributes. destruct (o_expires o); [by right|]. destruct (o_path o) as [[|]|]; [|by right|];
    (destruct (o_domain o) as [[|]|]; [|by right|]; destruct (o_secure o) as [[]|]; auto).
Qed.

(** The pair in the text that [$.cookie(key, value)] assigns. *)
Lemma write_pair {J : JsonObject} host_text c now key value o t : raw c = false -> units key ->
  write_cookie host_text c now (PStr key) value o = Some t ->
  exists k v, escaped key k /\ stringifyCookieValue host_text c value = Some v /\
    (forallb safe v = true -> until 59 t = k ++ 61 :: v).
Proof.
  intros Hr Hk. unfold write_cookie. destruct (cookie_encode c (PStr key)) as [k|] eqn:Ek; [|done].
  destruct (stringifyCookieValue host_text c value) as [v|]; [|done]. intros [= <-].
  unfold cookie_encode in Ek. rewrite Hr in Ek. apply encode_escaped in Ek; [|done].
  exists k, v. split; [done|]. split; [done|]. intros Hv.
  rewrite app_comm_cons, app_assoc.
  apply until_app; [|apply attributes_head]. apply Forall_app.
  split; [|constructor; [lia|]]; (apply safe_not; [by left|]); [by eapply escaped_safe|done].
Qed.
Lemma pair_of_pair k v : forallb safe k = true -> forallb safe v = true -> pair_of (k ++ 61 :: v) = (k, v).
Proof.
  intros Hk Hv. unfold pair_of.
  rewrite split_on_cons, split_on_none; [done|..]; (apply safe_not; [right; by left|done]).
Qed.

(** Values that can be stored: texts, and with the setting [json] what has a JSON text. *)
Definition storable (c : config) (value : jsval) : Prop :=
  if json c then clean value = true /\ plain_keys value = true else exists s, value = VStr s /\ units s.

Lemma read_stored {J : JsonObject} {L : JsonLaws J} JSON_parse host_text c value v :
  (forall t w, Reader.parse t = Some w -> clean w = true -> plain_keys w = true -> JSON_parse t = Some w) ->
  raw c = false -> storable c value -> stringifyCookieValue host_text c value = Some v ->
  forallb safe v = true /\ read JSON_parse c v = value.
Proof.
  intros HP Hr Hs Hv. unfold storable, stringifyCookieValue, cookie_encode in *. rewrite Hr in Hv.
  assert (H : exists s, units s /\ encodeURIComponent s = Some v /\
            (if json c then default VUndef (JSON_parse s) else VStr s) = value).
  { destruct (json c).
    - destruct Hs as [Hs Hk]. destruct (stringify_reads _ Hs) as (s & E & Hp & Hu). rewrite E in Hv. exists s.
      by rewrite (HP _ _ Hp).
    - destruct Hs as (s & -> & Hu). by exists s. }
  destruct H as (s & Hu & He & Hval). pose proof (encode_escaped _ _ Hu He) as Hesc.
  pose proof (escaped_safe _ _ Hesc) as Hsafe. split; [done|]. unfold read, parseCookieValue. rewrite Hr.
  assert (E : match v with
              | 34 :: _ => replace_all [92; 92] [92] (replace_all [92; 34] [34] (slice_inner v))
              | _ => v end = v).
  { destruct v as [|d w]; [done|]. apply andb_true_iff in Hsafe as [Hd _].
    assert (d <> 34) by (intros ->; discriminate Hd).
    destruct d as [|q|q]; try done. repeat (destruct q as [q|q|]; try done). }
  rewrite E. unfold replace_all. rewrite replace_from_absent by (apply safe_not; [do 3 right; left|done]).
  by rewrite (uri_roundtrip s).
Qed.

(** A pair of another name, whose name can be decoded. *)
Definition other_pair (c : config) (key w : jstr) : Prop :=
  Forall (fun d => d <> 59) w /\ exists n, cookie_decode c (pair_of w).1 = Some n /\ n <> key.

Lemma read_loop_skip JSON_parse c key conv pre rest : Forall (other_pair c key) pre ->
  read_loop JSON_parse c (PStr key) conv (pre ++ rest) = read_loop JSON_parse c (PStr key) conv rest.
Proof.
  induction 1 as [|w pre (_ & n & Hn & Hne) Hp IH]; [done|]. cbn [app read_loop].
  destruct (pair_of w) as [m v]. cbn [fst] in Hn. rewrite Hn, bool_decide_eq_false_2; [done|congruence].
Qed.

Lemma cookie_list_join pre w post : Forall (Forall (fun c => c <> 59)) pre -> Forall (fun c => c <> 59) w -> w <> [] ->
  exists more, cookie_list (join [59; 32] (pre ++ w :: post)) = pre ++ w :: more.
Proof.
  intros Hpre Hw Hne.
  assert (Hsplit : exists more, split_cookies (join [59; 32] (pre ++ w :: post)) false = pre ++ w :: more).
  { induction Hpre as [|a pre Ha Hpre IH].
    - destruct post as [|b post]; cbn [app join]; [exists []; by apply split_cookies_last|].
      eexists. by apply (split_cookies_cons w).
    - destruct IH as [more IH]. exists more.
      assert (E : join [59; 32] ((a :: pre) ++ w :: post) = a ++ 59 :: 32 :: join [59; 32] (pre ++ w :: post))
        by (cbn [app]; by destruct pre).
      by rewrite E, split_cookies_cons, IH. }
  destruct Hsplit as [more E]. exists more. unfold cookie_list.
  destruct (join [59; 32] (pre ++ w :: post)) eqn:Ej; [|done]. exfalso.
  destruct pre as [|a pre]; cbn in E; injection E; intros; [congruence|by destruct pre].
Qed.

(** ** Properties *)

(** C40. Without the setting [raw], what [$.cookie(key, value)] assigns for a text, whatever
    the options, gives the browser a pair that [$.cookie(key)] reads as the text again,
    wherever it stands among the pairs of other names. With the setting [json] the same
    holds for every value of null, booleans, integers up to 2^53, texts, and arrays and
    objects of these with plain names, where the host's JSON.parse reads the JSON texts of
    such values (RFC 8259) as the values. *)
Theorem cookie_roundtrip {J : JsonObject} {L : JsonLaws J} JSON_parse host_text c now key value o t pre post :
  (forall t w, Reader.parse t = Some w -> clean w = true -> plain_keys w = true -> JSON_parse t = Some w) ->
  raw c = false -> units key -> key <> [] -> storable c value -> Forall (other_pair c key) pre ->
  write_cookie host_text c now (PStr key) value o = Some t ->
  read_cookie JSON_parse c (join [59; 32] (pre ++ until 59 t :: post)) (PStr key) None = Value value.
Proof.
  intros HP Hr Hk Hne Hs Hpre Ht. destruct (write_pair _ _ _ _ _ _ _ Hr Hk Ht) as (k & v & Hesc & Hv & Hu).
  destruct (read_stored _ _ _ _ _ HP Hr Hs Hv) as [Hsafe Hread]. rewrite Hu by done.
  pose proof (escaped_safe _ _ Hesc) as Hksafe.
  destruct (cookie_list_join pre (k ++ 61 :: v) post) as [more E].
  - eapply Forall_impl; [exact Hpre|]. by intros w [].
  - apply Forall_app. split; [|constructor; [lia|]]; (apply safe_not; [by left|done]).
  - by destruct k.
  - unfold read_cookie. cbn [truthy]. rewrite bool_decide_eq_false_2 by done. cbn [negb].
    rewrite E, read_loop_skip by done. cbn [read_loop]. rewrite pair_of_pair by done.
    unfold cookie_decode. rewrite Hr. unfold decodeURIComponent. rewrite (decode_escaped _ _ Hesc) by done.
    rewrite bool_decide_eq_true_2 by done. cbn [read_with]. by rewrite Hread.
Qed.

Definition json_config : config := Config false true (Options None (Some (u "/")) None None).
Definition sample_value : jsval := VObj [(u "名", VArr [VNum (of_Z (-7)); VStr [55357; 56832]; VNull])].
Lemma cookie_roundtrip_witness : let J := json2 in
  match write_cookie (fun _ => []) json_config 0 (PStr (u "k=天")) sample_value (Options (Some (Days (of_Z 7))) None None None) with
  | Some t => read_cookie Reader.parse json_config (join [59; 32] ([u "k=1"] ++ until 59 t :: [u "z"])) (PStr (u "k=天")) None
              = Value sample_value
  | None => False
  end.
Proof.
  intros J. destruct (write_cookie _ _ _ _ _ _) as [t|] eqn:E; [|discriminate E].
  apply (cookie_roundtrip Reader.parse (fun _ => []) json_config 0 (u "k=天") sample_value
           (Options (Some (Days (of_Z 7))) None None None)); try done.
  - by apply is_unit_units.
  - apply Forall_singleton. split; [by apply (bool_decide_unpack _)|by exists (u "k")].
Defined.
