(* ===== verification/Highlight.v ===== *)
(** * [html/resource/js/jquery.highlight-3.js]: marking a term in a page and removing
    the marks

    A page is a tree of text nodes, elements and other nodes. [toUpperCase] of the
    language is a parameter: its result need not have the length of its argument, and
    then [splitText] can throw. *)

From Stdlib Require Import ZArith Lia.
From stdpp Require Import base tactics list numbers strings.
From S2P Require Import Prelude Md5.
Set Warnings "-register-all".
Local Open Scope Z_scope.

Inductive node :=
  | TextNode (data : jstr)
  | Element (tagName className : jstr) (childNodes : list node)
  | OtherNode.

(** No answer within the fuel, or a DOM exception. *)
Inductive dom_result (A : Type) := Done (a : A) | Throws | NoFuel.
Arguments Done {A} _.
Arguments Throws {A}.
Arguments NoFuel {A}.
Definition dom_bind {A B} (r : dom_result A) (k : A -> dom_result B) : dom_result B :=
  match r with Done a => k a | Throws => Throws | NoFuel => NoFuel end.

(** [node.splitText(offset)]: the data of the two nodes. *)
Definition splitText (data : jstr) (offset : nat) : option (jstr * jstr) :=
  if (offset <=? length data)%nat then Some (take offset data, drop offset data) else None.

Definition highlight_class : jstr := u "highlight".
(** The new element around a match. *)
Definition spannode (middle : jstr) : node := Element (u "SPAN") highlight_class [TextNode middle].

(** Script and style elements, by a search in their name in any case. *)
Definition not_searched (tagName : jstr) : bool :=
  (0 <=? index_of (to_lower tagName) (u "script")) || (0 <=? index_of (to_lower tagName) (u "style")).

Section Highlight.
Context (toUpperCase : jstr -> jstr).

(** The nodes that take the place of a text node, and by how many the loop over its
    siblings skips. *)
Definition highlight_text (pat data : jstr) : dom_result (list node * nat) :=
  let pos := index_of (toUpperCase data) pat in
  if 0 <=? pos then
    match splitText data (Z.to_nat pos) with
    | Some (before, middlebit) =>
        match splitText middlebit (length pat) with
        | Some (middle, endbit) => Done ([TextNode before; spannode middle; TextNode endbit], 1%nat)
        | None => Throws
        end
    | None => Throws
    end
  else Done ([TextNode data], 0%nat).

(** [innerHighlight(node, pat)]: the nodes in the place of [node]. The children are a
    live list: those added by one turn of the loop are there in the next. *)
Fixpoint innerHighlight (fuel : nat) (pat : jstr) (n : node) : dom_result (list node * nat) :=
  match fuel with
  | O => NoFuel
  | S fuel =>
      match n with
      | TextNode data => highlight_text pat data
      | Element tagName className childNodes =>
          if not_searched tagName then Done ([n], 0%nat)
          else dom_bind (child_loop fuel pat 0 childNodes)
                 (fun childNodes => Done ([Element tagName className childNodes], 0%nat))
      | OtherNode => Done ([n], 0%nat)
      end
  end
with child_loop (fuel : nat) (pat : jstr) (i : nat) (childNodes : list node) : dom_result (list node) :=
  match fuel with
  | O => NoFuel
  | S fuel =>
      match childNodes !! i with
      | None => Done childNodes
      | Some n =>
          dom_bind (innerHighlight fuel pat n) (fun '(ns, skip) =>
            child_loop fuel pat (i + skip + 1) (take i childNodes ++ ns ++ drop (S i) childNodes))
      end
  end.

(** [$(n).highlight(pat)] *)
Definition highlight (fuel : nat) (pat : jstr) (n : node) : dom_result (list node) :=
  dom_bind (innerHighlight fuel (toUpperCase pat) n) (fun '(ns, _) => Done ns).
End Highlight.

(** ** Removing the marks *)

(** The selector [span.highlight]. *)
Definition is_mark (n : node) : bool :=
  match n with
  | Element tagName className _ =>
      js_eqb tagName (u "SPAN") && bool_decide (highlight_class ∈ split_on 32 className)
  | _ => false
  end.

(** [normalize()]: empty text nodes go, neighbours become one. *)
Definition add_text (n : node) (rest : list node) : list node :=
  match n, rest with
  | TextNode [], _ => rest
  | TextNode a, TextNode b :: rest => TextNode (a ++ b) :: rest
  | _, _ => n :: rest
  end.
Fixpoint normalize (n : node) : node :=
  match n with
  | Element tagName className childNodes =>
      Element tagName className (fold_right (fun c rest => add_text (normalize c) rest) [] childNodes)
  | _ => n
  end.
Definition normalize_all (l : list node) : list node := fold_right (fun c rest => add_text (normalize c) rest) [] l.

(** The first mark below a node in the order of the document, its parent with the mark
    replaced by its first child and normalised. *)
Inductive unmarked (A : Type) := NoMark | Unmarked (a : A) | Empty.
Arguments NoMark {A}.
Arguments Unmarked {A} _.
Arguments Empty {A}.

Fixpoint unmark_first (n : node) : unmarked node :=
  match n with
  | Element tagName className childNodes =>
      (fix go (before rest : list node) : unmarked node :=
         match rest with
         | [] => NoMark
         | c :: rest' =>
             if is_mark c then
               match c with
               | Element _ _ (firstChild :: _) =>
                   Unmarked (Element tagName className (normalize_all (before ++ firstChild :: rest')))
               | _ => Empty   (* no child: replaceChild throws *)
               end
             else
               match unmark_first c with
               | Unmarked c' => Unmarked (Element tagName className (before ++ c' :: rest'))
               | Empty => Empty
               | NoMark => go (before ++ [c]) rest'
               end
         end) [] childNodes
  | _ => NoMark
  end.

(** How many marks are below a node. *)
Fixpoint marks (n : node) : nat :=
  match n with
  | Element _ _ childNodes =>
      fold_right (fun c k => ((if is_mark c then 1 else 0) + marks c + k)%nat) 0%nat childNodes
  | _ => 0%nat
  end.

(** The loop over the marks that there were at the start. A mark inside another one is
    gone with it, or its turn comes later. *)
Fixpoint unmark_loop (k : nat) (n : node) : dom_result node :=
  match k with
  | O => Done n
  | S k => match unmark_first n with
           | NoMark => Done n
           | Unmarked n' => unmark_loop k n'
           | Empty => Throws
           end
  end.
Definition removeHighlight (n : node) : dom_result node := unmark_loop (marks n) n.

Example highlight_ex :
  let up := map (fun c => if (97 <=? c) && (c <=? 122) then c - 32 else c) in
  let page := Element (u "DIV") [] [TextNode (u "ab xAbab"); Element (u "STYLE") [] [TextNode (u "ab")]] in
  let marked := Element (u "DIV") [] [TextNode []; spannode (u "ab"); TextNode (u " x"); spannode (u "Ab");
    TextNode []; spannode (u "ab"); TextNode []; Element (u "STYLE") [] [TextNode (u "ab")]] in
  highlight up 20 (u "ab") page = Done [marked] /\ removeHighlight marked = Done page.
Proof. vm_compute. split; reflexivity. Qed.
