(* ===== verification/HighlightProps.v ===== *)
(** * Properties of the highlighter: it ends and marks every occurrence, it keeps the
    text of the page, and removing the marks restores the page *)

From Stdlib Require Import ZArith Lia.
From stdpp Require Import base tactics list numbers strings.
From S2P Require Import Prelude Highlight.
Set Warnings "-register-all".
Local Open Scope Z_scope.

(** ** Induction over nodes *)

Section NodeInd.
Context (P : node -> Prop) (HT : forall d, P (TextNode d)) (HO : P OtherNode)
  (HE : forall t c l, Forall P l -> P (Element t c l)).
Fixpoint node_ind' (n : node) : P n :=
  match n with
  | TextNode d => HT d
  | OtherNode => HO
  | Element t c l =>
      HE t c l ((fix go l : Forall P l :=
        match l with [] => Forall_nil_2 _ | x :: l' => Forall_cons_2 _ _ _ (node_ind' x) (go l') end) l)
  end.
End NodeInd.

(** ** The first occurrence *)

(** Found at [k], and nowhere before; or nowhere. *)
Definition occurs_at (p s : jstr) (k : nat) : Prop := (k <= length s)%nat /\ exists r, drop k s = p ++ r.

Lemma index_from_spec p s : forall i, 0 <= i ->
  (exists k, index_from s p i = i + Z.of_nat k /\ occurs_at p s k /\ forall j, (j < k)%nat -> ~ occurs_at p s j)
  \/ (index_from s p i = -1 /\ forall j, ~ occurs_at p s j).
Proof.
  induction s as [|c s IH]; intros i Hi; cbn [index_from];
    (destruct (prefix_b p _) eqn:E;
     [left; exists 0%nat; apply prefix_b_spec in E as [r E]; split; [lia|];
      split; [split; [cbn; lia|by exists r]|lia]|]).
  - right. split; [done|]. intros j [_ [r Hr]]. rewrite drop_nil in Hr.
    assert (prefix_b p [] = true) by (apply prefix_b_spec; by exists r). congruence.
  - assert (H0 : ~ occurs_at p (c :: s) 0).
    { intros [_ [r Hr]]. assert (prefix_b p (c :: s) = true) by (apply prefix_b_spec; by exists r). congruence. }
    destruct (IH (i + 1) ltac:(lia)) as [(k & -> & [Hk1 Hk2] & Hj)|[-> Hj]].
    + left. exists (S k). split; [lia|]. split; [split; [cbn; lia|done]|].
      intros [|j] Hlt Ho; [done|]. apply (Hj j); [lia|]. destruct Ho as [H1 H2]. split; [cbn in H1; lia|done].
    + right. split; [done|]. intros [|j] Ho; [done|]. apply (Hj j). destruct Ho as [H1 H2]. split; [cbn in H1; lia|done].
Qed.

Lemma index_of_cases s p :
  (exists k, index_of s p = Z.of_nat k /\ occurs_at p s k /\ forall j, (j < k)%nat -> ~ occurs_at p s j)
  \/ (index_of s p = -1 /\ forall j, ~ occurs_at p s j).
Proof. apply (index_from_spec p s 0). lia. Qed.

Lemma occurs_length p s k : occurs_at p s k -> (k + length p <= length s)%nat.
Proof.
  intros [Hk [r Hr]]. apply (f_equal length) in Hr. rewrite length_drop, length_app in Hr. lia.
Qed.

(** ** What is marked *)

(** An upper case that maps the units one by one. *)
Class Unitwise (up : jstr -> jstr) := unitwise : exists f, forall s, up s = map f s.

Lemma unitwise_length up {H : Unitwise up} s : length (up s) = length s.
Proof. destruct H as [f Hf]. by rewrite Hf, length_map. Qed.

Lemma unitwise_nonempty up {H : Unitwise up} s : s <> [] -> up s <> [].
Proof. intros Hs E. apply (f_equal length) in E. rewrite (unitwise_length up) in E. by destruct s. Qed.

Section Marks.
Context (up : jstr -> jstr) {Hup : Unitwise up} (pat : jstr) (Hpat : pat <> []).

(** The pieces of a text: what is before the first occurrence, the occurrence, and
    the pieces of the rest. *)
Fixpoint mark_text (fuel : nat) (d : jstr) : list node :=
  match fuel with
  | O => [TextNode d]
  | S fuel =>
      let pos := index_of (up d) pat in
      if 0 <=? pos then
        let k := Z.to_nat pos in
        TextNode (take k d) :: spannode (take (length pat) (drop k d))
          :: mark_text fuel (drop (length pat) (drop k d))
      else [TextNode d]
  end.

(** The page with every occurrence marked. *)
Fixpoint marked (n : node) : node :=
  match n with
  | Element t c l =>
      if not_searched t then n
      else Element t c (flat_map (fun x => match x with
                                            | TextNode d => mark_text (length d) d
                                            | _ => [marked x]
                                            end) l)
  | _ => n
  end.
Definition marked_child (x : node) : list node :=
  match x with TextNode d => mark_text (length d) d | _ => [marked x] end.

Lemma marked_element t c l : not_searched t = false -> marked (Element t c l) = Element t c (flat_map marked_child l).
Proof. intros H. cbn [marked]. by rewrite H. Qed.

Lemma mark_step d : index_of (up d) pat = -1 \/
  exists k, index_of (up d) pat = Z.of_nat k /\ (k + length pat <= length d)%nat.
Proof.
  destruct (index_of_cases (up d) pat) as [(k & E & Ho & _)|[E _]]; [right|by left].
  exists k. split; [done|]. apply occurs_length in Ho. by rewrite unitwise_length in Ho.
Qed.

Lemma pat_pos : (0 < length pat)%nat.
Proof. destruct pat; [done|cbn; lia]. Qed.

Lemma mark_text_fuel f1 : forall f2 d, (length d <= f1)%nat -> (length d <= f2)%nat ->
  mark_text f1 d = mark_text f2 d.
Proof.
  pose proof pat_pos as Hp.
  assert (Hnil : mark_text 1 [] = [TextNode []]).
  { cbn [mark_text]. destruct (mark_step []) as [->|(k & -> & Hk)]; [done|cbn in Hk; lia]. }
  assert (Hany : forall f, mark_text f [] = [TextNode []]).
  { intros [|f]; [done|]. cbn [mark_text] in *. destruct (mark_step []) as [->|(k & -> & Hk)]; [done|cbn in Hk; lia]. }
  induction f1 as [|f1 IH]; intros [|f2] d H1 H2.
  - done.
  - destruct d; [by rewrite !Hany|cbn in H1; lia].
  - destruct d; [by rewrite !Hany|cbn in H2; lia].
  - cbn [mark_text]. destruct (mark_step d) as [->|(k & -> & Hk)]; [done|].
    rewrite (proj2 (Z.leb_le 0 (Z.of_nat k))) by lia. rewrite Nat2Z.id.
    do 2 f_equal. apply IH; rewrite !length_drop; lia.
Qed.

(** Fuel enough for a node, and for the loop over a list of nodes. *)
Fixpoint cost (n : node) : nat :=
  match n with
  | TextNode d => S (length d)
  | Element _ _ l => S (S (fold_right (fun x k => cost x + k)%nat 0%nat l))
  | OtherNode => 1%nat
  end.
Definition costs (l : list node) : nat := S (fold_right (fun x k => cost x + k)%nat 0%nat l).

Lemma cost_pos n : (0 < cost n)%nat.
Proof. destruct n; cbn; lia. Qed.

(** One turn of the loop on a text node. *)
Lemma text_turn d : match index_of (up d) pat with
  | -1 => highlight_text up pat d = Done ([TextNode d], 0%nat) /\ marked_child (TextNode d) = [TextNode d]
  | _ => exists b m e, highlight_text up pat d = Done ([TextNode b; spannode m; TextNode e], 1%nat) /\
           (length e < length d)%nat /\
           marked_child (TextNode d) = TextNode b :: spannode m :: marked_child (TextNode e)
  end.
Proof.
  pose proof pat_pos as Hp. destruct (mark_step d) as [E|(k & E & Hk)]; rewrite E.
  - unfold highlight_text. rewrite E. split; [done|]. cbn [marked_child].
    destruct (length d) as [|f] eqn:El; [done|]. cbn [mark_text]. by rewrite E.
  - assert (Hgoal : exists b m e, highlight_text up pat d = Done ([TextNode b; spannode m; TextNode e], 1%nat) /\
           (length e < length d)%nat /\
           marked_child (TextNode d) = TextNode b :: spannode m :: marked_child (TextNode e)).
    { exists (take k d), (take (length pat) (drop k d)), (drop (length pat) (drop k d)).
      split; [|split].
      - unfold highlight_text, splitText. rewrite E, (proj2 (Z.leb_le 0 (Z.of_nat k))), Nat2Z.id by lia.
        rewrite (proj2 (Nat.leb_le k (length d))) by lia. rewrite length_drop.
        by rewrite (proj2 (Nat.leb_le _ _)) by lia.
      - rewrite !length_drop. lia.
      - cbn [marked_child]. destruct (length d) as [|f] eqn:El; [lia|]. cbn [mark_text].
        rewrite E, (proj2 (Z.leb_le 0 (Z.of_nat k))), Nat2Z.id by lia. do 2 f_equal.
        apply mark_text_fuel; [|done]. rewrite !length_drop. lia. }
    destruct k; exact Hgoal.
Qed.

Lemma cost_element t c l : cost (Element t c l) = S (costs l).
Proof. done. Qed.
Lemma costs_cons x l : costs (x :: l) = (cost x + costs l)%nat.
Proof. unfold costs. cbn. lia. Qed.

(** The turns of the loop from the [length done]-th child on. *)
Lemma loop_marks fuel :
  (forall t c l, (cost (Element t c l) <= fuel)%nat ->
     innerHighlight up fuel pat (Element t c l) = Done ([marked (Element t c l)], 0%nat)) /\
  (forall done rest, (costs rest <= fuel)%nat ->
     child_loop up fuel pat (length done) (done ++ rest) = Done (done ++ flat_map marked_child rest)).
Proof.
  induction fuel as [|fuel [IH1 IH2]]; (split; [intros t c l Hc|intros done rest Hc]); try (unfold costs in Hc; cbn in Hc; lia).
  - rewrite cost_element in Hc. cbn [innerHighlight].
    destruct (not_searched t) eqn:Et; [cbn; by rewrite Et|].
    pose proof (IH2 [] l ltac:(lia)) as E. cbn [length app] in E. rewrite E. cbn [dom_bind].
    by rewrite marked_element.
  - cbn [child_loop]. destruct rest as [|x rest].
    { rewrite !app_nil_r. by rewrite lookup_ge_None_2. }
    rewrite list_lookup_middle by done. rewrite costs_cons in Hc. pose proof (cost_pos x) as Hx.
    assert (Hnext : forall out ns fin skip, out = fin ++ ns -> length (done ++ fin) = (length done + skip + 1)%nat ->
              (costs (ns ++ rest) <= fuel)%nat ->
              child_loop up fuel pat (length done + skip + 1)
                (take (length done) (done ++ x :: rest) ++ out ++ drop (S (length done)) (done ++ x :: rest))
              = Done (done ++ fin ++ flat_map marked_child (ns ++ rest))).
    { intros out ns fin skip -> Hl Hcost. rewrite take_app_length.
      assert (Hd : drop (S (length done)) (done ++ x :: rest) = rest)
        by (change (x :: rest) with ([x] ++ rest); rewrite app_assoc; apply drop_app_length';
            rewrite length_app; cbn; lia).
      rewrite Hd, <- Hl, <- app_assoc, (app_assoc done fin), IH2 by done. by rewrite <- app_assoc. }
    destruct x as [d|t c l|].
    + pose proof (text_turn d) as Ht. destruct fuel as [|f]; [cbn in Hc; unfold costs in Hc; lia|].
      cbn [innerHighlight]. cbn [cost] in Hc.
      assert (Hturn : (highlight_text up pat d = Done ([TextNode d], 0%nat) /\ marked_child (TextNode d) = [TextNode d])
        \/ exists b m e, highlight_text up pat d = Done ([TextNode b; spannode m; TextNode e], 1%nat) /\
           (length e < length d)%nat /\
           marked_child (TextNode d) = TextNode b :: spannode m :: marked_child (TextNode e)).
      { destruct (index_of (up d) pat) as [|?|[?|?|]]; auto. }
      destruct Hturn as [[-> Hm]|(b & m & e & -> & Hlt & Hm)]; cbn [dom_bind flat_map]; rewrite Hm.
      * rewrite (Hnext _ [] [TextNode d] 0%nat); [done|done|rewrite length_app; cbn; lia|cbn [app]; lia].
      * rewrite (Hnext _ [TextNode e] [TextNode b; spannode m] 1%nat);
          [done|done|rewrite length_app; cbn; lia|cbn [app]; rewrite costs_cons; cbn [cost]; lia].
    + rewrite IH1 by (unfold costs in Hc; lia). cbn [dom_bind flat_map].
      rewrite (Hnext _ [] [marked (Element t c l)] 0%nat); [done|done|rewrite length_app; cbn; lia|cbn [app]; lia].
    + destruct fuel as [|f]; [cbn in Hc; unfold costs in Hc; lia|]. cbn [innerHighlight dom_bind flat_map].
      rewrite (Hnext _ [] [OtherNode] 0%nat); [done|done|rewrite length_app; cbn; lia|cbn [app cost] in *; lia].
Qed.
End Marks.

(** ** Text nodes side by side *)

Lemma add_text_merge a b l : add_text (TextNode (a ++ b)) l = add_text (TextNode a) (add_text (TextNode b) l).
Proof.
  destruct a as [|x a]; [done|]. destruct b as [|y b]; [by rewrite app_nil_r|].
  destruct l as [|[d|? ? ?|] l]; try done. cbn. by rewrite <- app_assoc.
Qed.

(** No empty text node, and no two side by side. *)
Fixpoint joined (l : list node) : bool :=
  match l with
  | [] => true
  | TextNode [] :: _ => false
  | TextNode _ :: (TextNode _ :: _) => false
  | _ :: l' => joined l'
  end.

Lemma joined_fold l : joined l = true -> fold_right add_text [] l = l.
Proof.
  induction l as [|x l IH]; [done|]. intros H. cbn [fold_right].
  destruct x as [[|c d]|t c k|]; [done| | |]; try (cbn in H; by rewrite IH).
  destruct l as [|[e|t k l'|] l]; [done|done| |]; rewrite IH by done; done.
Qed.

Lemma joined_add x l : joined l = true -> joined (add_text x l) = true.
Proof.
  intros H. destruct x as [[|c d]|t c k|]; try done. destruct l as [|[e|t k l'|] l]; try done.
  cbn [add_text app joined] in *. destruct e as [|y e]; [done|]. by destruct l as [|[]].
Qed.

Lemma joined_tail x l : joined (x :: l) = true -> joined l = true.
Proof. destruct x as [[|c d]|t c k|]; try done. by destruct l as [|[] l]. Qed.

Lemma joined_cons x l : (forall d, x <> TextNode d) -> joined (x :: l) = joined l.
Proof. intros H. destruct x; try done. by destruct (H data). Qed.

(** An element in the place of another one. *)
Lemma joined_replace before t c k k' rest :
  joined (before ++ Element t c k :: rest) = joined (before ++ Element t c k' :: rest).
Proof.
  induction before as [|x before IH]; [done|]. cbn [app joined].
  destruct x as [[|d0 d]|? ? ?|]; try done. destruct before as [|[] before]; done.
Qed.

(** ** Pages with marks *)

(** A page without its marks. *)
Fixpoint erase (n : node) : node :=
  match n with
  | Element t c l =>
      Element t c (fold_right (fun x r => add_text (match x with
                                                    | Element _ _ (m :: _) => if is_mark x then m else erase x
                                                    | _ => erase x
                                                    end) r) [] l)
  | _ => n
  end.
Definition shown (x : node) : node :=
  match x with Element _ _ (m :: _) => if is_mark x then m else erase x | _ => erase x end.
Definition erase_children (l : list node) : list node := fold_right (fun x r => add_text (shown x) r) [] l.

Lemma erase_element t c l : erase (Element t c l) = Element t c (erase_children l).
Proof. done. Qed.

Lemma shown_unmarked x : is_mark x = false -> shown x = erase x.
Proof. intros H. destruct x as [|t c [|m l]|]; try done. cbn [shown]. by rewrite H. Qed.

Lemma erase_add_text x l : erase_children (add_text x l) = add_text (shown x) (erase_children l).
Proof.
  destruct x as [[|c d]|t c k|]; try done. destruct l as [|[e|t k l'|] l]; try done.
  change (erase_children (add_text (TextNode (c :: d)) (TextNode e :: l)))
    with (add_text (TextNode ((c :: d) ++ e)) (erase_children l)). by rewrite add_text_merge.
Qed.

Definition mark_count (x : node) : nat := ((if is_mark x then 1 else 0) + marks x)%nat.
Definition marks_in (l : list node) : nat := fold_right (fun x k => (mark_count x + k)%nat) 0%nat l.

Lemma marks_element t c l : marks (Element t c l) = marks_in l.
Proof. done. Qed.
Lemma marks_in_app l1 l2 : marks_in (l1 ++ l2) = (marks_in l1 + marks_in l2)%nat.
Proof. unfold marks_in. induction l1 as [|x l1 IH]; [done|]. cbn. rewrite IH. lia. Qed.
Lemma marks_in_cons x l : marks_in (x :: l) = (mark_count x + marks_in l)%nat.
Proof. done. Qed.
Lemma marks_add_text x l : marks_in (add_text x l) = (mark_count x + marks_in l)%nat.
Proof. destruct x as [[|c d]|t c k|]; try done. by destruct l as [|[] l]. Qed.

(** Marks hold one text that is not empty. *)
Definition mark_shape (x : node) : Prop := is_mark x = true -> exists t c d, x = Element t c [TextNode d] /\ d <> [].
Inductive wf : node -> Prop :=
  | WfText d : wf (TextNode d)
  | WfOther : wf OtherNode
  | WfElement t c l : Forall (fun x => wf x /\ mark_shape x) l -> wf (Element t c l).

(** Where no child is a mark, text nodes are joined. *)
Inductive tidy : node -> Prop :=
  | TidyText d : tidy (TextNode d)
  | TidyOther : tidy OtherNode
  | TidyElement t c l : existsb is_mark l = true \/ joined l = true -> Forall tidy l -> tidy (Element t c l).

Lemma is_mark_normalize x : is_mark (normalize x) = is_mark x.
Proof. by destruct x. Qed.

Lemma mark_normalize x : mark_shape x -> is_mark x = true -> normalize x = x.
Proof. intros H Hm. destruct (H Hm) as (t & c & d & -> & Hd). by destruct d. Qed.

Lemma Forall_add_text (Q : node -> Prop) x l : (forall d, Q (TextNode d)) -> Q x -> Forall Q l -> Forall Q (add_text x l).
Proof.
  intros HT Hx Hl. destruct x as [[|c d]|t c k|]; try (by constructor); [done|].
  destruct l as [|[e|t k l'|] l]; cbn [add_text]; inversion Hl; subst; auto.
Qed.

(** ** Normalising *)

Lemma normalize_tidy n : tidy (normalize n).
Proof.
  induction n as [d| |t c l IH] using node_ind'; [constructor|constructor|]. cbn [normalize].
  assert (H : joined (normalize_all l) = true /\ Forall tidy (normalize_all l)).
  { unfold normalize_all. induction IH as [|x l Hx Hl [IH1 IH2]]; [by split|]. cbn [fold_right].
    split; [by apply joined_add|]. apply Forall_add_text; [constructor|done|done]. }
  constructor; [right; apply H|apply H].
Qed.

Lemma normalize_facts n : wf n ->
  wf (normalize n) /\ marks (normalize n) = marks n /\ erase (normalize n) = erase n.
Proof.
  induction n as [d| |t c l IH] using node_ind'; intros Hw; [done|done|]. inversion Hw as [| |? ? ? Hl]; subst.
  cbn [normalize]. fold (normalize_all l). rewrite !marks_element, !erase_element.
  enough (Forall (fun x => wf x /\ mark_shape x) (normalize_all l) /\ marks_in (normalize_all l) = marks_in l
          /\ erase_children (normalize_all l) = erase_children l) as (H1 & H2 & H3)
    by (split; [by constructor|split; [done|by rewrite H3]]).
  clear Hw. unfold normalize_all. induction IH as [|x l Hx _ IHl]; [done|].
  inversion Hl as [|? ? [Hwx Hsx] Hl']; subst. destruct (IHl Hl') as (H1 & H2 & H3). destruct (Hx Hwx) as (X1 & X2 & X3).
  assert (Hsn : mark_shape (normalize x) /\ shown (normalize x) = shown x).
  { destruct (is_mark x) eqn:Em; [by rewrite mark_normalize|].
    assert (Em' : is_mark (normalize x) = false) by by rewrite is_mark_normalize.
    split; [unfold mark_shape; by rewrite Em'|]. by rewrite !shown_unmarked. }
  cbn [fold_right]. split; [|split].
  - apply Forall_add_text; [|by split; [|apply Hsn]|done]. intros d. split; [constructor|done].
  - rewrite marks_add_text. unfold mark_count. rewrite is_mark_normalize, X2. cbn. by rewrite H2.
  - rewrite erase_add_text, H3. cbn. by rewrite (proj2 Hsn).
Qed.

Lemma normalize_all_facts l : Forall (fun x => wf x /\ mark_shape x) l ->
  Forall (fun x => wf x /\ mark_shape x) (normalize_all l) /\ marks_in (normalize_all l) = marks_in l
  /\ erase_children (normalize_all l) = erase_children l /\ joined (normalize_all l) = true
  /\ Forall tidy (normalize_all l).
Proof.
  intros Hl. destruct (normalize_facts (Element [] [] l) ltac:(by constructor)) as (H1 & H2 & H3).
  cbn [normalize] in *. fold (normalize_all l) in *. rewrite !marks_element in H2. rewrite !erase_element in H3.
  inversion H1; subst. injection H3 as H3. repeat split; try done.
  - clear. unfold normalize_all. induction l as [|x l IH]; [done|]. by apply joined_add.
  - clear. unfold normalize_all. induction l as [|x l IH]; [constructor|].
    apply Forall_add_text; [constructor|apply normalize_tidy|done].
Qed.

(** ** Removing marks *)

(** What one step keeps: everything but one mark. *)
Record one_less (l l' : list node) : Prop := {
  ol_marks : marks_in l = S (marks_in l');
  ol_wf : Forall (fun x => wf x /\ mark_shape x) l';
  ol_erase : erase_children l' = erase_children l;
  ol_tidy : Forall tidy l -> Forall tidy l';
  ol_joined : existsb is_mark l = true \/ joined l = true -> existsb is_mark l' = true \/ joined l' = true
}.

Lemma erase_children_app l1 l2 : erase_children (l1 ++ l2) = fold_right (fun x r => add_text (shown x) r) (erase_children l2) l1.
Proof. unfold erase_children. by rewrite foldr_app. Qed.

(** A mark is replaced by its text. *)
Lemma one_less_mark before c rest d t k : c = Element t k [TextNode d] -> is_mark c = true ->
  Forall (fun x => wf x /\ mark_shape x) (before ++ c :: rest) ->
  one_less (before ++ c :: rest) (normalize_all (before ++ TextNode d :: rest)).
Proof.
  intros -> Hm Hw. assert (Hw' : Forall (fun x => wf x /\ mark_shape x) (before ++ TextNode d :: rest)).
  { apply Forall_app in Hw as [H1 H2]. inversion H2; subst. apply Forall_app. split; [done|].
    constructor; [by split; [constructor|]|done]. }
  destruct (normalize_all_facts _ Hw') as (H1 & H2 & H3 & H4 & H5). constructor; try done.
  - rewrite H2, !marks_in_app. rewrite !marks_in_cons. unfold mark_count. rewrite Hm. cbn. lia.
  - rewrite H3, !erase_children_app. f_equal. cbn [erase_children fold_right shown]. by rewrite Hm.
  - by right.
Qed.

(** A mark further down. *)
Lemma one_less_below before t c l l' rest : is_mark (Element t c l) = false -> one_less l l' ->
  Forall (fun x => wf x /\ mark_shape x) (before ++ Element t c l :: rest) ->
  one_less (before ++ Element t c l :: rest) (before ++ Element t c l' :: rest).
Proof.
  intros Hm [O1 O2 O3 O4 O5] Hw. assert (Hm' : is_mark (Element t c l') = false) by done. constructor.
  - rewrite !marks_in_app, !marks_in_cons. unfold mark_count. rewrite !marks_element, O1, Hm, Hm'. lia.
  - apply Forall_app in Hw as [H1 H2]. inversion H2; subst. apply Forall_app. split; [done|].
    constructor; [|done]. split; [by constructor|]. unfold mark_shape. by rewrite Hm'.
  - rewrite !erase_children_app. f_equal. cbn [erase_children fold_right]. f_equal.
    by rewrite !shown_unmarked, !erase_element, O3.
  - intros Ht. apply Forall_app in Ht as [H1 H2]. inversion H2 as [|? ? H3 H4]; subst. inversion H3; subst.
    apply Forall_app. split; [done|]. constructor; [|done]. constructor; auto.
  - rewrite !existsb_app. cbn [existsb]. rewrite Hm, Hm'. by rewrite (joined_replace before t c l l' rest).
Qed.

Lemma unmark_first_spec n : wf n ->
  match n with
  | Element t c l =>
      (marks_in l = 0%nat /\ unmark_first n = NoMark) \/
      exists l', unmark_first n = Unmarked (Element t c l') /\ one_less l l'
  | _ => unmark_first n = NoMark
  end.
Proof.
  induction n as [d| |t c l IH] using node_ind'; intros Hw; [done|done|]. inversion Hw as [| |? ? ? Hl]; subst.
  cbn [unmark_first]. match goal with |- context [?f [] l = NoMark] => set (go := f) end.
  enough (Hgo : forall before rest, Forall (fun x => wf x /\ mark_shape x) (before ++ rest) ->
            Forall (fun n => wf n -> match n with Element t c l => (marks_in l = 0%nat /\ unmark_first n = NoMark) \/
               exists l', unmark_first n = Unmarked (Element t c l') /\ one_less l l' | _ => unmark_first n = NoMark end) rest ->
            (marks_in rest = 0%nat /\ go before rest = NoMark) \/
            exists l', go before rest = Unmarked (Element t c l') /\ one_less (before ++ rest) l')
    by exact (Hgo [] l Hl IH).
  clear. intros before rest. revert before. induction rest as [|x rest IHr]; intros before Hw IH; [by left|].
  inversion IH as [|? ? Hx Hrest]; subst.
  assert (Hwx : wf x /\ mark_shape x) by (apply Forall_app in Hw as [_ Hw]; by inversion Hw).
  destruct Hwx as [Hwx Hsx]. specialize (Hx Hwx). unfold go at 1 2. fold go.
  change (marks_in (x :: rest)) with (mark_count x + marks_in rest)%nat. unfold mark_count.
  destruct (is_mark x) eqn:Em.
  - destruct (Hsx Em) as (t' & c' & d & -> & Hd). right. eexists. split; [done|]. by eapply one_less_mark.
  - assert (Hnext : marks x = 0%nat -> (marks_in rest = 0%nat /\ go (before ++ [x]) rest = NoMark) \/
              exists l', go (before ++ [x]) rest = Unmarked (Element t c l') /\ one_less (before ++ x :: rest) l').
    { intros _. replace (before ++ x :: rest) with ((before ++ [x]) ++ rest) in * by (by rewrite <- app_assoc).
      by apply IHr. }
    destruct x as [d|t' c' l0|]; try (rewrite Hx; by apply Hnext).
    rewrite marks_element in *. destruct Hx as [[H0 ->]|(l' & -> & Ho)].
    + rewrite H0. by apply Hnext.
    + right. eexists. split; [done|]. by apply one_less_below.
Qed.

Lemma unmarked_wf n : marks n = 0%nat -> wf n.
Proof.
  induction n as [d| |t c l IH] using node_ind'; intros H; [constructor..|]. constructor.
  rewrite marks_element in H. induction IH as [|x l Hx Hl IHl]; [constructor|]. cbn in H. unfold mark_count in H.
  constructor; [|apply IHl; unfold marks_in, mark_count; lia]. split; [apply Hx; lia|].
  unfold mark_shape. destruct (is_mark x); [lia|done].
Qed.

Lemma tidy_erase n : tidy n -> marks n = 0%nat -> erase n = n.
Proof.
  induction n as [d| |t c l IH] using node_ind'; intros Ht Hm; [done|done|].
  inversion Ht as [| |? ? ? Hj Hl]; subst. rewrite erase_element. f_equal. rewrite marks_element in Hm.
  assert (H : Forall (fun x => shown x = x) l /\ existsb is_mark l = false).
  { clear Hj Ht. induction IH as [|x l Hx _ IHl]; [by split|]. inversion Hl; subst.
    cbn in Hm. unfold mark_count in Hm. destruct (is_mark x) eqn:Em; [lia|].
    destruct IHl as [J1 J2]; [unfold marks_in, mark_count; lia|done|]. cbn [existsb]. rewrite Em.
    split; [|done]. constructor; [|done]. rewrite shown_unmarked by done. apply Hx; [done|lia]. }
  destruct H as [H1 H2]. destruct Hj as [Hj|Hj]; [congruence|]. rewrite <- (joined_fold l Hj) at 2.
  clear -H1. induction H1 as [|x l Hx Hl IHl]; [done|]. cbn. by rewrite Hx, <- IHl.
Qed.

(** Removing the marks of a page gives the page without marks. *)
Lemma remove_erases t c l : wf (Element t c l) -> tidy (Element t c l) ->
  removeHighlight (Element t c l) = Done (erase (Element t c l)).
Proof.
  unfold removeHighlight. rewrite marks_element. remember (marks_in l) as k eqn:Ek. revert l Ek.
  induction k as [|k IH]; intros l Ek Hw Ht; cbn [unmark_loop].
  - by rewrite tidy_erase by (rewrite ?marks_element; done).
  - destruct (unmark_first_spec _ Hw) as [[H0 _]|(l' & -> & [O1 O2 O3 O4 O5])]; [congruence|].
    inversion Ht; subst. rewrite IH; [by rewrite !erase_element, O3|lia|by constructor|].
    constructor; auto.
Qed.

(** ** The marked page *)

Section Marked.
Context (up : jstr -> jstr) {Hup : Unitwise up} (pat : jstr) (Hpat : pat <> []).

(** The pieces of a text: all text again without marks, marks of one text, and a mark
    unless the text is as it was. *)
Lemma mark_text_facts fuel : forall d,
  Forall (fun x => wf x /\ mark_shape x) (mark_text up pat fuel d) /\
  Forall tidy (mark_text up pat fuel d) /\
  (existsb is_mark (mark_text up pat fuel d) = true \/ mark_text up pat fuel d = [TextNode d]) /\
  forall l, erase_children (mark_text up pat fuel d ++ l) = add_text (TextNode d) (erase_children l).
Proof.
  pose proof (pat_pos pat Hpat) as Hp.
  assert (Hone : forall d, Forall (fun x => wf x /\ mark_shape x) [TextNode d] /\ Forall tidy [TextNode d])
    by (intros d; split; repeat constructor; done).
  induction fuel as [|fuel IH]; intros d; cbn [mark_text]; [destruct (Hone d); by auto|].
  destruct (mark_step up pat d) as [->|(k & -> & Hk)]; [destruct (Hone d); by auto|].
  rewrite (proj2 (Z.leb_le 0 (Z.of_nat k))), Nat2Z.id by lia.
  set (m := take (length pat) (drop k d)). set (e := drop (length pat) (drop k d)).
  assert (Hm : m <> []).
  { intros E. apply (f_equal length) in E. unfold m in E. rewrite length_take, length_drop in E. cbn in E. lia. }
  assert (Hd : d = take k d ++ m ++ e) by (unfold m, e; by rewrite !take_drop).
  destruct (IH e) as (H1 & H2 & _ & H4). repeat split.
  - constructor; [by split; [constructor|]|]. constructor; [|done]. split.
    + constructor. repeat constructor; done.
    + intros _. by exists (u "SPAN"), highlight_class, m.
  - constructor; [constructor|]. constructor; [|done]. constructor; [right|by repeat constructor].
    by destruct m.
  - by left.
  - intros l. rewrite <- !app_comm_cons. cbn [erase_children fold_right]. fold (erase_children (mark_text up pat fuel e ++ l)).
    rewrite H4. change (shown (TextNode (take k d))) with (TextNode (take k d)).
    change (shown (spannode m)) with (TextNode m). rewrite <- !add_text_merge, <- !app_assoc. by rewrite <- Hd.
Qed.

Lemma is_mark_marked x : is_mark (marked up pat x) = is_mark x.
Proof. destruct x as [|t c l|]; try done. cbn [marked]. by destruct (not_searched t). Qed.

Lemma marked_facts n : tidy n -> marks n = 0%nat ->
  wf (marked up pat n) /\ tidy (marked up pat n) /\ erase (marked up pat n) = n.
Proof.
  induction n as [d| |t c l IH] using node_ind'; intros Ht Hm; [by repeat split; constructor..|].
  destruct (not_searched t) eqn:Es.
  { cbn [marked]. rewrite Es. split; [by apply unmarked_wf|]. split; [done|]. by apply tidy_erase. }
  rewrite marked_element by done. rewrite erase_element. inversion Ht as [| |? ? ? Hj Hl]; subst.
  rewrite marks_element in Hm.
  assert (H : Forall (fun x => wf x /\ mark_shape x) (flat_map (marked_child up pat) l) /\
    Forall tidy (flat_map (marked_child up pat) l) /\
    erase_children (flat_map (marked_child up pat) l) = fold_right add_text [] l /\ existsb is_mark l = false /\
    (joined l = true -> existsb is_mark (flat_map (marked_child up pat) l) = true \/
       joined (flat_map (marked_child up pat) l) = true /\
       forall d l', flat_map (marked_child up pat) l = TextNode d :: l' -> exists d' l'', l = TextNode d' :: l'')).
  { clear Hj Ht. induction IH as [|x l Hx _ IHl].
    { repeat (split; [by constructor|]). intros _. right. by split; [|intros d l' [=]]. }
    inversion Hl as [|? ? Htx Htl]; subst.
    rewrite marks_in_cons in Hm. unfold mark_count in Hm. destruct (is_mark x) eqn:Em; [lia|].
    destruct (IHl ltac:(lia) Htl) as (I1 & I2 & I3 & I4 & I5). cbn [flat_map existsb fold_right]. rewrite Em.
    assert (Hother : (forall d, x <> TextNode d) -> marked_child up pat x = [marked up pat x]) 
      by (intros Hn; destruct x; [by destruct (Hn data)|done|done]).
    assert (Hx' : (exists d, x = TextNode d) \/ forall d, x <> TextNode d) by (destruct x; eauto).
    destruct Hx' as [[d ->]|Hn].
    - destruct (mark_text_facts (length d) d) as (M1 & M2 & M3 & M4). cbn [marked_child].
      split; [by apply Forall_app|]. split; [by apply Forall_app|]. split; [by rewrite M4, I3|]. split; [done|].
      intros Hj. rewrite existsb_app. destruct M3 as [->| ->]; [by left|].
      destruct (I5 (joined_tail _ _ Hj)) as [->|[J1 J2]]; [left; apply orb_true_r|right].
      split; [|by eauto]. destruct d as [|a d]; [done|]. cbn [app].
      destruct (flat_map (marked_child up pat) l) as [|[e|? ? ?|] l'] eqn:Ef; try done.
      destruct (J2 e l' eq_refl) as (d' & l'' & ->). done.
    - rewrite (Hother Hn). cbn [app]. destruct (Hx Htx ltac:(lia)) as (X1 & X2 & X3).
      assert (Hms : is_mark (marked up pat x) = false) by by rewrite is_mark_marked.
      split; [constructor; [split; [done|unfold mark_shape; by rewrite Hms]|done]|]. split; [by constructor|].
      split; [|split; [done|]].
      + cbn [erase_children fold_right]. fold (erase_children (flat_map (marked_child up pat) l)).
        by rewrite I3, shown_unmarked, X3.
      + assert (Hnm : forall d, marked up pat x <> TextNode d).
        { intros d. destruct x as [|t0 c0 l0|]; [by destruct (Hn data)| |done]. cbn. by destruct (not_searched t0). }
        rewrite !joined_cons by done. intros Hj. cbn [existsb]. rewrite Hms.
        destruct (I5 Hj) as [I|[J1 _]]; [by left|right]. split; [done|].
        intros d l' [= E _]. by destruct (Hnm d). }
  destruct H as (H1 & H2 & H3 & H4 & H5). assert (Hjl : joined l = true) by (destruct Hj; congruence).
  split; [by constructor|]. split.
  - constructor; [|done]. destruct (H5 Hjl) as [?|[? _]]; auto.
  - by rewrite H3, joined_fold.
Qed.
End Marked.

(** ** Properties *)

(** The text that a page shows. *)
Fixpoint page_text (n : node) : jstr :=
  match n with
  | TextNode d => d
  | Element _ _ l => flat_map page_text l
  | OtherNode => []
  end.

Lemma highlight_marks up {Hup : Unitwise up} pat t c l fuel : pat <> [] -> (cost (Element t c l) <= fuel)%nat ->
  highlight up fuel pat (Element t c l) = Done [marked up (up pat) (Element t c l)].
Proof.
  intros Hp Hf. pose proof (unitwise_nonempty up pat Hp) as Hp'.
  unfold highlight. by rewrite (proj1 (loop_marks up (up pat) Hp' fuel) t c l Hf).
Qed.

Lemma mark_text_text up pat fuel : forall d, flat_map page_text (mark_text up pat fuel d) = d.
Proof.
  induction fuel as [|fuel IH]; intros d; cbn [mark_text]; [apply app_nil_r|].
  destruct (0 <=? _); [|apply app_nil_r]. set (k := Z.to_nat _). cbn [flat_map page_text spannode].
  by rewrite IH, app_nil_r, !take_drop.
Qed.

(** ** Texts that [toUpperCase] maps unit by unit *)

Section Units.
Context (up : jstr -> jstr) (f : Z -> Z) (ok : Z -> Prop) (Hup : forall s, Forall ok s -> up s = map f s).

(** The texts of a page have only such units. *)
Inductive spelled : node -> Prop :=
  | SpelledText d : Forall ok d -> spelled (TextNode d)
  | SpelledOther : spelled OtherNode
  | SpelledElement t c l : Forall spelled l -> spelled (Element t c l).

Lemma split_spelled d n a b : Forall ok d -> splitText d n = Some (a, b) -> Forall ok a /\ Forall ok b.
Proof. unfold splitText. destruct (_ <=? _)%nat; [|done]. intros H [= <- <-]. by split; [apply Forall_take|apply Forall_drop]. Qed.
Lemma text_agrees pat d : Forall ok d -> highlight_text up pat d = highlight_text (map f) pat d /\
  match highlight_text (map f) pat d with Done (ns, _) => Forall spelled ns | _ => True end.
Proof.
  intros H. unfold highlight_text. rewrite (Hup d H). split; [done|]. destruct (0 <=? _); [|by repeat constructor].
  destruct (splitText d _) as [[a b]|] eqn:E1; [|done]. destruct (split_spelled _ _ _ _ H E1) as [Ha Hb].
  destruct (splitText b _) as [[m e]|] eqn:E2; [|done]. destruct (split_spelled _ _ _ _ Hb E2). by repeat constructor.
Qed.
Lemma loop_agrees pat fuel :
  (forall n, spelled n -> innerHighlight up fuel pat n = innerHighlight (map f) fuel pat n /\
     match innerHighlight (map f) fuel pat n with Done (ns, _) => Forall spelled ns | _ => True end) /\
  (forall i l, Forall spelled l -> child_loop up fuel pat i l = child_loop (map f) fuel pat i l /\
     match child_loop (map f) fuel pat i l with Done l' => Forall spelled l' | _ => True end).
Proof.
  induction fuel as [|fuel [IH1 IH2]]; (split; [intros n Hn|intros i l Hl]); [done..| |].
  - inversion Hn as [d Hd| |t c l Hl]; subst; cbn [innerHighlight]; [by apply text_agrees|by repeat constructor|].
    destruct (not_searched t); [by repeat constructor|]. destruct (IH2 0%nat l Hl) as [-> H].
    destruct (child_loop (map f) fuel pat 0 l); cbn [dom_bind]; [|done..]. by repeat constructor.
  - cbn [child_loop]. destruct (l !! i) as [n|] eqn:E; [|done]. destruct (IH1 n) as [-> H]; [by eapply Forall_lookup_1|].
    destruct (innerHighlight (map f) fuel pat n) as [[ns skip]| |]; cbn [dom_bind]; [|done..]. apply IH2.
    apply Forall_app. split; [by apply Forall_take|]. apply Forall_app. split; [done|by apply Forall_drop].
Qed.
Lemma highlight_agrees pat fuel n : Forall ok pat -> spelled n -> highlight up fuel pat n = highlight (map f) fuel pat n.
Proof. intros Hp Hn. unfold highlight. rewrite (Hup pat Hp). by rewrite (proj1 (proj1 (loop_agrees (map f pat) fuel) n Hn)). Qed.
End Units.

#[local] Instance map_unitwise f : Unitwise (map f).
Proof. by exists f. Qed.

(** C37. Where [toUpperCase] maps the units that occur in the texts of the element and in the
    term one by one - as it does those of ASCII, and as it does not map the sharp s - and
    the element has no marks and no empty or neighbouring text nodes: marking a term that
    is not empty ends with one element in which every occurrence of the term, compared
    unit by unit in upper case and taken from the left in each text node, is marked, with
    the same text, and removing the marks gives the element back. *)
Theorem highlight_restored (up : jstr -> jstr) (f : Z -> Z) (ok : Z -> Prop) pat t c l fuel :
  (forall s, Forall ok s -> up s = map f s) -> Forall ok pat -> spelled ok (Element t c l) ->
  pat <> [] -> (cost (Element t c l) <= fuel)%nat -> tidy (Element t c l) -> marks (Element t c l) = 0%nat ->
  exists page, highlight up fuel pat (Element t c l) = Done [page] /\
    page = marked (map f) (map f pat) (Element t c l) /\
    page_text page = page_text (Element t c l) /\
    removeHighlight page = Done (Element t c l).
Proof.
  intros Hup Hok Hsp Hp Hf Ht Hm. exists (marked (map f) (map f pat) (Element t c l)).
  split; [rewrite (highlight_agrees up f ok Hup) by done; by apply (highlight_marks (map f))|]. split; [done|]. split.
  - clear Hf Ht Hm Hsp. induction (Element t c l) as [d| |t' c' l' IH] using node_ind'; [done|done|]. cbn [marked].
    destruct (not_searched t'); [done|]. cbn [page_text].
    induction IH as [|x l' Hx _ IHl]; [done|]. cbn [flat_map]. rewrite flat_map_app. f_equal; [|done].
    destruct x; [apply mark_text_text|cbn [flat_map]; rewrite app_nil_r; apply Hx|done].
  - assert (Hp' : map f pat <> []) by (by destruct pat).
    destruct (marked_facts (map f) (map f pat) Hp' _ Ht Hm) as (W & T & E).
    assert (Hel : exists l', marked (map f) (map f pat) (Element t c l) = Element t c l')
      by (cbn [marked]; destruct (not_searched t); by eexists).
    destruct Hel as [l' Hel]. rewrite Hel in *. by rewrite remove_erases, E.
Qed.

(** The upper case of ASCII and of the sharp s. *)
Definition upper_unit (c : Z) : Z := if (97 <=? c) && (c <=? 122) then c - 32 else c.
Definition some_upper (s : jstr) : jstr := flat_map (fun c => if c =? 223 then u "SS" else [upper_unit c]) s.
Definition ascii_unit (c : Z) : Prop := 0 <= c < 128.
Lemma some_upper_ascii s : Forall ascii_unit s -> some_upper s = map upper_unit s.
Proof.
  induction 1 as [|c s Hc _ IH]; [done|]. unfold some_upper in *. cbn [flat_map map]. rewrite IH.
  destruct (Z.eqb_spec c 223) as [->|_]; [unfold ascii_unit in Hc; lia|done].
Qed.
Lemma highlight_restored_witness :
  let page := Element (u "DIV") [] [TextNode (u "ab xAb"); Element (u "P") [] [TextNode (u "cab")]] in
  (exists marked_page, highlight some_upper 100 (u "aB") page = Done [marked_page] /\ marks marked_page = 3%nat) /\
  exists p, highlight some_upper 100 (u "aB") page = Done [p] /\ p = marked (map upper_unit) (map upper_unit (u "aB")) page /\
    page_text p = page_text page /\ removeHighlight p = Done page.
Proof.
  split; [vm_compute; eauto|].
  apply (highlight_restored some_upper upper_unit ascii_unit); [apply some_upper_ascii| | |discriminate|vm_compute; lia| |reflexivity].
  - repeat constructor; vm_compute; done.
  - repeat constructor; vm_compute; done.
  - repeat constructor; by right.
Defined.
(** A term that the upper case of a text has and the text itself is too short for: a sharp s
    is two units in upper case, and the text is split behind its end. *)
Theorem sharp_s_throws : highlight some_upper 20 (u "ss") (Element (u "DIV") [] [TextNode [223]]) = Throws.
Proof. vm_compute. reflexivity. Qed.

(** The empty term: a text is split before its first unit for ever. *)
Theorem empty_term_never_ends (up : jstr -> jstr) fuel t c d l : up [] = [] -> not_searched t = false ->
  highlight up fuel [] (Element t c (TextNode d :: l)) = NoFuel.
Proof.
  intros Hup Ht. unfold highlight. rewrite Hup. destruct fuel as [|fuel]; [done|].
  cbn [innerHighlight]. rewrite Ht.
  enough (H : forall fuel before rest, child_loop up fuel [] (length before) (before ++ TextNode d :: rest) = NoFuel)
    by (pose proof (H fuel [] l) as E; cbn [length app] in E; by rewrite E).
  clear. induction fuel as [|fuel IH]; intros before rest; [done|]. cbn [child_loop].
  rewrite list_lookup_middle by done. destruct fuel as [|fuel]; [done|]. cbn [innerHighlight].
  assert (Hpos : index_of (up d) [] = 0) by (destruct (up d); done).
  unfold highlight_text, splitText. rewrite Hpos. cbn. rewrite take_0, drop_0.
  rewrite take_app_length. specialize (IH (before ++ [TextNode []; spannode []])).
  rewrite length_app in IH. cbn [length] in IH.
  replace (length before + 2)%nat with (length before + 1 + 1)%nat in IH by lia.
  specialize (IH (drop (S (length before)) (before ++ TextNode d :: rest))).
  rewrite <- app_assoc in IH. exact IH.
Qed.
Lemma empty_term_never_ends_witness :
  highlight some_upper 1000 [] (Element (u "DIV") [] [TextNode (u "ab")]) = NoFuel.
Proof. apply (empty_term_never_ends some_upper 1000 (u "DIV") [] (u "ab") []); reflexivity. Defined.
