(* ===== verification/Regex.v ===== *)
(** * Regular expressions of the language, as far as the form validation uses them:
    classes of units, sequences, alternatives and repetitions, with or without the flag
    that ignores case

    [matches] decides with partial derivatives whether a whole string is in the
    language of an expression, which is what [test] answers for an expression between
    the anchors. [matches_lang] is its correctness. *)

From Stdlib Require Import ZArith Lia.
From stdpp Require Import base tactics list numbers strings.
From S2P Require Import Prelude.
Local Open Scope Z_scope.

(** A class is a list of ranges of units. *)
Inductive regex :=
  | Eps
  | Cls (ranges : list (Z * Z))
  | Seq (r1 r2 : regex)
  | Alt (r1 r2 : regex)
  | Star (r : regex).
#[export] Instance regex_eq_dec : EqDecision regex.
Proof. solve_decision. Defined.

Definition in_ranges (ranges : list (Z * Z)) (c : Z) : bool :=
  existsb (fun '(a, b) => (a <=? c) && (c <=? b)) ranges.

(** The other case of an ASCII letter. The upper case of a unit above 127 is never a
    unit below 128 for a comparison without case, and the classes of the plugin hold
    every unit that has the upper case of one of theirs. *)
Definition other_case (c : Z) : Z :=
  if (65 <=? c) && (c <=? 90) then c + 32 else if (97 <=? c) && (c <=? 122) then c - 32 else c.
Definition in_class (ignore_case : bool) (ranges : list (Z * Z)) (c : Z) : bool :=
  in_ranges ranges c || (ignore_case && in_ranges ranges (other_case c)).

(** ** The language *)

Inductive lang (i : bool) : regex -> jstr -> Prop :=
  | LEps : lang i Eps []
  | LCls ranges c : in_class i ranges c = true -> lang i (Cls ranges) [c]
  | LSeq r1 r2 s1 s2 : lang i r1 s1 -> lang i r2 s2 -> lang i (Seq r1 r2) (s1 ++ s2)
  | LAlt1 r1 r2 s : lang i r1 s -> lang i (Alt r1 r2) s
  | LAlt2 r1 r2 s : lang i r2 s -> lang i (Alt r1 r2) s
  | LStar0 r : lang i (Star r) []
  | LStar r s1 s2 : lang i r s1 -> lang i (Star r) s2 -> lang i (Star r) (s1 ++ s2).

(** ** The matcher *)

Fixpoint nullable (r : regex) : bool :=
  match r with
  | Eps | Star _ => true
  | Cls _ => false
  | Seq r1 r2 => nullable r1 && nullable r2
  | Alt r1 r2 => nullable r1 || nullable r2
  end.

(** What may still come after the unit [c], one expression for each way to read it. *)
Fixpoint deriv (i : bool) (c : Z) (r : regex) : list regex :=
  match r with
  | Eps => []
  | Cls ranges => if in_class i ranges c then [Eps] else []
  | Seq r1 r2 =>
      map (fun r => if decide (r = Eps) then r2 else Seq r r2) (deriv i c r1)
      ++ (if nullable r1 then deriv i c r2 else [])
  | Alt r1 r2 => deriv i c r1 ++ deriv i c r2
  | Star r => map (fun r' => if decide (r' = Eps) then Star r else Seq r' (Star r)) (deriv i c r)
  end.

Fixpoint matches_any (i : bool) (rs : list regex) (s : jstr) : bool :=
  match s with
  | [] => existsb nullable rs
  | c :: s => matches_any i (remove_dups (flat_map (deriv i c) rs)) s
  end.
Definition matches (i : bool) (r : regex) (s : jstr) : bool := matches_any i [r] s.

(** ** Derived forms *)

Definition one (c : Z) : regex := Cls [(c, c)].
Fixpoint literal (s : jstr) : regex :=
  match s with [] => Eps | [c] => one c | c :: s => Seq (one c) (literal s) end.
Definition opt (r : regex) : regex := Alt Eps r.
Definition plus (r : regex) : regex := Seq r (Star r).
Fixpoint times (n : nat) (r : regex) : regex :=
  match n with O => Eps | S O => r | S n => Seq r (times n r) end.
(** The alternatives and the parts of a sequence. *)
Fixpoint alts (l : list regex) : regex :=
  match l with [] => Cls [] | [r] => r | r :: l => Alt r (alts l) end.
Fixpoint seqs (l : list regex) : regex :=
  match l with [] => Eps | [r] => r | r :: l => Seq r (seqs l) end.
Definition digit : list (Z * Z) := [(48, 57)].

Example matches_ex :
  let r := seqs [opt (one 45); plus (Cls digit); opt (seqs [one 46; plus (Cls digit)])] in
  map (matches false r) [u "12"; u "-1.5"; u "1."; u "-"; u ""] = [true; true; false; false; false].
Proof. vm_compute. reflexivity. Qed.
Example matches_case_ex :
  map (matches true (literal (u "http"))) [u "http"; u "HtTp"; u "htt"] = [true; true; false] /\
  matches false (literal (u "http")) (u "HTTP") = false.
Proof. vm_compute. split; reflexivity. Qed.

(** ** Correctness *)

Lemma nullable_lang i r : nullable r = true <-> lang i r [].
Proof.
  split.
  - induction r as [| |r1 IH1 r2 IH2|r1 IH1 r2 IH2|r]; cbn; try done; [constructor| | |constructor].
    + rewrite andb_true_iff. intros [H1 H2]. apply (LSeq i r1 r2 [] []); auto.
    + rewrite orb_true_iff. intros [H|H]; [by apply LAlt1, IH1|by apply LAlt2, IH2].
  - intros H. remember [] as s eqn:Es. induction H; cbn; try done.
    + apply app_eq_nil in Es as [-> ->]. by rewrite IHlang1, IHlang2.
    + by rewrite IHlang.
    + rewrite IHlang by done. apply orb_true_r.
Qed.

Lemma lang_eps i s : lang i Eps s <-> s = [].
Proof. split; [by inversion 1|intros ->; constructor]. Qed.
Lemma lang_cls i l s : lang i (Cls l) s <-> exists c, s = [c] /\ in_class i l c = true.
Proof. split; [inversion 1; eauto|intros (c & -> & H); by constructor]. Qed.
Lemma lang_seq i r1 r2 s : lang i (Seq r1 r2) s <-> exists s1 s2, s = s1 ++ s2 /\ lang i r1 s1 /\ lang i r2 s2.
Proof. split; [inversion 1; subst; eauto|intros (s1 & s2 & -> & H1 & H2); by constructor]. Qed.
Lemma lang_alt i r1 r2 s : lang i (Alt r1 r2) s <-> lang i r1 s \/ lang i r2 s.
Proof. split; [inversion 1; eauto|intros [H|H]; [by apply LAlt1|by apply LAlt2]]. Qed.

Lemma lang_seq_head i r r2 s : lang i (if decide (r = Eps) then r2 else Seq r r2) s <->
  exists s1 s2, s = s1 ++ s2 /\ lang i r s1 /\ lang i r2 s2.
Proof.
  destruct (decide (r = Eps)) as [->|_]; (split; [intros H|intros (s1 & s2 & -> & H1 & H2)]).
  - exists [], s. split; [done|]. split; [constructor|done].
  - by inversion H1; subst.
  - inversion H; subst. eauto.
  - by constructor.
Qed.

(** An expression matches [c :: s] exactly when one of its derivatives matches [s]. *)
Lemma deriv_lang i c r : forall s, lang i r (c :: s) <-> exists r', In r' (deriv i c r) /\ lang i r' s.
Proof.
  assert (Hmap : forall l r2 s, (exists r', In r' (map (fun r => if decide (r = Eps) then r2 else Seq r r2) l) /\ lang i r' s)
    <-> exists s1 s2, s = s1 ++ s2 /\ (exists r', In r' l /\ lang i r' s1) /\ lang i r2 s2).
  { intros l r2 s. split.
    - intros (r' & Hin & H). apply in_map_iff in Hin as (q & <- & Hin).
      apply lang_seq_head in H as (s1 & s2 & -> & H1 & H2). eauto 10.
    - intros (s1 & s2 & -> & (q & Hin & H1) & H2). eexists. split; [by apply in_map|].
      apply lang_seq_head. eauto. }
  induction r as [|l|r1 IH1 r2 IH2|r1 IH1 r2 IH2|r IH]; intros s; cbn [deriv].
  - split; [by inversion 1|by intros (r' & [] & _)].
  - split; [intros (d & [= <- ->] & Hc)%lang_cls; rewrite Hc; exists Eps; split; [by left|constructor]|].
    destruct (in_class i l c) eqn:E; [|by intros (r' & [] & _)].
    intros (r' & [<-|[]] & H). inversion H; subst. by constructor.
  - setoid_rewrite in_app_iff. split.
    + intros (s1 & s2 & Es & H1 & H2)%lang_seq. destruct s1 as [|d s1].
      * cbn in Es; subst s2. apply IH2 in H2 as (r' & Hin & H2). exists r'. split; [right|done].
        by rewrite (proj2 (nullable_lang i r1)).
      * injection Es as <- ->. apply IH1 in H1.
        destruct (proj2 (Hmap (deriv i c r1) r2 (s1 ++ s2)) ltac:(eauto 10)) as (r' & Hin & H'). eauto.
    + intros (r' & [Hin|Hin] & H').
      * destruct (proj1 (Hmap (deriv i c r1) r2 s) ltac:(eauto)) as (s1 & s2 & -> & H1 & H2).
        apply (LSeq i r1 r2 (c :: s1) s2); [by apply IH1|done].
      * destruct (nullable r1) eqn:E; [|done]. apply (LSeq i r1 r2 [] (c :: s)); [by apply nullable_lang|].
        apply IH2. eauto.
  - setoid_rewrite in_app_iff. split.
    + intros [(r' & ? & ?)%IH1|(r' & ? & ?)%IH2]%lang_alt; eauto.
    + intros (r' & [Hin|Hin] & H'); [apply LAlt1, IH1|apply LAlt2, IH2]; eauto.
  - rewrite Hmap. split.
    + intros H. remember (Star r) as q eqn:Eq. remember (c :: s) as t eqn:Et.
      induction H as [| | | | | |q s1 s2 H1 _ H2 IHs]; try done. injection Eq as ->. destruct s1 as [|d s1].
      * by apply IHs.
      * injection Et as -> <-. apply IH in H1. eauto 10.
    + intros (s1 & s2 & -> & H1 & H2). rewrite app_comm_cons. constructor; [by apply IH|done].
Qed.

(** The matcher decides the language. *)
Lemma matches_any_lang i s : forall rs, matches_any i rs s = true <-> exists r, In r rs /\ lang i r s.
Proof.
  induction s as [|c s IH]; intros rs; cbn [matches_any].
  - rewrite existsb_exists. by setoid_rewrite (nullable_lang i).
  - rewrite IH. setoid_rewrite deriv_lang. split.
    + intros (r' & Hin & H). apply list_elem_of_In, elem_of_remove_dups, list_elem_of_In, in_flat_map in Hin
        as (r & Hr & Hin). eauto.
    + intros (r & Hr & r' & Hin & H). exists r'. split; [|done].
      apply list_elem_of_In, elem_of_remove_dups, list_elem_of_In, in_flat_map. eauto.
Qed.

Lemma matches_lang i r s : matches i r s = true <-> lang i r s.
Proof.
  unfold matches. rewrite matches_any_lang. split; [by intros (r' & [<-|[]] & H)|intros H; exists r; split; [by left|done]].
Qed.

(** ** Inversion of the language on the derived forms *)

Lemma lang_opt i r s : lang i (opt r) s <-> s = [] \/ lang i r s.
Proof. unfold opt. by rewrite lang_alt, lang_eps. Qed.

(** A repetition is a list of matches. *)
Lemma lang_star i r s : lang i (Star r) s <-> exists l, s = concat l /\ Forall (lang i r) l.
Proof.
  split.
  - intros H. remember (Star r) as q eqn:Eq. induction H as [| | | | |q|q s1 s2 H1 _ H2 IH]; try done; [by exists []|].
    injection Eq as ->. destruct (IH eq_refl) as (l & -> & Hl). exists (s1 :: l). split; [done|by constructor].
  - intros (l & -> & Hl). induction Hl; [constructor|by constructor].
Qed.
Lemma lang_plus i r s : lang i (plus r) s <-> exists l, l <> [] /\ s = concat l /\ Forall (lang i r) l.
Proof.
  unfold plus. rewrite lang_seq. setoid_rewrite lang_star. split.
  - intros (s1 & s2 & -> & H1 & l & -> & Hl). exists (s1 :: l). by repeat split; [|constructor].
  - intros ([|s1 l] & Hn & -> & Hl); [done|]. inversion Hl; subst. exists s1, (concat l). eauto.
Qed.

(** Repetitions of a class. *)
Lemma singles {A} (P : A -> Prop) l : Forall (fun s => exists c, s = [c] /\ P c) l -> Forall P (concat l).
Proof. induction 1 as [|s l (c & -> & Hc) Hl IH]; [done|by constructor]. Qed.
Lemma concat_singles {A} (s : list A) : concat (map (fun c => [c]) s) = s.
Proof. induction s as [|c s IH]; [done|]. cbn. by rewrite IH. Qed.
Lemma singles_map {A} (P : A -> Prop) s : Forall P s -> Forall (fun t => exists c, t = [c] /\ P c) (map (fun c => [c]) s).
Proof. induction 1; constructor; eauto. Qed.

Lemma lang_star_cls i l s : lang i (Star (Cls l)) s <-> Forall (fun c => in_class i l c = true) s.
Proof.
  rewrite lang_star. split.
  - intros (k & -> & Hk). apply singles. eapply Forall_impl; [exact Hk|]. intros t. by rewrite lang_cls.
  - intros H. exists (map (fun c => [c]) s). rewrite concat_singles. split; [done|].
    eapply Forall_impl; [by apply singles_map|]. intros t. by rewrite lang_cls.
Qed.
Lemma lang_plus_cls i l s : lang i (plus (Cls l)) s <-> s <> [] /\ Forall (fun c => in_class i l c = true) s.
Proof.
  unfold plus. rewrite lang_seq. setoid_rewrite lang_cls. setoid_rewrite lang_star_cls. split.
  - intros (s1 & s2 & -> & (c & -> & Hc) & H). split; [done|by constructor].
  - intros [Hn H]. destruct s as [|c s]; [done|]. inversion H; subst. exists [c], s. eauto.
Qed.
Lemma lang_times_cls i l n s :
  lang i (times n (Cls l)) s <-> length s = n /\ Forall (fun c => in_class i l c = true) s.
Proof.
  revert s. induction n as [|[|n] IH]; intros s.
  - cbn. rewrite lang_eps. split; [intros ->; by split|intros [Hl _]; by destruct s].
  - cbn [times]. rewrite lang_cls. split; [intros (c & -> & H); split; [done|by constructor]|].
    intros [Hl H]. destruct s as [|c [|d s]]; try done. inversion H; subst. eauto.
  - change (times (S (S n)) (Cls l)) with (Seq (Cls l) (times (S n) (Cls l))). rewrite lang_seq.
    setoid_rewrite lang_cls. setoid_rewrite IH. split.
    + intros (s1 & s2 & -> & (c & -> & Hc) & Hl & H). cbn. split; [lia|by constructor].
    + intros [Hl H]. destruct s as [|c s]; [done|]. inversion H; subst. exists [c], s. cbn in Hl. eauto 10.
Qed.
Lemma lang_one i c s : in_class i [(c, c)] c = true -> (other_case c = c \/ i = false) -> lang i (one c) s <-> s = [c].
Proof.
  intros Hc Ho. unfold one. rewrite lang_cls. split; [|by intros ->; eauto].
  intros (d & -> & Hd). f_equal. unfold in_class, in_ranges in Hd. cbn in Hd. rewrite !orb_false_r in Hd.
  apply orb_true_iff in Hd as [Hd|Hd]; [lia|]. destruct Ho as [Ho| ->]; [|done].
  apply andb_true_iff in Hd as [_ Hd]. unfold other_case in *. repeat (case_match; try lia).
Qed.

(** The units that an expression can read. *)
Fixpoint reads (i : bool) (r : regex) (c : Z) : bool :=
  match r with
  | Eps => false
  | Cls l => in_class i l c
  | Seq r1 r2 | Alt r1 r2 => reads i r1 c || reads i r2 c
  | Star r => reads i r c
  end.
Lemma lang_reads i r s : lang i r s -> Forall (fun c => reads i r c = true) s.
Proof.
  induction 1; cbn [reads]; try constructor; try done; [|..|by apply Forall_app];
    [|by eapply Forall_impl; [done|]; intros c ->; auto using orb_true_r..].
  apply Forall_app. split; (eapply Forall_impl; [done|]); cbn; intros c ->; auto using orb_true_r.
Qed.
