(* ===== verification/ValidPage.v ===== *)
(** * [html/resource/js/jquery.validate.js]: the page that the form validation works on

    The document is the list of its form fields in document order; a field is named by
    its position. What the validator asks of a field - its value, its length, the first
    field of its group - is computed here. Selectors and functions given by the user of
    the plugin are the operations of the class [Page]. *)

From Stdlib Require Import ZArith Lia.
From stdpp Require Import base tactics list numbers strings.
From S2P Require Import Prelude JsValue Md5.
Local Open Scope Z_scope.

(** ** Fields *)

Record choice := Choice { o_value : jstr; o_selected : bool; o_disabled : bool }.
Record field := Field {
  nodeName : jstr;
  f_type : jstr;                  (* the property [type] *)
  attrs : list (jstr * jstr);     (* attributes, by their lower-case names *)
  name : jstr; f_id : jstr; f_title : jstr;
  classes : list jstr;            (* the words of the class attribute *)
  text : jstr;                    (* the property [value] of an input or a textarea *)
  checked : bool;
  options : list choice;          (* of a select *)
  in_form : bool                  (* inside the form that is validated *)
}.
Definition page := list field.

Fixpoint assoc {A} (k : jstr) (l : list (jstr * A)) : option A :=
  match l with [] => None | (k', x) :: l => if js_eqb k k' then Some x else assoc k l end.
(** [o[k] = x] and [delete o[k]]: a new key comes last, a known one keeps its place. *)
Fixpoint assoc_set {A} (k : jstr) (x : A) (l : list (jstr * A)) : list (jstr * A) :=
  match l with
  | [] => [(k, x)]
  | (k', y) :: l => if js_eqb k k' then (k', x) :: l else (k', y) :: assoc_set k x l
  end.
Definition assoc_delete {A} (k : jstr) (l : list (jstr * A)) : list (jstr * A) :=
  filter (fun p => k <> p.1) l.
(** [$.extend(target, source)] *)
Definition extend {A} (target source : list (jstr * A)) : list (jstr * A) :=
  fold_left (fun t p => assoc_set p.1 p.2 t) source target.

(** [getAttribute(name)] *)
Definition getAttribute (f : field) (attr_name : jstr) : option jstr := assoc (to_lower attr_name) (attrs f).

(** ** Values *)

Inductive value := Single (p : prim) | Many (l : list jstr).
#[export] Instance value_eq_dec : EqDecision value.
Proof. solve_decision. Defined.

Definition remove_cr (s : jstr) : jstr := filter (fun c => c <> 13) s.

(** [select.get]: a select that is not multiple has one value or null; a selection with
    no selected option is null, a multiple one is the list of its enabled values. *)
Definition chosen (l : list choice) : list choice := filter (fun o => o_selected o = true) l.
Definition select_val (f : field) : value :=
  let one := js_eqb (f_type f) (u "select-one") || bool_decide (chosen (options f) = []) in
  if one then
    match chosen (options f) with
    | o :: _ => Single (if o_disabled o then PNull else PStr (o_value o))
    | [] => Single PNull
    end
  else Many (map o_value (filter (fun o => o_disabled o = false) (chosen (options f)))).

Definition is_select (f : field) : bool := js_eqb (to_lower (nodeName f)) (u "select").
(** [$(f).val()] *)
Definition field_val (f : field) : value :=
  if is_select f then select_val f
  else Single (PStr (remove_cr (text f))).

(** A string that a regular expression without anchors finds. *)
Definition contains (s p : jstr) : bool := 0 <=? index_of s p.
(** [checkable]: [/radio|checkbox/i.test(element.type)] *)
Definition checkable (f : field) : bool :=
  contains (to_lower (f_type f)) (u "radio") || contains (to_lower (f_type f)) (u "checkbox").

(** The fields that satisfy a condition, in document order. *)
Definition find_fields (cond : field -> bool) (p : page) : list nat :=
  map fst (filter (fun q => cond q.2 = true) (imap pair p)).

(** [findByName]: the fields of the form with a name. *)
Definition findByName (p : page) (n : jstr) : list nat :=
  find_fields (fun f => in_form f && bool_decide (getAttribute f (u "name") = Some n)) p.

Definition is_checked (p : page) (k : nat) : bool :=
  match p !! k with Some f => checked f | None => false end.

(** [elementValue(element)]: a group of radio buttons or checkboxes has the value of the
    first one that is checked in the document. *)
Definition elementValue (p : page) (f : field) : value :=
  if bool_decide (getAttribute f (u "type") = Some (u "radio") \/ getAttribute f (u "type") = Some (u "checkbox")) then
    match find_fields (fun g => js_eqb (to_lower (nodeName g)) (u "input") &&
             bool_decide (getAttribute g (u "name") = Some (default (u "undefined") (getAttribute f (u "name"))))
             && checked g) p with
    | k :: _ => match p !! k with Some g => field_val g | None => Single PUndef end
    | [] => Single PUndef
    end
  else match field_val f with
       | Single (PStr s) => Single (PStr (remove_cr s))
       | v => v
       end.

(** [getLength(value, element)]: the options selected, the boxes checked, or the length
    of the value. *)
Definition getLength (p : page) (len : Z) (f : field) : Z :=
  if is_select f then Z.of_nat (length (chosen (options f)))
  else if js_eqb (to_lower (nodeName f)) (u "input") && checkable f
  then Z.of_nat (length (filter (fun k => is_checked p k = true) (findByName p (name f))))
  else len.

(** [String(value)] and [$.trim(value)] *)
Definition value_text (v : value) : jstr :=
  match v with Single p => to_str p | Many l => join (u ",") l end.
Definition trim_value (v : value) : jstr :=
  match v with Single (PUndef | PNull) => [] | _ => trim (value_text v) end.

(** The selectors [:blank], [:filled] and [:unchecked] *)
Definition blank (f : field) : bool := bool_decide (trim (value_text (field_val f)) = []).
Definition filled (f : field) : bool := negb (blank f).
Definition unchecked (f : field) : bool := negb (checked f).

(** ** Rule parameters *)

Inductive rdep := DNone | DSel (selector : jstr) | DFun (f : nat) | DOther (b : bool).
Inductive rparam :=
  | RPrim (p : prim)
  | RArr (l : list prim)
  | RFun (f : nat)                            (* a function given by the user *)
  | RDep (param : prim) (depends : rdep)      (* an object with [param] and [depends] *)
  | RObj (id : nat).                          (* the options of a remote request *)
#[export] Instance rdep_eq_dec : EqDecision rdep.
Proof. solve_decision. Defined.
#[export] Instance rparam_eq_dec : EqDecision rparam.
Proof. solve_decision. Defined.

Definition rtruthy (r : rparam) : bool := match r with RPrim p => truthy p | _ => true end.

(** What a validation method answers: the field is optional and empty, a request is
    under way, or true or false. *)
Inductive mresult := DependencyMismatch | PendingResult | Verdict (b : bool).

(** What the user of the plugin and the browser supply: whether and which fields a
    selector finds in the form or in the document, the functions among the rule
    parameters and the messages, the methods added with [addMethod], the fields hidden
    at the moment (the setting [ignore]) and the visible ones, the dates that [new Date] reads, what [$.data] gives for the attributes
    [data-rule-...] and [data-msg-...] of a field, and the text of a field as an object. *)
Class Page := {
  in_form_selector : page -> jstr -> bool;
  selector : page -> jstr -> list nat;
  call_rule : nat -> page -> nat -> rparam;
  call_message : nat -> rparam -> prim;
  user_method : nat -> page -> nat -> value -> rparam -> mresult;
  ignored : page -> nat -> bool;
  visible : page -> nat -> bool;
  date_string_ok : value -> bool;
  data_rule : nat -> jstr -> option rparam;
  data_msg : nat -> jstr -> option prim;
  field_text : nat -> jstr
}.

Section OfPage.
Context {W : Page}.

(** [validationTargetFor]: the first field of a group that is not ignored. *)
Definition validationTargetFor (p : page) (k : nat) : option nat :=
  match p !! k with
  | Some f => if checkable f
              then head (filter (fun j => ignored p j = false) (findByName p (name f)))
              else Some k
  | None => None
  end.

(** [depend(param, element)] with [dependTypes] *)
Definition depend (p : page) (param : rparam) (k : nat) : bool :=
  match param with
  | RPrim (PBool b) => b
  | RPrim (PStr sel) => in_form_selector p sel
  | RFun g => rtruthy (call_rule g p k)
  | _ => true
  end.
End OfPage.

(** ** Laws of objects as lists *)

Lemma js_eqb_refl s : js_eqb s s = true.
Proof. by apply bool_decide_eq_true. Qed.
Lemma js_eqb_ne s t : s <> t -> js_eqb s t = false.
Proof. intros H. by apply bool_decide_eq_false. Qed.
Lemma js_eqb_true s t : js_eqb s t = true -> s = t.
Proof. apply bool_decide_eq_true. Qed.

Lemma assoc_assoc_set {A} m n (x : A) l : assoc m (assoc_set n x l) = if decide (m = n) then Some x else assoc m l.
Proof.
  induction l as [|[k y] l IH]; cbn [assoc assoc_set].
  - case_decide as H; [subst; by rewrite js_eqb_refl|by rewrite js_eqb_ne].
  - destruct (js_eqb n k) eqn:E; cbn [assoc].
    + apply js_eqb_true in E as <-. case_decide as H; [subst; by rewrite js_eqb_refl|by rewrite js_eqb_ne].
    + rewrite IH. case_decide as H; [subst; by rewrite E|done].
Qed.
Lemma keys_assoc_set {A} n (x : A) l : map fst (assoc_set n x l) = if decide (n ∈ map fst l) then map fst l else map fst l ++ [n].
Proof.
  induction l as [|[k y] l IH]; cbn [assoc_set map fst]; [done|].
  destruct (js_eqb n k) eqn:E; cbn [map fst].
  - apply js_eqb_true in E as <-. rewrite decide_True; [done|by left].
  - rewrite IH. assert (n <> k) by (intros ->; by rewrite js_eqb_refl in E).
    destruct (decide (n ∈ map fst l)) as [H1|H1], (decide (n ∈ k :: map fst l)) as [H2|H2]; try done.
    + destruct H2. by right.
    + apply elem_of_cons in H2 as [?|?]; done.
Qed.
Lemma NoDup_assoc_set {A} n (x : A) l : NoDup (map fst l) -> NoDup (map fst (assoc_set n x l)).
Proof.
  intros H. rewrite keys_assoc_set. case_decide; [done|]. apply NoDup_app. split; [done|]. split; [|apply NoDup_singleton].
  by intros y Hy ->%list_elem_of_singleton.
Qed.
Lemma assoc_none {A} m (l : list (jstr * A)) : m ∉ map fst l -> assoc m l = None.
Proof.
  induction l as [|[k y] l IH]; [done|]. cbn. intros [H1 H2]%not_elem_of_cons. rewrite js_eqb_ne by done. auto.
Qed.

Lemma NoDup_keys_filter {A} (P : jstr * A -> Prop) `{!forall x, Decision (P x)} (l : list (jstr * A)) :
  NoDup (map fst l) -> NoDup (map fst (filter P l)).
Proof.
  induction l as [|q l IH]; [done|]. cbn [map]. intros [H1 H2]%NoDup_cons. rewrite filter_cons. case_decide; [|auto].
  cbn [map]. apply NoDup_cons. split; [|auto]. intros Hin. apply H1. apply list_elem_of_In, in_map_iff in Hin as (x & <- & Hx).
  apply list_elem_of_In, in_map. by apply list_elem_of_In, list_elem_of_filter in Hx as [_ Hx%list_elem_of_In].
Qed.

(** ** Examples *)

Definition text_field (n v : jstr) : field :=
  Field (u "INPUT") (u "text") [(u "name", n); (u "type", u "text")] n [] [] [] v false [] true.
Definition box (n v : jstr) (c : bool) : field :=
  Field (u "INPUT") (u "checkbox") [(u "name", n); (u "type", u "checkbox")] n [] [] [] v c [] true.
Definition select_field (n : jstr) (multiple : bool) (l : list choice) : field :=
  Field (u "SELECT") (if multiple then u "select-multiple" else u "select-one") [(u "name", n)] n [] [] [] [] false l true.

Example elementValue_ex :
  let p := [text_field (u "a") (u "x" ++ [13; 10]); box (u "b") (u "1") false; box (u "b") (u "2") true;
            select_field (u "s") true [Choice (u "p") true false; Choice (u "q") true true; Choice (u "r") true false];
            select_field (u "t") false []] in
  map (elementValue p) p = [Single (PStr (u "x" ++ [10])); Single (PStr (u "2")); Single (PStr (u "2"));
    Many [u "p"; u "r"]; Single PNull] /\ map (getLength p 7) p = [7; 1; 1; 3; 0].
Proof. vm_compute. split; reflexivity. Qed.
