(* ===== verification/ValidMethods.v ===== *)
(** * [html/resource/js/jquery.validate.js]: the validation methods that only look at a
    value, the comparison operators they use, and [$.validator.format] *)

From Stdlib Require Import ZArith Lia.
From stdpp Require Import base tactics list numbers strings.
From S2P Require Import Prelude JsValue Md5 Regex ValidPage.
Local Open Scope Z_scope.

(** ** The expressions of the methods *)

Definition az : list (Z * Z) := [(97, 122)].
Definition any_of (s : jstr) : list (Z * Z) := map (fun c => (c, c)) s.
(** The units above ASCII of addresses. *)
Definition iri : list (Z * Z) := [(160, 55295); (63744, 64975); (65008, 65519)].

(** Labels of a domain name: one unit, or more with only [ends] at both ends. *)
Definition inner : list (Z * Z) := az ++ digit ++ any_of (u "-._~") ++ iri.
Definition label_of (ends : list (Z * Z)) : regex :=
  Alt (Cls ends) (seqs [Cls ends; Star (Cls inner); Cls ends]).
Definition domain : regex := Seq (plus (Seq (label_of (az ++ digit ++ iri)) (one 46))) (label_of (az ++ iri)).

Definition atext : list (Z * Z) := az ++ digit ++ any_of (u "!#$%&'*+-/=?^_`{|}~") ++ iri.
Definition blanks : regex :=
  opt (Seq (opt (Seq (Star (Cls [(32, 32); (9, 9)])) (literal [13; 10]))) (plus (Cls [(32, 32); (9, 9)]))).
Definition quoted_char : regex :=
  Alt (Cls ([(1, 8); (11, 11); (12, 12); (14, 31); (127, 127); (33, 33); (35, 91); (93, 126)] ++ iri))
      (Seq (one 92) (Cls ([(1, 9); (11, 11); (12, 12); (13, 127)] ++ iri))).
Definition email_regex : regex :=
  seqs [Alt (Seq (plus (Cls atext)) (Star (Seq (one 46) (plus (Cls atext)))))
            (seqs [one 34; Star (Seq blanks quoted_char); blanks; one 34]);
        one 64; domain].

Definition hex_pair : regex := Seq (one 37) (times 2 (Cls (digit ++ [(97, 102)]))).
Definition url_unreserved : list (Z * Z) := az ++ digit ++ any_of (u "-._~") ++ iri.
Definition sub_delims : list (Z * Z) := any_of (u "!$&'()*+,;=").
(** Units of a path; those of a user name have no at sign. *)
Definition url_char (more : jstr) : regex := Alt (Cls (url_unreserved ++ sub_delims ++ any_of more)) hex_pair.
Definition octet : regex :=
  alts [Cls digit; Seq (Cls [(49, 57)]) (Cls digit); seqs [one 49; Cls digit; Cls digit];
        seqs [one 50; Cls [(48, 52)]; Cls digit]; seqs [one 50; one 53; Cls [(48, 53)]]].
Definition scheme : regex :=
  Alt (Seq (literal (u "http")) (opt (one 115))) (Seq (opt (one 115)) (literal (u "ftp"))).
Definition authority : regex :=
  seqs [opt (Seq (Star (url_char (u ":"))) (one 64));
        Alt (seqs [octet; one 46; octet; one 46; octet; one 46; octet]) (Seq domain (opt (one 46)));
        opt (Seq (one 58) (Star (Cls digit)))].
Definition url_path : regex :=
  opt (Seq (one 47) (opt (Seq (plus (url_char (u ":@"))) (Star (Seq (one 47) (Star (url_char (u ":@")))))))).
Definition url_query : regex := opt (Seq (one 63) (Star (Alt (url_char (u ":@/?")) (Cls [(57344, 63743)])))).
Definition url_fragment : regex := opt (Seq (one 35) (Star (url_char (u ":@/?")))).
Definition url_regex : regex := seqs [scheme; literal (u "://"); authority; url_path; url_query; url_fragment].

Definition digits_regex : regex := plus (Cls digit).
Definition number_regex : regex :=
  seqs [opt (one 45);
        opt (Alt (plus (Cls digit))
              (Seq (Seq (Cls digit) (opt (Seq (Cls digit) (opt (Cls digit))))) (plus (Seq (one 44) (times 3 (Cls digit))))));
        opt (Seq (one 46) (plus (Cls digit)))].
Definition one_or_two : regex := Seq (Cls digit) (opt (Cls digit)).
Definition dateISO_regex : regex :=
  seqs [times 4 (Cls digit); Cls [(47, 47); (45, 45)]; one_or_two; Cls [(47, 47); (45, 45)]; one_or_two].

Definition email_test (v : value) : bool := matches true email_regex (value_text v).
Definition url_test (v : value) : bool := matches true url_regex (value_text v).
Definition number_test (v : value) : bool := matches false number_regex (value_text v).
Definition digits_test (v : value) : bool := matches false digits_regex (value_text v).
Definition dateISO_test (v : value) : bool := matches false dateISO_regex (value_text v).

(** ** Credit cards *)

Definition is_dec (c : Z) : bool := (48 <=? c) && (c <=? 57).
(** The loop from the last digit to the first; [n] digits are left. *)
Fixpoint luhn_loop (value : jstr) (n : nat) (nCheck : Z) (bEven : bool) : Z :=
  match n with
  | O => nCheck
  | S n =>
      let nDigit := default 0 (value !! n) - 48 in
      let nDigit := if bEven then (if 9 <? nDigit * 2 then nDigit * 2 - 9 else nDigit * 2) else nDigit in
      luhn_loop value n (nCheck + nDigit) (negb bEven)
  end.
Definition creditcard_test (value : jstr) : bool :=
  if existsb (fun c => negb (is_dec c || (c =? 32) || (c =? 45))) value then false
  else let value := filter (fun c => is_dec c = true) value in
       luhn_loop value (length value) 0 false mod 10 =? 0.

(** ** Comparison *)

(** Strings are compared by their units. *)
Fixpoint str_leb (a b : jstr) : bool :=
  match a, b with
  | [], _ => true
  | _ :: _, [] => false
  | c :: a, d :: b => (c <? d) || ((c =? d) && str_leb a b)
  end.
(** [a <= b] *)
Definition js_le (a b : prim) : bool :=
  match a, b with
  | PStr a, PStr b => str_leb a b
  | _, _ => num_leb (to_number a) (to_number b)
  end.
Definition value_prim (v : value) : prim := match v with Single p => p | Many _ => PStr (value_text v) end.
Definition rparam_prim (r : rparam) : prim :=
  match r with
  | RPrim p => p
  | RArr l => PStr (join (u ",") (map (fun p => match p with PUndef | PNull => [] | _ => to_str p end) l))
  | _ => PStr (u "[object Object]")
  end.
(** [param[i]] *)
Definition rparam_at (r : rparam) (i : nat) : prim :=
  match r with
  | RArr l => default PUndef (l !! i)
  | RPrim (PStr s) => match s !! i with Some c => PStr [c] | None => PUndef end
  | _ => PUndef
  end.

Definition min_test (v : value) (param : rparam) : bool := js_le (rparam_prim param) (value_prim v).
Definition max_test (v : value) (param : rparam) : bool := js_le (value_prim v) (rparam_prim param).
Definition range_test (v : value) (param : rparam) : bool :=
  js_le (rparam_at param 0) (value_prim v) && js_le (value_prim v) (rparam_at param 1).
Definition of_length (n : Z) : value := Single (PNum (of_Z n)).

(** ** Messages *)

(** [$.validator.format(source, params)]: the parameters take the place of [{0}], [{1}]
    and so on, one after the other. *)
Definition slot (i : nat) : jstr := u "{" ++ Z_to_str (Z.of_nat i) ++ u "}".
Definition format (source : jstr) (params : list prim) : jstr :=
  fold_left (fun source '(i, n) => replace_all (slot i) (to_str n) source) (imap pair params) source.

(** The longest prefix of digits. *)
Fixpoint span_digits (s : jstr) : jstr * jstr :=
  match s with
  | c :: s' => if is_dec c then let '(d, r) := span_digits s' in (c :: d, r) else ([], s)
  | [] => ([], [])
  end.
(** A slot [{12}] at the start: its length. *)
Definition slot_at (s : jstr) : option nat :=
  match s with
  | 123 :: s => match span_digits s with
                | ((_ :: _) as d, 125 :: _) => Some (length d + 2)%nat
                | _ => None
                end
  | _ => None
  end.
(** [theregex.test(message)] and [message.replace(theregex, '{$1}')]: a dollar before a
    slot is dropped. [keep] counts the units of the current slot still to be copied. *)
Fixpoint has_slot (s : jstr) : bool :=
  match s with [] => false | _ :: s' => match slot_at s with Some _ => true | None => has_slot s' end end.
Fixpoint drop_dollars (s : jstr) (keep : nat) : jstr :=
  match s with
  | [] => []
  | c :: s' =>
      match keep with
      | S keep => c :: drop_dollars s' keep
      | O => match slot_at s with
             | Some n => c :: drop_dollars s' (n - 1)
             | None => if (c =? 36) && (match slot_at s' with Some _ => true | None => false end)
                       then drop_dollars s' 0 else c :: drop_dollars s' 0
             end
      end
  end.

(** ** Examples *)

Example email_ex : map (fun s => email_test (Single (PStr s)))
  [u "a.b@example.com"; u "A@B.CO"; u "a@b"; u "a b@c.de"; [34; 97; 32; 98; 34] ++ u "@c.de"; u ".a@c.de"; u "a@-c.de"]
  = [true; true; false; false; true; false; false].
Proof. vm_compute. reflexivity. Qed.
Example url_ex : map (fun s => url_test (Single (PStr s)))
  [u "http://example.com/a?b=c#d"; u "HTTPS://u:p@1.2.3.255:80"; u "javascript:alert(1)"; u "http://localhost/";
   u "ftp://a.b/%4g"; u "sftp://a.b./x//y"; u "http://256.1.1.1/"; u "http://a.b/?<"]
  = [true; true; false; false; false; true; false; false].
Proof. vm_compute. reflexivity. Qed.
Example number_ex : map (fun s => number_test (Single (PStr s)))
  [u "12"; u "1,234.5"; u "-.5"; u "1,23"; u "-"; u "1."; u "12,345,678"] = [true; true; true; false; true; false; true].
Proof. vm_compute. reflexivity. Qed.
Example dateISO_ex : map (fun s => dateISO_test (Single (PStr s)))
  [u "2013-01-31"; u "2013/1/1"; u "2013-99-99"; u "13-1-1"] = [true; true; true; false].
Proof. vm_compute. reflexivity. Qed.
Example creditcard_ex : map creditcard_test
  [u "4111-1111 1111 1111"; u "4111111111111112"; u "446-667-651"; u "-"; u "4x"] = [true; false; true; true; false].
Proof. vm_compute. reflexivity. Qed.
Example slot_ex : slot_at (u "{12}x") = Some 4%nat /\ slot_at (u "{}") = None /\
  drop_dollars (u "a ${0}, $1 {$} ${12}$") 0 = u "a {0}, $1 {$} {12}$".
Proof. repeat split. Qed.
Example format_ex :
  format (u "between {0} and {1}, {0}") [PNum (of_Z 2); PStr (u "x")] = u "between 2 and x, 2" /\
  drop_dollars (u "a ${0} {1} $ {x} $${2}") 0 = u "a {0} {1} $ {x} ${2}".
Proof. vm_compute. split; reflexivity. Qed.
