(* ===== verification/ValidMethodsProps.v ===== *)
(** * Properties of the validation methods: what the tests accept *)

From Stdlib Require Import ZArith QArith Lia.
From stdpp Require Import base tactics list numbers strings.
From S2P Require Import Prelude JsValue Md5 Regex ValidPage ValidMethods.
Local Open Scope Z_scope.

(** ** Credit cards *)

(** The check sum: every second digit from the right counts as the digits of its
    double. *)
Definition digit_sum (n : Z) : Z := n / 10 + n mod 10.
Definition weight (b : bool) (d : Z) : Z := if b then digit_sum (2 * d) else d.
Fixpoint weighted (b : bool) (ds : list Z) : Z :=
  match ds with [] => 0 | d :: ds => weight b d + weighted (negb b) ds end.
Definition digits_of (s : jstr) : list Z := map (fun c => c - 48) (filter (fun c => is_dec c = true) s).
Definition luhn_sum (s : jstr) : Z := weighted false (rev (digits_of s)).
Definition card_char (c : Z) : Prop := is_dec c = true \/ c = 32 \/ c = 45.

Lemma is_dec_spec c : is_dec c = true <-> 48 <= c <= 57.
Proof. unfold is_dec. lia. Qed.

Lemma weight_loop (b : bool) d : 0 <= d <= 9 ->
  (if b then (if 9 <? d * 2 then d * 2 - 9 else d * 2) else d) = weight b d.
Proof.
  intros H. destruct b; [|done]. unfold weight, digit_sum. case_match; Z.to_euclidean_division_equations; lia.
Qed.

Lemma luhn_loop_app v w n : forall c b, (n <= length v)%nat -> luhn_loop (v ++ w) n c b = luhn_loop v n c b.
Proof.
  induction n as [|n IH]; intros c b Hn; [done|]. cbn [luhn_loop]. rewrite lookup_app_l by lia. apply IH. lia.
Qed.

Lemma luhn_loop_weighted v : Forall (fun c => is_dec c = true) v -> forall c b,
  luhn_loop v (length v) c b = c + weighted b (rev (map (fun c => c - 48) v)).
Proof.
  induction v as [|d v IH] using rev_ind; intros Hv c b; [cbn; lia|].
  apply Forall_app in Hv as [Hv Hd]. inversion Hd as [|? ? Hd' _]; subst. apply is_dec_spec in Hd'.
  rewrite length_app, Nat.add_comm. cbn [length Nat.add luhn_loop].
  rewrite list_lookup_middle by done. cbn [default]. rewrite luhn_loop_app, IH by done.
  rewrite map_app, rev_app_distr. cbn [map rev app weighted]. unfold id.
  rewrite weight_loop by lia. lia.
Qed.

Lemma forallb_existsb {A} (f : A -> bool) l : existsb (fun x => negb (f x)) l = negb (forallb f l).
Proof. induction l as [|x l IH]; [done|]. cbn. rewrite IH. by destruct (f x). Qed.

Lemma creditcard_spec s : creditcard_test s = true <-> Forall card_char s /\ luhn_sum s mod 10 = 0.
Proof.
  unfold creditcard_test. rewrite forallb_existsb.
  assert (Hf : forallb (fun c => is_dec c || (c =? 32) || (c =? 45)) s = true <-> Forall card_char s).
  { rewrite forallb_forall, Forall_forall. unfold card_char. setoid_rewrite list_elem_of_In.
    split; intros H x Hx; specialize (H x Hx); rewrite !orb_true_iff, !Z.eqb_eq in *; tauto. }
  rewrite <- Hf. destruct (forallb _ s); cbn [negb]; [|split; [done|by intros [[=] _]]].
  rewrite luhn_loop_weighted by (apply Forall_forall; intros x; by rewrite list_elem_of_filter; intros [H _]).
  unfold luhn_sum, digits_of. rewrite Z.add_0_l, Z.eqb_eq. split; [by split|by intros [_ H]].
Qed.

Lemma weighted_app (b : bool) l1 l2 : weighted b (l1 ++ l2) = weighted b l1 + weighted (if Nat.even (length l1) then b else negb b) l2.
Proof.
  revert b. induction l1 as [|d l1 IH]; intros b; [done|]. cbn [app weighted length]. rewrite IH, Nat.even_succ.
  rewrite <- Nat.negb_even. destruct (Nat.even (length l1)), b; cbn; lia.
Qed.

Lemma weight_range b d : 0 <= d <= 9 -> 0 <= weight b d <= 9.
Proof. intros H. rewrite <- weight_loop by done. destruct b; [|done]. case_match; lia. Qed.
Lemma weight_inj b d e : 0 <= d <= 9 -> 0 <= e <= 9 -> weight b d = weight b e -> d = e.
Proof. intros Hd He. rewrite <- !weight_loop by done. destruct b; [|done]. repeat case_match; lia. Qed.

Lemma digits_of_app a b : digits_of (a ++ b) = digits_of a ++ digits_of b.
Proof. unfold digits_of. by rewrite filter_app, map_app. Qed.
Lemma digits_of_cons x b : is_dec x = true -> digits_of (x :: b) = (x - 48) :: digits_of b.
Proof. intros H. unfold digits_of. by rewrite filter_cons_True. Qed.


(** C27. A card number is accepted exactly when it has only digits, spaces and dashes and its
    check sum is a multiple of ten; so one wrong digit is always found. *)
Theorem creditcard_luhn :
  (forall s, creditcard_test s = true <-> Forall card_char s /\ luhn_sum s mod 10 = 0) /\
  forall a x y b, is_dec x = true -> is_dec y = true -> x <> y ->
    creditcard_test (a ++ x :: b) = true -> creditcard_test (a ++ y :: b) = false.
Proof.
  split; [apply creditcard_spec|]. intros a x y b Hx Hy Hxy [_ H1]%creditcard_spec.
  destruct (creditcard_test (a ++ y :: b)) eqn:E; [|done]. apply creditcard_spec in E as [_ H2].
  destruct Hxy. unfold luhn_sum in *. rewrite digits_of_app, digits_of_cons, rev_app_distr in * by done.
  cbn [rev] in *. rewrite <- !app_assoc in *. rewrite !weighted_app in *. cbn [app weighted] in *.
  apply is_dec_spec in Hx, Hy. set (b' := if Nat.even _ then false else _) in *.
  pose proof (weight_range b' (x - 48) ltac:(lia)). pose proof (weight_range b' (y - 48) ltac:(lia)).
  pose proof (weight_inj b' (x - 48) (y - 48) ltac:(lia) ltac:(lia)) as Hinj.
  enough (weight b' (x - 48) = weight b' (y - 48)) as Hw by (apply Hinj in Hw; lia). clear Hinj.
  change (length [x - 48]) with 1%nat in H1. change (length [y - 48]) with 1%nat in H2.
  Z.to_euclidean_division_equations. lia.
Qed.

(** ** Numbers *)

Lemma in_digit i c : in_class i digit c = true <-> is_dec c = true.
Proof.
  unfold in_class, in_ranges, digit. cbn [existsb]. rewrite is_dec_spec. unfold other_case.
  destruct i; cbn [andb]; repeat case_match; lia.
Qed.
Lemma Forall_digit i s : Forall (fun c => in_class i digit c = true) s <-> Forall (fun c => is_dec c = true) s.
Proof. split; intros H; (eapply Forall_impl; [exact H|]); intros c; by rewrite in_digit. Qed.
Definition digits (s : jstr) : Prop := s <> [] /\ Forall (fun c => is_dec c = true) s.

Lemma lang_digits i s : lang i (plus (Cls digit)) s <-> digits s.
Proof. rewrite lang_plus_cls. by rewrite Forall_digit. Qed.

(** Groups of three digits, each after a comma. *)
Inductive groups : jstr -> Prop :=
  | GOne a b c : digits [a; b; c] -> groups [44; a; b; c]
  | GMore a b c s : digits [a; b; c] -> groups s -> groups (44 :: a :: b :: c :: s).
Inductive number_int : jstr -> Prop :=
  | NINone : number_int []
  | NIDigits s : digits s -> number_int s
  | NIGroups h s : digits h -> (length h <= 3)%nat -> groups s -> number_int (h ++ s).
Inductive number_frac : jstr -> Prop :=
  | NFNone : number_frac []
  | NFDigits s : digits s -> number_frac (46 :: s).
Definition number_sign (s : jstr) : Prop := s = [] \/ s = [45].

Lemma lang_unit i c s : other_case c = c -> lang i (one c) s <-> s = [c].
Proof.
  intros H. apply lang_one; [|by left]. unfold in_class, in_ranges. cbn [existsb]. lia.
Qed.

Lemma lang_group s : lang false (Seq (one 44) (times 3 (Cls digit))) s <-> exists a b c, s = [44; a; b; c] /\ digits [a; b; c].
Proof.
  rewrite lang_seq. setoid_rewrite (lang_times_cls false digit 3). setoid_rewrite (lang_unit false 44); [|done]. split.
  - intros (s1 & s2 & -> & -> & Hl & H). apply Forall_digit in H. destruct s2 as [|a [|b [|c [|]]]]; try done.
    exists a, b, c. by repeat split.
  - intros (a & b & c & -> & Hn & H). exists [44], [a; b; c]. rewrite Forall_digit. by repeat split.
Qed.
Lemma lang_groups s : lang false (plus (Seq (one 44) (times 3 (Cls digit)))) s <-> groups s.
Proof.
  rewrite lang_plus. split.
  - intros (l & Hn & -> & Hl). destruct Hl as [|x l Hx Hl]; [done|]. clear Hn. revert x Hx.
    induction Hl as [|y l Hy Hl IH]; intros x (a & b & c & -> & Hd)%lang_group; [by constructor|].
    cbn. constructor; [done|by apply IH].
  - induction 1 as [a b c Hd|a b c s Hd _ (l & Hn & -> & Hl)].
    + exists [[44; a; b; c]]. repeat split; [done|]. repeat constructor. apply lang_group. eauto.
    + exists ([44; a; b; c] :: l). repeat split; [done|]. constructor; [apply lang_group; eauto|done].
Qed.

Lemma lang_dec s : lang false (Cls digit) s <-> exists c, s = [c] /\ is_dec c = true.
Proof. rewrite lang_cls. by setoid_rewrite in_digit. Qed.
Lemma lang_one_or_two s : lang false one_or_two s <-> digits s /\ (length s <= 2)%nat.
Proof.
  unfold one_or_two. rewrite lang_seq. setoid_rewrite lang_opt. setoid_rewrite lang_dec. split.
  - intros (s1 & s2 & -> & (c & -> & Hc) & [->|(d & -> & Hd)]); (split; [|cbn; lia]); by repeat constructor.
  - intros [[Hn H] Hl]. destruct s as [|c [|d [|]]]; cbn in Hl; try lia; [done| |].
    + exists [c], []. inversion H; eauto 10.
    + exists [c], [d]. inversion H as [|? ? ? H']; inversion H'; subst. eauto 10.
Qed.
Lemma lang_one_to_three s :
  lang false (Seq (Cls digit) (opt (Seq (Cls digit) (opt (Cls digit))))) s <-> digits s /\ (length s <= 3)%nat.
Proof.
  fold one_or_two. rewrite lang_seq. setoid_rewrite lang_opt. setoid_rewrite lang_dec.
  setoid_rewrite lang_one_or_two. split.
  - intros (s1 & s2 & -> & (c & -> & Hc) & [->|[[_ H] Hl]]); (split; [|cbn in *; lia]); split; try done; by constructor.
  - intros [[Hn H] Hl]. destruct s as [|c s]; [done|]. inversion H; subst. exists [c], s. split; [done|].
    split; [eauto|]. destruct s as [|d s]; [by left|right]. cbn in *. split; [by split|lia].
Qed.

Lemma lang_number_int s :
  lang false (opt (Alt (plus (Cls digit))
     (Seq (Seq (Cls digit) (opt (Seq (Cls digit) (opt (Cls digit))))) (plus (Seq (one 44) (times 3 (Cls digit))))))) s
  <-> number_int s.
Proof.
  rewrite lang_opt, lang_alt, lang_digits, lang_seq. setoid_rewrite lang_one_to_three. setoid_rewrite lang_groups. split.
  - intros [->|[H|(h & g & -> & [Hh Hl] & Hg)]]; [constructor|by constructor|by constructor].
  - intros [|s' H|h g Hh Hl Hg]; [by left|by right; left|right; right; eauto 10].
Qed.

Lemma number_spec s : number_test (Single (PStr s)) = true <->
  exists sg i f, s = sg ++ i ++ f /\ number_sign sg /\ number_int i /\ number_frac f.
Proof.
  unfold number_test, number_regex. cbn [value_text to_str seqs]. rewrite matches_lang, lang_seq.
  setoid_rewrite lang_seq. setoid_rewrite lang_number_int.
  assert (Hs : forall sg, lang false (opt (one 45)) sg <-> number_sign sg)
    by (intros sg; rewrite lang_opt, lang_unit; done).
  assert (Hf : forall f, lang false (opt (Seq (one 46) (plus (Cls digit)))) f <-> number_frac f).
  { intros f. rewrite lang_opt, lang_seq. setoid_rewrite lang_digits. setoid_rewrite (lang_unit false 46); [|done]. split.
    - intros [->|(s1 & s2 & -> & -> & H)]; [constructor|by apply NFDigits].
    - intros [|d H]; [by left|right]. by exists [46], d. }
  setoid_rewrite Hs. setoid_rewrite Hf. split.
  - intros (sg & r & -> & H1 & i & f & -> & H2 & H3). eauto 10.
  - intros (sg & i & f & -> & H1 & H2 & H3). eauto 10.
Qed.

(** ** What [Number] makes of them *)

Lemma digit_val_is_dec c : is_dec c = true -> digit_val c = c - 48 /\ (digit_val c <? 10) = true.
Proof. intros H. unfold is_dec in H. unfold digit_val. rewrite H. lia. Qed.

Lemma read_digits_app d r : Forall (fun c => is_dec c = true) d ->
  match r with [] => True | c :: _ => 10 <= digit_val c end ->
  forall acc len, exists acc', read_digits 10 (d ++ r) acc len = (acc', len + Z.of_nat (length d), r).
Proof.
  intros Hd Hr. induction Hd as [|c d Hc Hd IH]; intros acc len.
  - exists acc. rewrite Z.add_0_r. destruct r as [|c r]; [done|]. cbn. by rewrite (proj2 (Z.ltb_ge _ _)).
  - cbn [app read_digits]. rewrite (proj2 (digit_val_is_dec c Hc)).
    destruct (IH (acc * 10 + digit_val c) (len + 1)) as [acc' ->]. exists acc'. do 2 f_equal. cbn [length]. lia.
Qed.

(** A string that starts with a digit, a dot or a comma, the next unit being one of
    these or none, is read as a decimal number. *)
Definition plain (c : Z) : Prop := is_dec c = true \/ c = 46 \/ c = 44.
Lemma plain_space c : plain c -> is_space c = false.
Proof.
  intros H. assert (Hr : 44 <= c <= 57) by (destruct H as [H%is_dec_spec|[->| ->]]; lia).
  unfold is_space. apply orb_false_intro; [|lia]. apply bool_decide_eq_false.
  rewrite !elem_of_cons, elem_of_nil. lia.
Qed.
Lemma plain_no_space s : Forall plain s -> no_space s.
Proof. intros H. eapply Forall_impl; [exact H|apply plain_space]. Qed.

Lemma read_unsigned_plain s : Forall plain s -> read_unsigned s = read_decimal s.
Proof.
  intros H. unfold read_unsigned, js_eqb. case_bool_decide as E; [|done]. subst s. inversion H as [|? ? Hc]; subst.
  destruct Hc as [Hc%is_dec_spec|[Hc|Hc]]; lia.
Qed.

Lemma str_to_num_plain c s : Forall plain (c :: s) -> str_to_num (c :: s) = read_decimal (c :: s).
Proof.
  intros H. unfold str_to_num. rewrite trim_no_space by by apply plain_no_space.
  rewrite <- (read_unsigned_plain _ H). inversion H as [|? ? Hc Hs]; subst.
  assert (Hr : 44 <= c <= 57 /\ c <> 45) by (destruct Hc as [Hc%is_dec_spec|[->| ->]]; lia).
  assert (Hd : match s with [] => True | d :: _ => 44 <= d <= 57 end).
  { destruct Hs as [|d s Hd]; [done|]. destruct Hd as [Hd%is_dec_spec|[->| ->]]; lia. }
  destruct (decide (c = 48)) as [->|Hn].
  - destruct s as [|d s]; [done|].
    assert (Hin : In d (map Z.of_nat (seq 44 14))) by (apply in_map_iff; exists (Z.to_nat d); split; [lia|apply in_seq; lia]).
    cbn in Hin. repeat destruct Hin as [<-|Hin]; done.
  - assert (Hin : In c (map Z.of_nat (seq 44 14))) by (apply in_map_iff; exists (Z.to_nat c); split; [lia|apply in_seq; lia]).
    cbn in Hin. repeat destruct Hin as [<-|Hin]; try done; lia.
Qed.

Lemma digits_plain s : Forall (fun c => is_dec c = true) s -> Forall plain s.
Proof. intros H. eapply Forall_impl; [exact H|]. by left. Qed.
Lemma groups_plain s : groups s -> Forall plain s.
Proof.
  induction 1 as [a b c [_ H]|a b c s [_ H] _ IH]; (constructor; [by right; right|]); [by apply digits_plain|].
  change (Forall plain ([a; b; c] ++ s)). apply Forall_app. split; [by apply digits_plain|done].
Qed.
Lemma groups_comma s : groups s -> exists r, s = 44 :: r.
Proof. by destruct 1; eexists. Qed.
Lemma frac_plain f : number_frac f -> Forall plain f.
Proof. intros [|s [_ H]]; [constructor|]. constructor; [by right; left|by apply digits_plain]. Qed.
Lemma int_plain i : number_int i -> Forall plain i.
Proof.
  intros [|s [_ H]|h g [_ H] _ Hg]; [constructor|by apply digits_plain|].
  apply Forall_app. split; [by apply digits_plain|by apply groups_plain].
Qed.

Lemma read_decimal_plain i f : (i = [] \/ digits i) -> number_frac f -> i ++ f <> [] ->
  exists q, read_decimal (i ++ f) = Fin q.
Proof.
  intros Hi Hf Hn. assert (Hd : Forall (fun c => is_dec c = true) i) by (destruct Hi as [->|[_ H]]; [constructor|done]).
  unfold read_decimal. destruct Hf as [|d [Hdn Hd']].
  - destruct (read_digits_app i [] Hd Logic.I 0 0) as [v ->]. rewrite app_nil_r in Hn. destruct i as [|c i]; [done|].
    cbn [length]. rewrite (proj2 (Z.eqb_neq _ 0)) by lia. cbn. by eexists.
  - destruct (read_digits_app i (46 :: d) Hd ltac:(done) 0 0) as [v ->].
    destruct (read_digits_app d [] Hd' Logic.I v 0) as [w Hw]. rewrite app_nil_r in Hw. rewrite Hw.
    destruct d as [|c d]; [done|]. cbn [length]. rewrite (proj2 (Z.eqb_neq (0 + Z.of_nat (S (length d))) 0)) by lia.
    rewrite andb_false_r. by eexists.
Qed.

Lemma read_decimal_grouped h g f : digits h -> groups g -> read_decimal ((h ++ g) ++ f) = NaN.
Proof.
  intros [Hn Hd] Hg. destruct (groups_comma g Hg) as [r ->]. rewrite <- app_assoc. unfold read_decimal.
  destruct (read_digits_app h ((44 :: r) ++ f) Hd ltac:(done) 0 0) as [v ->]. cbn [app].
  destruct h as [|c h]; [done|]. cbn [length]. rewrite (proj2 (Z.eqb_neq _ 0)) by lia. done.
Qed.

(** The sign aside, a number is read as a decimal literal. *)
Lemma str_to_num_signed sg i f : number_sign sg -> number_int i -> number_frac f -> i ++ f <> [] ->
  str_to_num (sg ++ i ++ f) = (if decide (sg = []) then read_decimal (i ++ f) else num_neg (read_decimal (i ++ f))).
Proof.
  intros Hs Hi Hf Hn. assert (Hp : Forall plain (i ++ f)) by (apply Forall_app; split; [by apply int_plain|by apply frac_plain]).
  destruct Hs as [->| ->]; cbn [app decide].
  - rewrite decide_True by done. destruct (i ++ f); [done|by apply str_to_num_plain].
  - rewrite decide_False by done. unfold str_to_num. rewrite trim_no_space; [by rewrite read_unsigned_plain|].
    constructor; [done|by apply plain_no_space].
Qed.

(** The method number accepts an optional sign, an integer part with or without groups
    of three digits, and a fraction - all of them optional. A number without groups is
    one for the comparisons; one with groups is not, so that no bound accepts it. *)
Theorem number_accepts s : number_test (Single (PStr s)) = true ->
  exists sg i f, s = sg ++ i ++ f /\ number_sign sg /\ number_int i /\ number_frac f /\
    (i ++ f <> [] -> 44 ∉ s -> exists q, to_number (PStr s) = Fin q) /\
    (44 ∈ s -> forall b, min_test (Single (PStr s)) (RPrim (PNum b)) = false /\
                         max_test (Single (PStr s)) (RPrim (PNum b)) = false).
Proof.
  intros (sg & i & f & -> & Hs & Hi & Hf)%number_spec. exists sg, i, f. repeat (split; [done|]).
  assert (Hnc : forall l, Forall (fun c => is_dec c = true) l -> 44 ∉ l)
    by (intros l Hl Hin; rewrite Forall_forall in Hl; by specialize (Hl _ Hin)).
  assert (Hfc : 44 ∉ f) by (destruct Hf as [|d [_ Hd]]; [by apply not_elem_of_nil|];
    rewrite not_elem_of_cons; split; [done|by apply Hnc]).
  assert (Hsc : 44 ∉ sg) by (destruct Hs as [->| ->]; rewrite ?not_elem_of_cons; split_and?; auto using not_elem_of_nil).
  assert (Hcase : (i = [] \/ digits i) /\ 44 ∉ i \/ exists h g, i = h ++ g /\ digits h /\ groups g).
  { destruct Hi as [|d Hd|h g Hh _ Hg]; [left; split; [by left|apply not_elem_of_nil]|left; split; [by right|apply Hnc, Hd]|right; eauto]. }
  cbn [to_number]. split.
  - intros Hn Hc. rewrite str_to_num_signed by done. rewrite !elem_of_app in Hc.
    destruct Hcase as [[Hi' _]|(h & g & -> & _ & Hg)].
    + destruct (read_decimal_plain i f Hi' Hf Hn) as [q ->]. case_decide; by eexists.
    + destruct Hc. right; left. rewrite elem_of_app. right. destruct (groups_comma g Hg) as [r ->]. by left.
  - intros Hc b. rewrite !elem_of_app in Hc. destruct Hcase as [[_ Hi']|(h & g & -> & Hh & Hg)]; [tauto|].
    assert (HN : str_to_num (sg ++ (h ++ g) ++ f) = NaN).
    { rewrite str_to_num_signed; [|done|done|done|destruct Hh as [Hh _]; destruct h; [by destruct Hh|done]].
      rewrite read_decimal_grouped by done. by case_decide. }
    unfold min_test, max_test, js_le. cbn [rparam_prim value_prim to_number]. rewrite HN. split; [by destruct b|done].
Qed.
Lemma number_accepts_witness :
  let s := u "-1,234.5" in exists sg i f, s = sg ++ i ++ f /\ number_sign sg /\ number_int i /\ number_frac f /\
    (i ++ f <> [] -> 44 ∉ s -> exists q, to_number (PStr s) = Fin q) /\
    (44 ∈ s -> forall b, min_test (Single (PStr s)) (RPrim (PNum b)) = false /\
                         max_test (Single (PStr s)) (RPrim (PNum b)) = false).
Proof. apply (number_accepts (u "-1,234.5")). vm_compute. reflexivity. Defined.

(** A sign alone passes for a number, and so does a card number without any digit. *)
Lemma empty_numbers :
  number_test (Single (PStr (u "-"))) = true /\ to_number (PStr (u "-")) = NaN /\ creditcard_test (u "- -") = true.
Proof. vm_compute. auto. Qed.

(** ** Dates and addresses *)

(** The method dateISO looks at the shape only: four digits, and one or two digits
    twice, after a slash or a dash. *)
Theorem dateISO_shape s : dateISO_test (Single (PStr s)) = true <->
  exists y a m b d, s = y ++ a :: m ++ b :: d /\ digits y /\ length y = 4%nat /\
    digits m /\ (length m <= 2)%nat /\ digits d /\ (length d <= 2)%nat /\
    (a = 47 \/ a = 45) /\ (b = 47 \/ b = 45).
Proof.
  unfold dateISO_test, dateISO_regex. cbn [value_text to_str seqs]. rewrite matches_lang, lang_seq.
  setoid_rewrite (lang_seq false (Cls [(47, 47); (45, 45)])). setoid_rewrite (lang_seq false one_or_two).
  setoid_rewrite (lang_seq false (Cls [(47, 47); (45, 45)])). setoid_rewrite lang_one_or_two.
  setoid_rewrite (lang_times_cls false digit 4).
  assert (Hsep : forall s, lang false (Cls [(47, 47); (45, 45)]) s <-> s = [47] \/ s = [45]).
  { intros t. rewrite lang_cls. unfold in_class, in_ranges. cbn [existsb]. split.
    - intros (c & -> & H). assert (c = 47 \/ c = 45) as [->| ->] by lia; auto.
    - intros [->| ->]; eauto. }
  setoid_rewrite Hsep. split.
  - intros (y & r1 & -> & [Hly Hy%Forall_digit] & a & r2 & -> & Ha & m & r3 & -> & [Hm Hlm] & b & d & -> & Hb & Hd & Hld).
    assert (Hyd : digits y) by (split; [by destruct y|done]).
    destruct Ha as [->| ->], Hb as [->| ->]; eexists y, _, m, _, d; eauto 20.
  - intros (y & a & m & b & d & -> & [_ Hy] & Hly & Hm & Hlm & Hd & Hld & Ha & Hb).
    exists y, (a :: m ++ b :: d). split; [done|]. split; [by rewrite Forall_digit|].
    exists [a], (m ++ b :: d). split; [done|]. split; [by destruct Ha as [->| ->]; auto|].
    exists m, (b :: d). repeat split; try done; try apply Hm. exists [b], d. split; [done|]. destruct Hb as [->| ->]; auto.
Qed.

(** The units of a literal of lower-case letters and signs, read without case. *)
Definition lower_literal (w : jstr) : bool := forallb (fun c => ((97 <=? c) && (c <=? 122)) || (c <? 65)) w.
Lemma lang_literal_lower w s : lower_literal w = true -> lang true (literal w) s -> to_lower s = w.
Proof.
  assert (Hone : forall c t, 97 <= c <= 122 \/ c < 65 -> lang true (one c) t -> to_lower t = [c]).
  { intros c t Hc (d & -> & Hd)%lang_cls. unfold in_class, in_ranges in Hd. cbn [existsb andb] in Hd.
    unfold other_case in Hd. unfold to_lower. cbn [map]. f_equal. repeat case_match; lia. }
  revert s. induction w as [|c w IH]; intros s Hw H; [by apply lang_eps in H as ->|].
  apply andb_true_iff in Hw as [Hc Hw]. assert (Hc' : 97 <= c <= 122 \/ c < 65) by lia.
  destruct w as [|d w]; [by apply Hone|].
  change (literal (c :: d :: w)) with (Seq (one c) (literal (d :: w))) in H.
  apply lang_seq in H as (s1 & s2 & -> & H1 & H2). unfold to_lower in *. rewrite map_app.
  by rewrite (Hone c s1 Hc' H1), (IH s2 Hw H2).
Qed.

Definition schemes : list jstr := [u "http"; u "https"; u "ftp"; u "sftp"].
Lemma lang_scheme s : lang true scheme s -> In (to_lower s) schemes.
Proof.
  unfold scheme. rewrite lang_alt, !lang_seq. setoid_rewrite lang_opt.
  assert (Hl : forall w t, lower_literal w = true -> lang true (literal w) t -> to_lower t = w) by (intros; by apply lang_literal_lower).
  intros [(s1 & s2 & -> & H1%Hl & H2)|(s1 & s2 & -> & H1 & H2%Hl)]; try done; unfold to_lower in *; rewrite map_app.
  - rewrite H1. destruct H2 as [->|H2]; [by left|]. rewrite (Hl [115] s2 eq_refl H2). by right; left.
  - rewrite H2. destruct H1 as [->|H1]; [by right; right; left|]. rewrite (Hl [115] s1 eq_refl H1). by right; right; right; left.
Qed.

(** Units that end an attribute or start an element, and blanks and controls. *)
Definition unsafe_units : list Z := map Z.of_nat (seq 0 33) ++ [34; 60; 62; 92; 94; 96; 123; 124; 125; 127].

(** An address that the method url accepts starts with one of four schemes, so not with
    a script, and has no blank, quote, angle bracket or backslash in it. *)
Theorem url_is_web_address s : url_test (Single (PStr s)) = true ->
  (exists sch rest, s = sch ++ u "://" ++ rest /\ In (to_lower sch) schemes) /\
  Forall (fun c => ~ In c unsafe_units) s.
Proof.
  intros H%matches_lang. cbn [value_text to_str] in H. split.
  - apply lang_seq in H as (sch & r & -> & Hs%lang_scheme & H).
    apply lang_seq in H as (sep & rest & -> & Hsep & _). exists sch, rest. split; [|done]. do 2 f_equal.
    apply lang_literal_lower in Hsep; [|reflexivity]. change (u "://") with [58; 47; 47] in *.
    destruct sep as [|a [|b [|c [|]]]]; try done. unfold to_lower in Hsep. cbn [map] in Hsep. injection Hsep as E1 E2 E3.
    repeat f_equal; repeat case_match; lia.
  - eapply Forall_impl; [exact (lang_reads _ _ _ H)|]. intros c Hc Hin. revert c Hin Hc.
    assert (Hall : forallb (fun c => negb (reads true url_regex c)) unsafe_units = true) by (vm_compute; reflexivity).
    rewrite forallb_forall in Hall. intros c Hin Hc. specialize (Hall c Hin). by rewrite Hc in Hall.
Qed.
Lemma url_is_web_address_witness : let s := u "HTTP://a.example.com/x?y=1#z" in
  (exists sch rest, s = sch ++ u "://" ++ rest /\ In (to_lower sch) schemes) /\ Forall (fun c => ~ In c unsafe_units) s.
Proof. apply (url_is_web_address (u "HTTP://a.example.com/x?y=1#z")). vm_compute. reflexivity. Defined.
