(* ===== verification/ValidRules.v ===== *)
(** * [html/resource/js/jquery.validate.js]: which rules a field has

    Rules come from the classes of a field, its attributes, its data attributes and the
    settings, the later ones win; [normalizeRules] then settles dependencies and converts
    parameters. A rule set is a list in the order in which the object is enumerated. *)

From Stdlib Require Import ZArith Lia.
From stdpp Require Import base tactics list numbers strings.
From S2P Require Import Prelude JsValue Md5 ValidPage ValidMethods.
Local Open Scope Z_scope.

Definition rules := list (jstr * rparam).
Definition rtrue : rparam := RPrim (PBool true).

(** The methods of the plugin, and those that the user adds. *)
Inductive meth :=
  | Required | Email | Url | Date | DateISO | Number | Digits | CreditCard
  | MinLength | MaxLength | RangeLength | Min | Max | Range | EqualTo | Remote
  | UserMethod (id : nat).

(** ** Strings of rules *)

(** [s.split(/\s/)] and [s.split(/[\s,]+/)] *)
Fixpoint split_where (sep : Z -> bool) (s : jstr) : list jstr :=
  match s with
  | [] => [[]]
  | c :: s' => if sep c then [] :: split_where sep s'
               else match split_where sep s' with [] => [[c]] | w :: ws => (c :: w) :: ws end
  end.
Fixpoint split_runs (sep : Z -> bool) (after : bool) (s : jstr) : list jstr :=
  match s with
  | [] => [[]]
  | c :: s' =>
      if sep c then (if after then split_runs sep true s' else [] :: split_runs sep true s')
      else match split_runs sep false s' with [] => [[c]] | w :: ws => (c :: w) :: ws end
  end.

(** The rules of a setting: a string of names, or an object. *)
Inductive ruledata := RuleString (s : jstr) | RuleObject (l : rules).
Definition normalizeRule (data : ruledata) : rules :=
  match data with
  | RuleString s => fold_left (fun t w => assoc_set w rtrue t) (split_where is_space s) []
  | RuleObject l => l
  end.

(** ** The registry of methods, messages and class rules *)

Inductive message := MsgText (p : prim) | MsgFormat (source : jstr) | MsgFun (f : nat).
#[export] Instance message_eq_dec : EqDecision message.
Proof. solve_decision. Defined.
Record registry := Registry {
  methods : list (jstr * meth);
  default_messages : list (jstr * message);
  classRuleSettings : list (jstr * rules);
  autoCreateRanges : bool
}.

Definition methods0 : list (jstr * meth) :=
  [(u "required", Required); (u "email", Email); (u "url", Url); (u "date", Date); (u "dateISO", DateISO);
   (u "number", Number); (u "digits", Digits); (u "creditcard", CreditCard); (u "minlength", MinLength);
   (u "maxlength", MaxLength); (u "rangelength", RangeLength); (u "min", Min); (u "max", Max);
   (u "range", Range); (u "equalTo", EqualTo); (u "remote", Remote)].
Definition messages0 : list (jstr * message) :=
  map (fun '(k, s) => (k, MsgText (PStr s)))
    [(u "required", u "This field is required."); (u "remote", u "Please fix this field.");
     (u "email", u "Please enter a valid email address."); (u "url", u "Please enter a valid URL.");
     (u "date", u "Please enter a valid date."); (u "dateISO", u "Please enter a valid date (ISO).");
     (u "number", u "Please enter a valid number."); (u "digits", u "Please enter only digits.");
     (u "creditcard", u "Please enter a valid credit card number.");
     (u "equalTo", u "Please enter the same value again.")]
  ++ map (fun '(k, s) => (k, MsgFormat s))
    [(u "maxlength", u "Please enter no more than {0} characters.");
     (u "minlength", u "Please enter at least {0} characters.");
     (u "rangelength", u "Please enter a value between {0} and {1} characters long.");
     (u "range", u "Please enter a value between {0} and {1}.");
     (u "max", u "Please enter a value less than or equal to {0}.");
     (u "min", u "Please enter a value greater than or equal to {0}.")].
Definition class_rules0 : list (jstr * rules) :=
  map (fun k => (k, [(k, rtrue)]))
    [u "required"; u "email"; u "url"; u "date"; u "dateISO"; u "number"; u "digits"; u "creditcard"].
Definition registry0 : registry := Registry methods0 messages0 class_rules0 false.

(** [addClassRules] with one class or an object of them *)
Definition addClassRules (R : registry) (l : list (jstr * rules)) : registry :=
  Registry (methods R) (default_messages R) (extend (classRuleSettings R) l) (autoCreateRanges R).
(** [addMethod(name, method, message)]; [arity] is [method.length]. *)
Definition addMethod (R : registry) (n : jstr) (m : meth) (arity : Z) (msg : option message) : registry :=
  let messages := match msg with
                  | Some msg => assoc_set n msg (default_messages R)
                  | None => default_messages R
                  end in
  let R := Registry (assoc_set n m (methods R)) messages (classRuleSettings R) (autoCreateRanges R) in
  if arity <? 3 then addClassRules R [(n, normalizeRule (RuleString n))] else R.

(** ** The four sources of rules *)

(** [$.extend] leaves undefined values out. *)
Definition extend_rules (target source : rules) : rules :=
  fold_left (fun t p => if decide (p.2 = RPrim PUndef) then t else assoc_set p.1 p.2 t) source target.

Definition classRules (R : registry) (f : field) : rules :=
  fold_left (fun t c => match assoc c (classRuleSettings R) with Some l => extend_rules t l | None => t end)
    (classes f) [].

(** The value of an attribute as a rule parameter: a number for the bounds of fields
    with a number or a text. *)
Definition attribute_value (f : field) (m : jstr) : prim :=
  let type := getAttribute f (u "type") in
  let v := if js_eqb m (u "required")
           then PBool (match getAttribute f m with Some _ => true | None => false end)
           else match getAttribute f m with Some s => PStr s | None => PUndef end in
  if (contains m (u "min") || contains m (u "max")) &&
     match type with
     | None => true
     | Some t => contains t (u "number") || contains t (u "range") || contains t (u "text")
     end
  then PNum (to_number v) else v.
Definition attribute_rule (f : field) (m : jstr) (t : rules) : rules :=
  let v := attribute_value f m in
  if truthy v then assoc_set m (RPrim v) t
  else if bool_decide (getAttribute f (u "type") = Some m) && negb (js_eqb m (u "range"))
  then assoc_set m rtrue t else t.
(** Lengths that browsers report for a field without the attribute. *)
Definition no_maxlength (r : rparam) : bool :=
  let s := value_text (Single (rparam_prim r)) in
  contains s (u "-1") || contains s (u "2147483647") || contains s (u "524288").
Definition attributeRules (R : registry) (f : field) : rules :=
  let t := fold_left (fun t m => attribute_rule f m.1 t) (methods R) [] in
  match assoc (u "maxlength") t with
  | Some r => if rtruthy r && no_maxlength r then assoc_delete (u "maxlength") t else t
  | None => t
  end.

Section OfPage.
Context {W : Page} (R : registry).

Definition dataRules (k : nat) : rules :=
  fold_left (fun t m => match data_rule k (to_lower m.1) with
                        | Some v => if decide (v = RPrim PUndef) then t else assoc_set m.1 v t
                        | None => t
                        end) (methods R) [].

(** The settings: the rules of a field by its name, normalised by [init]. *)
Definition staticRules (statics : list (jstr * rules)) (f : field) : rules := default [] (assoc (name f) statics).

(** ** Normalising *)

(** Dependencies: a rule that is false or whose dependency fails goes. [None]: the
    parameter is null or undefined and the access to its members throws. *)
Definition settle (p : page) (k : nat) (val : rparam) : option (option rparam) :=
  match val with
  | RPrim (PBool false) => Some None
  | RPrim (PUndef | PNull) => None
  | RDep param depends =>
      if truthy param || match depends with DNone => false | DSel s => negb (bool_decide (s = [])) | DFun _ => true | DOther b => b end
      then
        let keepRule := match depends with
                        | DSel s => in_form_selector p s
                        | DFun g => rtruthy (call_rule g p k)
                        | _ => true
                        end in
        Some (if keepRule then Some (if decide (param = PUndef) then rtrue else RPrim param) else None)
      else Some (Some val)
  | _ => Some (Some val)
  end.
Fixpoint settle_all (p : page) (k : nat) (l : rules) : option rules :=
  match l with
  | [] => Some []
  | (m, val) :: l =>
      match settle p k val, settle_all p k l with
      | Some (Some v), Some l => Some ((m, v) :: l)
      | Some None, Some l => Some l
      | _, _ => None
      end
  end.

(** Change the parameter of a rule that is there. *)
Definition update_rule (m : jstr) (g : rparam -> rparam) (l : rules) : rules :=
  map (fun q => if js_eqb q.1 m then (q.1, g q.2) else q) l.
Definition clean_number (r : rparam) : rparam :=
  if rtruthy r then RPrim (PNum (to_number (rparam_prim r))) else r.
Definition clean_range (r : rparam) : rparam :=
  match r with
  | RArr l => RArr [PNum (to_number (rparam_at r 0)); PNum (to_number (rparam_at r 1))]
  | RPrim (PStr s) =>
      if truthy (PStr s) then
        let parts := split_runs (fun c => is_space c || (c =? 44)) false s in
        let part i := match parts !! i with Some w => PStr w | None => PUndef end in
        RArr [PNum (to_number (part 0%nat)); PNum (to_number (part 1%nat))]
      else r
  | _ => r
  end.
Definition merge_range (lo hi range : jstr) (l : rules) : rules :=
  match assoc lo l, assoc hi l with
  | Some a, Some b =>
      if rtruthy a && rtruthy b
      then assoc_delete hi (assoc_delete lo (assoc_set range (RArr [rparam_prim a; rparam_prim b]) l))
      else l
  | _, _ => l
  end.
Definition normalizeRules (p : page) (k : nat) (l : rules) : option rules :=
  match settle_all p k l with
  | None => None
  | Some l =>
      let l := map (fun q => (q.1, match q.2 with RFun g => call_rule g p k | r => r end)) l in
      let l := update_rule (u "maxlength") clean_number (update_rule (u "minlength") clean_number l) in
      let l := update_rule (u "range") clean_range (update_rule (u "rangelength") clean_range l) in
      Some (if autoCreateRanges R
            then merge_range (u "minlength") (u "maxlength") (u "rangelength")
                   (merge_range (u "min") (u "max") (u "range") l)
            else l)
  end.

(** [$(element).rules()]: the rule required comes first. *)
Definition required_first (l : rules) : rules :=
  match assoc (u "required") l with
  | Some r => if rtruthy r then (u "required", r) :: assoc_delete (u "required") l else l
  | None => l
  end.
Definition all_rules (statics : list (jstr * rules)) (k : nat) (f : field) : rules :=
  extend_rules (extend_rules (extend_rules (extend_rules [] (classRules R f)) (attributeRules R f)) (dataRules k))
    (staticRules statics f).
Definition field_rules (statics : list (jstr * rules)) (p : page) (k : nat) : option rules :=
  match p !! k with
  | Some f => option_map required_first (normalizeRules p k (all_rules statics k f))
  | None => None
  end.

(** [$(element).rules("add", argument)] and [("remove", argument)] on the settings. *)
Definition rules_add (statics : list (jstr * rules)) (f : field) (argument : ruledata) : list (jstr * rules) :=
  assoc_set (name f)
    (assoc_delete (u "messages") (extend_rules (staticRules statics f) (normalizeRule argument))) statics.
Definition rules_remove (statics : list (jstr * rules)) (f : field) (argument : option jstr) : list (jstr * rules) :=
  match argument with
  | None | Some [] => assoc_delete (name f) statics
  | Some s =>
      match assoc (name f) statics with
      | Some l => assoc_set (name f) (fold_left (fun l m => assoc_delete m l) (split_where is_space s) l) statics
      | None => statics
      end
  end.
End OfPage.

(** ** Examples *)

Definition plain_page : Page := {|
  in_form_selector _ _ := true; selector _ _ := []; call_rule _ _ _ := rtrue; call_message _ _ := PStr [];
  user_method _ _ _ _ _ := Verdict true; ignored _ _ := false; visible _ _ := true; date_string_ok _ := true;
  data_rule _ _ := None; data_msg _ _ := None; field_text _ := u "[object HTMLInputElement]"
|}.

Example field_rules_ex :
  let f := Field (u "INPUT") (u "text") [(u "type", u "text"); (u "name", u "n"); (u "min", u "3"); (u "max", u "0");
    (u "maxlength", u "524288"); (u "required", [])] (u "n") [] [] [u "email"; u "x"] [] false [] true in
  field_rules (W := plain_page) registry0 [(u "n", [(u "rangelength", RPrim (PStr (u "2, 5"))); (u "email", RPrim (PBool false));
    (u "minlength", RDep (PStr (u "4")) DNone)])] [f] 0
  = Some [(u "required", rtrue); (u "min", RPrim (PNum (of_Z 3)));
      (u "rangelength", RArr [PNum (of_Z 2); PNum (of_Z 5)]); (u "minlength", RPrim (PNum (of_Z 4)))].
Proof. vm_compute. reflexivity. Qed.
Example normalizeRule_ex : normalizeRule (RuleString (u "required email")) = [(u "required", rtrue); (u "email", rtrue)].
Proof. vm_compute. reflexivity. Qed.
