(* ===== verification/ValidRulesProps.v ===== *)
(** * Properties of the rule sets: which source wins, and the shape of the parameters *)

From Stdlib Require Import ZArith Lia.
From stdpp Require Import base tactics list numbers strings.
From S2P Require Import Prelude JsValue Md5 ValidPage ValidMethods ValidRules.
Local Open Scope Z_scope.

(** ** [$.extend] *)

(** [$.extend]: the source wins where it is defined. *)
Lemma assoc_extend m t s : NoDup (map fst s) ->
  assoc m (extend_rules t s) = match assoc m s with
                               | Some v => if decide (v = RPrim PUndef) then assoc m t else Some v
                               | None => assoc m t
                               end.
Proof.
  unfold extend_rules. revert t. induction s as [|[k v] s IH]; intros t; [done|]. cbn [fold_left map fst].
  intros [Hk Hs]%NoDup_cons. rewrite IH by done. cbn [assoc fst snd]. destruct (js_eqb m k) eqn:E.
  - apply js_eqb_true in E as ->. rewrite (assoc_none k s Hk). case_decide; [done|].
    rewrite assoc_assoc_set. by rewrite decide_True.
  - assert (m <> k) by (intros ->; by rewrite js_eqb_refl in E).
    assert (Ht : assoc m (if decide (v = RPrim PUndef) then t else assoc_set k v t) = assoc m t)
      by (case_decide; [done|]; rewrite assoc_assoc_set; by rewrite decide_False).
    by rewrite Ht.
Qed.
Lemma NoDup_extend t s : NoDup (map fst t) -> NoDup (map fst (extend_rules t s)).
Proof.
  unfold extend_rules. revert t. induction s as [|[k v] s IH]; intros t Ht; [done|]. cbn [fold_left fst snd].
  apply IH. case_decide; [done|by apply NoDup_assoc_set].
Qed.
(** ** The sources *)

Lemma NoDup_fold {A} (h : rules -> A -> rules) l : (forall t x, NoDup (map fst t) -> NoDup (map fst (h t x))) ->
  forall t, NoDup (map fst t) -> NoDup (map fst (fold_left h l t)).
Proof. intros H. induction l as [|x l IH]; intros t Ht; [done|]. cbn. auto. Qed.
Lemma NoDup_classRules R f : NoDup (map fst (classRules R f)).
Proof. apply NoDup_fold; [|constructor]. intros t c Ht. destruct (assoc c _); [by apply NoDup_extend|done]. Qed.
Lemma NoDup_attributeRules R f : NoDup (map fst (attributeRules R f)).
Proof.
  unfold attributeRules. set (t := fold_left _ _ _).
  assert (Ht : NoDup (map fst t)).
  { apply NoDup_fold; [|constructor]. intros t0 m Ht. unfold attribute_rule. repeat case_match; try done; by apply NoDup_assoc_set. }
  destruct (assoc _ t); [|done]. destruct (_ && _); [|done]. by apply NoDup_keys_filter.
Qed.
Lemma NoDup_dataRules {W : Page} R k : NoDup (map fst (dataRules R k)).
Proof. apply NoDup_fold; [|constructor]. intros t m Ht. repeat case_match; try done; by apply NoDup_assoc_set. Qed.

Definition defined (r : option rparam) : option rparam :=
  match r with Some v => if decide (v = RPrim PUndef) then None else Some v | None => None end.
Definition or_else (a b : option rparam) : option rparam := match a with Some _ => a | None => b end.

(** C25. A rule of the settings wins over the data attribute of the same name, this over the
    attribute, and this over the class; and no rule is there twice. *)
Theorem rules_precedence {W : Page} R statics k f m : NoDup (map fst (staticRules statics f)) ->
  assoc m (all_rules R statics k f) =
    or_else (defined (assoc m (staticRules statics f)))
      (or_else (defined (assoc m (dataRules R k)))
        (or_else (defined (assoc m (attributeRules R f))) (defined (assoc m (classRules R f))))) /\
  NoDup (map fst (all_rules R statics k f)).
Proof.
  intros Hs. unfold all_rules. split; [|repeat apply NoDup_extend; constructor].
  rewrite !assoc_extend by eauto using NoDup_classRules, NoDup_attributeRules, NoDup_dataRules.
  unfold defined, or_else. cbn [assoc]. repeat case_match; done.
Qed.
Lemma rules_precedence_witness :
  let f := Field (u "INPUT") (u "text") [(u "min", u "3"); (u "name", u "n")] (u "n") [] [] [u "digits"] [] false [] true in
  let st := [(u "n", [(u "min", RPrim (PNum (of_Z 5)))])] in let W := plain_page in
  assoc (u "min") (all_rules registry0 st 0 f) =
    or_else (defined (assoc (u "min") (staticRules st f)))
      (or_else (defined (assoc (u "min") (dataRules registry0 0)))
        (or_else (defined (assoc (u "min") (attributeRules registry0 f))) (defined (assoc (u "min") (classRules registry0 f))))) /\
  NoDup (map fst (all_rules registry0 st 0 f)).
Proof.
  intros f st W. apply (rules_precedence (W := W) registry0 st 0 f (u "min")).
  change (NoDup [u "min"]). apply NoDup_singleton.
Defined.

(** ** Attributes *)

Definition attr_param (f : field) (m : jstr) : option rparam :=
  let v := attribute_value f m in
  if truthy v then Some (RPrim v)
  else if bool_decide (getAttribute f (u "type") = Some m) && negb (js_eqb m (u "range")) then Some rtrue else None.
Lemma attribute_rule_param f m t : attribute_rule f m t = match attr_param f m with Some r => assoc_set m r t | None => t end.
Proof. unfold attribute_rule, attr_param. by repeat case_match. Qed.

Lemma attribute_rules_fold f m (ms : list (jstr * meth)) : forall t, NoDup (map fst ms) ->
  assoc m (fold_left (fun t q => attribute_rule f q.1 t) ms t) =
  if decide (m ∈ map fst ms) then or_else (attr_param f m) (assoc m t) else assoc m t.
Proof.
  induction ms as [|q ms IH]; intros t Hd; [done|]. cbn [map] in *. apply NoDup_cons in Hd as [Hq Hd]. cbn [fold_left].
  rewrite IH by done.
  assert (E : assoc m (attribute_rule f q.1 t) = if decide (m = q.1) then or_else (attr_param f m) (assoc m t) else assoc m t).
  { rewrite attribute_rule_param. destruct (decide (m = q.1)) as [->|Hm]; destruct (attr_param f q.1) as [r|]; try done;
      rewrite assoc_assoc_set; [by rewrite decide_True|by rewrite decide_False]. }
  rewrite E. clear E. destruct (decide (m = q.1)) as [->|Hne].
  - rewrite decide_False by done. by rewrite decide_True by by left.
  - destruct (decide (m ∈ map fst ms)) as [H1|H1], (decide (m ∈ q.1 :: map fst ms)) as [H2|H2]; try done.
    + destruct H2. by right.
    + by apply elem_of_cons in H2 as [?|?].
Qed.

Lemma assoc_delete_other {A} m n (l : list (jstr * A)) : m <> n -> assoc m (assoc_delete n l) = assoc m l.
Proof.
  intros H. induction l as [|[k x] l IH]; [done|]. unfold assoc_delete in *. rewrite filter_cons. cbn [fst].
  case_decide as Hk; cbn [assoc]; rewrite IH; [done|]. assert (n = k) as <- by (destruct (decide (n = k)); tauto).
  by rewrite js_eqb_ne.
Qed.

(** The bounds that the attributes of a text or number field give: numbers, and none when
    the attribute is zero or no number. So a lower or upper bound of zero is ignored. *)
Theorem attribute_bounds R f m s : NoDup (map fst (methods R)) -> m ∈ map fst (methods R) ->
  In m [u "min"; u "max"; u "minlength"] -> getAttribute f m = Some s ->
  match getAttribute f (u "type") with None => True | Some t => In t [u "text"; u "number"; u "range"] end ->
  assoc m (attributeRules R f) =
    (if is_NaN (str_to_num s) || num_eqb (str_to_num s) (of_Z 0) then None else Some (RPrim (PNum (str_to_num s)))).
Proof.
  intros Hd Hin Hm Hs Ht.
  assert (Hrule : assoc m (fold_left (fun t q => attribute_rule f q.1 t) (methods R) []) = attr_param f m)
    by (rewrite attribute_rules_fold by done; rewrite decide_True by done; cbn; by destruct (attr_param f m)).
  assert (Hne : m <> u "maxlength" /\ js_eqb m (u "required") = false /\ contains m (u "min") || contains m (u "max") = true)
    by (repeat destruct Hm as [<-|Hm]; [vm_compute; repeat split; discriminate..|done]).
  destruct Hne as (Hne & Hreq & Hcon).
  assert (Hfin : assoc m (attributeRules R f) = attr_param f m).
  { rewrite <- Hrule. unfold attributeRules. destruct (assoc (u "maxlength") _); [|done].
    destruct (_ && _); [by apply assoc_delete_other|done]. }
  rewrite Hfin. unfold attr_param, attribute_value. rewrite Hreq, Hcon, Hs. cbn [andb].
  assert (Htype : (match getAttribute f (u "type") with
                   | Some t => contains t (u "number") || contains t (u "range") || contains t (u "text")
                   | None => true end) = true /\ getAttribute f (u "type") <> Some m).
  { destruct (getAttribute f (u "type")) as [t|]; [|done].
    repeat destruct Ht as [<-|Ht]; try done; (split; [reflexivity|]); intros [= <-];
      repeat destruct Hm as [E|Hm]; try done; vm_compute in E; discriminate E. }
  destruct Htype as [-> Hty]. rewrite bool_decide_eq_false_2 by done. cbn [andb truthy to_number].
  by destruct (is_NaN _ || _).
Qed.
Lemma attribute_bounds_witness :
  let f := Field (u "INPUT") (u "number") [(u "type", u "number"); (u "min", u "0")] (u "n") [] [] [] (u "-5") false [] true in
  assoc (u "min") (attributeRules registry0 f) =
    (if is_NaN (str_to_num (u "0")) || num_eqb (str_to_num (u "0")) (of_Z 0) then None else Some (RPrim (PNum (str_to_num (u "0"))))).
Proof.
  intros f. apply (attribute_bounds registry0 f (u "min") (u "0")).
  - apply (bool_decide_eq_true_1 (NoDup (map fst (methods registry0)))). vm_compute. reflexivity.
  - apply (bool_decide_eq_true_1 (u "min" ∈ map fst (methods registry0))). vm_compute. reflexivity.
  - by left.
  - reflexivity.
  - right. by left.
Defined.

(** ** The rules after normalising *)

Lemma keys_update m g l : map fst (update_rule m g l) = map fst l.
Proof. unfold update_rule. rewrite map_map. apply map_ext. intros [k r]. by destruct (js_eqb _ _). Qed.
Lemma assoc_update m n g (l : rules) : assoc m (update_rule n g l) = if decide (m = n) then option_map g (assoc m l) else assoc m l.
Proof.
  induction l as [|[k r] l IH]; [by case_decide|]. cbn. destruct (js_eqb k n) eqn:E; cbn [assoc].
  - apply js_eqb_true in E as ->. destruct (decide (m = n)) as [->|Hm].
    + by rewrite js_eqb_refl.
    + rewrite js_eqb_ne by done. exact IH.
  - destruct (js_eqb m k) eqn:Em.
    + apply js_eqb_true in Em as ->. rewrite decide_False; [done|]. intros ->. by rewrite js_eqb_refl in E.
    + exact IH.
Qed.

Lemma NoDup_settle {W : Page} p k l l' : settle_all p k l = Some l' -> NoDup (map fst l) ->
  NoDup (map fst l') /\ forall m, m ∈ map fst l' -> m ∈ map fst l.
Proof.
  revert l'. induction l as [|[m v] l IH]; cbn [settle_all map]; intros l'; [by intros [= <-]|].
  destruct (settle p k v) as [[w|]|]; try done; destruct (settle_all p k l) as [l1|]; try done; intros [= <-];
    intros [H1 H2]%NoDup_cons; destruct (IH l1 eq_refl H2) as [H3 H4].
  - cbn [map]. split; [apply NoDup_cons; split; [|done]; auto|]. intros n [->|Hn]%elem_of_cons; [by left|right; auto].
  - split; [done|]. intros n Hn. right. auto.
Qed.

Lemma assoc_required_first m (l : rules) : NoDup (map fst l) -> assoc m (required_first l) = assoc m l.
Proof.
  intros Hd. unfold required_first. destruct (assoc (u "required") l) as [r|] eqn:E; [|done].
  destruct (rtruthy r); [|done]. cbn [assoc]. destruct (js_eqb m (u "required")) eqn:Em.
  - apply js_eqb_true in Em as ->. by rewrite E.
  - apply assoc_delete_other. intros ->. by rewrite js_eqb_refl in Em.
Qed.
Lemma NoDup_required_first (l : rules) : NoDup (map fst l) -> NoDup (map fst (required_first l)).
Proof.
  intros H. unfold required_first. destruct (assoc _ l); [|done]. destruct (rtruthy _); [|done]. cbn [map].
  apply NoDup_cons. split; [|by apply NoDup_keys_filter].
  intros Hin. apply list_elem_of_In, in_map_iff in Hin as (q & E & Hq). cbn in E.
  apply list_elem_of_In, list_elem_of_filter in Hq as [Hq _]. by rewrite E in Hq.
Qed.

(** Lengths are numbers, ranges are pairs of numbers. *)
Definition number_param (r : rparam) : Prop := rtruthy r = true -> exists n, r = RPrim (PNum n).
Definition range_param (r : rparam) : Prop :=
  match r with
  | RArr l => exists a b, l = [PNum a; PNum b]
  | RPrim (PStr s) => s = []
  | _ => True
  end.
Lemma clean_number_param r : number_param (clean_number r).
Proof. unfold number_param, clean_number. destruct (rtruthy r) eqn:E; [eauto|by rewrite E]. Qed.
Lemma clean_range_param r : range_param (clean_range r).
Proof.
  destruct r as [[| | |n|s]|l|g|q d|i]; cbn; try done; [|by eauto].
  destruct s as [|c s]; [done|]. cbn [truthy bool_decide]. rewrite bool_decide_eq_false_2 by done. cbn. eauto.
Qed.

Lemma assoc_delete_self {A} m (l : list (jstr * A)) : assoc m (assoc_delete m l) = None.
Proof. apply assoc_none. intros Hin. apply list_elem_of_In, in_map_iff in Hin as (q & E & Hq). apply list_elem_of_In, list_elem_of_filter in Hq as [Hq _]. by destruct Hq. Qed.
(** Two rules become one: any other is as it was. *)
Lemma merge_range_spec lo hi range l : NoDup (map fst l) -> NoDup (map fst (merge_range lo hi range l)) /\
  forall m r, assoc m (merge_range lo hi range l) = Some r -> assoc m l = Some r \/
    m = range /\ exists a b, assoc lo l = Some a /\ assoc hi l = Some b /\ rtruthy a = true /\ rtruthy b = true /\
      r = RArr [rparam_prim a; rparam_prim b].
Proof.
  intros Hd. unfold merge_range. destruct (assoc lo l) as [a|]; [|by split; [|auto]]. destruct (assoc hi l) as [b|]; [|by split; [|auto]].
  destruct (rtruthy a && rtruthy b) eqn:E; [|by split; [|auto]]. apply andb_true_iff in E as [Ea Eb]. split.
  - by apply NoDup_keys_filter, NoDup_keys_filter, NoDup_assoc_set.
  - intros m r. destruct (decide (m = hi)) as [->|H1]; [by rewrite assoc_delete_self|]. rewrite assoc_delete_other by done.
    destruct (decide (m = lo)) as [->|H2]; [by rewrite assoc_delete_self|]. rewrite assoc_delete_other, assoc_assoc_set by done.
    case_decide as H3; [|by left]. intros [= <-]. right. split; [done|]. by exists a, b.
Qed.

(** C26. The rule set of a field has every rule once, and required in front where it is wanted;
    a length that is truthy is a number, a range of lengths that is an array or a text is a
    pair of numbers, the ranges that the setting autoCreateRanges makes included, and a range
    too unless that setting made it. *)
Theorem rules_wellformed {W : Page} R statics p k l : field_rules R statics p k = Some l ->
  NoDup (map fst l) /\
  (forall r, assoc (u "required") l = Some r -> rtruthy r = true -> head l = Some (u "required", r)) /\
  (forall m r, In m [u "minlength"; u "maxlength"] -> assoc m l = Some r -> number_param r) /\
  (forall r, assoc (u "rangelength") l = Some r -> range_param r) /\
  (autoCreateRanges R = false -> forall r, assoc (u "range") l = Some r -> range_param r).
Proof.
  unfold field_rules. destruct (p !! k) as [f|]; [|done]. unfold normalizeRules.
  destruct (settle_all p k (all_rules R statics k f)) as [l1|] eqn:E; [|done]. cbn [option_map]. intros [= <-].
  set (l2 := map _ l1). set (l3 := update_rule (u "range") _ _).
  assert (Hall : NoDup (map fst (all_rules R statics k f))) by (unfold all_rules; repeat apply NoDup_extend; constructor).
  assert (Hkeys : map fst l3 = map fst l1).
  { unfold l3. rewrite !keys_update. unfold l2. rewrite map_map. by apply map_ext. }
  assert (Hd : NoDup (map fst l3)) by (rewrite Hkeys; by apply (NoDup_settle p k _ _ E)).
  assert (Hnum : forall m r, In m [u "minlength"; u "maxlength"] -> assoc m l3 = Some r -> number_param r).
  { intros m r Hm. unfold l3. rewrite !assoc_update. repeat destruct Hm as [<-|Hm]; [| |done].
    - rewrite !decide_False by done. rewrite decide_True by done. destruct (assoc _ l2); [|done].
      intros [= <-]. apply clean_number_param.
    - rewrite 2!decide_False by done. rewrite decide_True by done. rewrite decide_False by done.
      destruct (assoc _ l2); [|done]. intros [= <-]. apply clean_number_param. }
  assert (Hrange : forall m r, In m [u "rangelength"; u "range"] -> assoc m l3 = Some r -> range_param r).
  { intros m r Hm. unfold l3. rewrite !assoc_update. repeat destruct Hm as [<-|Hm]; [| |done].
    - rewrite (decide_False (P := u "rangelength" = u "range")) by done. rewrite decide_True by done. rewrite !decide_False by done.
      destruct (assoc _ l2); [|done]. intros [= <-]. apply clean_range_param.
    - rewrite decide_True by done. rewrite !decide_False by done.
      destruct (assoc _ l2); [|done]. intros [= <-]. apply clean_range_param. }
  clearbody l3. set (l4 := merge_range (u "min") (u "max") (u "range") l3).
  destruct (merge_range_spec (u "min") (u "max") (u "range") l3 Hd) as [Hd4 H4]. fold l4 in Hd4, H4.
  destruct (merge_range_spec (u "minlength") (u "maxlength") (u "rangelength") l4 Hd4) as [Hd5 H5].
  set (l5 := merge_range (u "minlength") (u "maxlength") (u "rangelength") l4) in *.
  assert (Hnum4 : forall m r, In m [u "minlength"; u "maxlength"] -> assoc m l4 = Some r -> number_param r).
  { intros m r Hm [Hr|[-> _]]%H4; [by eapply Hnum|]. exfalso. revert Hm. clear. by intros [E|[E|[]]]. }
  destruct (autoCreateRanges R).
  all: split; [by apply NoDup_required_first|].
  all: split; [intros r; rewrite assoc_required_first by done; intros Hr Ht; unfold required_first; by rewrite Hr, Ht|].
  - split; [|split; [|done]].
    + intros m r Hm. rewrite assoc_required_first by done. intros [Hr|[-> _]]%H5; [by eapply Hnum4|]. exfalso. revert Hm. clear. by intros [E|[E|[]]].
    + intros r. rewrite assoc_required_first by done. intros Hr. destruct (H5 _ _ Hr) as [Hr'|(_ & a & b & Ha & Hb & Ta & Tb & ->)].
      * destruct (H4 _ _ Hr') as [Hr4|[Hn _]]; [|discriminate Hn]. apply (Hrange (u "rangelength")); [by left|done].
      * destruct (Hnum4 (u "minlength") a ltac:(by left) Ha Ta) as (x & ->). destruct (Hnum4 (u "maxlength") b ltac:(right; by left) Hb Tb) as (y & ->).
        by exists x, y.
  - split; [|split].
    + intros m r Hm. rewrite assoc_required_first by done. by eapply Hnum.
    + intros r. rewrite assoc_required_first by done. apply Hrange. by left.
    + intros _ r. rewrite assoc_required_first by done. apply Hrange. right. by left.
Qed.
Lemma rules_wellformed_witness :
  let f := Field (u "INPUT") (u "text") [(u "name", u "n"); (u "minlength", u "3")] (u "n") [] [] [] [] false [] true in
  let l := [(u "required", rtrue); (u "minlength", RPrim (PNum (of_Z 3))); (u "range", RArr [PNum (of_Z 1); PNum (of_Z 9)])] in
  NoDup (map fst l) /\
  (forall r, assoc (u "required") l = Some r -> rtruthy r = true -> head l = Some (u "required", r)) /\
  (forall m r, In m [u "minlength"; u "maxlength"] -> assoc m l = Some r -> number_param r) /\
  (forall r, assoc (u "rangelength") l = Some r -> range_param r) /\
  (autoCreateRanges registry0 = false -> forall r, assoc (u "range") l = Some r -> range_param r).
Proof.
  intros f l. apply (rules_wellformed (W := plain_page) registry0
    [(u "n", [(u "range", RPrim (PStr (u "1 , 9"))); (u "required", rtrue)])] [f] 0).
  vm_compute. reflexivity.
Defined.
