(* ===== verification/Validator.v ===== *)
(** * [html/resource/js/jquery.validate.js]: the validator of a form

    The state is the page, the error labels and what the validator object keeps; an
    operation is a computation that may throw and keeps the changes made before. The
    browser and the server act through [event]s: input, focus, keys, clicks, submission
    and the answers of the remote requests. *)

From Stdlib Require Import ZArith Lia.
From stdpp Require Import base tactics list numbers strings.
From S2P Require Import Prelude JsValue Md5 ValidPage ValidMethods ValidRules.
Local Open Scope Z_scope.

(** ** State *)

(** An error label; labels are named by the order of their creation. *)
Record label := Label { l_for : jstr; l_class : list jstr; l_html : prim; l_shown : bool }.
(** The labels and containers to show or to hide. *)
Record shown_set := ShownSet { t_labels : list nat; t_containers : bool }.
Definition nothing : shown_set := ShownSet [] false.
Definition set_add (a b : shown_set) : shown_set :=
  ShownSet (t_labels a ++ filter (fun x => x ∉ t_labels a) (t_labels b)) (t_containers a || t_containers b).
Definition set_not (a b : shown_set) : shown_set :=
  ShownSet (filter (fun x => x ∉ t_labels b) (t_labels a)) (t_containers a && negb (t_containers b)).

(** The messages of a field in the settings: one for all rules, or one for each. *)
Inductive msgset := MsgAll (s : jstr) | MsgMap (l : list (jstr * message)).
(** [previousValue]: the object kept in the data of a field, shared with the requests. *)
Record previous := Previous { old : option value; p_valid : bool; p_message : message; originalMessage : option message }.
(** A remote request: its field, the name that its port has, the previous-value object
    that its callback holds, and the value sent. *)
Record remote_request := Request { r_el : nat; r_name : jstr; r_prev : nat; r_value : value; r_active : bool }.

(** An answered, failed or aborted request. *)
Definition inactive (r : remote_request) : remote_request := Request (r_el r) (r_name r) (r_prev r) (r_value r) false.

Inductive output :=
  | OSubmit                                      (* the browser submits the form *)
  | OHandler (button : option nat)               (* the submit handler of the user *)
  | OInvalid                                     (* the event invalid-form *)
  | OShowErrors                                  (* the setting showErrors *)
  | OAjax (id : nat) (name : jstr) (v : value) (param : rparam)
  | OAbort (id : nat)
  | OFocus (k : nat).

(** What [reset] clears; the remote requests; the flags; what the user sees. *)
Record checks := Checks {
  successList : list nat;
  errorList : list (prim * option nat);
  errorMap : list (jstr * prim);
  toShow : shown_set;
  toHide : shown_set;
  currentElements : list nat
}.
Record remote_state := RemoteState {
  pending : list jstr;
  pendingRequest : Z;
  prevs : list previous;
  prev_of : list (nat * nat);
  requests : list remote_request;
  ports : list (jstr * nat)
}.
Record control := Control {
  formSubmitted : bool;
  cancelSubmit : bool;
  submitButton : option nat;
  lastElement : option nat;
  lastActive : option nat
}.
Record form_view := View {
  pg : page;
  labels : list label;
  containers_shown : bool;
  blurs : list (nat * nat)
}.
Record state := State {
  s_view : form_view;
  s_messages : list (jstr * msgset);
  s_rules : list (jstr * rules);
  submitted : list (jstr * prim);
  invalid : list (jstr * prim);
  s_checks : checks;
  s_remote : remote_state;
  s_control : control;
  outs : list output
}.

Definition set_successList (x : list nat) (r : checks) : checks := Checks x (errorList r) (errorMap r) (toShow r) (toHide r) (currentElements r).
Definition set_errorList (x : list (prim * option nat)) (r : checks) : checks := Checks (successList r) x (errorMap r) (toShow r) (toHide r) (currentElements r).
Definition set_errorMap (x : list (jstr * prim)) (r : checks) : checks := Checks (successList r) (errorList r) x (toShow r) (toHide r) (currentElements r).
Definition set_toShow (x : shown_set) (r : checks) : checks := Checks (successList r) (errorList r) (errorMap r) x (toHide r) (currentElements r).
Definition set_toHide (x : shown_set) (r : checks) : checks := Checks (successList r) (errorList r) (errorMap r) (toShow r) x (currentElements r).
Definition set_currentElements (x : list nat) (r : checks) : checks := Checks (successList r) (errorList r) (errorMap r) (toShow r) (toHide r) x.
Definition set_pending (x : list jstr) (r : remote_state) : remote_state := RemoteState x (pendingRequest r) (prevs r) (prev_of r) (requests r) (ports r).
Definition set_pendingRequest (x : Z) (r : remote_state) : remote_state := RemoteState (pending r) x (prevs r) (prev_of r) (requests r) (ports r).
Definition set_prevs (x : list previous) (r : remote_state) : remote_state := RemoteState (pending r) (pendingRequest r) x (prev_of r) (requests r) (ports r).
Definition set_prev_of (x : list (nat * nat)) (r : remote_state) : remote_state := RemoteState (pending r) (pendingRequest r) (prevs r) x (requests r) (ports r).
Definition set_requests (x : list remote_request) (r : remote_state) : remote_state := RemoteState (pending r) (pendingRequest r) (prevs r) (prev_of r) x (ports r).
Definition set_ports (x : list (jstr * nat)) (r : remote_state) : remote_state := RemoteState (pending r) (pendingRequest r) (prevs r) (prev_of r) (requests r) x.
Definition set_formSubmitted (x : bool) (r : control) : control := Control x (cancelSubmit r) (submitButton r) (lastElement r) (lastActive r).
Definition set_cancelSubmit (x : bool) (r : control) : control := Control (formSubmitted r) x (submitButton r) (lastElement r) (lastActive r).
Definition set_submitButton (x : option nat) (r : control) : control := Control (formSubmitted r) (cancelSubmit r) x (lastElement r) (lastActive r).
Definition set_lastElement (x : option nat) (r : control) : control := Control (formSubmitted r) (cancelSubmit r) (submitButton r) x (lastActive r).
Definition set_lastActive (x : option nat) (r : control) : control := Control (formSubmitted r) (cancelSubmit r) (submitButton r) (lastElement r) x.
Definition set_pg (x : page) (r : form_view) : form_view := View x (labels r) (containers_shown r) (blurs r).
Definition set_labels (x : list label) (r : form_view) : form_view := View (pg r) x (containers_shown r) (blurs r).
Definition set_containers_shown (x : bool) (r : form_view) : form_view := View (pg r) (labels r) x (blurs r).
Definition set_blurs (x : list (nat * nat)) (r : form_view) : form_view := View (pg r) (labels r) (containers_shown r) x.
Definition set_s_view (x : form_view) (r : state) : state := State x (s_messages r) (s_rules r) (submitted r) (invalid r) (s_checks r) (s_remote r) (s_control r) (outs r).
Definition set_s_messages (x : list (jstr * msgset)) (r : state) : state := State (s_view r) x (s_rules r) (submitted r) (invalid r) (s_checks r) (s_remote r) (s_control r) (outs r).
Definition set_s_rules (x : list (jstr * rules)) (r : state) : state := State (s_view r) (s_messages r) x (submitted r) (invalid r) (s_checks r) (s_remote r) (s_control r) (outs r).
Definition set_submitted (x : list (jstr * prim)) (r : state) : state := State (s_view r) (s_messages r) (s_rules r) x (invalid r) (s_checks r) (s_remote r) (s_control r) (outs r).
Definition set_invalid (x : list (jstr * prim)) (r : state) : state := State (s_view r) (s_messages r) (s_rules r) (submitted r) x (s_checks r) (s_remote r) (s_control r) (outs r).
Definition set_s_checks (x : checks) (r : state) : state := State (s_view r) (s_messages r) (s_rules r) (submitted r) (invalid r) x (s_remote r) (s_control r) (outs r).
Definition set_s_remote (x : remote_state) (r : state) : state := State (s_view r) (s_messages r) (s_rules r) (submitted r) (invalid r) (s_checks r) x (s_control r) (outs r).
Definition set_s_control (x : control) (r : state) : state := State (s_view r) (s_messages r) (s_rules r) (submitted r) (invalid r) (s_checks r) (s_remote r) x (outs r).
Definition set_outs (x : list output) (r : state) : state := State (s_view r) (s_messages r) (s_rules r) (submitted r) (invalid r) (s_checks r) (s_remote r) (s_control r) x.
(** ** Computations: a new state, and no result when an exception is thrown *)

Definition M (A : Type) := state -> state * option A.
Definition ret {A} (a : A) : M A := fun s => (s, Some a).
Definition throw {A} : M A := fun s => (s, None).
Definition bind {A B} (m : M A) (k : A -> M B) : M B :=
  fun s => match m s with (s, Some a) => k a s | (s, None) => (s, None) end.
Definition get {A} (g : state -> A) : M A := fun s => (s, Some (g s)).
Definition modify (g : state -> state) : M unit := fun s => (g s, Some tt).
Definition of_option {A} (o : option A) : M A := match o with Some a => ret a | None => throw end.
(** [try { m } catch(e) {}] *)
Definition try_ (m : M unit) : M unit := fun s => ((m s).1, Some tt).
Definition when (b : bool) (m : M unit) : M unit := if b then m else ret tt.
Fixpoint iter {A B} (f : A -> M B) (l : list A) : M unit :=
  match l with [] => ret tt | x :: l => bind (f x) (fun _ => iter f l) end.

Declare Scope valid_scope.
Delimit Scope valid_scope with valid.
Notation "x <- m ;; k" := (bind m (fun x => k)) (at level 100, m at next level, right associativity) : valid_scope.
Notation "m ;;; k" := (bind m (fun _ => k)) (at level 100, right associativity) : valid_scope.
Local Open Scope valid_scope.

Definition put_successList (x : list nat) : M unit := modify (fun s => set_s_checks (set_successList x (s_checks s)) s).
Definition put_errorList (x : list (prim * option nat)) : M unit := modify (fun s => set_s_checks (set_errorList x (s_checks s)) s).
Definition put_errorMap (x : list (jstr * prim)) : M unit := modify (fun s => set_s_checks (set_errorMap x (s_checks s)) s).
Definition put_toShow (x : shown_set) : M unit := modify (fun s => set_s_checks (set_toShow x (s_checks s)) s).
Definition put_toHide (x : shown_set) : M unit := modify (fun s => set_s_checks (set_toHide x (s_checks s)) s).
Definition put_currentElements (x : list nat) : M unit := modify (fun s => set_s_checks (set_currentElements x (s_checks s)) s).
Definition put_pending (x : list jstr) : M unit := modify (fun s => set_s_remote (set_pending x (s_remote s)) s).
Definition put_pendingRequest (x : Z) : M unit := modify (fun s => set_s_remote (set_pendingRequest x (s_remote s)) s).
Definition put_prevs (x : list previous) : M unit := modify (fun s => set_s_remote (set_prevs x (s_remote s)) s).
Definition put_prev_of (x : list (nat * nat)) : M unit := modify (fun s => set_s_remote (set_prev_of x (s_remote s)) s).
Definition put_requests (x : list remote_request) : M unit := modify (fun s => set_s_remote (set_requests x (s_remote s)) s).
Definition put_ports (x : list (jstr * nat)) : M unit := modify (fun s => set_s_remote (set_ports x (s_remote s)) s).
Definition put_formSubmitted (x : bool) : M unit := modify (fun s => set_s_control (set_formSubmitted x (s_control s)) s).
Definition put_cancelSubmit (x : bool) : M unit := modify (fun s => set_s_control (set_cancelSubmit x (s_control s)) s).
Definition put_submitButton (x : option nat) : M unit := modify (fun s => set_s_control (set_submitButton x (s_control s)) s).
Definition put_lastElement (x : option nat) : M unit := modify (fun s => set_s_control (set_lastElement x (s_control s)) s).
Definition put_lastActive (x : option nat) : M unit := modify (fun s => set_s_control (set_lastActive x (s_control s)) s).
Definition put_pg (x : page) : M unit := modify (fun s => set_s_view (set_pg x (s_view s)) s).
Definition put_labels (x : list label) : M unit := modify (fun s => set_s_view (set_labels x (s_view s)) s).
Definition put_containers_shown (x : bool) : M unit := modify (fun s => set_s_view (set_containers_shown x (s_view s)) s).
Definition put_blurs (x : list (nat * nat)) : M unit := modify (fun s => set_s_view (set_blurs x (s_view s)) s).
Definition put_s_messages (x : list (jstr * msgset)) : M unit := modify (set_s_messages x).
Definition put_s_rules (x : list (jstr * rules)) : M unit := modify (set_s_rules x).
Definition put_submitted (x : list (jstr * prim)) : M unit := modify (set_submitted x).
Definition put_invalid (x : list (jstr * prim)) : M unit := modify (set_invalid x).
Definition put_outs (x : list output) : M unit := modify (set_outs x).
Definition the_page (s : state) : page := pg (s_view s).
Definition emit (o : output) : M unit := modify (fun s => set_outs (outs s ++ [o]) s).
Definition upd {A} (k : nat) (g : A -> A) (l : list A) : list A :=
  match l !! k with Some x => <[k := g x]> l | None => l end.
Fixpoint nassoc (k : nat) (l : list (nat * nat)) : option nat :=
  match l with [] => None | (j, x) :: l => if (j =? k)%nat then Some x else nassoc k l end.

(** The settings that do not change. *)
Record settings := Config {
  reg : registry; groups : list (jstr * jstr);
  errorClass : jstr; validClass : jstr; success : option jstr;
  onsubmit : bool; debug : bool; focus_invalid : bool; focusCleanup : bool; ignoreTitle : bool;
  highlights : bool; unhighlights : bool; custom_showErrors : bool; submitHandler : bool;
  use_focusin : bool; use_focusout : bool; use_keyup : bool; use_click : bool
}.

Section Validator.
Context {W : Page} (C : settings).

Definition the_field (k : nat) : M field := s <- get the_page;; of_option (s !! k).
Definition rules_of (k : nat) : M rules :=
  s <- get (fun s => s);; of_option (field_rules (reg C) (s_rules s) (the_page s) k).

(** ** Labels *)

(** [idOrName(element)] *)
Definition idOrName (f : field) : jstr :=
  match assoc (name f) (groups C) with
  | Some ((_ :: _) as g) => g
  | _ => if checkable f then name f else if bool_decide (f_id f = []) then name f else f_id f
  end.
(** [errors()] and [errorsFor(element)] *)
Definition is_error (l : label) : bool := bool_decide (errorClass C ∈ l_class l).
Definition errors (s : state) : list nat :=
  map fst (filter (fun q => is_error q.2 = true) (imap pair (labels (s_view s)))).
Definition errorsFor (f : field) (s : state) : list nat :=
  map fst (filter (fun q => (is_error q.2 && js_eqb (l_for q.2) (idOrName f)) = true) (imap pair (labels (s_view s)))).

Definition add_class (c : jstr) (l : list jstr) : list jstr := if decide (c ∈ l) then l else l ++ [c].
Definition remove_class (c : jstr) (l : list jstr) : list jstr := filter (fun d => d <> c) l.
Definition set_classes (g : list jstr -> list jstr) (f : field) : field :=
  Field (nodeName f) (f_type f) (attrs f) (name f) (f_id f) (f_title f) (g (classes f)) (text f) (checked f) (options f) (in_form f).
Definition class_targets (p : page) (k : nat) (f : field) : list nat :=
  if js_eqb (f_type f) (u "radio") then findByName p (name f) else [k].
(** The default functions [highlight] and [unhighlight] *)
Definition swap_classes (add remove : jstr) (k : nat) : M unit :=
  f <- the_field k;;
  p <- get the_page;;
  put_pg (fold_left (fun p j => upd j (set_classes (fun l => remove_class remove (add_class add l))) p) (class_targets p k f) p).
Definition highlight (k : nat) : M unit := swap_classes (errorClass C) (validClass C) k.
Definition unhighlight (k : nat) : M unit := swap_classes (validClass C) (errorClass C) k.

Definition update_label (g : label -> label) (j : nat) : M unit :=
  l <- get (fun s => labels (s_view s));; put_labels (upd j g l).
Definition set_shown (b : bool) (l : label) : label := Label (l_for l) (l_class l) (l_html l) b.
(** [hideErrors()] and the last step of [defaultShowErrors] *)
Definition toggle (b : bool) (t : shown_set) : M unit :=
  iter (update_label (set_shown b)) (t_labels t);;; when (t_containers t) (put_containers_shown b).
Definition hideErrors : M unit := t <- get (fun s => toHide (s_checks s));; toggle false t.

(** [showLabel(element, message)]; the label of a field without a message is for the
    setting [success]. *)
Definition showLabel (k : nat) (message : prim) : M unit :=
  f <- the_field k;;
  found <- get (errorsFor f);;
  ids <- (match found with
          | [] =>
              n <- get (fun s => length (labels (s_view s)));;
              l <- get (fun s => labels (s_view s));;
              put_labels (l ++ [Label (idOrName f) [errorClass C] (if truthy message then message else PStr []) true]);;;
              ret [n]
          | _ =>
              iter (update_label (fun l =>
                Label (l_for l) (add_class (errorClass C) (remove_class (validClass C) (l_class l)))
                  (if decide (message = PUndef) then l_html l else message) (l_shown l))) found;;;
              ret found
          end);;
  (if truthy message then ret tt
   else match success C with
        | Some ((_ :: _) as c) =>
            iter (update_label (fun l => Label (l_for l) (add_class c (l_class l)) (PStr []) (l_shown l))) ids
        | _ => ret tt
        end);;;
  t <- get (fun s => toShow (s_checks s));;
  put_toShow (set_add t (ShownSet ids false)).

(** ** Showing errors *)

Definition reset : M unit := modify (set_s_checks (Checks [] [] [] nothing nothing [])).
Definition prepareForm : M unit := reset;;; e <- get errors;; put_toHide (ShownSet e true).
Definition prepareElement (k : nat) : M unit :=
  reset;;; f <- the_field k;; e <- get (errorsFor f);; put_toHide (ShownSet e false).

Definition invalidElements (s : state) : list (option nat) := map snd (errorList (s_checks s)).
Definition validElements (s : state) : list nat :=
  filter (fun k => Some k ∉ invalidElements s) (currentElements (s_checks s)).

Definition defaultShowErrors : M unit :=
  l <- get (fun s => errorList (s_checks s));;
  iter (fun '(message, k) =>
    k <- of_option k;; when (highlights C) (highlight k);;; showLabel k message) l;;;
  when (negb (bool_decide (l = [])))
    (t <- get (fun s => toShow (s_checks s));; put_toShow (set_add t (ShownSet [] true)));;;
  when (match success C with Some (_ :: _) => true | _ => false end)
    (ok <- get (fun s => successList (s_checks s));; iter (fun k => showLabel k PUndef) ok);;;
  when (unhighlights C) (v <- get validElements;; iter unhighlight v);;;
  sh <- get (fun s => toShow (s_checks s));;
  h <- get (fun s => toHide (s_checks s));;
  put_toHide (set_not h sh);;;
  hideErrors;;;
  toggle true sh.

(** [showErrors(errors)] *)
Definition showErrors (errs : option (list (jstr * prim))) : M unit :=
  match errs with
  | Some errs =>
      m <- get (fun s => errorMap (s_checks s));; put_errorMap (extend m errs);;;
      p <- get the_page;;
      put_errorList (map (fun '(n, message) => (message, head (findByName p n))) errs);;;
      ok <- get (fun s => successList (s_checks s));;
      put_successList (filter (fun k => match p !! k with
                                        | Some f => negb (bool_decide (name f ∈ map fst errs))
                                        | None => true
                                        end = true) ok)
  | None => ret tt
  end;;;
  if custom_showErrors C then emit OShowErrors else defaultShowErrors.

(** ** Messages *)

Definition customMessage (s : state) (n m : jstr) : option message :=
  match assoc n (s_messages s) with
  | Some (MsgAll t) => Some (MsgText (PStr t))
  | Some (MsgMap l) => assoc m l
  | None => None
  end.
Definition customDataMessage (k : nat) (f : field) (m : jstr) : option message :=
  let attr := option_map (fun t => MsgText (PStr t)) (getAttribute f (u "data-msg-" ++ to_lower m)) in
  match data_msg k (to_lower m) with
  | Some p => if truthy p then Some (MsgText p) else attr
  | None => attr
  end.
(** The first argument of [findDefined] that is defined *)
Definition findDefined {A} (l : list (option A)) : option A := head (omap (fun o => o) l).
Definition no_message (f : field) : message :=
  MsgText (PStr (u "<strong>Warning: No message defined for " ++ name f ++ u "</strong>")).
Definition defaultMessage (s : state) (k : nat) (f : field) (m : jstr) : message :=
  default (no_message f) (findDefined
    [customMessage s (name f) m;
     customDataMessage k f m;
     (if negb (ignoreTitle C) && negb (bool_decide (f_title f = [])) then Some (MsgText (PStr (f_title f))) else None);
     assoc m (default_messages (reg C))]).

(** The parameters of [format]: an array, or one value. A missing one throws. *)
Definition format_params (param : rparam) (rest : list prim) : option (list prim) :=
  match param with
  | RArr l => Some l
  | RPrim (PUndef | PNull) => None
  | _ => Some (rparam_prim param :: rest)
  end.
Definition message_text (k : nat) (m : message) (param : rparam) : option prim :=
  match m with
  | MsgFun g => Some (call_message g param)
  | MsgFormat source => option_map (fun l => PStr (format source l)) (format_params param [PStr (field_text k)])
  | MsgText (PStr t) =>
      if has_slot t then option_map (fun l => PStr (format (drop_dollars t 0) l)) (format_params param []) else Some (PStr t)
  | MsgText p => Some p
  end.
Definition formatAndAdd (k : nat) (m : jstr) (param : rparam) : M unit :=
  f <- the_field k;;
  msg <- get (fun s => defaultMessage s k f m);;
  t <- of_option (message_text k msg param);;
  l <- get (fun s => errorList (s_checks s));; put_errorList (l ++ [(t, Some k)]);;;
  em <- get (fun s => errorMap (s_checks s));; put_errorMap (assoc_set (name f) t em);;;
  sub <- get submitted;; put_submitted (assoc_set (name f) t sub).

(** ** Validation methods *)

(** [methods.required] *)
Definition required_result (p : page) (v : value) (k : nat) (f : field) (param : rparam) : mresult :=
  if negb (depend p param k) then DependencyMismatch
  else if is_select f then
    Verdict (match select_val f with
             | Single (PStr s) => negb (bool_decide (s = []))
             | Many l => negb (bool_decide (l = []))
             | _ => false
             end)
  else if checkable f then Verdict (0 <? getLength p (js_length (value_text v)) f)
  else Verdict (negb (bool_decide (trim_value v = []))).
(** [optional(element)] *)
Definition optional (p : page) (k : nat) (f : field) : bool :=
  match required_result p (elementValue p f) k f (RPrim PUndef) with Verdict b => negb b | _ => false end.
Definition or_optional (p : page) (k : nat) (f : field) (b : bool) : mresult :=
  if optional p k f then DependencyMismatch else Verdict b.
(** The length that the length methods compare *)
Definition value_length (p : page) (v : value) (f : field) : prim :=
  PNum (of_Z (match v with
              | Many l => Z.of_nat (length l)
              | _ => getLength p (js_length (trim_value v)) f
              end)).
Definition strict_eq (v w : value) : bool :=
  match v, w with Single a, Single b => bool_decide (a = b) | _, _ => false end.

(** [startRequest(element)] *)
Definition startRequest (n : jstr) : M unit :=
  pd <- get (fun s => pending (s_remote s));;
  if decide (n ∈ pd) then ret tt
  else (c <- get (fun s => pendingRequest (s_remote s));; put_pendingRequest (c + 1);;; put_pending (pd ++ [n])).

(** [previousValue(element)]: the object of the field, a new one the first time. *)
Definition previousValue (k : nat) (f : field) : M nat :=
  l <- get (fun s => prev_of (s_remote s));;
  match nassoc k l with
  | Some i => ret i
  | None =>
      msg <- get (fun s => defaultMessage s k f (u "remote"));;
      ps <- get (fun s => prevs (s_remote s));;
      put_prevs (ps ++ [Previous None true msg None]);;;
      put_prev_of ((k, length ps) :: l);;;
      ret (length ps)
  end.
Definition put_previous (i : nat) (g : previous -> previous) : M unit :=
  ps <- get (fun s => prevs (s_remote s));; put_prevs (upd i g ps).

(** [messages[n].remote = msg]; nothing happens on a string, and no object throws. *)
Definition set_remote_message (n : jstr) (msg : option message) : M unit :=
  l <- get s_messages;;
  match assoc n l with
  | Some (MsgMap r) =>
      modify (set_s_messages (assoc_set n (MsgMap (match msg with
        | Some msg => assoc_set (u "remote") msg r
        | None => assoc_delete (u "remote") r
        end)) l))
  | Some (MsgAll _) => ret tt
  | None => throw
  end.

(** A request in the mode abort: the one before on the port ends without an answer. *)
Definition send (k : nat) (n : jstr) (i : nat) (v : value) (param : rparam) : M unit :=
  ps <- get (fun s => ports (s_remote s));;
  rs <- get (fun s => requests (s_remote s));;
  match assoc n ps with
  | Some j =>
      match rs !! j with
      | Some r =>
          when (r_active r)
            (put_requests (upd j inactive rs);;; emit (OAbort j))
      | None => ret tt
      end
  | None => ret tt
  end;;;
  put_ports (assoc_set n (length rs) ps);;;
  rs <- get (fun s => requests (s_remote s));;
  put_requests (rs ++ [Request k n i v true]);;;
  emit (OAjax (length rs) n v param).

(** [methods.remote] *)
Definition remote (v : value) (k : nat) (f : field) (param : rparam) : M mresult :=
  p <- get the_page;;
  if optional p k f then ret DependencyMismatch
  else
    i <- previousValue k f;;
    l <- get s_messages;;
    (match assoc (name f) l with
     | None | Some (MsgAll []) => modify (set_s_messages (assoc_set (name f) (MsgMap []) l))
     | _ => ret tt
     end);;;
    l <- get s_messages;;
    put_previous i (fun q => Previous (old q) (p_valid q) (p_message q)
      (match assoc (name f) l with Some (MsgMap r) => assoc (u "remote") r | _ => None end));;;
    q <- get (fun s => prevs (s_remote s) !! i);;
    q <- of_option q;;
    set_remote_message (name f) (Some (p_message q));;;
    if match old q with Some w => strict_eq w v | None => false end then ret (Verdict (p_valid q))
    else
      put_previous i (fun q => Previous (Some v) (p_valid q) (p_message q) (originalMessage q));;;
      startRequest (name f);;;
      send k (name f) i v param;;;
      ret PendingResult.

(** [methods.equalTo]: the value of the first target; leaving a target validates the
    field again, the last one that was compared with it. *)
Definition equalTo (v : value) (k : nat) (param : rparam) : M mresult :=
  p <- get the_page;;
  match param with
  | RPrim (PStr sel) =>
      let target := selector p sel in
      when (use_focusout C)
        (b <- get (fun s => blurs (s_view s));; put_blurs (map (fun j => (j, k)) target ++ b));;;
      ret (Verdict (strict_eq v (match target with
                                 | j :: _ => match p !! j with Some g => field_val g | None => Single PUndef end
                                 | [] => Single PUndef
                                 end)))
  | _ => throw
  end.

(** [value >= param[0] && value <= param[1]]; there may be no parameter. *)
Definition range_result (p : page) (k : nat) (f : field) (v : value) (param : rparam) : M mresult :=
  if optional p k f then ret DependencyMismatch
  else match param with
       | RPrim (PUndef | PNull) => throw
       | _ => ret (Verdict (range_test v param))
       end.

(** [$.validator.methods[method].call(this, val, element, param)] *)
Definition call_method (m : meth) (v : value) (k : nat) (f : field) (param : rparam) : M mresult :=
  p <- get the_page;;
  match m with
  | Required => ret (required_result p v k f param)
  | Email => ret (or_optional p k f (email_test v))
  | Url => ret (or_optional p k f (url_test v))
  | Date => ret (or_optional p k f (date_string_ok v))
  | DateISO => ret (or_optional p k f (dateISO_test v))
  | Number => ret (or_optional p k f (number_test v))
  | Digits => ret (or_optional p k f (digits_test v))
  | CreditCard =>
      if optional p k f then ret DependencyMismatch
      else if existsb (fun c => negb (is_dec c || (c =? 32) || (c =? 45))) (value_text v) then ret (Verdict false)
      else match v with Single (PStr s) => ret (Verdict (creditcard_test s)) | _ => throw end
  | MinLength => ret (or_optional p k f (js_le (rparam_prim param) (value_length p v f)))
  | MaxLength => ret (or_optional p k f (js_le (value_length p v f) (rparam_prim param)))
  | RangeLength => range_result p k f (Single (value_length p v f)) param
  | Min => ret (or_optional p k f (min_test v param))
  | Max => ret (or_optional p k f (max_test v param))
  | Range => range_result p k f v param
  | EqualTo => equalTo v k param
  | Remote => remote v k f param
  | UserMethod id => ret (user_method id p k v param)
  end.

(** ** Checking a field *)

(** What [check] returns, [undefined] included. *)
Inductive checked_result := Undefined | Checked (b : bool).
#[export] Instance checked_eq_dec : EqDecision checked_result.
Proof. solve_decision. Defined.

(** The loop over the rules: the first rule that fails ends it, and so does a request
    under way. [mismatch] is [dependencyMismatch]. *)
Fixpoint check_rules (k : nat) (f : field) (v : value) (l : rules) (mismatch : bool) : M checked_result :=
  match l with
  | [] => ret (if mismatch then Undefined else Checked true)
  | (m, param) :: l =>
      meth <- of_option (assoc m (methods (reg C)));;
      r <- call_method meth v k f param;;
      match r with
      | DependencyMismatch => check_rules k f v l true
      | PendingResult =>
          e <- get (errorsFor f);;
          h <- get (fun s => toHide (s_checks s));;
          put_toHide (set_not h (ShownSet e false));;;
          ret Undefined
      | Verdict true => check_rules k f v l false
      | Verdict false => formatAndAdd k m param;;; ret (Checked false)
      end
  end.

(** [check(element)] *)
Definition check (k : nat) : M checked_result :=
  p <- get the_page;;
  k <- of_option (validationTargetFor p k);;
  f <- the_field k;;
  l <- rules_of k;;
  r <- check_rules k f (elementValue p f) l false;;
  when (bool_decide (r = Checked true /\ l <> []))
    (ok <- get (fun s => successList (s_checks s));; put_successList (ok ++ [k]));;;
  ret r.

(** ** The form *)

Definition kept_by_find (f : field) : bool :=
  let n := to_lower (nodeName f) in
  in_form f && bool_decide (n = u "input" \/ n = u "select" \/ n = u "textarea")
  && negb (bool_decide (n = u "input" /\ (f_type f = u "submit" \/ f_type f = u "reset" \/ f_type f = u "image")))
  && match getAttribute f (u "disabled") with None => true | Some _ => false end.
(** The first field of each name that has rules; the rules of a field may throw. *)
Fixpoint with_rules (s : state) (cache : list jstr) (l : list nat) : option (list nat) :=
  match l with
  | [] => Some []
  | k :: l =>
      match the_page s !! k with
      | None => with_rules s cache l
      | Some f =>
          if decide (name f ∈ cache) then with_rules s cache l
          else match field_rules (reg C) (s_rules s) (the_page s) k with
               | None => None
               | Some [] => with_rules s cache l
               | Some _ => option_map (cons k) (with_rules s (name f :: cache) l)
               end
      end
  end.
(** [elements()] *)
Definition elements (s : state) : option (list nat) :=
  with_rules s [] (filter (fun k => ignored (the_page s) k = false) (find_fields kept_by_find (the_page s))).

Definition size (s : state) : nat := length (errorList (s_checks s)).
Definition valid (s : state) : bool := (size s =? 0)%nat.

Definition checkForm : M unit :=
  prepareForm;;;
  els <- get elements;;
  els <- of_option els;;
  put_currentElements els;;;
  iter check els.

(** [form()] *)
Definition form : M bool :=
  checkForm;;;
  em <- get (fun s => errorMap (s_checks s));;
  sub <- get submitted;;
  put_submitted (extend sub em);;;
  put_invalid em;;;
  ok <- get valid;;
  when (negb ok) (emit OInvalid);;;
  showErrors None;;;
  get valid.

(** [element(element)] *)
Definition element (k : nat) : M bool :=
  p <- get the_page;;
  let target := validationTargetFor p k in
  put_lastElement target;;;
  reset;;;
  k <- of_option target;;
  f <- the_field k;;
  prepareElement k;;;
  put_currentElements [k];;;
  r <- check k;;
  let result := negb (bool_decide (r = Checked false)) in
  inv <- get invalid;;
  put_invalid (if result then assoc_delete (name f) inv else assoc_set (name f) (PBool true) inv);;;
  inv <- get invalid;;
  when (bool_decide (inv = []))
    (h <- get (fun s => toHide (s_checks s));; put_toHide (set_add h (ShownSet [] true)));;;
  showErrors None;;;
  ret result.

(** [$(fields).valid()]: after the first field that is not valid no other is checked. *)
Fixpoint valid_fields (l : list nat) : M bool :=
  match l with
  | [] => ret true
  | k :: l => b <- element k;; if b then valid_fields l else ret false
  end.

(** [$(element).rules("add", argument)] with the messages of the argument, and
    [rules("remove", argument)] *)
Definition add_rules (k : nat) (argument : ruledata) (msgs : option (list (jstr * message))) : M unit :=
  f <- the_field k;;
  l <- get s_rules;; modify (set_s_rules (rules_add l f argument));;;
  match msgs with
  | Some new =>
      ms <- get s_messages;;
      modify (set_s_messages (assoc_set (name f)
        (MsgMap (extend (match assoc (name f) ms with Some (MsgMap r) => r | _ => [] end) new)) ms))
  | None => ret tt
  end.
Definition remove_rules (k : nat) (argument : option jstr) : M unit :=
  f <- the_field k;; l <- get s_rules;; modify (set_s_rules (rules_remove l f argument)).

(** [resetForm()] *)
Definition resetForm : M unit :=
  put_submitted [];;;
  put_lastElement None;;;
  prepareForm;;;
  hideErrors;;;
  els <- get elements;;
  els <- of_option els;;
  p <- get the_page;;
  put_pg (fold_left (fun p k => upd k (set_classes (remove_class (errorClass C))) p) els p);;;
  l <- get (fun s => prev_of (s_remote s));;
  put_prev_of (filter (fun q => q.1 ∉ els) l).

(** ** Focus *)

(** The fields whose focus and key events the plugin listens to. *)
Definition texty_types : list jstr :=
  [u "password"; u "file"; u "number"; u "search"; u "tel"; u "url"; u "email"; u "datetime"; u "date"; u "month";
   u "week"; u "time"; u "datetime-local"; u "range"; u "color"].
Definition texty (f : field) : bool :=
  let n := to_lower (nodeName f) in
  bool_decide (n = u "select" \/ n = u "textarea")
  || (js_eqb n (u "input") && js_eqb (f_type f) (u "text"))
  || match getAttribute f (u "type") with Some t => bool_decide (t ∈ texty_types) | None => false end.

Definition onfocusin (k : nat) : M unit :=
  put_lastActive (Some k);;;
  when (focusCleanup C)
    (when (unhighlights C) (unhighlight k);;;
     f <- the_field k;; e <- get (errorsFor f);; toggle false (ShownSet e false)).
(** [findLastActive()] *)
Definition findLastActive : M (option nat) :=
  a <- get (fun s => lastActive (s_control s));;
  match a with
  | None => ret None
  | Some a =>
      p <- get the_page;;
      l <- get (fun s => errorList (s_checks s));;
      f <- the_field a;;
      names <- of_option (mapM (fun q => q.2 ≫= fun j => name <$> p !! j) l);;
      ret (if (length (filter (fun n => n = name f) names) =? 1)%nat then Some a else None)
  end.
(** [focusInvalid()]: an exception is ignored. *)
Definition focusInvalid : M unit :=
  when (focus_invalid C) (try_ (
    a <- findLastActive;;
    l <- get (fun s => errorList (s_checks s));;
    p <- get the_page;;
    match (match a with Some a => Some a | None => head l ≫= snd end) with
    | Some k =>
        if visible p k then
          emit (OFocus k);;;
          f <- the_field k;;
          when (use_focusin C && texty f) (onfocusin k)
        else ret tt
    | None => ret tt
    end)).

(** ** Submission *)

(** The handler of the event submit: whether the browser goes on. *)
Definition handle : M bool :=
  if submitHandler C then (b <- get (fun s => submitButton (s_control s));; emit (OHandler b);;; ret false)
  else ret true.
Definition on_submit : M bool :=
  cancel <- get (fun s => cancelSubmit (s_control s));;
  if cancel then put_cancelSubmit false;;; handle
  else
    ok <- form;;
    if ok then
      n <- get (fun s => pendingRequest (s_remote s));;
      if negb (n =? 0) then put_formSubmitted true;;; ret false else handle
    else focusInvalid;;; ret false.
(** [$(form).submit()], and the event from the user: there an exception in the handler
    does not keep the browser from going on. *)
Definition submit : M unit :=
  if onsubmit C then b <- on_submit;; when (b && negb (debug C)) (emit OSubmit)
  else emit OSubmit.
Definition user_submit : M unit :=
  fun s => match submit s with
           | (s, None) => when (negb (debug C)) (emit OSubmit) s
           | r => r
           end.

(** ** Answers *)

(** [stopRequest(element, valid)]; [resume] goes on with a submission that waits. *)
Definition resume (ok : bool) : M unit :=
  c <- get (fun s => pendingRequest (s_remote s));;
  fs <- get (fun s => formSubmitted (s_control s));;
  if (c =? 0) && fs then
    if ok then (b <- form;; when b (submit;;; put_formSubmitted false))
    else (emit OInvalid;;; put_formSubmitted false)
  else ret tt.
Definition count_down (n : jstr) : M unit :=
  c <- get (fun s => pendingRequest (s_remote s));;
  put_pendingRequest (if c - 1 <? 0 then 0 else c - 1);;;
  pd <- get (fun s => pending (s_remote s));;
  put_pending (filter (fun m => m <> n) pd).
Definition stopRequest (n : jstr) (ok : bool) : M unit := count_down n;;; resume ok.

(** The callback [success] of a remote request, to its last call. *)
Definition yes (response : prim) : bool := bool_decide (response = PBool true \/ response = PStr (u "true")).
Definition on_answer (r : remote_request) (response : prim) : M unit :=
  f <- the_field (r_el r);;
  q <- get (fun s => prevs (s_remote s) !! r_prev r);;
  q <- of_option q;;
  set_remote_message (name f) (originalMessage q);;;
  let ok := yes response in
  (if ok then
     fs <- get (fun s => formSubmitted (s_control s));;
     prepareElement (r_el r);;;
     put_formSubmitted fs;;;
     l <- get (fun s => successList (s_checks s));; put_successList (l ++ [r_el r]);;;
     inv <- get invalid;; put_invalid (assoc_delete (name f) inv);;;
     showErrors None
   else
     msg <- get (fun s => if truthy response then MsgText response else defaultMessage s (r_el r) f (u "remote"));;
     let t := match msg with
              | MsgText t => t
              | MsgFormat source => PStr (format source (match r_value r with Single p => [p] | Many l => map PStr l end))
              | MsgFun g => call_message g (RPrim (value_prim (r_value r)))
              end in
     put_previous (r_prev r) (fun q => Previous (old q) (p_valid q) (MsgText t) (originalMessage q));;;
     inv <- get invalid;; put_invalid (assoc_set (name f) (PBool true) inv);;;
     showErrors (Some [(name f, t)]));;;
  put_previous (r_prev r) (fun q => Previous (old q) ok (p_message q) (originalMessage q)).
Definition on_success (r : remote_request) (response : prim) : M unit :=
  on_answer r response;;; stopRequest (r_name r) (yes response).
Definition remote_success (id : nat) (response : prim) : M unit :=
  rs <- get (fun s => requests (s_remote s));;
  r <- of_option (rs !! id);;
  put_requests (upd id inactive rs);;;
  on_success r response.

(** ** Events *)

Inductive event :=
  | Input (k : nat) (s : jstr)              (* the user types *)
  | Check (k : nat) (b : bool)              (* a box or a button changes *)
  | FocusIn (k : nat)
  | FocusOut (k : nat)
  | KeyUp (k : nat) (which : Z)
  | Click (k : nat)                         (* on a radio button, a checkbox, a select or its option *)
  | ClickSubmit (button : nat) (cancel : bool)   (* [cancel]: class cancel, or formnovalidate *)
  | Submit
  | ResetForm
  | Success (id : nat) (response : prim)    (* the server answers *)
  | Failure (id : nat).                     (* the request fails: the plugin has no callback *)

Definition set_text (t : jstr) (f : field) : field :=
  Field (nodeName f) (f_type f) (attrs f) (name f) (f_id f) (f_title f) (classes f) t (checked f) (options f) (in_form f).
Definition set_checked (b : bool) (f : field) : field :=
  Field (nodeName f) (f_type f) (attrs f) (name f) (f_id f) (f_title f) (classes f) (text f) b (options f) (in_form f).
Definition is_submitted (f : field) : M bool := sub <- get submitted;; ret (bool_decide (name f ∈ map fst sub)).

Definition onfocusout (k : nat) : M unit :=
  f <- the_field k;;
  p <- get the_page;;
  sub <- is_submitted f;;
  when (negb (checkable f) && (sub || negb (optional p k f))) (element k;;; ret tt).
Definition onkeyup (k : nat) (which : Z) : M unit :=
  f <- the_field k;;
  p <- get the_page;;
  if (which =? 9) && bool_decide (elementValue p f = Single (PStr [])) then ret tt
  else
    sub <- is_submitted f;;
    e <- get (fun s => lastElement (s_control s));;
    when (sub || bool_decide (e = Some k)) (element k;;; ret tt).
Definition onclick (k : nat) : M unit :=
  f <- the_field k;; sub <- is_submitted f;; when sub (element k;;; ret tt).
Definition clickable (f : field) : bool :=
  is_select f || bool_decide (getAttribute f (u "type") = Some (u "radio") \/ getAttribute f (u "type") = Some (u "checkbox")).
(** The handler that [equalTo] binds to its target *)
Definition onblur (k : nat) : M unit :=
  b <- get (fun s => blurs (s_view s));;
  match nassoc k b with Some j => element j;;; ret tt | None => ret tt end.

Definition handler (e : event) : M unit :=
  match e with
  | Input k t => p <- get the_page;; put_pg (upd k (set_text t) p)
  | Check k b => p <- get the_page;; put_pg (upd k (set_checked b) p)
  | FocusIn k => f <- the_field k;; when (use_focusin C && texty f) (onfocusin k)
  | FocusOut k => try_ (onblur k);;; f <- the_field k;; when (use_focusout C && texty f) (onfocusout k)
  | KeyUp k which => f <- the_field k;; when (use_keyup C && texty f) (onkeyup k which)
  | Click k => f <- the_field k;; when (use_click C && clickable f) (onclick k)
  | ClickSubmit b cancel =>
      when (onsubmit C) (when (submitHandler C) (put_submitButton (Some b));;; when cancel (put_cancelSubmit true))
  | Submit => user_submit
  | ResetForm => resetForm
  | Success id response => remote_success id response
  | Failure id =>
      rs <- get (fun s => requests (s_remote s));;
      put_requests (upd id inactive rs)
  end.
(** An exception ends the handler, not the page. The server answers the requests that
    are still active. *)
Definition enabled (e : event) (s : state) : bool :=
  match e with
  | Success id _ | Failure id =>
      match requests (s_remote s) !! id with Some r => r_active r | None => false end
  | _ => true
  end.
Definition step (e : event) (s : state) : state := (handler e s).1.
Inductive steps : state -> list event -> state -> Prop :=
  | StepsNil s : steps s [] s
  | StepsCons s e es s' : enabled e s = true -> steps (step e s) es s' -> steps s (e :: es) s'.
Definition run (es : list event) (s : state) : state := fold_left (fun s e => step e s) es s.
End Validator.

(** [new $.validator(options, form)] with [init]: the rules of the settings as they are
    after [normalizeRule]. *)
Definition init (p : page) (l : list label) (messages : list (jstr * msgset)) (statics : list (jstr * ruledata)) : state :=
  State (View p l false []) messages (map (fun '(k, d) => (k, normalizeRule d)) statics) [] []
    (Checks [] [] [] nothing nothing []) (RemoteState [] 0 [] [] [] []) (Control false false None None None) [].
(** The groups: a string of names separated by blanks for each. *)
Definition init_groups (l : list (jstr * jstr)) : list (jstr * jstr) :=
  fold_left (fun t '(g, names) => fold_left (fun t n => assoc_set n g t) (split_where is_space names) t) l [].

Definition default_config : settings :=
  Config registry0 [] (u "error") (u "valid") None true false true false false true true false false true true true true.

(** ** Examples *)

(** A form with a name, an age and a mail address that the server checks. *)
Definition age_field (v : jstr) : field :=
  Field (u "INPUT") (u "text") [(u "name", u "age"); (u "type", u "text"); (u "max", u "150")] (u "age") [] [] [u "digits"] v false [] true.
Definition form0 (a b c : jstr) : state :=
  init [text_field (u "name") a; age_field b; text_field (u "mail") c] []
    [] [(u "name", RuleString (u "required")); (u "mail", RuleObject [(u "email", rtrue); (u "remote", RPrim (PStr (u "check.php")))])].
Definition state_of (s : state) :=
  (map (fun q => (to_str q.1, q.2)) (errorList (s_checks s)), pending (s_remote s), formSubmitted (s_control s), outs s).
Definition shown_labels (s : state) : list (jstr * prim) :=
  map (fun l => (l_for l, l_html l)) (filter (fun l => l_shown l = true) (labels (s_view s))).

Example invalid_form :
  let s := run (W := plain_page) default_config [Submit] (form0 [] (u "200") []) in
  state_of s = ([(u "This field is required.", Some 0%nat);
                 (u "Please enter a value less than or equal to 150.", Some 1%nat)], [], false, [OInvalid; OFocus 0]) /\
  shown_labels s = [(u "name", PStr (u "This field is required."));
                    (u "age", PStr (u "Please enter a value less than or equal to 150."))].
Proof. vm_compute. split; reflexivity. Qed.

(** The server is asked; the form goes when it says yes. *)
Example remote_form :
  let s := run (W := plain_page) default_config [Submit] (form0 (u "x") (u "20") (u "a@b.cd")) in
  let sent := OAjax 0 (u "mail") (Single (PStr (u "a@b.cd"))) (RPrim (PStr (u "check.php"))) in
  state_of s = ([], [u "mail"], true, [sent]) /\
  state_of (step (W := plain_page) default_config (Success 0 (PBool true)) s) = ([], [], false, [sent; OSubmit]) /\
  state_of (step (W := plain_page) default_config (Success 0 (PStr (u "taken"))) s) =
    ([(u "taken", Some 2%nat)], [], false, [sent; OInvalid]).
Proof. vm_compute. repeat split; reflexivity. Qed.
