(* ===== verification/ValidatorProps.v ===== *)
(** * The computations of the validator: what they leave unchanged and what they
    preserve *)

From Stdlib Require Import ZArith Lia.
From stdpp Require Import base tactics list numbers strings.
From S2P Require Import Prelude JsValue Md5 ValidPage ValidMethods ValidRules Validator.
Local Open Scope Z_scope.

Local Open Scope valid_scope.

(** ** Preservation *)

(** A relation between the states before and after every run of a computation. *)
Definition keeps {A} (P : state -> state -> Prop) (m : M A) : Prop := forall s, P s (m s).1.

Section Keeps.
Context (P : state -> state -> Prop) `{!PreOrder P}.

Lemma keeps_ret {A} (a : A) : keeps P (ret a).
Proof. intros s. reflexivity. Qed.
Lemma keeps_throw {A} : keeps P (@throw A).
Proof. intros s. reflexivity. Qed.
Lemma keeps_get {A} (g : state -> A) : keeps P (get g).
Proof. intros s. reflexivity. Qed.
Lemma keeps_of_option {A} (o : option A) : keeps P (of_option o).
Proof. destruct o; [apply keeps_ret|apply keeps_throw]. Qed.
Lemma keeps_bind {A B} (m : M A) (k : A -> M B) : keeps P m -> (forall a, keeps P (k a)) -> keeps P (bind m k).
Proof.
  intros Hm Hk s. unfold bind. specialize (Hm s). destruct (m s) as [s1 [a|]]; [|done].
  etransitivity; [exact Hm|apply Hk].
Qed.
Lemma keeps_when b m : keeps P m -> keeps P (when b m).
Proof. destruct b; [done|]. intros _. apply keeps_ret. Qed.
Lemma keeps_try m : keeps P m -> keeps P (try_ m).
Proof. intros H s. apply H. Qed.
Lemma keeps_iter {A B} (f : A -> M B) l : (forall x, keeps P (f x)) -> keeps P (iter f l).
Proof. intros H. induction l as [|x l IH]; [apply keeps_ret|]. cbn. apply keeps_bind; auto. Qed.
Lemma keeps_modify g : (forall s, P s (g s)) -> keeps P (modify g).
Proof. intros H s. apply H. Qed.
End Keeps.

(** Take a computation apart; the lemmas on its parts are in the database [keeps]. *)
Create HintDb keeps.
Ltac keeps_step :=
  match goal with
  | |- keeps _ (bind _ _) => apply keeps_bind; [apply _| |intros ?]
  | |- keeps _ (ret _) => apply keeps_ret; apply _
  | |- keeps _ throw => apply keeps_throw; apply _
  | |- keeps _ (get _) => apply keeps_get; apply _
  | |- keeps _ (of_option _) => apply keeps_of_option; apply _
  | |- keeps _ (when _ _) => apply keeps_when; [apply _|]
  | |- keeps _ (try_ _) => apply keeps_try
  | |- keeps _ (iter _ _) => apply keeps_iter; [apply _|intros ?]
  | |- keeps _ (if ?b then _ else _) => destruct b
  | |- keeps _ (match ?x with _ => _ end) => destruct x
  | |- keeps _ (let '_ := ?x in _) => destruct x
  end.
Ltac keeps_solve := repeat (first [solve [auto with keeps] | keeps_step]).

(** Two states that agree on a part. *)
Definition same {X} (g : state -> X) : state -> state -> Prop := fun s s' => g s' = g s.
#[export] Instance same_preorder {X} (g : state -> X) : PreOrder (same g).
Proof. split; [intros s; unfold same; done|]. intros a b c H1 H2. unfold same in *. congruence. Qed.
(** An invariant. *)
Definition holds (I : state -> Prop) : state -> state -> Prop := fun s s' => I s -> I s'.
#[export] Instance holds_preorder I : PreOrder (holds I).
Proof. split; [intros s H; exact H|]. intros a b c H1 H2. unfold holds in *. auto. Qed.

Lemma keeps_same_holds {A X} (g : state -> X) (Q : X -> Prop) (m : M A) :
  keeps (same g) m -> keeps (holds (fun s => Q (g s))) m.
Proof. intros H s. unfold holds. by rewrite (H s). Qed.

(** ** What displaying and preparing leave unchanged *)

(** The part of the state that only requests change. *)
Definition core (s : state) : list jstr * Z * list remote_request * list (jstr * nat) :=
  (pending (s_remote s), pendingRequest (s_remote s), requests (s_remote s), ports (s_remote s)).

(** A function of the state that writes to the page, the labels and the lists of a check
    do not change. *)
Class Undisplayed {X} (g : state -> X) : Prop := {
  un_view s v : g (set_s_view v s) = g s;
  un_checks s c : g (set_s_checks c s) = g s
}.

Section Display.
Context {W : Page} (C : settings) {X : Type} (g : state -> X) {Hg : Undisplayed g}.
Local Abbreviation K m := (keeps (same g) m).

Lemma k_view h : K (modify (fun s => set_s_view (h s) s)).
Proof. apply keeps_modify. intros s. apply un_view. Qed.
Lemma k_checks h : K (modify (fun s => set_s_checks (h s) s)).
Proof. apply keeps_modify. intros s. apply un_checks. Qed.
Hint Resolve k_view k_checks : keeps.

Lemma k_field k : K (the_field k).
Proof. unfold the_field. keeps_solve. Qed.
Lemma k_rules k : K (rules_of C k).
Proof. unfold rules_of. keeps_solve. Qed.
Hint Resolve k_field k_rules : keeps.
Lemma k_swap a b k : K (swap_classes a b k).
Proof. unfold swap_classes, put_pg. keeps_solve. Qed.
Lemma k_toggle b t : K (toggle b t).
Proof. unfold toggle, update_label, put_labels, put_containers_shown. keeps_solve. Qed.
Hint Resolve k_swap k_toggle : keeps.
Lemma k_hide : K hideErrors.
Proof. unfold hideErrors. keeps_solve. Qed.
Lemma k_showLabel k m : K (showLabel C k m).
Proof. unfold showLabel, put_labels, update_label, put_labels, put_toShow. keeps_solve. Qed.
Lemma k_reset : K reset.
Proof. apply k_checks. Qed.
Hint Resolve k_hide k_showLabel k_reset : keeps.
Lemma k_prepareForm : K (prepareForm C).
Proof. unfold prepareForm, put_toHide. keeps_solve. Qed.
Lemma k_prepareElement k : K (prepareElement C k).
Proof. unfold prepareElement, put_toHide. keeps_solve. Qed.
Hint Resolve k_prepareForm k_prepareElement : keeps.
Lemma k_defaultShowErrors : K (defaultShowErrors C).
Proof. unfold defaultShowErrors, highlight, unhighlight, put_toShow, put_toHide. keeps_solve. Qed.
End Display.
#[export] Hint Resolve k_view k_checks k_field k_rules k_swap k_toggle k_hide k_showLabel k_reset k_prepareForm
  k_prepareElement k_defaultShowErrors : keeps.

(** * Properties of the validator: its requests, the submission of the form, and the
    outcome of a check *)

Local Open Scope valid_scope.

(** ** Requests under way *)

#[export] Instance core_undisplayed : Undisplayed core.
Proof. by split. Qed.
#[export] Hint Resolve core_undisplayed : keeps.
#[export] Hint Extern 3 (keeps (same core) (modify _)) => (apply keeps_modify; intros ?; reflexivity) : keeps.

Abbreviation core_state := (list jstr * Z * list remote_request * list (jstr * nat))%type.
(** An active request for a name. *)
Definition backed (c : core_state) (n : jstr) : Prop :=
  exists j r, c.1.2 !! j = Some r /\ r_active r = true /\ r_name r = n.

(** The counter is the number of names under request; an active request is the last one
    on the port of its name, and its name is under request. In the strict form every
    name under request has an active request. *)
Record core_ok (strict : bool) (c : core_state) : Prop := {
  co_count : c.1.1.2 = Z.of_nat (length c.1.1.1);
  co_nodup : NoDup c.1.1.1;
  co_ports n j : assoc n c.2 = Some j -> exists r, c.1.2 !! j = Some r /\ r_name r = n;
  co_active j r : c.1.2 !! j = Some r -> r_active r = true ->
    r_name r ∈ c.1.1.1 /\ assoc (r_name r) c.2 = Some j;
  co_backed n : strict = true -> n ∈ c.1.1.1 -> backed c n
}.
Definition remote_ok (strict : bool) (s : state) : Prop := core_ok strict (core s).

Lemma core_ok_weaken strict c : core_ok strict c -> core_ok false c.
Proof. intros [H1 H2 H3 H4 H5]. by constructor. Qed.

Section Strict.
Context (strict : bool).
Local Abbreviation remote_ok := (remote_ok strict).

Lemma ok_same {A} (m : M A) : keeps (same core) m -> keeps (holds remote_ok) m.
Proof. apply (keeps_same_holds core (core_ok strict)). Qed.
End Strict.

Lemma assoc_set_same {A} n (x : A) l : assoc n (assoc_set n x l) = Some x.
Proof. by rewrite assoc_assoc_set, decide_True. Qed.
Lemma assoc_set_other {A} n m (x : A) l : n <> m -> assoc n (assoc_set m x l) = assoc n l.
Proof. intros H. by rewrite assoc_assoc_set, decide_False. Qed.

Lemma upd_lookup {A} (h : A -> A) k l j x : upd k h l !! j = Some x ->
  (j = k /\ exists y, l !! k = Some y /\ x = h y) \/ (j <> k /\ l !! j = Some x).
Proof.
  unfold upd. destruct (l !! k) as [y|] eqn:E.
  - destruct (decide (j = k)) as [->|Hn].
    + rewrite list_lookup_insert_eq by by eapply lookup_lt_Some. intros [= <-]. left. eauto.
    + rewrite list_lookup_insert_ne by done. auto.
  - intros H. right. split; [intros ->; congruence|done].
Qed.
Lemma upd_length {A} (h : A -> A) k l : length (upd k h l) = length l.
Proof. unfold upd. destruct (l !! k); [by rewrite length_insert|done]. Qed.

Lemma core_ok_inactive pd c rs ps j : core_ok false (pd, c, rs, ps) -> core_ok false (pd, c, upd j inactive rs, ps).
Proof.
  intros [H1 H2 H3 H4 _]. constructor; cbn in *; try done.
  - intros n i Hi. destruct (H3 n i Hi) as (r & Hr & Hn). unfold upd. destruct (rs !! j) as [y|] eqn:Ej; [|eauto].
    destruct (decide (i = j)) as [->|Hij]; [|rewrite list_lookup_insert_ne by done; eauto].
    rewrite list_lookup_insert_eq by by eapply lookup_lt_Some. exists (inactive y). split; [done|]. cbn. congruence.
  - intros i r Hr Ha. apply upd_lookup in Hr as [(-> & y & _ & ->)|[_ Hr]]; [done|eauto].
Qed.

(** Another name keeps its active request. *)
Lemma backed_inactive pd c rs ps j n m : core_ok false (pd, c, rs, ps) -> assoc n ps = Some j -> m <> n ->
  backed (pd, c, rs, ps) m -> backed (pd, c, upd j inactive rs, ps) m.
Proof.
  intros [_ _ H3 H4 _] Hj Hmn (i & r & Hr & Ha & Hn). cbn in *. exists i, r. split; [|done]. cbn.
  assert (i <> j). { intros ->. destruct (H3 n j Hj) as (r' & Hr' & Hn'). congruence. }
  unfold upd. destruct (rs !! j); [by rewrite list_lookup_insert_ne|done].
Qed.

Lemma startRequest_ok strict n s : remote_ok strict s -> let s' := (startRequest n s).1 in
  remote_ok false s' /\ n ∈ pending (s_remote s') /\
  (forall m, strict = true -> m ∈ pending (s_remote s') -> m <> n -> backed (core s') m) /\ (startRequest n s).2 = Some tt.
Proof.
  intros H. assert (H' := core_ok_weaken _ _ H). destruct H as [H1 H2 H3 H4 H5]. unfold startRequest, bind, get.
  destruct (decide _) as [Hin|Hn]; [by repeat (split; [by auto|])|].
  cbn in *. split; [|split; [apply elem_of_app; right; by left|split; [|done]]].
  - constructor; cbn; try done.
    + rewrite length_app. cbn. lia.
    + apply NoDup_app. split; [done|]. split; [|apply NoDup_singleton]. intros x Hx ->%list_elem_of_singleton. done.
    + intros j r Hr Ha. destruct (H4 j r Hr Ha). split; [apply elem_of_app; by left|done].
  - intros m Hs Hm Hmn. apply elem_of_app in Hm as [Hm|Hm%list_elem_of_singleton]; [by apply H5|done].
Qed.

Lemma core_ok_send strict pd c rs ps k n i v : core_ok false (pd, c, rs, ps) -> n ∈ pd ->
  (forall j r, rs !! j = Some r -> r_active r = true -> r_name r <> n) ->
  (forall m, strict = true -> m ∈ pd -> m <> n -> backed (pd, c, rs, ps) m) ->
  core_ok strict (pd, c, rs ++ [Request k n i v true], assoc_set n (length rs) ps).
Proof.
  intros [H1 H2 H3 H4 _] Hn Hne Hb. constructor; cbn in *; try done.
  - intros m j Hj. destruct (decide (m = n)) as [->|Hmn].
    + rewrite assoc_set_same in Hj. injection Hj as <-. exists (Request k n i v true).
      by rewrite lookup_app_r, Nat.sub_diag.
    + rewrite assoc_set_other in Hj by done. destruct (H3 m j Hj) as (r & Hr & Hm). exists r.
      by rewrite lookup_app_l by by eapply lookup_lt_Some.
  - intros j r Hr Ha. apply lookup_app_Some in Hr as [Hr|[Hl Hr]].
    + destruct (H4 j r Hr Ha) as [Hin Hp]. split; [done|]. by rewrite assoc_set_other by eauto.
    + apply list_lookup_singleton_Some in Hr as [Hj <-]. cbn. split; [done|]. rewrite assoc_set_same. f_equal. lia.
  - intros m Hs Hm. destruct (decide (m = n)) as [->|Hmn].
    + exists (length rs), (Request k n i v true). split; [|done]. cbn. by rewrite lookup_app_r, Nat.sub_diag.
    + destruct (Hb m Hs Hm Hmn) as (j & r & Hr & Ha & Hrn). exists j, r. split; [|done]. cbn in *.
      by rewrite lookup_app_l by by eapply lookup_lt_Some.
Qed.

Lemma send_ok strict k n i v param s : remote_ok false s -> n ∈ pending (s_remote s) ->
  (forall m, strict = true -> m ∈ pending (s_remote s) -> m <> n -> backed (core s) m) ->
  remote_ok strict (send k n i v param s).1 /\ (send k n i v param s).2 = Some tt.
Proof.
  intros H Hn Hb. assert (Hc := H). unfold remote_ok, core in H. unfold core in Hb. unfold send, bind, get.
  set (ps := ports (s_remote s)) in *. set (rs := requests (s_remote s)) in *.
  destruct H as [H1 H2 H3 H4 _]. cbn in *.
  (* no active request has the name once the one on its port is aborted *)
  assert (Hfree : forall rs' : list remote_request, (forall j r, rs' !! j = Some r -> r_active r = true -> rs !! j = Some r /\ assoc n ps <> Some j) ->
             forall j r, rs' !! j = Some r -> r_active r = true -> r_name r <> n).
  { intros rs' Hsub j r Hr Ha Hrn. destruct (Hsub j r Hr Ha) as [Hr' Hj]. destruct (H4 j r Hr' Ha) as [_ Hp].
    rewrite Hrn in Hp. done. }
  destruct (assoc n ps) as [j|] eqn:Ej.
  - destruct (H3 n j Ej) as (r & Er & _). rewrite Er. destruct (r_active r) eqn:Ea; cbn; (split; [|done]).
    + unfold remote_ok, core. cbn. rewrite <- (upd_length inactive j rs).
      apply core_ok_send; [by apply core_ok_inactive|done| |].
      * apply Hfree. intros i' r' Hr' Ha'. apply upd_lookup in Hr' as [(-> & y & _ & ->)|[Hne Hr']]; [done|]. split; [done|congruence].
      * intros m Hs Hm Hmn. eapply backed_inactive; eauto.
    + apply core_ok_send; [done|done| |done]. apply Hfree. intros i' r' Hr' Ha'. split; [done|]. congruence.
  - cbn. split; [|done]. apply core_ok_send; [done|done| |done]. by apply Hfree.
Qed.

Section Parts.
Context {W : Page} (C : settings).

Lemma c_formatAndAdd k m param : keeps (same core) (formatAndAdd C k m param).
Proof. unfold formatAndAdd, put_errorList, put_errorMap, put_submitted. keeps_solve. Qed.
Lemma c_previousValue k f : keeps (same core) (previousValue C k f).
Proof. unfold previousValue, put_prevs, put_prev_of. keeps_solve. Qed.
Lemma c_put_previous i h : keeps (same core) (put_previous i h).
Proof. unfold put_previous, put_prevs. keeps_solve. Qed.
Lemma c_set_remote_message n msg : keeps (same core) (set_remote_message n msg).
Proof. unfold set_remote_message. keeps_solve. Qed.
Lemma c_showErrors e : keeps (same core) (showErrors C e).
Proof. unfold showErrors, put_errorMap, put_errorList, put_successList, emit. keeps_solve. Qed.
Lemma c_equalTo v k param : keeps (same core) (equalTo C v k param).
Proof. unfold equalTo, put_blurs. keeps_solve. Qed.
Hint Resolve c_formatAndAdd c_previousValue c_put_previous c_set_remote_message c_showErrors c_equalTo : keeps.

Lemma c_onfocusin k : keeps (same core) (onfocusin C k).
Proof. unfold onfocusin, unhighlight, put_lastActive. keeps_solve. Qed.
Lemma c_findLastActive : keeps (same core) findLastActive.
Proof. unfold findLastActive. keeps_solve. Qed.
Hint Resolve c_onfocusin c_findLastActive : keeps.
Lemma c_focusInvalid : keeps (same core) (focusInvalid C).
Proof. unfold focusInvalid, emit. keeps_solve. Qed.
Lemma c_handle : keeps (same core) (handle C).
Proof. unfold handle, emit. keeps_solve. Qed.
Lemma c_is_submitted f : keeps (same core) (is_submitted f).
Proof. unfold is_submitted. keeps_solve. Qed.
Lemma c_resetForm : keeps (same core) (resetForm C).
Proof. unfold resetForm, put_submitted, put_lastElement, put_pg, put_prev_of. keeps_solve. Qed.
End Parts.
#[export] Hint Resolve c_formatAndAdd c_previousValue c_put_previous c_set_remote_message c_showErrors c_equalTo
  c_onfocusin c_findLastActive c_focusInvalid c_handle c_is_submitted c_resetForm : keeps.

(** ** What every operation keeps, if requests and changes of other parts keep it *)

Section Chain.
Context {W : Page} (C : settings) (P : state -> state -> Prop) `{!PreOrder P}.
Context (ch_core : forall A (m : M A), keeps (same core) m -> keeps P m).
Context (ch_remote : forall v k f param, keeps P (remote C v k f param)).

Lemma p_check_rules k f v l mm : keeps (P) (check_rules C k f v l mm).
Proof.
  revert mm. induction l as [|[m param] l IH]; intros mm; cbn [check_rules]; [keeps_solve|].
  keeps_step; [keeps_solve|]. keeps_step.
  - unfold call_method. keeps_step; [keeps_solve|].
    destruct a; try (apply ch_core; unfold range_result; keeps_solve; fail). apply ch_remote.
  - destruct a0 as [| |[]]; try apply IH; apply ch_core; unfold put_toHide; keeps_solve.
Qed.
Lemma p_check k : keeps (P) (check C k).
Proof.
  unfold check. do 4 (keeps_step; [apply ch_core; keeps_solve|]). keeps_step; [apply p_check_rules|].
  apply ch_core. unfold put_successList. keeps_solve.
Qed.
Lemma p_form : keeps (P) (form C).
Proof.
  unfold form. keeps_step.
  - unfold checkForm. do 4 (keeps_step; [apply ch_core; unfold put_currentElements; keeps_solve|]).
    keeps_step. apply p_check.
  - apply ch_core. unfold put_submitted, put_invalid, emit. keeps_solve.
Qed.
Lemma p_element k : keeps (P) (element C k).
Proof.
  unfold element. do 7 (keeps_step; [apply ch_core; unfold put_lastElement, put_currentElements; keeps_solve|]).
  keeps_step; [apply p_check|]. apply ch_core. unfold put_invalid, put_toHide. keeps_solve.
Qed.

Lemma p_on_submit : keeps (P) (on_submit C).
Proof.
  unfold on_submit. keeps_step; [keeps_solve|]. destruct a.
  - apply ch_core. unfold put_cancelSubmit. keeps_solve.
  - keeps_step; [apply p_form|]. apply ch_core. unfold put_formSubmitted. keeps_solve.
Qed.
Lemma p_submit : keeps (P) (submit C).
Proof.
  unfold submit. destruct (onsubmit C); [keeps_step; [apply p_on_submit|]|]; apply ch_core; unfold emit; keeps_solve.
Qed.

Lemma p_resume ok : keeps (P) (resume C ok).
Proof.
  unfold resume. keeps_step; [keeps_solve|]. keeps_step; [keeps_solve|].
  destruct (_ && _); [|keeps_solve]. destruct ok; [|apply ch_core; unfold emit, put_formSubmitted; keeps_solve].
  keeps_step; [apply p_form|]. destruct a1; cbn [when]; [|keeps_solve].
  keeps_step; [apply p_submit|]. apply ch_core. unfold put_formSubmitted. keeps_solve.
Qed.

Lemma p_onblur k : keeps (P) (onblur C k).
Proof.
  unfold onblur. keeps_step; [keeps_solve|]. destruct (nassoc k a); [|keeps_solve]. keeps_step; [apply p_element|keeps_solve].
Qed.
Lemma p_when_element b k : keeps (P) (when b (element C k;;; ret tt)).
Proof. keeps_step. keeps_step; [apply p_element|keeps_solve]. Qed.

Definition is_answer (e : event) : bool := match e with Success _ _ | Failure _ => true | _ => false end.
Lemma p_handler e : is_answer e = false -> keeps P (handler C e).
Proof.
  intros He. destruct e as [k t|k b|k|k|k which|k|button cancel| | |id resp|id]; cbn [handler]; try done.
  all: try (apply ch_core; unfold put_pg, put_submitButton, put_cancelSubmit; keeps_solve; fail).
  - unfold onfocusout. keeps_step; [keeps_step; apply p_onblur|]. keeps_step; [apply ch_core; keeps_solve|]. keeps_step.
    do 3 (keeps_step; [apply ch_core; keeps_solve|]). apply p_when_element.
  - unfold onkeyup. keeps_step; [apply ch_core; keeps_solve|]. keeps_step.
    do 2 (keeps_step; [apply ch_core; keeps_solve|]). destruct (_ && _); [keeps_solve|].
    do 2 (keeps_step; [apply ch_core; keeps_solve|]). apply p_when_element.
  - unfold onclick. keeps_step; [apply ch_core; keeps_solve|]. keeps_step.
    do 2 (keeps_step; [apply ch_core; keeps_solve|]). apply p_when_element.
  - intros t. unfold user_submit. pose proof (p_submit t) as H. destruct (submit C t) as [t' [[]|]]; [exact H|].
    assert (Hw : keeps P (when (negb (debug C)) (emit OSubmit)))
      by (apply ch_core; unfold emit; keeps_solve). etransitivity; [exact H|apply Hw].
Qed.
End Chain.

(** ** Requests keep the invariant *)

Section Requests.
Context {W : Page} (C : settings) (strict : bool).
Local Abbreviation remote_ok := (remote_ok strict).

Lemma ok_remote v k f param : keeps (holds remote_ok) (remote C v k f param).
Proof.
  unfold remote. keeps_step; [keeps_solve|]. destruct (optional _ _ _); [keeps_solve|].
  keeps_step; [apply ok_same; keeps_solve|]. keeps_step; [keeps_solve|]. keeps_step; [apply ok_same; keeps_solve|].
  keeps_step; [keeps_solve|]. keeps_step; [apply ok_same; keeps_solve|]. keeps_step; [keeps_solve|].
  keeps_step; [keeps_solve|]. keeps_step; [apply ok_same; keeps_solve|].
  match goal with |- keeps _ (if ?b then _ else _) => destruct b end; [keeps_solve|].
  keeps_step; [apply ok_same; keeps_solve|]. intros s Hs.
  unfold bind. destruct (startRequest_ok _ (name f) s Hs) as (H1 & H2 & Hb & H3).
  destruct (startRequest (name f) s) as [s1 o]. cbn [fst snd] in *. subst o.
  destruct (send_ok strict k (name f) a0 v param s1 H1 H2 Hb) as [H4 _]. destruct (send k (name f) a0 v param s1) as [s2 [[]|]]; exact H4.
Qed.

(** A name whose request has just been answered. *)
Definition answered (n : jstr) (s : state) : Prop :=
  core_ok false (core s) /\ n ∈ pending (s_remote s) /\
  (forall j r, requests (s_remote s) !! j = Some r -> r_active r = true -> r_name r <> n) /\
  forall m, strict = true -> m ∈ pending (s_remote s) -> m <> n -> backed (core s) m.

Lemma filter_out_length (n : jstr) l : NoDup l -> n ∈ l -> length l = S (length (filter (fun m => m <> n) l)).
Proof.
  induction l as [|m l IH]; intros Hd Hin; [by apply elem_of_nil in Hin|].
  apply NoDup_cons in Hd as [Hm Hd]. destruct (decide (m = n)) as [->|Hne].
  - rewrite filter_cons_False by tauto. cbn. f_equal. clear -Hm. induction l as [|x l IH]; [done|].
    apply not_elem_of_cons in Hm as [Hx Hm]. rewrite filter_cons_True by done. cbn. f_equal. auto.
  - rewrite filter_cons_True by done. cbn. f_equal. apply IH; [done|]. by apply elem_of_cons in Hin as [?|?].
Qed.

Lemma stopRequest_ok n ok s : answered n s -> remote_ok (stopRequest C n ok s).1.
Proof.
  intros ([H1 H2 H3 H4 _] & Hn & Hfree & Hb). cbn in *.
  set (c := pendingRequest (s_remote s)).
  change (stopRequest C n ok s) with (resume C ok (set_s_remote (set_pending (filter (fun m => m <> n) (pending (s_remote s)))
    (set_pendingRequest (if c - 1 <? 0 then 0 else c - 1) (s_remote s))) s)). refine (p_resume C (holds remote_ok) (@ok_same strict) ok_remote ok _ _). subst c.
  pose proof (filter_out_length n _ H2 Hn) as Hl. constructor; cbn.
  - rewrite H1, Hl. rewrite (proj2 (Z.ltb_ge _ 0)) by lia. lia.
  - by apply NoDup_filter.
  - done.
  - intros j r Hr Ha. destruct (H4 j r Hr Ha). split; [|done]. apply list_elem_of_filter. split; [by eapply Hfree|done].
  - intros m Hs [Hmn Hm]%list_elem_of_filter. by apply Hb.
Qed.

(** A computation that ends with the name no longer under request, unless it throws. *)
Definition finishes {A} (n : jstr) (m : M A) : Prop :=
  forall s, answered n s -> (strict = false \/ (m s).2 <> None) -> remote_ok (m s).1.
Lemma finishes_bind {A B} n (m : M A) (k : A -> M B) :
  keeps (same core) m -> (forall a, finishes n (k a)) -> finishes n (bind m k).
Proof.
  intros Hm Hk s Hs. unfold bind. specialize (Hm s). unfold same in Hm.
  assert (Hs' : answered n (m s).1).
  { unfold answered in *. rewrite Hm. unfold core in Hm. injection Hm as -> _ -> _. exact Hs. }
  destruct (m s) as [s1 [a|]]; cbn [fst snd] in *; [by apply Hk|]. intros [Hf|]; [|done].
  destruct Hs' as [Hs' _]. by rewrite Hf.
Qed.

Lemma remote_success_ok id response s : remote_ok s ->
  (exists r, requests (s_remote s) !! id = Some r /\ r_active r = true) ->
  (strict = false \/ (remote_success C id response s).2 <> None) ->
  remote_ok (remote_success C id response s).1.
Proof.
  intros Hs (r & Hr & Ha). assert (Hw := core_ok_weaken _ _ Hs). destruct Hs as [H1 H2 H3 H4 H5]. cbn in H4. destruct (H4 id r Hr Ha) as [Hin Hp].
  set (s1 := set_s_remote (set_requests (upd id inactive (requests (s_remote s))) (s_remote s)) s).
  assert (H : answered (r_name r) s1).
  { split; [by apply core_ok_inactive|]. split; [done|]. split.
    - intros j r' Hr' Ha' Hn. cbn in Hr'.
      apply upd_lookup in Hr' as [(-> & y & _ & ->)|[Hne Hr']]; [done|]. destruct (H4 j r' Hr' Ha') as [_ Hp'].
      rewrite Hn, Hp in Hp'. congruence.
    - intros m Hst Hm Hmn. apply (backed_inactive _ _ _ _ id (r_name r)); [done|done|done|]. by apply H5. }
  assert (E : remote_success C id response s = on_success C r response s1)
    by (unfold remote_success, bind, get; by rewrite Hr).
  rewrite E. enough (Hf : finishes (r_name r) (on_success C r response)) by (exact (Hf s1 H)).
  unfold on_success.
  apply finishes_bind; [|intros _ t Ht _; by apply stopRequest_ok]. unfold on_answer.
  do 4 (keeps_step; [keeps_solve|]). keeps_step; [|keeps_solve].
  destruct (yes response); unfold put_formSubmitted, put_successList, put_invalid; keeps_solve.
Qed.

(** Every event keeps the invariant, the strict one if no request fails and the
    callback of an answer does not throw. *)
Definition smooth (e : event) (s : state) : Prop :=
  match e with Success _ _ => (handler C e s).2 <> None | Failure _ => False | _ => True end.
Lemma step_ok e s : remote_ok s -> enabled e s = true -> (strict = false \/ smooth e s) -> remote_ok (step C e s).
Proof.
  intros Hs He Hst. unfold step.
  enough (H : keeps (holds remote_ok) (handler C e) \/ (exists id resp, e = Success id resp) \/
            exists id, e = Failure id /\ strict = false).
  { destruct H as [H|[(id & resp & ->)|(id & -> & Hf)]]; [by apply H|..].
    - apply remote_success_ok; [done| |done]. cbn in He.
      destruct (requests (s_remote s) !! id) as [r|] eqn:E; [eauto|done].
    - unfold bind. cbn. unfold ValidatorProps.remote_ok in *. rewrite Hf in *. by apply core_ok_inactive. }
  destruct (is_answer e) eqn:E; [right|left; by apply (p_handler C (holds remote_ok) (@ok_same strict) ok_remote)].
  destruct e; try done; [left|right; destruct Hst as [?|[]]]; eauto.
Qed.
End Requests.

(** ** The requests of a session *)

Fixpoint smooth_run {W : Page} (C : settings) (es : list event) (s : state) : Prop :=
  match es with [] => True | e :: es => smooth C e s /\ smooth_run C es (step C e s) end.

Lemma steps_ok {W : Page} C strict s es s' : steps C s es s' -> (strict = false \/ smooth_run C es s) ->
  remote_ok strict s -> remote_ok strict s'.
Proof.
  induction 1 as [s|s e es s' He _ IH]; intros Hst Hs; [done|].
  apply IH; [destruct Hst as [?|[_ ?]]; auto|]. apply step_ok; [done|done|]. destruct Hst as [?|[? _]]; auto.
Qed.

Fixpoint all_enabled {W : Page} (C : settings) (es : list event) (s : state) : bool :=
  match es with [] => true | e :: es => enabled e s && all_enabled C es (step C e s) end.
Lemma run_steps {W : Page} C es : forall s, all_enabled C es s = true -> steps C s es (run C es s).
Proof.
  induction es as [|e es IH]; intros s H; [constructor|]. cbn in H. apply andb_true_iff in H as [H1 H2].
  econstructor; [done|]. by apply IH.
Qed.

Lemma init_ok strict p l messages statics : remote_ok strict (init p l messages statics).
Proof. constructor; cbn; try done; [constructor|by intros n _ H%elem_of_nil]. Qed.

(** C21. Whatever the user and the server do, the counter of the validator is the number of
    names under request - it never has to be kept from going below zero - and of the
    requests for one name only the last can still be answered. As long as no request
    fails and no callback throws, a name is under request exactly while a request for it
    is active, so the counter is zero when all are answered. *)
Theorem requests_counted {W : Page} C p l messages statics es s :
  steps C (init p l messages statics) es s ->
  pendingRequest (s_remote s) = Z.of_nat (length (pending (s_remote s))) /\ NoDup (pending (s_remote s)) /\
  (forall j r, requests (s_remote s) !! j = Some r -> r_active r = true ->
     r_name r ∈ pending (s_remote s) /\
     forall j' r', requests (s_remote s) !! j' = Some r' -> r_active r' = true -> r_name r' = r_name r -> j' = j) /\
  (smooth_run C es (init p l messages statics) ->
     (forall n, n ∈ pending (s_remote s) <->
        exists j r, requests (s_remote s) !! j = Some r /\ r_active r = true /\ r_name r = n) /\
     (Forall (fun r => r_active r = false) (requests (s_remote s)) -> pendingRequest (s_remote s) = 0)).
Proof.
  intros H. destruct (steps_ok C false _ _ _ H (or_introl eq_refl) (init_ok _ _ _ _ _)) as [H1 H2 H3 H4 _]. cbn in *.
  split; [done|]. split; [done|]. split.
  - intros j r Hr Ha. destruct (H4 j r Hr Ha) as [Hin Hp]. split; [done|]. intros j' r' Hr' Ha' E.
    destruct (H4 j' r' Hr' Ha') as [_ Hp']. rewrite E in Hp'. congruence.
  - intros Hsm. destruct (steps_ok C true _ _ _ H (or_intror Hsm) (init_ok _ _ _ _ _)) as [_ _ _ _ H5]. cbn in *.
    split.
    + intros n. split; [by apply H5|]. intros (j & r & Hr & Ha & <-). by eapply H4.
    + intros Hall. destruct (pending (s_remote s)) as [|n pd] eqn:E; [by rewrite H1|].
      destruct (H5 n eq_refl ltac:(by left)) as (j & r & Hr & Ha & _). cbn in Hr.
      rewrite Forall_lookup in Hall. specialize (Hall j r Hr). congruence.
Qed.

Definition session : list event := [Submit; Input 2 (u "b@b.cd"); Submit; Success 1 (PBool true)].
Lemma requests_counted_witness : let s := run (W := plain_page) default_config session (form0 (u "x") (u "20") (u "a@b.cd")) in
  pendingRequest (s_remote s) = Z.of_nat (length (pending (s_remote s))) /\ NoDup (pending (s_remote s)) /\
  (forall j r, requests (s_remote s) !! j = Some r -> r_active r = true ->
     r_name r ∈ pending (s_remote s) /\
     forall j' r', requests (s_remote s) !! j' = Some r' -> r_active r' = true -> r_name r' = r_name r -> j' = j) /\
  (smooth_run (W := plain_page) default_config session (form0 (u "x") (u "20") (u "a@b.cd")) ->
     (forall n, n ∈ pending (s_remote s) <->
        exists j r, requests (s_remote s) !! j = Some r /\ r_active r = true /\ r_name r = n) /\
     (Forall (fun r => r_active r = false) (requests (s_remote s)) -> pendingRequest (s_remote s) = 0)).
Proof.
  apply (requests_counted (W := plain_page) default_config _ _ _ _ session).
  apply run_steps. vm_compute. reflexivity.
Defined.
