(* ===== verification/ValidatorForm.v ===== *)
(** * What a check of the form finds: the first failing rule of each field, and when the
    form is submitted

    The outcome of a field is specified by its rules alone ([outcome]); [form_checks]
    says that the computation with all its changes of state ends with these outcomes. *)

From Stdlib Require Import ZArith Lia Sorted.
From stdpp Require Import base tactics list numbers strings.
From S2P Require Import Prelude JsValue Md5 ValidPage ValidMethods ValidRules Validator ValidatorProps.
Local Open Scope Z_scope.
Local Open Scope valid_scope.

Section Form.
Context {W : Page} (C : settings).

(** ** Specification *)

(** The methods that answer from the page alone. *)
Definition pure_meth (m : meth) : bool := match m with EqualTo | Remote => false | _ => true end.
Definition answers (s : state) (k : nat) (f : field) (q : jstr * rparam) (r : mresult) : Prop :=
  exists m, assoc q.1 (methods (reg C)) = Some m /\ pure_meth m = true /\
    (call_method C m (elementValue (the_page s) f) k f q.2 s).2 = Some r.
(** A rule is satisfied, or the field is empty and the rule says so. *)
Definition passes s k f q : Prop := answers s k f q (Verdict true) \/ answers s k f q DependencyMismatch.
Definition fails s k f q : Prop := answers s k f q (Verdict false).

(** The field that is checked for [k]: all its rules pass, or the first that fails gives
    the error. *)
Definition outcome (s : state) (k : nat) (o : option (prim * option nat)) : Prop :=
  exists t f l, validationTargetFor (the_page s) k = Some t /\ the_page s !! t = Some f /\
    field_rules (reg C) (s_rules s) (the_page s) t = Some l /\
    match o with
    | None => Forall (passes s t f) l
    | Some (msg, e) => exists before m param after, l = before ++ (m, param) :: after /\
        Forall (passes s t f) before /\ fails s t f (m, param) /\ e = Some t /\
        message_text t (defaultMessage C s t f m) param = Some msg
    end.

(** The same as a function: [None] where the specification says nothing. *)
Fixpoint judge (s : state) (k : nat) (f : field) (l : rules) : option (option (jstr * rparam)) :=
  match l with
  | [] => Some None
  | q :: l =>
      match assoc q.1 (methods (reg C)) with
      | Some m =>
          if pure_meth m then
            match (call_method C m (elementValue (the_page s) f) k f q.2 s).2 with
            | Some (Verdict false) => Some (Some q)
            | Some (Verdict true) | Some DependencyMismatch => judge s k f l
            | _ => None
            end
          else None
      | None => None
      end
  end.
Definition outcome_of (s : state) (k : nat) : option (option (prim * option nat)) :=
  t ← validationTargetFor (the_page s) k;
  f ← the_page s !! t;
  l ← field_rules (reg C) (s_rules s) (the_page s) t;
  v ← judge s t f l;
  match v with
  | None => Some None
  | Some (m, param) => msg ← message_text t (defaultMessage C s t f m) param; Some (Some (msg, Some t))
  end.

Lemma judge_spec s k f l v : judge s k f l = Some v ->
  match v with
  | None => Forall (passes s k f) l
  | Some q => exists before after, l = before ++ q :: after /\ Forall (passes s k f) before /\ fails s k f q
  end.
Proof.
  induction l as [|q l IH]; cbn [judge]; [by intros [= <-]|].
  destruct (assoc q.1 _) as [m|] eqn:Em; [|done]. destruct (pure_meth m) eqn:Ep; [|done].
  assert (Hskip : forall r, (call_method C m (elementValue (the_page s) f) k f q.2 s).2 = Some r ->
            r = Verdict true \/ r = DependencyMismatch -> passes s k f q).
  { intros r Hr [->| ->]; [left|right]; by exists m. }
  destruct (_.2) as [[| |[]]|] eqn:Er; try done; intros H.
  - specialize (IH H). pose proof (Hskip _ eq_refl ltac:(auto)) as Hq. destruct v as [q'|]; [|by constructor].
    destruct IH as (b & a & -> & Hb & Hf). exists (q :: b), a. split; [done|]. by split; [constructor|].
  - specialize (IH H). pose proof (Hskip _ eq_refl ltac:(auto)) as Hq. destruct v as [q'|]; [|by constructor].
    destruct IH as (b & a & -> & Hb & Hf). exists (q :: b), a. split; [done|]. by split; [constructor|].
  - injection H as <-. exists [], l. split; [done|]. split; [constructor|]. by exists m.
Qed.
Lemma outcome_of_spec s k o : outcome_of s k = Some o -> outcome s k o.
Proof.
  unfold outcome_of. intros (t & Ht & (f & Hf & (l & Hl & (v & Hv%judge_spec & H)%bind_Some)%bind_Some)%bind_Some)%bind_Some.
  exists t, f, l. repeat (split; [done|]). destruct v as [[m param]|].
  - apply bind_Some in H as (msg & Hmsg & [= <-]). destruct Hv as (b & a & -> & Hb & Hfail). eauto 10.
  - by injection H as <-.
Qed.
Lemma outcomes_of s els outcomes : mapM (outcome_of s) els = Some outcomes -> Forall2 (outcome s) els outcomes.
Proof. intros H%mapM_Some. eapply Forall2_impl; [exact H|]. apply outcome_of_spec. Qed.

(** ** The check of one field *)

(** What a check reads. *)
Definition input (s : state) := (the_page s, s_messages s, s_rules s).
Lemma input_eq s s' : input s' = input s -> the_page s' = the_page s /\ s_messages s' = s_messages s /\ s_rules s' = s_rules s.
Proof. unfold input. by intros [= -> -> ->]. Qed.

Lemma call_pure m v k f param s : pure_meth m = true -> (call_method C m v k f param s).1 = s.
Proof.
  intros Hm. unfold call_method, bind, get. destruct m; try done; unfold range_result; repeat case_match; done.
Qed.
Lemma call_pure_input m v k f param s s' : pure_meth m = true -> the_page s' = the_page s ->
  (call_method C m v k f param s').2 = (call_method C m v k f param s).2.
Proof.
  intros Hm Hp. unfold call_method, bind, get. rewrite Hp. destruct m; try done; unfold range_result; repeat case_match; done.
Qed.
Lemma answers_input s s' k f q r : the_page s' = the_page s -> answers s k f q r -> answers s' k f q r.
Proof.
  intros Hp (m & Hm & Hpure & H). exists m. split; [done|]. split; [done|]. by rewrite Hp, (call_pure_input _ _ _ _ _ s).
Qed.

(** Everything but the lists of the check and what is submitted. *)
Definition rest (s : state) := (s_view s, s_messages s, s_rules s, invalid s, s_remote s, s_control s, outs s).

Lemma answers_call s k f q r : answers s k f q r -> exists m, assoc q.1 (methods (reg C)) = Some m /\
  call_method C m (elementValue (the_page s) f) k f q.2 s = (s, Some r).
Proof.
  intros (m & Hm & Hp & Hr). exists m. split; [done|].
  pose proof (call_pure m (elementValue (the_page s) f) k f q.2 s Hp) as E.
  destruct (call_method C m (elementValue (the_page s) f) k f q.2 s) as [s1 o]. cbn [fst snd] in *. congruence.
Qed.

(** A rule that passes is skipped. *)
Lemma check_rules_skip s k f q l mm : passes s k f q -> exists mm',
  check_rules C k f (elementValue (the_page s) f) (q :: l) mm s = check_rules C k f (elementValue (the_page s) f) l mm' s.
Proof.
  destruct q as [n param]. intros [H|H]; apply answers_call in H as (m & Hm & Hcall); cbn [fst snd] in *;
    cbn [check_rules]; unfold bind at 1; rewrite Hm; cbn [of_option ret]; unfold bind at 1; rewrite Hcall; by eexists.
Qed.

Lemma check_rules_pass s k f l : Forall (passes s k f) l -> forall mm,
  exists r, check_rules C k f (elementValue (the_page s) f) l mm s = (s, Some r) /\ r <> Checked false.
Proof.
  induction 1 as [|q l Hq Hl IH]; intros mm.
  - exists (if mm then Undefined else Checked true). by destruct mm.
  - destruct (check_rules_skip s k f q l mm Hq) as [mm' ->]. apply IH.
Qed.

Definition add_error (s : state) (f : field) (k : nat) (t : prim) : state :=
  set_submitted (assoc_set (name f) t (submitted s))
    (set_s_checks (set_errorMap (assoc_set (name f) t (errorMap (s_checks s)))
      (set_errorList (errorList (s_checks s) ++ [(t, Some k)]) (s_checks s))) s).

Lemma check_rules_fail s k f before m param after t : the_page s !! k = Some f ->
  Forall (passes s k f) before -> fails s k f (m, param) ->
  message_text k (defaultMessage C s k f m) param = Some t -> forall mm,
  check_rules C k f (elementValue (the_page s) f) (before ++ (m, param) :: after) mm s
  = (add_error s f k t, Some (Checked false)).
Proof.
  intros Hf Hb Hq Ht. apply answers_call in Hq as (me & Hm & Hcall). cbn [fst snd] in *.
  induction Hb as [|q l Hq Hl IH]; intros mm; cbn [app].
  - cbn [check_rules]. unfold bind at 1. rewrite Hm. cbn [of_option ret]. unfold bind at 1. rewrite Hcall.
    unfold bind, formatAndAdd, the_field, bind, get, of_option. rewrite Hf. cbn [ret]. by rewrite Ht.
  - destruct (check_rules_skip s k f q (l ++ (m, param) :: after) mm Hq) as [mm' ->]. apply IH.
Qed.

Lemma passes_input s s' k f q : the_page s' = the_page s -> passes s k f q -> passes s' k f q.
Proof. intros Hp [H|H]; [left|right]; by eapply answers_input. Qed.
Lemma Forall_passes_input s s' k f l : the_page s' = the_page s -> Forall (passes s k f) l -> Forall (passes s' k f) l.
Proof. intros Hp H. eapply Forall_impl; [exact H|]. intros q. by apply passes_input. Qed.
Lemma message_input s s' k f m : s_messages s' = s_messages s -> defaultMessage C s' k f m = defaultMessage C s k f m.
Proof. intros H. unfold defaultMessage, customMessage. by rewrite H. Qed.

Lemma outcome_input s s' k o : input s' = input s -> outcome s k o -> outcome s' k o.
Proof.
  intros (Hp & Hm & Hr)%input_eq (t & f & l & Ht & Hf & Hl & H). exists t, f, l. rewrite Hp, Hr. repeat (split; [done|]).
  destruct o as [[msg e]|]; [|by apply (Forall_passes_input s)].
  destruct H as (b & m & param & a & -> & Hb & Hfail & He & Hmsg). exists b, m, param, a. split; [done|].
  split; [by apply (Forall_passes_input s)|]. split; [by eapply answers_input|]. split; [done|].
  by rewrite (message_input s).
Qed.

Definition lookup_field (p : page) (k : nat) : option field := p !! k.

(** The fields that a state refers to are there. *)
Definition known (s : state) (k : nat) : Prop := (k < length (the_page s))%nat.
Definition known_checks (s : state) : Prop :=
  Forall (known s) (successList (s_checks s)) /\ Forall (known s) (currentElements (s_checks s)) /\
  Forall (fun q => exists k, q.2 = Some k /\ known s k) (errorList (s_checks s)).

(** The names in the order in which their errors are found. *)
Definition add_names (p : page) (em : list (jstr * prim)) (errs : list (prim * option nat)) : list (jstr * prim) :=
  fold_left (fun em '(t, k) => match k ≫= lookup_field p with Some f => assoc_set (name f) t em | None => em end) errs em.

Record checked_to (s s' : state) (errs : list (prim * option nat)) : Prop := {
  ct_rest : rest s' = rest s;
  ct_errors : errorList (s_checks s') = errorList (s_checks s) ++ errs;
  ct_map : errorMap (s_checks s') = add_names (the_page s) (errorMap (s_checks s)) errs;
  ct_shown : toShow (s_checks s') = toShow (s_checks s) /\ toHide (s_checks s') = toHide (s_checks s);
  ct_elements : currentElements (s_checks s') = currentElements (s_checks s);
  ct_known : known_checks s -> known_checks s'
}.

Lemma rest_input s s' : rest s' = rest s -> input s' = input s.
Proof. unfold rest, input, the_page. by intros [= -> -> -> _ _ _ _]. Qed.

Lemma check_outcome s k o : outcome s k o ->
  exists s' r, check C k s = (s', Some r) /\ checked_to s s' (option_list o).
Proof.
  intros (t & f & l & Ht & Hf & Hl & H).
  assert (Hrun : forall s1 r, check_rules C t f (elementValue (the_page s) f) l false s = (s1, Some r) ->
            check C k s = (if bool_decide (r = Checked true /\ l <> []) then
              set_s_checks (set_successList (successList (s_checks s1) ++ [t]) (s_checks s1)) s1 else s1, Some r)).
  { intros s1 r E. unfold check, the_field, rules_of, bind, get, of_option. rewrite Ht. cbn [ret]. rewrite Hf. cbn [ret].
    rewrite Hl. cbn [ret]. rewrite E. by case_bool_decide. }
  assert (Hk : known s t) by by eapply lookup_lt_Some.
  destruct o as [[msg e]|].
  - destruct H as (b & m & param & a & -> & Hb & Hfail & -> & Hmsg).
    rewrite (Hrun _ _ (check_rules_fail s t f b m param a msg Hf Hb Hfail Hmsg false)).
    rewrite bool_decide_eq_false_2 by by intros [? _]. do 2 eexists. split; [done|]. constructor; try done.
    + cbn. unfold lookup_field. cbn. by rewrite Hf.
    + intros (H1 & H2 & H3). split; [done|]. split; [done|]. cbn. apply Forall_app. split; [done|].
      constructor; [|done]. cbn. eauto.
  - destruct (check_rules_pass s t f l H false) as (r & E & Hr). rewrite (Hrun _ _ E). do 2 eexists. split; [done|].
    case_bool_decide; constructor; cbn; try done; try (by rewrite app_nil_r).
    intros (H1 & H2 & H3). split; [|by split]. apply Forall_app. by split; [|constructor].
Qed.

Lemma checked_to_trans s s' s'' e e' : checked_to s s' e -> checked_to s' s'' e' -> checked_to s s'' (e ++ e').
Proof.
  intros [A1 A2 A3 [A6 A7] A4 A5] [B1 B2 B3 [B6 B7] B4 B5]. pose proof (rest_input _ _ A1) as (Hp & _)%input_eq. constructor.
  - congruence.
  - by rewrite B2, A2, app_assoc.
  - rewrite B3, A3, Hp. unfold add_names. by rewrite fold_left_app.
  - split; congruence.
  - congruence.
  - auto.
Qed.

(** The errors of some fields in their order. *)
Definition errors_of (outcomes : list (option (prim * option nat))) : list (prim * option nat) :=
  flat_map option_list outcomes.

Lemma iter_check s els outcomes : Forall2 (outcome s) els outcomes -> forall s1, input s1 = input s ->
  exists s', iter (check C) els s1 = (s', Some tt) /\ checked_to s1 s' (errors_of outcomes).
Proof.
  induction 1 as [|k o els outcomes Ho H IH]; intros s1 Hin.
  - exists s1. split; [done|]. constructor; try done. by rewrite app_nil_r.
  - destruct (check_outcome s1 k o (outcome_input s s1 k o Hin Ho)) as (s2 & r & E & Hc).
    pose proof (rest_input _ _ (ct_rest _ _ _ Hc)) as Hin'. destruct (IH s2 ltac:(congruence)) as (s3 & E' & Hc').
    exists s3. split; [|by eapply checked_to_trans]. cbn [iter]. unfold bind. by rewrite E.
Qed.

(** ** Showing the errors *)

(** Runs that end without an exception and keep the lists of the check and the number
    of fields. *)
Definition shape (s : state) := (length (the_page s), errorList (s_checks s), currentElements (s_checks s), successList (s_checks s)).
Definition total (n : nat) {A} (m : M A) : Prop :=
  forall s, length (the_page s) = n -> known_checks s -> shape (m s).1 = shape s /\ exists a, (m s).2 = Some a.

Lemma known_shape s s' : shape s' = shape s -> known_checks s -> known_checks s'.
Proof. unfold shape, known_checks, known. intros [= -> -> -> ->]. done. Qed.
Lemma shape_length s s' : shape s' = shape s -> length (the_page s') = length (the_page s).
Proof. by intros [=]. Qed.

Lemma total_ret n {A} (a : A) : total n (ret a).
Proof. intros s _ _. split; [done|by exists a]. Qed.
Lemma total_bind n {A B} (m : M A) (k : A -> M B) : total n m -> (forall a, total n (k a)) -> total n (bind m k).
Proof.
  intros Hm Hk s Hn Hs. destruct (Hm s Hn Hs) as (E & a & Ha). unfold bind. destruct (m s) as [s1 o]. cbn [fst snd] in *. subst o.
  destruct (Hk a s1) as (E' & b & Hb); [by rewrite (shape_length _ _ E)|by eapply known_shape|].
  split; [congruence|by exists b].
Qed.
(** What is read from a state may be used. *)
Lemma total_get n {A B} (g : state -> A) (k : A -> M B) :
  (forall s, length (the_page s) = n -> known_checks s -> total n (k (g s))) -> total n (bind (get g) k).
Proof. intros H s Hn Hs. unfold bind. cbn. by apply H. Qed.
Lemma total_modify n g : (forall s, shape (g s) = shape s) -> total n (modify g).
Proof. intros H s _ _. cbn. split; [apply H|by exists tt]. Qed.
Lemma total_when n b m : total n m -> total n (when b m).
Proof. destruct b; [done|]. intros _. apply total_ret. Qed.
Lemma total_iter n {A B} (f : A -> M B) l : Forall (fun x => total n (f x)) l -> total n (iter f l).
Proof. induction 1; [apply total_ret|by apply total_bind]. Qed.
Lemma total_iter_all n {A B} (f : A -> M B) l : (forall x, total n (f x)) -> total n (iter f l).
Proof. intros H. apply total_iter. apply Forall_forall. auto. Qed.

Ltac total_step :=
  match goal with
  | |- total _ (bind (get _) _) => apply total_get; intros ? ? ?; cbn beta
  | |- total _ (bind _ _) => apply total_bind; [|intros ?]
  | |- total _ (ret _) => apply total_ret
  | |- total _ (when _ _) => apply total_when
  | |- total _ (modify _) => apply total_modify; intros ?; reflexivity
  | |- total _ (iter _ _) => apply total_iter_all; intros ?
  | |- total _ (if ?b then _ else _) => destruct b
  | |- total _ (match ?x with _ => _ end) => destruct x
  end.
Ltac total_solve := repeat total_step.

Lemma upd_page_length (h : field -> field) js p : length (fold_left (fun p j => upd j h p) js p) = length p.
Proof. revert p. induction js as [|j js IH]; intros p; [done|]. cbn. by rewrite IH, upd_length. Qed.

Lemma total_field n k : (k < n)%nat -> total n (the_field k).
Proof.
  intros Hk. unfold the_field. apply total_get. intros s Hn _. cbn beta.
  destruct (lookup_lt_is_Some_2 (the_page s) k) as [f Hf]; [lia|]. change (the_page s !! k) with (@lookup nat field (list field) list_lookup k (the_page s)). rewrite Hf. apply total_ret.
Qed.
Lemma total_swap n a b k : (k < n)%nat -> total n (swap_classes a b k).
Proof.
  intros Hk. unfold swap_classes. apply total_bind; [by apply total_field|]. intros f. intros s Hn Hs.
  unfold bind, get, put_pg, modify. split; [|by exists tt]. unfold shape, the_page. cbn. by rewrite upd_page_length.
Qed.
Lemma total_toggle n b t : total n (toggle b t).
Proof. unfold toggle, update_label, put_labels, put_containers_shown. total_solve. Qed.
Lemma total_showLabel n k m : (k < n)%nat -> total n (showLabel C k m).
Proof.
  intros Hk. unfold showLabel, put_labels, update_label, put_labels, put_toShow. apply total_bind; [by apply total_field|].
  intros f. total_solve.
Qed.

Lemma total_labels n l : Forall (fun k => (k < n)%nat) l -> total n (iter (fun k => showLabel C k PUndef) l).
Proof. intros H. apply total_iter. eapply Forall_impl; [exact H|]. intros k. apply total_showLabel. Qed.

Lemma total_defaultShowErrors n : total n (defaultShowErrors C).
Proof.
  unfold defaultShowErrors. apply total_get. intros s Hn (_ & _ & Herr). cbn beta. apply total_bind.
  { apply total_iter. eapply Forall_impl; [exact Herr|]. intros [t k] (j & E & Hj). cbn in E. subst k.
    unfold known in Hj. rewrite Hn in Hj.
    change (total n (when (highlights C) (highlight C j);;; showLabel C j t)).
    apply total_bind; [apply total_when; by apply total_swap|]. intros _. by apply total_showLabel. }
  intros _. apply total_bind; [unfold put_toShow; total_solve|]. intros _. apply total_bind.
  { apply total_when. apply total_get. intros s1 Hn1 (Hok & _). cbn beta. apply total_labels. by rewrite <- Hn1. }
  intros _. apply total_bind; [|intros _; unfold put_toHide, hideErrors; total_solve; apply total_toggle].
  apply total_when. apply total_get. intros s1 Hn1 (_ & Hcur & _). cbn beta. apply total_iter.
  apply Forall_forall. intros k [_ Hk]%list_elem_of_filter. rewrite Forall_forall in Hcur. specialize (Hcur k Hk).
  apply total_swap. unfold known in Hcur. by rewrite Hn1 in Hcur.
Qed.

Lemma total_showErrors n : total n (showErrors C None).
Proof.
  unfold showErrors. apply total_bind; [apply total_ret|]. intros _.
  destruct (custom_showErrors C); [unfold emit; total_solve|apply total_defaultShowErrors].
Qed.

(** ** The form *)

Lemma with_rules_known s cache l els : with_rules C s cache l = Some els -> Forall (known s) els.
Proof.
  revert cache els. induction l as [|k l IH]; intros cache els; cbn [with_rules]; [by intros [= <-]|].
  destruct (the_page s !! k) as [f|] eqn:Ef; [|apply IH]. destruct (decide _); [apply IH|].
  destruct (field_rules _ _ _ _) as [[|q r]|]; [apply IH| |done].
  destruct (with_rules C s (name f :: cache) l) as [els'|] eqn:E; [|done]. intros [= <-].
  constructor; [by eapply lookup_lt_Some|by eapply IH].
Qed.

(** What showing the errors leaves. *)
Definition unshown (s : state) := (s_messages s, s_rules s, submitted s, invalid s, s_remote s, s_control s).
#[local] Instance unshown_undisplayed : Undisplayed unshown.
Proof. by split. Qed.
Lemma k_showErrors e : keeps (same unshown) (showErrors C e).
Proof.
  unfold showErrors, put_errorMap, put_errorList, put_successList, emit.
  repeat (first [solve [auto using unshown_undisplayed with keeps]
                |solve [apply keeps_modify; intros ?; reflexivity] | keeps_step]).
Qed.

Lemma elements_input s s' : input s' = input s -> elements C s' = elements C s.
Proof.
  intros (Hp & _ & Hr)%input_eq. unfold elements. rewrite Hp.
  generalize (filter (fun k => ignored (the_page s) k = false) (find_fields kept_by_find (the_page s))). intros l.
  generalize (@nil jstr). induction l as [|k l IH]; intros cache; [done|]. cbn [with_rules]. rewrite Hp, Hr.
  destruct (the_page s !! k) as [f|]; [|apply IH]. destruct (decide _); [apply IH|].
  destruct (field_rules _ _ _ _) as [[|q r]|]; [apply IH|by rewrite IH|done].
Qed.

(** The state in which the fields are checked one after the other. *)
Definition prepared (s : state) (els : list nat) : state :=
  set_s_checks (Checks [] [] [] nothing (ShownSet (errors C s) true) els) s.
Lemma checkForm_runs s els outcomes : elements C s = Some els -> Forall2 (outcome s) els outcomes ->
  exists s', checkForm C s = (s', Some tt) /\ checked_to (prepared s els) s' (errors_of outcomes) /\ known_checks s'.
Proof.
  intros Hels Ho. destruct (iter_check s els outcomes Ho (prepared s els) eq_refl) as (s' & E & Hc).
  exists s'. split; [|split; [done|apply (ct_known _ _ _ Hc)]].
  - unfold checkForm, bind at 1. cbn [prepareForm reset].
    set (s1 := set_s_checks (Checks [] [] [] nothing (ShownSet (errors C s) true) []) s).
    change (prepareForm C s) with (s1, Some tt). unfold bind at 1. cbn [get].
    rewrite (elements_input s s1) by done. rewrite Hels. exact E.
  - split; [constructor|]. split; [|constructor]. cbn. apply (with_rules_known s [] _ _ Hels).
Qed.

(** The state in which the errors are shown. *)
Lemma form_runs s els outcomes : elements C s = Some els -> Forall2 (outcome s) els outcomes ->
  let errs := errors_of outcomes in exists s3,
  form C s = (showErrors C None;;; get valid) s3 /\
  known_checks s3 /\ errorList (s_checks s3) = errs /\ s_view s3 = s_view s /\
  toShow (s_checks s3) = nothing /\ toHide (s_checks s3) = ShownSet (errors C s) true /\
  invalid s3 = add_names (the_page s) [] errs /\ s_remote s3 = s_remote s /\ s_control s3 = s_control s.
Proof.
  intros Hels Ho errs. destruct (checkForm_runs s els outcomes Hels Ho) as (s1 & E & [C1 C2 C3 [C5 C6] C4 _] & Hk).
  fold errs in C2, C3. cbn in C2, C3, C5, C6.
  set (s2 := set_invalid (errorMap (s_checks s1)) (set_submitted (extend (submitted s1) (errorMap (s_checks s1))) s1)).
  set (s3 := if bool_decide (errs = []) then s2 else set_outs (outs s2 ++ [OInvalid]) s2).
  assert (Hv : valid s2 = bool_decide (errs = [])) by (unfold valid, size, s2; cbn; rewrite C2; by destruct errs).
  exists s3. split.
  { unfold form, bind at 1. rewrite E. unfold bind, get, put_submitted, put_invalid, modify. fold s2.
    rewrite Hv. unfold s3, emit, when, modify. by case_bool_decide. }
  assert (Hs3 : s_checks s3 = s_checks s1 /\ s_view s3 = s_view s1 /\ invalid s3 = errorMap (s_checks s1) /\
                s_remote s3 = s_remote s1 /\ s_control s3 = s_control s1)
    by (unfold s3; by case_bool_decide).
  destruct Hs3 as (K1 & K2 & K3 & K4 & K5). unfold rest in C1. injection C1 as V1 _ _ _ R1 R2 _.
  split; [unfold known_checks, known, the_page in *; rewrite K1, K2; exact Hk|].
  rewrite K1, K2, K3, K4, K5, V1, R1, R2, C2, C3, C5, C6. done.
Qed.

(** The form is checked: every field has its outcome, the errors are those of the fields
    that fail in the order of the page, the result is whether there are none, and only
    the page and what the check keeps have changed. *)
Lemma form_checks s els outcomes : elements C s = Some els -> Forall2 (outcome s) els outcomes ->
  let errs := errors_of outcomes in let s' := (form C s).1 in
  (form C s).2 = Some (bool_decide (errs = [])) /\
  errorList (s_checks s') = errs /\
  invalid s' = add_names (the_page s) [] errs /\
  s_remote s' = s_remote s /\ s_control s' = s_control s.
Proof.
  intros Hels Ho errs. destruct (form_runs s els outcomes Hels Ho) as (s3 & E3 & Hk3 & K1 & _ & _ & _ & K2 & K3 & K4).
  fold errs in K1, K2.
  destruct (total_showErrors (length (the_page s3)) s3 eq_refl Hk3) as (Hsh & [] & Hres).
  pose proof (k_showErrors None s3) as Hun. unfold same in Hun.
  assert (Hfin : errorList (s_checks (showErrors C None s3).1) = errs)
    by (unfold shape in Hsh; injection Hsh as _ Hsh _ _; by rewrite Hsh).
  rewrite E3. unfold bind. destruct (showErrors C None s3) as [s4 o]. cbn [fst snd] in *. subst o. cbn [get fst snd].
  assert (Hv : valid s4 = bool_decide (errs = [])) by (unfold valid, size; rewrite Hfin; by destruct errs).
  rewrite Hv. split; [done|]. split; [done|]. unfold unshown in Hun. injection Hun as _ _ _ U1 U2 U3.
  by rewrite U1, U2, U3, K2, K3, K4.
Qed.

(** ** The fields of a check

    A field that a check can take: an input, select or textarea of the form that is no
    button, is not disabled and not ignored, and has rules. *)
Definition candidate (s : state) (k : nat) (f : field) : Prop :=
  the_page s !! k = Some f /\ kept_by_find f = true /\ ignored (the_page s) k = false.
Definition wanted (s : state) (k : nat) (f : field) : Prop :=
  candidate s k f /\ exists q r, field_rules (reg C) (s_rules s) (the_page s) k = Some (q :: r).
(** The fields that are checked, in the order of the page: of those with one name the first. *)
Definition checked_fields (s : state) (els : list nat) : Prop :=
  StronglySorted lt els /\
  forall k, k ∈ els <-> exists f, wanted s k f /\ forall j g, (j < k)%nat -> wanted s j g -> name g <> name f.
(** Reading the rules of no field throws. *)
Definition rules_read (s : state) : Prop :=
  forall k f, candidate s k f -> field_rules (reg C) (s_rules s) (the_page s) k <> None.

Lemma find_fields_sorted cond p : StronglySorted lt (find_fields cond p) /\
  forall k, k ∈ find_fields cond p <-> exists f, p !! k = Some f /\ cond f = true.
Proof.
  unfold find_fields. assert (G : forall p n, StronglySorted lt (map fst (filter (fun q => cond q.2 = true) (imap (fun i f => ((n + i)%nat, f)) p))) /\
    forall k, k ∈ map fst (filter (fun q => cond q.2 = true) (imap (fun i f => ((n + i)%nat, f)) p)) <-> exists i f, k = (n + i)%nat /\ p !! i = Some f /\ cond f = true).
  { clear p. induction p as [|f p IH]; intros n; [split; [constructor|]; intros k; cbn; rewrite elem_of_nil; split; [done|by intros (i & f & _ & H & _)]|].
    destruct (IH (S n)) as [H1 H2]. cbn [imap].
    assert (E : imap ((fun i f => ((n + i)%nat, f)) ∘ S) p = imap (fun i f => ((S n + i)%nat, f)) p) by (apply imap_ext; intros; cbn; f_equal; lia).
    rewrite E. assert (H3 : forall k, k ∈ map fst (filter (fun q => cond q.2 = true) (imap (fun i f => ((S n + i)%nat, f)) p)) <->
      exists i g, k = (n + S i)%nat /\ p !! i = Some g /\ cond g = true).
    { intros k. rewrite H2. split; intros (i & g & -> & Hg); exists i, g; (split; [lia|done]). }
    rewrite filter_cons. cbn [snd]. case_decide as Hf; cbn [map fst].
    - split; [constructor; [done|]; apply Forall_forall; intros k (i & g & -> & _)%H3; lia|]. intros k. rewrite elem_of_cons, H3. split.
      + intros [->|(i & g & -> & Hg)]; [by exists 0%nat, f|by exists (S i), g].
      + intros ([|i] & g & -> & Hg & Hc); [left; lia|right; by exists i, g].
    - split; [done|]. intros k. rewrite H3. split.
      + intros (i & g & -> & Hg). by exists (S i), g.
      + intros ([|i] & g & -> & Hg & Hc); [injection Hg as ->; done|by exists i, g]. }
  destruct (G p 0%nat) as [G1 G2]. split; [exact G1|]. intros k. etransitivity; [apply G2|]. split.
  - intros (i & f & -> & Hf). by exists f.
  - intros (f & Hf). by exists k, f.
Qed.
Lemma sorted_filter {P : nat -> Prop} `{!forall k, Decision (P k)} l : StronglySorted lt l -> StronglySorted lt (filter P l).
Proof.
  induction 1 as [|k l Hl IH Hk]; [constructor|]. rewrite filter_cons. case_decide; [|done]. constructor; [done|].
  rewrite Forall_forall in Hk |- *. intros j [_ Hj]%list_elem_of_filter. by apply Hk.
Qed.
Lemma with_rules_spec s : rules_read s -> forall l, StronglySorted lt l -> Forall (fun k => exists f, candidate s k f) l -> forall used,
  exists els, with_rules C s used l = Some els /\ StronglySorted lt els /\
    forall k, k ∈ els <-> exists f, k ∈ l /\ wanted s k f /\ name f ∉ used /\ forall j g, j ∈ l -> (j < k)%nat -> wanted s j g -> name g <> name f.
Proof.
  intros Hread l Hl Hc. induction Hl as [|k l Hl IH Hk]; intros used; cbn [with_rules].
  { exists []. split; [done|]. split; [constructor|]. intros k. rewrite elem_of_nil. split; [done|]. by intros (f & H%elem_of_nil & _). }
  apply Forall_cons in Hc as [(f & Hf) Hc]. specialize (IH Hc). pose proof Hf as [Hp _]. rewrite Hp.
  assert (Hown : forall g, wanted s k g -> g = f) by (intros g [[Hg _] _]; congruence). rewrite Forall_forall in Hk.
  
  assert (Hskip : (forall g, wanted s k g -> name g ∈ used) -> forall els : list nat,
    (forall j, j ∈ els <-> exists g, j ∈ l /\ wanted s j g /\ name g ∉ used /\ forall i h, i ∈ l -> (i < j)%nat -> wanted s i h -> name h <> name g) ->
    forall j, j ∈ els <-> exists g, j ∈ k :: l /\ wanted s j g /\ name g ∉ used /\ forall i h, i ∈ k :: l -> (i < j)%nat -> wanted s i h -> name h <> name g).
  { intros Hu els He j. rewrite He. split; intros (g & Hj & Hg & Hn & Hlt); exists g.
    - split; [by right|]. split; [done|]. split; [done|]. intros i h [->|Hi]%elem_of_cons Hij Hh; [|by apply (Hlt i)].
      intros E. apply Hn. rewrite <- E. by apply Hu.
    - apply elem_of_cons in Hj as [->|Hj]; [by destruct Hn; apply Hu|]. split; [done|]. split; [done|]. split; [done|].
      intros i h Hi. apply Hlt. by right. }
  destruct (decide (name f ∈ used)) as [Hu|Hu].
  - destruct (IH used) as (els & E & Hs & He). exists els. split; [done|]. split; [done|]. apply Hskip; [|exact He]. intros g Hg. by rewrite (Hown g Hg).
  - destruct (field_rules (reg C) (s_rules s) (the_page s) k) as [[|q r]|] eqn:Er; [| |by destruct (Hread k f Hf)].
    + destruct (IH used) as (els & E & Hs & He). exists els. split; [done|]. split; [done|]. apply Hskip; [|exact He]. intros g (_ & q & r & Hq). congruence.
    + destruct (IH (name f :: used)) as (els & E & Hs & He). exists (k :: els). rewrite E. split; [done|].
      assert (Hw : wanted s k f) by (split; [done|by exists q, r]). split.
      * constructor; [done|]. apply Forall_forall. intros j (g & Hj & _)%He. by apply Hk.
      * intros j. rewrite elem_of_cons, He. split.
        -- intros [->|(g & Hj & Hg & [Hn1 Hn2]%not_elem_of_cons & Hlt)].
           ++ exists f. split; [by left|]. split; [done|]. split; [done|]. intros i h [->|Hi]%elem_of_cons Hij; [lia|]. specialize (Hk i Hi). lia.
           ++ exists g. split; [by right|]. split; [done|]. split; [done|]. intros i h [->|Hi]%elem_of_cons Hij Hh; [|by apply (Hlt i)].
              rewrite (Hown h Hh). congruence.
        -- intros (g & Hj & Hg & Hn & Hlt). apply elem_of_cons in Hj as [->|Hj]; [by left|right]. exists g. split; [done|]. split; [done|]. split.
           ++ apply not_elem_of_cons. split; [|done]. intros E'. by apply (Hlt k f ltac:(by left) (Hk j Hj) Hw).
           ++ intros i h Hi. apply Hlt. by right.
Qed.
Lemma sorted_unique l1 : forall l2, StronglySorted lt l1 -> StronglySorted lt l2 -> (forall k, k ∈ l1 <-> k ∈ l2) -> l1 = l2.
Proof.
  induction l1 as [|x l1 IH]; intros [|y l2] H1 H2 H; [done|..].
  - exfalso. by apply (not_elem_of_nil y), H, list_elem_of_here.
  - exfalso. by apply (not_elem_of_nil x), H, list_elem_of_here.
  - apply StronglySorted_inv in H1 as [H1 F1]. apply StronglySorted_inv in H2 as [H2 F2]. rewrite Forall_forall in F1, F2.
    assert (x = y) as ->.
    { destruct (proj1 (elem_of_cons _ _ _) (proj1 (H x) ltac:(by left))) as [|Hx]; [done|].
      destruct (proj1 (elem_of_cons _ _ _) (proj2 (H y) ltac:(by left))) as [|Hy]; [done|]. specialize (F1 _ Hy). specialize (F2 _ Hx). lia. }
    f_equal. apply IH; [done|done|]. intros k. specialize (H k). rewrite !elem_of_cons in H. split; intros Hk.
    + destruct (proj1 H (or_intror Hk)) as [->|]; [|done]. specialize (F1 _ Hk). lia.
    + destruct (proj2 H (or_intror Hk)) as [->|]; [|done]. specialize (F2 _ Hk). lia.
Qed.
Lemma elements_checked s : rules_read s -> exists els, elements C s = Some els /\ checked_fields s els.
Proof.
  intros Hread. unfold elements. destruct (find_fields_sorted kept_by_find (the_page s)) as [F1 F2].
  set (l := filter (fun k => ignored (the_page s) k = false) (find_fields kept_by_find (the_page s))).
  assert (Hc : Forall (fun k => exists f, candidate s k f) l).
  { apply Forall_forall. intros k [Hi (f & Hf1 & Hf2)%F2]%list_elem_of_filter. by exists f. }
  destruct (with_rules_spec s Hread l (sorted_filter _ F1) Hc []) as (els & E & Hs & He). exists els. split; [done|]. split; [done|].
  assert (Hin : forall k f, wanted s k f -> k ∈ l).
  { intros j f [(Hp & Hf & Hi) _]. apply list_elem_of_filter. split; [done|]. apply F2. by exists f. }
  intros k. rewrite He. split.
  - intros (f & Hk & Hw & _ & Hlt). exists f. split; [done|]. intros j g Hj Hg. apply (Hlt j g); [by eapply Hin|done|done].
  - intros (f & Hw & Hlt). exists f. split; [by eapply Hin|]. split; [done|]. split; [by apply not_elem_of_nil|].
    intros j g _ Hj Hg. by apply (Hlt j g).
Qed.
Lemma elements_spec s els : rules_read s -> checked_fields s els -> elements C s = Some els.
Proof.
  intros Hread [Hs He]. destruct (elements_checked s Hread) as (els' & -> & Hs' & He'). f_equal. apply sorted_unique; [done|done|].
  intros k. by rewrite He, He'.
Qed.
Definition readable_rules (s : state) : bool :=
  forallb (fun k => match field_rules (reg C) (s_rules s) (the_page s) k with Some _ => true | None => false end) (seq 0 (length (the_page s))).
Lemma elements_listed s els : readable_rules s = true -> elements C s = Some els -> rules_read s /\ checked_fields s els.
Proof.
  intros H E. assert (Hread : rules_read s).
  { intros k f [Hp _]. unfold readable_rules in H. rewrite forallb_forall in H. specialize (H k). intros Hn. rewrite Hn in H.
    discriminate H. apply in_seq. apply lookup_lt_Some in Hp. lia. }
  split; [done|]. destruct (elements_checked s Hread) as (els' & E' & Hc). rewrite E in E'. by injection E' as <-.
Qed.
End Form.

(** C23. Checking a form whose rules can be read and are none of equalTo, remote and rules that
    throw ([outcome]) gives each field the outcome of its rules: the result says whether
    there is no error, the errors are those of the first failing rule of each checked field
    in the order of the page, the invalid names are theirs, and neither the requests nor the
    flags of the validator change. The checked fields are, of the fields with rules that are
    not disabled, ignored or buttons, the first of each name ([checked_fields]). *)
Theorem form_validates {W : Page} C s els outcomes : rules_read C s -> checked_fields C s els -> Forall2 (outcome C s) els outcomes ->
  let errs := errors_of outcomes in let s' := (form C s).1 in
  (form C s).2 = Some (bool_decide (errs = [])) /\
  errorList (s_checks s') = errs /\
  invalid s' = add_names (the_page s) [] errs /\
  s_remote s' = s_remote s /\ s_control s' = s_control s.
Proof. intros Hr Hc. apply form_checks. by apply elements_spec. Qed.

(** A form with three fields, one of them wrong. *)
Definition form3 : state :=
  init [text_field (u "name") (u "x"); age_field (u "200"); text_field (u "site") []] []
    [] [(u "name", RuleString (u "required")); (u "site", RuleObject [(u "url", rtrue); (u "minlength", RPrim (PNum (of_Z 4)))])].
Definition age_error : prim * option nat := (PStr (u "Please enter a value less than or equal to 150."), Some 1%nat).
Lemma form_validates_witness : let errs := errors_of [None; Some age_error; None] in
  let s' := (form (W := plain_page) default_config form3).1 in
  (form (W := plain_page) default_config form3).2 = Some (bool_decide (errs = [])) /\
  errorList (s_checks s') = errs /\
  invalid s' = add_names (the_page form3) [] errs /\
  s_remote s' = s_remote form3 /\ s_control s' = s_control form3.
Proof.
  assert (H : rules_read (W := plain_page) default_config form3 /\ checked_fields (W := plain_page) default_config form3 [0; 1; 2]%nat)
    by (apply elements_listed; vm_compute; reflexivity).
  apply (form_validates (W := plain_page) default_config form3 [0; 1; 2]%nat); [apply H|apply H|].
  apply outcomes_of. vm_compute. reflexivity.
Defined.
