(* ===== verification/ValidatorSubmit.v ===== *)
(** * When the form of the validator is submitted *)

From Stdlib Require Import ZArith Lia.
From stdpp Require Import base tactics list numbers strings.
From S2P Require Import Prelude JsValue Md5 ValidPage ValidMethods ValidRules Validator ValidatorProps ValidatorForm.
Local Open Scope Z_scope.
Local Open Scope valid_scope.

(** The form leaves the page, or the submit handler of the user gets it. *)
Definition is_submission (o : output) : bool := match o with OSubmit | OHandler _ => true | _ => false end.
Definition submissions (s : state) : list output := filter (fun o => is_submission o = true) (outs s).
Definition quiet_part (s : state) : list output * bool * bool :=
  (submissions s, cancelSubmit (s_control s), formSubmitted (s_control s)).

#[export] Instance quiet_undisplayed : Undisplayed quiet_part.
Proof. by split. Qed.
Lemma q_emit o : is_submission o = false -> keeps (same quiet_part) (emit o).
Proof.
  intros Ho s. unfold same, quiet_part, submissions, emit, modify. cbn [fst outs set_outs]. do 2 f_equal.
  rewrite filter_app. rewrite (filter_cons_False _ o) by by rewrite Ho. by rewrite app_nil_r.
Qed.
#[export] Hint Resolve quiet_undisplayed : keeps.
#[export] Hint Extern 3 (keeps (same quiet_part) (modify _)) => (apply keeps_modify; intros ?; reflexivity) : keeps.
#[export] Hint Extern 3 (keeps (same quiet_part) (emit _)) => (apply q_emit; reflexivity) : keeps.

(** ** Only the event submit and the answers submit the form *)

Section Quiet.
Context {W : Page} (C : settings).
Local Abbreviation Q m := (keeps (same quiet_part) m).

Lemma q_formatAndAdd k m param : Q (formatAndAdd C k m param).
Proof. unfold formatAndAdd, put_errorList, put_errorMap, put_submitted. keeps_solve. Qed.
Lemma q_showErrors e : Q (showErrors C e).
Proof. unfold showErrors, put_errorMap, put_errorList, put_successList. keeps_solve. Qed.
Lemma q_startRequest n : Q (startRequest n).
Proof. unfold startRequest, put_pendingRequest, put_pending. keeps_solve. Qed.
Lemma q_send k n i v param : Q (send k n i v param).
Proof. unfold send, put_ports, put_requests. keeps_solve. Qed.
Lemma q_previousValue k f : Q (previousValue C k f).
Proof. unfold previousValue, put_prevs, put_prev_of. keeps_solve. Qed.
Lemma q_put_previous i h : Q (put_previous i h).
Proof. unfold put_previous, put_prevs. keeps_solve. Qed.
Lemma q_set_remote_message n m : Q (set_remote_message n m).
Proof. unfold set_remote_message. keeps_solve. Qed.
Hint Resolve q_formatAndAdd q_showErrors q_startRequest q_send q_previousValue q_put_previous q_set_remote_message : keeps.
Lemma q_remote v k f param : Q (remote C v k f param).
Proof. unfold remote. keeps_solve. Qed.
Lemma q_equalTo v k param : Q (equalTo C v k param).
Proof. unfold equalTo, put_blurs. keeps_solve. Qed.
Hint Resolve q_remote q_equalTo : keeps.
Lemma q_check_rules k f v l mm : Q (check_rules C k f v l mm).
Proof.
  revert mm. induction l as [|[m param] l IH]; intros mm; cbn [check_rules]; [keeps_solve|].
  keeps_step; [keeps_solve|]. keeps_step; [unfold call_method, range_result; keeps_solve|].
  unfold put_toHide. keeps_solve.
Qed.
Hint Resolve q_check_rules : keeps.
Lemma q_check k : Q (check C k).
Proof. unfold check, put_successList. keeps_solve. Qed.
Hint Resolve q_check : keeps.
Lemma q_form : Q (form C).
Proof. unfold form, checkForm, put_currentElements, put_submitted, put_invalid. keeps_solve. Qed.
Lemma q_element k : Q (element C k).
Proof. unfold element, put_lastElement, put_currentElements, put_invalid, put_toHide. keeps_solve. Qed.
Lemma q_onfocusin k : Q (onfocusin C k).
Proof. unfold onfocusin, unhighlight, put_lastActive. keeps_solve. Qed.
Lemma q_findLastActive : Q findLastActive.
Proof. unfold findLastActive. keeps_solve. Qed.
Hint Resolve q_element q_onfocusin q_findLastActive : keeps.
Lemma q_focusInvalid : Q (focusInvalid C).
Proof. unfold focusInvalid. keeps_solve. Qed.
Lemma q_is_submitted f : Q (is_submitted f).
Proof. unfold is_submitted. keeps_solve. Qed.
Lemma q_onblur k : Q (onblur C k).
Proof. unfold onblur. keeps_solve. Qed.
Lemma q_resetForm : Q (resetForm C).
Proof. unfold resetForm, put_submitted, put_lastElement, put_pg, put_prev_of. keeps_solve. Qed.
Hint Resolve q_is_submitted q_onblur q_resetForm : keeps.

Definition may_submit (e : event) : bool :=
  match e with Submit | Success _ _ | ClickSubmit _ true => true | _ => false end.
Lemma q_handler e : may_submit e = false -> Q (handler C e).
Proof.
  destruct e as [k t|k b|k|k|k which|k|button []| | |id resp|id]; cbn [handler]; try done; intros _;
    unfold put_pg, onfocusout, onkeyup, onclick, put_submitButton, put_requests; cbn [when]; keeps_solve.
Qed.
End Quiet.
#[export] Hint Resolve q_form q_focusInvalid q_set_remote_message q_showErrors q_put_previous : keeps.

(** ** The event submit *)

Section Submit.
Context {W : Page} (C : settings) (Hon : onsubmit C = true) (Hdebug : debug C = false).

(** What a submission is for the settings. *)
Definition submission (s : state) : output :=
  if submitHandler C then OHandler (submitButton (s_control s)) else OSubmit.

Lemma submissions_emit o s : is_submission o = true -> submissions (set_outs (outs s ++ [o]) s) = submissions s ++ [o].
Proof. intros Ho. unfold submissions. cbn. rewrite filter_app. by rewrite (filter_cons_True _ o). Qed.

Lemma quiet_eq {A} (m : M A) s : keeps (same quiet_part) m -> submissions (m s).1 = submissions s /\
  cancelSubmit (s_control (m s).1) = cancelSubmit (s_control s) /\
  formSubmitted (s_control (m s).1) = formSubmitted (s_control s).
Proof. intros H. specialize (H s). unfold same, quiet_part in H. by injection H. Qed.

Lemma submit_valid s s1 : cancelSubmit (s_control s) = false -> form C s = (s1, Some true) ->
  submissions (step C Submit s) = submissions s ++ (if pendingRequest (s_remote s1) =? 0 then [submission s1] else []) /\
  (pendingRequest (s_remote s1) <> 0 -> formSubmitted (s_control (step C Submit s)) = true).
Proof.
  intros Hc E. destruct (quiet_eq (form C) s (q_form C)) as [Hsub _]. rewrite E in Hsub. cbn [fst] in Hsub.
  unfold step. cbn [handler]. unfold user_submit, submit. rewrite Hon. unfold on_submit, bind, get. rewrite Hc, E.
  destruct (Z.eqb_spec (pendingRequest (s_remote s1)) 0) as [E0|E0]; cbn [negb].
  - split; [|done]. unfold handle, submission, bind, get. rewrite <- Hsub. destruct (submitHandler C).
    + cbn [emit modify ret when andb fst]. by apply submissions_emit.
    + rewrite Hdebug. cbn [ret negb andb when]. unfold emit, modify. cbn [fst]. by apply submissions_emit.
  - cbn. rewrite app_nil_r. split; [exact Hsub|done].
Qed.

(** An invalid form, or one that waits for the server. *)
Lemma submit_quiet s s1 b : cancelSubmit (s_control s) = false -> form C s = (s1, Some b) ->
  (b = true -> pendingRequest (s_remote s1) <> 0) ->
  submissions (step C Submit s) = submissions s /\ cancelSubmit (s_control (step C Submit s)) = false.
Proof.
  intros Hc E Hb. destruct (quiet_eq (form C) s (q_form C)) as (Hsub & Hcan & _). rewrite E in Hsub, Hcan. cbn [fst] in *.
  unfold step. cbn [handler]. unfold user_submit, submit. rewrite Hon. unfold on_submit, bind, get. rewrite Hc, E.
  destruct b.
  - rewrite (proj2 (Z.eqb_neq _ 0)) by auto. cbn. by rewrite Hcan.
  - destruct (quiet_eq (focusInvalid C) s1 (q_focusInvalid C)) as (Hf & Hg & _).
    rewrite Hsub in Hf. rewrite Hcan, Hc in Hg. split; [rewrite <- Hf|apply (eq_trans (y := cancelSubmit (s_control (focusInvalid C s1).1))); [|exact Hg]];
      unfold focusInvalid, when; by destruct (focus_invalid C).
Qed.
End Submit.

(** A form whose rules ask no server is submitted exactly when every field passes all its
    rules and no request of another kind is under way; while one is, the submission is
    noted for later. *)
Theorem submission_decided {W : Page} C s els outcomes :
  onsubmit C = true -> debug C = false -> cancelSubmit (s_control s) = false ->
  elements C s = Some els -> Forall2 (outcome C s) els outcomes ->
  let errs := errors_of outcomes in let s' := step C Submit s in
  submissions s' = submissions s ++
    (if bool_decide (errs = []) && (pendingRequest (s_remote s) =? 0) then [submission C s] else []) /\
  (errs = [] -> pendingRequest (s_remote s) <> 0 -> formSubmitted (s_control s') = true).
Proof.
  intros Hon Hd Hc Hels Ho errs s'. destruct (form_checks C s els outcomes Hels Ho) as (Hres & _ & _ & Hrem & Hctl).
  fold errs in Hres. destruct (form C s) as [s1 r] eqn:E. cbn [fst snd] in *. subst r. case_bool_decide as He.
  - destruct (submit_valid C Hon Hd s s1 Hc E) as [H1 H2]. rewrite Hrem in *. split; [|intros _; exact H2].
    unfold s'. rewrite H1. unfold submission. by rewrite Hctl.
  - split; [|done]. cbn [andb]. rewrite app_nil_r. by apply (submit_quiet C Hon s s1 false).
Qed.
Lemma submission_decided_witness :
  let s := step (W := plain_page) default_config (Input 1 (u "20")) form3 in
  let errs := errors_of [None; None; None] in let s' := step (W := plain_page) default_config Submit s in
  submissions s' = submissions s ++
    (if bool_decide (errs = []) && (pendingRequest (s_remote s) =? 0) then [submission default_config s] else []) /\
  (errs = [] -> pendingRequest (s_remote s) <> 0 -> formSubmitted (s_control s') = true).
Proof.
  apply (submission_decided (W := plain_page) default_config _ [0; 1; 2]%nat); try reflexivity.
  apply outcomes_of. vm_compute. reflexivity.
Defined.

Section Safety.
Context {W : Page} (C : settings).

(** The flag is saved around the preparation of the field. *)
Lemma q_saved {A} (m : M unit) (k : M A) : keeps (same quiet_part) m -> keeps (same quiet_part) k ->
  keeps (same quiet_part) (fs <- get (fun s => formSubmitted (s_control s));; m;;; put_formSubmitted fs;;; k).
Proof.
  intros Hm Hk s. unfold bind, get. specialize (Hm s). destruct (m s) as [s1 [[]|]]; cbn [fst] in *; [|done].
  unfold put_formSubmitted, modify. unfold same in *. rewrite (Hk _), <- Hm. unfold quiet_part in *. injection Hm as H1 H2 H3.
  unfold submissions in *. cbn. by rewrite H1, H2, H3.
Qed.

(** What must hold of a state where a waiting submission goes on. *)
Definition may_go (s : state) : Prop :=
  formSubmitted (s_control s) = true /\ pendingRequest (s_remote s) = 0 /\ (form C s).2 = Some true /\
  let s' := (form C s).1 in
  cancelSubmit (s_control s') = true \/ (form C s').2 = Some true /\ pendingRequest (s_remote (form C s').1) = 0.
Lemma submit_goes s : onsubmit C = true -> submissions (submit C s).1 <> submissions s ->
  cancelSubmit (s_control s) = true \/ (form C s).2 = Some true /\ pendingRequest (s_remote (form C s).1) = 0.
Proof.
  intros Hon H. destruct (cancelSubmit (s_control s)) eqn:Hc; [by left|right]. destruct (quiet_eq (form C) s (q_form C)) as (Hsub & _).
  unfold submit, on_submit in H. rewrite Hon in H. unfold bind, get in H. rewrite Hc in H.
  destruct (form C s) as [s1 [[]|]] eqn:E; cbn [fst snd] in *; [|destruct H|by destruct H].
  - split; [done|]. destruct (Z.eqb_spec (pendingRequest (s_remote s1)) 0) as [|Hn]; [done|]. by destruct H.
  - destruct (quiet_eq (focusInvalid C) s1 (q_focusInvalid C)) as (Hf & _). destruct (focusInvalid C s1) as [s2 [[]|]]; cbn [fst] in *; by rewrite <- Hsub.
Qed.
Lemma resume_goes s ok : onsubmit C = true -> submissions (resume C ok s).1 <> submissions s -> ok = true /\ may_go s.
Proof.
  intros Hon H. unfold resume, bind, get in H. cbn [fst snd] in H.
  destruct (Z.eqb_spec (pendingRequest (s_remote s)) 0) as [E0|]; cbn [andb] in H; [|by destruct H].
  destruct (formSubmitted (s_control s)) eqn:Ef; [|by destruct H]. destruct ok; cbn [fst] in H.
  - split; [done|]. unfold may_go. split; [done|]. split; [done|]. destruct (quiet_eq (form C) s (q_form C)) as (Hsub & _).
    destruct (form C s) as [s1 [[]|]] eqn:E; cbn [fst snd when ret] in *; [|by destruct H|by destruct H]. split; [done|].
    apply submit_goes; [done|]. intros Hs. apply H. rewrite <- Hsub, <- Hs. by destruct (submit C s1) as [s2 [[]|]].
  - destruct H. destruct (quiet_eq (emit OInvalid) s (q_emit OInvalid eq_refl)) as (E & _). exact E.
Qed.
Lemma q_count_down n : keeps (same quiet_part) (count_down n).
Proof. unfold count_down, put_pendingRequest, put_pending. keeps_solve. Qed.
Lemma q_on_answer r response : keeps (same quiet_part) (on_answer C r response).
Proof.
  unfold on_answer. do 4 (keeps_step; [keeps_solve|]). keeps_step; [|keeps_solve].
  destruct (yes response); [apply q_saved; unfold put_successList, put_invalid; keeps_solve|unfold put_invalid; keeps_solve].
Qed.
(** The state after an answer, before a submission that waits for it may go on. *)
Definition after_answer (id : nat) (r : remote_request) (response : prim) (s : state) : state :=
  ((put_requests (upd id inactive (requests (s_remote s)));;; on_answer C r response;;; count_down (r_name r)) s).1.

(** C22. With the setting [onsubmit], the form is only submitted by the event submit - with a
    cancel button, or after a check that finds no error while no request is under way, or
    when a rule throws - and by the answer true of the server: when a submission waits, no
    request is under way any more, a check of the form as it is then finds no error, and,
    unless a cancel button was pressed, the check that follows finds none and starts no
    request. *)
Theorem submits_only_when_valid e s : onsubmit C = true -> submissions (step C e s) <> submissions s ->
  (e = Submit /\ (cancelSubmit (s_control s) = true \/ (form C s).2 = None \/
                  (form C s).2 = Some true /\ pendingRequest (s_remote (form C s).1) = 0)) \/
  (exists id response r, e = Success id response /\ requests (s_remote s) !! id = Some r /\
     (response = PBool true \/ response = PStr (u "true")) /\ formSubmitted (s_control s) = true /\
     may_go (after_answer id r response s)).
Proof.
  intros Hon Hsub. destruct (may_submit e) eqn:He.
  2: { destruct Hsub. apply (quiet_eq (handler C e) s (q_handler C e He)). }
  destruct e as [| | | | | |button []| | |id response|]; try done.
  - destruct Hsub. unfold step. cbn [handler]. unfold when, put_submitButton, put_cancelSubmit, bind, modify.
    by destruct (onsubmit C), (submitHandler C).
  - left. split; [done|]. destruct (cancelSubmit (s_control s)) eqn:Hc; [by left|right].
    destruct (form C s) as [s1 [[]|]] eqn:E; cbn [fst snd]; [right; split; [done|]| |by left].
    + destruct (decide (pendingRequest (s_remote s1) = 0)) as [|Hn]; [done|]. destruct Hsub.
      by apply (submit_quiet C Hon s s1 true).
    + destruct Hsub. by apply (submit_quiet C Hon s s1 false).
  - right. unfold step in Hsub. cbn [handler] in Hsub. unfold remote_success, bind at 1 2, get, of_option in Hsub.
    destruct (requests (s_remote s) !! id) as [r|] eqn:Er; cbn [of_option ret] in Hsub; [|done].
    exists id, response, r. split; [done|]. split; [done|].
    unfold after_answer, on_success, stopRequest, put_requests, bind, modify in *. cbn [fst snd] in *.
    set (s1 := set_s_remote _ s) in *. change (submissions s) with (submissions s1) in Hsub.
    destruct (quiet_eq (on_answer C r response) s1 (q_on_answer r response)) as (A1 & _ & A3).
    destruct (on_answer C r response s1) as [s2 [[]|]]; cbn [fst] in *; [|done].
    destruct (quiet_eq (count_down (r_name r)) s2 (q_count_down (r_name r))) as (B1 & _ & B3).
    destruct (count_down (r_name r) s2) as [s3 [[]|]]; cbn [fst] in *; [|by rewrite B1 in Hsub].
    rewrite <- A1, <- B1 in Hsub. destruct (resume_goes s3 (yes response) Hon Hsub) as [H1%bool_decide_eq_true H2].
    split; [done|]. split; [|done]. destruct H2 as [H2 _]. rewrite B3, A3 in H2. exact H2.
Qed.
End Safety.
Lemma submits_only_when_valid_witness : let C := default_config in let W := plain_page in
  let s := run C [Submit] (form0 (u "x") (u "20") (u "a@b.cd")) in let e := Success 0 (PBool true) in
  (e = Submit /\ (cancelSubmit (s_control s) = true \/ (form C s).2 = None \/
                  (form C s).2 = Some true /\ pendingRequest (s_remote (form C s).1) = 0)) \/
  (exists id response r, e = Success id response /\ requests (s_remote s) !! id = Some r /\
     (response = PBool true \/ response = PStr (u "true")) /\ formSubmitted (s_control s) = true /\
     may_go C (after_answer C id r response s)).
Proof.
  intros C W s e. apply (submits_only_when_valid (W := W) C e s); [reflexivity|]. vm_compute. discriminate.
Defined.

(** ** Requests that fail *)

(** Names under request stay so. *)
Definition grows (s s' : state) : Prop := forall n, n ∈ pending (s_remote s) -> n ∈ pending (s_remote s').
#[export] Instance grows_preorder : PreOrder grows.
Proof. split; [by intros s n|]. intros a b c H1 H2 n Hn. auto. Qed.

Section Blocked.
Context {W : Page} (C : settings).

Lemma grows_core A (m : M A) : keeps (same core) m -> keeps grows m.
Proof. intros H s n. specialize (H s). unfold same, core in H. by injection H as -> _ _ _. Qed.
Lemma send_pending k n i v param : keeps (same (fun s => pending (s_remote s))) (send k n i v param).
Proof.
  unfold send, put_ports, put_requests, emit.
  repeat (first [solve [apply keeps_modify; intros ?; reflexivity] | keeps_step]).
Qed.
Lemma grows_remote v k f param : keeps grows (remote C v k f param).
Proof.
  unfold remote. keeps_step; [keeps_solve|]. destruct (optional _ _ _); [keeps_solve|].
  do 8 (keeps_step; [apply grows_core; keeps_solve|]).
  match goal with |- keeps _ (if ?b then _ else _) => destruct b end; [keeps_solve|].
  keeps_step; [apply grows_core; keeps_solve|]. keeps_step.
  - intros s n Hn. unfold startRequest, bind, get. destruct (decide _); [done|]. cbn. apply elem_of_app. by left.
  - keeps_step; [|keeps_solve]. intros s n. pose proof (send_pending k (name f) a0 v param s) as E. unfold same in E. by rewrite E.
Qed.

(** No answer, no cancel button, and no rule that throws. *)
Definition unanswered (e : event) (s : state) : Prop :=
  match e with Success _ _ | ClickSubmit _ true => False | Submit => (form C s).2 <> None | _ => True end.
Fixpoint unanswered_run (es : list event) (s : state) : Prop :=
  match es with [] => True | e :: es => unanswered e s /\ unanswered_run es (step C e s) end.

Lemma pending_nonzero n s : remote_ok false s -> n ∈ pending (s_remote s) -> pendingRequest (s_remote s) <> 0.
Proof.
  intros [H1 _ _ _ _] Hn. cbn in H1. rewrite H1. destruct (pending (s_remote s)); [by apply elem_of_nil in Hn|cbn; lia].
Qed.
Lemma step_unanswered n e s : onsubmit C = true -> remote_ok false s -> enabled e s = true -> unanswered e s ->
  n ∈ pending (s_remote s) -> cancelSubmit (s_control s) = false ->
  n ∈ pending (s_remote (step C e s)) /\ submissions (step C e s) = submissions s /\
  cancelSubmit (s_control (step C e s)) = false.
Proof.
  intros Hon Hok He Hu Hn Hc. split.
  - destruct (is_answer e) eqn:Ea; [|by apply (p_handler C grows grows_core grows_remote e Ea s)].
    by destruct e.
  - destruct (may_submit e) eqn:Em.
    + destruct e as [| | | | | |button []| | | |]; try done. cbn in Hu. destruct (form C s) as [s1 [b|]] eqn:E; [|done].
      apply (submit_quiet C Hon s s1 b Hc E). intros _. assert (E1 : s1 = (form C s).1) by by rewrite E.
      apply (pending_nonzero n); subst s1.
      * by apply (p_form C (holds (remote_ok false)) (@ok_same false) (ok_remote C false)).
      * by apply (p_form C grows grows_core grows_remote).
    + destruct (quiet_eq (handler C e) s (q_handler C e Em)) as (H1 & H2 & _). split; [done|]. by rewrite <- Hc.
Qed.

(** While a name is under request - and after a request has failed it stays so until a
    request for another value of its field is answered - nothing submits the form, however
    often the user tries: there is no callback for a failure. *)
Theorem failed_request_blocks p l messages statics es0 s n es s' : onsubmit C = true ->
  steps C (init p l messages statics) es0 s ->
  n ∈ pending (s_remote s) -> cancelSubmit (s_control s) = false ->
  steps C s es s' -> unanswered_run es s ->
  submissions s' = submissions s /\ n ∈ pending (s_remote s').
Proof.
  intros Hon H0 Hn Hc Hes. assert (Hok : remote_ok false s)
    by (by apply (steps_ok C false _ _ _ H0 (or_introl eq_refl)), init_ok).
  clear H0. induction Hes as [s|s e es s' He _ IH]; [done|]. intros [Hu Hrun].
  destruct (step_unanswered n e s Hon Hok He Hu Hn Hc) as (H1 & H2 & H3). rewrite <- H2.
  apply IH; [done|done| |done]. apply step_ok; [done|done|by left].
Qed.
End Blocked.

(** The request for the mail address fails; the user submits again and again. *)
Definition failing : state := run (W := plain_page) default_config [Submit; Failure 0] (form0 (u "x") (u "20") (u "a@b.cd")).
Lemma failed_request_blocks_witness : let C := default_config in let W := plain_page in
  let s' := run C [Submit; FocusOut 2; Submit] failing in
  submissions s' = submissions failing /\ u "mail" ∈ pending (s_remote s').
Proof.
  intros C W s'. refine (failed_request_blocks (W := W) C _ _ _ _ [Submit; Failure 0] failing (u "mail") [Submit; FocusOut 2; Submit] s' _ _ _ _ _ _).
  - reflexivity.
  - apply run_steps. vm_compute. reflexivity.
  - vm_compute. by left.
  - vm_compute. reflexivity.
  - apply run_steps. vm_compute. reflexivity.
  - vm_compute. repeat split; discriminate.
Defined.

(** ** Sessions that go wrong *)

(** Two fields that the server checks. The value of the second changes while the first is
    under request and the form waits: when that answer comes, the form is checked again,
    asks for the second field, and forgets that it was to be submitted. Every request is
    answered with true, every field is valid, and the form stays. *)
Definition remote_field (n : jstr) : jstr * ruledata := (n, RuleObject [(u "remote", RPrim (PStr (u "check.php")))]).
Definition two_remote : state :=
  init [text_field (u "a") (u "x"); text_field (u "b") (u "y")] [] [] [remote_field (u "a"); remote_field (u "b")].
Theorem submission_lost : let C := default_config in let W := plain_page in
  let es := [FocusOut 1; Success 0 (PBool true); Submit; Input 1 (u "z"); Success 1 (PBool true); Success 2 (PBool true)] in
  let s := run C es two_remote in
  steps C two_remote es s /\ submissions s = [] /\
  Forall (fun r => r_active r = false) (requests (s_remote s)) /\ formSubmitted (s_control s) = false /\
  (form C s).2 = Some true /\ pendingRequest (s_remote (form C s).1) = 0.
Proof.
  split; [apply run_steps; vm_compute; reflexivity|]. vm_compute. repeat split; repeat constructor.
Qed.

(** The server refused one value; the check of the next one is under way and the form is
    submitted: the old refusal is shown for the new value. *)
Example stale_answer : let C := default_config in let W := plain_page in
  let s := run C [Submit; Success 0 (PStr (u "taken")); Input 2 (u "q@b.cd"); FocusOut 2; Submit]
             (form0 (u "x") (u "20") (u "a@b.cd")) in
  errorList (s_checks s) = [(PStr (u "taken"), Some 2%nat)] /\ pending (s_remote s) = [u "mail"] /\
  map r_active (requests (s_remote s)) = [false; true].
Proof. vm_compute. repeat split; reflexivity. Qed.

(** The refusal of one field by the server marks the other invalid field as valid. *)
Example refusal_unmarks : let C := default_config in let W := plain_page in
  let s := run C [Submit] (form0 [] (u "20") (u "a@b.cd")) in
  let s' := step C (Success 0 (PStr (u "taken"))) s in
  map classes (the_page s) !! 0%nat = Some [u "error"] /\ map classes (the_page s') !! 0%nat = Some [u "valid"] /\
  map fst (invalid s') = [u "name"; u "mail"] /\ map snd (errorList (s_checks s')) = [Some 2%nat].
Proof. vm_compute. repeat split; reflexivity. Qed.

(** A rule without a method throws, and the browser submits the form unchecked. *)
Example unknown_rule_submits : let C := default_config in let W := plain_page in
  let s := init [text_field (u "a") []] [] [] [(u "a", RuleString (u "requird"))] in
  (form C s).2 = None /\ submissions (step C Submit s) = [OSubmit].
Proof. vm_compute. split; reflexivity. Qed.
