(* ===== verification/ValidatorLabels.v ===== *)
(** * What the user sees after a check of the form: the labels of exactly the fields that
    fail, with their messages *)

From Stdlib Require Import ZArith Lia.
From stdpp Require Import base tactics list numbers strings.
From S2P Require Import Prelude JsValue Md5 ValidPage ValidMethods ValidRules Validator ValidatorProps ValidatorForm.
Local Open Scope Z_scope.
Local Open Scope valid_scope.

(** ** Positions in a list *)

Definition positions {A} (P : A -> bool) (l : list A) : list nat := map fst (filter (fun q => P q.2 = true) (imap pair l)).

Lemma positions_aux {A} (P : A -> bool) (l : list A) n j :
  j ∈ map fst (filter (fun q => P q.2 = true) (imap (fun i x => ((n + i)%nat, x)) l)) <->
  exists i x, j = (n + i)%nat /\ l !! i = Some x /\ P x = true.
Proof.
  revert n. induction l as [|x l IH]; intros n.
  - cbn. split; [by intros H%elem_of_nil|by intros (i & x & _ & [=] & _)].
  - cbn [imap]. rewrite filter_cons. cbn [snd].
    assert (Himap : imap ((fun i x => ((n + i)%nat, x)) ∘ S) l = imap (fun i x => ((S n + i)%nat, x)) l)
      by (apply imap_ext; intros i y _; cbn; f_equal; lia).
    rewrite Himap. specialize (IH (S n)).
    assert (Hrest : (exists i y, j = (S n + i)%nat /\ l !! i = Some y /\ P y = true) <->
              exists i y, j = (n + S i)%nat /\ l !! i = Some y /\ P y = true)
      by (split; intros (i & y & -> & H); exists i, y; (split; [lia|done])).
    rewrite Hrest in IH. clear Hrest. case_decide as Hx; cbn [map fst]; rewrite ?elem_of_cons, IH.
    + split.
      * intros [->|(i & y & -> & H)]; [exists 0%nat, x; by split; [lia|]|by exists (S i), y].
      * intros ([|i] & y & -> & Hl & Hy); [left; lia|right; by exists i, y].
    + split; [intros (i & y & -> & H); by exists (S i), y|].
      intros ([|i] & y & -> & Hl & Hy); [by injection Hl as ->|by exists i, y].
Qed.
Lemma positions_spec {A} (P : A -> bool) (l : list A) j : j ∈ positions P l <-> exists x, l !! j = Some x /\ P x = true.
Proof.
  unfold positions. rewrite (positions_aux P l 0 j). split; [intros (i & x & -> & H); by exists x|intros (x & H); by exists j, x].
Qed.
Lemma NoDup_positions {A} (P : A -> bool) (l : list A) : NoDup (positions P l).
Proof.
  unfold positions.
  assert (H : forall n, NoDup (map fst (filter (fun q => P q.2 = true) (imap (fun i x => ((n + i)%nat, x)) l)))); [|apply (H 0%nat)].
  induction l as [|x l IH]; intros n; [constructor|]. cbn [imap].
  assert (Himap : imap ((fun i x => ((n + i)%nat, x)) ∘ S) l = imap (fun i x => ((S n + i)%nat, x)) l)
    by (apply imap_ext; intros i y _; cbn; f_equal; lia).
  rewrite Himap, filter_cons. case_decide; [|apply IH]. cbn [map fst]. apply NoDup_cons. split; [|apply IH].
  rewrite (positions_aux P l (S n)). intros (i & y & E & _). lia.
Qed.

(** Changing some labels. *)
Definition upd_all {A} (g : A -> A) (ids : list nat) (l : list A) : list A := fold_left (fun l j => upd j g l) ids l.
Lemma upd_at {A} (g : A -> A) j l i : upd j g l !! i = if decide (i = j) then option_map g (l !! i) else l !! i.
Proof.
  unfold upd. destruct (l !! j) as [x|] eqn:E; destruct (decide (i = j)) as [->|Hne]; rewrite ?E; cbn; try done.
  - by rewrite list_lookup_insert_eq by by eapply lookup_lt_Some.
  - by rewrite list_lookup_insert_ne.
Qed.
Lemma upd_all_lookup {A} (g : A -> A) ids : NoDup ids -> forall l i,
  upd_all g ids l !! i = if decide (i ∈ ids) then option_map g (l !! i) else l !! i.
Proof.
  unfold upd_all. induction 1 as [|j ids Hj Hd IH]; intros l i; [done|]. cbn [fold_left]. rewrite IH.
  rewrite upd_at. destruct (decide (i = j)) as [->|Hne].
  - rewrite (decide_False (P := j ∈ ids)) by done. by rewrite decide_True by by left.
  - destruct (decide (i ∈ ids)) as [H1|H1], (decide (i ∈ j :: ids)) as [H2|H2]; try done.
    + destruct H2. by right.
    + by apply elem_of_cons in H2 as [?|?].
Qed.
Lemma upd_all_length {A} (g : A -> A) ids l : length (upd_all g ids l) = length l.
Proof. unfold upd_all. revert l. induction ids as [|j ids IH]; intros l; [done|]. cbn. by rewrite IH, upd_length. Qed.

Section Labels.
Context {W : Page} (C : settings) (Hsuccess : success C = None).

(** ** One label *)

Definition labels_of (s : state) : list label := labels (s_view s).
Definition shown_ids (s : state) : list nat := t_labels (toShow (s_checks s)).
Definition found (i : jstr) (L : list label) : list nat := positions (fun l => is_error C l && js_eqb (l_for l) i) L.
Definition relabel (t : prim) (l : label) : label :=
  Label (l_for l) (add_class (errorClass C) (remove_class (validClass C) (l_class l)))
    (if decide (t = PUndef) then l_html l else t) (l_shown l).
Definition new_label (i : jstr) (t : prim) : label := Label i [errorClass C] (if truthy t then t else PStr []) true.
(** The labels after a message for [i], and the positions of its labels. *)
Definition label_message (i : jstr) (t : prim) (L : list label) : list label * list nat :=
  match found i L with
  | [] => (L ++ [new_label i t], [length L])
  | ids => (upd_all (relabel t) ids L, ids)
  end.

Lemma iter_update g ids s : iter (update_label g) ids s = (set_s_view (set_labels (upd_all g ids (labels_of s)) (s_view s)) s, Some tt).
Proof.
  revert s. induction ids as [|j ids IH]; intros s.
  - unfold upd_all, labels_of. cbn. by destruct s as [[]].
  - cbn [iter]. unfold bind, update_label at 1, bind, get, put_labels, modify. rewrite IH. done.
Qed.

Lemma showLabel_effect k f t s : the_page s !! k = Some f ->
  let r := label_message (idOrName C f) t (labels_of s) in
  showLabel C k t s = (set_s_checks (set_toShow (set_add (toShow (s_checks s)) (ShownSet r.2 false)) (s_checks s))
                        (set_s_view (set_labels r.1 (s_view s)) s), Some tt).
Proof.
  intros Hf r. unfold showLabel, the_field, bind, get, of_option. rewrite Hf. cbn [ret].
  change (errorsFor C f s) with (found (idOrName C f) (labels_of s)). subst r. unfold label_message.
  destruct (found (idOrName C f) (labels_of s)) as [|j ids].
  - cbn [fst snd]. rewrite Hsuccess. unfold put_labels, put_toShow, modify, ret. unfold new_label. destruct (truthy t); reflexivity.
  - change (fun l => Label (l_for l) (add_class (errorClass C) (remove_class (validClass C) (l_class l)))
                  (if decide (t = PUndef) then l_html l else t) (l_shown l)) with (relabel t).
    rewrite iter_update. rewrite Hsuccess. unfold put_toShow, modify, ret. destruct (truthy t); reflexivity.
Qed.

(** ** The labels while the errors are shown one after the other *)

(** [hide0]: the labels that there were before. *)
Record showing (hide0 : list nat) (shown : list (jstr * prim)) (L : list label) (sh : list nat) : Prop := {
  sg_message i t : (i, t) ∈ shown -> exists j l, L !! j = Some l /\ j ∈ sh /\ is_error C l = true /\ l_for l = i /\ l_html l = t;
  sg_only j : j ∈ sh -> exists l, L !! j = Some l /\ is_error C l = true /\ l_for l ∈ map fst shown;
  sg_all j l : L !! j = Some l -> is_error C l = true -> j ∈ hide0 \/ j ∈ sh
}.

Lemma is_error_relabel t l : is_error C (relabel t l) = true.
Proof.
  unfold is_error, relabel. cbn. apply bool_decide_eq_true. unfold add_class. case_decide; [done|].
  apply elem_of_app. right. by left.
Qed.
Lemma found_spec i L j : j ∈ found i L <-> exists l, L !! j = Some l /\ is_error C l = true /\ l_for l = i.
Proof.
  unfold found. rewrite positions_spec. split; intros (l & Hl & H); exists l; (split; [done|]).
  - apply andb_true_iff in H as [H1 H2]. split; [done|]. by apply js_eqb_true.
  - destruct H as [-> ->]. by rewrite js_eqb_refl.
Qed.
Lemma elem_of_set_add j a ids b : j ∈ t_labels (set_add a (ShownSet ids b)) <-> j ∈ t_labels a \/ j ∈ ids.
Proof.
  cbn. rewrite elem_of_app, list_elem_of_filter. split; [tauto|]. destruct (decide (j ∈ t_labels a)); tauto.
Qed.

(** The labels of another name. *)
Lemma other_name (shown : list (jstr * prim)) i L j l : i ∉ map fst shown -> L !! j = Some l ->
  l_for l ∈ map fst shown -> j ∉ found i L.
Proof. intros Hi Hl Hin (l' & Hl' & _ & Hf)%found_spec. rewrite Hl in Hl'. injection Hl' as <-. by rewrite Hf in Hin. Qed.

Lemma showing_new hide0 shown L a i t : showing hide0 shown L (t_labels a) -> truthy t = true ->
  showing hide0 (shown ++ [(i, t)]) (L ++ [new_label i t]) (t_labels (set_add a (ShownSet [length L] false))).
Proof.
  intros [H1 H2 H3] Ht. constructor.
  - intros i' t' [Hin|[= -> ->]%list_elem_of_singleton]%elem_of_app.
    + destruct (H1 i' t' Hin) as (j & l & Hl & Hj & H). exists j, l.
      split; [by rewrite lookup_app_l by by eapply lookup_lt_Some|]. split; [|done]. apply elem_of_set_add. by left.
    + exists (length L), (new_label i t). rewrite lookup_app_r, Nat.sub_diag by done. split; [done|].
      split; [apply elem_of_set_add; right; by left|]. unfold new_label. rewrite Ht. split; [|done].
      apply bool_decide_eq_true. by left.
  - intros j [Hj|Hj%list_elem_of_singleton]%elem_of_set_add; rewrite map_app.
    + destruct (H2 j Hj) as (l & Hl & He & Hin). exists l. split; [by rewrite lookup_app_l by by eapply lookup_lt_Some|].
      split; [done|]. apply elem_of_app. by left.
    + subst j. exists (new_label i t). rewrite lookup_app_r, Nat.sub_diag by done. split; [done|].
      split; [apply bool_decide_eq_true; by left|]. apply elem_of_app. right. by left.
  - intros j l Hl He. apply lookup_app_Some in Hl as [Hl|[Hj Hl]].
    + destruct (H3 j l Hl He); [by left|right]. apply elem_of_set_add. by left.
    + apply list_lookup_singleton_Some in Hl as [Hj' _]. right. apply elem_of_set_add. right.
      assert (j = length L) as -> by lia. by left.
Qed.

Lemma showing_known hide0 shown L a i t ids : showing hide0 shown L (t_labels a) -> i ∉ map fst shown -> truthy t = true ->
  found i L = ids -> ids <> [] ->
  showing hide0 (shown ++ [(i, t)]) (upd_all (relabel t) ids L) (t_labels (set_add a (ShownSet ids false))).
Proof.
  intros [H1 H2 H3] Hi Ht Ef Hids. destruct ids as [|j0 ids]; [done|].
  assert (Hd : NoDup (j0 :: ids)) by (rewrite <- Ef; apply NoDup_positions). constructor.
  - intros i' t' [Hin|[= -> ->]%list_elem_of_singleton]%elem_of_app.
    + destruct (H1 i' t' Hin) as (j & l & Hl & Hj & He & Hf & Hh). exists j, l.
      rewrite upd_all_lookup by done. rewrite decide_False.
      2: { rewrite <- Ef. apply (other_name shown i L j l Hi Hl). rewrite Hf. apply list_elem_of_In, in_map_iff. exists (i', t'). split; [done|]. by apply list_elem_of_In. }
      split; [done|]. split; [apply elem_of_set_add; by left|done].
    + assert (Hj0 : j0 ∈ found i L) by (rewrite Ef; by left). apply found_spec in Hj0 as (l & Hl & _ & Hf).
      exists j0, (relabel t l). rewrite upd_all_lookup by done. rewrite decide_True by by left. rewrite Hl.
      split; [done|]. split; [apply elem_of_set_add; right; by left|]. split; [apply is_error_relabel|]. cbn.
      split; [done|]. rewrite decide_False; [done|]. by intros ->.
  - intros j Hj. rewrite map_app. destruct (decide (j ∈ j0 :: ids)) as [Hin|Hin].
    + assert (Hjf : j ∈ found i L) by by rewrite Ef. apply found_spec in Hjf as (l & Hl & _ & Hf).
      exists (relabel t l). rewrite upd_all_lookup by done. rewrite decide_True by done. rewrite Hl.
      split; [done|]. split; [apply is_error_relabel|]. cbn. rewrite Hf. apply elem_of_app. right. by left.
    + apply elem_of_set_add in Hj as [Hj|Hj]; [|done]. destruct (H2 j Hj) as (l & Hl & He & Hf). exists l.
      rewrite upd_all_lookup by done. rewrite decide_False by done. split; [done|]. split; [done|]. apply elem_of_app. by left.
  - intros j l. rewrite upd_all_lookup by done. destruct (decide (j ∈ j0 :: ids)) as [Hin|Hin].
    + intros _ _. right. apply elem_of_set_add. by right.
    + intros Hl He. destruct (H3 j l Hl He); [by left|right]. apply elem_of_set_add. by left.
Qed.

Lemma showing_message hide0 shown L a i t : showing hide0 shown L (t_labels a) -> i ∉ map fst shown -> truthy t = true ->
  let r := label_message i t L in
  showing hide0 (shown ++ [(i, t)]) r.1 (t_labels (set_add a (ShownSet r.2 false))).
Proof.
  intros H Hi Ht r. unfold r, label_message. destruct (found i L) as [|j ids] eqn:Ef; cbn [fst snd].
  - by apply showing_new.
  - by apply showing_known.
Qed.

(** ** The loop over the errors *)

(** Changing classes keeps the labels and the names. *)
Definition names (p : page) : list jstr := map (idOrName C) p.
Lemma names_upd g p j : names (upd j (set_classes g) p) = names p.
Proof.
  unfold upd. destruct (p !! j) as [f|] eqn:E; [|done]. unfold names. apply list_eq. intros i.
  rewrite !list_lookup_fmap. destruct (decide (i = j)) as [->|Hne].
  - rewrite list_lookup_insert_eq by by eapply lookup_lt_Some. by rewrite E.
  - by rewrite list_lookup_insert_ne.
Qed.
Definition display (s : state) := (labels_of s, s_checks s, names (the_page s)).
Lemma swap_runs a b k f s : the_page s !! k = Some f ->
  exists s', swap_classes a b k s = (s', Some tt) /\ display s' = display s.
Proof.
  intros Hf. unfold swap_classes, the_field, bind, get, of_option. rewrite Hf. cbn [ret]. eexists. split; [done|].
  unfold display, the_page. cbn. f_equal. generalize (class_targets (pg (s_view s)) k f). intros js.
  generalize (pg (s_view s)). induction js as [|j js IH]; intros p; [done|]. cbn [fold_left]. by rewrite IH, names_upd.
Qed.
Lemma names_lookup p k i : names p !! k = Some i -> exists f, p !! k = Some f /\ idOrName C f = i.
Proof. unfold names. rewrite list_lookup_fmap. intros (f & Hf & ->)%fmap_Some. eauto. Qed.

(** Each error with the name of the label of its field. *)
Definition error_of (ns : list jstr) (e : prim * option nat) (it : jstr * prim) : Prop :=
  e.1 = it.2 /\ exists k, e.2 = Some k /\ ns !! k = Some it.1.

Definition name_errors (ns : list jstr) (es : list (prim * option nat)) : option (list (jstr * prim)) :=
  mapM (fun e => k ← e.2; i ← ns !! k; Some (i, e.1)) es.
Lemma name_errors_spec ns es its : name_errors ns es = Some its -> Forall2 (error_of ns) es its.
Proof.
  intros H%mapM_Some. eapply Forall2_impl; [exact H|].
  intros e it (k & Hk & (i & Hi & [= <-])%bind_Some)%bind_Some. split; [done|]. by exists k.
Qed.

Definition show_error (e : prim * option nat) : M unit :=
  let '(message, k) := e in k <- of_option k;; when (highlights C) (highlight C k);;; showLabel C k message.

Lemma show_error_runs ns hide0 shown e it s : error_of ns e it -> names (the_page s) = ns ->
  it.1 ∉ map fst shown -> truthy it.2 = true -> showing hide0 shown (labels_of s) (shown_ids s) ->
  exists s', show_error e s = (s', Some tt) /\ names (the_page s') = ns /\
    showing hide0 (shown ++ [it]) (labels_of s') (shown_ids s') /\ toHide (s_checks s') = toHide (s_checks s) /\
    currentElements (s_checks s') = currentElements (s_checks s).
Proof.
  destruct e as [t ok], it as [i t']. intros [E (k & Hk & Hn)] Hns Hi Ht H. cbn in *. subst ok t'.
  rewrite <- Hns in Hn. destruct (names_lookup _ _ _ Hn) as (f & Hf & Hid).
  assert (Hhl : exists s1, when (highlights C) (highlight C k) s = (s1, Some tt) /\ display s1 = display s).
  { destruct (highlights C); [apply (swap_runs _ _ k f s Hf)|by exists s]. }
  destruct Hhl as (s1 & E1 & Hd). unfold display in Hd. injection Hd as HL HC HN.
  assert (Hf1 : exists f1, the_page s1 !! k = Some f1 /\ idOrName C f1 = i)
    by (apply names_lookup; by rewrite HN).
  destruct Hf1 as (f1 & Hf1 & Hid1). unfold bind at 1. cbn [of_option ret]. unfold bind. rewrite E1.
  rewrite (showLabel_effect k f1 t s1 Hf1). rewrite Hid1. eexists. split; [done|]. split; [by rewrite <- Hns|].
  rewrite HL, HC. split; [|done]. unfold labels_of at 1, shown_ids. cbn [s_view set_s_view set_s_checks labels set_labels s_checks set_toShow toShow].
  by apply (showing_message hide0 shown (labels_of s) (toShow (s_checks s)) i t).
Qed.

Lemma show_errors_run ns hide0 es its : Forall2 (error_of ns) es its -> forall shown s,
  names (the_page s) = ns -> NoDup (map fst (shown ++ its)) -> Forall (fun it => truthy it.2 = true) its ->
  showing hide0 shown (labels_of s) (shown_ids s) ->
  exists s', iter show_error es s = (s', Some tt) /\ names (the_page s') = ns /\
    showing hide0 (shown ++ its) (labels_of s') (shown_ids s') /\ toHide (s_checks s') = toHide (s_checks s) /\
    currentElements (s_checks s') = currentElements (s_checks s).
Proof.
  induction 1 as [|e it es its He H IH]; intros shown s Hns Hd Ht Hs.
  - exists s. rewrite app_nil_r. done.
  - inversion Ht; subst.
    assert (Hi : it.1 ∉ map fst shown).
    { rewrite map_app in Hd. apply NoDup_app in Hd as (_ & Hd & _). intros Hin. apply (Hd it.1 Hin). by left. }
    destruct (show_error_runs _ hide0 shown e it s He eq_refl Hi) as (s1 & E & Hn & Hs1 & Hh & Hcur); [done..|].
    destruct (IH (shown ++ [it]) s1) as (s2 & E2 & Hn2 & Hs2 & Hh2 & Hcur2); [done|by rewrite <- app_assoc|done|done|].
    exists s2. rewrite <- app_assoc in Hs2. split; [cbn [iter]; unfold bind; by rewrite E|].
    split; [done|]. split; [done|]. split; congruence.
Qed.

(** ** Hiding and showing *)

Lemma upd_all_idem {A} (g : A -> A) : (forall x, g (g x) = g x) -> forall ids l i,
  upd_all g ids l !! i = if decide (i ∈ ids) then option_map g (l !! i) else l !! i.
Proof.
  intros Hg ids. unfold upd_all. induction ids as [|j ids IH]; intros l i; [done|]. cbn [fold_left]. rewrite IH.
  rewrite upd_at. destruct (decide (i = j)) as [->|Hne].
  - rewrite (decide_True (P := j ∈ j :: ids)) by by left. case_decide; [|done]. destruct (l !! j); cbn; [by rewrite Hg|done].
  - destruct (decide (i ∈ ids)) as [H1|H1], (decide (i ∈ j :: ids)) as [H2|H2]; try done.
    + destruct H2. by right.
    + by apply elem_of_cons in H2 as [?|?].
Qed.

(** The labels when those of [sh] are shown and the others of [hide] are hidden. *)
Lemma toggle_labels b t s : exists s', toggle b t s = (s', Some tt) /\
  labels_of s' = upd_all (set_shown b) (t_labels t) (labels_of s) /\ s_checks s' = s_checks s.
Proof.
  unfold toggle, bind. rewrite iter_update. destruct (t_containers t); by eexists.
Qed.

Definition finish_display : M unit :=
  sh <- get (fun s => toShow (s_checks s));;
  h <- get (fun s => toHide (s_checks s));;
  put_toHide (set_not h sh);;;
  hideErrors;;;
  toggle true sh.
Lemma finish_display_runs s : let sh := shown_ids s in
  exists s', finish_display s = (s', Some tt) /\
  labels_of s' = upd_all (set_shown true) sh
    (upd_all (set_shown false) (filter (fun x => x ∉ sh) (t_labels (toHide (s_checks s)))) (labels_of s)).
Proof.
  intros sh. unfold finish_display, hideErrors, bind, get, put_toHide, modify.
  set (s1 := set_s_checks _ s). destruct (toggle_labels false (toHide (s_checks s1)) s1) as (s2 & -> & H2 & _).
  destruct (toggle_labels true (toShow (s_checks s)) s2) as (s3 & E & H3 & _). rewrite E. exists s3. split; [done|].
  rewrite H3, H2. done.
Qed.

(** What was gathered is what is seen. *)
Lemma showing_seen shown L sh (h : shown_set) L' : showing (t_labels h) shown L sh ->
  L' = upd_all (set_shown true) sh (upd_all (set_shown false) (filter (fun x => x ∉ sh) (t_labels h)) L) ->
  (forall i t, (i, t) ∈ shown -> exists l, l ∈ L' /\ l_shown l = true /\ is_error C l = true /\ l_for l = i /\ l_html l = t) /\
  (forall l, l ∈ L' -> l_shown l = true -> is_error C l = true -> l_for l ∈ map fst shown).
Proof.
  intros [H1 H2 H3] ->.
  assert (Hlook : forall j, upd_all (set_shown true) sh (upd_all (set_shown false) (filter (fun x => x ∉ sh) (t_labels h)) L) !! j =
    if decide (j ∈ sh) then option_map (set_shown true) (L !! j)
    else if decide (j ∈ t_labels h) then option_map (set_shown false) (L !! j) else L !! j).
  { intros j. rewrite !upd_all_idem by done. destruct (decide (j ∈ sh)) as [Hj|Hj].
    - rewrite decide_False; [done|]. by intros [? _]%list_elem_of_filter.
    - destruct (decide (j ∈ t_labels h)) as [Hh|Hh]; [by rewrite decide_True by by apply list_elem_of_filter|].
      rewrite decide_False; [done|]. by intros [_ ?]%list_elem_of_filter. }
  split.
  - intros i t Hin. destruct (H1 i t Hin) as (j & l & Hl & Hj & He & Hf & Hh). exists (set_shown true l).
    split; [|done]. apply list_elem_of_lookup. exists j. rewrite Hlook, decide_True by done. by rewrite Hl.
  - intros l (j & Hl)%list_elem_of_lookup Hs He. rewrite Hlook in Hl. destruct (decide (j ∈ sh)) as [Hj|Hj].
    + destruct (H2 j Hj) as (l0 & Hl0 & _ & Hin). rewrite Hl0 in Hl. by injection Hl as <-.
    + destruct (decide (j ∈ t_labels h)) as [Hh|Hh].
      * destruct (L !! j); [|done]. injection Hl as <-. done.
      * by destruct (H3 j l Hl He).
Qed.

(** ** All together *)

Lemma iter_swap_runs a b ks s : Forall (known s) ks ->
  exists s', iter (swap_classes a b) ks s = (s', Some tt) /\ display s' = display s.
Proof.
  intros H. remember (length (the_page s)) as n eqn:En. unfold known in H. rewrite <- En in H.
  revert s En. induction H as [|k ks Hk _ IH]; intros s En; [by exists s|].
  destruct (lookup_lt_is_Some_2 (the_page s) k) as [f Hf]; [lia|].
  destruct (swap_runs a b k f s Hf) as (s1 & E & Hd).
  assert (En1 : n = length (the_page s1)).
  { unfold display in Hd. injection Hd as _ _ Hn. apply (f_equal length) in Hn. unfold names in Hn. rewrite !length_map in Hn. lia. }
  destruct (IH s1 En1) as (s2 & E2 & Hd2). exists s2. split; [cbn [iter]; unfold bind; by rewrite E|congruence].
Qed.

Lemma defaultShowErrors_seen s its : known_checks s -> toShow (s_checks s) = nothing ->
  t_labels (toHide (s_checks s)) = errors C s ->
  Forall2 (error_of (names (the_page s))) (errorList (s_checks s)) its ->
  NoDup (map fst its) -> Forall (fun it => truthy it.2 = true) its ->
  exists s', defaultShowErrors C s = (s', Some tt) /\
  (forall i t, (i, t) ∈ its -> exists l, l ∈ labels_of s' /\ l_shown l = true /\ is_error C l = true /\ l_for l = i /\ l_html l = t) /\
  (forall l, l ∈ labels_of s' -> l_shown l = true -> is_error C l = true -> l_for l ∈ map fst its).
Proof.
  intros (_ & Hcur & _) Hshow Hhide Herr Hd Ht.
  assert (Hs0 : showing (t_labels (toHide (s_checks s))) [] (labels_of s) (shown_ids s)).
  { constructor; [by intros i t H%elem_of_nil|unfold shown_ids; rewrite Hshow; by intros j H%elem_of_nil|].
    intros j l Hl He. left. rewrite Hhide. apply (positions_spec (is_error C)). by exists l. }
  destruct (show_errors_run _ _ _ _ Herr [] s eq_refl Hd Ht Hs0) as (s1 & E1 & Hn1 & Hs1 & Hh1 & Hc1).
  cbn [app] in Hs1. rewrite <- Hh1 in Hs1.
  set (s2 := if bool_decide (errorList (s_checks s) = []) then s1
             else set_s_checks (set_toShow (set_add (toShow (s_checks s1)) (ShownSet [] true)) (s_checks s1)) s1).
  assert (H2 : labels_of s2 = labels_of s1 /\ shown_ids s2 = shown_ids s1 /\ toHide (s_checks s2) = toHide (s_checks s1) /\
               currentElements (s_checks s2) = currentElements (s_checks s1) /\ the_page s2 = the_page s1).
  { unfold s2, shown_ids. case_bool_decide; [done|]. cbn. by rewrite app_nil_r. }
  destruct H2 as (L2 & S2 & T2 & C2 & P2).
  assert (Hlen : length (the_page s2) = length (the_page s)).
  { rewrite P2. apply (f_equal length) in Hn1. unfold names in Hn1. by rewrite !length_map in Hn1. }
  assert (H3 : exists s3, when (unhighlights C) (v <- get validElements;; iter (unhighlight C) v) s2 = (s3, Some tt) /\ display s3 = display s2).
  { destruct (unhighlights C); [|by exists s2]. cbn [when]. unfold bind at 1. cbn [get]. apply iter_swap_runs.
    apply Forall_forall. intros k [_ Hk]%list_elem_of_filter. rewrite C2, Hc1 in Hk. rewrite Forall_forall in Hcur.
    specialize (Hcur k Hk). unfold known in *. by rewrite Hlen. }
  destruct H3 as (s3 & E3 & D3). unfold display in D3. injection D3 as L3 K3 _.
  destruct (finish_display_runs s3) as (s4 & E4 & L4). exists s4. split.
  - unfold defaultShowErrors. unfold bind at 1. cbn [get]. fold show_error.
    change (fun '(message, k) => k <- of_option k;; when (highlights C) (highlight C k);;; showLabel C k message) with show_error.
    unfold bind at 1. rewrite E1. rewrite Hsuccess. unfold bind at 1.
    replace (when (negb (bool_decide (errorList (s_checks s) = []))) _ s1) with (s2, Some tt)
      by (unfold s2; by case_bool_decide).
    unfold bind at 1. cbn [when ret]. unfold bind at 1. rewrite E3. exact E4.
  - apply (showing_seen its (labels_of s3) (shown_ids s3) (toHide (s_checks s3))); [|exact L4].
    unfold shown_ids in *. rewrite K3, L3, L2, S2, T2. exact Hs1.
Qed.
End Labels.

(** C24. Without the settings [success] and [showErrors] of the user, where no rule is equalTo,
    remote or throws ([outcome]) and no two fields that fail share a label (by a group, or
    an id): after a check of the form the user sees an error label with the message of each
    field that fails, if no message is empty, and no other error label. *)
Theorem errors_shown {W : Page} C s els outcomes its : success C = None -> custom_showErrors C = false ->
  rules_read C s -> checked_fields C s els -> Forall2 (outcome C s) els outcomes ->
  Forall2 (error_of (names C (the_page s))) (errors_of outcomes) its ->
  NoDup (map fst its) -> Forall (fun it => truthy it.2 = true) its ->
  let s' := (form C s).1 in
  (forall i t, (i, t) ∈ its ->
     exists l, l ∈ labels (s_view s') /\ l_shown l = true /\ is_error C l = true /\ l_for l = i /\ l_html l = t) /\
  (forall l, l ∈ labels (s_view s') -> l_shown l = true -> is_error C l = true -> l_for l ∈ map fst its).
Proof.
  intros Hsuc Hcus Hread Hfields Ho Herr Hd Ht s'. pose proof (elements_spec C s els Hread Hfields) as Hels.
  destruct (form_runs C s els outcomes Hels Ho) as (s3 & E & Hk & HE & HV & HS & HH & _).
  assert (Hp : the_page s3 = the_page s) by (unfold the_page; by rewrite HV).
  destruct (defaultShowErrors_seen C Hsuc s3 its) as (s4 & E4 & H4).
  - done.
  - done.
  - rewrite HH. cbn. unfold errors. by rewrite HV.
  - by rewrite HE, Hp.
  - done.
  - done.
  - assert (E' : (form C s).1 = s4).
    { rewrite E. unfold showErrors. rewrite Hcus. unfold bind. cbn [ret]. by rewrite E4. }
    unfold s'. by rewrite E'.
Qed.
Lemma errors_shown_witness : let W := plain_page in let s := step default_config Submit form3 in
  let s' := (form default_config (step default_config (Input 0 []) s)).1 in
  let its := [(u "name", PStr (u "This field is required.")); (u "age", PStr (u "Please enter a value less than or equal to 150."))] in
  (forall i t, (i, t) ∈ its ->
     exists l, l ∈ labels (s_view s') /\ l_shown l = true /\ is_error default_config l = true /\ l_for l = i /\ l_html l = t) /\
  (forall l, l ∈ labels (s_view s') -> l_shown l = true -> is_error default_config l = true -> l_for l ∈ map fst its).
Proof.
  intros W s s' its. set (s0 := step default_config (Input 0 []) s).
  assert (H : rules_read (W := W) default_config s0 /\ checked_fields (W := W) default_config s0 [0; 1; 2]%nat)
    by (apply elements_listed; vm_compute; reflexivity).
  apply (errors_shown (W := W) default_config (step default_config (Input 0 []) s) [0; 1; 2]%nat
    [Some (PStr (u "This field is required."), Some 0%nat); Some age_error; None] its).
  - reflexivity.
  - reflexivity.
  - apply H.
  - apply H.
  - apply outcomes_of. vm_compute. reflexivity.
  - apply name_errors_spec. vm_compute. reflexivity.
  - apply (bool_decide_eq_true_1 (NoDup (map fst its))). vm_compute. reflexivity.
  - repeat constructor.
Defined.
