(* ===== verification/Param.v ===== *)
(** * [html/resource/js/jquery.js]: [$.param] and [$.fn.serialize]

    The query string of data for a request: of the fields of a form, or of an object
    with arrays and objects inside. *)

From Stdlib Require Import ZArith Lia.
From stdpp Require Import base tactics list numbers strings.
From S2P Require Import Prelude JsValue Md5 Uri ValidPage.
Local Open Scope Z_scope.

(** Data: an array of elements with the properties [name] and [value], or an object. *)
Inductive param_data :=
  | Elements (l : list (jsval * jsval))
  | Members (l : list (jstr * jsval)).

Section Param.
(** [host_text]: what [String] gives for dates and functions; [returns key]: what the
    function that stands under [key] returns. *)
Context (host_text : jsval -> jstr) (returns : jstr -> jsval).

(** [rbracket]: the text ends with an opening and a closing bracket. *)
Definition rbracket (s : jstr) : bool := js_eqb (drop (length s - 2) s) (u "[]").
(** [typeof v === object] *)
Definition is_object (v : jsval) : bool :=
  match v with VNull | VArr _ | VObj _ | VDate _ => true | _ => false end.
Definition bracketed (prefix key : jstr) : jstr := prefix ++ u "[" ++ key ++ u "]".

(** The calls of [add]. *)
Fixpoint buildParams (traditional : bool) (prefix : jstr) (obj : jsval) : list (jstr * jsval) :=
  match obj with
  | VArr l =>
      (fix items (i : Z) (l : list jsval) :=
         match l with
         | [] => []
         | v :: l =>
             (if traditional || rbracket prefix then [(prefix, v)]
              else buildParams traditional (bracketed prefix (if is_object v then Z_to_str i else [])) v)
             ++ items (i + 1) l
         end) 0 l
  | VObj l =>
      if traditional then [(prefix, obj)]
      else (fix members (l : list (jstr * jsval)) :=
              match l with
              | [] => []
              | (name, v) :: l => buildParams traditional (bracketed prefix name) v ++ members l
              end) l
  | _ => [(prefix, obj)]
  end.
Definition param_pairs (traditional : bool) (a : param_data) : list (jstr * jsval) :=
  match a with
  | Elements l => map (fun p => (js_String host_text p.1, p.2)) l
  | Members l => flat_map (fun p => buildParams traditional p.1 p.2) l
  end.

(** [add]: the text of a value; [None] when encoding throws. *)
Definition param_text (key : jstr) (value : jsval) : jstr :=
  js_String host_text (match value with
                       | VFun => returns key
                       | VUndef | VNull => VStr []
                       | _ => value
                       end).
Definition param_add (p : jstr * jsval) : option jstr :=
  match encodeURIComponent p.1, encodeURIComponent (param_text p.1 p.2) with
  | Some k, Some v => Some (k ++ u "=" ++ v)
  | _, _ => None
  end.
Definition param (traditional : bool) (a : param_data) : option jstr :=
  (fun s => replace_all (u "%20") (u "+") (join (u "&") s)) <$> mapM param_add (param_pairs traditional a).
End Param.

(** ** Forms *)

(** [s.replace(rCRLF, ...)] *)
Fixpoint crlf (s : jstr) : jstr :=
  match s with
  | 13 :: 10 :: s => 13 :: 10 :: crlf s
  | 10 :: s => 13 :: 10 :: crlf s
  | c :: s => c :: crlf s
  | [] => []
  end.
Definition rsubmitterTypes (t : jstr) : bool :=
  bool_decide (to_lower t ∈ map u ["submit"; "button"; "image"; "reset"; "file"]%string).
Definition rsubmittable (t : jstr) : bool :=
  existsb (fun w => prefix_b (u w) (to_lower t)) ["input"; "select"; "textarea"; "keygen"]%string.
Definition rcheckableType (t : jstr) : bool := bool_decide (to_lower t ∈ map u ["checkbox"; "radio"]%string).

Section Serialize.
(** [is(":disabled")] *)
Context (disabled : field -> bool).
Definition successful (f : field) : bool :=
  negb (bool_decide (name f = [])) && negb (disabled f) && rsubmittable (nodeName f)
  && negb (rsubmitterTypes (f_type f)) && (checked f || negb (rcheckableType (f_type f))).
Definition serialize_one (f : field) : list (jstr * jstr) :=
  match field_val f with
  | Many l => map (fun v => (name f, crlf v)) l
  | Single (PUndef | PNull) => []
  | Single p => [(name f, crlf (to_str p))]
  end.
(** Of the elements of a form, or of the fields themselves. *)
Definition serializeArray (fields : list field) : list (jstr * jstr) :=
  flat_map serialize_one (filter (fun f => successful f = true) fields).
Definition serialize (host_text : jsval -> jstr) (returns : jstr -> jsval) (fields : list field) : option jstr :=
  param host_text returns false (Elements (map (fun p => (VStr p.1, VStr p.2)) (serializeArray fields))).
End Serialize.

Definition no_text (v : jsval) : jstr := [].
Definition no_return (key : jstr) : jsval := VUndef.
Example param_ex :
  param no_text no_return false (Members [(u "a", VArr [VNum (of_Z 1); VStr (u "x y"); VArr [VBool true]]);
                                          (u "b", VObj [(u "k", VNull); (u "l[]", VArr [VNum (of_Z 2)])])])
  = Some (u "a%5B%5D=1&a%5B%5D=x+y&a%5B2%5D%5B%5D=true&b%5Bk%5D=&b%5Bl%5B%5D%5D%5B%5D=2").
Proof. vm_compute. reflexivity. Qed.
Example traditional_ex :
  param no_text no_return true (Members [(u "a", VArr [VNum (of_Z 1); VStr (u "&=")])]) = Some (u "a=1&a=%26%3D").
Proof. vm_compute. reflexivity. Qed.
