(* ===== verification/ParamProps.v ===== *)
(** * Properties of query strings: what [$.param] writes is read back *)

From Stdlib Require Import ZArith Lia.
From stdpp Require Import base tactics list numbers strings.
From S2P Require Import Prelude JsValue Md5 Base64 Uri ValidPage Param.
Local Open Scope Z_scope.

(** ** The form [application/x-www-form-urlencoded], as its readers see it *)

Definition plus_to_space (s : jstr) : jstr := map (fun c => if c =? 43 then 32 else c) s.
Fixpoint cut_at (sep : Z) (s : jstr) : jstr * jstr :=
  match s with
  | [] => ([], [])
  | c :: s => if c =? sep then ([], s) else let p := cut_at sep s in (c :: p.1, p.2)
  end.
Definition query_part (s : jstr) : option jstr := decodeURIComponent (plus_to_space s).
Definition query_pair (s : jstr) : option (jstr * jstr) :=
  match query_part (cut_at 61 s).1, query_part (cut_at 61 s).2 with Some k, Some v => Some (k, v) | _, _ => None end.
Definition query_pairs (s : jstr) : option (list (jstr * jstr)) :=
  if bool_decide (s = []) then Some [] else mapM query_pair (split_on 38 s).

(** ** The replacement of escaped spaces *)

(** Texts of single units and escapes. *)
Inductive tokens : jstr -> Prop :=
  | TokNil : tokens []
  | TokUnit c t : c <> 37 -> tokens t -> tokens (c :: t)
  | TokByte b t : is_byte b -> tokens t -> tokens (percent b ++ t).
Definition plused (t : jstr) : jstr := replace_all (u "%20") (u "+") t.

Lemma plused_unit c t : c <> 37 -> plused (c :: t) = c :: plused t.
Proof. intros H. unfold plused, replace_all. cbn. by destruct c as [|p|p]; [| |]; repeat (destruct p as [p|p|]; try done). Qed.
Lemma percent_check_20 :
  forallb (fun b => bool_decide (prefix_b (u "%20") (percent b) = (b =? 32)) &&
                    forallb (fun c => negb (bool_decide (c ∈ [37; 38; 43; 61]))) (tail (percent b))) (seqZ 0 256) = true.
Proof. vm_compute. reflexivity. Qed.
Lemma percent_facts b : is_byte b -> prefix_b (u "%20") (percent b) = (b =? 32) /\
  Forall (fun c => c ∉ [37; 38; 43; 61]) (tail (percent b)).
Proof.
  intros Hb. pose proof (proj1 (forallb_forall _ _) percent_check_20 b) as Hc.
  assert (Hin : In b (seqZ 0 256)) by (apply list_elem_of_In, elem_of_seqZ; unfold is_byte in Hb; lia).
  apply andb_true_iff in Hc as [H1 H2]; [|done]. apply bool_decide_eq_true in H1. split; [done|].
  apply Forall_forall. intros c Hin2. apply forallb_forall with (x := c) in H2; [|by apply list_elem_of_In].
  by apply negb_true_iff, bool_decide_eq_false in H2.
Qed.
Lemma not_37 c : c ∉ [37; 38; 43; 61] -> c <> 37.
Proof. intros H ->. apply H. by left. Qed.
Lemma replace_from_step p r c s : replace_from p r (c :: s) 0
  = if prefix_b p (c :: s) then r ++ replace_from p r s (length p - 1) else c :: replace_from p r s 0.
Proof. reflexivity. Qed.
Lemma plused_byte b t : is_byte b -> plused (percent b ++ t) = (if b =? 32 then [43] else percent b) ++ plused t.
Proof.
  intros Hb. destruct (percent_facts b Hb) as [H1 H2]. inversion H2 as [|x ? Hx H3]; subst.
  inversion H3 as [|y ? Hy _]; subst. apply not_37 in Hx, Hy. unfold plused at 1, replace_all.
  change (percent b ++ t) with (37 :: hex_upper (b / 16) :: hex_upper (b mod 16) :: t).
  rewrite replace_from_step. change (prefix_b (u "%20") (37 :: hex_upper (b / 16) :: hex_upper (b mod 16) :: t))
    with (prefix_b (u "%20") (percent b)). rewrite H1. destruct (b =? 32); [done|].
  change (37 :: plused (hex_upper (b / 16) :: hex_upper (b mod 16) :: t) = percent b ++ plused t). by rewrite !plused_unit.
Qed.
Lemma tokens_app s t : tokens s -> tokens t -> tokens (s ++ t).
Proof. induction 1 as [|c s Hc Hs IH|b s Hb Hs IH]; intros Ht; [done|by constructor; auto|]. rewrite <- app_assoc. by constructor; auto. Qed.
Lemma plused_app s t : tokens s -> plused (s ++ t) = plused s ++ plused t.
Proof.
  induction 1 as [|c s Hc Hs IH|b s Hb Hs IH]; [done|..].
  - cbn [app]. by rewrite !plused_unit, IH.
  - by rewrite <- app_assoc, !plused_byte, IH, app_assoc.
Qed.

(** ** Encoded texts *)

Lemma tokens_percents bs : Forall is_byte bs -> tokens (flat_map percent bs).
Proof. induction 1 as [|b bs Hb _ IH]; [constructor|by constructor]. Qed.
Lemma unreserved_not c d : unreserved c = true -> d ∈ [37; 38; 43; 61; 32] -> c <> d.
Proof. intros H Hd ->. rewrite !elem_of_cons, elem_of_nil in Hd. destruct Hd as [->|[->|[->|[->|[->|[]]]]]]; discriminate H. Qed.
Lemma pair_bytes_bytes h l : is_high h = true -> is_low l = true -> Forall is_byte (pair_bytes h l).
Proof.
  unfold is_high, is_low. intros Hh Hl. unfold pair_bytes, is_byte.
  set (cp := 65536 + (h - 55296) * 1024 + (l - 56320)). assert (Hcp : 65536 <= cp <= 1114111) by (subst cp; lia).
  repeat constructor; Z.div_mod_to_equations; lia.
Qed.
Lemma enc1_cases c : plain16 c = true ->
  (unreserved c = true /\ enc1 c = [c]) \/ (enc1 c = flat_map percent (Utf8.encode_unit c) /\ Forall is_byte (Utf8.encode_unit c)).
Proof.
  intros Hc. unfold enc1. destruct (unreserved c); [by left|right]. split; [done|].
  apply encode_unit_bytes. unfold plain16, is_unit in Hc. lia.
Qed.
Lemma escaped_tokens s t : escaped s t -> tokens t.
Proof.
  induction 1 as [|c s t Hc Ht IH|h l s t Hh Hl Ht IH]; [constructor|..].
  - apply tokens_app; [|done]. destruct (enc1_cases c Hc) as [[Hu ->]|[-> Hb]]; [|by apply tokens_percents].
    constructor; [by apply (unreserved_not _ 37); [|left]|constructor].
  - apply tokens_app; [|done]. by apply tokens_percents, pair_bytes_bytes.
Qed.

(** Plus signs for spaces, and none of the signs that separate. *)
Definition no_sign (s : jstr) : Prop := Forall (fun c => c <> 38 /\ c <> 61) s.
Lemma percent_signs b : is_byte b -> no_sign (percent b) /\ plus_to_space (percent b) = percent b.
Proof.
  intros Hb. destruct (percent_facts b Hb) as [_ H]. inversion H as [|x ? Hx H3]; subst. inversion H3 as [|y ? Hy _]; subst.
  rewrite !elem_of_cons, elem_of_nil in Hx, Hy. split; [repeat constructor; naive_solver|].
  unfold plus_to_space. cbn. by rewrite !(proj2 (Z.eqb_neq _ 43)) by naive_solver.
Qed.
Lemma percents_plused bs : Forall is_byte bs -> Forall (fun b => b <> 32) bs ->
  forall t, plused (flat_map percent bs ++ t) = flat_map percent bs ++ plused t /\
  plus_to_space (flat_map percent bs) = flat_map percent bs /\ no_sign (flat_map percent bs).
Proof.
  induction 1 as [|b bs Hb _ IH]; intros Hn t; [by repeat split; constructor|]. inversion Hn; subst.
  destruct (IH ltac:(done) t) as (E1 & E2 & E3). destruct (percent_signs b Hb) as [S1 S2]. cbn [flat_map].
  rewrite <- app_assoc, plused_byte, (proj2 (Z.eqb_neq b 32)), E1 by done. split; [by rewrite <- app_assoc|].
  unfold plus_to_space in *. rewrite map_app. split; [by rewrite S2, E2|]. by apply Forall_app.
Qed.
Lemma encode_unit_32 c : 0 <= c < 65536 -> c <> 32 -> Forall (fun b => b <> 32) (Utf8.encode_unit c).
Proof.
  intros Hc Hn. destruct (Z_lt_ge_dec c 128) as [H1|H1]; [|destruct (Z_lt_ge_dec c 2048) as [H2|H2]].
  - rewrite encode_unit_1 by lia. by constructor.
  - rewrite encode_unit_2 by lia. repeat constructor; Z.div_mod_to_equations; lia.
  - rewrite encode_unit_3 by lia. repeat constructor; Z.div_mod_to_equations; lia.
Qed.
Lemma pair_bytes_32 h l : is_high h = true -> is_low l = true -> Forall (fun b => b <> 32) (pair_bytes h l).
Proof.
  unfold is_high, is_low. intros Hh Hl. unfold pair_bytes.
  set (cp := 65536 + (h - 55296) * 1024 + (l - 56320)). assert (Hcp : 65536 <= cp <= 1114111) by (subst cp; lia).
  repeat constructor; Z.div_mod_to_equations; lia.
Qed.
Lemma escaped_plused s t : escaped s t -> spelled s (plus_to_space (plused t)) /\ no_sign (plused t).
Proof.
  induction 1 as [|c s t Hc Ht [IH1 IH2]|h l s t Hh Hl Ht [IH1 IH2]]; [by split; constructor|..].
  - destruct (enc1_cases c Hc) as [[Hu ->]|[-> Hb]].
    + cbn [app]. rewrite plused_unit by (apply unreserved_not; [done|by left]).
      pose proof (fun d => unreserved_not c d Hu) as Hd. unfold plus_to_space in *. cbn [map].
      rewrite (proj2 (Z.eqb_neq c 43)) by (apply Hd; do 2 right; by left). split.
      * apply SpRaw; [apply Hd; by left|done].
      * constructor; [|done]. split; apply Hd; [do 1 right; by left|do 3 right; by left].
    + assert (Hr : 0 <= c < 65536) by (unfold plain16, is_unit in Hc; lia). destruct (decide (c = 32)) as [->|Hn].
      * rewrite encode_unit_1 by lia. cbn [flat_map]. rewrite app_nil_r, plused_byte by (unfold is_byte; lia). cbn.
        split; [by apply SpRaw|by constructor].
      * destruct (percents_plused _ Hb (encode_unit_32 c Hr Hn) t) as (E1 & E2 & E3). rewrite E1. unfold plus_to_space in *.
        rewrite map_app, E2. split; [by apply SpUnit|by apply Forall_app].
  - destruct (percents_plused _ (pair_bytes_bytes h l Hh Hl) (pair_bytes_32 h l Hh Hl) t) as (E1 & E2 & E3).
    rewrite E1. unfold plus_to_space in *. rewrite map_app, E2. split; [by apply SpPair|by apply Forall_app].
Qed.

(** ** The round trip *)

Lemma query_part_escaped s t : escaped s t -> query_part (plused t) = Some s.
Proof. intros H. unfold query_part, decodeURIComponent. apply decode_spelled; [by apply escaped_plused|done]. Qed.
Lemma cut_at_sep a b : no_sign a -> cut_at 61 (a ++ 61 :: b) = (a, b).
Proof. induction 1 as [|c a [_ Hc] _ IH]; [done|]. cbn. rewrite (proj2 (Z.eqb_neq c 61)) by done. by rewrite IH. Qed.
Lemma plused_join ws : Forall tokens ws -> plused (join (u "&") ws) = join (u "&") (map plused ws).
Proof.
  induction 1 as [|w ws Hw Hws IH]; [done|]. destruct ws as [|w' ws]; [done|].
  change (join (u "&") (w :: w' :: ws)) with (w ++ 38 :: join (u "&") (w' :: ws)).
  by rewrite plused_app, plused_unit, IH.
Qed.
Lemma mapM_Some_map {A B} (f : A -> option B) l (g : A -> B) : Forall (fun x => f x = Some (g x)) l -> mapM f l = Some (map g l).
Proof. induction 1 as [|x l H _ IH]; [done|]. cbn. by rewrite H, IH. Qed.

Section Props.
Context (host_text : jsval -> jstr) (returns : jstr -> jsval).
Local Abbreviation text_of p := (param_text host_text returns p.1 p.2).

(** A pair that can be added: its text, and that it is read as the pair. *)
Lemma added_pair p w : units p.1 -> units (text_of p) -> param_add host_text returns p = Some w ->
  tokens w /\ Forall (fun c => c <> 38) (plused w) /\ plused w <> [] /\ query_pair (plused w) = Some (p.1, text_of p).
Proof.
  intros Hk Hv. unfold param_add. destruct (encodeURIComponent p.1) as [k|] eqn:Ek; [|done].
  destruct (encodeURIComponent (text_of p)) as [v|] eqn:Ev; [|done]. intros [= <-].
  apply encode_escaped in Ek, Ev; [|done..]. pose proof (escaped_tokens _ _ Ek) as Tk. pose proof (escaped_tokens _ _ Ev) as Tv.
  change (u "=" ++ v) with (61 :: v). rewrite plused_app, plused_unit by done.
  destruct (escaped_plused _ _ Ek) as [_ Nk], (escaped_plused _ _ Ev) as [_ Nv].
  split; [apply tokens_app; [done|by constructor]|]. split; [|split; [by destruct (plused k)|]].
  - apply Forall_app. split; [|constructor; [done|]]; (eapply Forall_impl; [eassumption|by intros c []]).
  - unfold query_pair. rewrite cut_at_sep by done. cbn [fst snd]. by rewrite (query_part_escaped _ _ Ek), (query_part_escaped _ _ Ev).
Qed.

Lemma param_decodes traditional a t :
  Forall (fun p => units p.1 /\ units (text_of p)) (param_pairs host_text traditional a) ->
  param host_text returns traditional a = Some t ->
  query_pairs t = Some (map (fun p => (p.1, text_of p)) (param_pairs host_text traditional a)).
Proof.
  intros Hu H. unfold param in H. apply fmap_Some in H as (ws & H & ->). fold (plused (join (u "&") ws)).
  apply mapM_Some in H. assert (Hws : Forall2 (fun p w => tokens w /\ Forall (fun c => c <> 38) (plused w) /\ plused w <> [] /\
    query_pair (plused w) = Some (p.1, text_of p)) (param_pairs host_text traditional a) ws).
  { induction H as [|p w ps ws Hp _ IH]; [constructor|]. inversion Hu as [|? ? [Hk Hv] Hu']; subst. constructor; [by apply added_pair|by apply IH]. }
  clear H Hu. unfold query_pairs. rewrite plused_join by (clear -Hws; induction Hws; constructor; tauto).
  case_bool_decide as E.
  - destruct Hws as [|p w ps ws (_ & _ & Hne & _) _]; [done|]. exfalso. apply Hne. cbn in E. by destruct (plused w), (map plused ws).
  - change (u "&") with [38]. rewrite split_on_join.
    + clear E. induction Hws as [|p w ps ws (_ & _ & _ & Hq) _ IH]; [done|]. cbn. by rewrite Hq, IH.
    + by destruct Hws.
    + clear E. induction Hws as [|p w ps ws (_ & H & _) _ IH]; [constructor|]. cbn. by constructor.
Qed.

(** C36. A server that reads the query string as a form has exactly the names and texts that
    were added, in order: no sign in a name or a value is taken for a separator, a plus sign or
    an escape. *)
Theorem param_read_back traditional a t :
  Forall (fun p => units p.1 /\ units (text_of p)) (param_pairs host_text traditional a) ->
  param host_text returns traditional a = Some t ->
  query_pairs t = Some (map (fun p => (p.1, text_of p)) (param_pairs host_text traditional a)).
Proof. apply param_decodes. Qed.

(** A form is read as its successful fields, their line ends as CR LF. *)
Lemma serialize_read_back disabled fields t :
  Forall (fun p => units p.1 /\ units p.2) (serializeArray disabled fields) ->
  serialize disabled host_text returns fields = Some t -> query_pairs t = Some (serializeArray disabled fields).
Proof.
  intros Hu H. apply param_decodes in H.
  - rewrite H. f_equal. cbn. rewrite !map_map. cbn. rewrite <- (map_id (serializeArray disabled fields)) at 2. by apply map_ext; intros [].
  - cbn. apply Forall_map, Forall_map. eapply Forall_impl; [exact Hu|]. by intros [k v].
Qed.
End Props.
Lemma param_read_back_witness :
  query_pairs (u "a%5B%5D=1&a%5B%5D=x+y&b%5B%26%5D=%2B%3D") =
  Some [(u "a[]", u "1"); (u "a[]", u "x y"); (u "b[&]", u "+=")].
Proof.
  apply (param_read_back no_text no_return false
    (Members [(u "a", VArr [VNum (of_Z 1); VStr (u "x y")]); (u "b", VObj [(u "&", VStr (u "+="))])])).
  - repeat (apply Forall_cons; split; [split; by apply is_unit_units|]); apply Forall_nil; done.
  - vm_compute. reflexivity.
Defined.
