(* ===== verification/Deferred.v ===== *)
(** * [html/resource/js/jquery.js]: [jQuery.Callbacks], [jQuery.Deferred] and [jQuery.when]

    A callback may do anything with the lists and the deferreds of the page while it is
    called: add, remove, fire again. A user's function is a finite program of operations
    ([prog]) for each context and arguments; the closures that the library makes have
    constructors of their own ([cb]). [eval] executes a call, a firing or the rest of the
    loop of a firing; its fuel bounds their nesting, for a function can fire itself for
    ever. The trace of a world records which callbacks were added to a list and which
    were called, with their context and arguments.

    A library that stands on these lists - the requests of [Ajax] - comes in as an instance
    of [Library] and [LibraryCode]: its state, its operations, the code of its closures. *)

From Stdlib Require Import ZArith Lia.
From stdpp Require Import base tactics list numbers strings gmap.
From S2P Require Import Prelude JsValue ValidPage ValidRules.
Set Warnings "-register-all".
Local Open Scope Z_scope.

Declare Scope deferred_scope.
Local Open Scope deferred_scope.

(** ** Values, callbacks, lists *)

(** A list: [(0, n)] is the one of the user's list [n], [(S d, i)] those of the deferred
    [d]: done, fail and progress. *)
Abbreviation lid := (nat * nat)%type.

Inductive value :=
  | Prim (p : prim)
  | Arr (l : list value)
  | CallbacksRef (n : nat)
  | DeferredRef (d : nat)
  | PromiseRef (d : nat)
  | ObjectPromise (d n : nat)               (* the object [n] of a library, with the methods of the promise [d] *)
  | Obj (l : list nat)                      (* an object of the page or of a library, by what identifies it *)
  | Contexts (w : nat) (progress : bool)    (* the array of contexts of a call of [when] *)
  | SomeObject.                             (* the window, or the object around a primitive value *)
Definition undef : value := Prim PUndef.
(** What a function sees as [this]. *)
Definition this_of (context : value) : value := match context with Prim _ => SomeObject | _ => context end.

(** The functions that a page can name. *)
Inductive func :=
  | User (f : nat)                        (* its own *)
  | Action (d i : nat)                    (* [deferred.resolve], [reject], [notify] *)
  | FireOf (n : nat).                     (* [list.fire] *)
Inductive cb :=
  | Fn (f : func)
  | SetState (d : nat) (s : jstr)         (* the three callbacks of a new deferred *)
  | DisableList (l : lid)
  | LockList (l : lid)
  | Forward (d nd i : nat) (fn : option func)   (* of [d.then], with the function given to it *)
  | Update (w i : nat) (progress : bool)  (* of [when] *)
  | Lib (c : nat).                        (* a closure of a library *)
#[export] Instance func_eq_dec : EqDecision func.
Proof. solve_decision. Defined.
#[export] Instance cb_eq_dec : EqDecision cb.
Proof. solve_decision. Defined.

(** An argument of [add] and its like: a function, an array of them, anything else. *)
Inductive arg := AFun (f : func) | AList (l : list arg) | AOther.

(** [match(core_rnotwhite) || []] *)
Definition words (t : jstr) : list jstr := filter (fun w => w <> []) (split_where is_space t).

Record flags := Flags { once : bool; memory_on : bool; unique : bool; stopOnFalse : bool }.
(** [createOptions] *)
Definition createOptions (s : jstr) : flags :=
  let on w := bool_decide (w ∈ split_where is_space s) in
  Flags (on (u "once")) (on (u "memory")) (on (u "unique")) (on (u "stopOnFalse")).

(** Context and arguments of a firing. *)
Definition data := (value * list value)%type.
(** [cbs] and [stack] are [None] when they are undefined, the stack also when it is false. *)
Record clist := CList {
  opts : flags;
  firing : bool;
  memory : option data;
  fired : bool;
  firingLength : Z;
  firingIndex : Z;
  firingStart : Z;
  cbs : option (list cb);
  stack : option (list data)
}.
Definition Callbacks (o : flags) : clist :=
  CList o false None false 0 0 0 (Some []) (if once o then None else Some []).

(** What a call of [when] keeps. *)
Record whenrec := When {
  master : nat; remaining : Z;
  resolveContexts : list value; resolveValues : list value;
  progressContexts : list value; progressValues : list value
}.

Inductive result (A : Type) := Ok (a : A) | Thrown.
Arguments Ok {A} _.
Arguments Thrown {A}.

(** What a library adds to a page. *)
Class Library := { lib_state : Type; lib_op : Type; lib_init : lib_state }.

Inductive tevent := Added (l : lid) (f : cb) | Called (l : lid) (f : cb) (d : data).

Section State.
Context {L : Library}.

Record world := World {
  lists : gmap (nat * nat) clist;
  states : list jstr;              (* of the deferreds *)
  whens : list whenrec;
  next_list : nat;
  more : lib_state;
  trace : list tevent
}.
Definition world0 : world := World ∅ [] [] 0 lib_init [].

(** ** Programs *)

Inductive op :=
  | NewCallbacks (o : flags)
  | Add (n : nat) (args : list arg)
  | Remove (n : nat) (fs : list func)
  | Has (n : nat) (f : option func)
  | EmptyList (n : nat)
  | Disable (n : nat)
  | Disabled (n : nat)
  | Lock (n : nat)
  | Locked (n : nat)
  | FireWith (n : nat) (context : value) (args : list value)
  | Fired (n : nat)
  | NewDeferred (f : option func)
  | Listen (d i : nat) (args : list arg)                        (* done, fail, progress *)
  | Always (d : nat) (args : list arg)
  | Act (d i : nat) (args : list value)                         (* resolve, reject, notify *)
  | ActWith (d i : nat) (context : value) (args : list value)
  | Then (d : nat) (fns : list (option func))
  | State (d : nat)
  | WhenAll (l : list value)
  | Ext (e : lib_op).
Inductive prog :=
  | Return (v : value)
  | Throw
  | Do (o : op) (k : value -> prog).

(** ** States and exceptions *)

(** [None]: out of fuel. *)
Definition M (A : Type) := world -> option (world * result A).
Definition ret {A} (a : A) : M A := fun w => Some (w, Ok a).
Definition throw {A} : M A := fun w => Some (w, Thrown).
Definition bind {A B} (m : M A) (k : A -> M B) : M B := fun w =>
  match m w with
  | Some (w, Ok a) => k a w
  | Some (w, Thrown) => Some (w, Thrown)
  | None => None
  end.
End State.
Notation "x <- m ;; k" := (bind m (fun x => k)) (at level 100, m at next level, right associativity) : deferred_scope.
Notation "m ;;; k" := (bind m (fun _ => k)) (at level 100, right associativity) : deferred_scope.

(** The code of a library, on calls and firings; [bound] bounds its loops. *)
Class LibraryCode (L : Library) := {
  lib_exec (bound : nat) (apply : cb -> value -> list value -> M value) (fire : lid -> data -> M unit) (e : lib_op) : M value;
  lib_call (bound : nat) (apply : cb -> value -> list value -> M value) (fire : lid -> data -> M unit)
    (c : nat) (context : value) (args : list value) : M value
}.

Section Code.
Context {L : Library}.

Definition get {A} (g : world -> A) : M A := fun w => Some (w, Ok (g w)).
Definition modify (g : world -> world) : M unit := fun w => Some (g w, Ok tt).
(** The state of the library. *)
Definition change (f : lib_state -> lib_state) : M unit :=
  modify (fun w => World (lists w) (states w) (whens w) (next_list w) (f (more w)) (trace w)).
(** [try { m } catch (e) { h }] *)
Definition catch {A} (m h : M A) : M A := fun w => match m w with Some (w, Thrown) => h w | o => o end.

Definition no_list : clist := CList (Flags false false false false) false None false 0 0 0 None None.
Definition get_list (l : lid) : M clist := get (fun w => default no_list (lists w !! l)).
Definition put_list (l : lid) (c : clist) : M unit :=
  modify (fun w => World (<[l := c]> (lists w)) (states w) (whens w) (next_list w) (more w) (trace w)).
Definition record (es : list tevent) : M unit :=
  modify (fun w => World (lists w) (states w) (whens w) (next_list w) (more w) (trace w ++ es)).

End Code.

Definition set_firing (x : bool) (c : clist) : clist :=
  CList (opts c) x (memory c) (fired c) (firingLength c) (firingIndex c) (firingStart c) (cbs c) (stack c).
Definition set_memory (x : option data) (c : clist) : clist :=
  CList (opts c) (firing c) x (fired c) (firingLength c) (firingIndex c) (firingStart c) (cbs c) (stack c).
Definition set_fired (x : bool) (c : clist) : clist :=
  CList (opts c) (firing c) (memory c) x (firingLength c) (firingIndex c) (firingStart c) (cbs c) (stack c).
Definition set_firingLength (x : Z) (c : clist) : clist :=
  CList (opts c) (firing c) (memory c) (fired c) x (firingIndex c) (firingStart c) (cbs c) (stack c).
Definition set_firingIndex (x : Z) (c : clist) : clist :=
  CList (opts c) (firing c) (memory c) (fired c) (firingLength c) x (firingStart c) (cbs c) (stack c).
Definition set_firingStart (x : Z) (c : clist) : clist :=
  CList (opts c) (firing c) (memory c) (fired c) (firingLength c) (firingIndex c) x (cbs c) (stack c).
Definition set_cbs (x : option (list cb)) (c : clist) : clist :=
  CList (opts c) (firing c) (memory c) (fired c) (firingLength c) (firingIndex c) (firingStart c) x (stack c).
Definition set_stack (x : option (list data)) (c : clist) : clist :=
  CList (opts c) (firing c) (memory c) (fired c) (firingLength c) (firingIndex c) (firingStart c) (cbs c) x.

(** ** Lists *)

(** [jQuery.inArray(f, l, i)] *)
Fixpoint inArray (f : cb) (l : list cb) (i : nat) : option nat :=
  match l with
  | [] => None
  | g :: l' =>
      match i with
      | S i => S <$> inArray f l' i
      | O => if decide (g = f) then Some O else S <$> inArray f l' O
      end
  end.
Definition has (c : clist) (f : option cb) : bool :=
  match cbs c with
  | None => false
  | Some l => match f with
              | Some f => match inArray f l 0 with Some _ => true | None => false end
              | None => negb (bool_decide (l = []))
              end
  end.

(** The functions in the arguments of [add], arrays inspected recursively. *)
Fixpoint functions (a : arg) : list cb :=
  match a with
  | AFun f => [Fn f]
  | AList l => flat_map functions l
  | AOther => []
  end.
Definition push_all (uniq : bool) (l fs : list cb) : list cb :=
  fold_left (fun l f => if uniq && bool_decide (f ∈ l) then l else l ++ [f]) fs l.

(** The loop of [remove] for one function, with the ends of a firing under way. [fuel]: the
    length of the list. *)
Fixpoint remove_loop (fuel : nat) (f : cb) (firing : bool) (index : nat) (l : list cb) (len idx : Z) : list cb * Z * Z :=
  match fuel with
  | O => (l, len, idx)
  | S fuel =>
      match inArray f l index with
      | None => (l, len, idx)
      | Some i =>
          remove_loop fuel f firing i (delete i l)
            (if firing && (Z.of_nat i <=? len) then len - 1 else len)
            (if firing && (Z.of_nat i <=? idx) then idx - 1 else idx)
      end
  end.
Definition remove_one (f : cb) (c : clist) : clist :=
  match cbs c with
  | None => c
  | Some l =>
      let '(l, len, idx) := remove_loop (length l) f (firing c) 0 l (firingLength c) (firingIndex c) in
      set_cbs (Some l) (set_firingLength len (set_firingIndex idx c))
  end.
Definition remove (fs : list cb) (c : clist) : clist :=
  match cbs c with Some _ => fold_left (fun c f => remove_one f c) fs c | None => c end.
Definition empty_list (c : clist) : clist := set_cbs (Some []) c.
Definition disable (c : clist) : clist := set_cbs None (set_stack None (set_memory None c)).
Definition lock (c : clist) : clist :=
  let c := set_stack None c in match memory c with Some _ => c | None => disable c end.
Definition update_list {L : Library} (l : lid) (g : clist -> clist) : M unit := c <- get_list l;; put_list l (g c).

Section Open.
Context {L : Library}.
(** A call, and the firing of a list. *)
Context (apply : cb -> value -> list value -> M value) (fire : lid -> data -> M unit).

(** [list.add] *)
Definition add_to (l : lid) (fs : list cb) : M unit :=
  c <- get_list l;;
  match cbs c with
  | None => ret tt
  | Some old =>
      let start := length old in
      let new := push_all (unique (opts c)) old fs in
      record (map (Added l) (drop start new));;;
      let c := set_cbs (Some new) c in
      if firing c then put_list l (set_firingLength (Z.of_nat (length new)) c)
      else match memory c with
           | Some m => put_list l (set_firingStart (Z.of_nat start) c);;; fire l m
           | None => put_list l c
           end
  end.

(** [list.fireWith] *)
Definition fireWith (l : lid) (context : value) (args : list value) : M unit :=
  c <- get_list l;;
  match cbs c with
  | None => ret tt
  | Some _ =>
      if negb (fired c) || match stack c with Some _ => true | None => false end then
        if firing c then
          match stack c with
          | Some s => put_list l (set_stack (Some (s ++ [(context, args)])) c)
          | None => throw
          end
        else fire l (context, args)
      else ret tt
  end.

(** [fire]: its start, the end of its loop. *)
Definition start_firing (l : lid) (d : data) : M unit :=
  c <- get_list l;;
  match cbs c with
  | None => throw
  | Some fs =>
      put_list l (CList (opts c) true (if memory_on (opts c) then Some d else None) true (Z.of_nat (length fs))
        (firingStart c) 0 (cbs c) (stack c))
  end.
Definition finish (l : lid) : M unit :=
  update_list l (set_firing false);;;
  c <- get_list l;;
  match cbs c with
  | None => ret tt
  | Some _ =>
      match stack c with
      | Some (d :: s) => put_list l (set_stack (Some s) c);;; fire l d
      | Some [] => ret tt
      | None => match memory c with
                | Some _ => put_list l (set_cbs (Some []) c)
                | None => put_list l (disable c)
                end
      end
  end.
(** One turn of the loop, and [next] for the others. *)
Definition is_false (v : value) : bool := match v with Prim (PBool false) => true | _ => false end.
Definition turn (l : lid) (d : data) (next : M unit) : M unit :=
  c <- get_list l;;
  match cbs c with
  | None => ret tt
  | Some fs =>
      if firingIndex c <? firingLength c then
        match (if firingIndex c <? 0 then None else fs !! Z.to_nat (firingIndex c)) with
        | None => throw
        | Some f =>
            record [Called l f d];;;
            r <- apply f d.1 d.2;;
            c <- get_list l;;
            if is_false r && stopOnFalse (opts c) then put_list l (set_memory None c)
            else put_list l (set_firingIndex (firingIndex c + 1) c);;; next
        end
      else ret tt
  end.

(** ** Deferreds *)

Definition settled_name (i : nat) : jstr := if (i =? 0)%nat then u "resolved" else u "rejected".
Definition own_callbacks (d i : nat) : list cb :=
  [SetState d (settled_name i); DisableList (S d, (1 - i)%nat); LockList (S d, 2%nat)].
Definition new_deferred : M nat :=
  d <- get (fun w => length (states w));;
  modify (fun w => World (lists w) (states w ++ [u "pending"]) (whens w) (next_list w) (more w) (trace w));;;
  put_list (S d, 0%nat) (Callbacks (createOptions (u "once memory")));;;
  put_list (S d, 1%nat) (Callbacks (createOptions (u "once memory")));;;
  put_list (S d, 2%nat) (Callbacks (createOptions (u "memory")));;;
  add_to (S d, 0%nat) (own_callbacks d 0);;;
  add_to (S d, 1%nat) (own_callbacks d 1);;;
  ret d.

(** The deferred of a value that has a method [promise]. *)
Definition deferred_of (v : value) : option nat :=
  match v with DeferredRef d | PromiseRef d | ObjectPromise d _ => Some d | _ => None end.
(** [done(f0).fail(f1).progress(f2)] *)
Definition listen3 (d : nat) (f0 f1 f2 : cb) : M unit :=
  add_to (S d, 0%nat) [f0];;; add_to (S d, 1%nat) [f1];;; add_to (S d, 2%nat) [f2].

(** ** [when] *)

Definition the_when (w : nat) : M whenrec :=
  o <- get (fun s => whens s !! w);; match o with Some r => ret r | None => throw end.
Definition put_when (w : nat) (r : whenrec) : M unit :=
  modify (fun s => World (lists s) (states s) (<[w := r]> (whens s)) (next_list s) (more s) (trace s)).
(** The function that [updateFunc] makes. *)
Definition update (w i : nat) (progress : bool) (context : value) (args : list value) : M unit :=
  r <- the_when w;;
  let v := match args with [] => undef | [v] => v | _ => Arr args end in
  if progress then
    let r := When (master r) (remaining r) (resolveContexts r) (resolveValues r)
               (<[i := context]> (progressContexts r)) (<[i := v]> (progressValues r)) in
    put_when w r;;;
    fireWith (S (master r), 2%nat) (Contexts w true) (progressValues r)
  else
    let r := When (master r) (remaining r - 1) (<[i := context]> (resolveContexts r)) (<[i := v]> (resolveValues r))
               (progressContexts r) (progressValues r) in
    put_when w r;;;
    if remaining r =? 0 then fireWith (S (master r), 0%nat) (Contexts w false) (resolveValues r) else ret tt.

Fixpoint subscribe (w i : nat) (l : list value) : M unit :=
  match l with
  | [] => ret tt
  | v :: l =>
      r <- the_when w;;
      match deferred_of v with
      | Some d => listen3 d (Update w i false) (Fn (Action (master r) 1)) (Update w i true)
      | None => put_when w (When (master r) (remaining r - 1) (resolveContexts r) (resolveValues r)
                              (progressContexts r) (progressValues r))
      end;;;
      subscribe w (S i) l
  end.
Definition when_all (l : list value) : M value :=
  let n := length l in
  match (match l with [v] => deferred_of v | _ => None end) with
  | Some d => ret (PromiseRef d)
  | None =>
      m <- new_deferred;;
      w <- get (fun s => length (whens s));;
      modify (fun s => World (lists s) (states s)
        (whens s ++ [When m (if (n =? 1)%nat then 0 else Z.of_nat n) (replicate n undef) l (replicate n undef) (replicate n undef)])
        (next_list s) (more s) (trace s));;;
      (if (1 <? n)%nat then subscribe w 0 l else ret tt);;;
      r <- the_when w;;
      (if remaining r =? 0
       then fireWith (S m, 0%nat) (if (1 <? n)%nat then Contexts w false else undef) (resolveValues r)
       else ret tt);;;
      ret (PromiseRef m)
  end.

(** ** Operations *)

Context `{!LibraryCode L} (bound : nat).
Definition done_value {A} (v : value) (m : M A) : M value := m;;; ret v.
Definition exec (o : op) : M value :=
  match o with
  | NewCallbacks o =>
      n <- get next_list;;
      put_list (0%nat, n) (Callbacks o);;;
      modify (fun w => World (lists w) (states w) (whens w) (S n) (more w) (trace w));;;
      ret (CallbacksRef n)
  | Add n args => done_value (CallbacksRef n) (add_to (0%nat, n) (flat_map functions args))
  | Remove n fs => done_value (CallbacksRef n) (update_list (0%nat, n) (remove (map Fn fs)))
  | Has n f => c <- get_list (0%nat, n);; ret (Prim (PBool (has c (option_map Fn f))))
  | EmptyList n => done_value (CallbacksRef n) (update_list (0%nat, n) empty_list)
  | Disable n => done_value (CallbacksRef n) (update_list (0%nat, n) disable)
  | Disabled n => c <- get_list (0%nat, n);; ret (Prim (PBool (match cbs c with None => true | _ => false end)))
  | Lock n => done_value (CallbacksRef n) (update_list (0%nat, n) lock)
  | Locked n => c <- get_list (0%nat, n);; ret (Prim (PBool (match stack c with None => true | _ => false end)))
  | FireWith n context args => done_value (CallbacksRef n) (fireWith (0%nat, n) context args)
  | Fired n => c <- get_list (0%nat, n);; ret (Prim (PBool (fired c)))
  | NewDeferred f =>
      d <- new_deferred;;
      match f with
      | Some f => apply (Fn f) (DeferredRef d) [DeferredRef d];;; ret (DeferredRef d)
      | None => ret (DeferredRef d)
      end
  | Listen d i args => done_value (PromiseRef d) (add_to (S d, i) (flat_map functions args))
  | Always d args =>
      done_value (PromiseRef d)
        (add_to (S d, 0%nat) (flat_map functions args);;; add_to (S d, 1%nat) (flat_map functions args))
  | Act d i args => done_value (DeferredRef d) (fireWith (S d, i) (PromiseRef d) args)
  | ActWith d i context args => done_value (DeferredRef d) (fireWith (S d, i) context args)
  | Then d fns =>
      let fn i := default None (fns !! i) in
      nd <- new_deferred;;
      listen3 d (Forward d nd 0 (fn 0%nat)) (Forward d nd 1 (fn 1%nat)) (Forward d nd 2 (fn 2%nat));;;
      ret (PromiseRef nd)
  | State d => s <- get (fun w => default [] (states w !! d));; ret (Prim (PStr s))
  | WhenAll l => when_all l
  | Ext e => lib_exec bound apply fire e
  end.
Fixpoint run (p : prog) : M value :=
  match p with
  | Return v => ret v
  | Throw => throw
  | Do o k => v <- exec o;; run (k v)
  end.

(** The body of a callback. *)
Context (body : nat -> value -> list value -> prog).
Definition forward (d nd i : nat) (fn : option func) (context : value) (args : list value) : M unit :=
  returned <- (match fn with Some f => apply (Fn f) context args | None => ret undef end);;
  match fn, deferred_of returned with
  | Some _, Some r => listen3 r (Fn (Action nd 0)) (Fn (Action nd 1)) (Fn (Action nd 2))
  | _, _ =>
      let context := match context with PromiseRef e => if (e =? d)%nat then PromiseRef nd else context | _ => context end in
      fireWith (S nd, i) context (match fn with Some _ => [returned] | None => args end)
  end.
Definition call_body (f : cb) (context : value) (args : list value) : M value :=
  let context := this_of context in
  match f with
  | Fn (User f) => run (body f context args)
  | Fn (Action d i) =>
      done_value context (fireWith (S d, i)
        (match context with DeferredRef e => if (e =? d)%nat then PromiseRef d else context | _ => context end) args)
  | Fn (FireOf n) => done_value context (fireWith (0%nat, n) context args)
  | SetState d s =>
      done_value undef (modify (fun w => World (lists w) (<[d := s]> (states w)) (whens w) (next_list w) (more w) (trace w)))
  | DisableList l => done_value undef (update_list l disable)
  | LockList l => done_value undef (update_list l lock)
  | Forward d nd i fn => done_value undef (forward d nd i fn context args)
  | Update w i progress => done_value undef (update w i progress context args)
  | Lib c => lib_call bound apply fire c context args
  end.
End Open.

(** ** Execution *)

Section Execution.
Context {L : Library} `{!LibraryCode L}.

Inductive request :=
  | Call (f : cb) (context : value) (args : list value)
  | Fire (l : lid) (d : data)
  | Loop (l : lid) (d : data).
Fixpoint eval (body : nat -> value -> list value -> prog) (fuel : nat) (r : request) : M value :=
  match fuel with
  | O => fun _ => None
  | S fuel =>
      let apply f context args := eval body fuel (Call f context args) in
      let fire l d := eval body fuel (Fire l d);;; ret tt in
      match r with
      | Call f context args => call_body apply fire fuel body f context args
      | Fire l d => done_value undef (start_firing l d;;; eval body fuel (Loop l d);;; finish fire l)
      | Loop l d => done_value undef (turn apply l d (eval body fuel (Loop l d);;; ret tt))
      end
  end.
(** A handler or a script of the page. *)
Definition execute (body : nat -> value -> list value -> prog) (fuel : nat) (p : prog) : M value :=
  run (fun f context args => eval body fuel (Call f context args)) (fun l d => eval body fuel (Fire l d);;; ret tt) fuel p.
End Execution.

(** ** A page without libraries *)

Definition no_library : Library := {| lib_state := unit; lib_op := Empty_set; lib_init := tt |}.
Definition no_code : LibraryCode no_library :=
  @Build_LibraryCode no_library (fun _ _ _ (e : Empty_set) => match e with end) (fun _ _ _ _ _ _ => ret undef).

(** The calls of functions that a page named. *)
Definition calls {L : Library} (w : world) : list (cb * list value) :=
  omap (fun e => match e with Called _ (Fn f) d => Some (Fn f, d.2) | _ => None end) (trace w).

(** ** Examples *)

Section Examples.
Local Existing Instance no_library.
Local Existing Instance no_code.

(** A function that does nothing. *)
Definition quiet_body (f : nat) (context : value) (args : list value) : prog := Return undef.
Definition js_num (z : Z) : value := Prim (PNum (of_Z z)).
Definition outcome_of (r : option (world * result value)) :=
  match r with Some (w, r) => Some (calls w, states w, r) | None => None end.

(** Callbacks before and after the resolution; a second one does nothing. *)
Example deferred_ex :
  outcome_of (execute quiet_body 30
    (Do (NewDeferred None) (fun _ => Do (Listen 0 0 [AFun (User 1)]) (fun _ => Do (Listen 0 1 [AFun (User 2)]) (fun _ =>
     Do (Act 0 0 [js_num 5]) (fun _ => Do (Act 0 1 [js_num 6]) (fun _ => Do (Always 0 [AFun (User 3)]) (fun _ =>
     Do (State 0) Return))))))) world0)
  = Some ([(Fn (User 1), [js_num 5]); (Fn (User 3), [js_num 5])], [u "resolved"], Ok (Prim (PStr (u "resolved")))).
Proof. vm_compute. reflexivity. Qed.

(** The results of two deferreds, in the order of the arguments. *)
Example when_ex :
  outcome_of (execute quiet_body 30
    (Do (NewDeferred None) (fun _ => Do (NewDeferred None) (fun _ =>
     Do (WhenAll [PromiseRef 0; js_num 7; DeferredRef 1]) (fun m => Do (Listen 2 0 [AFun (User 1)]) (fun _ =>
     Do (Act 1 0 [js_num 2; js_num 3]) (fun _ => Do (Act 0 0 []) (fun _ => Return m))))))) world0)
  = Some ([(Fn (User 1), [undef; js_num 7; Arr [js_num 2; js_num 3]])], [u "resolved"; u "resolved"; u "resolved"], Ok (PromiseRef 2)).
Proof. vm_compute. reflexivity. Qed.
End Examples.
