(* ===== verification/DeferredFacts.v ===== *)
(** * Deferreds: the invariant of a page, whatever its functions do

    [Inv] describes the done and the fail list of every deferred. The lemmas say of each
    operation that it keeps the invariant and moves the deferreds only forward ([le]). *)

From Stdlib Require Import ZArith Lia.
From stdpp Require Import base tactics list numbers strings gmap.
From S2P Require Import Prelude JsValue ValidPage ValidRules Deferred.
Local Open Scope Z_scope.
Local Open Scope deferred_scope.

(** ** What the trace says about a list *)

Definition added_event (l : lid) (e : tevent) : option cb :=
  match e with Added l' f => if decide (l' = l) then Some f else None | _ => None end.
Definition called_event (l : lid) (e : tevent) : option (cb * data) :=
  match e with Called l' f d => if decide (l' = l) then Some (f, d) else None | _ => None end.
(** Who is to blame for a list that stays as if it were being fired, by what was called
    from it: what that is, is said where executions are known ([DeferredFire]). *)
Class Blames := blamed : lid -> list (cb * data) -> Prop.

Section Facts.
Context {L : Library}.

Definition added (l : lid) (w : world) : list cb := omap (added_event l) (trace w).
Definition called (l : lid) (w : world) : list (cb * data) := omap (called_event l) (trace w).

(** The done and the fail lists. *)
Definition settling (l : lid) : bool := match l with (S _, i) => (i <? 2)%nat | _ => false end.
Definition plain (f : cb) : bool := match f with Fn _ | Forward _ _ _ _ | Update _ _ _ | Lib _ => true | _ => false end.

(** ** The two lists of a deferred *)

Definition once_memory : flags := Flags true true false false.
Lemma once_memory_eq : createOptions (u "once memory") = once_memory.
Proof. vm_compute. reflexivity. Qed.

Definition fresh (w : world) (d i : nat) (c : clist) : Prop :=
  opts c = once_memory /\ firing c = false /\ memory c = None /\ fired c = false /\ firingStart c = 0 /\ stack c = None /\
  called (S d, i) w = [] /\
  exists us, cbs c = Some (own_callbacks d i ++ us) /\ Forall (fun f => plain f = true) us /\
    added (S d, i) w = own_callbacks d i ++ us.
Definition dead (w : world) (d i : nat) (c : clist) : Prop :=
  cbs c = None /\ stack c = None /\ memory c = None /\ firing c = false /\ called (S d, i) w = [].

(** A list that has been fired with [D]. *)
Definition lit (w : world) (d i : nat) (D : data) (c : clist) : Prop :=
  opts c = once_memory /\ fired c = true /\ stack c = None /\ memory c = Some D /\ firingStart c = 0 /\
  Forall (fun p => p.2 = D) (called (S d, i) w).
(** It is being fired: [n] callbacks of [l] have been called. *)
Definition burning (w : world) (d i : nat) (l : list cb) (n : nat) (c : clist) : Prop :=
  firing c = true /\ cbs c = Some l /\ firingLength c = Z.of_nat (length l) /\ (n <= length l)%nat /\
  Forall (fun f => plain f = true) (drop n l) /\
  exists old, added (S d, i) w = old ++ l /\ map fst (called (S d, i) w) = old ++ take n l.
(** It has been fired to the end, but for the new callbacks [us]. *)
Definition waiting (w : world) (d i : nat) (us : list cb) (c : clist) : Prop :=
  firing c = false /\ cbs c = Some us /\ Forall (fun f => plain f = true) us /\
  added (S d, i) w = map fst (called (S d, i) w) ++ us.

Definition hot (w : world) (d i : nat) (D : data) (c : clist) : Prop :=
  lit w d i D c /\
  (waiting w d i [] c \/ exists l n, burning w d i l (S n) c /\ firingIndex c = Z.of_nat n).

(** ** The invariant *)

Definition other (i : nat) : nat := (1 - i)%nat.
Definition dlist (w : world) (d i : nat) : option clist := lists w !! (S d, i).
Definition is_pending (w : world) (d : nat) : Prop :=
  states w !! d = Some (u "pending") /\
  exists c0 c1, dlist w d 0 = Some c0 /\ dlist w d 1 = Some c1 /\ fresh w d 0 c0 /\ fresh w d 1 c1.
Definition is_settled (w : world) (d i : nat) (D : data) : Prop :=
  states w !! d = Some (settled_name i) /\
  exists c c', dlist w d i = Some c /\ dlist w d (other i) = Some c' /\ hot w d i D c /\ dead w d (other i) c'.
Definition dinv (w : world) (d : nat) : Prop :=
  is_pending w d \/ exists i D, (i < 2)%nat /\ is_settled w d i D.

(** Lists that are not done or fail lists hold no callback that settles a deferred; what
    does not exist yet has no history. *)
Definition base (w : world) : Prop :=
  (forall l c fs, settling l = false -> lists w !! l = Some c -> cbs c = Some fs -> Forall (fun f => plain f = true) fs) /\
  (forall d i, (length (states w) <= d)%nat ->
     lists w !! (S d, i) = None /\ added (S d, i) w = [] /\ called (S d, i) w = []).
Definition others (w : world) (d : nat) : Prop := forall e, (e < length (states w))%nat -> e <> d -> dinv w e.
Record Inv (w : world) : Prop := { inv_base : base w; inv_all : forall d, (d < length (states w))%nat -> dinv w d }.

(** ** Progress *)

Definition settled_view (w : world) (d i : nat) (D : data) : Prop :=
  states w !! d = Some (settled_name i) /\ exists c, dlist w d i = Some c /\ memory c = Some D /\ fired c = true.
(** A firing under way stays where it is: new callbacks only come last. *)
Definition firing_at (w : world) (d i : nat) (c : clist) : Prop := dlist w d i = Some c /\ firing c = true.
Definition stays (w w' : world) (d : nat) : Prop :=
  forall i c, (i < 2)%nat -> firing_at w d i c ->
    exists c', firing_at w' d i c' /\ firingIndex c' = firingIndex c /\ called (S d, i) w' = called (S d, i) w.
Context {T : Blames}.
(** A firing that was not under way before and still is has been stopped by somebody. *)
Definition stopped (w w' : world) (d : nat) : Prop :=
  forall i c, (i < 2)%nat -> firing_at w' d i c -> (exists c0, firing_at w d i c0) \/ blamed (S d, i) (called (S d, i) w').
Definition le1 (w w' : world) (d : nat) : Prop :=
  (forall i D, (i < 2)%nat -> settled_view w d i D -> settled_view w' d i D) /\ stays w w' d /\ stopped w w' d.
Lemma le1_trans w1 w2 w3 d : le1 w1 w2 d -> le1 w2 w3 d -> le1 w1 w3 d.
Proof.
  intros (S1 & F1 & B1) (S2 & F2 & B2). split; [eauto|]. split.
  - intros i c Hi Hc. destruct (F1 i c Hi Hc) as (c2 & Hc2 & E2 & C2).
    destruct (F2 i c2 Hi Hc2) as (c3 & Hc3 & E3 & C3). exists c3. split; [done|]. split; congruence.
  - intros i c Hi Hc. destruct (B2 i c Hi Hc) as [[c2 Hc2]|]; [|by right]. destruct (B1 i c2 Hi Hc2) as [|H]; [by left|]. right.
    destruct (F2 i c2 Hi Hc2) as (_ & _ & _ & ->). exact H.
Qed.
(** Where the two lists are as they were. *)
Lemma le1_same w w' d : (forall i D, (i < 2)%nat -> settled_view w d i D -> settled_view w' d i D) ->
  (forall i, (i < 2)%nat -> dlist w' d i = dlist w d i /\ called (S d, i) w' = called (S d, i) w) -> le1 w w' d.
Proof.
  intros Hv H. split; [done|]. split; intros i c Hi [Hc Hf]; destruct (H i Hi) as [E C].
  - exists c. split; [|done]. split; [by rewrite E|done].
  - left. exists c. split; [by rewrite <- E|done].
Qed.
Definition le (w w' : world) : Prop :=
  (length (states w) <= length (states w'))%nat /\ forall d, le1 w w' d.

#[export] Instance le_preorder : PreOrder le.
Proof.
  split.
  - intros w. split; [done|]. intros d. by apply le1_same.
  - intros w1 w2 w3 [L1 H1] [L2 H2]. split; [lia|]. intros d. by apply (le1_trans w1 w2).
Qed.

(** A computation that keeps the invariant. *)
Definition outcome_ok (w : world) (A : Type) (r : option (world * result A)) : Prop :=
  match r with Some (w', _) => Inv w' /\ le w w' | None => True end.
Definition safe {A} (m : M A) : Prop := forall w, Inv w -> outcome_ok w A (m w).

Lemma safe_ret {A} (a : A) : safe (ret a).
Proof. intros w H. by split. Qed.
Lemma safe_throw {A} : safe (throw (A := A)).
Proof. intros w H. by split. Qed.
Lemma safe_get {A} (g : world -> A) : safe (get g).
Proof. intros w H. by split. Qed.
Lemma safe_bind {A B} (m : M A) (k : A -> M B) : safe m -> (forall a, safe (k a)) -> safe (bind m k).
Proof.
  intros Hm Hk w Hw. specialize (Hm w Hw). unfold bind. destruct (m w) as [[w1 [a|]]|]; [|done..].
  destruct Hm as [Hw1 Hle]. specialize (Hk a w1 Hw1). destruct (k a w1) as [[w2 r]|]; [|done].
  destruct Hk as [Hw2 Hle2]. split; [done|]. by transitivity w1.
Qed.
Lemma safe_done {A} v (m : M A) : safe m -> safe (done_value v m).
Proof. intros H. apply safe_bind; [done|]. intros _. apply safe_ret. Qed.

(** ** Changes that the done and fail lists do not see *)

Definition same_settling (w w' : world) : Prop :=
  states w' = states w /\
  forall l, settling l = true -> lists w' !! l = lists w !! l /\ added l w' = added l w /\ called l w' = called l w.

Lemma settling_S d i : (i < 2)%nat -> settling (S d, i) = true.
Proof. intros H. by apply Nat.ltb_lt. Qed.
Lemma settling_lt d i : settling (S d, i) = true -> (i < 2)%nat.
Proof. apply Nat.ltb_lt. Qed.
Lemma settling_ge d i : settling (S d, i) = false -> (2 <= i)%nat.
Proof. apply Nat.ltb_ge. Qed.
Lemma other_lt i : (other i < 2)%nat.
Proof. unfold other. lia. Qed.

Lemma dinv_ext w w' d : states w' !! d = states w !! d ->
  (forall i, (i < 2)%nat -> dlist w' d i = dlist w d i /\ added (S d, i) w' = added (S d, i) w /\ called (S d, i) w' = called (S d, i) w) ->
  dinv w d -> dinv w' d.
Proof.
  intros Hs H. pose proof (H 0%nat ltac:(lia)) as (L0 & A0 & C0). pose proof (H 1%nat ltac:(lia)) as (L1 & A1 & C1).
  intros [(Hp & c0 & c1 & H0 & H1 & F0 & F1)|(i & D & Hi & Hst & c & c' & Hc & Hc' & Hh & Hd)].
  - left. split; [by rewrite Hs|]. exists c0, c1. rewrite L0, L1. unfold fresh in *. by rewrite A0, A1, C0, C1.
  - right. exists i, D. split; [done|]. split; [by rewrite Hs|]. exists c, c'.
    destruct (H i Hi) as (Li & Ai & Ci), (H (other i) (other_lt i)) as (Lo & Ao & Co). rewrite Li, Lo.
    unfold hot, lit, waiting, burning, dead in *. by rewrite Ai, Ci, Co.
Qed.

Lemma same_settling_frame w w' : same_settling w w' -> base w' -> Inv w -> Inv w' /\ le w w'.
Proof.
  intros [Hs Hl] Hb [_ Hi]. split.
  - constructor; [done|]. rewrite Hs. intros d Hd. apply (dinv_ext w); [by rewrite Hs| |auto].
    intros i Hlt. by apply Hl, settling_S.
  - split; [by rewrite Hs|]. intros d. apply le1_same.
    + intros i D Hlt. unfold settled_view, dlist. rewrite Hs. by destruct (Hl (S d, i) (settling_S d i Hlt)) as (-> & _).
    + intros i Hlt. by destruct (Hl (S d, i) (settling_S d i Hlt)) as (E & _ & C).
Qed.

(** A list that no deferred has for its results, where it exists. *)
Definition plain_list (l : lid) (w : world) : Prop := settling l = false /\ (l.1 <= length (states w))%nat.
Definition holds_plain (c : clist) : Prop := forall fs, cbs c = Some fs -> Forall (fun f => plain f = true) fs.
Definition with_list (l : lid) (c : clist) (w : world) : world :=
  World (<[l := c]> (lists w)) (states w) (whens w) (next_list w) (more w) (trace w).
Definition with_trace (es : list tevent) (w : world) : world :=
  World (lists w) (states w) (whens w) (next_list w) (more w) (trace w ++ es).
Definition event_list (e : tevent) : lid := match e with Added l _ => l | Called l _ _ => l end.

Lemma plain_list_exists l w d i : plain_list l w -> l = (S d, i) -> (d < length (states w))%nat.
Proof. intros [_ H] ->. cbn in H. lia. Qed.
Lemma existing_plain l w c : base w -> settling l = false -> lists w !! l = Some c -> plain_list l w.
Proof.
  intros [_ Hb] Hs Hl. split; [done|]. destruct l as [[|d] i]; [cbn; lia|]. cbn.
  destruct (decide (S d <= length (states w))%nat) as [|Hn]; [done|]. destruct (Hb d i ltac:(lia)) as [H _]. congruence.
Qed.
Lemma plain_list_le l w w' : plain_list l w -> le w w' -> plain_list l w'.
Proof. intros [Hs Hl] [H _]. split; [done|lia]. Qed.
Lemma put_plain l c w : plain_list l w -> holds_plain c -> Inv w -> Inv (with_list l c w) /\ le w (with_list l c w).
Proof.
  intros Hl Hc Hw. pose proof (inv_base _ Hw) as Hb. apply same_settling_frame; [|split|done].
  - split; [done|]. intros l' Hl'. split; [|done]. apply lookup_insert_ne. intros <-. destruct Hl. congruence.
  - intros l' c' fs Hl' Hc' Hfs. cbn in Hc'. destruct (decide (l = l')) as [->|Hn].
    + rewrite lookup_insert_eq in Hc'. injection Hc' as <-. by apply Hc.
    + rewrite lookup_insert_ne in Hc' by done. by apply (proj1 Hb) with (l := l') (c := c').
  - intros d i Hd. cbn in *. destruct (proj2 Hb d i Hd) as (H1 & H2). split; [|done].
    rewrite lookup_insert_ne; [done|]. intros ->. pose proof (plain_list_exists _ _ d i Hl eq_refl). lia.
Qed.
Lemma added_trace l es w : added l (with_trace es w) = added l w ++ omap (added_event l) es.
Proof. apply omap_app. Qed.
Lemma called_trace l es w : called l (with_trace es w) = called l w ++ omap (called_event l) es.
Proof. apply omap_app. Qed.
Lemma events_other l l' es : Forall (fun e => event_list e = l) es -> l <> l' ->
  omap (added_event l') es = [] /\ omap (called_event l') es = [].
Proof.
  intros H Hn. induction H as [|e es He _ [IH1 IH2]]; [done|]. cbn.
  destruct e; cbn in He; subst; cbn; rewrite !decide_False by done; auto.
Qed.
Lemma trace_plain l es w : plain_list l w -> Forall (fun e => event_list e = l) es -> Inv w ->
  Inv (with_trace es w) /\ le w (with_trace es w).
Proof.
  intros Hl Hes Hw. pose proof (inv_base _ Hw) as Hb.
  assert (Hsame : forall l', l <> l' -> added l' (with_trace es w) = added l' w /\ called l' (with_trace es w) = called l' w).
  { intros l' Hn. rewrite added_trace, called_trace. destruct (events_other l l' es Hes Hn) as [-> ->]. by rewrite !app_nil_r. }
  apply same_settling_frame; [|split|done].
  - split; [done|]. intros l' Hl'. split; [done|]. apply Hsame. intros <-. destruct Hl. congruence.
  - apply Hb.
  - intros d i Hd. destruct (proj2 Hb d i Hd) as (H1 & H2 & H3). split; [done|]. rewrite <- H2, <- H3. apply Hsame.
    intros ->. pose proof (plain_list_exists _ _ d i Hl eq_refl). cbn in Hd. lia.
Qed.

(** ** Changes of one list of a deferred *)

Definition touches (d i : nat) (w w' : world) : Prop :=
  states w' = states w /\
  forall l, l <> (S d, i) -> lists w' !! l = lists w !! l /\ added l w' = added l w /\ called l w' = called l w.
Lemma touches_with d i c es w : Forall (fun e => event_list e = (S d, i)) es ->
  touches d i w (with_list (S d, i) c (with_trace es w)).
Proof.
  intros Hes. split; [done|]. intros l Hl. split; [by apply lookup_insert_ne|].
  change (added l (with_list (S d, i) c (with_trace es w))) with (added l (with_trace es w)).
  change (called l (with_list (S d, i) c (with_trace es w))) with (called l (with_trace es w)).
  rewrite added_trace, called_trace. destruct (events_other (S d, i) l es Hes ltac:(congruence)) as [-> ->].
  by rewrite !app_nil_r.
Qed.
Lemma touches_trans d i w1 w2 w3 : touches d i w1 w2 -> touches d i w2 w3 -> touches d i w1 w3.
Proof.
  intros [S1 H1] [S2 H2]. split; [congruence|]. intros l Hl.
  destruct (H1 l Hl) as (? & ? & ?), (H2 l Hl) as (? & ? & ?). repeat split; congruence.
Qed.

Section Touch.
Context {d i : nat} {w w' : world} (Hi : (i < 2)%nat) (Hd : (d < length (states w))%nat) (T0 : touches d i w w').

Lemma touches_base : base w -> base w'.
Proof.
  destruct T0 as [Hs H]. intros [H1 H2]. split.
  - intros l c fs Hl. destruct (H l) as [-> _]; [intros ->; by rewrite settling_S in Hl|]. by apply H1.
  - intros e j He. rewrite Hs in He. destruct (H (S e, j)) as (-> & -> & ->); [intros [= -> ->]; lia|]. by apply H2.
Qed.
Lemma touches_dinv e : e <> d -> dinv w e -> dinv w' e.
Proof.
  destruct T0 as [Hs H]. intros He. apply dinv_ext; [by rewrite Hs|]. intros j _. apply H. congruence.
Qed.
Lemma touches_others : others w d -> others w' d.
Proof.
  intros H e He Hn. apply touches_dinv; [done|]. apply H; [|done]. by rewrite (proj1 T0) in He.
Qed.
Lemma touches_le1 e : e <> d -> le1 w w' e.
Proof.
  destruct T0 as [Hs H]. intros He. apply le1_same.
  - intros j D Hj. unfold settled_view, dlist. rewrite Hs. destruct (H (S e, j)) as [-> _]; [congruence|done].
  - intros j Hj. by destruct (H (S e, j)) as (E & _ & C); [congruence|].
Qed.
Lemma touches_other_list : dlist w' d (other i) = dlist w d (other i) /\
  added (S d, other i) w' = added (S d, other i) w /\ called (S d, other i) w' = called (S d, other i) w.
Proof. destruct T0 as [_ H]. apply H. unfold other. intros [= ?]. lia. Qed.
Lemma touches_inv : Inv w -> dinv w' d -> Inv w'.
Proof.
  intros [Hb Ha] H. constructor; [by apply touches_base|]. intros e He. rewrite (proj1 T0) in He.
  destruct (decide (e = d)) as [->|Hn]; [done|]. apply touches_dinv; auto.
Qed.
Lemma touches_le : le1 w w' d -> le w w'.
Proof.
  intros H. split; [by rewrite (proj1 T0)|]. intros e. destruct (decide (e = d)) as [->|Hn]; [done|]. by apply touches_le1.
Qed.
End Touch.

(** ** Firing a done or a fail list *)

Definition is_lit (w : world) (d i : nat) (D : data) (us : list cb) : Prop :=
  states w !! d = Some (settled_name i) /\
  exists c c', dlist w d i = Some c /\ dlist w d (other i) = Some c' /\ lit w d i D c /\ waiting w d i us c /\ dead w d (other i) c'.
Definition ready (w : world) (d i : nat) (D : data) : Prop := is_pending w d \/ exists us, is_lit w d i D us.
Definition lights (w w' : world) (d i : nat) (D : data) : Prop :=
  Inv w' /\ (length (states w) <= length (states w'))%nat /\ (forall e, e <> d -> le1 w w' e) /\ settled_view w' d i D /\
  forall j c, (j < 2)%nat -> firing_at w' d j c -> blamed (S d, j) (called (S d, j) w').
Definition fire_ok (fire : lid -> data -> M unit) : Prop := forall d i D w,
  (i < 2)%nat -> (d < length (states w))%nat -> base w -> others w d -> ready w d i D ->
  match fire (S d, i) D w with Some (w', _) => lights w w' d i D | None => True end.

Lemma settled_name_inj i j : (i < 2)%nat -> (j < 2)%nat -> settled_name i = settled_name j -> i = j.
Proof. intros Hi Hj. destruct i as [|[|]], j as [|[|]]; try lia; done. Qed.
Lemma pending_not_settled i : u "pending" <> settled_name i.
Proof. unfold settled_name. by destruct (i =? 0)%nat. Qed.

(** The deferred was pending, or already settled with [D], and not being fired. *)
Lemma lights_le w w1 w' d i D : (i < 2)%nat -> touches d i w w1 -> lights w1 w' d i D ->
  (is_pending w d \/ is_lit w d i D []) -> le w w'.
Proof.
  intros Hi T0 (_ & Hl & He & Hv & Hb) Hw. split; [rewrite <- (proj1 T0); exact Hl|]. intros e.
  destruct (decide (e = d)) as [->|Hn]; [|by apply (le1_trans w w1); [apply (touches_le1 T0)|apply He]].
  assert (Hhalt : stopped w w' d) by (intros j c Hj Hc; right; by apply (Hb j c)).
  destruct Hw as [(Hp & c0 & c1 & H0 & H1 & F0 & F1)|(Hs & c & c' & Hc & Hc' & HL & HW & HD)]; (split; [|split; [|exact Hhalt]]).
  - intros j D' Hj (Hst & _). rewrite Hp in Hst. injection Hst as Hst. by destruct (pending_not_settled j).
  - intros j c Hj [Hc Hf]. destruct F0 as (_ & F0 & _), F1 as (_ & F1 & _).
    destruct j as [|[|j]]; [congruence..|lia].
  - intros j D' Hj (Hst & c2 & Hc2 & Hm & _). rewrite Hs in Hst. injection Hst as Hst.
    apply settled_name_inj in Hst as <-; [|done..]. rewrite Hc in Hc2. injection Hc2 as <-.
    destruct HL as (_ & _ & _ & HL & _). rewrite HL in Hm. by injection Hm as <-.
  - intros j c2 Hj [Hc2 Hf]. destruct HW as (HW & _). destruct HD as (_ & _ & _ & HD & _).
    destruct (decide (j = i)) as [->|Hji]; [congruence|]. assert (j = other i) as -> by (unfold other; lia). congruence.
Qed.
Lemma settled_lit w d i D : is_settled w d i D ->
  is_lit w d i D [] \/ exists c l n, dlist w d i = Some c /\ lit w d i D c /\ burning w d i l (S n) c /\ firingIndex c = Z.of_nat n.
Proof.
  intros (Hs & c & c' & Hc & Hc' & [HL [HW|(l & n & HB & HI)]] & HD); [left|right; exists c, l, n; auto].
  split; [done|]. exists c, c'. auto.
Qed.

(** ** Steps of the monad *)

Lemma bind_get_list {A} l (k : clist -> M A) w c : lists w !! l = Some c -> bind (get_list l) k w = k c w.
Proof. intros E. unfold bind, get_list, get. by rewrite E. Qed.
Lemma bind_no_list {A} l (k : clist -> M A) w : lists w !! l = None -> bind (get_list l) k w = k no_list w.
Proof. intros E. unfold bind, get_list, get. by rewrite E. Qed.
Lemma bind_record {A} es (k : unit -> M A) w : bind (record es) k w = k tt (with_trace es w).
Proof. done. Qed.
Lemma bind_put {A} l c (k : unit -> M A) w : bind (put_list l c) k w = k tt (with_list l c w).
Proof. done. Qed.
Lemma put_eq l c w : put_list l c w = Some (with_list l c w, Ok tt).
Proof. done. Qed.

(** ** Adding and firing, from outside *)

Lemma push_all_spec uniq l fs : exists us, push_all uniq l fs = l ++ us /\
  (forall P, Forall P fs -> Forall P us) /\ (uniq = false -> us = fs).
Proof.
  revert l. unfold push_all. induction fs as [|f fs IH]; intros l; [exists []; by rewrite app_nil_r|]. cbn [fold_left].
  destruct (uniq && bool_decide (f ∈ l)) eqn:E.
  - destruct (IH l) as (us & -> & HP & Hu). exists us. split; [done|]. split; [intros P HP'; inversion HP'; auto|].
    intros ->. done.
  - destruct (IH (l ++ [f])) as (us & -> & HP & Hu). exists (f :: us). rewrite <- app_assoc. split; [done|].
    split; [intros P HP'; inversion HP'; subst; constructor; auto|]. intros Hq. by rewrite Hu.
Qed.
Lemma added_all l fs w : added l (with_trace (map (Added l) fs) w) = added l w ++ fs /\
  called l (with_trace (map (Added l) fs) w) = called l w.
Proof.
  rewrite added_trace, called_trace.
  assert (H : omap (added_event l) (map (Added l) fs) = fs /\ omap (called_event l) (map (Added l) fs) = []).
  { induction fs as [|f fs [IH1 IH2]]; [done|]. cbn. by rewrite decide_True, IH1, IH2. }
  destruct H as [-> ->]. by rewrite app_nil_r.
Qed.
Lemma added_events l fs : Forall (fun e => event_list e = l) (map (Added l) fs).
Proof. apply Forall_map, Forall_true. done. Qed.

End Facts.

(** ** Libraries *)

(** What the code of a library promises: its operations keep the invariant as long as the
    calls and the firings it is given do. *)
Class SafeLibrary {L : Library} `{!LibraryCode L} := {
  lib_exec_safe (T : Blames) bound apply fire :
    (forall f context args, plain f = true -> safe (apply f context args)) ->
    (forall l D w, plain_list l w -> Inv w -> outcome_ok w unit (fire l D w)) -> fire_ok fire ->
    forall e, safe (lib_exec bound apply fire e);
  lib_call_safe (T : Blames) bound apply fire :
    (forall f context args, plain f = true -> safe (apply f context args)) ->
    (forall l D w, plain_list l w -> Inv w -> outcome_ok w unit (fire l D w)) -> fire_ok fire ->
    forall c context args, safe (lib_call bound apply fire c context args)
}.

Section Operations.
Context {L : Library} {T : Blames}.
Section Safe.
Context (apply : cb -> value -> list value -> M value) (fire : lid -> data -> M unit).
Context (Happly : forall f context args, plain f = true -> safe (apply f context args)).
Context (Hplain : forall l D w, plain_list l w -> Inv w -> outcome_ok w unit (fire l D w)).
Context (Hfire : fire_ok fire).

Lemma fire_plain l D w w1 : plain_list l w -> Inv w1 /\ le w w1 -> outcome_ok w unit (fire l D w1).
Proof.
  intros Hl [Hw Hle]. specialize (Hplain l D w1 (plain_list_le _ _ _ Hl Hle) Hw). unfold outcome_ok in *.
  destruct (fire l D w1) as [[w2 r]|]; [|done]. destruct Hplain as [H1 H2]. split; [done|]. by transitivity w1.
Qed.

Lemma add_plain l fs : settling l = false -> Forall (fun f => plain f = true) fs -> safe (add_to fire l fs).
Proof.
  intros Hs Hfs w Hw. unfold add_to.
  destruct (lists w !! l) as [c|] eqn:El; [rewrite (bind_get_list _ _ _ _ El)|rewrite bind_no_list by done; by split].
  destruct (cbs c) as [old|] eqn:Ec; [|by split].
  destruct (push_all_spec (unique (opts c)) old fs) as (us & -> & HP & _). rewrite drop_app_length.
  set (w1 := with_trace (map (Added l) us) w).
  pose proof (existing_plain l w c (inv_base _ Hw) Hs El) as Hpl.
  destruct (trace_plain l (map (Added l) us) w Hpl (added_events l us) Hw) as [Hw1 Hle1]. fold w1 in Hw1, Hle1.
  assert (Hpl1 : plain_list l w1) by exact Hpl.
  assert (Hput : forall c', cbs c' = Some (old ++ us) -> Inv (with_list l c' w1) /\ le w (with_list l c' w1)).
  { intros c' Hc'. destruct (put_plain l c' w1 Hpl1) as [H1 H2]; [|done|].
    - intros fs' Hfs'. rewrite Hc' in Hfs'. injection Hfs' as <-. apply Forall_app. split; [|by apply HP].
      exact (proj1 (inv_base _ Hw) l c old Hs El Ec).
    - split; [done|]. by transitivity w1. }
  rewrite bind_record. fold w1. cbv zeta. change (firing (set_cbs _ c)) with (firing c).
  change (memory (set_cbs _ c)) with (memory c).
  destruct (firing c) eqn:Ef; [by apply Hput|]. destruct (memory c) as [m|] eqn:Em; [|by apply Hput].
  rewrite bind_put. apply (fire_plain l m w); [done|by apply Hput].
Qed.

(** The list [(S d, i)] after a change of it and of its trace. *)
Lemma dlist_with d i c w : dlist (with_list (S d, i) c w) d i = Some c.
Proof. apply lookup_insert_eq. Qed.

Lemma nonexisting_settling d i w c : Inv w -> lists w !! (S d, i) = Some c -> (d < length (states w))%nat.
Proof.
  intros Hw E. destruct (decide (d < length (states w))%nat) as [|Hn]; [done|].
  destruct (proj2 (inv_base _ Hw) d i ltac:(lia)) as [E' _]. congruence.
Qed.

Lemma lights_safe w w1 d i D : Inv w -> (i < 2)%nat -> (d < length (states w))%nat -> touches d i w w1 ->
  ready w1 d i D -> (is_pending w d \/ is_lit w d i D []) -> outcome_ok w unit (fire (S d, i) D w1).
Proof.
  intros Hw Hi Hd T0 Hr Hp. assert (Hs : states w1 = states w) by apply T0.
  pose proof (Hfire d i D w1 Hi ltac:(by rewrite Hs) (touches_base Hi Hd T0 (inv_base _ Hw))) as H.
  assert (Ho : others w1 d) by (apply (touches_others T0); intros e He _; by apply Hw).
  specialize (H Ho Hr). destruct (fire (S d, i) D w1) as [[w' r]|]; [|done].
  split; [apply H|]. by eapply lights_le.
Qed.

Lemma add_pending d i fs w c : Inv w -> (i < 2)%nat -> (d < length (states w))%nat ->
  Forall (fun f => plain f = true) fs -> is_pending w d -> lists w !! (S d, i) = Some c ->
  outcome_ok w unit (add_to fire (S d, i) fs w).
Proof.
  intros Hw Hi Hd Hfs (Hst & c0 & c1 & H0 & H1 & F0 & F1) Ec.
  assert (F : fresh w d i c) by (unfold dlist in *; destruct i as [|[|]]; [congruence..|lia]).
  assert (Fo : exists co, dlist w d (other i) = Some co /\ fresh w d (other i) co)
    by (destruct i as [|[|]]; [by exists c1|by exists c0|lia]).
  destruct F as (Hop & Hf & Hm & Hfd & Hfs' & Hsk & Hcl & us & Hcb & Hus & Had).
  unfold add_to. rewrite (bind_get_list _ _ _ _ Ec), Hcb, Hop.
  destruct (push_all_spec (unique once_memory) (own_callbacks d i ++ us) fs) as (new & -> & HP & Hn).
  rewrite Hn by done. rewrite drop_app_length, bind_record. cbv zeta.
  change (firing (set_cbs _ c)) with (firing c). change (memory (set_cbs _ c)) with (memory c). rewrite Hf, Hm, put_eq.
  set (c' := set_cbs _ c). pose proof (touches_with d i c' (map (Added (S d, i)) fs) w (added_events _ _)) as T0.
  set (w' := with_list _ _ _) in *. destruct (added_all (S d, i) fs w) as [HA HC].
  assert (F' : fresh w' d i c').
  { repeat (split; [assumption|]). split; [change (called (S d, i) w') with (called (S d, i) (with_trace (map (Added (S d, i)) fs) w)); by rewrite HC|].
    exists (us ++ fs). rewrite app_assoc. split; [done|]. split; [by apply Forall_app|].
    change (added (S d, i) w') with (added (S d, i) (with_trace (map (Added (S d, i)) fs) w)). by rewrite HA, Had. }
  assert (Hp' : is_pending w' d).
  { split; [by rewrite (proj1 T0)|]. destruct Fo as (co & Hco & Fo). destruct (touches_other_list Hi Hd T0) as (Lo & Ao & Co).
    assert (Fo' : fresh w' d (other i) co) by (unfold fresh; by rewrite Ao, Co).
    destruct i as [|[|]]; [exists c', co|exists co, c'|lia]; rewrite <- Lo in Hco;
      (split; [first [done|apply dlist_with]|split; [first [done|apply dlist_with]|done]]). }
  split; [apply (touches_inv Hi Hd T0); [done|by left]|]. apply (touches_le T0). split; [|split].
  - intros j D Hj (Hst' & _). rewrite Hst in Hst'. injection Hst' as Hst'. by destruct (pending_not_settled j).
  - intros j c2 Hj [Hc2 Hf2]. destruct F0 as (_ & F0 & _), F1 as (_ & F1 & _). destruct j as [|[|]]; [congruence..|lia].
  - intros j c2 Hj [Hc2 Hf2]. exfalso. destruct Hp' as (_ & d0 & d1 & D0 & D1 & (_ & G0 & _) & (_ & G1 & _)).
    destruct j as [|[|]]; [congruence..|lia].
Qed.

Lemma add_burning d i D fs w c l n : Inv w -> (i < 2)%nat -> (d < length (states w))%nat ->
  Forall (fun f => plain f = true) fs -> is_settled w d i D -> lists w !! (S d, i) = Some c ->
  lit w d i D c -> burning w d i l (S n) c -> firingIndex c = Z.of_nat n ->
  outcome_ok w unit (add_to fire (S d, i) fs w).
Proof.
  intros Hw Hi Hd Hfs (Hst & c2 & co & Hc2 & Hco & _ & Hdead) Ec HL HB HI. unfold dlist in Hc2. rewrite Ec in Hc2. injection Hc2 as <-.
  destruct HL as (Hop & Hfd & Hsk & Hm & Hst0 & HD). destruct HB as (Hf & Hcb & Hlen & Hn & Hpl & old & Had & Hca).
  unfold add_to. rewrite (bind_get_list _ _ _ _ Ec), Hcb, Hop.
  destruct (push_all_spec (unique once_memory) l fs) as (new & -> & HP & Hnew).
  rewrite Hnew by done. rewrite drop_app_length, bind_record. cbv zeta.
  change (firing (set_cbs _ c)) with (firing c). rewrite Hf, put_eq.
  set (c' := set_firingLength _ _). pose proof (touches_with d i c' (map (Added (S d, i)) fs) w (added_events _ _)) as T0.
  set (w' := with_list _ _ _) in *. destruct (added_all (S d, i) fs w) as [HA HC].
  change (added (S d, i) (with_trace (map (Added (S d, i)) fs) w)) with (added (S d, i) w') in HA.
  change (called (S d, i) (with_trace (map (Added (S d, i)) fs) w)) with (called (S d, i) w') in HC.
  destruct (touches_other_list Hi Hd T0) as (Lo & Ao & Co).
  assert (Hset : is_settled w' d i D).
  { split; [by rewrite (proj1 T0)|]. exists c', co. split; [apply dlist_with|]. split; [by rewrite Lo|]. split.
    - split; [repeat (split; [assumption|]); by rewrite HC|]. right. exists (l ++ fs), n. split; [|done].
      split; [done|]. split; [done|]. split; [done|]. split; [rewrite length_app; lia|]. split.
      + rewrite drop_app_le by done. by apply Forall_app.
      + exists old. rewrite HA, HC, Had, app_assoc. split; [done|]. by rewrite take_app_le.
    - unfold dead in *. by rewrite Co. }
  split; [apply (touches_inv Hi Hd T0); [done|right; by exists i, D]|]. apply (touches_le T0). split; [|split].
  - intros j D' Hj (Hst' & c2 & Hc2 & Hm2 & Hfd2). rewrite Hst in Hst'. injection Hst' as Hst'.
    apply settled_name_inj in Hst' as <-; [|done..]. unfold dlist in Hc2. rewrite Ec in Hc2. injection Hc2 as <-.
    split; [by rewrite (proj1 T0)|]. exists c'. split; [apply dlist_with|done].
  - intros j c2 Hj [Hc2 Hf2]. destruct (decide (j = i)) as [->|Hji].
    + unfold dlist in Hc2. rewrite Ec in Hc2. injection Hc2 as <-. exists c'. split; [split; [apply dlist_with|done]|done].
    + assert (j = other i) as -> by (unfold other; lia). exists c2. rewrite <- Lo in Hc2. done.
  - intros j c2 Hj [Hc2 Hf2]. left. destruct (decide (j = i)) as [->|Hji]; [by exists c|].
    assert (j = other i) as -> by (unfold other; lia). exists c2. by rewrite Lo in Hc2.
Qed.

Lemma add_lit_fires d i D fs w c : Inv w -> (i < 2)%nat -> (d < length (states w))%nat ->
  Forall (fun f => plain f = true) fs -> is_lit w d i D [] -> lists w !! (S d, i) = Some c ->
  exists w1, add_to fire (S d, i) fs w = fire (S d, i) D w1 /\ touches d i w w1 /\ ready w1 d i D.
Proof.
  intros Hw Hi Hd Hfs Hlit Ec. pose proof Hlit as (Hst & c2 & co & Hc2 & Hco & HL & HW & Hdead).
  unfold dlist in Hc2. rewrite Ec in Hc2. injection Hc2 as <-.
  destruct HL as (Hop & Hfd & Hsk & Hm & Hst0 & HD). destruct HW as (Hf & Hcb & _ & Had).
  unfold add_to. rewrite (bind_get_list _ _ _ _ Ec), Hcb, Hop.
  destruct (push_all_spec (unique once_memory) [] fs) as (new & -> & HP & Hnew).
  rewrite Hnew by done. cbn [length drop app]. rewrite bind_record. cbv zeta.
  change (firing (set_cbs _ c)) with (firing c). change (memory (set_cbs _ c)) with (memory c). rewrite Hf, Hm, bind_put.
  set (c' := set_firingStart _ _). pose proof (touches_with d i c' (map (Added (S d, i)) fs) w (added_events _ _)) as T0.
  set (w' := with_list _ _ _) in *. destruct (added_all (S d, i) fs w) as [HA HC].
  change (added (S d, i) (with_trace (map (Added (S d, i)) fs) w)) with (added (S d, i) w') in HA.
  change (called (S d, i) (with_trace (map (Added (S d, i)) fs) w)) with (called (S d, i) w') in HC.
  exists w'. split; [done|]. split; [exact T0|]. right. exists fs. split; [by rewrite (proj1 T0)|]. exists c', co.
  destruct (touches_other_list Hi Hd T0) as (Lo & Ao & Co). split; [apply dlist_with|]. split; [by rewrite Lo|].
  split; [repeat (split; [done|]); by rewrite HC|]. split; [|unfold dead in *; by rewrite Co].
  split; [done|]. split; [done|]. split; [done|]. rewrite HA, HC, Had. by rewrite app_nil_r.
Qed.
Lemma add_lit d i D fs w c : Inv w -> (i < 2)%nat -> (d < length (states w))%nat ->
  Forall (fun f => plain f = true) fs -> is_lit w d i D [] -> lists w !! (S d, i) = Some c ->
  outcome_ok w unit (add_to fire (S d, i) fs w).
Proof.
  intros Hw Hi Hd Hfs Hlit Ec. destruct (add_lit_fires d i D fs w c Hw Hi Hd Hfs Hlit Ec) as (w1 & -> & T0 & Hr).
  apply lights_safe; [done..| |by right]. exact Hr.
Qed.

Lemma settled_cases w d i j D c : Inv w -> (i < 2)%nat -> (j < 2)%nat -> is_settled w d j D -> lists w !! (S d, i) = Some c ->
  (i = j /\ fired c = true /\ stack c = None) \/ cbs c = None.
Proof.
  intros Hw Hi Hj (Hst & c1 & c2 & H1 & H2 & [HL _] & HD) Ec. destruct (decide (i = j)) as [->|Hn].
  - left. unfold dlist in H1. rewrite Ec in H1. injection H1 as <-. destruct HL as (_ & ? & ? & _). done.
  - right. assert (i = other j) as -> by (unfold other; lia). unfold dlist in H2. rewrite Ec in H2. injection H2 as <-. apply HD.
Qed.

Lemma add_safe l fs : Forall (fun f => plain f = true) fs -> safe (add_to fire l fs).
Proof.
  intros Hfs. destruct (settling l) eqn:Hs; [|by apply add_plain]. intros w Hw.
  destruct l as [[|d] i]; [done|]. apply settling_lt in Hs.
  destruct (lists w !! (S d, i)) as [c|] eqn:Ec; [|unfold add_to; rewrite bind_no_list by done; by split].
  pose proof (nonexisting_settling d i w c Hw Ec) as Hd. destruct (inv_all _ Hw d Hd) as [Hp|(j & D & Hj & Hset)].
  - by eapply add_pending.
  - destruct (settled_cases w d i j D c Hw Hs Hj Hset Ec) as [[<- _]|Hn].
    + destruct (settled_lit _ _ _ _ Hset) as [Hl|(c2 & l & n & Hc2 & HL & HB & HI)]; [by eapply add_lit|].
      unfold dlist in Hc2. rewrite Ec in Hc2. injection Hc2 as <-. by eapply add_burning.
    + unfold add_to. rewrite (bind_get_list _ _ _ _ Ec), Hn. by split.
Qed.

Lemma fireWith_safe l context args : safe (fireWith fire l context args).
Proof.
  intros w Hw. unfold fireWith. destruct (lists w !! l) as [c|] eqn:Ec;
    [rewrite (bind_get_list _ _ _ _ Ec)|rewrite bind_no_list by done; by split].
  destruct (cbs c) as [fs|] eqn:Hcb; [|by split]. destruct (settling l) eqn:Hs.
  - destruct l as [[|d] i]; [done|]. apply settling_lt in Hs.
    pose proof (nonexisting_settling d i w c Hw Ec) as Hd. destruct (inv_all _ Hw d Hd) as [Hp|(j & D & Hj & Hset)].
    + assert (Hf : fired c = false /\ firing c = false).
      { destruct Hp as (_ & c0 & c1 & H0 & H1 & F0 & F1). unfold dlist in *.
        destruct i as [|[|]]; [assert (c = c0) as -> by congruence; split; apply F0|
                               assert (c = c1) as -> by congruence; split; apply F1|lia]. }
      destruct Hf as [-> ->]. cbn [negb orb]. apply lights_safe; [done..| |by left|by left].
      split; [done|]. by intros l' _.
    + destruct (settled_cases w d i j D c Hw Hs Hj Hset Ec) as [(_ & Hf & Hk)|Hn]; [|congruence].
      rewrite Hf, Hk. by split.
  - destruct (_ || _) eqn:Ecase; [|by split]. destruct (firing c) eqn:Ef.
    + destruct (stack c) as [s|]; [|by split]. rewrite put_eq.
      apply put_plain; [by apply (existing_plain l w c); [apply Hw|..]| |done].
      intros fs' Hfs'. change (cbs (set_stack _ c)) with (cbs c) in Hfs'.
      exact (proj1 (inv_base _ Hw) l c fs' Hs Ec Hfs').
    + apply (fire_plain l _ w w); [by apply (existing_plain l w c); [apply Hw|..]|by split].
Qed.

(** ** New deferreds *)

Lemma add_quiet l fs w c old : lists w !! l = Some c -> cbs c = Some old -> firing c = false -> memory c = None ->
  unique (opts c) = false ->
  add_to fire l fs w = Some (with_list l (set_cbs (Some (old ++ fs)) c) (with_trace (map (Added l) fs) w), Ok tt).
Proof.
  intros El Ec Hf Hm Hu. unfold add_to. rewrite (bind_get_list _ _ _ _ El), Ec, Hu.
  destruct (push_all_spec false old fs) as (us & -> & _ & Hus). rewrite Hus by done. rewrite drop_app_length, bind_record.
  cbv zeta. change (firing (set_cbs _ c)) with (firing c). change (memory (set_cbs _ c)) with (memory c). by rewrite Hf, Hm.
Qed.

Lemma new_deferred_run w : Inv w -> let d := length (states w) in exists w',
  new_deferred fire w = Some (w', Ok d) /\ states w' = states w ++ [u "pending"] /\
  (forall l, l.1 <> S d -> lists w' !! l = lists w !! l /\ added l w' = added l w /\ called l w' = called l w) /\
  is_pending w' d /\ lists w' !! (S d, 2%nat) = Some (Callbacks (createOptions (u "memory"))) /\
  (forall i, (3 <= i)%nat -> lists w' !! (S d, i) = None) /\ whens w' = whens w.
Proof.
  intros Hw d. unfold new_deferred, bind at 1, get. cbv beta. fold d.
  unfold bind at 1, modify. set (wa := World _ _ _ _ _ _). rewrite !bind_put.
  set (cm := Callbacks (createOptions (u "once memory"))). set (cp := Callbacks (createOptions (u "memory"))).
  set (w1 := with_list (S d, 2%nat) cp (with_list (S d, 1%nat) cm (with_list (S d, 0%nat) cm wa))).
  assert (L0 : lists w1 !! (S d, 0%nat) = Some cm)
    by (unfold w1; cbn; rewrite !lookup_insert_ne by congruence; apply lookup_insert_eq).
  assert (L1 : lists w1 !! (S d, 1%nat) = Some cm)
    by (unfold w1; cbn; rewrite lookup_insert_ne by congruence; apply lookup_insert_eq).
  unfold bind at 1. rewrite (add_quiet _ _ _ _ _ L0 eq_refl) by reflexivity.
  set (w2 := with_list _ _ _). unfold bind at 1.
  assert (L1' : lists w2 !! (S d, 1%nat) = Some cm) by (unfold w2; cbn; by rewrite lookup_insert_ne by congruence).
  rewrite (add_quiet _ _ _ _ _ L1' eq_refl) by reflexivity. cbn [app].
  set (w3 := with_list _ _ _). exists w3. split; [done|]. split; [done|].
  destruct (proj2 (inv_base _ Hw) d 0%nat ltac:(done)) as (N0 & A0 & C0).
  destruct (proj2 (inv_base _ Hw) d 1%nat ltac:(done)) as (N1 & A1 & C1).
  set (es := map (Added (S d, 0%nat)) (own_callbacks d 0) ++ map (Added (S d, 1%nat)) (own_callbacks d 1)).
  assert (Ht : trace w3 = trace w ++ es) by (unfold es; by rewrite app_assoc).
  assert (HA : forall l, added l w3 = added l w ++ omap (added_event l) es) by (intros l; unfold added; rewrite Ht; apply omap_app).
  assert (HC : forall l, called l w3 = called l w ++ omap (called_event l) es) by (intros l; unfold called; rewrite Ht; apply omap_app).
  assert (HC' : forall l, omap (called_event l) es = []) by done.
  assert (H3 : forall l, l <> (S d, 0%nat) -> l <> (S d, 1%nat) -> lists w3 !! l = lists w1 !! l)
    by (intros l ? ?; unfold w3, w2; cbn; by rewrite !lookup_insert_ne by congruence).
  assert (H1 : forall l, l <> (S d, 0%nat) -> l <> (S d, 1%nat) -> l <> (S d, 2%nat) -> lists w1 !! l = lists w !! l)
    by (intros l ? ? ?; unfold w1; cbn; by rewrite !lookup_insert_ne by congruence).
  split; [|split; [|split; [|split; [|done]]]].
  - intros l Hl. assert (Hn : forall i, l <> (S d, i)) by (intros i ->; done).
    split; [by rewrite H3, H1|]. rewrite HA, HC, HC', app_nil_r. split; [|done].
    unfold es. cbn. rewrite !decide_False by auto. by rewrite app_nil_r.
  - split; [unfold w3, w2, w1; cbn; by rewrite lookup_app_r, Nat.sub_diag|].
    exists (set_cbs (Some (own_callbacks d 0)) cm), (set_cbs (Some (own_callbacks d 1)) cm).
    split; [unfold dlist, w3; cbn; rewrite lookup_insert_ne by congruence; apply lookup_insert_eq|].
    split; [apply lookup_insert_eq|].
    split; (repeat (split; [done|]); split; [by rewrite HC, HC', app_nil_r|]; exists []; rewrite app_nil_r;
      split; [done|]; split; [done|]; rewrite HA; first [rewrite A0|rewrite A1]; unfold es; cbn;
      repeat first [rewrite decide_True by done|rewrite decide_False by congruence]; done).
  - rewrite H3 by congruence. unfold w1. apply lookup_insert_eq.
  - intros i Hi. rewrite H3, H1 by (intros [= ->]; lia).
    by apply (proj2 (inv_base _ Hw) d i).
Qed.

Lemma new_deferred_safe : safe (new_deferred fire).
Proof.
  intros w Hw. destruct (new_deferred_run w Hw) as (w' & -> & Hst & Hl & Hp & H2 & H3 & _).
  set (d := length (states w)) in *.
  assert (Hsame : forall e i, e <> d -> lists w' !! (S e, i) = lists w !! (S e, i) /\
            added (S e, i) w' = added (S e, i) w /\ called (S e, i) w' = called (S e, i) w)
    by (intros e i He; apply Hl; cbn; congruence).
  assert (Hst' : forall e, e <> d -> states w' !! e = states w !! e).
  { intros e He. rewrite Hst. destruct (decide (e < d)%nat) as [Hlt|Hge]; [by apply lookup_app_l|].
    rewrite !lookup_ge_None_2; [done| |rewrite length_app; cbn]; subst d; lia. }
  split.
  - constructor; [split|].
    + intros l c fs Hs Hc. destruct (decide (l.1 = S d)) as [E|E]; [|destruct (Hl l E) as [HL _]; rewrite HL in Hc; by apply (proj1 (inv_base _ Hw) l)].
      destruct l as [k i]. cbn in E. subst k. assert (Hi : (2 <= i)%nat) by (by apply settling_ge in Hs).
      destruct (decide (i = 2%nat)) as [->|]; [|rewrite H3 in Hc by lia; done].
      rewrite H2 in Hc. injection Hc as <-. intros [= <-]. constructor.
    + intros e i He. rewrite Hst, length_app in He. cbn in He.
      destruct (Hsame e i ltac:(lia)) as (-> & -> & ->). apply (inv_base _ Hw). lia.
    + intros e He. destruct (decide (e = d)) as [->|Hn]; [by left|].
      rewrite Hst, length_app in He. cbn in He. apply (dinv_ext w); [by apply Hst'| |apply Hw; subst d; lia].
      intros i _. by apply Hsame.
  - split; [rewrite Hst, length_app; lia|]. intros e. destruct (decide (e = d)) as [->|Hn].
    + assert (HN : forall i, lists w !! (S d, i) = None) by (intros i; by apply (proj2 (inv_base _ Hw) d i)).
      split; [intros i D _ (_ & c & Hc & _); unfold dlist in Hc; by rewrite HN in Hc|]. split.
      * intros i c _ [Hc _]. unfold dlist in Hc. by rewrite HN in Hc.
      * intros i c Hi [Hc Hf]. exfalso. destruct Hp as (_ & c0 & c1 & H0 & H1 & (_ & F0 & _) & (_ & F1 & _)).
        destruct i as [|[|]]; [congruence..|lia].
    + apply le1_same.
      * intros i D _. unfold settled_view, dlist. by rewrite (Hst' e Hn), (proj1 (Hsame e i Hn)).
      * intros i _. by destruct (Hsame e i Hn) as (E & _ & C).
Qed.

(** ** The operations *)

Lemma safe_rest g : (forall w, lists (g w) = lists w /\ states (g w) = states w /\ trace (g w) = trace w) -> safe (modify g).
Proof.
  intros H w Hw. destruct (H w) as (Hl & Hs & Ht). apply same_settling_frame; [| |done].
  - split; [done|]. intros l _. rewrite Hl. unfold added, called. by rewrite Ht.
  - unfold base, added, called in *. rewrite Hl, Hs, Ht. apply Hw.
Qed.
Lemma fuel_safe {A} : safe (fun _ => None : option (world * result A)).
Proof. by intros w _. Qed.
Lemma catch_safe {A} (m h : M A) : safe m -> safe h -> safe (catch m h).
Proof.
  intros Hm Hh w Hw. specialize (Hm w Hw). unfold catch. destruct (m w) as [[w1 [a|]]|]; [done| |done].
  destruct Hm as [Hw1 Hle]. specialize (Hh w1 Hw1). destruct (h w1) as [[w2 r]|]; [|done]. destruct Hh. split; [done|]. by transitivity w1.
Qed.
Lemma change_safe f : safe (change f).
Proof. apply safe_rest. by intros w. Qed.
Lemma safe_put_user n c : holds_plain c -> safe (put_list (0%nat, n) c).
Proof. intros Hc w Hw. rewrite put_eq. apply put_plain; [split; [done|cbn; lia]|done|done]. Qed.
Lemma safe_update_user n g : (forall c, holds_plain c -> holds_plain (g c)) -> safe (update_list (0%nat, n) g).
Proof.
  intros Hg w Hw. unfold update_list. destruct (lists w !! (0%nat, n)) as [c|] eqn:E.
  - rewrite (bind_get_list _ _ _ _ E). apply safe_put_user; [|done]. apply Hg. intros fs Hfs.
    by apply (proj1 (inv_base _ Hw) (0%nat, n) c).
  - rewrite bind_no_list by done. apply safe_put_user; [|done]. by apply Hg.
Qed.
Lemma remove_loop_sub P fuel f b : forall index l len idx, Forall P l -> Forall P (remove_loop fuel f b index l len idx).1.1.
Proof.
  induction fuel as [|fuel IH]; intros index l len idx H; [done|]. cbn [remove_loop].
  destruct (inArray f l index) as [k|]; [|done]. apply IH. by apply Forall_delete.
Qed.
Lemma remove_plain fs c : holds_plain c -> holds_plain (remove fs c).
Proof.
  intros Hc. unfold remove. destruct (cbs c) eqn:E; [|done]. clear E. revert c Hc.
  induction fs as [|f fs IH]; intros c Hc; [done|]. cbn [fold_left]. apply IH. unfold remove_one.
  destruct (cbs c) as [l'|] eqn:E; [|done]. destruct (remove_loop _ _ _ _ _ _ _) as [[l2 n2] i2] eqn:E2.
  intros fs' [= <-]. pose proof (remove_loop_sub (fun f => plain f = true) (length l') f (firing c) 0 l' (firingLength c) (firingIndex c) (Hc _ E)) as H.
  by rewrite E2 in H.
Qed.

Lemma functions_plain args : Forall (fun f => plain f = true) (flat_map functions args).
Proof.
  assert (H : forall a, Forall (fun f => plain f = true) (functions a)).
  { fix IH 1. intros [f|l|]; [by constructor| |constructor]. cbn. induction l as [|a l IHl]; [constructor|].
    cbn. apply Forall_app. split; [apply IH|exact IHl]. }
  induction args as [|a args IH]; [constructor|]. cbn. by apply Forall_app.
Qed.
Lemma listen3_safe d f0 f1 f2 : plain f0 = true -> plain f1 = true -> plain f2 = true -> safe (listen3 fire d f0 f1 f2).
Proof.
  intros. unfold listen3. apply safe_bind; [apply add_safe; by constructor|intros _].
  apply safe_bind; [|intros _]; apply add_safe; by constructor.
Qed.

Ltac safe_step :=
  match goal with
  | |- safe (bind _ _) => apply safe_bind; [|intros ?]
  | |- safe (done_value _ _) => apply safe_done
  | |- safe (add_to _ _ _) => apply add_safe; auto using functions_plain
  | |- safe (fireWith _ _ _ _) => apply fireWith_safe
  | |- safe (new_deferred _) => apply new_deferred_safe
  | |- safe (listen3 _ _ _ _ _) => apply listen3_safe; done
  | |- safe (ret _) => apply safe_ret
  | |- safe throw => apply safe_throw
  | |- safe (get _) => apply safe_get
  | |- safe (get_list _) => apply safe_get
  | |- safe (modify _) => apply safe_rest; by intros ?
  | |- safe (match ?x with _ => _ end) => destruct x
  | |- safe (if ?x then _ else _) => destruct x
  end.

Lemma the_when_safe w : safe (the_when w).
Proof. unfold the_when. repeat safe_step. Qed.
Lemma put_when_safe w r : safe (put_when w r).
Proof. unfold put_when. repeat safe_step. Qed.
Lemma update_safe w i progress context args : safe (update fire w i progress context args).
Proof.
  unfold update. apply safe_bind; [apply the_when_safe|intros r]. cbv zeta. destruct progress.
  - apply safe_bind; [apply put_when_safe|intros _]. safe_step.
  - apply safe_bind; [apply put_when_safe|intros _]. repeat safe_step.
Qed.
Lemma subscribe_safe w l : forall i, safe (subscribe fire w i l).
Proof.
  induction l as [|v l IH]; intros i; [apply safe_ret|]. cbn [subscribe].
  apply safe_bind; [apply the_when_safe|intros r]. apply safe_bind; [|intros _; apply IH].
  destruct (deferred_of v); [repeat safe_step|apply put_when_safe].
Qed.
Lemma when_all_safe l : safe (when_all fire l).
Proof.
  unfold when_all. destruct (match l with [v] => deferred_of v | _ => None end); [apply safe_ret|].
  repeat safe_step; [apply subscribe_safe|apply the_when_safe].
Qed.

Lemma forward_safe d nd i fn context args : safe (forward apply fire d nd i fn context args).
Proof. unfold forward. repeat safe_step. by apply Happly. Qed.
Context `{!LibraryCode L} {SL : SafeLibrary} (bound : nat).
Lemma exec_safe o : safe (exec apply fire bound o).
Proof.
  destruct o; cbn [exec]; repeat safe_step; try (apply Happly; done); try (by apply when_all_safe); try (by apply lib_exec_safe).
  - apply safe_put_user. by intros fs [= <-].
  - apply safe_update_user. intros c. apply remove_plain.
  - apply safe_update_user. intros c _. by intros fs [= <-].
  - apply safe_update_user. by intros c _.
  - apply safe_update_user. intros c Hc. unfold lock. cbn. by destruct (memory c).
Qed.
Lemma run_safe p : safe (run apply fire bound p).
Proof.
  induction p as [v| |o k IH]; [apply safe_ret|apply safe_throw|]. cbn [run]. apply safe_bind; [apply exec_safe|done].
Qed.
Lemma call_safe body f context args : plain f = true -> safe (call_body apply fire bound body f context args).
Proof.
  intros Hf. unfold call_body. destruct f as [[| |]| | | | | |]; try done; repeat safe_step;
    [apply run_safe|apply forward_safe|by apply update_safe|by apply lib_call_safe].
Qed.
End Safe.
End Operations.
