(* ===== verification/DeferredFire.v ===== *)
(** * Deferreds: the firing of a list, and every execution keeps the invariant *)

From Stdlib Require Import ZArith Lia.
From stdpp Require Import base tactics list numbers strings gmap.
From S2P Require Import Prelude JsValue ValidPage ValidRules Deferred DeferredFacts.
Local Open Scope Z_scope.
Local Open Scope deferred_scope.

Section Fire.
Context {L : Library} {T : Blames}.
Lemma le1_refl w d : le1 w w d.
Proof. by apply le1_same. Qed.

(** ** Changes of one deferred *)

Definition around (d : nat) (w w' : world) : Prop :=
  length (states w') = length (states w) /\ (forall e, e <> d -> states w' !! e = states w !! e) /\
  (forall l, l.1 <> S d -> lists w' !! l = lists w !! l /\ added l w' = added l w /\ called l w' = called l w) /\
  (forall j c, (2 <= j)%nat -> lists w' !! (S d, j) = Some c -> holds_plain c).

Section Around.
Context {d : nat} {w w' : world} (Hd : (d < length (states w))%nat) (T0 : around d w w').
Lemma around_base : base w -> base w'.
Proof.
  destruct T0 as (Hl & Hs & H & H2). intros [B1 B2]. split.
  - intros l c fs Hset Hc. destruct (decide (l.1 = S d)) as [E|E].
    + destruct l as [k j]. cbn in E. subst k. apply settling_ge in Hset. by apply (H2 j c).
    + destruct (H l E) as [HL _]. rewrite HL in Hc. by apply (B1 l c).
  - intros e j He. rewrite Hl in He. destruct (H (S e, j)) as (-> & -> & ->); [cbn; lia|]. by apply B2.
Qed.
Lemma around_others : others w d -> others w' d.
Proof.
  destruct T0 as (Hl & Hs & H & _). intros Ho e He Hn. rewrite Hl in He. apply (dinv_ext w); [by apply Hs| |by apply Ho].
  intros j _. apply H. cbn. congruence.
Qed.
Lemma around_le1 e : e <> d -> le1 w w' e.
Proof.
  destruct T0 as (Hl & Hs & H & _). intros He. assert (HE : forall j, ((S e, j) : lid).1 <> S d) by (cbn; lia). apply le1_same.
  - intros j D Hj. unfold settled_view, dlist. destruct (H (S e, j) (HE j)) as [-> _]. by rewrite (Hs e He).
  - intros j Hj. by destruct (H (S e, j) (HE j)) as (E & _ & C).
Qed.
Lemma around_inv : base w -> others w d -> dinv w' d -> Inv w'.
Proof.
  intros Hb Ho H. constructor; [by apply around_base|]. intros e He.
  destruct (decide (e = d)) as [->|Hn]; [done|]. by apply around_others.
Qed.
End Around.

Lemma around_trans d w1 w2 w3 : around d w1 w2 -> around d w2 w3 -> around d w1 w3.
Proof.
  intros (L1 & S1 & H1 & _) (L2 & S2 & H2 & P2). split; [congruence|]. split; [|split; [|done]].
  - intros e He. rewrite S2, S1; done.
  - intros l Hl. destruct (H1 l Hl) as (? & ? & ?), (H2 l Hl) as (? & ? & ?). repeat split; congruence.
Qed.
Lemma touches_around d i w w' : (i < 2)%nat -> touches d i w w' -> base w -> around d w w'.
Proof.
  intros Hi [Hs H] [Hb _]. split; [by rewrite Hs|]. split; [by rewrite Hs|]. split.
  - intros l Hl. apply H. intros ->. done.
  - intros j c Hj Hc fs Hfs. destruct (H (S d, j)) as [E _]; [intros [= ->]; lia|]. rewrite E in Hc.
    apply (Hb (S d, j) c); [by apply Nat.ltb_ge|done|done].
Qed.

(** ** States of a firing *)

Definition lit_at (w : world) (d i : nat) (D : data) (c : clist) : Prop := dlist w d i = Some c /\ lit w d i D c.
(** [n] callbacks of the list have been called; the next one is the [n]-th. *)
Definition mid (w : world) (d i : nat) (D : data) (l : list cb) (n : nat) : Prop :=
  states w !! d = Some (settled_name i) /\ exists c c', lit_at w d i D c /\ dlist w d (other i) = Some c' /\
    burning w d i l n c /\ firingIndex c = Z.of_nat n /\ dead w d (other i) c'.
(** The first [n] of the three own callbacks have been called. *)
Definition kindling (w : world) (d i : nat) (D : data) (n : nat) : Prop :=
  states w !! d = Some (if (n =? 0)%nat then u "pending" else settled_name i) /\
  exists c c' us, lit_at w d i D c /\ dlist w d (other i) = Some c' /\
    (if (n <? 2)%nat then fresh w d (other i) c' else dead w d (other i) c') /\
    firing c = true /\ cbs c = Some (own_callbacks d i ++ us) /\
    firingLength c = Z.of_nat (length (own_callbacks d i ++ us)) /\ firingIndex c = Z.of_nat n /\ (n <= 3)%nat /\
    Forall (fun f => plain f = true) us /\ added (S d, i) w = own_callbacks d i ++ us /\
    map fst (called (S d, i) w) = take n (own_callbacks d i ++ us).

Lemma kindled w d i D : kindling w d i D 3 -> exists us, mid w d i D (own_callbacks d i ++ us) 3.
Proof.
  intros (Hs & c & c' & us & Hc & Hc' & HD & Hf & Hcb & Hlen & Hi & _ & Hus & Ha & Hca). exists us.
  split; [done|]. exists c, c'. repeat (split; [done|]). split; [|done]. split; [done|]. split; [done|]. split; [done|].
  split; [cbn; lia|]. split; [done|]. by exists [].
Qed.

(** ** One turn *)

Lemma record_call l f D w : added l (with_trace [Called l f D] w) = added l w /\
  called l (with_trace [Called l f D] w) = called l w ++ [(f, D)].
Proof. rewrite added_trace, called_trace. cbn. rewrite decide_True by done. by rewrite app_nil_r. Qed.

Section Turn.
Context (apply : cb -> value -> list value -> M value) (fire : lid -> data -> M unit).
Context (Happly : forall f context args, plain f = true -> safe (apply f context args)).
Context (Hplain : forall l D w, plain_list l w -> Inv w -> outcome_ok w unit (fire l D w)).
Context (Hfire : fire_ok fire).
Context (Hblame : forall l f D w w2 h, apply f D.1 D.2 w = Some (w2, Thrown) -> called l w = h ++ [(f, D)] -> blamed l (called l w)).

(** A list of another kind. *)
Lemma put_fields_plain l w c c' : base w -> settling l = false -> lists w !! l = Some c -> cbs c' = cbs c -> holds_plain c'.
Proof. intros [Hb _] Hs Hl E fs Hfs. rewrite E in Hfs. by apply (Hb l c). Qed.
Lemma turn_plain l D next w : (forall w, plain_list l w -> Inv w -> outcome_ok w unit (next w)) -> plain_list l w -> Inv w ->
  outcome_ok w unit (turn apply l D next w).
Proof.
  intros Hnext Hl Hw. unfold turn.
  destruct (lists w !! l) as [c|] eqn:Ec; [rewrite (bind_get_list _ _ _ _ Ec)|rewrite bind_no_list by done; by split].
  destruct (cbs c) as [fs|] eqn:Efs; [|by split]. destruct (_ <? _); [|by split].
  destruct (if _ <? 0 then _ else _) as [f|] eqn:Ef; [|by split].
  assert (Hf : plain f = true).
  { destruct (_ <? 0); [done|]. pose proof (proj1 (inv_base _ Hw) l c fs (proj1 Hl) Ec Efs) as H.
    rewrite Forall_lookup in H. by eapply H. }
  rewrite bind_record. set (w1 := with_trace _ w).
  destruct (trace_plain l [Called l f D] w Hl) as [Hw1 Hle1]; [by repeat constructor|done|]. fold w1 in Hw1, Hle1.
  pose proof (Happly f D.1 D.2 Hf w1 Hw1) as Ha. unfold bind at 1.
  destruct (apply f D.1 D.2 w1) as [[w2 [r|]]|]; [|destruct Ha; split; [done|by transitivity w1]|done].
  destruct Ha as [Hw2 Hle2]. assert (Hle : le w w2) by (by transitivity w1). pose proof (plain_list_le _ _ _ Hl Hle) as Hl2.
  assert (Hput : forall c2, holds_plain c2 -> Inv (with_list l c2 w2) /\ le w (with_list l c2 w2)).
  { intros c2 Hc2. destruct (put_plain l c2 w2 Hl2 Hc2 Hw2). split; [done|]. by transitivity w2. }
  assert (Hgo : forall c2, holds_plain c2 -> outcome_ok w unit
    ((if is_false r && stopOnFalse (opts c2) then put_list l (set_memory None c2)
      else put_list l (set_firingIndex (firingIndex c2 + 1) c2);;; next) w2)).
  { intros c2 Hc2. destruct (is_false r && _); [rewrite put_eq; by apply Hput|]. rewrite bind_put.
    destruct (Hput (set_firingIndex (firingIndex c2 + 1) c2) Hc2) as [Hw3 Hle3].
    pose proof (Hnext _ (plain_list_le _ _ _ Hl Hle3) Hw3) as Hn. unfold outcome_ok in *.
    destruct (next _) as [[w4 r4]|]; [|done]. destruct Hn. split; [done|]. by transitivity (with_list l (set_firingIndex (firingIndex c2 + 1) c2) w2). }
  destruct (lists w2 !! l) as [c2|] eqn:E2; [rewrite (bind_get_list _ _ _ _ E2)|rewrite bind_no_list by done].
  - apply Hgo. by apply (put_fields_plain l w2 c2); [apply Hw2|apply Hl|..].
  - by apply Hgo.
Qed.

(** A done or a fail list: before a call, and after it. *)
Lemma mid_call w d i D l n f : (i < 2)%nat -> (d < length (states w))%nat -> base w -> others w d -> mid w d i D l n ->
  l !! n = Some f -> plain f = true ->
  let w1 := with_trace [Called (S d, i) f D] w in
  Inv w1 /\ (forall e, e <> d -> le1 w w1 e) /\ is_settled w1 d i D /\
  exists c, lit_at w1 d i D c /\ burning w1 d i l (S n) c /\ firingIndex c = Z.of_nat n.
Proof.
  intros Hi Hd Hb Ho (Hs & c & c' & [Hc HL] & Hc' & HB & HI & HD) Hf Hpf w1.
  assert (T0 : touches d i w w1).
  { split; [done|]. intros l' Hl'. split; [done|]. unfold w1. rewrite added_trace, called_trace. cbn.
    rewrite decide_False by congruence. by rewrite !app_nil_r. }
  destruct (record_call (S d, i) f D w) as [HA HC]. fold w1 in HA, HC.
  destruct HL as (? & ? & ? & ? & ? & HF). destruct HB as (? & ? & ? & Hn & Hpl & old & Had & Hcal).
  assert (HL1 : lit w1 d i D c) by (repeat (split; [done|]); rewrite HC; apply Forall_app; split; [done|by constructor]).
  assert (HB1 : burning w1 d i l (S n) c).
  { repeat (split; [done|]). split; [apply lookup_lt_Some in Hf; lia|]. split.
    - rewrite (drop_S _ f) in Hpl by done. by inversion Hpl.
    - exists old. split; [by rewrite HA|]. rewrite HC, map_app, Hcal, (take_S_r _ _ f) by done. by rewrite app_assoc. }
  destruct (touches_other_list Hi Hd T0) as (Lo & Ao & Co).
  assert (Hset : is_settled w1 d i D).
  { split; [done|]. exists c, c'. split; [done|]. split; [done|]. split; [|unfold dead in *; by rewrite Co].
    split; [done|]. right. by exists l, n. }
  split; [|split; [intros e He; by apply (touches_le1 T0)|split; [done|by exists c]]].
  constructor; [by apply (touches_base Hi Hd T0)|]. intros e He. destruct (decide (e = d)) as [->|Hne].
  - right. by exists i, D.
  - by apply (touches_others T0).
Qed.
Lemma after_call w1 w2 d i D l n c : (i < 2)%nat -> (d < length (states w1))%nat -> Inv w2 -> le w1 w2 ->
  is_settled w1 d i D -> lit_at w1 d i D c -> burning w1 d i l (S n) c -> firingIndex c = Z.of_nat n ->
  is_settled w2 d i D /\ exists c2 l2, lit_at w2 d i D c2 /\ burning w2 d i l2 (S n) c2 /\ firingIndex c2 = Z.of_nat n.
Proof.
  intros Hi Hd Hw2 [Hlen Hle] Hset [Hc HL] HB HI. destruct (Hle d) as [Hv [Hst _]].
  destruct HL as (_ & Hfd & _ & Hm & _). destruct (Hv i D Hi) as (Hs2 & c2 & Hc2 & Hm2 & Hf2).
  { split; [apply Hset|]. by exists c. }
  destruct (Hst i c Hi) as (c3 & [Hc3 Hf3] & HI3 & _); [split; [done|apply HB]|].
  assert (c3 = c2) as -> by (unfold dlist in *; congruence).
  destruct (inv_all _ Hw2 d ltac:(lia)) as [(Hp & _)|(j & D' & Hj & Hset2)].
  { rewrite Hs2 in Hp. injection Hp as Hp. symmetry in Hp. by destruct (pending_not_settled i). }
  pose proof Hset2 as (Hs' & c4 & c5 & Hc4 & _ & [HL4 Hph] & _).
  rewrite Hs2 in Hs'. injection Hs' as Hs'. apply settled_name_inj in Hs' as <-; [|done..].
  assert (c4 = c2) as -> by (unfold dlist in *; congruence).
  assert (D' = D) as -> by (destruct HL4 as (_ & _ & _ & HL4 & _); congruence).
  split; [done|]. destruct Hph as [(Hf & _)|(l2 & n2 & HB2 & HI2)]; [congruence|].
  assert (n2 = n) as -> by lia. by exists c2, l2.
Qed.

Lemma touches_put d i c w : touches d i w (with_list (S d, i) c w).
Proof. split; [done|]. intros l Hl. split; [by apply lookup_insert_ne|done]. Qed.
(** The index after a call. *)
Lemma advance w d i D l n c : (i < 2)%nat -> (d < length (states w))%nat -> is_settled w d i D ->
  lit_at w d i D c -> burning w d i l (S n) c ->
  mid (with_list (S d, i) (set_firingIndex (Z.of_nat n + 1) c) w) d i D l (S n).
Proof.
  intros Hi Hd (Hs & c4 & c5 & Hc4 & Hc5 & _ & HD5) [Hc HL] HB.
  pose proof (touches_put d i (set_firingIndex (Z.of_nat n + 1) c) w) as T0. set (w' := with_list _ _ _) in *.
  split; [done|]. exists (set_firingIndex (Z.of_nat n + 1) c), c5.
  destruct (touches_other_list Hi Hd T0) as (Lo & Ao & Co).
  split; [split; [apply dlist_with|done]|]. split; [by rewrite Lo|]. split; [done|]. split; [cbn; lia|].
  unfold dead in *. by rewrite Co.
Qed.

(** The rest of a loop. *)
Definition loop_post {A} (w : world) (d i : nat) (D : data) (r : option (world * result A)) : Prop :=
  match r with
  | Some (w', r) =>
      (length (states w) <= length (states w'))%nat /\ (forall e, e <> d -> le1 w w' e) /\ base w' /\ others w' d /\
      match r with
      | Ok _ => exists l, mid w' d i D l (length l)
      | Thrown => is_settled w' d i D /\ blamed (S d, i) (called (S d, i) w') /\ exists c, firing_at w' d i c
      end
  | None => True
  end.
Lemma loop_post_trans {A} w w1 d i D (r : option (world * result A)) : (length (states w) <= length (states w1))%nat -> (forall e, e <> d -> le1 w w1 e) ->
  loop_post w1 d i D r -> loop_post w d i D r.
Proof.
  intros Hl He. unfold loop_post. destruct r as [[w' r]|]; [|done]. intros (Hl' & He' & H).
  split; [lia|]. split; [|done]. intros e Hn. apply (le1_trans w w1); auto.
Qed.

Lemma turn_mid d i D next : (i < 2)%nat ->
  (forall l n w, (d < length (states w))%nat -> base w -> others w d -> mid w d i D l n -> loop_post w d i D (next w)) ->
  forall l n w, (d < length (states w))%nat -> base w -> others w d -> mid w d i D l n ->
    loop_post w d i D (turn apply (S d, i) D next w).
Proof.
  intros Hi Hnext l n w Hd Hb Ho Hmid. pose proof Hmid as (Hs & c & c' & [Hc HL] & Hc' & HB & HI & HD).
  pose proof HB as (Hf & Hcb & Hlen & Hn & Hpl & _). unfold turn. rewrite (bind_get_list _ _ _ _ Hc), Hcb, HI, Hlen.
  destruct (Z.of_nat n <? Z.of_nat (length l)) eqn:Elt.
  2: { assert (n = length l) as -> by lia. split; [lia|]. split; [intros e _; apply le1_refl|].
       split; [done|]. split; [done|]. by exists l. }
  rewrite (proj2 (Z.ltb_ge _ 0)), Nat2Z.id by lia.
  destruct (l !! n) as [f|] eqn:Ef; [|apply lookup_ge_None in Ef; lia].
  assert (Hpf : plain f = true) by (rewrite (drop_S _ f) in Hpl by done; by inversion Hpl).
  rewrite bind_record. set (w1 := with_trace _ w).
  destruct (mid_call w d i D l n f Hi Hd Hb Ho Hmid Ef Hpf) as (Hw1 & He1 & Hset1 & c1 & HL1 & HB1 & HI1). fold w1 in Hw1, He1, Hset1, HL1, HB1.
  pose proof (Happly f D.1 D.2 Hpf w1 Hw1) as Ha. unfold bind at 1.
  destruct (apply f D.1 D.2 w1) as [[w2 r]|] eqn:Eap; [|done]. destruct Ha as [Hw2 Hle2].
  destruct (after_call w1 w2 d i D l n c1 Hi Hd Hw2 Hle2 Hset1 HL1 HB1 HI1) as (Hset2 & c2 & l2 & [Hc2 HL2] & HB2 & HI2).
  apply (loop_post_trans w w2); [apply Hle2|intros e He; apply (le1_trans w w1); [by apply He1|apply Hle2]|].
  assert (Hd2 : (d < length (states w2))%nat) by (destruct Hle2 as [Hle2 _]; change (states w1) with (states w) in Hle2; lia).
  assert (Ho2 : others w2 d) by (intros e He _; by apply Hw2).
  destruct r as [r|].
  2: { split; [lia|]. split; [intros e _; apply le1_refl|]. split; [apply Hw2|]. split; [done|]. split; [done|].
       destruct (proj2 Hle2 d) as (_ & Hstays & _). destruct (Hstays i c1 Hi) as (c3 & Hc3 & _ & Hcalled); [split; [apply HL1|apply HB1]|].
       split; [|by exists c3]. rewrite Hcalled. destruct (record_call (S d, i) f D w) as [_ HC]. by apply (Hblame (S d, i) f D w1 w2 (called (S d, i) w)). }
  rewrite (bind_get_list _ _ _ _ Hc2). pose proof HL2 as (Hop & _). rewrite Hop, andb_false_r, bind_put, HI2.
  pose proof (touches_put d i (set_firingIndex (Z.of_nat n + 1) c2) w2) as T0. set (w3 := with_list _ _ _) in *.
  apply (loop_post_trans w2 w3); [done|intros e He; by apply (touches_le1 T0)|].
  apply (Hnext l2 (S n)); [done|by apply (touches_base Hi Hd2 T0); apply Hw2|by apply (touches_others T0)|by apply advance].
Qed.
End Turn.

(** ** The three own callbacks *)

Definition own_effect (f : cb) : M value :=
  match f with
  | SetState d s =>
      done_value undef (modify (fun w => World (lists w) (<[d := s]> (states w)) (whens w) (next_list w) (more w) (trace w)))
  | DisableList l => done_value undef (update_list l disable)
  | LockList l => done_value undef (update_list l lock)
  | _ => throw
  end.
Lemma update_list_eq l g w : update_list l g w = Some (with_list l (g (default no_list (lists w !! l))) w, Ok tt).
Proof. done. Qed.

Section Kindling.
Context (apply : cb -> value -> list value -> M value).
Context (Hown : forall f context args w, plain f = false -> apply f context args w = None \/ apply f context args w = own_effect f w).

Lemma turn_step l D next w c fs n f r w2 : lists w !! l = Some c -> cbs c = Some fs -> firingIndex c = Z.of_nat n ->
  firingLength c = Z.of_nat (length fs) -> fs !! n = Some f -> stopOnFalse (opts c) = false ->
  apply f D.1 D.2 (with_trace [Called l f D] w) = Some (w2, Ok r) -> lists w2 !! l = Some c ->
  turn apply l D next w = next (with_list l (set_firingIndex (Z.of_nat n + 1) c) w2).
Proof.
  intros Hc Hfs Hn Hlen Hf Hstop Ha Hc2. unfold turn. rewrite (bind_get_list _ _ _ _ Hc), Hfs, Hn, Hlen.
  pose proof (lookup_lt_Some _ _ _ Hf). rewrite (proj2 (Z.ltb_lt _ _)), (proj2 (Z.ltb_ge _ 0)), Nat2Z.id, Hf by lia.
  rewrite bind_record. unfold bind at 1. rewrite Ha, (bind_get_list _ _ _ _ Hc2), Hstop, andb_false_r, bind_put. by rewrite Hn.
Qed.

Lemma around_effect d w f w2 i : (i < 2)%nat -> base w -> f ∈ own_callbacks d i -> own_effect f w = Some (w2, Ok undef) ->
  around d w w2.
Proof.
  intros Hi Hb Hf He.
  assert (Hput : forall j g, (j <> i)%nat -> (forall c, holds_plain c -> holds_plain (g c)) ->
            w2 = with_list (S d, j) (g (default no_list (lists w !! (S d, j)))) w -> around d w w2).
  { intros j g Hj Hg ->. split; [done|]. split; [done|]. split.
    - intros l Hl. split; [|done]. apply lookup_insert_ne. intros <-. done.
    - intros k c Hk Hc. destruct (decide (k = j)) as [->|Hn].
      + cbn in Hc. rewrite lookup_insert_eq in Hc. injection Hc as <-. apply Hg.
        destruct (lists w !! (S d, j)) as [c|] eqn:E; [|done]. intros fs Hfs.
        apply (proj1 Hb (S d, j) c); [by apply Nat.ltb_ge|done|done].
      + cbn in Hc. rewrite lookup_insert_ne in Hc by congruence. intros fs Hfs.
        apply (proj1 Hb (S d, k) c); [by apply Nat.ltb_ge|done|done]. }
  unfold own_callbacks in Hf. rewrite !elem_of_cons, elem_of_nil in Hf.
  destruct Hf as [->|[->|[->|[]]]]; cbn in He; injection He as <-.
  - split; [cbn; apply length_insert|]. split; [intros e Hne; by apply list_lookup_insert_ne|]. split; [done|].
    intros j c Hj Hc fs Hfs. apply (proj1 Hb (S d, j) c); [by apply Nat.ltb_ge|done|done].
  - by apply (Hput (1 - i)%nat disable); [lia|intros c _|].
  - apply (Hput 2%nat lock); [lia| |done]. intros c Hc. unfold lock. cbn. by destruct (memory c).
Qed.

Lemma turn_kindling w d i D n next : (i < 2)%nat -> (n < 3)%nat -> (d < length (states w))%nat -> base w -> kindling w d i D n ->
  ((exists f context args w1, plain f = false /\ apply f context args w1 = None) /\ turn apply (S d, i) D next w = None) \/
  exists w', turn apply (S d, i) D next w = next w' /\ around d w w' /\ kindling w' d i D (S n) /\
    added (S d, i) w' = added (S d, i) w.
Proof.
  intros Hi Hn3 Hd Hb (Hs & c & c' & us & [Hc HL] & Hc' & HO & Hf & Hcb & Hlen & HI & _ & Hus & Ha & Hca).
  destruct (own_callbacks d i !! n) as [f|] eqn:Ef; [|apply lookup_ge_None in Ef; cbn in Ef; lia].
  assert (Hin : f ∈ own_callbacks d i) by (by eapply list_elem_of_lookup_2).
  assert (Hfp : plain f = false) by (unfold own_callbacks in Hin; rewrite !elem_of_cons, elem_of_nil in Hin; by destruct Hin as [->|[->|[->|[]]]]).
  assert (Hfs : (own_callbacks d i ++ us) !! n = Some f) by (by apply lookup_app_l_Some).
  pose proof HL as (Hop & _). set (w1 := with_trace [Called (S d, i) f D] w).
  destruct (Hown f D.1 D.2 w1 Hfp) as [HN|HE].
  { left. split; [by exists f, D.1, D.2, w1|]. unfold turn. rewrite (bind_get_list _ _ _ _ Hc), Hcb, HI, Hlen. pose proof (lookup_lt_Some _ _ _ Hfs).
    rewrite (proj2 (Z.ltb_lt _ _)), (proj2 (Z.ltb_ge _ 0)), Nat2Z.id, Hfs, bind_record by lia. fold w1. unfold bind at 1. by rewrite HN. }
  assert (T1 : touches d i w w1).
  { split; [done|]. intros l' Hl'. split; [done|]. unfold w1. rewrite added_trace, called_trace. cbn.
    rewrite decide_False by congruence. by rewrite !app_nil_r. }
  destruct (record_call (S d, i) f D w) as [HA HC]. fold w1 in HA, HC.
  assert (Hb1 : base w1) by (by apply (touches_base Hi Hd T1)).
  assert (Heff : exists w2, own_effect f w1 = Some (w2, Ok undef) /\ trace w2 = trace w1 /\ lists w2 !! (S d, i) = Some c /\
            states w2 !! d = Some (settled_name i) /\
            exists c2, dlist w2 d (other i) = Some c2 /\ (if (S n <? 2)%nat then fresh w1 d (other i) c2 else dead w1 d (other i) c2)).
  { destruct (touches_other_list Hi Hd T1) as (Lo & Ao & Co).
    assert (Hne : (S d, other i) <> (S d, i)) by (unfold other; intros [= ?]; lia).
    assert (Hne2 : (S d, 2%nat) <> (S d, i) /\ (S d, 2%nat) <> (S d, other i)) by (unfold other; split; intros [= ?]; lia).
    destruct n as [|[|[|]]]; [injection Ef as <-..|lia]; cbn [own_effect]; eexists.
    - split; [done|]. split; [done|]. split; [done|]. split; [by apply list_lookup_insert_eq|].
      exists c'. split; [done|]. cbn in HO |- *. unfold fresh in *. by rewrite Ao, Co.
    - split; [done|]. split; [done|]. split; [cbn; by rewrite lookup_insert_ne|]. split; [done|].
      exists (disable c'). split; [unfold dlist; cbn; change (1 - i)%nat with (other i); rewrite lookup_insert_eq; unfold dlist in Hc'; by rewrite Hc'|].
      cbn in HO |- *. destruct HO as (_ & Hf' & _ & _ & _ & _ & Hc2 & _). repeat split; [done|]. by rewrite Co.
    - split; [done|]. split; [done|]. destruct Hne2. split; [cbn; by rewrite lookup_insert_ne|]. split; [done|].
      exists c'. split; [unfold dlist; cbn; by rewrite lookup_insert_ne|]. cbn in HO |- *. unfold dead in *. by rewrite Co. }
  destruct Heff as (w2 & He & Ht & Hc2 & Hs2 & c2 & Hco & HO2). rewrite He in HE.
  right. rewrite (turn_step _ _ _ _ _ _ _ _ _ _ Hc Hcb HI Hlen Hfs ltac:(by rewrite Hop) HE Hc2).
  set (c3 := set_firingIndex _ c). set (w3 := with_list (S d, i) c3 w2). exists w3. split; [done|].
  assert (HAC : forall l, added l w3 = added l w1 /\ called l w3 = called l w1) by (intros l; unfold added, called; cbn; by rewrite Ht).
  assert (R12 : around d w1 w2) by (by apply (around_effect d w1 f w2 i)).
  assert (R : around d w w2) by (by apply (around_trans d w w1); [apply (touches_around d i)|]).
  split; [|split; [|by rewrite (proj1 (HAC _)), HA]].
  - apply (around_trans d w w2); [done|]. split; [done|]. split; [done|]. split.
    + intros l Hl. split; [apply lookup_insert_ne; intros <-; done|done].
    + intros j c4 Hj Hc4. cbn in Hc4. rewrite lookup_insert_ne in Hc4 by (intros [= ->]; lia). by apply (proj2 (proj2 (proj2 R)) j).
  - split; [exact Hs2|]. exists c3, c2, us. destruct (HAC (S d, i)) as [HA3 HC3], (HAC (S d, other i)) as [HA4 HC4].
    destruct HL as (? & ? & ? & ? & ? & HF).
    split; [split; [apply dlist_with|repeat (split; [done|]); rewrite HC3, HC; apply Forall_app; split; [done|by constructor]]|].
    split; [unfold dlist; cbn; rewrite lookup_insert_ne; [done|unfold other; intros [= ?]; lia]|].
    split; [destruct (S n <? 2)%nat; unfold fresh, dead in *; by rewrite ?HA4, HC4|].
    repeat (split; [done|]). split; [cbn; lia|]. split; [lia|]. split; [done|].
    split; [by rewrite HA3, HA|]. rewrite HC3, HC, map_app, Hca, (take_S_r _ _ f) by done. done.
Qed.
End Kindling.

(** ** A firing *)

Lemma outcome_bind {A B} w (m : M A) (k : A -> M B) : outcome_ok w A (m w) ->
  (forall a w1, Inv w1 -> le w w1 -> outcome_ok w1 B (k a w1)) -> outcome_ok w B (bind m k w).
Proof.
  intros Hm Hk. unfold bind. destruct (m w) as [[w1 [a|]]|]; [|done..]. destruct Hm as [Hw1 Hle].
  specialize (Hk a w1 Hw1 Hle). unfold outcome_ok in *. destruct (k a w1) as [[w2 r]|]; [|done].
  destruct Hk. split; [done|]. by transitivity w1.
Qed.

Lemma put_plain_list l g w : plain_list l w -> (forall c, holds_plain c -> holds_plain (g c)) -> Inv w ->
  outcome_ok w unit (update_list l g w).
Proof.
  intros Hl Hg Hw. rewrite update_list_eq. apply put_plain; [done| |done]. apply Hg.
  destruct (lists w !! l) as [c|] eqn:E; [|done]. intros fs Hfs. by apply (proj1 (inv_base _ Hw) l c); [apply Hl|..].
Qed.
Lemma start_plain l D w : plain_list l w -> Inv w -> outcome_ok w unit (start_firing l D w).
Proof.
  intros Hl Hw. unfold start_firing. destruct (lists w !! l) as [c|] eqn:E; [rewrite (bind_get_list _ _ _ _ E)|rewrite bind_no_list by done; by split].
  destruct (cbs c) as [fs|] eqn:Efs; [|by split]. rewrite put_eq. apply put_plain; [done| |done].
  intros fs' [= <-]. by apply (proj1 (inv_base _ Hw) l c); [apply Hl|..].
Qed.
Lemma finish_plain (fire : lid -> data -> M unit) l w :
  (forall l D w, plain_list l w -> Inv w -> outcome_ok w unit (fire l D w)) -> plain_list l w -> Inv w ->
  outcome_ok w unit (finish fire l w).
Proof.
  intros Hfire Hl Hw. unfold finish. apply outcome_bind; [by apply put_plain_list|].
  intros [] w1 Hw1 Hle. pose proof (plain_list_le _ _ _ Hl Hle) as Hl1.
  destruct (lists w1 !! l) as [c|] eqn:E; [rewrite (bind_get_list _ _ _ _ E)|rewrite bind_no_list by done; by split].
  assert (Hput : forall c', holds_plain c' -> outcome_ok w1 unit (put_list l c' w1)) by (intros c' Hc'; by apply put_plain).
  assert (Hc : holds_plain c) by (intros fs Hfs; by apply (proj1 (inv_base _ Hw1) l c); [apply Hl|..]).
  destruct (cbs c) as [fs|] eqn:Efs; [|by split]. destruct (stack c) as [[|D s]|]; [by split| |].
  - apply outcome_bind; [by apply Hput|]. intros [] w2 Hw2 Hle2. apply Hfire; [by apply (plain_list_le l w1)|done].
  - destruct (memory c); apply Hput; [by intros ? [= <-]|done].
Qed.

(** The start for a done or a fail list. *)
Lemma start_settling w d i D : (i < 2)%nat -> (d < length (states w))%nat -> base w -> ready w d i D ->
  exists w', start_firing (S d, i) D w = Some (w', Ok tt) /\ touches d i w w' /\
    (kindling w' d i D 0 \/ exists l, mid w' d i D l 0).
Proof.
  intros Hi Hd Hb Hr.
  pose proof (fun c => touches_put d i c w) as HT.
  destruct Hr as [(Hs & c0 & c1 & H0 & H1 & F0 & F1)|(us & Hs & c & c' & Hc & Hc' & HL & HW & HD)].
  - assert (H : exists c c', dlist w d i = Some c /\ dlist w d (other i) = Some c' /\ fresh w d i c /\ fresh w d (other i) c')
      by (destruct i as [|[|]]; [exists c0, c1|exists c1, c0|lia]; done).
    destruct H as (c & c' & Hc & Hc' & (Hop & Hf & Hm & Hfd & Hst & Hsk & Hcl & us & Hcb & Hus & Had) & F').
    unfold start_firing. rewrite (bind_get_list _ _ _ _ Hc), Hcb, put_eq, Hop. cbn [memory_on once_memory].
    eexists. split; [done|]. split; [apply HT|]. left. split; [done|].
    destruct (touches_other_list Hi Hd (HT (CList once_memory true (Some D) true (Z.of_nat (length (own_callbacks d i ++ us))) (firingStart c) 0 (Some (own_callbacks d i ++ us)) (stack c)))) as (Lo & Ao & Co).
    eexists _, c', us. split; [split; [apply dlist_with|]|].
    { repeat (split; [done|]). change (called (S d, i) (with_list _ _ w)) with (called (S d, i) w). by rewrite Hcl. }
    split; [by rewrite Lo|]. split; [unfold fresh in *; cbn; by rewrite ?Ao, ?Co|].
    repeat (split; [done|]). split; [lia|]. split; [done|]. split; [done|].
    change (called (S d, i) (with_list _ _ w)) with (called (S d, i) w). by rewrite Hcl.
  - destruct HL as (Hop & Hfd & Hsk & Hm & Hst & HF). destruct HW as (Hf & Hcb & Hus & Had).
    unfold start_firing. rewrite (bind_get_list _ _ _ _ Hc), Hcb, put_eq, Hop. cbn [memory_on once_memory].
    eexists. split; [done|]. split; [apply HT|]. right. exists us. split; [done|]. eexists _, c'.
    split; [split; [apply dlist_with|by repeat (split; [done|])]|].
    split; [unfold dlist, with_list; cbn; rewrite lookup_insert_ne; [done|unfold other; intros [= ?]; lia]|].
    split; [|split; [cbn; lia|done]]. split; [done|]. split; [done|]. split; [done|]. split; [lia|]. split; [done|].
    exists (map fst (called (S d, i) w)). by rewrite app_nil_r.
Qed.

(** The end of its loop. *)
Lemma finish_settling fire w d i D l : (i < 2)%nat -> (d < length (states w))%nat -> base w -> others w d ->
  mid w d i D l (length l) ->
  exists w', finish fire (S d, i) w = Some (w', Ok tt) /\ touches d i w w' /\ Inv w' /\ is_settled w' d i D /\ trace w' = trace w /\
    forall j c, (j < 2)%nat -> ~ firing_at w' d j c.
Proof.
  intros Hi Hd Hb Ho (Hs & c & c' & [Hc HL] & Hc' & HB & HI & HD).
  destruct HL as (Hop & Hfd & Hsk & Hm & Hst & HF). destruct HB as (Hf & Hcb & Hlen & _ & _ & old & Had & Hca).
  set (w1 := with_list (S d, i) (set_firing false c) w).
  assert (E1 : lists w1 !! (S d, i) = Some (set_firing false c)) by apply lookup_insert_eq.
  unfold finish, bind at 1. rewrite update_list_eq. unfold dlist in Hc. rewrite Hc. cbn [default from_option]. fold w1.
  change (set_firing false (id c)) with (set_firing false c). fold w1.
  rewrite (bind_get_list _ _ _ _ E1). cbn [cbs set_firing stack memory]. rewrite Hcb, Hsk, Hm, put_eq.
  set (c2 := set_cbs _ _). set (w2 := with_list (S d, i) c2 w1). exists w2. split; [done|].
  assert (T0 : touches d i w w2) by (split; [done|]; intros l' Hl'; split; [cbn; by rewrite !lookup_insert_ne|done]).
  split; [done|]. assert (Hset : is_settled w2 d i D).
  { destruct (touches_other_list Hi Hd T0) as (Lo & Ao & Co). split; [done|]. exists c2, c'.
    split; [apply dlist_with|]. split; [by rewrite Lo|]. split; [|unfold dead in *; by rewrite Co].
    split; [by repeat (split; [done|])|]. left. repeat (split; [done|]).
    change (added (S d, i) w2) with (added (S d, i) w). change (called (S d, i) w2) with (called (S d, i) w).
    by rewrite Had, Hca, firstn_all, app_nil_r. }
  assert (Hno : forall j c, (j < 2)%nat -> ~ firing_at w2 d j c).
  { intros j c3 Hj [Hc3 Hf3]. destruct (decide (j = i)) as [->|Hji].
    - unfold w2 in Hc3. rewrite dlist_with in Hc3. by injection Hc3 as <-.
    - assert (j = other i) as -> by (unfold other; lia). destruct (touches_other_list Hi Hd T0) as (Lo & _). rewrite Lo, Hc' in Hc3.
      injection Hc3 as <-. destruct HD as (_ & _ & _ & HD & _). congruence. }
  split; [|by split]. constructor; [by apply (touches_base Hi Hd T0)|]. intros e He.
  destruct (decide (e = d)) as [->|Hn]; [right; by exists i, D|]. by apply (touches_others T0).
Qed.

End Fire.

(** ** Every execution *)

Section Execution.
Context {L : Library} `{!LibraryCode L} {SL : SafeLibrary}.

(** The last callback that was called from a list threw. *)
Definition threw (body : nat -> value -> list value -> prog) (l : lid) (h : list (cb * data)) : Prop :=
  exists old f D fuel w w', h = old ++ [(f, D)] /\ called l w = h /\ eval body fuel (Call f D.1 D.2) w = Some (w', Thrown).

Context (body : nat -> value -> list value -> prog).
#[local] Instance the_blames : Blames := threw body.


Definition request_ok (ev : request -> M value) : Prop :=
  (forall f context args, plain f = true -> safe (ev (Call f context args))) /\
  (forall l D w, plain_list l w -> Inv w -> outcome_ok w value (ev (Fire l D) w)) /\
  (forall l D w, plain_list l w -> Inv w -> outcome_ok w value (ev (Loop l D) w)) /\
  (forall d i D w, (i < 2)%nat -> (d < length (states w))%nat -> base w -> others w d -> ready w d i D ->
     match ev (Fire (S d, i) D) w with Some (w', _) => lights w w' d i D | None => True end) /\
  (forall d i D l n w, (i < 2)%nat -> (d < length (states w))%nat -> base w -> others w d -> mid w d i D l n ->
     loop_post w d i D (ev (Loop (S d, i) D) w)) /\
  (forall d i D n w, (i < 2)%nat -> (n < 3)%nat -> (d < length (states w))%nat -> base w -> others w d -> kindling w d i D n ->
     loop_post w d i D (ev (Loop (S d, i) D) w)).

Lemma loop_post_done {A} v w d i D (m : M A) : loop_post w d i D (m w) -> loop_post w d i D (done_value v m w).
Proof. unfold done_value, bind. by destruct (m w) as [[w' [a|]]|]. Qed.
Lemma outcome_done {A} v w (m : M A) : outcome_ok w A (m w) -> outcome_ok w value (done_value v m w).
Proof. unfold done_value, bind. by destruct (m w) as [[w' [a|]]|]. Qed.

Section Step.
Context (m : nat) (IH : request_ok (eval body m)).
Let apply f context args := eval body m (Call f context args).
Let fire (l : lid) (D : data) : M unit := eval body m (Fire l D);;; ret tt.
Let next (l : lid) (D : data) : M unit := eval body m (Loop l D);;; ret tt.

Lemma step_apply f context args : plain f = true -> safe (apply f context args).
Proof. apply IH. Qed.
Lemma step_fire_plain l D w : plain_list l w -> Inv w -> outcome_ok w unit (fire l D w).
Proof. intros Hl Hw. apply outcome_bind; [by apply IH|by intros ? ? ? _]. Qed.
Lemma step_next_plain l D w : plain_list l w -> Inv w -> outcome_ok w unit (next l D w).
Proof. intros Hl Hw. apply outcome_bind; [by apply IH|by intros ? ? ? _]. Qed.
Lemma step_fire : fire_ok fire.
Proof.
  intros d i D w Hi Hd Hb Ho Hr. destruct IH as (_ & _ & _ & HF & _). specialize (HF d i D w Hi Hd Hb Ho Hr).
  unfold fire, bind. by destruct (eval body m (Fire (S d, i) D) w) as [[w' [a|]]|].
Qed.
Lemma step_blame l f D w w2 h : apply f D.1 D.2 w = Some (w2, Thrown) -> called l w = h ++ [(f, D)] -> blamed l (called l w).
Proof. intros E Hc. by exists h, f, D, m, w, w2. Qed.
Lemma step_next d i D w : loop_post w d i D (eval body m (Loop (S d, i) D) w) -> loop_post w d i D (next (S d, i) D w).
Proof. unfold next, bind. by destruct (eval body m (Loop (S d, i) D) w) as [[w' [a|]]|]. Qed.

Lemma step_loop_kindling d i D n w : (i < 2)%nat -> (n < 3)%nat -> (d < length (states w))%nat -> base w -> others w d ->
  kindling w d i D n -> loop_post w d i D (turn apply (S d, i) D (next (S d, i) D) w).
Proof.
  intros Hi Hn Hd Hb Ho Hk.
  assert (Hown : forall f context args w, plain f = false -> apply f context args w = None \/ apply f context args w = own_effect f w).
  { intros f context args w' Hf. unfold apply. destruct m as [|m']; [by left|right]. by destruct f. }
  destruct (turn_kindling apply Hown w d i D n (next (S d, i) D) Hi Hn Hd Hb Hk) as [[_ ->]|(w' & -> & R & Hk' & _)]; [done|].
  apply (loop_post_trans w w'); [rewrite (proj1 R); done|intros e He; by apply (around_le1 Hd R)|]. apply step_next.
  assert (Hd' : (d < length (states w'))%nat) by (by rewrite (proj1 R)).
  pose proof (around_base Hd R Hb) as Hb'. pose proof (around_others R Ho) as Ho'.
  destruct (decide (n = 2%nat)) as [->|Hn2].
  - destruct (kindled _ _ _ _ Hk') as (us & Hmid).
    by apply (proj1 (proj2 (proj2 (proj2 (proj2 IH)))) d i D (own_callbacks d i ++ us) 3%nat).
  - apply (proj2 (proj2 (proj2 (proj2 (proj2 IH)))) d i D (S n)); auto. lia.
Qed.

(** A firing that ends leaves no list of the deferred firing; one that throws leaves its
    list as it is when a callback throws. *)
Definition left_firing {A} (w' : world) (d i : nat) (r : result A) : Prop :=
  match r with
  | Ok _ => forall j c, (j < 2)%nat -> ~ firing_at w' d j c
  | Thrown => (exists c, firing_at w' d i c) /\ blamed (S d, i) (called (S d, i) w')
  end.
Lemma step_fire_settling d i D w : (i < 2)%nat -> (d < length (states w))%nat -> base w -> others w d -> ready w d i D ->
  match (start_firing (S d, i) D;;; eval body m (Loop (S d, i) D);;; finish fire (S d, i)) w with
  | Some (w', r) => lights w w' d i D /\ left_firing w' d i r
  | None => True
  end.
Proof.
  intros Hi Hd Hb Ho Hr. destruct (start_settling w d i D Hi Hd Hb Hr) as (w1 & E1 & T0 & Hph).
  unfold bind at 1. rewrite E1. assert (Hd1 : (d < length (states w1))%nat) by (by rewrite (proj1 T0)).
  pose proof (touches_base Hi Hd T0 Hb) as Hb1. pose proof (touches_others T0 Ho) as Ho1.
  assert (Hpost : loop_post w d i D (eval body m (Loop (S d, i) D) w1)).
  { apply (loop_post_trans w w1); [by rewrite (proj1 T0)|intros e He; by apply (touches_le1 T0)|].
    destruct IH as (_ & _ & _ & _ & HM & HK). destruct Hph as [Hk|[l Hm]]; [apply (HK d i D 0%nat); auto; lia|by apply (HM d i D l 0%nat)]. }
  unfold bind at 1. destruct (eval body m (Loop (S d, i) D) w1) as [[w2 [r|]]|]; [| |done].
  - destruct Hpost as (Hl & He & Hb2 & Ho2 & l & Hm). assert (Hd2 : (d < length (states w2))%nat) by lia.
    destruct (finish_settling fire w2 d i D l Hi Hd2 Hb2 Ho2 Hm) as (w3 & -> & T3 & Hw3 & Hset & _ & Hno). split; [|exact Hno].
    split; [done|]. split; [by rewrite (proj1 T3)|]. split; [intros e Hn; apply (le1_trans w w2); [by apply He|by apply (touches_le1 T3)]|].
    split; [|intros j c Hj Hc; by destruct (Hno j c)].
    destruct Hset as (Hs & c & c' & Hc & _ & [(_ & Hf & _ & Hm' & _) _] & _). split; [done|]. by exists c.
  - destruct Hpost as (Hl & He & Hb2 & Ho2 & Hset & Hblame & Hfiring). split; [|by split]. split; [|split; [done|split; [done|split]]].
    + constructor; [done|]. intros e Hee. destruct (decide (e = d)) as [->|Hn]; [right; by exists i, D|by apply Ho2].
    + destruct Hset as (Hs & c & c' & Hc & _ & [(_ & Hf & _ & Hm' & _) _] & _). split; [done|]. by exists c.
    + intros j c Hj [Hc Hf]. destruct (decide (j = i)) as [->|Hji]; [done|]. assert (j = other i) as -> by (unfold other; lia).
      destruct Hset as (_ & c1 & c2 & _ & Hc2 & _ & (_ & _ & _ & HD & _)). congruence.
Qed.

Lemma eval_step_ok : request_ok (eval body (S m)).
Proof.
  split; [|split; [|split; [|split; [|split]]]].
  - intros f context args Hf. apply (call_safe apply fire step_apply step_fire_plain step_fire m body); done.
  - intros l D w Hl Hw. cbn [eval]. apply outcome_done. apply outcome_bind; [by apply start_plain|].
    intros [] w1 Hw1 Hle. pose proof (plain_list_le _ _ _ Hl Hle) as Hl1. apply outcome_bind; [by apply IH|].
    intros v w2 Hw2 Hle2. apply (finish_plain fire); [apply step_fire_plain|by apply (plain_list_le l w1)|done].
  - intros l D w Hl Hw. cbn [eval]. apply outcome_done. apply (turn_plain apply step_apply); [|done..].
    intros w1 Hl1 Hw1. by apply step_next_plain.
  - intros d i D w Hi Hd Hb Ho Hr. cbn [eval]. pose proof (step_fire_settling d i D w Hi Hd Hb Ho Hr) as H.
    unfold done_value, bind at 1. fold fire. destruct ((start_firing (S d, i) D;;; eval body m (Loop (S d, i) D);;; finish fire (S d, i)) w) as [[w' [a|]]|]; [apply H..|done].
  - intros d i D l n w Hi Hd Hb Ho Hm. cbn [eval]. apply loop_post_done.
    apply (turn_mid apply step_apply step_blame d i D (next (S d, i) D) Hi) with (l := l) (n := n); [|done..].
    intros l' n' w' Hd' Hb' Ho' Hm'. apply step_next. by apply (proj1 (proj2 (proj2 (proj2 (proj2 IH)))) d i D l' n').
  - intros d i D n w Hi Hn Hd Hb Ho Hk. cbn [eval]. apply loop_post_done. by apply (step_loop_kindling d i D n).
Qed.
End Step.

Lemma eval_ok fuel : request_ok (eval body fuel).
Proof. induction fuel as [|m IH]; [repeat split; intros; done|by apply eval_step_ok]. Qed.

Lemma eval_fire_ends fuel d i D w : (i < 2)%nat -> (d < length (states w))%nat -> base w -> others w d -> ready w d i D ->
  match eval body fuel (Fire (S d, i) D) w with Some (w', r) => lights w w' d i D /\ left_firing w' d i r | None => True end.
Proof.
  intros Hi Hd Hb Ho Hr. destruct fuel as [|m]; [done|].
  pose proof (step_fire_settling m (eval_ok m) d i D w Hi Hd Hb Ho Hr) as H. cbn [eval]. unfold done_value, bind at 1.
  destruct ((start_firing (S d, i) D;;; _) w) as [[w' [a|]]|]; [exact H|exact H|done].
Qed.
Lemma execute_safe fuel p : safe (execute body fuel p).
Proof.
  apply run_safe.
  - apply (eval_ok fuel).
  - apply (step_fire_plain fuel), eval_ok.
  - apply (step_fire fuel), eval_ok.
  - done.
Qed.
End Execution.
