(* ===== verification/DeferredProps.v ===== *)
(** * Properties of callback lists and deferreds *)

From Stdlib Require Import ZArith Lia.
From stdpp Require Import base tactics list numbers strings gmap.
From S2P Require Import Prelude JsValue ValidPage ValidRules Deferred DeferredFacts DeferredFire.
Local Open Scope Z_scope.
Local Open Scope deferred_scope.

Section Pages.
Context {L : Library} `{!LibraryCode L} {SL : SafeLibrary}.

(** ** What handlers and scripts, one after the other, can lead to *)

Inductive reached (body : nat -> value -> list value -> prog) : world -> Prop :=
  | Reached0 : reached body world0
  | ReachedStep w fuel p w' r : reached body w -> execute body fuel p w = Some (w', r) -> reached body w'.

Lemma world0_inv : Inv world0.
Proof. constructor; [split; [intros l c fs _ Hc; done|intros d i _; repeat split]|cbn; lia]. Qed.
Lemma execute_inv body fuel p w w' r : Inv w -> execute body fuel p w = Some (w', r) -> Inv w' /\ le (T := threw body) w w'.
Proof. intros Hw E. pose proof (execute_safe body fuel p w Hw) as H. by rewrite E in H. Qed.
Lemma reached_inv body w : reached body w -> Inv w.
Proof. induction 1 as [|w fuel p w' r _ IH E]; [apply world0_inv|]. by apply (execute_inv body fuel p w w' r). Qed.

Definition is_firing (w : world) (l : lid) : bool := match lists w !! l with Some c => firing c | None => false end.
Lemma is_firing_at w d i : is_firing w (S d, i) = true <-> exists c, firing_at w d i c.
Proof.
  unfold is_firing, firing_at, dlist. destruct (lists w !! (S d, i)) as [c|]; [|by split; [|intros (c & H & _)]].
  split; [by exists c|]. by intros (c' & [= <-] & H).
Qed.
(** Between two scripts a list is firing only where a callback threw. *)
Lemma reached_stopped body w d i c : reached body w -> (i < 2)%nat -> firing_at w d i c -> threw body (S d, i) (called (S d, i) w).
Proof.
  intros H Hi. revert c. induction H as [|w fuel p w' r Hw IH E]; intros c Hc; [destruct Hc as [Hc _]; discriminate Hc|].
  destruct (execute_inv _ _ _ _ _ _ (reached_inv _ _ Hw) E) as [_ [_ Hle]]. destruct (Hle d) as (_ & Hstays & Hstop).
  destruct (Hstop i c Hi Hc) as [[c0 Hc0]|Hb]; [|exact Hb]. destruct (Hstays i c0 Hi Hc0) as (_ & _ & _ & ->). by apply (IH c0).
Qed.

(** C28. Whatever the functions of a page do - add callbacks, fire again, throw - each deferred
    settles at most once: while it is pending none of its callbacks has been called; then
    only those of one kind are, all with the same context and arguments, each once and in
    the order in which they were added, and none is left out unless the last one that was
    called throws when it is called so. *)
Theorem settles_once body w d : reached body w -> (d < length (states w))%nat ->
  (states w !! d = Some (u "pending") /\ called (S d, 0%nat) w = [] /\ called (S d, 1%nat) w = []) \/
  exists i D, (i < 2)%nat /\ states w !! d = Some (settled_name i) /\ called (S d, (1 - i)%nat) w = [] /\
    Forall (fun p => p.2 = D) (called (S d, i) w) /\
    exists rest, added (S d, i) w = map fst (called (S d, i) w) ++ rest /\ (rest <> [] -> threw body (S d, i) (called (S d, i) w)).
Proof.
  intros Hreach Hd. pose proof (reached_inv _ _ Hreach) as Hw. destruct (inv_all _ Hw d Hd) as [(Hs & c0 & c1 & _ & _ & F0 & F1)|(i & D & Hi & Hs & c & c' & Hc & Hc' & [HL HP] & HD)].
  - left. split; [done|]. split; [apply F0|apply F1].
  - right. exists i, D. split; [done|]. split; [done|]. split; [apply HD|]. split; [apply HL|].
    destruct HP as [(Hf & Hcb & _ & Ha)|(l & n & (Hf & _ & _ & _ & _ & old & Ha & Hca) & _)].
    + exists []. by split.
    + exists (drop (S n) l). rewrite Ha, Hca, <- app_assoc, take_drop. split; [done|]. intros _. by apply (reached_stopped body w d i c).
Qed.
Lemma reached_by body fuel p : match execute body fuel p world0 with Some (w, _) => reached body w | None => True end.
Proof.
  destruct (execute body fuel p world0) as [[w r]|] eqn:E; [|done]. by apply (ReachedStep body world0 fuel p w r (Reached0 body)).
Qed.

(** A settled deferred stays as it is, with its context and its arguments. *)
Theorem stays_settled body w fuel p w' r d i c D : reached body w -> execute body fuel p w = Some (w', r) -> (i < 2)%nat ->
  states w !! d = Some (settled_name i) -> lists w !! (S d, i) = Some c -> memory c = Some D ->
  states w' !! d = Some (settled_name i) /\
  exists c', lists w' !! (S d, i) = Some c' /\ memory c' = Some D /\ called (S d, (1 - i)%nat) w' = [].
Proof.
  intros Hw%reached_inv E Hi Hs Hc Hm. destruct (execute_inv _ _ _ _ _ _ Hw E) as [Hw' [Hl Hle]].
  assert (Hd : (d < length (states w))%nat) by (by eapply lookup_lt_Some).
  assert (Hv : settled_view w d i D).
  { destruct (inv_all _ Hw d Hd) as [(Hp & _)|(j & D' & Hj & Hs' & c2 & c3 & Hc2 & _ & [HL _] & _)].
    - rewrite Hs in Hp. injection Hp as Hp. symmetry in Hp. by destruct (pending_not_settled i).
    - rewrite Hs in Hs'. injection Hs' as Hs'. apply settled_name_inj in Hs' as <-; [|done..]. split; [done|].
      exists c. split; [done|]. split; [done|]. unfold dlist in Hc2. rewrite Hc in Hc2. injection Hc2 as <-. apply HL. }
  destruct (proj1 (Hle d) i D Hi Hv) as (Hs' & c' & Hc' & Hm' & _). split; [done|]. exists c'. split; [done|]. split; [done|].
  destruct (inv_all _ Hw' d ltac:(lia)) as [(Hp & _)|(j & D' & Hj & Hs2 & c2 & c3 & _ & _ & _ & HD)].
  - rewrite Hs' in Hp. injection Hp as Hp. symmetry in Hp. by destruct (pending_not_settled i).
  - rewrite Hs' in Hs2. injection Hs2 as Hs2. apply settled_name_inj in Hs2 as <-; [|done..]. apply HD.
Qed.

(** ** What an action or a listener leaves of the list it is about *)

Lemma pending_list w d i : (i < 2)%nat -> is_pending w d ->
  exists c fs, lists w !! (S d, i) = Some c /\ cbs c = Some fs /\ fired c = false /\ firing c = false /\ memory c = None.
Proof.
  intros Hi (_ & c0 & c1 & H0 & H1 & F0 & F1). destruct i as [|[|]]; [exists c0|exists c1|lia].
  - destruct F0 as (_ & Hf & Hm & Hd & _ & _ & _ & us & Hc & _). by exists (own_callbacks d 0 ++ us).
  - destruct F1 as (_ & Hf & Hm & Hd & _ & _ & _ & us & Hc & _). by exists (own_callbacks d 1 ++ us).
Qed.

Section Ends.
Context (body : nat -> value -> list value -> prog) (fuel : nat).
#[local] Instance ends_blames : Blames := threw body.
Let fire (l : lid) (D : data) : M unit := eval body fuel (Fire l D);;; ret tt.
Definition leaves {A} (w' : world) (d i : nat) (r : result A) : Prop :=
  match r with
  | Ok _ => is_firing w' (S d, i) = false
  | Thrown => is_firing w' (S d, i) = true /\ threw body (S d, i) (called (S d, i) w')
  end.

Lemma fire_leaves d i D w w' r : base w -> others w d -> (i < 2)%nat -> (d < length (states w))%nat -> ready w d i D ->
  fire (S d, i) D w = Some (w', r) -> leaves w' d i r.
Proof.
  intros Hb Ho Hi Hd Hr E. pose proof (eval_fire_ends body fuel d i D w Hi Hd Hb Ho Hr) as H.
  unfold fire, bind in E. destruct (eval body fuel (Fire (S d, i) D) w) as [[w1 [v|]]|]; [| |done]; injection E as <- <-; destruct H as [_ H].
  - cbn. destruct (is_firing w1 (S d, i)) eqn:Ef; [|done]. apply is_firing_at in Ef as [c Hc]. by destruct (H i c).
  - split; [|apply H]. apply is_firing_at, H.
Qed.
Lemma act_leaves d i context args w w' r : Inv w -> (i < 2)%nat -> (d < length (states w))%nat -> is_firing w (S d, i) = false ->
  fireWith fire (S d, i) context args w = Some (w', r) -> leaves w' d i r.
Proof.
  intros Hw Hi Hd Hf E. unfold fireWith in E. destruct (lists w !! (S d, i)) as [c|] eqn:Ec;
    [rewrite (bind_get_list _ _ _ _ Ec) in E|rewrite bind_no_list in E by done; by injection E as <- <-].
  destruct (cbs c) as [fs|] eqn:Hcb; [|by injection E as <- <-]. destruct (inv_all _ Hw d Hd) as [Hp|(j & D & Hj & Hset)].
  - destruct (pending_list w d i Hi Hp) as (c2 & fs2 & Hc2 & _ & Hfd & Hfi & _). rewrite Ec in Hc2. injection Hc2 as <-.
    rewrite Hfd, Hfi in E. 
    apply (fire_leaves d i (context, args) w); [apply Hw|intros e He _; by apply Hw|done|done|by left|done].
  - destruct (settled_cases w d i j D c Hw Hi Hj Hset Ec) as [(_ & Hfd & Hk)|Hn]; [|congruence]. rewrite Hfd, Hk in E. by injection E as <- <-.
Qed.
Lemma listen_leaves d i fs w w' r : Inv w -> (i < 2)%nat -> (d < length (states w))%nat -> is_firing w (S d, i) = false ->
  Forall (fun f => plain f = true) fs -> add_to fire (S d, i) fs w = Some (w', r) -> leaves w' d i r.
Proof.
  intros Hw Hi Hd Hf Hfs E. destruct (lists w !! (S d, i)) as [c|] eqn:Ec;
    [|unfold add_to in E; rewrite bind_no_list in E by done; by injection E as <- <-].
  assert (Hfc : firing c = false) by (unfold is_firing in Hf; by rewrite Ec in Hf).
  destruct (inv_all _ Hw d Hd) as [Hp|(j & D & Hj & Hset)].
  - destruct (pending_list w d i Hi Hp) as (c2 & fs2 & Hc2 & Hcb & _ & _ & Hm). rewrite Ec in Hc2. injection Hc2 as <-.
    unfold add_to in E. rewrite (bind_get_list _ _ _ _ Ec), Hcb in E. rewrite bind_record in E. cbv zeta in E.
    change (firing (set_cbs _ c)) with (firing c) in E. change (memory (set_cbs _ c)) with (memory c) in E. rewrite Hfc, Hm, put_eq in E.
    injection E as <- <-. unfold leaves, is_firing, with_list. cbn [lists]. by rewrite lookup_insert_eq.
  - destruct (settled_cases w d i j D c Hw Hi Hj Hset Ec) as [[<- _]|Hn].
    + destruct (settled_lit _ _ _ _ Hset) as [Hl|(c2 & l & n & Hc2 & _ & (HB & _) & _)].
      * destruct (add_lit_fires fire d i D fs w c Hw Hi Hd Hfs Hl Ec) as (w1 & E1 & T0 & Hr). rewrite E1 in E.
        apply (fire_leaves d i D w1); [apply (touches_base Hi Hd T0), Hw| |done|by rewrite (proj1 T0)|done|done].
        apply (touches_others T0). intros e He _. by apply Hw.
      * unfold dlist in Hc2. congruence.
    + unfold add_to in E. rewrite (bind_get_list _ _ _ _ Ec), Hn in E. by injection E as <- <-.
Qed.
End Ends.

(** C30. A callback that throws leaves its list as if it were still being fired: where settling a
    deferred, or adding callbacks to one that is settled, throws, the callback called last
    throws so and the list is left firing; it is not left so where the call returns. From
    then on no callback of the list is called any more, those that were added before
    included. *)
Theorem thrown_blocks body w fuel d i w' : reached body w -> (i < 2)%nat -> (d < length (states w))%nat ->
  (forall o r, (exists context args, o = ActWith d i context args) \/ (exists args, o = Listen d i args) ->
    is_firing w (S d, i) = false -> execute body fuel (Do o Return) w = Some (w', r) ->
    match r with
    | Ok _ => is_firing w' (S d, i) = false
    | Thrown => is_firing w' (S d, i) = true /\ threw body (S d, i) (called (S d, i) w')
    end) /\
  (forall p r, is_firing w (S d, i) = true -> execute body fuel p w = Some (w', r) ->
    is_firing w' (S d, i) = true /\ called (S d, i) w' = called (S d, i) w).
Proof.
  intros Hw%reached_inv Hi Hd. split.
  - intros o r Ho Hf E. unfold execute in E. cbn [run] in E.
    destruct Ho as [(context & args & ->)|(args & ->)]; cbn [exec] in E; unfold done_value, bind in E.
    + destruct (fireWith _ _ _ _ w) as [[w1 r1]|] eqn:E1; [|done]. apply (act_leaves body fuel d i context args w) in E1; [|done..].
      by destruct r1; injection E as <- <-.
    + destruct (add_to _ _ _ w) as [[w1 r1]|] eqn:E1; [|done].
      apply (listen_leaves body fuel d i (flat_map functions args) w) in E1; [|done..|apply functions_plain].
      by destruct r1; injection E as <- <-.
  - intros p r Hf E. destruct (execute_inv _ _ _ _ _ _ Hw E) as [_ [_ Hle]]. apply is_firing_at in Hf as [c Hc].
    destruct (Hle d) as (_ & Hstays & _). destruct (Hstays i c Hi Hc) as (c' & Hc' & _ & Hca). split; [|done]. apply is_firing_at. by exists c'.
Qed.

Lemma fire_settles body fuel d i D w w' : Inv w -> (i < 2)%nat -> (d < length (states w))%nat -> is_pending w d ->
  (eval body fuel (Fire (S d, i) D);;; ret tt) w = Some (w', Ok tt) ->
  states w' !! d = Some (settled_name i) /\ Forall (fun p => p.2 = D) (called (S d, i) w') /\ added (S d, i) w' = map fst (called (S d, i) w').
Proof.
  intros Hw Hi Hd Hp E. assert (Ho : others w d) by (intros e He _; by apply Hw).
  pose proof (eval_fire_ends body fuel d i D w Hi Hd (inv_base _ Hw) Ho (or_introl Hp)) as H.
  unfold bind in E. destruct (eval body fuel (Fire (S d, i) D) w) as [[w1 [v|]]|]; [|done|done]. injection E as <-.
  destruct H as [(Hw1 & Hlen & _ & (Hs & c & Hc & Hm & _) & _) Hno]. split; [done|].
  destruct (inv_all _ Hw1 d ltac:(lia)) as [(Hq & _)|(j & D' & Hj & Hs' & c2 & c3 & Hc2 & _ & [HL HW] & _)].
  { rewrite Hs in Hq. injection Hq as Hq. symmetry in Hq. by destruct (pending_not_settled i). }
  rewrite Hs in Hs'. injection Hs' as Hs'. apply settled_name_inj in Hs' as <-; [|done..].
  assert (c2 = c) as -> by congruence. destruct HL as (_ & _ & _ & Hm' & _ & HF). assert (D' = D) as -> by congruence. split; [done|].
  destruct HW as [(_ & _ & _ & Ha)|(l & n & (Hf & _) & _)]; [by rewrite Ha, app_nil_r|]. by destruct (Hno i c Hi).
Qed.

(** ** Deferreds whose functions only return *)

Definition quiet (body : nat -> value -> list value -> prog) (f : cb) : Prop :=
  exists g, f = Fn (User g) /\ forall context args, exists v, body g context args = Return v.

Section Total.
Context (body : nat -> value -> list value -> prog).
#[local] Instance total_blames : Blames := threw body.

Lemma loop_total d i D l m : (i < 2)%nat -> forall k n w, (k + n = length l)%nat -> (k + 2 <= m)%nat ->
  (d < length (states w))%nat -> base w -> others w d -> mid w d i D l n -> Forall (quiet body) (drop n l) ->
  exists w', eval body m (Loop (S d, i) D) w = Some (w', Ok undef) /\ touches d i w w' /\
    added (S d, i) w' = added (S d, i) w /\ mid w' d i D l (length l).
Proof.
  intros Hi. revert m. intros m k. revert m. induction k as [|k IH]; intros m n w Hk Hm Hd Hb Ho Hmid Hq.
  all: destruct m as [|m]; [lia|]; cbn [eval]; unfold done_value; pose proof Hmid as (Hs & c & c' & [Hc HL] & Hc' & HB & HI & HD);
    pose proof HB as (Hf & Hcb & Hlen & _).
  - exists w. assert (n = length l) as -> by lia. split; [|split; [by split|done]].
    unfold bind at 1, turn. rewrite (bind_get_list _ _ _ _ Hc), Hcb, HI, Hlen. by rewrite (proj2 (Z.ltb_ge _ _)) by lia.
  - destruct (l !! n) as [f|] eqn:Ef; [|apply lookup_ge_None in Ef; lia].
    rewrite (drop_S _ f) in Hq by done. inversion Hq as [|? ? (g & -> & Hg) Hq']; subst.
    destruct (mid_call w d i D l n (Fn (User g)) Hi Hd Hb Ho Hmid Ef eq_refl) as (Hw1 & He1 & Hset1 & c1 & HL1 & HB1 & HI1).
    set (w1 := with_trace _ w) in *.
    assert (E : c1 = c) by (destruct HL1 as [HL1 _]; change (dlist w1 d i) with (dlist w d i) in HL1; congruence). subst c1.
    destruct m as [|m]; [lia|]. destruct (Hg (this_of D.1) D.2) as [v Hv].
    set (next := eval body (S m) (Loop (S d, i) D);;; ret tt).
    unfold bind at 1. rewrite (turn_step _ _ D next w c l n _ v w1 Hc Hcb HI Hlen Ef); [|by destruct HL as [-> _]|cbn; by rewrite Hv|exact Hc].
    set (w3 := with_list _ _ w1). pose proof (touches_put d i (set_firingIndex (Z.of_nat n + 1) c) w1) as T3. fold w3 in T3.
    assert (T1 : touches d i w w1).
    { split; [done|]. intros l' Hl'. split; [done|]. unfold w1. rewrite added_trace, called_trace. cbn.
      rewrite decide_False by congruence. by rewrite !app_nil_r. }
    pose proof (touches_trans _ _ _ _ _ T1 T3) as T.
    destruct (IH (S m) (S n) w3) as (w' & E' & T' & Ha' & Hmid'); [lia|lia|done|by apply (touches_base Hi Hd T)|by apply (touches_others T)|by apply advance|done|].
    exists w'. unfold next, bind. rewrite E'. split; [done|]. split; [by apply (touches_trans _ _ _ w3)|]. split; [|done].
    rewrite Ha'. apply (record_call (S d, i)).
Qed.

Lemma kindling_total d i D us m : (i < 2)%nat -> (length us + 10 <= m)%nat -> forall k n w, (k + n = 3)%nat -> (n < 3)%nat ->
  (d < length (states w))%nat -> base w -> others w d -> kindling w d i D n ->
  added (S d, i) w = own_callbacks d i ++ us -> Forall (quiet body) us ->
  exists w', eval body (k + m) (Loop (S d, i) D) w = Some (w', Ok undef) /\ length (states w') = length (states w) /\
    base w' /\ others w' d /\ added (S d, i) w' = own_callbacks d i ++ us /\ mid w' d i D (own_callbacks d i ++ us) (length (own_callbacks d i ++ us)).
Proof.
  intros Hi Hm k. induction k as [|k IH]; intros n w Hk Hn Hd Hb Ho Hkin Ha Hq; [lia|].
  cbn [Nat.add eval]. unfold done_value.
  set (apply := fun f context args => eval body (k + m) (Call f context args)).
  set (next := eval body (k + m) (Loop (S d, i) D);;; ret tt).
  assert (Hown : forall f context args w, plain f = false -> apply f context args w = own_effect f w).
  { intros f context args w' Hf. unfold apply. destruct (k + m)%nat as [|m'] eqn:Em; [lia|]. by destruct f. }
  destruct (turn_kindling apply (fun f c a w H => or_intror (Hown f c a w H)) w d i D n next Hi Hn Hd Hb Hkin)
    as [[(f & context & args & w1 & Hf & HN) _]|(w' & E & R & Hkin' & Ha')].
  { rewrite (Hown _ _ _ _ Hf) in HN. by destruct f. }
  unfold bind at 1. rewrite E. assert (Hd' : (d < length (states w'))%nat) by (by rewrite (proj1 R)).
  pose proof (around_base Hd R Hb) as Hb'. pose proof (around_others R Ho) as Ho'. rewrite Ha in Ha'.
  enough (H : exists w2, eval body (k + m) (Loop (S d, i) D) w' = Some (w2, Ok undef) /\ (length (states w2) = length (states w'))%nat /\ base w2 /\ others w2 d /\ added (S d, i) w2 = own_callbacks d i ++ us /\ mid w2 d i D (own_callbacks d i ++ us) (length (own_callbacks d i ++ us))).
  { destruct H as (w2 & E2 & Hl & H). exists w2. unfold next, bind. rewrite E2. split; [done|]. split; [by rewrite Hl, (proj1 R)|exact H]. }
  destruct (decide (n = 2%nat)) as [->|Hn2]; [|apply (IH (S n) w'); auto; lia].
  assert (k = 0%nat) as -> by lia. pose proof Hkin' as (_ & _ & _ & us' & _ & _ & _ & _ & _ & _ & _ & _ & _ & Ha2 & _).
  rewrite Ha' in Ha2. apply app_inv_head in Ha2 as <-.
  destruct (kindled _ _ _ _ Hkin') as (us2 & Hmid). assert (us2 = us) as ->.
  { destruct Hkin' as (_ & c & c' & us3 & [Hc _] & _ & _ & _ & Hcb & _ & _ & _ & _ & Ha3 & _).
    destruct Hmid as (_ & c2 & _ & [Hc2 _] & _ & (_ & Hcb2 & _) & _). rewrite Ha' in Ha3. apply app_inv_head in Ha3 as <-.
    rewrite Hc in Hc2. injection Hc2 as <-. rewrite Hcb in Hcb2. injection Hcb2 as E2. congruence. }
  destruct (loop_total d i D (own_callbacks d i ++ us) m Hi (length us) 3 w') as (w2 & E2 & T & Ha2 & Hmid2); try done.
  - rewrite length_app. cbn. lia.
  - lia.
  - exists w2. split; [done|]. split; [by rewrite (proj1 T)|]. split; [by apply (touches_base Hi Hd' T)|].
    split; [by apply (touches_others T)|]. by rewrite Ha2.
Qed.

(** Resolving or rejecting a pending deferred whose functions only return calls all of them. *)
Lemma fire_total d i D us m w : (i < 2)%nat -> (length us + 10 <= m)%nat -> Inv w -> (d < length (states w))%nat ->
  is_pending w d -> added (S d, i) w = own_callbacks d i ++ us -> Forall (quiet body) us ->
  exists w', eval body (S (3 + m)) (Fire (S d, i) D) w = Some (w', Ok undef) /\ Inv w' /\ is_settled w' d i D /\ map fst (called (S d, i) w') = own_callbacks d i ++ us.
Proof.
  intros Hi Hm Hw Hd Hp Ha Hq.
  assert (Ho : others w d) by (intros e He _; by apply Hw).
  destruct (start_settling w d i D Hi Hd (inv_base _ Hw) (or_introl Hp)) as (w1 & E1 & T & Hph).
  assert (Ha1 : added (S d, i) w1 = added (S d, i) w /\ states w1 = states w).
  { destruct Hp as (_ & c0 & c1 & H0 & H1 & F0 & F1). unfold start_firing in E1.
    assert (H : exists c fs, lists w !! (S d, i) = Some c /\ cbs c = Some fs).
    { destruct i as [|[|]]; [destruct F0 as (_ & _ & _ & _ & _ & _ & _ & us0 & Hc & _); by exists c0, (own_callbacks d 0 ++ us0)|
                             destruct F1 as (_ & _ & _ & _ & _ & _ & _ & us0 & Hc & _); by exists c1, (own_callbacks d 1 ++ us0)|lia]. }
    destruct H as (c & fs & Hc & Hfs). rewrite (bind_get_list _ _ _ _ Hc), Hfs, put_eq in E1. by injection E1 as <-. }
  destruct Ha1 as [Ha1 Hs1]. assert (Hd1 : (d < length (states w1))%nat) by (by rewrite Hs1).
  assert (Hk : kindling w1 d i D 0).
  { destruct Hph as [|[l (Hs & _)]]; [done|]. rewrite Hs1 in Hs. destruct Hp as (Hp & _). rewrite Hp in Hs.
    injection Hs as Hs. by destruct (pending_not_settled i). }
  destruct (kindling_total d i D us m Hi Hm 3 0 w1) as (w2 & E2 & Hl2 & Hb2 & Ho2 & Ha2 & Hmid); try done; try lia.
  - by apply (touches_base Hi Hd T), Hw.
  - by apply (touches_others T).
  - by rewrite Ha1.
  - assert (Hd2 : (d < length (states w2))%nat) by lia.
    set (fire := fun l D => eval body (3 + m) (Fire l D);;; ret tt).
    destruct (finish_settling fire w2 d i D _ Hi Hd2 Hb2 Ho2 Hmid) as (w3 & E3 & _ & Hw3 & Hset & Ht & _).
    exists w3. cbn [eval]. fold fire. unfold done_value. unfold bind at 1. unfold bind at 1. rewrite E1.
    unfold bind at 1. rewrite E2, E3. split; [done|]. split; [done|]. split; [done|].
    unfold called. rewrite Ht. fold (called (S d, i) w2).
    destruct Hmid as (_ & _ & _ & _ & _ & (_ & _ & _ & _ & _ & old & Had & Hca) & _).
    rewrite Hca, firstn_all. rewrite Ha2 in Had. apply (f_equal length) in Had as Hlen. rewrite (length_app old) in Hlen.
    destruct old; [done|cbn [length] in Hlen; lia].
Qed.
End Total.

Lemma called_const (D : data) (l : list (cb * data)) : Forall (fun p => p.2 = D) l -> l = map (fun f => (f, D)) (map fst l).
Proof. induction 1 as [|[f D'] l H _ IH]; [done|]. cbn in *. by rewrite <- IH, H. Qed.
(** C29. Resolving or rejecting a pending deferred whose callbacks do nothing but return a value
    ends, whatever their number: the deferred is settled, and its own callbacks and those
    that were added have been called once each, in the order in which they were added, with
    the context and the arguments of the call. Whatever the callbacks do, if it ends and
    throws nothing, the deferred is settled and all that were added up to its end have been
    called so. *)
Theorem settling_delivers body w d i context args fuel : reached body w -> (i < 2)%nat -> states w !! d = Some (u "pending") ->
  (forall us, added (S d, i) w = own_callbacks d i ++ us -> Forall (quiet body) us -> (length us + 14 <= fuel)%nat ->
    exists w', execute body fuel (Do (ActWith d i context args) Return) w = Some (w', Ok (DeferredRef d)) /\
      states w' !! d = Some (settled_name i) /\
      called (S d, i) w' = map (fun f => (f, (context, args))) (own_callbacks d i ++ us)) /\
  (forall w' v, execute body fuel (Do (ActWith d i context args) Return) w = Some (w', Ok v) ->
    states w' !! d = Some (settled_name i) /\ called (S d, i) w' = map (fun f => (f, (context, args))) (added (S d, i) w')).
Proof.
  intros Hreach Hi Hs. pose proof (reached_inv _ _ Hreach) as Hw. assert (Hd : (d < length (states w))%nat) by (by eapply lookup_lt_Some).
  assert (Hp : is_pending w d).
  { destruct (inv_all _ Hw d Hd) as [|(j & D & Hj & Hs' & _)]; [done|]. rewrite Hs in Hs'. injection Hs' as Hs'.
    symmetry in Hs'. by destruct (pending_not_settled j). }
  destruct (pending_list w d i Hi Hp) as (c & fs & Hcl & Hcb & Hfd & Hfi & _). split.
  - intros us Ha Hq Hfuel. replace fuel with (S (3 + (fuel - 4))) by lia.
    destruct (fire_total body d i (context, args) us (fuel - 4) w Hi ltac:(lia) Hw Hd Hp Ha Hq) as (w' & E & _ & Hset & Hc).
    exists w'. split.
    + unfold execute, run, exec, done_value, fireWith. unfold bind at 1. unfold bind at 1.
      rewrite (bind_get_list _ _ _ _ Hcl), Hcb, Hfd, Hfi. cbn [negb orb]. unfold bind at 1. by rewrite E.
    + destruct Hset as (Hs' & c1 & _ & _ & _ & [(_ & _ & _ & _ & _ & HF) _] & _). split; [done|].
      rewrite (called_const _ _ HF), Hc. done.
  - intros w' v E. unfold execute in E. cbn [run exec] in E. unfold done_value, bind in E.
    destruct (fireWith _ _ _ _ w) as [[w1 [[]|]]|] eqn:E1; [|done|done]. injection E as <- <-.
    unfold fireWith in E1. rewrite (bind_get_list _ _ _ _ Hcl), Hcb, Hfd, Hfi in E1. cbn [negb orb] in E1.
    destruct (fire_settles body fuel d i (context, args) w w1 Hw Hi Hd Hp E1) as (Hs' & HF & Ha). split; [done|].
    rewrite Ha. exact (called_const _ _ HF).
Qed.

End Pages.

(** ** Removing callbacks *)

Lemma inArray_some f l i j : inArray f l i = Some j -> f ∉ take i l -> l !! j = Some f /\ f ∉ take j l.
Proof.
  revert i j. induction l as [|g l IH]; intros i j H Hn; [done|]. cbn in H. destruct i as [|i].
  - case_decide as E; [injection H as <-; subst; split; [done|apply not_elem_of_nil]|].
    destruct (inArray f l 0) as [k|] eqn:Ek; [|done]. injection H as <-.
    destruct (IH 0%nat k Ek ltac:(apply not_elem_of_nil)). split; [done|]. cbn. by apply not_elem_of_cons.
  - destruct (inArray f l i) as [k|] eqn:Ek; [|done]. injection H as <-. cbn in Hn. apply not_elem_of_cons in Hn as [Hn1 Hn2].
    destruct (IH i k Ek Hn2). split; [done|]. cbn. by apply not_elem_of_cons.
Qed.
Lemma inArray_none f l i : inArray f l i = None -> f ∉ take i l -> f ∉ l.
Proof.
  revert i. induction l as [|g l IH]; intros i H Hn; [apply not_elem_of_nil|]. cbn in H. apply not_elem_of_cons. destruct i as [|i].
  - case_decide as E; [done|]. destruct (inArray f l 0) eqn:Ek; [done|]. split; [congruence|].
    by apply (IH 0%nat Ek), not_elem_of_nil.
  - destruct (inArray f l i) eqn:Ek; [done|]. cbn in Hn. apply not_elem_of_cons in Hn as [Hn1 Hn2]. split; [done|by apply (IH i)].
Qed.

Definition without (fs l : list cb) : list cb := filter (fun g => g ∉ fs) l.
Lemma filter_delete (f : cb) (l : list cb) (i : nat) : l !! i = Some f -> filter (fun g => g ∉ [f]) (delete i l) = filter (fun g => g ∉ [f]) l.
Proof.
  intros H. rewrite delete_take_drop. rewrite <- (take_drop_middle l i f H) at 3. rewrite !filter_app. f_equal.
  rewrite filter_cons_False; [done|]. rewrite list_elem_of_singleton. tauto.
Qed.
Lemma without_none (f : cb) l : f ∉ l -> without [f] l = l.
Proof.
  intros H. unfold without. induction l as [|g l IH]; [done|]. apply not_elem_of_cons in H as [H1 H2].
  rewrite filter_cons_True, IH; [done..|]. rewrite list_elem_of_singleton. congruence.
Qed.
Lemma drop_delete_lt {A} (l : list A) (i k : nat) : (i < k)%nat -> (i < length l)%nat -> drop (k - 1)%nat (delete i l) = drop k l.
Proof.
  intros H Hl. rewrite delete_take_drop, drop_app, length_take, (drop_ge (take i l)) by (rewrite length_take; lia).
  rewrite drop_drop. cbn [app]. f_equal. lia.
Qed.
Lemma drop_delete_ge {A} (l : list A) (i k : nat) : (k <= i)%nat -> drop k (delete i l) = delete (i - k)%nat (drop k l).
Proof.
  revert l i. induction k as [|k IH]; intros l i H; [by rewrite !drop_0, Nat.sub_0_r|].
  destruct l as [|a l]; [done|]. destruct i as [|i]; [lia|]. cbn. apply IH. lia.
Qed.

(** The ends of a firing fit its list. *)
Definition ends_fit (l : list cb) (len idx : Z) : Prop := len = Z.of_nat (length l) /\ -1 <= idx < len.
Definition to_call (l : list cb) (idx : Z) : list cb := drop (Z.to_nat (idx + 1)) l.
Lemma remove_loop_spec f fuel : forall firing index l len idx, f ∉ take index l -> (length l <= fuel)%nat ->
  exists len' idx', remove_loop fuel f firing index l len idx = (without [f] l, len', idx') /\
    if firing then ends_fit l len idx -> ends_fit (without [f] l) len' idx' /\ to_call (without [f] l) idx' = without [f] (to_call l idx)
    else len' = len /\ idx' = idx.
Proof.
  assert (Hend : forall (firing : bool) l len idx, f ∉ l -> exists len' idx', (l, len, idx) = (without [f] l, len', idx') /\
    if firing then ends_fit l len idx -> ends_fit (without [f] l) len' idx' /\ to_call (without [f] l) idx' = without [f] (to_call l idx)
    else len' = len /\ idx' = idx).
  { intros firing l len idx Hf. exists len, idx. rewrite (without_none f l Hf). split; [done|]. destruct firing; [|done].
    intros H. split; [done|]. unfold to_call. rewrite without_none; [done|]. intros Hin. apply Hf.
    rewrite <- (take_drop (Z.to_nat (idx + 1)) l). apply elem_of_app. by right. }
  induction fuel as [|fuel IH]; intros firing index l len idx Hn Hl.
  - destruct l; [|cbn in Hl; lia]. cbn. apply Hend. by apply not_elem_of_nil.
  - cbn [remove_loop]. destruct (inArray f l index) as [i|] eqn:Ei; [|apply Hend; by apply (inArray_none f l index)].
    destruct (inArray_some f l index i Ei Hn) as [Hi Hb]. pose proof (lookup_lt_Some _ _ _ Hi) as Hlt.
    assert (Hdel : length (delete i l) = (length l - 1)%nat) by (by apply length_delete).
    destruct (IH firing i (delete i l) (if firing && (Z.of_nat i <=? len) then len - 1 else len)
      (if firing && (Z.of_nat i <=? idx) then idx - 1 else idx)) as (len' & idx' & E & H).
    + rewrite delete_take_drop, take_app_le by (rewrite length_take; lia). by rewrite take_take, Nat.min_id.
    + lia.
    + unfold without in *. rewrite (filter_delete f l i Hi) in E. exists len', idx'. split; [done|].
      rewrite (filter_delete f l i Hi) in H. destruct firing; [|done]. cbn [andb] in H. intros [Hlen Hidx]. subst len.
      rewrite (proj2 (Z.leb_le (Z.of_nat i) (Z.of_nat (length l)))) in H by lia. destruct (Z.leb_spec (Z.of_nat i) idx) as [Hle|Hgt].
      * destruct H as [H1 ->]; [unfold ends_fit; rewrite Hdel; lia|]. split; [done|].
        unfold to_call. rewrite <- (drop_delete_lt l i (Z.to_nat (idx + 1))) by lia. do 2 f_equal. lia.
      * destruct H as [H1 ->]; [unfold ends_fit; rewrite Hdel; lia|]. split; [done|]. unfold to_call.
        rewrite drop_delete_ge by lia. apply filter_delete. rewrite lookup_drop, <- Hi. f_equal. lia.
Qed.

Lemma without_cons f fs l : without fs (without [f] l) = without (f :: fs) l.
Proof.
  unfold without. rewrite list_filter_filter. apply list_filter_iff. intros g.
  rewrite !elem_of_cons, elem_of_nil. tauto.
Qed.
Lemma without_nil l : without [] l = l.
Proof. induction l as [|g l IH]; [done|]. unfold without in *. rewrite filter_cons_True by apply not_elem_of_nil. by rewrite IH. Qed.

(** Functions removed from a list, twice there or not, are all gone and the others stay in
    order; when it happens inside a firing, exactly the callbacks that were still to be
    called, less the removed ones, remain to be called, and the end of the loop is the end of
    the list. *)
Theorem remove_keeps_the_rest fs c l : cbs c = Some l ->
  exists len idx, remove fs c = set_cbs (Some (without fs l)) (set_firingLength len (set_firingIndex idx c)) /\
    if firing c then ends_fit l (firingLength c) (firingIndex c) ->
      ends_fit (without fs l) len idx /\ to_call (without fs l) idx = without fs (to_call l (firingIndex c))
    else len = firingLength c /\ idx = firingIndex c.
Proof.
  unfold remove. intros Hc. rewrite Hc. revert c l Hc. induction fs as [|f fs IH]; intros c l Hc.
  - exists (firingLength c), (firingIndex c). rewrite !without_nil. split; [destruct c; cbn in *; by subst|].
    destruct (firing c); [|done]. intros H. split; [done|]. done.
  - cbn [fold_left]. unfold remove_one at 2. rewrite Hc.
    destruct (remove_loop_spec f (length l) (firing c) 0 l (firingLength c) (firingIndex c)) as (len & idx & -> & H);
      [apply not_elem_of_nil|lia|].
    destruct (IH (set_cbs (Some (without [f] l)) (set_firingLength len (set_firingIndex idx c))) (without [f] l) eq_refl)
      as (len' & idx' & -> & H'). cbn [firing firingLength firingIndex set_cbs set_firingLength set_firingIndex] in H'.
    exists len', idx'. rewrite <- !(without_cons f fs). split; [done|]. destruct (firing c); [|destruct H, H'; split; congruence].
    intros Hfit. destruct (H Hfit) as [Hfit1 E1]. destruct (H' Hfit1) as [Hfit2 E2]. split; [done|].
    by rewrite E2, E1.
Qed.
Lemma remove_keeps_the_rest_witness :
  let f n := Fn (User n) in
  let c := CList (createOptions []) true None true 5 2 0 (Some [f 1; f 2; f 3; f 2; f 4]%nat) (Some []) in
  exists len idx, remove [f 2; f 1]%nat c = set_cbs (Some [f 3; f 4]%nat) (set_firingLength len (set_firingIndex idx c)) /\
    ends_fit [f 3; f 4]%nat len idx /\ to_call [f 3; f 4]%nat idx = [f 4%nat].
Proof.
  cbn zeta. destruct (remove_keeps_the_rest [Fn (User 2); Fn (User 1)]
    (CList (createOptions []) true None true 5 2 0 (Some [Fn (User 1); Fn (User 2); Fn (User 3); Fn (User 2); Fn (User 4)]) (Some []))
    [Fn (User 1); Fn (User 2); Fn (User 3); Fn (User 2); Fn (User 4)] eq_refl) as (len & idx & E & H).
  exists len, idx. split; [exact E|]. apply H. split; [reflexivity|]. cbn. lia.
Defined.

(** ** On pages without libraries *)

Section Pages_without_libraries.
Local Existing Instance no_library.
Local Existing Instance no_code.

Local Instance no_safe : SafeLibrary.
Proof. split; [by intros ? ? ? ? _ _ _ []|]. intros; apply safe_ret. Qed.

Definition two_functions (f : nat) (context : value) (args : list value) : prog :=
  if (f =? 0)%nat then Do (Act 0 1 [js_num 9]) (fun _ => Do (Listen 0 0 [AFun (User 1)]) Return) else Return undef.
Definition resolve_once : prog :=
  Do (NewDeferred None) (fun _ => Do (Listen 0 0 [AFun (User 0)]) (fun _ => Do (Act 0 0 [js_num 5]) Return)).
Lemma settles_once_witness :
  match execute two_functions 30 resolve_once world0 with
  | Some (w, _) =>
      (states w !! 0%nat = Some (u "pending") /\ called (1%nat, 0%nat) w = [] /\ called (1%nat, 1%nat) w = []) \/
      exists i D, (i < 2)%nat /\ states w !! 0%nat = Some (settled_name i) /\ called (1%nat, (1 - i)%nat) w = [] /\
        Forall (fun p => p.2 = D) (called (1%nat, i) w) /\
        exists rest, added (1%nat, i) w = map fst (called (1%nat, i) w) ++ rest /\
          (rest <> [] -> threw two_functions (1%nat, i) (called (1%nat, i) w))
  | None => False
  end.
Proof.
  pose proof (reached_by two_functions 30 resolve_once) as H.
  destruct (execute two_functions 30 resolve_once world0) as [[w r]|] eqn:E; [|vm_compute in E; discriminate E].
  apply (settles_once two_functions w 0 H). vm_compute in E. injection E as <- _. vm_compute. lia.
Defined.

Definition throwing (f : nat) (context : value) (args : list value) : prog := if (f =? 0)%nat then Throw else Return undef.
Definition throw_first : prog :=
  Do (NewDeferred None) (fun _ => Do (Listen 0 0 [AFun (User 0); AFun (User 1)]) (fun _ => Do (Act 0 0 [js_num 5]) Return)).
Definition only_listen : prog := Do (NewDeferred None) (fun _ => Do (Listen 0 0 [AFun (User 0); AFun (User 1)]) Return).
Lemma thrown_blocks_witness :
  match execute throwing 30 throw_first world0 with
  | Some (w, r) =>
      r = Thrown /\ states w = [u "resolved"] /\
      match execute throwing 30 (Do (Listen 0 0 [AFun (User 1)]) Return) w with
      | Some (w', _) => is_firing w' (1%nat, 0%nat) = true /\ called (1%nat, 0%nat) w' = called (1%nat, 0%nat) w
      | None => False
      end
  | None => False
  end /\
  match execute throwing 30 only_listen world0 with
  | Some (w, _) =>
      match execute throwing 30 (Do (ActWith 0 0 undef [js_num 5]) Return) w with
      | Some (w', Thrown) => is_firing w' (1%nat, 0%nat) = true /\ threw throwing (1%nat, 0%nat) (called (1%nat, 0%nat) w')
      | _ => False
      end
  | None => False
  end.
Proof.
  split.
  - pose proof (reached_by throwing 30 throw_first) as H.
    destruct (execute throwing 30 throw_first world0) as [[w r]|] eqn:E; [|vm_compute in E; discriminate E].
    split; [vm_compute in E; by injection E|]. split; [vm_compute in E; by injection E as <- _|].
    destruct (execute throwing 30 (Do (Listen 0 0 [AFun (User 1)]) Return) w) as [[w' r']|] eqn:E'.
    + refine (proj2 (thrown_blocks throwing w 30 0 0 w' H _ _) _ r' _ E'); [lia|..]; vm_compute in E; injection E as <- _; [cbn; lia|reflexivity].
    + vm_compute in E. injection E as <- _. vm_compute in E'. discriminate E'.
  - pose proof (reached_by throwing 30 only_listen) as H.
    destruct (execute throwing 30 only_listen world0) as [[w r]|] eqn:E; [|vm_compute in E; discriminate E].
    destruct (execute throwing 30 (Do (ActWith 0 0 undef [js_num 5]) Return) w) as [[w' [v|]]|] eqn:E'.
    + vm_compute in E. injection E as <- _. vm_compute in E'. discriminate E'.
    + refine (proj1 (thrown_blocks throwing w 30 0 0 w' H _ _) _ Thrown (or_introl _) _ E'); [lia| |by eexists _, _|];
        vm_compute in E; injection E as <- _; [cbn; lia|reflexivity].
    + vm_compute in E. injection E as <- _. vm_compute in E'. discriminate E'.
Defined.

Lemma settling_delivers_witness :
  match execute quiet_body 30 (Do (NewDeferred None) (fun _ => Do (Listen 0 1 [AFun (User 0); AFun (User 1)]) Return)) world0 with
  | Some (w, _) =>
      exists w', execute quiet_body 30 (Do (ActWith 0 1 undef [js_num 4]) Return) w = Some (w', Ok (DeferredRef 0)) /\
        states w' !! 0%nat = Some (settled_name 1) /\
        called (1%nat, 1%nat) w' = map (fun f => (f, (undef, [js_num 4]))) (own_callbacks 0 1 ++ [Fn (User 0); Fn (User 1)])
  | None => False
  end.
Proof.
  pose proof (reached_by quiet_body 30 (Do (NewDeferred None) (fun _ => Do (Listen 0 1 [AFun (User 0); AFun (User 1)]) Return))) as H.
  destruct (execute quiet_body 30 (Do (NewDeferred None) (fun _ => Do (Listen 0 1 [AFun (User 0); AFun (User 1)]) Return)) world0)
    as [[w r]|] eqn:E; [|vm_compute in E; discriminate E].
  refine (proj1 (settling_delivers quiet_body w 0 1 undef [js_num 4] 30 H _ _) [Fn (User 0); Fn (User 1)] _ _ _).
  - lia.
  - vm_compute in E. injection E as <- _. reflexivity.
  - vm_compute in E. injection E as <- _. reflexivity.
  - repeat constructor; [exists 0%nat|exists 1%nat]; (split; [reflexivity|intros; by exists undef]).
  - cbn. lia.
Defined.

(** [empty] leaves the end of a firing under way where it was: the next turn of the loop
    throws, and the list is then never fired again. *)
Definition empties (f : nat) (context : value) (args : list value) : prog :=
  if (f =? 0)%nat then Do (EmptyList 0) Return else Return undef.
Example empty_while_firing :
  match execute empties 30 (Do (NewCallbacks (createOptions [])) (fun _ => Do (Add 0 [AFun (User 0); AFun (User 1)]) (fun _ =>
    Do (FireWith 0 undef []) Return))) world0 with
  | Some (w, r) => r = Thrown /\ is_firing w (0%nat, 0%nat) = true /\
      match execute empties 30 (Do (Add 0 [AFun (User 2)]) (fun _ => Do (FireWith 0 undef []) Return)) w with
      | Some (w', Ok _) => calls w' = calls w
      | _ => False
      end
  | None => False
  end.
Proof. vm_compute. repeat split. Qed.
End Pages_without_libraries.
