(* ===== verification/LibraryFacts.v ===== *)
(** * What the operations of lists and deferreds do to the state of a library: nothing

    A relation that the code of a library keeps as long as the calls and firings it makes
    do is kept by every execution. *)

From Stdlib Require Import ZArith Lia.
From stdpp Require Import base tactics list numbers strings gmap.
From S2P Require Import Prelude JsValue ValidPage ValidRules Deferred.
Local Open Scope Z_scope.
Local Open Scope deferred_scope.

Section Moves.
Context {L : Library} (R : lib_state -> lib_state -> Prop) `{!PreOrder R}.

Definition moves {A} (m : M A) : Prop :=
  forall w, match m w with Some (w', _) => R (more w) (more w') | None => True end.

Lemma moves_ret {A} (a : A) : moves (ret a).
Proof. intros w. unfold ret, throw, get. reflexivity. Qed.
Lemma moves_throw {A} : moves (throw (A := A)).
Proof. intros w. unfold ret, throw, get. reflexivity. Qed.
Lemma moves_get {A} (g : world -> A) : moves (get g).
Proof. intros w. unfold ret, throw, get. reflexivity. Qed.
Lemma moves_bind {A C} (m : M A) (k : A -> M C) : moves m -> (forall a, moves (k a)) -> moves (bind m k).
Proof.
  intros Hm Hk w. specialize (Hm w). unfold bind. destruct (m w) as [[w1 [a|]]|]; [|done..].
  specialize (Hk a w1). destruct (k a w1) as [[w2 r]|]; [|done]. by etransitivity.
Qed.
Lemma moves_rest g : (forall w, R (more w) (more (g w))) -> moves (modify g).
Proof. intros H w. apply H. Qed.
Lemma moves_fuel {A} : moves (fun _ => None : option (world * result A)).
Proof. by intros w. Qed.

Lemma moves_change f : (forall a, R a (f a)) -> moves (change f).
Proof. intros H w. apply H. Qed.
Lemma moves_catch {A} (m h : M A) : moves m -> moves h -> moves (catch m h).
Proof.
  intros Hm Hh w. specialize (Hm w). unfold catch. destruct (m w) as [[w1 [a|]]|]; [done| |done].
  specialize (Hh w1). destruct (h w1) as [[w2 o]|]; [|done]. by etransitivity.
Qed.

Ltac move_step :=
  match goal with
  | |- moves (bind _ _) => apply moves_bind; [|intros ?]
  | |- moves (done_value _ _) => apply moves_bind; [|intros ?]
  | |- moves (ret _) => apply moves_ret
  | |- moves throw => apply moves_throw
  | |- moves (get _) => apply moves_get
  | |- moves (get_list _) => apply moves_get
  | |- moves (put_list _ _) => apply moves_rest; intros ?; reflexivity
  | |- moves (record _) => apply moves_rest; intros ?; reflexivity
  | |- moves (modify _) => apply moves_rest; intros ?; reflexivity
  | |- moves (update_list _ _) => unfold update_list
  | |- moves (let _ := _ in _) => cbv zeta
  | |- moves (match ?x with _ => _ end) => destruct x
  | |- _ => assumption
  | H : forall _, _ |- moves _ => apply H
  end.
Ltac moving := repeat move_step.

Section Open.
Context (apply : cb -> value -> list value -> M value) (fire : lid -> data -> M unit).
Context (Happly : forall f context args, moves (apply f context args)) (Hfire : forall l D, moves (fire l D)).

Lemma moves_add l fs : moves (add_to fire l fs).
Proof. unfold add_to. moving. Qed.
Lemma moves_fireWith l context args : moves (fireWith fire l context args).
Proof. unfold fireWith. moving. Qed.
Lemma moves_new_deferred : moves (new_deferred fire).
Proof. pose proof moves_add. unfold new_deferred. moving. Qed.
Lemma moves_listen3 d f0 f1 f2 : moves (listen3 fire d f0 f1 f2).
Proof. pose proof moves_add. unfold listen3. moving. Qed.
Lemma moves_finish l : moves (finish fire l).
Proof. unfold finish. moving. Qed.
Lemma moves_turn l D next : moves next -> moves (turn apply l D next).
Proof. intros H. unfold turn. moving. Qed.
Lemma moves_the_when w : moves (the_when w).
Proof. unfold the_when. moving. Qed.
Lemma moves_put_when w r : moves (put_when w r).
Proof. unfold put_when. moving. Qed.
Lemma moves_update w i progress context args : moves (update fire w i progress context args).
Proof. pose proof moves_the_when. pose proof moves_put_when. pose proof moves_fireWith. unfold update. moving. Qed.
Lemma moves_subscribe w l : forall i, moves (subscribe fire w i l).
Proof.
  pose proof moves_the_when. pose proof moves_put_when. pose proof moves_listen3.
  induction l as [|v l IH]; intros i; [apply moves_ret|]. cbn [subscribe]. moving.
Qed.
Lemma moves_when_all l : moves (when_all fire l).
Proof.
  pose proof moves_the_when. pose proof moves_subscribe. pose proof moves_fireWith. pose proof moves_new_deferred.
  unfold when_all. moving.
Qed.
Lemma moves_forward d nd i fn context args : moves (forward apply fire d nd i fn context args).
Proof. pose proof moves_listen3. pose proof moves_fireWith. unfold forward. moving. Qed.

Context `{!LibraryCode L} (bound : nat).
Context (Hexec : forall e, moves (lib_exec bound apply fire e)).
Context (Hcall : forall c context args, moves (lib_call bound apply fire c context args)).

Lemma moves_exec o : moves (exec apply fire bound o).
Proof.
  pose proof moves_add. pose proof moves_fireWith. pose proof moves_new_deferred. pose proof moves_listen3.
  pose proof moves_when_all. destruct o; cbn [exec]; moving.
Qed.
Lemma moves_run p : moves (run apply fire bound p).
Proof. pose proof moves_exec. induction p as [v| |o k IH]; cbn [run]; moving. Qed.
Lemma moves_call_body body f context args : moves (call_body apply fire bound body f context args).
Proof.
  pose proof moves_fireWith. pose proof moves_run. pose proof moves_forward. pose proof moves_update.
  unfold call_body. moving.
Qed.
End Open.

Context `{!LibraryCode L}.
(** What the code of the library has to promise. *)
Context (Hexec : forall bound apply fire, (forall f context args, moves (apply f context args)) -> (forall l D, moves (fire l D)) ->
  forall e, moves (lib_exec bound apply fire e)).
Context (Hcall : forall bound apply fire, (forall f context args, moves (apply f context args)) -> (forall l D, moves (fire l D)) ->
  forall c context args, moves (lib_call bound apply fire c context args)).

Lemma moves_eval body fuel : forall rq, moves (eval body fuel rq).
Proof.
  induction fuel as [|fuel IH]; intros rq; cbn [eval]; [apply moves_fuel|].
  assert (Hfire : forall l D, moves (eval body fuel (Fire l D);;; ret tt)) by (intros; apply moves_bind; [done|intros; apply moves_ret]).
  destruct rq as [f context args|l D|l D].
  - apply moves_call_body; auto.
  - unfold start_firing. moving. by apply moves_finish.
  - apply moves_bind; [|intros; apply moves_ret]. apply moves_turn; [done|]. moving.
Qed.
Lemma moves_execute body fuel p : moves (execute body fuel p).
Proof.
  assert (Hfire : forall l D, moves (eval body fuel (Fire l D);;; ret tt))
    by (intros; apply moves_bind; [apply moves_eval|intros; apply moves_ret]).
  unfold execute. apply moves_run; auto using moves_eval.
Qed.
End Moves.
