(* ===== verification/Ajax.v ===== *)
(** * [html/resource/js/jquery.js]: [$.ajax]

    Requests on top of the deferreds: an instance of [Library] and [LibraryCode]. A
    request is the record of the variables of one call of [ajax]; its methods, the answer
    of its transport and its timer are operations that a function of the page can call at
    any moment, inside another one of the same request too. Prefilters, transports,
    converters, [beforeSend] and what is bound to the global events are functions of the
    page. *)

From Stdlib Require Import ZArith Lia.
From stdpp Require Import base tactics list numbers strings gmap.
From S2P Require Import Prelude JsValue Md5 ValidPage ValidRules Param Deferred.
Set Warnings "-register-all".
Local Open Scope Z_scope.
Local Open Scope deferred_scope.

(** ** Settings and requests *)

Inductive gevent := AjaxStart | AjaxSend | AjaxSuccess | AjaxError | AjaxComplete | AjaxStop.
(** A converter: [true], or a function. *)
Inductive conv := Equivalent | Convert (f : nat).
Inductive request_data := NoData | Query (s : jstr) | Data (d : param_data).
#[export] Instance conv_eq_dec : EqDecision conv.
Proof. solve_decision. Defined.

(** The settings of a call, the default ones put in by [ajaxSetup]. [None] stands for
    undefined, null and false where the code does not tell them apart. *)
Record settings := Settings {
  url : jstr;
  s_method : option jstr;
  s_type : jstr;
  dataType : option jstr;
  dataTypes : list jstr;
  s_data : request_data;
  processData : bool;
  traditional : bool;
  global : bool;
  async : bool;
  timeout : num;
  cache_false : bool;                       (* [cache === false] *)
  ifModified : bool;
  contentType : option jstr;
  headers : list (jstr * jstr);
  accepts : list (jstr * jstr);
  contents : list (jstr * (jstr -> bool));
  responseFields : list (jstr * jstr);
  converters : list (jstr * conv);
  dataFilter : option nat;
  s_throws : bool;
  crossDomain : option bool;
  mimeType : option jstr;
  s_context : option value;
  s_statusCode : list (Z * arg);
  beforeSend : option nat;
  s_success : arg; s_error : arg; s_complete : arg
}.
(** What of the arguments [url] and [options] is looked at besides the settings. *)
Record options := Options {
  o_url : option jstr; o_method : option jstr; o_type : option jstr; o_contentType : bool;
  o_settings : settings
}.

(** The variables of a call of [ajax], [jqXHR] included. *)
Record request := Request {
  s : settings;
  state : Z;
  deferred : nat;
  completeDeferred : nat;
  strAbort : jstr;
  requestHeaders : list (jstr * jstr);
  requestHeadersNames : list (jstr * jstr);
  responseHeadersString : jstr;
  transport : option value;
  timeoutTimer : bool;                      (* set and not cleared *)
  fireGlobals : bool;
  cacheURL : jstr;
  statusCode : option (list (Z * arg));
  readyState : Z; status : option Z; statusText : option jstr;
  responses : list (jstr * value);          (* [responseText] and the like *)
  callbackContext : value
}.

(** What happened, for the theorems: the changes of the counter, the entries into [done],
    the state that [state = 1] found. *)
Inductive happening :=
  | Triggered (g : gevent)
  | Counted (r : nat) | Uncounted (r : nat)
  | Done (r : nat)
  | Opened (r : nat) (found : Z).
Record ajax_state := AjaxState {
  requests : list request;
  active : Z;
  prefilters : list (jstr * list nat);
  transports : list (jstr * list nat);
  lastModified : list (jstr * jstr);
  etag : list (jstr * jstr);
  ajax_nonce : Z;
  happened : list happening
}.

Inductive ajax_op :=
  | Ajax (o : options)
  | GetResponseHeader (r : nat) (key : jstr)
  | GetAllResponseHeaders (r : nat)
  | SetRequestHeader (r : nat) (name val : jstr)
  | OverrideMimeType (r : nat) (type : jstr)
  | StatusCode (r : nat) (map : option (list (Z * arg)))
  | Abort (r : nat) (text : option jstr)
  | OnComplete (r : nat) (args : list arg)
  | Answer (r : nat) (status : Z) (native : value) (responses : option (list (jstr * value))) (headers : jstr)
  | TimerFires (r : nat)
  | Modify (r : nat) (change : settings -> settings)      (* of the object given to prefilters and [beforeSend] *)
  | AjaxPrefilter (expression : jstr) (f : nat)
  | AjaxTransport (expression : jstr) (f : nat).

(** What the page and the browser supply: the address of the page, the functions bound to
    the global events, [String] of a value, and what [$.param] asks. *)
Class Browser := {
  ajaxLocation : jstr;
  nonce0 : Z;
  trigger_fn : gevent -> nat;
  string_of : value -> jstr;
  host_text : jsval -> jstr;
  returns : jstr -> jsval
}.

Definition ajax_init {B : Browser} : ajax_state := AjaxState [] 0 [] [] [] [] nonce0 [].
#[export] Instance ajax_library {B : Browser} : Library := {| lib_state := ajax_state; lib_op := ajax_op; lib_init := ajax_init |}.

(** The objects of a request. *)
Definition jqXHR (d r : nat) : value := ObjectPromise d r.
Definition settings_object (r : nat) : value := Obj [0%nat; r].
Definition transport_object (send abort : nat) : value := Obj [1%nat; send; abort].

(** ** Texts *)

Definition to_upper (t : jstr) : jstr := map (fun c => if (97 <=? c) && (c <=? 122) then c - 32 else c) t.
Definition line_end (c : Z) : bool := (c =? 10) || (c =? 13) || (c =? 8232) || (c =? 8233).
(** [replace(rhash, "")]: from the first number sign that no line end follows. *)
Fixpoint strip_hash (t : jstr) : jstr :=
  match t with
  | [] => []
  | c :: t' => if (c =? 35) && forallb (fun c => negb (line_end c)) t' then [] else c :: strip_hash t'
  end.
(** [replace(rprotocol, p)] *)
Definition with_protocol (p : jstr) (t : jstr) : jstr :=
  match t with 47 :: 47 :: t' => p ++ t' | _ => t end.
Definition scheme_char (c : Z) : bool :=
  ((48 <=? c) && (c <=? 57)) || ((65 <=? c) && (c <=? 90)) || ((97 <=? c) && (c <=? 122))
  || (c =? 95) || (c =? 46) || (c =? 43) || (c =? 45).
Fixpoint span_while (p : Z -> bool) (t : jstr) : jstr * jstr :=
  match t with
  | c :: t' => if p c then let q := span_while p t' in (c :: q.1, q.2) else ([], t)
  | [] => ([], [])
  end.
(** [rurl.exec(t)]: scheme with its colon, host and port, the last two where they are. *)
Definition rurl (t : jstr) : option (jstr * option jstr * option jstr) :=
  match span_while scheme_char t with
  | (c :: scheme, 58 :: rest) =>
      let scheme := (c :: scheme) ++ [58] in
      match rest with
      | 47 :: 47 :: rest =>
          let (host, rest) := span_while (fun c => negb ((c =? 47) || (c =? 63) || (c =? 35) || (c =? 58))) rest in
          match rest with
          | 58 :: rest => match fst (span_while (fun c => (48 <=? c) && (c <=? 57)) rest) with
                          | [] => Some (scheme, Some host, None)
                          | port => Some (scheme, Some host, Some port)
                          end
          | _ => Some (scheme, Some host, None)
          end
      | _ => Some (scheme, None, None)
      end
  | _ => None
  end.
(** The protocol, host and port of an address are those of the page. *)
Definition default_port (scheme : jstr) : num := of_Z (if js_eqb scheme (u "http:") then 80 else 443).
Definition same_port (p q : jstr * option jstr * option jstr) : bool :=
  match p.2, q.2 with
  | Some a, Some b => js_eqb a b
  | Some a, None => num_eqb (str_to_num a) (default_port q.1.1)
  | None, Some b => num_eqb (default_port p.1.1) (str_to_num b)
  | None, None => num_eqb (default_port p.1.1) (default_port q.1.1)
  end.
Definition is_cross_domain (page address : jstr) : bool :=
  match rurl (to_lower address) with
  | None => false
  | Some p =>
      match rurl (to_lower page) with
      | Some q => negb (js_eqb p.1.1 q.1.1) || negb (bool_decide (p.1.2 = q.1.2)) || negb (same_port p q)
      | None => true
      end
  end.
Definition question (t : jstr) : bool := existsb (fun c => c =? 63) t.
Definition join_query (address query : jstr) : jstr := address ++ (if question address then u "&" else u "?") ++ query.
(** The first match of [rts], an underscore as the name of a parameter, gets the value [v]. *)
Fixpoint set_underscore (v t : jstr) : option jstr :=
  match t with
  | [] => None
  | c :: t' =>
      if ((c =? 63) || (c =? 38)) && prefix_b (u "_=") t'
      then Some (c :: u "_=" ++ v ++ snd (span_while (fun c => negb (c =? 38)) (drop 2 t')))
      else cons c <$> set_underscore v t'
  end.
Definition no_cache (v cacheURL : jstr) : jstr := default (join_query cacheURL (u "_=" ++ v)) (set_underscore v cacheURL).

(** The matches of [rheaders], names in lower case. [start]: at the start of a line. *)
Fixpoint drop_blanks (t : jstr) : jstr :=
  match t with c :: t' => if (c =? 32) || (c =? 9) then drop_blanks t' else t | [] => [] end.
Fixpoint name_here (t : jstr) : option (jstr * jstr) :=
  match t with
  | [] => None
  | c :: t' => if c =? 58 then Some ([], t') else if line_end c then None
               else (fun p => (c :: p.1, p.2)) <$> name_here t'
  end.
Fixpoint parse_headers (fuel : nat) (start : bool) (t : jstr) : list (jstr * jstr) :=
  match fuel, t with
  | O, _ | _, [] => []
  | S fuel, c :: t' =>
      match (if start then name_here t else None) with
      | Some (name, rest) =>
          let (v, rest) := span_while (fun c => negb ((c =? 13) || (c =? 10))) (drop_blanks rest) in
          (to_lower name, v) :: match rest with 13 :: rest => parse_headers fuel true rest | _ => parse_headers fuel false rest end
      | None => parse_headers fuel (line_end c) t'
      end
  end.
Definition response_headers (t : jstr) : list (jstr * jstr) :=
  extend [] (parse_headers (S (length t)) true t).

(** ** The state of requests *)

Definition set_s (x : settings) (r : request) : request :=
  Request x (state r) (deferred r) (completeDeferred r) (strAbort r) (requestHeaders r) (requestHeadersNames r)
    (responseHeadersString r) (transport r) (timeoutTimer r) (fireGlobals r) (cacheURL r) (statusCode r) (readyState r)
    (status r) (statusText r) (responses r) (callbackContext r).
Definition set_state (x : Z) (r : request) : request :=
  Request (s r) x (deferred r) (completeDeferred r) (strAbort r) (requestHeaders r) (requestHeadersNames r)
    (responseHeadersString r) (transport r) (timeoutTimer r) (fireGlobals r) (cacheURL r) (statusCode r) (readyState r)
    (status r) (statusText r) (responses r) (callbackContext r).
Definition set_strAbort (x : jstr) (r : request) : request :=
  Request (s r) (state r) (deferred r) (completeDeferred r) x (requestHeaders r) (requestHeadersNames r)
    (responseHeadersString r) (transport r) (timeoutTimer r) (fireGlobals r) (cacheURL r) (statusCode r) (readyState r)
    (status r) (statusText r) (responses r) (callbackContext r).
Definition set_requestHeaders (x : list (jstr * jstr)) (names : list (jstr * jstr)) (r : request) : request :=
  Request (s r) (state r) (deferred r) (completeDeferred r) (strAbort r) x names
    (responseHeadersString r) (transport r) (timeoutTimer r) (fireGlobals r) (cacheURL r) (statusCode r) (readyState r)
    (status r) (statusText r) (responses r) (callbackContext r).
Definition set_transport (x : option value) (r : request) : request :=
  Request (s r) (state r) (deferred r) (completeDeferred r) (strAbort r) (requestHeaders r) (requestHeadersNames r)
    (responseHeadersString r) x (timeoutTimer r) (fireGlobals r) (cacheURL r) (statusCode r) (readyState r)
    (status r) (statusText r) (responses r) (callbackContext r).
Definition set_timeoutTimer (x : bool) (r : request) : request :=
  Request (s r) (state r) (deferred r) (completeDeferred r) (strAbort r) (requestHeaders r) (requestHeadersNames r)
    (responseHeadersString r) (transport r) x (fireGlobals r) (cacheURL r) (statusCode r) (readyState r)
    (status r) (statusText r) (responses r) (callbackContext r).
Definition set_fireGlobals (x : bool) (r : request) : request :=
  Request (s r) (state r) (deferred r) (completeDeferred r) (strAbort r) (requestHeaders r) (requestHeadersNames r)
    (responseHeadersString r) (transport r) (timeoutTimer r) x (cacheURL r) (statusCode r) (readyState r)
    (status r) (statusText r) (responses r) (callbackContext r).
Definition set_cacheURL (x : jstr) (r : request) : request :=
  Request (s r) (state r) (deferred r) (completeDeferred r) (strAbort r) (requestHeaders r) (requestHeadersNames r)
    (responseHeadersString r) (transport r) (timeoutTimer r) (fireGlobals r) x (statusCode r) (readyState r)
    (status r) (statusText r) (responses r) (callbackContext r).
Definition set_statusCode (x : option (list (Z * arg))) (r : request) : request :=
  Request (s r) (state r) (deferred r) (completeDeferred r) (strAbort r) (requestHeaders r) (requestHeadersNames r)
    (responseHeadersString r) (transport r) (timeoutTimer r) (fireGlobals r) (cacheURL r) x (readyState r)
    (status r) (statusText r) (responses r) (callbackContext r).
Definition set_readyState (x : Z) (r : request) : request :=
  Request (s r) (state r) (deferred r) (completeDeferred r) (strAbort r) (requestHeaders r) (requestHeadersNames r)
    (responseHeadersString r) (transport r) (timeoutTimer r) (fireGlobals r) (cacheURL r) (statusCode r) x
    (status r) (statusText r) (responses r) (callbackContext r).
Definition set_outcome (st : Z) (text : jstr) (r : request) : request :=
  Request (s r) (state r) (deferred r) (completeDeferred r) (strAbort r) (requestHeaders r) (requestHeadersNames r)
    (responseHeadersString r) (transport r) (timeoutTimer r) (fireGlobals r) (cacheURL r) (statusCode r) (readyState r)
    (Some st) (Some text) (responses r) (callbackContext r).
Definition set_response (text : jstr) (x : list (jstr * value)) (r : request) : request :=
  Request (s r) (state r) (deferred r) (completeDeferred r) (strAbort r) (requestHeaders r) (requestHeadersNames r)
    text (transport r) (timeoutTimer r) (fireGlobals r) (cacheURL r) (statusCode r) (readyState r)
    (status r) (statusText r) x (callbackContext r).
Definition with_url (x : jstr) (t : settings) : settings :=
  Settings x (s_method t) (s_type t) (dataType t) (dataTypes t) (s_data t) (processData t) (traditional t) (global t) (async t)
    (timeout t) (cache_false t) (ifModified t) (contentType t) (headers t) (accepts t) (contents t) (responseFields t)
    (converters t) (dataFilter t) (s_throws t) (crossDomain t) (mimeType t) (s_context t) (s_statusCode t) (beforeSend t)
    (s_success t) (s_error t) (s_complete t).
Definition with_type (x : jstr) (t : settings) : settings :=
  Settings (url t) (s_method t) x (dataType t) (dataTypes t) (s_data t) (processData t) (traditional t) (global t) (async t)
    (timeout t) (cache_false t) (ifModified t) (contentType t) (headers t) (accepts t) (contents t) (responseFields t)
    (converters t) (dataFilter t) (s_throws t) (crossDomain t) (mimeType t) (s_context t) (s_statusCode t) (beforeSend t)
    (s_success t) (s_error t) (s_complete t).
Definition with_dataTypes (x : list jstr) (t : settings) : settings :=
  Settings (url t) (s_method t) (s_type t) (dataType t) x (s_data t) (processData t) (traditional t) (global t) (async t)
    (timeout t) (cache_false t) (ifModified t) (contentType t) (headers t) (accepts t) (contents t) (responseFields t)
    (converters t) (dataFilter t) (s_throws t) (crossDomain t) (mimeType t) (s_context t) (s_statusCode t) (beforeSend t)
    (s_success t) (s_error t) (s_complete t).
Definition with_data (x : request_data) (t : settings) : settings :=
  Settings (url t) (s_method t) (s_type t) (dataType t) (dataTypes t) x (processData t) (traditional t) (global t) (async t)
    (timeout t) (cache_false t) (ifModified t) (contentType t) (headers t) (accepts t) (contents t) (responseFields t)
    (converters t) (dataFilter t) (s_throws t) (crossDomain t) (mimeType t) (s_context t) (s_statusCode t) (beforeSend t)
    (s_success t) (s_error t) (s_complete t).
Definition with_crossDomain (x : bool) (t : settings) : settings :=
  Settings (url t) (s_method t) (s_type t) (dataType t) (dataTypes t) (s_data t) (processData t) (traditional t) (global t) (async t)
    (timeout t) (cache_false t) (ifModified t) (contentType t) (headers t) (accepts t) (contents t) (responseFields t)
    (converters t) (dataFilter t) (s_throws t) (Some x) (mimeType t) (s_context t) (s_statusCode t) (beforeSend t)
    (s_success t) (s_error t) (s_complete t).
Definition with_mimeType (x : jstr) (t : settings) : settings :=
  Settings (url t) (s_method t) (s_type t) (dataType t) (dataTypes t) (s_data t) (processData t) (traditional t) (global t) (async t)
    (timeout t) (cache_false t) (ifModified t) (contentType t) (headers t) (accepts t) (contents t) (responseFields t)
    (converters t) (dataFilter t) (s_throws t) (crossDomain t) (Some x) (s_context t) (s_statusCode t) (beforeSend t)
    (s_success t) (s_error t) (s_complete t).

Definition with_requests (f : list request -> list request) (a : ajax_state) : ajax_state :=
  AjaxState (f (requests a)) (active a) (prefilters a) (transports a) (lastModified a) (etag a) (ajax_nonce a) (happened a).
Definition happen (h : happening) (a : ajax_state) : ajax_state :=
  AjaxState (requests a) (active a) (prefilters a) (transports a) (lastModified a) (etag a) (ajax_nonce a) (happened a ++ [h]).
Definition with_active (x : Z) (a : ajax_state) : ajax_state :=
  AjaxState (requests a) x (prefilters a) (transports a) (lastModified a) (etag a) (ajax_nonce a) (happened a).
Definition with_structures (p t : list (jstr * list nat)) (a : ajax_state) : ajax_state :=
  AjaxState (requests a) (active a) p t (lastModified a) (etag a) (ajax_nonce a) (happened a).
Definition with_caches (m e : list (jstr * jstr)) (a : ajax_state) : ajax_state :=
  AjaxState (requests a) (active a) (prefilters a) (transports a) m e (ajax_nonce a) (happened a).
Definition next_nonce (a : ajax_state) : ajax_state :=
  AjaxState (requests a) (active a) (prefilters a) (transports a) (lastModified a) (etag a) (ajax_nonce a + 1) (happened a).

Section Code.
Context {B : Browser}.

Definition the_request (r : nat) : M request :=
  a <- get more;; match requests a !! r with Some q => ret q | None => throw end.
Definition update_request (r : nat) (f : request -> request) : M unit := change (with_requests (alter f r)).
Definition value_truthy (v : value) : bool := match v with Prim p => truthy p | _ => true end.
Definition text_value (t : jstr) : value := Prim (PStr t).

(** ** Headers *)

Definition getResponseHeader (key : jstr) (q : request) : option jstr :=
  if state q =? 2 then assoc (to_lower key) (response_headers (responseHeadersString q)) else None.
Definition or_truthy (a : option jstr) (b : jstr) : jstr := match a with Some (c :: t) => c :: t | _ => b end.
Definition setRequestHeader (name val : jstr) (q : request) : request :=
  if state q =? 0 then
    let name := or_truthy (assoc (to_lower name) (requestHeadersNames q)) name in
    set_requestHeaders (assoc_set name val (requestHeaders q)) (assoc_set (to_lower name) name (requestHeadersNames q)) q
  else q.

(** ** Prefilters and transports *)

(** [addToPrefiltersOrTransports] *)
Definition add_one (l : list (jstr * list nat)) (dataType : jstr) (f : nat) : list (jstr * list nat) :=
  match dataType with
  | 43 :: rest => let dataType := or_truthy (Some rest) (u "*") in
                  assoc_set dataType (f :: default [] (assoc dataType l)) l
  | _ => assoc_set dataType (default [] (assoc dataType l) ++ [f]) l
  end.
Definition addToPrefiltersOrTransports (l : list (jstr * list nat)) (expression : jstr) (f : nat) : list (jstr * list nat) :=
  fold_left (fun l dataType => add_one l dataType f) (words (to_lower expression)) l.

Context (bound : nat).
Context (apply : cb -> value -> list value -> M value) (fire : lid -> data -> M unit).
Definition call (f : nat) (context : value) (args : list value) : M value := apply (Fn (User f)) context args.

(** [inspect(dataType)]; [seekingTransport]: in the transports. The answer is what was
    selected and what is inspected now. *)
Definition originals (r : nat) : value := Obj [2%nat; r].
Fixpoint inspect (fuel : nat) (seekingTransport : bool) (r : nat) (dataType : jstr) (inspected : list jstr) :
    M (option value * list jstr) :=
  match fuel with
  | O => fun _ => None
  | S fuel =>
      a <- get more;;
      let each := fix each (fs : list nat) (inspected : list jstr) : M (option value * list jstr) :=
        match fs with
        | [] => ret (None, inspected)
        | f :: fs =>
            q <- the_request r;;
            v <- call f undef [settings_object r; originals r; jqXHR (deferred q) r];;
            match v with
            | Prim (PStr t) =>
                if negb seekingTransport && negb (bool_decide (t ∈ inspected)) then
                  update_request r (fun q => set_s (with_dataTypes (t :: dataTypes (s q)) (s q)) q);;;
                  p <- inspect fuel seekingTransport r t inspected;;
                  ret (None, p.2)
                else if seekingTransport && value_truthy v then ret (Some v, inspected) else each fs inspected
            | _ => if seekingTransport && value_truthy v then ret (Some v, inspected) else each fs inspected
            end
        end in
      each (default [] (assoc dataType (if seekingTransport then transports a else prefilters a))) (dataType :: inspected)
  end.
Definition inspectPrefiltersOrTransports (seekingTransport : bool) (r : nat) : M (option value) :=
  q <- the_request r;;
  p <- inspect bound seekingTransport r (default (u "undefined") (head (dataTypes (s q)))) [];;
  match p.1 with
  | Some v => ret (Some v)
  | None => if bool_decide (u "*" ∈ p.2) then ret None
            else p <- inspect bound seekingTransport r (u "*") p.2;; ret p.1
  end.

(** ** Answers *)

(** [ajaxHandleResponses] *)
Fixpoint drop_stars (l : list jstr) : list jstr :=
  match l with t :: l' => if js_eqb t (u "*") then drop_stars l' else l | [] => [] end.
Definition response_type (q : request) : list jstr :=
  let types := dataTypes (s q) in
  let rest := drop_stars types in
  let ct := if (length rest <? length types)%nat
            then or_truthy (mimeType (s q)) (default [] (getResponseHeader (u "Content-Type") q)) else [] in
  match (if bool_decide (ct = []) then None else find (fun p => p.2 ct) (contents (s q))) with
  | Some p => p.1 :: rest
  | None => rest
  end.
Fixpoint convertible (target : jstr) (cs : list (jstr * conv)) (l : list (jstr * value)) : option jstr :=
  match l with
  | [] => None
  | (type, _) :: l =>
      if bool_decide (target = []) || match assoc (type ++ 32 :: target) cs with Some _ => true | None => false end
      then Some type else convertible target cs l
  end.
Definition final_type (types : list jstr) (cs : list (jstr * conv)) (l : list (jstr * value)) : option jstr :=
  let target := default [] (head types) in
  match (match head types with Some t => assoc t l | None => None end) with
  | Some _ => Some target
  | None => match convertible target cs l with
            | Some type => Some type
            | None => match l with (type, _) :: _ => Some type | [] => None end
            end
  end.
Definition ajaxHandleResponses (l : list (jstr * value)) (q : request) : request * value :=
  let filled := fold_left (fun rs p => match assoc p.1 l with Some v => assoc_set p.2 v rs | None => rs end)
                  (responseFields (s q)) (responses q) in
  let types := response_type q in
  let final := final_type types (converters (s q)) l in
  let types := match final with
               | Some t => if bool_decide (head types = Some t) then types else t :: types
               | None => types
               end in
  (set_response (responseHeadersString q) filled (set_s (with_dataTypes types (s q)) q),
   match final with Some t => default undef (assoc t l) | None => undef end).

(** [ajaxConvert] *)
Inductive converted := Success (v : value) | ParserError (e : value).
Definition lowercased (cs : list (jstr * conv)) : list (jstr * conv) :=
  fold_left (fun l p => assoc_set (to_lower p.1) p.2 l) cs [].
Definition between (a b : jstr) : jstr := a ++ 32 :: b.
Definition direct (cs : list (jstr * conv)) (prev current : jstr) : option conv :=
  match assoc (between prev current) cs with
  | Some c => Some c
  | None => assoc (between (u "*") current) cs
  end.
(** A pair of converters: the one to apply now, and the data type to insert. [l]: the
    converters still to be looked at. *)
Fixpoint seek_pair (cs l : list (jstr * conv)) (prev current : jstr) : option (conv * option jstr) :=
  match l with
  | [] => None
  | (conv2, c2) :: l =>
      match split_on 32 conv2 with
      | middle :: target :: _ =>
          if js_eqb target current then
            match direct cs prev middle with
            | Some Equivalent => Some (c2, None)
            | Some c => Some (c, if decide (c2 = Equivalent) then None else Some middle)
            | None => seek_pair cs l prev current
            end
          else seek_pair cs l prev current
      | _ => seek_pair cs l prev current
      end
  end.
Definition no_conversion (prev current : jstr) : value :=
  text_value (u "No conversion from " ++ prev ++ u " to " ++ current).
Definition use_conv (bubble : bool) (c : conv) (response : value) : M (option value) :=
  match c with
  | Equivalent => ret (Some response)
  | Convert f =>
      let converts := v <- call f undef [response];; ret (Some v) in
      if bubble then converts else catch converts (ret None)
  end.
Fixpoint convert_loop (fuel : nat) (bubble : bool) (cs : list (jstr * conv)) (prev : jstr) (types : list jstr) (response : value) :
    M converted :=
  match fuel, types with
  | O, _ => fun _ => None
  | _, [] | _, [] :: _ => ret (Success response)
  | S fuel, current :: types =>
      if js_eqb current (u "*") then convert_loop fuel bubble cs prev types response
      else if js_eqb prev (u "*") || js_eqb prev current then convert_loop fuel bubble cs current types response
      else
        match (match direct cs prev current with Some c => Some (c, None) | None => seek_pair cs cs prev current end) with
        | None => ret (ParserError (no_conversion prev current))
        | Some (c, inserted) =>
            o <- use_conv bubble c response;;
            match o with
            | None => ret (ParserError SomeObject)
            | Some response =>
                match inserted with
                | None => convert_loop fuel bubble cs current types response
                | Some middle => convert_loop fuel bubble cs middle (middle :: current :: types) response
                end
            end
        end
  end.
Definition ajaxConvert (r : nat) (response : value) : M converted :=
  q <- the_request r;;
  let types := dataTypes (s q) in
  response <- (match dataFilter (s q) with
               | Some f => call f (settings_object r) [response; match dataType (s q) with Some t => text_value t | None => undef end]
               | None => ret response
               end);;
  q <- the_request r;;
  match types with
  | prev :: rest => convert_loop bound (s_throws (s q)) (lowercased (converters (s q))) prev rest response
  | [] => ret (Success response)
  end.

(** ** The end of a request *)

Definition when_ (b : bool) (m : M unit) : M unit := if b then m else ret tt.
Definition happens (h : happening) : M unit := change (happen h).
(** [trigger], of [jQuery.event] or of the context of the request. *)
Definition trigger (g : gevent) (args : list value) : M unit :=
  happens (Triggered g);;; call (trigger_fn g) undef args;;; ret tt.
Definition cache_headers (q : request) (a : ajax_state) : ajax_state :=
  let put key l := match getResponseHeader key q with Some (c :: t) => assoc_set (cacheURL q) (c :: t) l | _ => l end in
  with_caches (put (u "Last-Modified") (lastModified a)) (put (u "etag") (etag a)) a.

(** [jqXHR.statusCode(map)] *)
Definition add_statusCode (map : list (Z * arg)) (old : list (Z * arg)) : list (Z * arg) :=
  fold_left (fun l p => (p.1, AList [match find (fun o => o.1 =? p.1) l with Some o => o.2 | None => AOther end; p.2])
                        :: filter (fun o => o.1 <> p.1) l) map old.
Definition jqXHR_statusCode (r : nat) (map : list (Z * arg)) : M unit :=
  q <- the_request r;;
  if state q <? 2 then
    match statusCode q with
    | Some old => update_request r (set_statusCode (Some (add_statusCode map old)))
    | None => if bool_decide (map = []) then ret tt else throw
    end
  else
    let fs := match status q with
              | Some st => match find (fun o => o.1 =? st) map with Some o => functions o.2 | None => [] end
              | None => []
              end in
    add_to fire (S (deferred q), 0%nat) fs;;; add_to fire (S (deferred q), 1%nat) fs.

(** What [done] makes of an answer: whether it is a success, the data, the status text
    and the error. *)
Definition succeeds (status : Z) : bool := ((200 <=? status) && (status <? 300)) || (status =? 304).
Definition outcome (r : nat) (status : Z) (native : value) (response : value) : M (bool * value * value * value) :=
  if succeeds status then
    q <- the_request r;;
    when_ (ifModified (s q)) (change (cache_headers q));;;
    if status =? 204 then ret (true, undef, text_value (u "nocontent"), undef)
    else if status =? 304 then ret (true, undef, text_value (u "notmodified"), undef)
    else
      c <- ajaxConvert r response;;
      match c with
      | Success v => ret (true, v, text_value (u "success"), undef)
      | ParserError e => ret (negb (value_truthy e), undef, text_value (u "parsererror"), e)
      end
  else ret (false, undef, if negb (status =? 0) || negb (value_truthy native) then text_value (u "error") else native, native).
Definition final_status (status : Z) : Z := if negb (succeeds status) && (status <? 0) then 0 else status.

(** From here on nothing is decided any more: the callbacks and the events. *)
Definition tell (r : nat) (isSuccess : bool) (success statusText error : value) : M unit :=
  q <- the_request r;;
  let context := callbackContext q in
  let xhr := jqXHR (deferred q) r in
  (if isSuccess then fireWith fire (S (deferred q), 0%nat) context [success; statusText; xhr]
   else fireWith fire (S (deferred q), 1%nat) context [xhr; statusText; error]);;;
  q <- the_request r;;
  match statusCode q with Some map => jqXHR_statusCode r map | None => ret tt end;;;
  update_request r (set_statusCode None);;;
  q <- the_request r;;
  when_ (fireGlobals q)
    (trigger (if isSuccess then AjaxSuccess else AjaxError) [xhr; settings_object r; if isSuccess then success else error]);;;
  fireWith fire (0%nat, completeDeferred q) context [xhr; statusText].
Definition uncount (r : nat) : M unit :=
  happens (Uncounted r);;;
  a <- get more;;
  change (with_active (active a - 1));;;
  when_ (active a =? 1) (trigger AjaxStop []).
Definition announce (r : nat) (isSuccess : bool) (success statusText error : value) : M unit :=
  tell r isSuccess success statusText error;;;
  q <- the_request r;;
  when_ (fireGlobals q) (trigger AjaxComplete [jqXHR (deferred q) r; settings_object r];;; uncount r).
(** [done]; the record of the answer in the variables of the request comes first. *)
Definition answered (status : Z) (headers : jstr) (q : request) : request :=
  set_readyState (if 0 <? status then 4 else 0) (set_response headers (responses q)
    (set_transport None (set_timeoutTimer false (set_state 2 q)))).
Definition done (r : nat) (status : Z) (native : value) (l : option (list (jstr * value))) (headers : jstr) : M unit :=
  q <- the_request r;;
  if state q =? 2 then ret tt
  else
    happens (Done r);;;
    update_request r (answered status headers);;;
    q <- the_request r;;
    response <- (match l with
                 | Some l => update_request r (fun q => fst (ajaxHandleResponses l q));;; ret (snd (ajaxHandleResponses l q))
                 | None => ret undef
                 end);;
    p <- outcome r status native response;;
    let '(isSuccess, success, statusText, error) := p in
    update_request r (set_outcome (final_status status)
      (string_of (if value_truthy native then native else statusText)));;;
    announce r isSuccess success statusText error.

(** [jqXHR.abort(text)] *)
Definition jqXHR_abort (r : nat) (text : option jstr) : M unit :=
  q <- the_request r;;
  let final := text_value (or_truthy text (strAbort q)) in
  match transport q with
  | Some t => match t with
              | Obj [1%nat; _; ab] => call ab t [final];;; ret tt
              | _ => throw
              end
  | None => ret tt
  end;;;
  done r 0 final None [].

(** ** The start of a request *)

Definition page_scheme : jstr := match rurl (to_lower ajaxLocation) with Some p => p.1.1 | None => u "undefined" end.
Definition first_url (o : options) : jstr :=
  with_protocol (page_scheme ++ u "//")
    (strip_hash (or_truthy (o_url o) (or_truthy (Some (url (o_settings o))) ajaxLocation))).
Definition or_else (a b : option jstr) : option jstr := match a with Some (_ :: _) => a | _ => b end.
Definition first_settings (o : options) : settings :=
  let t := o_settings o in
  let t := with_url (first_url o) t in
  let t := with_type (default (s_type t) (or_else (o_method o) (or_else (o_type o) (or_else (s_method t) (Some (s_type t)))))) t in
  let t := with_dataTypes (match words (to_lower (trim (or_truthy (dataType t) (u "*")))) with [] => [[]] | l => l end) t in
  match crossDomain t with Some _ => t | None => with_crossDomain (is_cross_domain ajaxLocation (url t)) t end.
Definition new_request (d n r : nat) (o : options) : request :=
  Request (o_settings o) 0 d n (u "canceled") [] [] [] None false false [] (Some (s_statusCode (o_settings o))) 0 None None []
    (match s_context (o_settings o) with Some v => if value_truthy v then v else settings_object r | None => settings_object r end).

(** The data as a text. *)
Definition convert_data (r : nat) : M unit :=
  q <- the_request r;;
  match s_data (s q) with
  | Data d =>
      if processData (s q) then
        match param host_text returns (traditional (s q)) d with
        | Some t => update_request r (fun q => set_s (with_data (Query t) (s q)) q)
        | None => throw
        end
      else ret tt
  | _ => ret tt
  end.
Definition rnoContent (t : jstr) : bool := js_eqb t (u "GET") || js_eqb t (u "HEAD").
(** The address and the data of a request whose data go into the address. *)
Definition query_text (d : request_data) : option jstr :=
  match d with
  | Query (c :: t) => Some (c :: t)
  | Data (Members _) => Some (u "[object Object]")
  | Data (Elements l) => Some (join (u ",") (map (fun _ => u "[object Object]") l))
  | _ => None
  end.
Definition in_address (nonce : Z) (t : settings) : jstr * settings :=
  let t := match query_text (s_data t) with Some d => with_data NoData (with_url (join_query (url t) d) t) | None => t end in
  (url t, if cache_false t then with_url (no_cache (Z_to_str nonce) (url t)) t else t).
Definition address (r : nat) : M unit :=
  update_request r (fun q => set_cacheURL (url (s q)) (set_s (with_type (to_upper (s_type (s q))) (s q)) q));;;
  q <- the_request r;;
  if rnoContent (s_type (s q)) then
    a <- get more;;
    let p := in_address (ajax_nonce a) (s q) in
    update_request r (fun q => set_cacheURL p.1 (set_s p.2 q));;;
    when_ (cache_false (s q)) (change next_nonce)
  else ret tt.
Definition has_data (d : request_data) : bool := match query_text d with Some _ => true | None => false end.
Definition accept_header (t : settings) : jstr :=
  match dataTypes t with
  | (c :: d) :: _ =>
      match assoc (c :: d) (accepts t) with
      | Some (a :: l) => (a :: l) ++ (if js_eqb (c :: d) (u "*") then [] else u ", */*; q=0.01")
      | _ => default (u "undefined") (assoc (u "*") (accepts t))
      end
  | _ => default (u "undefined") (assoc (u "*") (accepts t))
  end.
(** The headers that [ajax] sets itself. *)
Definition first_headers (o : options) (a : ajax_state) (q : request) : request :=
  let t := s q in
  let cached name l q := match assoc (cacheURL q) l with Some (c :: v) => setRequestHeader name (c :: v) q | _ => q end in
  let q := if ifModified t then cached (u "If-None-Match") (etag a) (cached (u "If-Modified-Since") (lastModified a) q) else q in
  let q := if (has_data (s_data t) && negb (rnoContent (s_type t)) && bool_decide (contentType t <> None)) || o_contentType o
           then setRequestHeader (u "Content-Type") (default (u "false") (contentType t)) q else q in
  let q := setRequestHeader (u "Accept") (accept_header t) q in
  fold_left (fun q h => setRequestHeader h.1 h.2 q) (headers t) q.

(** [try { state = 1; transport.send(requestHeaders, done) } catch (e) { ... }] *)
Definition send (r : nat) : M unit :=
  catch
    (q <- the_request r;;
     happens (Opened r (state q));;;
     update_request r (set_state 1);;;
     match transport q with
     | Some (Obj [1%nat; snd; ab]) => call snd (transport_object snd ab) [jqXHR (deferred q) r];;; ret tt
     | _ => throw
     end)
    (q <- the_request r;;
     if state q <? 2 then done r (-1) SomeObject None [] else throw).

(** From the transport on. *)
Definition open_request (r : nat) : M unit :=
  v <- inspectPrefiltersOrTransports true r;;
  match v with
  | Some v =>
      update_request r (fun q => set_readyState 1 (set_transport (Some v) q));;;
      q <- the_request r;;
      when_ (fireGlobals q) (trigger AjaxSend [jqXHR (deferred q) r; settings_object r]);;;
      q <- the_request r;;
      when_ (async (s q) && num_ltb (of_Z 0) (timeout (s q))) (update_request r (set_timeoutTimer true));;;
      send r
  | None => done r (-1) (text_value (u "No Transport")) None []
  end.
Definition count_request (r : nat) : M unit :=
  update_request r (fun q => set_fireGlobals (global (s q)) q);;;
  q <- the_request r;;
  when_ (fireGlobals q)
    (happens (Counted r);;;
     a <- get more;;
     change (with_active (active a + 1));;;
     when_ (active a =? 0) (trigger AjaxStart [])).
Definition before_send (r : nat) : M bool :=
  q <- the_request r;;
  match beforeSend (s q) with
  | None => ret true
  | Some f =>
      v <- call f (callbackContext q) [jqXHR (deferred q) r; settings_object r];;
      q <- the_request r;;
      ret (negb (is_false v || (state q =? 2)))
  end.
Definition install (r : nat) : M unit :=
  q <- the_request r;;
  add_to fire (S (deferred q), 0%nat) (functions (s_success (s q)));;;
  q <- the_request r;;
  add_to fire (S (deferred q), 1%nat) (functions (s_error (s q)));;;
  q <- the_request r;;
  add_to fire (0%nat, completeDeferred q) (functions (s_complete (s q))).
Definition new_lists : M (nat * nat) :=
  d <- new_deferred fire;;
  n <- get next_list;;
  put_list (0%nat, n) (Callbacks (createOptions (u "once memory")));;;
  modify (fun w : world => World (lists w) (states w) (whens w) (S n) (more w) (trace w));;;
  ret (d, n).
Definition ajax (o : options) : M value :=
  p <- new_lists;;
  a <- get more;;
  let r := length (requests a) in
  change (with_requests (fun l => l ++ [new_request p.1 p.2 r o]));;;
  update_request r (set_s (first_settings o));;;
  convert_data r;;;
  inspectPrefiltersOrTransports false r;;;
  q <- the_request r;;
  (if state q =? 2 then ret tt
   else
     count_request r;;;
     address r;;;
     a <- get more;;
     update_request r (first_headers o a);;;
     go <- before_send r;;
     if negb go then jqXHR_abort r None
     else
       update_request r (set_strAbort (u "abort"));;;
       install r;;;
       open_request r);;;
  ret (jqXHR p.1 r).

(** ** Operations *)

Definition header_value (o : option jstr) : value := match o with Some t => text_value t | None => Prim PNull end.
Definition self (r : nat) (m : M unit) : M value := m;;; q <- the_request r;; ret (jqXHR (deferred q) r).
Definition ajax_exec (e : ajax_op) : M value :=
  match e with
  | Ajax o => ajax o
  | GetResponseHeader r key => q <- the_request r;; ret (header_value (getResponseHeader key q))
  | GetAllResponseHeaders r =>
      q <- the_request r;; ret (header_value (if state q =? 2 then Some (responseHeadersString q) else None))
  | SetRequestHeader r name val => self r (update_request r (setRequestHeader name val))
  | OverrideMimeType r type =>
      self r (update_request r (fun q => if state q =? 0 then set_s (with_mimeType type (s q)) q else q))
  | StatusCode r map => self r (match map with Some map => jqXHR_statusCode r map | None => ret tt end)
  | Abort r text => self r (jqXHR_abort r text)
  | OnComplete r args =>
      self r (q <- the_request r;; add_to fire (0%nat, completeDeferred q) (flat_map functions args))
  | Answer r status native l headers => done r status native l headers;;; ret undef
  | TimerFires r =>
      q <- the_request r;;
      (if timeoutTimer q then update_request r (set_timeoutTimer false);;; jqXHR_abort r (Some (u "timeout")) else ret tt);;;
      ret undef
  | Modify r f => update_request r (fun q => set_s (f (s q)) q);;; ret undef
  | AjaxPrefilter expression f =>
      change (fun a => with_structures (addToPrefiltersOrTransports (prefilters a) expression f) (transports a) a);;; ret undef
  | AjaxTransport expression f =>
      change (fun a => with_structures (prefilters a) (addToPrefiltersOrTransports (transports a) expression f) a);;; ret undef
  end.
End Code.

#[export] Instance ajax_code {B : Browser} : LibraryCode ajax_library :=
  @Build_LibraryCode ajax_library (fun bound apply fire e => ajax_exec bound apply fire e) (fun _ _ _ _ _ _ => ret undef).

(** ** Examples *)

Section Examples.
(** Handlers of global events are the functions from 90 on. *)
Local Instance plain_browser : Browser :=
  {| ajaxLocation := u "http://x.cn/a.html"; nonce0 := 7;
     trigger_fn g := match g with AjaxSend => 91 | _ => 90 end%nat;
     string_of v := match v with Prim p => to_str p | _ => u "Error" end;
     host_text _ := []; returns _ := VUndef |}.
Definition json_settings (url : jstr) (d : request_data) (success complete : arg) : settings :=
  Settings url None (u "GET") (Some (u "json")) [] d true false true true (of_Z 0) true false
    (Some (u "application/x-www-form-urlencoded; charset=UTF-8")) []
    [(u "*", u "*/*"); (u "json", u "application/json, text/javascript")]
    [(u "xml", fun t => contains t (u "xml")); (u "html", fun t => contains t (u "html")); (u "json", fun t => contains t (u "json"))]
    [(u "xml", u "responseXML"); (u "text", u "responseText")]
    [(u "* text", Convert 80); (u "text html", Equivalent); (u "text json", Convert 81); (u "text xml", Convert 82)]
    None false None None None [] None success AOther complete.
(** Function 50 makes the transport, 51 and 52 are its methods, 81 reads JSON. *)
Definition site_body (more : nat -> value -> list value -> prog) (f : nat) (context : value) (args : list value) : prog :=
  match f with
  | 50%nat => Return (transport_object 51 52)
  | 81%nat => Return (match args with [v] => Arr [v] | _ => undef end)
  | _ => more f context args
  end.
Definition get_json (d : request_data) (success complete : arg) : prog :=
  Do (Ext (AjaxTransport (u "*") 50)) (fun _ =>
  Do (Ext (Ajax (Options None None None false (json_settings (u "b.cgi#top") d success complete)))) Return).
Definition answer_ok : prog :=
  Do (Ext (Answer 0 200 (text_value (u "OK")) (Some [(u "text", text_value (u "[1]"))])
    (u "Content-Type: application/json" ++ [13; 10]))) Return.
Definition seen (w : world) := (active (more w), map (fun q => (state q, url (s q), status q, statusText q)) (requests (more w)),
  happened (more w)).

Example get_json_ex :
  match execute (site_body (fun _ _ _ => Return undef)) 60
    (Do (Ext (AjaxTransport (u "*") 50)) (fun _ =>
     Do (Ext (Ajax (Options None None None false
       (json_settings (u "b.cgi#top") (Data (Members [(u "q", VStr (u "x y"))])) (AFun (User 1)) (AFun (User 2)))))) (fun _ =>
     answer_ok))) world0
  with
  | Some (w, Ok _) =>
      seen w = (0, [(2, u "b.cgi?q=x+y&_=7", Some 200, Some (u "OK"))],
        [Counted 0; Triggered AjaxStart; Triggered AjaxSend; Opened 0 0; Done 0; Triggered AjaxSuccess;
         Triggered AjaxComplete; Uncounted 0; Triggered AjaxStop]) /\
      calls w = [(Fn (User 1), [Arr [text_value (u "[1]")]; text_value (u "success"); jqXHR 0 0]);
                 (Fn (User 2), [jqXHR 0 0; text_value (u "success")])]
  | _ => False
  end.
Proof. vm_compute. repeat split. Qed.
End Examples.
