(* ===== verification/AjaxFacts.v ===== *)
(** * Requests keep the invariant of the deferreds *)

From Stdlib Require Import ZArith Lia.
From stdpp Require Import base tactics list numbers strings gmap.
From S2P Require Import Prelude JsValue ValidPage ValidRules Param Deferred DeferredFacts DeferredFire DeferredProps LibraryFacts Ajax.
Local Open Scope Z_scope.

Local Open Scope deferred_scope.

Section Safe.
Context {T : Blames} {B : Browser} (bound : nat) (apply : cb -> value -> list value -> M value) (fire : lid -> data -> M unit).
Context (Happly : forall f context args, plain f = true -> safe (apply f context args)).
Context (Hplain : forall l D w, plain_list l w -> Inv w -> outcome_ok w unit (fire l D w)).
Context (Hfire : fire_ok fire).

Lemma call_fn_safe f context args : safe (call apply f context args).
Proof. by apply Happly. Qed.

Ltac request_step :=
  match goal with
  | |- safe (bind _ _) => apply safe_bind; [|intros ?]
  | |- safe (add_to _ _ _) => apply add_safe; auto using functions_plain
  | |- safe (fireWith _ _ _ _) => by apply fireWith_safe
  | |- safe (new_deferred _) => by apply new_deferred_safe
  | |- safe (ret _) => apply safe_ret
  | |- safe throw => apply safe_throw
  | |- safe (get _) => apply safe_get
  | |- safe (change _) => apply change_safe
  | |- safe (call _ _ _ _) => apply call_fn_safe
  | |- safe (catch _ _) => apply catch_safe
  | |- safe (fun _ => None) => apply fuel_safe
  | |- safe (let _ := _ in _) => cbv zeta
  | |- safe (match ?x with _ => _ end) => destruct x
  end.
Ltac requests := repeat request_step.

Lemma the_request_safe r : safe (the_request r).
Proof. unfold the_request. requests. Qed.
Lemma update_request_safe r f : safe (update_request r f).
Proof. apply change_safe. Qed.
Lemma when_safe b m : safe m -> safe (when_ b m).
Proof. intros H. unfold when_. by destruct b; [|apply safe_ret]. Qed.
Lemma happens_safe h : safe (happens h).
Proof. apply change_safe. Qed.
Lemma trigger_safe g args : safe (trigger apply g args).
Proof. unfold trigger. repeat request_step. apply happens_safe. Qed.
Lemma function_plain a : Forall (fun f => plain f = true) (functions a).
Proof. rewrite <- (app_nil_r (functions a)). apply (functions_plain [a]). Qed.

Ltac request_step' :=
  first [ request_step
        | apply the_request_safe | apply update_request_safe | apply happens_safe | apply trigger_safe
        | apply when_safe ].
Ltac requests' := repeat request_step'.

Lemma each_safe (inner : jstr -> list jstr -> M (option value * list jstr)) (seeking : bool) r :
  (forall t l, safe (inner t l)) -> forall fs inspected,
  safe ((fix each (fs : list nat) (inspected : list jstr) : M (option value * list jstr) :=
        match fs with
        | [] => ret (None, inspected)
        | f :: fs =>
            q <- the_request r;;
            v <- call apply f undef [settings_object r; originals r; jqXHR (deferred q) r];;
            match v with
            | Prim (PStr t) =>
                if negb seeking && negb (bool_decide (t ∈ inspected)) then
                  update_request r (fun q => set_s (with_dataTypes (t :: dataTypes (s q)) (s q)) q);;;
                  p <- inner t inspected;;
                  ret (None, p.2)
                else if seeking && value_truthy v then ret (Some v, inspected) else each fs inspected
            | _ => if seeking && value_truthy v then ret (Some v, inspected) else each fs inspected
            end
        end) fs inspected).
Proof. intros Hin fs. induction fs as [|f fs IH]; intros inspected; [apply safe_ret|]. requests'; try apply IH; apply Hin. Qed.
Lemma inspect_safe fuel : forall seeking r t l, safe (inspect apply fuel seeking r t l).
Proof.
  induction fuel as [|fuel IH]; intros seeking r t l; cbn [inspect]; [apply fuel_safe|].
  apply safe_bind; [apply safe_get|intros a]. by apply each_safe.
Qed.
Lemma inspectPT_safe seeking r : safe (inspectPrefiltersOrTransports bound apply seeking r).
Proof. unfold inspectPrefiltersOrTransports. requests'; apply inspect_safe. Qed.
Lemma use_conv_safe bubble c response : safe (use_conv apply bubble c response).
Proof. unfold use_conv. requests'. Qed.
Lemma convert_loop_safe fuel : forall bubble cs prev types response, safe (convert_loop apply fuel bubble cs prev types response).
Proof.
  induction fuel as [|fuel IH]; intros bubble cs prev types response; cbn [convert_loop]; [apply fuel_safe|].
  requests'; try apply use_conv_safe; apply IH.
Qed.
Lemma ajaxConvert_safe r response : safe (ajaxConvert bound apply r response).
Proof. unfold ajaxConvert. requests'; apply convert_loop_safe. Qed.
Lemma jqXHR_statusCode_safe r map : safe (jqXHR_statusCode fire r map).
Proof.
  unfold jqXHR_statusCode. requests'; (destruct (status _) as [st|]; [|constructor]);
    (destruct (find _ map); [apply function_plain|constructor]).
Qed.
Lemma outcome_safe r status native response : safe (outcome bound apply r status native response).
Proof. unfold outcome. requests'. apply ajaxConvert_safe. Qed.
Lemma announce_safe r ok success statusText error : safe (announce apply fire r ok success statusText error).
Proof. unfold announce, tell, uncount. requests'; apply jqXHR_statusCode_safe. Qed.
Lemma done_safe r status native l headers : safe (done bound apply fire r status native l headers).
Proof. unfold done. requests'; first [apply outcome_safe | apply announce_safe]. Qed.
Lemma jqXHR_abort_safe r text : safe (jqXHR_abort bound apply fire r text).
Proof. unfold jqXHR_abort. requests'; apply done_safe. Qed.
Lemma new_lists_safe : safe (new_lists fire).
Proof. unfold new_lists. requests'; [apply safe_put_user; by intros fs [= <-]|apply safe_rest; by intros w]. Qed.
Lemma ajax_safe o : safe (ajax bound apply fire o).
Proof.
  unfold ajax, convert_data, count_request, address, before_send, install, open_request, send.
  requests'; first [apply new_lists_safe | apply inspectPT_safe | apply jqXHR_abort_safe | apply done_safe | apply function_plain].
Qed.
Lemma ajax_exec_safe e : safe (ajax_exec bound apply fire e).
Proof.
  destruct e; cbn [ajax_exec]; unfold self; requests';
    first [apply ajax_safe | apply jqXHR_statusCode_safe | apply jqXHR_abort_safe | apply done_safe].
Qed.
End Safe.

#[export] Instance ajax_safe_library {B : Browser} : SafeLibrary.
Proof. split; intros; [by apply ajax_exec_safe|apply safe_ret]. Qed.

(** * Requests: how often each one ends, and the counter [jQuery.active] *)

(** ** Counting *)

Definition count (p : happening -> bool) (h : list happening) : Z :=
  Z.of_nat (length (filter (fun e => p e = true) h)).
Definition is_done (r : nat) (e : happening) : bool := match e with Done r' => (r' =? r)%nat | _ => false end.
Definition is_counted (r : nat) (e : happening) : bool := match e with Counted r' => (r' =? r)%nat | _ => false end.
Definition is_uncounted (r : nat) (e : happening) : bool := match e with Uncounted r' => (r' =? r)%nat | _ => false end.
(** [state = 1] for a request that had ended. *)
Definition is_reopened (r : nat) (e : happening) : bool := match e with Opened r' st => (r' =? r)%nat && (st =? 2) | _ => false end.
(** The level of the counter after these happenings. *)
Definition level1 (e : happening) : Z := match e with Counted _ => 1 | Uncounted _ => -1 | _ => 0 end.
Definition level (h : list happening) : Z := fold_left (fun n e => n + level1 e) h 0.
(** [Some true] after a start, [Some false] after a stop or before any; [None] when starts
    and stops do not alternate. *)
Definition alternate1 (b : option bool) (e : happening) : option bool :=
  match b, e with
  | Some false, Triggered AjaxStart => Some true
  | Some true, Triggered AjaxStop => Some false
  | _, Triggered AjaxStart | _, Triggered AjaxStop => None
  | _, _ => b
  end.
Definition alternate (h : list happening) : option bool := fold_left alternate1 h (Some false).

#[local] Arguments count : simpl never.
#[local] Arguments level : simpl never.
#[local] Arguments alternate : simpl never.

Lemma count_snoc p h e : count p (h ++ [e]) = count p h + (if p e then 1 else 0).
Proof.
  unfold count. rewrite filter_app, length_app. destruct (p e) eqn:E.
  - rewrite filter_cons_True by done. cbn. lia.
  - rewrite filter_cons_False by (by rewrite E). cbn. lia.
Qed.
Lemma count_nonneg p h : 0 <= count p h.
Proof. unfold count. lia. Qed.
Lemma level_snoc h e : level (h ++ [e]) = level h + level1 e.
Proof. unfold level. by rewrite fold_left_app. Qed.
Lemma alternate_snoc h e : alternate (h ++ [e]) = alternate1 (alternate h) e.
Proof. unfold alternate. by rewrite fold_left_app. Qed.

(** ** The invariant *)

Section Counts.
Context {B : Browser}.

Definition ended (a : ajax_state) (r : nat) : bool :=
  match requests a !! r with Some q => state q =? 2 | None => false end.
Record counts_ok (a : ajax_state) : Prop := {
  ok_done : forall r, count (is_done r) (happened a) = (if ended a r then 1 else 0) + count (is_reopened r) (happened a);
  ok_globals : forall r q, requests a !! r = Some q -> fireGlobals q = true -> 1 <= count (is_counted r) (happened a);
  ok_uncounted : forall r, 1 <= count (is_uncounted r) (happened a) -> 1 <= count (is_counted r) (happened a);
  ok_active : active a = level (happened a);
  ok_alternate : alternate (happened a) = Some (0 <? active a)
}.
(** Ends that were not taken off the counter yet. *)
Definition due (a : ajax_state) (r : nat) : Z := count (is_done r) (happened a) - count (is_uncounted r) (happened a).
(** [k r]: how many of them may be taken off for [r]. *)
Definition step_k (k : nat -> Z) (a b : ajax_state) : Prop :=
  counts_ok a -> counts_ok b /\ (forall r, due a r - k r <= due b r) /\
    (forall r, count (is_counted r) (happened a) <= count (is_counted r) (happened b)).
Definition keep : ajax_state -> ajax_state -> Prop := step_k (fun _ => 0).

Lemma step_k_trans k1 k2 k a b c : (forall r, k1 r + k2 r <= k r) -> step_k k1 a b -> step_k k2 b c -> step_k k a c.
Proof.
  intros Hk H1 H2 Ha. destruct (H1 Ha) as (Hb & D1 & C1), (H2 Hb) as (Hc & D2 & C2).
  split; [done|]. split; intros r; [specialize (D1 r); specialize (D2 r); specialize (Hk r); lia|specialize (C1 r); specialize (C2 r); lia].
Qed.
#[local] Instance keep_preorder : PreOrder keep.
Proof.
  split.
  - intros a Ha. split; [done|]. split; intros r; lia.
  - intros a b c. apply step_k_trans. intros r. lia.
Qed.
Lemma moves_k {A C} k1 k2 k (m : M A) (g : A -> M C) : (forall r, k1 r + k2 r <= k r) -> (forall r, k1 r <= k r) ->
  moves (step_k k1) m -> (forall a, moves (step_k k2) (g a)) -> moves (step_k k) (bind m g).
Proof.
  intros Hk Hk1 Hm Hg w. specialize (Hm w). unfold bind. destruct (m w) as [[w1 [a|]]|]; [| |done].
  - specialize (Hg a w1). destruct (g a w1) as [[w2 r]|]; [|done]. by apply (step_k_trans k1 k2 k _ (more w1)).
  - intros Ha. destruct (Hm Ha) as (Hb & D & Hc). split; [done|]. split; [|done]. intros r. specialize (D r). specialize (Hk1 r). lia.
Qed.

(** ** Changes that leave the counting alone *)

Lemma keep_same a b : happened b = happened a -> active b = active a -> (forall r, ended b r = ended a r) ->
  (forall r q, requests b !! r = Some q -> fireGlobals q = true -> exists q', requests a !! r = Some q' /\ fireGlobals q' = true) ->
  keep a b.
Proof.
  intros Hh Ha He Hg [H1 H2 H3 H4 H5]. split.
  - constructor; rewrite ?Hh, ?Ha; try done.
    + intros r. by rewrite He.
    + intros r q Hq Hf. destruct (Hg r q Hq Hf) as (q' & Hq' & Hf'). by apply (H2 r q').
  - unfold due. rewrite Hh. split; intros r; lia.
Qed.
Lemma keep_request r f a : (forall q, state (f q) = state q /\ fireGlobals (f q) = fireGlobals q) ->
  keep a (with_requests (alter f r) a).
Proof.
  intros Hf. apply keep_same; [done..| |]; cbn.
  - intros r'. unfold ended. cbn. destruct (decide (r = r')) as [->|Hn]; [|by rewrite list_lookup_alter_ne].
    rewrite list_lookup_alter_eq. destruct (requests a !! r') as [q|]; [|done]. cbn. by rewrite (proj1 (Hf q)).
  - intros r' q Hq Hg. destruct (decide (r = r')) as [->|Hn].
    + rewrite list_lookup_alter_eq in Hq. destruct (requests a !! r') as [q'|]; [|done]. injection Hq as <-.
      exists q'. split; [done|]. by rewrite <- (proj2 (Hf q')).
    + rewrite list_lookup_alter_ne in Hq by done. by exists q.
Qed.
(** An event that is not counted. *)
Definition silent (e : happening) : Prop :=
  level1 e = 0 /\ (forall b, alternate1 b e = b) /\ forall r, is_done r e = false /\ is_counted r e = false /\ is_uncounted r e = false /\ is_reopened r e = false.
Lemma keep_silent e a : silent e -> keep a (happen e a).
Proof.
  intros (Hl & Ha & Hc) [H1 H2 H3 H4 H5]. split.
  - constructor; cbn [happen happened active requests]; intros; rewrite ?count_snoc, ?level_snoc, ?alternate_snoc, ?Ha, ?Hl, ?H4.
    + destruct (Hc r) as (-> & _ & _ & ->). specialize (H1 r). unfold ended in *. cbn. lia.
    + destruct (Hc r) as (_ & -> & _). pose proof (H2 r q H H0). lia.
    + rewrite count_snoc in H. destruct (Hc r) as (_ & E1 & E2 & _). rewrite E2 in H. rewrite E1. specialize (H3 r). lia.
    + lia.
    + by rewrite H5, H4.
  - unfold due. cbn [happen happened]. split; intros r; rewrite !count_snoc; destruct (Hc r) as (E1 & E2 & E3 & _);
      rewrite ?E1, ?E2, ?E3; lia.
Qed.

(** ** The events that count *)

(** [done]: the entry. *)
Lemma step_done r q g a : requests a !! r = Some q -> state q <> 2 -> (forall q, state (g q) = 2 /\ fireGlobals (g q) = fireGlobals q) ->
  step_k (fun r' => if (r' =? r)%nat then -1 else 0) a (with_requests (alter g r) (happen (Done r) a)).
Proof.
  intros Hq Hst Hg [H1 H2 H3 H4 H5]. split.
  - constructor; cbn [with_requests happen happened active requests]; intros; rewrite ?count_snoc, ?level_snoc, ?alternate_snoc; cbn [level1 alternate1 is_done is_counted is_uncounted is_reopened].
    + rewrite H1. unfold ended. cbn [with_requests happen requests]. rewrite (Nat.eqb_sym r). destruct (Nat.eqb_spec r0 r) as [->|Hn].
      * rewrite list_lookup_alter_eq, Hq. cbn. rewrite (proj1 (Hg q)), Z.eqb_refl, (proj2 (Z.eqb_neq (state q) 2)) by done. lia.
      * rewrite list_lookup_alter_ne by done. lia.
    + destruct (decide (r = r0)) as [->|Hn].
      * rewrite list_lookup_alter_eq, Hq in H. injection H as <-. rewrite (proj2 (Hg q)) in H0. pose proof (H2 r0 q Hq H0). lia.
      * rewrite list_lookup_alter_ne in H by done. pose proof (H2 r0 q0 H H0). lia.
    + rewrite count_snoc in H. cbn in H. specialize (H3 r0). lia.
    + lia.
    + rewrite H5. by destruct (0 <? active a).
  - unfold due. cbn [with_requests happen happened]. split; intros r'; rewrite !count_snoc; cbn [is_done is_counted is_uncounted]; rewrite ?(Nat.eqb_sym r); destruct (r' =? r)%nat; lia.
Qed.
(** [state = 1] *)
Lemma keep_opened r q a : requests a !! r = Some q -> keep a (with_requests (alter (set_state 1) r) (happen (Opened r (state q)) a)).
Proof.
  intros Hq [H1 H2 H3 H4 H5]. split.
  - constructor; cbn [with_requests happen happened active requests]; intros; rewrite ?count_snoc, ?level_snoc, ?alternate_snoc; cbn [level1 alternate1 is_done is_counted is_uncounted is_reopened].
    + rewrite H1. unfold ended. cbn [with_requests happen requests]. rewrite (Nat.eqb_sym r). destruct (Nat.eqb_spec r0 r) as [->|Hn].
      * rewrite list_lookup_alter_eq, Hq. cbn. destruct (state q =? 2); lia.
      * rewrite list_lookup_alter_ne by done. cbn. lia.
    + destruct (decide (r = r0)) as [->|Hn].
      * rewrite list_lookup_alter_eq, Hq in H. injection H as <-. pose proof (H2 r0 q Hq H0). lia.
      * rewrite list_lookup_alter_ne in H by done. pose proof (H2 r0 q0 H H0). lia.
    + rewrite count_snoc in H. cbn in H. specialize (H3 r0). lia.
    + lia.
    + rewrite H5. by destruct (0 <? active a).
  - unfold due. cbn [with_requests happen happened]. split; intros r'; rewrite !count_snoc; cbn; lia.
Qed.
(** The counter goes up: a start event when it was 0. *)
Definition count_up (r : nat) (a : ajax_state) : ajax_state :=
  let b := with_active (active a + 1) (happen (Counted r) a) in
  if active a =? 0 then happen (Triggered AjaxStart) b else b.
Definition count_down (r : nat) (a : ajax_state) : ajax_state :=
  let b := with_active (active a - 1) (happen (Uncounted r) a) in
  if active a =? 1 then happen (Triggered AjaxStop) b else b.
Lemma keep_count_up r a : keep a (count_up r a).
Proof.
  intros [H1 H2 H3 H4 H5]. unfold count_up. destruct (Z.eqb_spec (active a) 0) as [E|E]; (split; [constructor|]);
    cbn [with_active happen happened active requests]; intros; rewrite ?count_snoc, ?level_snoc, ?alternate_snoc;
    cbn [level1 is_done is_counted is_uncounted is_reopened].
  1, 7: rewrite H1; unfold ended; cbn; lia.
  1, 6: pose proof (H2 r0 q H H0); destruct (r =? r0)%nat; lia.
  1, 5: rewrite ?count_snoc in H; cbn [is_uncounted] in H; specialize (H3 r0); destruct (r =? r0)%nat; lia.
  1, 4: lia.
  1: by rewrite H5, E.
  2: rewrite H5; cbn; destruct (Z.ltb_spec 0 (active a)), (Z.ltb_spec 0 (active a + 1)); try done; lia.
  all: unfold due; cbn [with_active happen happened]; split; intros r'; rewrite !count_snoc; cbn; destruct (r =? r')%nat; lia.
Qed.
Lemma step_count_down r a : 1 <= count (is_counted r) (happened a) ->
  step_k (fun r' => if (r' =? r)%nat then 1 else 0) a (count_down r a).
Proof.
  intros Hc [H1 H2 H3 H4 H5]. unfold count_down. destruct (Z.eqb_spec (active a) 1) as [E|E]; (split; [constructor|]);
    cbn [with_active happen happened active requests]; intros; rewrite ?count_snoc, ?level_snoc, ?alternate_snoc;
    cbn [level1 is_done is_counted is_uncounted is_reopened].
  1, 7: rewrite H1; unfold ended; cbn; lia.
  1, 6: pose proof (H2 r0 q H H0); lia.
  1, 5: rewrite ?count_snoc in H; cbn [is_uncounted] in H; specialize (H3 r0); destruct (Nat.eqb_spec r r0); subst; lia.
  1, 4: lia.
  1: by rewrite H5, E.
  2: rewrite H5; cbn; destruct (Z.ltb_spec 0 (active a)), (Z.ltb_spec 0 (active a - 1)); try done; lia.
  all: unfold due; cbn [with_active happen happened]; split; intros r'; rewrite !count_snoc; cbn [is_done is_counted is_uncounted]; rewrite ?(Nat.eqb_sym r); destruct (r' =? r)%nat; lia.
Qed.

(** ** The operations *)

Section Steps.
Context (bound : nat) (apply : cb -> value -> list value -> M value) (fire : lid -> data -> M unit).
Context (Happly : forall f context args, moves keep (apply f context args)) (Hfire : forall l D, moves keep (fire l D)).

Definition one (r r' : nat) : Z := if (r' =? r)%nat then 1 else 0.
Lemma keep_k r : forall a b, keep a b -> step_k (one r) a b.
Proof. intros a b H. apply (step_k_trans (fun _ => 0) (fun _ => 0) _ _ b); [intros r'; unfold one; case_match; lia|done|reflexivity]. Qed.
Lemma step_refl r a : step_k (one r) a a.
Proof. apply keep_k. reflexivity. Qed.
Lemma moves_one {A} r (m : M A) : moves keep m -> moves (step_k (one r)) m.
Proof. intros H w. specialize (H w). destruct (m w) as [[w' o]|]; [by apply keep_k|done]. Qed.
Lemma moves_then {A C} r (m : M A) (g : A -> M C) : moves keep m -> (forall a, moves (step_k (one r)) (g a)) -> moves (step_k (one r)) (bind m g).
Proof. apply moves_k; intros r'; unfold one; case_match; lia. Qed.

Lemma moves_update_request r f : (forall q, state (f q) = state q /\ fireGlobals (f q) = fireGlobals q) -> moves keep (update_request r f).
Proof. intros H. apply moves_change. intros a. by apply keep_request. Qed.
Lemma moves_the_request r : moves keep (the_request r).
Proof. unfold the_request. apply moves_bind; [apply _|apply moves_get; apply _|]. intros a. destruct (requests a !! r); [apply moves_ret|apply moves_throw]; apply _. Qed.
Lemma moves_call f context args : moves keep (call apply f context args).
Proof. apply Happly. Qed.
Lemma moves_trigger g args : alternate1 (Some true) (Triggered g) = Some true -> moves keep (trigger apply g args).
Proof.
  intros Hg. unfold trigger. apply moves_bind; [apply _| |intros _; apply moves_bind; [apply _|apply moves_call|intros _; apply moves_ret; apply _]].
  apply moves_change. intros a. apply keep_silent. split; [done|]. split; [|done]. by destruct g; try done; intros [[|]|].
Qed.
Lemma moves_when b m : moves keep m -> moves keep (when_ b m).
Proof. intros H. unfold when_. destruct b; [done|apply moves_ret; apply _]. Qed.

Ltac quiet_change := let q := fresh "q" in intros q; repeat (match goal with |- context [if ?b then _ else _] => destruct b end); by split.
Ltac count_step :=
  match goal with
  | |- moves _ (bind _ _) => apply moves_bind; [apply _| |intros ?]
  | |- moves _ (add_to _ _ _) => apply moves_add; [apply _|exact Hfire]
  | |- moves _ (fireWith _ _ _ _) => apply moves_fireWith; [apply _|exact Hfire]
  | |- moves _ (new_deferred _) => apply moves_new_deferred; [apply _|exact Hfire]
  | |- moves _ (put_list _ _) => apply moves_rest; intros ?; reflexivity
  | |- moves _ (modify _) => apply moves_rest; intros ?; reflexivity
  | |- moves _ (ret _) => apply moves_ret; apply _
  | |- moves _ throw => apply moves_throw; apply _
  | |- moves _ (get _) => apply moves_get; apply _
  | |- moves _ (fun _ => None) => apply moves_fuel
  | |- moves _ (the_request _) => apply moves_the_request
  | |- moves _ (update_request _ _) => apply moves_update_request; quiet_change
  | |- moves _ (call _ _ _ _) => apply moves_call
  | |- moves _ (catch _ _) => apply moves_catch; [apply _|..]
  | |- moves _ (when_ _ _) => apply moves_when
  | |- moves _ (trigger _ (if ?b then _ else _) _) => destruct b
  | |- moves _ (trigger _ _ _) => apply moves_trigger; reflexivity
  | |- moves _ (let _ := _ in _) => cbv zeta
  | |- moves _ (match ?x with _ => _ end) => destruct x
  end.
Ltac counting := repeat count_step.

Lemma moves_inspect fuel : forall seeking r t l, moves keep (inspect apply fuel seeking r t l).
Proof.
  induction fuel as [|fuel IH]; intros seeking r t l; cbn [inspect]; [apply moves_fuel|].
  apply moves_bind; [apply _|counting|intros a]. cbv zeta. generalize (t :: l).
  induction (default [] (assoc t (if seeking then transports a else prefilters a))) as [|f fs IHfs]; intros inspected; [counting|].
  counting; try apply IHfs; apply IH.
Qed.
Lemma moves_inspectPT seeking r : moves keep (inspectPrefiltersOrTransports bound apply seeking r).
Proof. unfold inspectPrefiltersOrTransports. counting; apply moves_inspect. Qed.
Lemma moves_convert_loop fuel : forall bubble cs prev types response, moves keep (convert_loop apply fuel bubble cs prev types response).
Proof.
  induction fuel as [|fuel IH]; intros bubble cs prev types response; cbn [convert_loop]; [apply moves_fuel|].
  unfold use_conv. counting; apply IH.
Qed.
Lemma moves_ajaxConvert r response : moves keep (ajaxConvert bound apply r response).
Proof. unfold ajaxConvert. counting; apply moves_convert_loop. Qed.
Lemma moves_statusCode r map : moves keep (jqXHR_statusCode fire r map).
Proof. unfold jqXHR_statusCode. counting. Qed.
Lemma moves_outcome r status native response : moves keep (outcome bound apply r status native response).
Proof.
  unfold outcome. counting; [|apply moves_ajaxConvert..]. apply moves_change. intros b. by apply keep_same; [..|intros r' q Hq Hf; exists q].
Qed.

(** What follows a change of the state that is a step. *)
Lemma moves_after {A} k1 k2 k (f : ajax_state -> ajax_state) (m : M A) (w : world) :
  (forall r, k1 r + k2 r <= k r) -> step_k k1 (more w) (f (more w)) -> moves (step_k k2) m ->
  match m (World (lists w) (states w) (whens w) (next_list w) (f (more w)) (trace w)) with
  | Some (w', _) => step_k k (more w) (more w')
  | None => True
  end.
Proof.
  intros Hk H1 Hm. specialize (Hm (World (lists w) (states w) (whens w) (next_list w) (f (more w)) (trace w))).
  destruct (m _) as [[w' o]|]; [|done]. by apply (step_k_trans k1 k2 k _ (f (more w))).
Qed.
Definition zero (r : nat) : Z := 0.
Lemma moves_stop g : moves keep (call apply (trigger_fn g) undef [];;; ret tt).
Proof. counting. Qed.

Lemma uncount_step r w : 1 <= count (is_counted r) (happened (more w)) ->
  match uncount apply r w with Some (w', _) => step_k (one r) (more w) (more w') | None => True end.
Proof.
  intros Hc. pose proof (step_count_down r (more w) Hc) as H.
  unfold uncount, happens, trigger, happens, change, when_, bind at 1, bind at 1, bind at 1, modify, get. cbn [more]. unfold count_down in H.
  change (active (happen (Uncounted r) (more w))) with (active (more w)). destruct (active (more w) =? 1) eqn:E.
  - unfold bind at 1. cbn [more lists states whens next_list trace].
    apply (moves_after (one r) zero (one r) (fun a => happen (Triggered AjaxStop) (with_active (active (more w) - 1) (happen (Uncounted r) a))));
      [intros r'; unfold zero; lia|exact H|apply moves_stop].
  - exact H.
Qed.
Lemma tell_keeps r ok success statusText error : moves keep (tell apply fire r ok success statusText error).
Proof. unfold tell. counting; apply moves_statusCode. Qed.
Lemma announce_ends r ok success statusText error : moves (step_k (one r)) (announce apply fire r ok success statusText error).
Proof.
  unfold announce. apply moves_then; [apply tell_keeps|intros _]. intros w. unfold bind at 1, the_request, bind at 1, get.
  destruct (requests (more w) !! r) as [q|] eqn:Eq; [|apply step_refl]. unfold ret at 1, when_.
  destruct (fireGlobals q) eqn:Eg; [|apply step_refl].
  pose proof (moves_trigger AjaxComplete [jqXHR (deferred q) r; settings_object r] eq_refl w) as Ht.
  unfold bind. destruct (trigger _ _ _ w) as [[w1 [x|]]|]; [|by apply keep_k|done].
  pose proof (uncount_step r w1) as Hu. destruct (uncount apply r w1) as [[w2 o]|]; [|done].
  intros Hok. destruct (Ht Hok) as (_ & _ & Hc). pose proof (ok_globals _ Hok r q Eq Eg) as Hg. specialize (Hc r).
  refine (step_k_trans zero (one r) (one r) _ _ _ _ Ht (Hu _) Hok); [intros r'; unfold zero; lia|lia].
Qed.
Lemma done_keeps r status native l headers : moves keep (done bound apply fire r status native l headers).
Proof.
  intros w. unfold done, bind at 1, the_request at 1, bind at 1, get.
  destruct (requests (more w) !! r) as [q|] eqn:Eq; [|apply (reflexivity (R := keep))]. unfold ret at 1.
  destruct (Z.eqb_spec (state q) 2) as [E|E]; [apply (reflexivity (R := keep))|].
  unfold happens, update_request at 1, change, bind at 1, bind at 1, modify. cbn [more lists states whens next_list trace].
  apply (moves_after (fun r' => - one r r') (one r) (fun _ => 0)
    (fun a => with_requests (alter (answered status headers) r) (happen (Done r) a))).
  - intros r'. lia.
  - pose proof (step_done r q (answered status headers) (more w) Eq E (fun q0 => conj eq_refl eq_refl)) as H.
    refine (step_k_trans _ zero _ _ _ _ _ H (reflexivity (R := keep) _)). intros r'. unfold zero, one. case_match; lia.
  - apply moves_then; [counting|intros q']. apply moves_then; [|intros response].
    { destruct l; counting. }
    apply moves_then; [apply moves_outcome|]. intros [[[ok success] statusText] error].
    apply moves_then; [counting|intros _]. apply announce_ends.
Qed.

Lemma moves_keep_after {A} (f : ajax_state -> ajax_state) (m : M A) (w : world) : keep (more w) (f (more w)) -> moves keep m ->
  match m (World (lists w) (states w) (whens w) (next_list w) (f (more w)) (trace w)) with
  | Some (w', _) => keep (more w) (more w')
  | None => True
  end.
Proof. apply (moves_after zero zero zero). intros r. unfold zero. lia. Qed.

(** The flag and the counter change together. *)
Definition globals_on (r : nat) (b : bool) (a : ajax_state) : ajax_state := with_requests (alter (set_fireGlobals b) r) a.
Lemma globals_on_count_up r a : count_up r (globals_on r true a) = globals_on r true (count_up r a).
Proof. unfold count_up. cbn. by destruct (active a =? 0). Qed.
Lemma count_up_counts r a : 1 <= count (is_counted r) (happened (count_up r a)).
Proof.
  unfold count_up. pose proof (count_nonneg (is_counted r) (happened a)).
  destruct (active a =? 0); cbn [with_active happen happened]; rewrite !count_snoc; cbn; rewrite Nat.eqb_refl; lia.
Qed.
Lemma keep_globals_on r a : 1 <= count (is_counted r) (happened a) -> keep a (globals_on r true a).
Proof.
  intros Hc [H1 H2 H3 H4 H5]. split; [constructor; try done|unfold due; split; intros r'; cbn; lia].
  - intros r'. rewrite H1. unfold ended. cbn. destruct (decide (r = r')) as [->|Hn]; [|by rewrite list_lookup_alter_ne].
    rewrite list_lookup_alter_eq. by destruct (requests a !! r').
  - intros r' q Hq Hg. cbn in *. destruct (decide (r = r')) as [->|Hn]; [done|].
    rewrite list_lookup_alter_ne in Hq by done. by apply (H2 r' q).
Qed.
Lemma keep_globals_off r a : keep a (globals_on r false a).
Proof.
  apply keep_same; [done..| |].
  - intros r'. unfold ended. cbn. destruct (decide (r = r')) as [->|Hn]; [|by rewrite list_lookup_alter_ne].
    rewrite list_lookup_alter_eq. by destruct (requests a !! r').
  - intros r' q Hq Hg. cbn in Hq. destruct (decide (r = r')) as [->|Hn].
    + rewrite list_lookup_alter_eq in Hq. destruct (requests a !! r'); [|done]. by injection Hq as <-.
    + rewrite list_lookup_alter_ne in Hq by done. by exists q.
Qed.
Lemma keep_count_request r a : keep a (count_up r (globals_on r true a)).
Proof. rewrite globals_on_count_up. etransitivity; [apply (keep_count_up r)|]. apply keep_globals_on, count_up_counts. Qed.
Lemma alter_flag r (a : ajax_state) q : requests a !! r = Some q ->
  with_requests (alter (fun q => set_fireGlobals (global (s q)) q) r) a = globals_on r (global (s q)) a.
Proof.
  intros Hq. unfold globals_on, with_requests. f_equal. apply list_eq. intros r'. destruct (decide (r = r')) as [->|Hn].
  - by rewrite !list_lookup_alter_eq, Hq.
  - by rewrite !list_lookup_alter_ne.
Qed.
Lemma count_request_keeps r : moves keep (count_request apply r).
Proof.
  intros w. unfold count_request, update_request, change, bind at 1, modify. cbv beta iota.
  unfold bind at 1, the_request, bind at 1, get. cbn [more requests with_requests].
  destruct (requests (more w) !! r) as [q|] eqn:Eq.
  - rewrite list_lookup_alter_eq, Eq. cbn [fmap option_fmap option_map]. unfold ret at 1. cbn [fireGlobals set_fireGlobals]. unfold when_ at 1.
    rewrite (alter_flag r (more w) q Eq). destruct (global (s q)); [|apply (keep_globals_off r)].
    unfold happens, change, bind at 1, bind at 1, bind at 1, modify, get, when_. cbn [more lists states whens next_list trace].
    pose proof (keep_count_request r (more w)) as H. unfold count_up in H.
    change (active (happen (Counted r) (globals_on r true (more w)))) with (active (more w)).
    change (active (globals_on r true (more w))) with (active (more w)) in H. destruct (active (more w) =? 0); [|exact H].
    unfold trigger, happens, change, bind at 1, modify. cbn [more lists states whens next_list trace].
    apply (moves_keep_after (fun a => happen (Triggered AjaxStart) (with_active (active (more w) + 1) (happen (Counted r) (globals_on r true a)))));
      [exact H|apply moves_stop].
  - rewrite (proj2 (lookup_ge_None _ _)) by (rewrite length_alter; by apply lookup_ge_None). cbn.
    assert (E : alter (fun q => set_fireGlobals (global (s q)) q) r (requests (more w)) = requests (more w)).
    { apply list_eq. intros r'. destruct (decide (r = r')) as [->|Hn]; [by rewrite list_lookup_alter_eq, Eq|by rewrite list_lookup_alter_ne]. }
    apply keep_same; [done..| |].
    + intros r'. unfold ended. cbn. by rewrite E.
    + intros r' q Hq. cbn in Hq. rewrite E in Hq. by exists q.
Qed.

Lemma moves_abort r text : moves keep (jqXHR_abort bound apply fire r text).
Proof. unfold jqXHR_abort. counting; apply done_keeps. Qed.
Lemma send_keeps r : moves keep (send bound apply fire r).
Proof.
  unfold send. apply moves_catch; [apply _|..]; [|counting; apply done_keeps].
  intros w. unfold bind at 1, the_request, bind at 1, get. destruct (requests (more w) !! r) as [q|] eqn:Eq; [|apply (reflexivity (R := keep))].
  unfold ret at 1. unfold happens, update_request, change, bind at 1, bind at 1, modify. cbn [more lists states whens next_list trace].
  apply (moves_keep_after (fun a => with_requests (alter (set_state 1) r) (happen (Opened r (state q)) a))); [by apply keep_opened|].
  counting.
Qed.
Lemma moves_open r : moves keep (open_request bound apply fire r).
Proof. unfold open_request. counting; first [apply moves_inspectPT | apply send_keeps | apply done_keeps]. Qed.
Lemma keep_new_request q a : state q = 0 -> fireGlobals q = false -> keep a (with_requests (fun l => l ++ [q]) a).
Proof.
  intros Hs Hf. apply keep_same; [done..| |].
  - intros r. unfold ended. cbn. destruct (decide (r < length (requests a))%nat) as [Hr|Hr]; [by rewrite lookup_app_l|].
    rewrite lookup_app_r, (proj2 (lookup_ge_None (requests a) r)) by lia. destruct (r - length (requests a))%nat as [|[|]]; cbn; [by rewrite Hs|done..].
  - intros r q' Hq Hg. cbn in Hq. destruct (decide (r < length (requests a))%nat) as [Hr|Hr]; [rewrite lookup_app_l in Hq by done; by exists q'|].
    rewrite lookup_app_r in Hq by lia. destruct (r - length (requests a))%nat as [|[|]]; [|done..]. cbn in Hq. congruence.
Qed.
Lemma setRequestHeader_same name val q : state (setRequestHeader name val q) = state q /\ fireGlobals (setRequestHeader name val q) = fireGlobals q.
Proof. unfold setRequestHeader. by destruct (state q =? 0). Qed.
Lemma setRequestHeaders_same l q : state (fold_left (fun q h => setRequestHeader h.1 h.2 q) l q) = state q /\
  fireGlobals (fold_left (fun q h => setRequestHeader h.1 h.2 q) l q) = fireGlobals q.
Proof.
  revert q. induction l as [|h l IH]; intros q; [done|]. cbn. destruct (IH (setRequestHeader h.1 h.2 q)) as [-> ->]. apply setRequestHeader_same.
Qed.
Lemma first_headers_same o a q : state (first_headers o a q) = state q /\ fireGlobals (first_headers o a q) = fireGlobals q.
Proof.
  unfold first_headers. cbv zeta. match goal with |- state (fold_left _ ?l ?q0) = _ /\ _ => destruct (setRequestHeaders_same l q0) as [-> ->] end.
  repeat (match goal with
          | |- context [setRequestHeader ?n ?v ?q0] => destruct (setRequestHeader_same n v q0) as [-> ->]
          | |- context [if ?b then _ else _] => destruct b
          | |- context [match assoc ?k ?l with _ => _ end] => destruct (assoc k l) as [[|]|]
          end); done.
Qed.
Lemma ajax_keeps o : moves keep (ajax bound apply fire o).
Proof.
  unfold ajax, new_lists, convert_data, address, before_send, install. counting.
  all: try first [apply moves_inspectPT | apply count_request_keeps | apply moves_abort | apply moves_open].
  - apply moves_change. intros b. by apply keep_new_request.
  - apply moves_change. intros b. by apply keep_same; [..|intros r q Hq Hf; exists q].
  - apply moves_update_request. intros q. apply first_headers_same.
Qed.
Lemma ajax_exec_keeps e : moves keep (ajax_exec bound apply fire e).
Proof.
  destruct e; cbn [ajax_exec]; unfold self; counting.
  all: try first [apply ajax_keeps | apply moves_statusCode | apply moves_abort | apply done_keeps
    | apply moves_update_request; intros q; apply setRequestHeader_same].
  all: apply moves_change; intros b; by apply keep_same; [..|intros r q Hq Hf; exists q].
Qed.
End Steps.
Lemma execute_keeps body fuel p : moves keep (execute body fuel p).
Proof.
  apply moves_execute; [apply _| |].
  - intros bound apply fire Ha Hf e. by apply ajax_exec_keeps.
  - intros. apply moves_ret. apply _.
Qed.
Lemma counts_ok_init : counts_ok ajax_init.
Proof. by constructor. Qed.
Lemma reached_counts body w : reached body w -> counts_ok (more w) /\ forall r, 0 <= due (more w) r.
Proof.
  induction 1 as [|w fuel p w' o _ [IH1 IH2] E]; [split; [apply counts_ok_init|intros r; unfold due, count; cbn; lia]|].
  pose proof (execute_keeps body fuel p w) as H. rewrite E in H. destruct (H IH1) as (Hok & Hd & _).
  split; [done|]. intros r. specialize (Hd r). specialize (IH2 r). lia.
Qed.

(** ** The level and the requests *)

Definition bounded (N : nat) (h : list happening) : Prop :=
  Forall (fun e => match e with Counted r | Uncounted r => (r < N)%nat | _ => True end) h.
Lemma sum_single (f : nat -> Z) r N : (r < N)%nat -> (forall r', r' <> r -> f r' = 0) ->
  foldr Z.add 0 (map f (seq 0 N)) = f r.
Proof.
  intros Hr Hf. assert (H : forall l, NoDup l -> foldr Z.add 0 (map f l) = if decide (r ∈ l) then f r else 0).
  { induction l as [|x l IH]; intros Hl; [by rewrite decide_False by apply not_elem_of_nil|].
    apply NoDup_cons in Hl as [Hx Hl]. cbn. rewrite IH by done. destruct (decide (x = r)) as [->|Hn].
    - rewrite decide_False, decide_True by (done || by left). lia.
    - rewrite Hf by done. destruct (decide (r ∈ l)); [rewrite decide_True by (by right)|rewrite decide_False]; [lia| |].
      + lia.
      + intros [->|]%elem_of_cons; done. }
  rewrite H by apply NoDup_seq. rewrite decide_True; [done|]. apply elem_of_seq. lia.
Qed.
Lemma sum_add (f g : nat -> Z) l : foldr Z.add 0 (map (fun r => f r + g r) l) = foldr Z.add 0 (map f l) + foldr Z.add 0 (map g l).
Proof. induction l; cbn; lia. Qed.
Definition open_count (h : list happening) (r : nat) : Z := count (is_counted r) h - count (is_uncounted r) h.
Lemma level_sum N h : bounded N h -> level h = foldr Z.add 0 (map (open_count h) (seq 0 N)).
Proof.
  induction h as [|e h IH] using rev_ind; intros Hb.
  - unfold open_count. induction (seq 0 N); [done|]. cbn. by rewrite <- IHl.
  - apply Forall_app in Hb as [Hb He]. inversion He as [|? ? He' _]; subst. rewrite level_snoc, IH by done.
    rewrite (map_ext (open_count (h ++ [e])) (fun r => open_count h r + ((if is_counted r e then 1 else 0) - (if is_uncounted r e then 1 else 0))))
      by (intros r; unfold open_count; rewrite !count_snoc; lia).
    rewrite sum_add. f_equal. destruct e; cbn in *.
    all: try (symmetry; clear; induction (seq 0 N); [done|]; cbn; by rewrite IHl).
    + rewrite (sum_single _ r) by (done || intros r' Hn; by rewrite (proj2 (Nat.eqb_neq r r')) by congruence). by rewrite Nat.eqb_refl.
    + rewrite (sum_single _ r) by (done || intros r' Hn; by rewrite (proj2 (Nat.eqb_neq r r')) by congruence). by rewrite Nat.eqb_refl.
Qed.
Lemma bounded_exists h : exists N, bounded N h.
Proof.
  induction h as [|e h [N IH]]; [exists 0%nat; constructor|].
  exists (N + match e with Counted r | Uncounted r => S r | _ => 0 end)%nat. constructor; [destruct e; lia|].
  eapply Forall_impl; [exact IH|]. intros []; lia.
Qed.
Lemma level_nonneg h : (forall r, count (is_uncounted r) h <= count (is_counted r) h) -> 0 <= level h.
Proof.
  intros H. destruct (bounded_exists h) as [N HN]. rewrite (level_sum N h HN).
  induction (seq 0 N) as [|r l IH]; cbn; [lia|]. specialize (H r). unfold open_count at 1. lia.
Qed.
End Counts.
