(* ===== verification/AjaxProps.v ===== *)
(** * Requests: what holds of them on every page *)

From Stdlib Require Import ZArith Lia.
From stdpp Require Import base tactics list numbers strings gmap.
From S2P Require Import Prelude JsValue Md5 ValidPage ValidRules Param Deferred DeferredFacts DeferredProps LibraryFacts Ajax AjaxFacts.
Local Open Scope Z_scope.
Local Open Scope deferred_scope.

Section Pages.
Context {B : Browser}.

(** C31. Whatever the callbacks of a page do - abort, answer, start other requests, throw -
    [done] runs its course once for a request, and again only after the code itself set the
    state of an ended request back to 1; it runs for every request that has ended. A request is taken off the
    counter of running ones no more often than it has ended, and only if it was counted. *)
Theorem ends_once body w r : reached body w ->
  let h := happened (more w) in
  count (is_done r) h = (if ended (more w) r then 1 else 0) + count (is_reopened r) h /\
  count (is_uncounted r) h <= count (is_done r) h /\
  (1 <= count (is_uncounted r) h -> 1 <= count (is_counted r) h).
Proof.
  intros [Hok Hdue]%reached_counts. split; [apply Hok|]. split; [|apply Hok]. specialize (Hdue r). unfold due in Hdue. lia.
Qed.

(** C32. [jQuery.active] is the number of requests counted and not taken off again, the events
    [ajaxStart] and [ajaxStop] alternate, the last of them was a start exactly if the
    counter is positive; it is never negative unless an ended request was opened again. *)
Theorem active_requests body w : reached body w ->
  let h := happened (more w) in
  active (more w) = level h /\ alternate h = Some (0 <? active (more w)) /\
  ((forall r, count (is_reopened r) h = 0) -> 0 <= active (more w)).
Proof.
  intros [Hok Hdue]%reached_counts. split; [apply Hok|]. split; [apply Hok|]. intros Hr. rewrite (ok_active _ Hok).
  apply level_nonneg. intros r. specialize (Hdue r). unfold due in Hdue. pose proof (ok_done _ Hok r) as Hd. rewrite Hr in Hd.
  pose proof (ok_uncounted _ Hok r). pose proof (count_nonneg (is_counted r) (happened (more w))). destruct (ended (more w) r); lia.
Qed.
End Pages.

(** ** Conversions *)

Definition plain_word (t : jstr) : Prop := t <> [] /\ Forall (fun c => c <> 32) t.
(** Keys such as "text json". *)
Definition two_words (cs : list (jstr * conv)) : Prop :=
  Forall (fun p => exists a b, p.1 = between a b /\ plain_word a /\ plain_word b) cs.
(** The converters from [prev] to [current]: one, or else the first pair with a type in the middle. *)
Definition inputs (cs : list (jstr * conv)) (target : jstr) : list (jstr * conv) :=
  omap (fun p => match split_on 32 p.1 with
                 | middle :: t :: _ => if js_eqb t target then Some (middle, p.2) else None
                 | _ => None
                 end) cs.
Definition pairs (cs l : list (jstr * conv)) (prev current : jstr) : list (list conv) :=
  omap (fun p => (fun c => [c; p.2]) <$> direct cs prev p.1) (inputs l current).
Definition path (cs : list (jstr * conv)) (prev current : jstr) : option (list conv) :=
  match direct cs prev current with
  | Some c => Some [c]
  | None => head (pairs cs cs prev current)
  end.

Section Conversions.
Context {B : Browser} (apply : cb -> value -> list value -> M value).

Fixpoint use_all (bubble : bool) (l : list conv) (response : value) : M (option value) :=
  match l with
  | [] => ret (Some response)
  | c :: l => o <- use_conv apply bubble c response;;
              match o with Some v => use_all bubble l v | None => ret None end
  end.
Fixpoint chain (bubble : bool) (cs : list (jstr * conv)) (prev : jstr) (types : list jstr) (response : value) : M converted :=
  match types with
  | [] | [] :: _ => ret (Success response)
  | current :: types =>
      if js_eqb current (u "*") then chain bubble cs prev types response
      else if js_eqb prev (u "*") || js_eqb prev current then chain bubble cs current types response
      else match path cs prev current with
           | None => ret (ParserError (no_conversion prev current))
           | Some l =>
               o <- use_all bubble l response;;
               match o with Some v => chain bubble cs current types v | None => ret (ParserError SomeObject) end
           end
  end.

Lemma split_two a b : plain_word a -> plain_word b -> split_on 32 (between a b) = [a; b].
Proof. intros [_ Ha] [_ Hb]. unfold between. rewrite split_on_cons by done. by rewrite split_on_none. Qed.
Lemma assoc_in {A} k (x : A) l : NoDup (map fst l) -> (k, x) ∈ l -> assoc k l = Some x.
Proof.
  induction l as [|[k' y] l IH]; cbn; [by intros _ ?%elem_of_nil|]. intros [Hk Hl]%NoDup_cons H.
  unfold js_eqb. case_bool_decide as Hn; [subst k'|].
  - apply elem_of_cons in H as [[= ->]|H]; [done|]. destruct Hk. apply list_elem_of_fmap. by exists (k, x).
  - apply elem_of_cons in H as [[= -> ->]|H]; [done|]. by apply IH.
Qed.
Lemma NoDup_lowercased cs : NoDup (map fst (lowercased cs)).
Proof.
  unfold lowercased. assert (H : forall l, NoDup (map fst l) -> NoDup (map fst (fold_left (fun l p => assoc_set (to_lower p.1) p.2 l) cs l))).
  { induction cs as [|p cs IH]; intros l Hl; [done|]. cbn. apply IH. by apply NoDup_assoc_set. }
  apply H. constructor.
Qed.

(** What [seek_pair] finds is the first pair. *)
Lemma seek_pair_spec cs l prev current : two_words l -> direct cs prev current = None -> l ⊆ cs ->
  match seek_pair cs l prev current with
  | None => head (pairs cs l prev current) = None
  | Some (c, inserted) => exists m c1 c2, (between m current, c2) ∈ cs /\ plain_word m /\ plain_word current /\ direct cs prev m = Some c1 /\
      head (pairs cs l prev current) = Some [c1; c2] /\
      ((c1 = Equivalent /\ c = c2 /\ inserted = None) \/ (c = c1 /\ inserted = if decide (c2 = Equivalent) then None else Some m))
  end.
Proof.
  intros Hw Hd. induction Hw as [|[k c2] l (a & b & Hk & Ha & Hb) _ IH]; intros Hl; [done|]. cbn in Hk. subst k.
  assert (Hin : (between a b, c2) ∈ cs) by (apply Hl; left). specialize (IH (fun x H => Hl x (list_elem_of_further _ _ _ H))).
  unfold pairs, inputs. cbn [seek_pair omap list_omap fst snd]. rewrite split_two by done.
  unfold js_eqb. case_bool_decide as Hn; [subst b|exact IH]. cbn [omap list_omap fst snd].
  destruct (direct cs prev a) as [[|f]|] eqn:E; cbn [fmap option_fmap option_map head]; [| |exact IH].
  - exists a, Equivalent, c2. repeat (split; [done|]). by left.
  - exists a, (Convert f), c2. repeat (split; [done|]). by right.
Qed.
Lemma direct_in cs m current c : NoDup (map fst cs) -> (between m current, c) ∈ cs -> direct cs m current = Some c.
Proof. intros Hd Hc. unfold direct. by rewrite (assoc_in _ c). Qed.

(** One type inserted, then found as the type before: two turns of the loop. *)
Lemma inserted_turns bubble cs m current types response fuel c w : direct cs m current = Some c -> plain_word m -> plain_word current ->
  js_eqb m (u "*") = false -> js_eqb current (u "*") = false -> js_eqb m current = false ->
  convert_loop apply (S (S fuel)) bubble cs m (m :: current :: types) response w =
  (o <- use_conv apply bubble c response;;
   match o with Some v => convert_loop apply fuel bubble cs current types v | None => ret (ParserError SomeObject) end) w.
Proof.
  intros Hd [Hm _] [Hc _] Em Ec Ed. cbn [convert_loop]. destruct m as [|x m]; [done|]. rewrite Em.
  replace (js_eqb (x :: m) (x :: m)) with true by (symmetry; by apply bool_decide_eq_true). cbn [orb].
  destruct current as [|y current]; [done|]. rewrite Ec, Ed. cbn [orb]. rewrite Hd. done.
Qed.
Lemma bind_ext {A C} (m : M A) (k k' : A -> M C) w : (forall a w, k a w = k' a w) -> bind m k w = bind m k' w.
Proof. intros H. unfold bind. destruct (m w) as [[w' [a|]]|]; [apply H|done..]. Qed.
Lemma use_one bubble c response (g : value -> M converted) w :
  (o <- use_conv apply bubble c response;; match o with Some v => g v | None => ret (ParserError SomeObject) end) w =
  (o <- use_all bubble [c] response;; match o with Some v => g v | None => ret (ParserError SomeObject) end) w.
Proof.
  cbn [use_all]. unfold bind. destruct (use_conv apply bubble c response w) as [[w' [[v|]|]]|]; done.
Qed.
Lemma use_two bubble c1 c2 response (g : value -> M converted) w :
  (o <- use_all bubble [c1; c2] response;; match o with Some v => g v | None => ret (ParserError SomeObject) end) w =
  (o <- use_conv apply bubble c1 response;;
   match o with
   | Some v => o <- use_all bubble [c2] v;; match o with Some v => g v | None => ret (ParserError SomeObject) end
   | None => ret (ParserError SomeObject)
   end) w.
Proof. cbn [use_all]. unfold bind. destruct (use_conv apply bubble c1 response w) as [[w' [[v|]|]]|]; done. Qed.
Lemma direct_star cs m : two_words cs -> NoDup (map fst cs) -> plain_word m -> (exists c, (between (u "*") m, c) ∈ cs) -> forall prev, direct cs prev m <> None.
Proof.
  intros _ Hd _ [c Hc] prev. unfold direct. destruct (assoc _ cs); [done|]. by rewrite (assoc_in _ c).
Qed.

(** C33. The loop puts the type in the middle into the list it runs over and looks for the
    second converter in a later turn: the effect is that of the converters of [path], one
    after the other, for each two consecutive types. *)
Theorem conversion_chain settings_converters bubble types prev response fuel w :
  let cs := lowercased settings_converters in
  two_words cs -> (3 * length types < fuel)%nat ->
  convert_loop apply fuel bubble cs prev types response w = chain bubble cs prev types response w.
Proof.
  intros cs Hw. pose proof (NoDup_lowercased settings_converters : NoDup (map fst cs)) as Hd. clearbody cs.
  revert prev response fuel w. induction types as [|current types IH]; intros prev response fuel w Hf; cbn [length] in Hf.
  { destruct fuel; [lia|done]. }
  destruct fuel as [|[|[|fuel]]]; [lia..|]. cbn [chain]. remember (S (S fuel)) as fuel' eqn:Ef. cbn [convert_loop].
  destruct current as [|x current']; [done|]. set (current := x :: current') in *.
  destruct (js_eqb current (u "*")) eqn:Es; [apply IH; lia|].
  destruct (js_eqb prev (u "*") || js_eqb prev current) eqn:Ep; [apply IH; lia|]. unfold path.
  destruct (direct cs prev current) as [c|] eqn:Edir.
  { rewrite <- (use_one _ _ _ (chain bubble cs current types)). apply bind_ext. intros [v|] w'; [apply IH; lia|done]. }
  pose proof (seek_pair_spec cs cs prev current Hw Edir ltac:(done)) as Hs.
  destruct (seek_pair cs cs prev current) as [[c inserted]|]; [|by rewrite Hs].
  destruct Hs as (m & c1 & c2 & Hin & Hm & Hcur & H1 & -> & Hcase).
  rewrite (use_two _ _ _ _ (chain bubble cs current types)). destruct Hcase as [(-> & -> & ->)|(-> & ->)].
  - change ((o <- use_conv apply bubble c2 response;;
       match o with Some v => convert_loop apply fuel' bubble cs current types v | None => ret (ParserError SomeObject) end) w =
      (o <- use_all bubble [c2] response;;
       match o with Some v => chain bubble cs current types v | None => ret (ParserError SomeObject) end) w).
    rewrite <- (use_one _ _ _ (chain bubble cs current types)). apply bind_ext. intros [v|] w'; [apply IH; lia|done].
  - apply bind_ext. intros [v|] w'; [|done]. rewrite <- (use_one _ _ _ (chain bubble cs current types)).
    assert (Hm' : js_eqb m (u "*") = false).
    { apply bool_decide_eq_false. intros ->. exact (direct_star cs current Hw Hd Hcur (ex_intro _ c2 Hin) prev Edir). }
    assert (Hmc : js_eqb m current = false) by (apply bool_decide_eq_false; intros ->; congruence).
    case_decide as Ec.
    + subst c2. cbn [use_conv]. unfold bind, ret. apply IH. lia.
    + subst fuel'. rewrite (inserted_turns bubble cs m current types v fuel c2 w'); [|by apply direct_in|done..].
      apply bind_ext. intros [v'|] w2; [apply IH; lia|done].
Qed.
End Conversions.

(** ** A page *)

Section Page.
(** Handlers of [ajaxSend] are function 91, those of the other events function 90. *)
Local Instance page : Browser :=
  {| ajaxLocation := u "http://x.cn/a.html"; nonce0 := 7;
     trigger_fn g := match g with AjaxSend => 91 | _ => 90 end%nat;
     string_of v := match v with Prim p => to_str p | _ => u "Error" end;
     host_text _ := []; returns _ := VUndef |}.
Definition does_nothing (f : nat) (context : value) (args : list value) : prog := Return undef.
Definition aborts_in_send (f : nat) (context : value) (args : list value) : prog :=
  if (f =? 91)%nat then Do (Ext (Abort 0 None)) Return else Return undef.
Definition throws_in_success (f : nat) (context : value) (args : list value) : prog :=
  if (f =? 1)%nat then Throw else Return undef.
(** A request, with function 1 as its [success]. *)
Definition request_page : prog := get_json NoData (AFun (User 1)) (AFun (User 2)).

Lemma ends_once_witness :
  match execute (site_body does_nothing) 60 (Do (Ext (AjaxTransport (u "*") 50)) (fun _ => request_page)) world0 with
  | Some (w, _) =>
      let h := happened (more w) in
      count (is_done 0) h = (if ended (more w) 0 then 1 else 0) + count (is_reopened 0) h /\
      count (is_uncounted 0) h <= count (is_done 0) h /\
      (1 <= count (is_uncounted 0) h -> 1 <= count (is_counted 0) h)
  | None => False
  end.
Proof.
  pose proof (reached_by (site_body does_nothing) 60 (Do (Ext (AjaxTransport (u "*") 50)) (fun _ => request_page))) as H.
  destruct (execute _ _ _ world0) as [[w r]|] eqn:E; [|vm_compute in E; discriminate E].
  apply (ends_once (site_body does_nothing) w 0 H).
Defined.
Lemma active_requests_witness :
  match execute (site_body does_nothing) 60 request_page world0 with
  | Some (w, _) =>
      let h := happened (more w) in
      active (more w) = level h /\ alternate h = Some (0 <? active (more w)) /\
      ((forall r, count (is_reopened r) h = 0) -> 0 <= active (more w))
  | None => False
  end.
Proof.
  pose proof (reached_by (site_body does_nothing) 60 request_page) as H.
  destruct (execute _ _ _ world0) as [[w r]|] eqn:E; [|vm_compute in E; discriminate E].
  apply (active_requests (site_body does_nothing) w H).
Defined.

(** From text to table, by way of json. *)
Definition some_converters : list (jstr * conv) :=
  [(u "* text", Convert 80); (u "TEXT JSON", Convert 81); (u "json table", Convert 82)].
Definition wraps (f : cb) (context : value) (args : list value) : M value := ret (match f with Fn (User n) => Arr (Obj [n] :: args) | _ => undef end).
Lemma conversion_chain_witness :
  (3 * 1 < 9)%nat /\
  convert_loop wraps 9 false (lowercased some_converters) (u "text") [u "table"] undef world0 =
  chain wraps false (lowercased some_converters) (u "text") [u "table"] undef world0 /\
  chain wraps false (lowercased some_converters) (u "text") [u "table"] undef world0 =
  Some (world0, Ok (Success (Arr [Obj [82%nat]; Arr [Obj [81%nat]; undef]]))).
Proof.
  split; [lia|]. split; [|reflexivity]. apply (conversion_chain wraps some_converters false [u "table"] (u "text") undef 9 world0).
  - constructor; [exists (u "*"), (u "text")|constructor; [exists (u "text"), (u "json")|constructor; [exists (u "json"), (u "table")|constructor]]];
      (split; [reflexivity|split; (split; [discriminate|repeat constructor; discriminate])]).
  - cbn. lia.
Defined.

(** A handler of [ajaxSend] that aborts: [state = 1] takes the request for a new one, it
    ends twice and the counter of running requests becomes negative. *)
Example abort_in_send :
  match execute (site_body aborts_in_send) 60 request_page world0 with
  | Some (w, _) =>
      match execute (site_body aborts_in_send) 60 answer_ok w with
      | Some (w', _) => count (is_done 0) (happened (more w')) = 2 /\ active (more w') = -1
      | None => False
      end
  | None => False
  end.
Proof. vm_compute. split; reflexivity. Qed.
(** A [success] callback that throws: the counter stays at 1, and the next request
    triggers neither [ajaxStart] nor [ajaxStop]. *)
Example throw_in_success :
  match execute (site_body throws_in_success) 60 request_page world0 with
  | Some (w, _) =>
      match execute (site_body throws_in_success) 60 answer_ok w with
      | Some (w, r) => r = Thrown /\ active (more w) = 1 /\
          match execute (site_body throws_in_success) 60
                  (Do (Ext (Ajax (Options None None None false (json_settings (u "c.cgi") NoData AOther AOther)))) (fun _ =>
                   Do (Ext (Answer 1 200 (text_value (u "OK")) (Some [(u "text", text_value (u "[1]"))]) [])) Return)) w with
          | Some (w', r') => (exists v, r' = Ok v) /\ active (more w') = 1 /\
              drop (length (happened (more w))) (happened (more w')) =
              [Counted 1; Triggered AjaxSend; Opened 1 0; Done 1; Triggered AjaxSuccess; Triggered AjaxComplete; Uncounted 1]
          | None => False
          end
      | None => False
      end
  | None => False
  end.
Proof. vm_compute. repeat split. by eexists. Qed.
End Page.
