(* ===== verification/Event.v ===== *)
(** * [html/resource/js/jquery.js]: events

    [jQuery.event] and the methods [on], [one], [off], [trigger]: an instance of
    [Library] and [LibraryCode], so a handler is a function of the page that may bind,
    remove and trigger while an event is being handled, and use lists and deferreds.
    Event objects are shared between the handlers and live in a store of their own, as
    the function objects that the code makes do.

    The tree of the document is state; the other facts about its nodes, what a selector
    selects and what the native methods of a node do come with the class [Dom]. The
    browser supports the bubbling of submit and change events, so their fixes for old
    browsers are not installed; that of focus and blur is modelled. *)

From Stdlib Require Import ZArith Lia.
From stdpp Require Import base tactics list numbers strings gmap.
From S2P Require Import Prelude JsValue ValidPage ValidRules Regex Deferred.
Set Warnings "-register-all".
Local Open Scope Z_scope.
Local Open Scope deferred_scope.

(** ** Types and namespaces *)

(** [rtypenamespace.exec(t)]: the type and the namespaces; [None] when it does not match. *)
Fixpoint before_dot (t : jstr) : jstr * option jstr :=
  match t with
  | [] => ([], None)
  | c :: t' => if c =? 46 then ([], Some t') else let p := before_dot t' in (c :: p.1, p.2)
  end.
Definition rtypenamespace (t : jstr) : option (jstr * option jstr) :=
  match before_dot t with
  | (_, Some []) => None
  | p => Some p
  end.
(** [sort()] of strings. *)
Fixpoint js_leb (a b : jstr) : bool :=
  match a, b with
  | [], _ => true
  | _ :: _, [] => false
  | x :: a, y :: b => (x <? y) || ((x =? y) && js_leb a b)
  end.
Fixpoint insert_name (x : jstr) (l : list jstr) : list jstr :=
  match l with
  | [] => [x]
  | y :: l' => if js_leb x y then x :: l else y :: insert_name x l'
  end.
Definition sort_names (l : list jstr) : list jstr := foldr insert_name [] l.
Definition namespaces_of (o : option jstr) : list jstr := sort_names (split_on 46 (default [] o)).

(** [new RegExp("(^|\\.)" + names.join("\\.(?:.*\\.|)") + "(\\.|$)")], for names without a
    special character. *)
Definition special_char (c : Z) : bool := bool_decide (c ∈ u "\^$.|?*+()[]{}").
Definition any_unit : regex := Star (Cls [(0, 65535)]).
Definition any_dot : regex := Star (Cls [(0, 9); (11, 12); (14, 8231); (8234, 65535)]).
Definition namespace_regex (names : list jstr) : regex :=
  seqs [opt (Seq any_unit (one 46));
        match names with
        | [] => Eps
        | n :: l => seqs (literal n :: flat_map (fun n => [one 46; opt (Seq any_dot (one 46)); literal n]) l)
        end;
        opt (Seq (one 46) any_unit)].

(** ** Handlers *)

(** A function that can be a handler: one that a page can name, or one that the code here made. *)
Inductive callee := Named (f : func) | Made (c : nat).
Definition as_cb (f : callee) : cb := match f with Named f => Fn f | Made c => Lib c end.
#[export] Instance callee_eq_dec : EqDecision callee.
Proof. solve_decision. Defined.

(** The object that [add] makes of a handler; [origType] is [None] where it is undefined. *)
Record handle_obj := HandleObj {
  h_type : jstr;
  origType : option jstr;
  h_data : value;
  handler : callee;
  guid : Z;
  h_selector : option jstr;
  h_namespace : jstr
}.
(** The handlers of a type on an element. *)
Record handler_list := HandlerList { hs : list handle_obj; delegateCount : Z }.
Definition truthy_text (o : option jstr) : bool := match o with Some (_ :: _) => true | _ => false end.

(** ** Event objects *)

Inductive original := NativeEvent (k : nat) | FakeEvent.
Record jevent := JEvent {
  ev_type : jstr;
  originalEvent : option original;
  ev_target : option nat;
  relatedTarget : option nat;
  button : option Z;
  which : option Z;
  isTrigger : bool;
  isSimulated : bool;
  ev_namespace : option jstr;
  namespace_re : option (list jstr);
  ev_result : value;
  ev_data : value;
  handleObj : option handle_obj;
  delegateTarget : option nat;
  currentTarget : option nat;
  defaultPrevented : bool; propagationStopped : bool; immediateStopped : bool
}.
(** An event of the browser, as far as [fix] copies it. *)
Record native := Native {
  n_type : jstr; n_target : option nat; n_relatedTarget : option nat;
  n_button : option Z; n_which : option Z; n_charCode : option Z; n_keyCode : option Z;
  fromElement : option nat; toElement : option nat;
  n_defaultPrevented : bool; returnValue : option value; cancelBubble : bool
}.
Definition new_event (type : jstr) (src : option original) (prevented : bool) : jevent :=
  JEvent type src None None None None false false None None undef undef None None None prevented false false.

(** The function objects that the code makes. *)
Inductive closure :=
  | ReturnFalse
  | Once (f : callee).                        (* of [one] *)

(** What happened, for the theorems: the handlers that ran and the native methods called. *)
Inductive ev_happening := Ran (e elem : nat) (h : handle_obj) | Acted (elem : nat) (type : jstr).

Record event_state := EventState {
  handlers_of : gmap nat (list (jstr * handler_list));     (* [_data(elem, "events")] *)
  events : list jevent;
  natives : list native;
  closures : list closure;
  guids : list (callee * Z);
  next_guid : Z;
  listeners : list (nat * jstr);                           (* of [addEventListener(type, handle, false)] *)
  attaches : Z * Z;                                        (* of focusin and focusout *)
  captures : bool * bool;                                  (* is the document listening to focus and blur *)
  triggered : option jstr;
  inline : list ((nat * jstr) * callee);                       (* the properties [onclick] and the like *)
  parents : gmap nat nat;
  activeElement : nat;
  ev_happened : list ev_happening
}.

(** ** What a page can do *)

(** An argument of [on] and [off]. *)
Inductive evarg := EUndef | ENull | EFalse | EStr (s : jstr) | EFun (f : func) | EData (v : value).
Inductive types_arg := Types (t : jstr) | TypesMap (l : list (jstr * evarg)).
(** What is given to [trigger]: a type, an event object, or an object with a type and
    perhaps namespaces. *)
Inductive trigger_arg := TType (t : jstr) | TEvent (e : nat) | TProps (t : jstr) (namespace : option jstr).
Inductive event_op :=
  | On (elems : list nat) (types : types_arg) (selector data fn : evarg) (one : bool)
  | AddObj (elem : nat) (type : jstr) (h : handle_obj)      (* [jQuery.event.add(elem, type, handleObj)] *)
  | Off (elems : list nat) (types : types_arg) (selector fn : evarg)
  | OffEvent (e : nat)
  | Trigger (elems : list nat) (t : trigger_arg) (data : list value)
  | TriggerHandler (elem : option nat) (t : trigger_arg) (data : list value)
  | NewEvent (type : jstr)
  | PreventDefault (e : nat)
  | StopPropagation (e : nat)
  | StopImmediatePropagation (e : nat)
  | Look (e : nat) (f : jevent -> value)                    (* reading a property of an event *)
  | NewNative (k : native)
  | Deliver (elem : nat) (k : nat)                           (* the browser calls the listener of an element *)
  | Captured (blur : bool) (k : nat)                        (* and the one of the document *)
  | SetInline (elem : nat) (type : jstr) (f : option func)
  | Append (n : nat) (parent : option nat)
  | SetActive (n : nat).

(** What the document and the browser supply. *)
Class Dom := {
  document : nat;
  node_type : nat -> Z;                                (* 0 where there is none *)
  is_window : nat -> bool;
  acceptData : nat -> bool;
  disabled : nat -> bool;
  is_anchor : nat -> bool;
  is_checkbox : nat -> bool;                           (* an input of that type *)
  ownerDocument : nat -> option nat;
  window_of : nat -> nat;                              (* of a document *)
  native_method : nat -> jstr -> option nat;           (* [elem[type]], a function of the page *)
  selects : gmap nat nat -> jstr -> nat -> nat -> bool;    (* is the node among those of the selector, in a context *)
  exotic_re : list jstr -> jstr -> bool;               (* expressions of namespaces with special characters *)
  focusinBubbles : bool                                (* [jQuery.support] *)
}.

Definition return_false : callee := Made 0.
Definition event_init {D : Dom} : event_state :=
  EventState ∅ [] [] [ReturnFalse] [] 1 [] (0, 0) (false, false) None [] ∅ document [].
#[export] Instance event_library {D : Dom} : Library := {| lib_state := event_state; lib_op := event_op; lib_init := event_init |}.

Definition node (n : nat) : value := Obj [3%nat; n].
Definition event_object (e : nat) : value := Obj [4%nat; e].
Definition native_object (k : nat) : value := Obj [5%nat; k].
Definition event_of (v : value) : option nat := match v with Obj [4%nat; e] => Some e | _ => None end.

(** ** Fields *)

Definition set_handlers_of (x : gmap nat (list (jstr * handler_list))) (a : event_state) : event_state :=
  EventState x (events a) (natives a) (closures a) (guids a) (next_guid a) (listeners a) (attaches a) (captures a)
    (triggered a) (inline a) (parents a) (activeElement a) (ev_happened a).
Definition set_events (x : list jevent) (a : event_state) : event_state :=
  EventState (handlers_of a) x (natives a) (closures a) (guids a) (next_guid a) (listeners a) (attaches a) (captures a)
    (triggered a) (inline a) (parents a) (activeElement a) (ev_happened a).
Definition set_natives (x : list native) (a : event_state) : event_state :=
  EventState (handlers_of a) (events a) x (closures a) (guids a) (next_guid a) (listeners a) (attaches a) (captures a)
    (triggered a) (inline a) (parents a) (activeElement a) (ev_happened a).
Definition set_closures (x : list closure) (a : event_state) : event_state :=
  EventState (handlers_of a) (events a) (natives a) x (guids a) (next_guid a) (listeners a) (attaches a) (captures a)
    (triggered a) (inline a) (parents a) (activeElement a) (ev_happened a).
Definition set_guids (x : list (callee * Z)) (n : Z) (a : event_state) : event_state :=
  EventState (handlers_of a) (events a) (natives a) (closures a) x n (listeners a) (attaches a) (captures a)
    (triggered a) (inline a) (parents a) (activeElement a) (ev_happened a).
Definition set_listeners (x : list (nat * jstr)) (a : event_state) : event_state :=
  EventState (handlers_of a) (events a) (natives a) (closures a) (guids a) (next_guid a) x (attaches a) (captures a)
    (triggered a) (inline a) (parents a) (activeElement a) (ev_happened a).
Definition set_attaches (x : Z * Z) (c : bool * bool) (a : event_state) : event_state :=
  EventState (handlers_of a) (events a) (natives a) (closures a) (guids a) (next_guid a) (listeners a) x c
    (triggered a) (inline a) (parents a) (activeElement a) (ev_happened a).
Definition set_triggered (x : option jstr) (a : event_state) : event_state :=
  EventState (handlers_of a) (events a) (natives a) (closures a) (guids a) (next_guid a) (listeners a) (attaches a) (captures a)
    x (inline a) (parents a) (activeElement a) (ev_happened a).
Definition set_inline (x : list ((nat * jstr) * callee)) (a : event_state) : event_state :=
  EventState (handlers_of a) (events a) (natives a) (closures a) (guids a) (next_guid a) (listeners a) (attaches a) (captures a)
    (triggered a) x (parents a) (activeElement a) (ev_happened a).
Definition set_parents (x : gmap nat nat) (a : event_state) : event_state :=
  EventState (handlers_of a) (events a) (natives a) (closures a) (guids a) (next_guid a) (listeners a) (attaches a) (captures a)
    (triggered a) (inline a) x (activeElement a) (ev_happened a).
Definition set_activeElement (x : nat) (a : event_state) : event_state :=
  EventState (handlers_of a) (events a) (natives a) (closures a) (guids a) (next_guid a) (listeners a) (attaches a) (captures a)
    (triggered a) (inline a) (parents a) x (ev_happened a).
Definition ev_happen (x : ev_happening) (a : event_state) : event_state :=
  EventState (handlers_of a) (events a) (natives a) (closures a) (guids a) (next_guid a) (listeners a) (attaches a) (captures a)
    (triggered a) (inline a) (parents a) (activeElement a) (ev_happened a ++ [x]).

Definition set_ev_type (x : jstr) (e : jevent) : jevent :=
  JEvent x (originalEvent e) (ev_target e) (relatedTarget e) (button e) (which e) (isTrigger e) (isSimulated e) (ev_namespace e)
    (namespace_re e) (ev_result e) (ev_data e) (handleObj e) (delegateTarget e) (currentTarget e) (defaultPrevented e)
    (propagationStopped e) (immediateStopped e).
Definition set_trigger (t : option nat) (ns : list jstr) (e : jevent) : jevent :=
  JEvent (ev_type e) (originalEvent e) t (relatedTarget e) (button e) (which e) true (isSimulated e) (Some (join (u ".") ns))
    (match join (u ".") ns with [] => None | _ => Some ns end) undef (ev_data e) (handleObj e) (delegateTarget e) (currentTarget e)
    (defaultPrevented e) (propagationStopped e) (immediateStopped e).
Definition set_ev_result (x : value) (e : jevent) : jevent :=
  JEvent (ev_type e) (originalEvent e) (ev_target e) (relatedTarget e) (button e) (which e) (isTrigger e) (isSimulated e) (ev_namespace e)
    (namespace_re e) x (ev_data e) (handleObj e) (delegateTarget e) (currentTarget e) (defaultPrevented e)
    (propagationStopped e) (immediateStopped e).
Definition set_current (x : nat) (e : jevent) : jevent :=
  JEvent (ev_type e) (originalEvent e) (ev_target e) (relatedTarget e) (button e) (which e) (isTrigger e) (isSimulated e) (ev_namespace e)
    (namespace_re e) (ev_result e) (ev_data e) (handleObj e) (delegateTarget e) (Some x) (defaultPrevented e)
    (propagationStopped e) (immediateStopped e).
Definition set_delegate (x : nat) (e : jevent) : jevent :=
  JEvent (ev_type e) (originalEvent e) (ev_target e) (relatedTarget e) (button e) (which e) (isTrigger e) (isSimulated e) (ev_namespace e)
    (namespace_re e) (ev_result e) (ev_data e) (handleObj e) (Some x) (currentTarget e) (defaultPrevented e)
    (propagationStopped e) (immediateStopped e).
Definition set_handle (h : handle_obj) (e : jevent) : jevent :=
  JEvent (ev_type e) (originalEvent e) (ev_target e) (relatedTarget e) (button e) (which e) (isTrigger e) (isSimulated e) (ev_namespace e)
    (namespace_re e) (ev_result e) (h_data h) (Some h) (delegateTarget e) (currentTarget e) (defaultPrevented e)
    (propagationStopped e) (immediateStopped e).
Definition set_flags (p s i : bool) (e : jevent) : jevent :=
  JEvent (ev_type e) (originalEvent e) (ev_target e) (relatedTarget e) (button e) (which e) (isTrigger e) (isSimulated e) (ev_namespace e)
    (namespace_re e) (ev_result e) (ev_data e) (handleObj e) (delegateTarget e) (currentTarget e) p s i.
Definition set_simulated (type : jstr) (e : jevent) : jevent :=
  JEvent type (Some FakeEvent) (ev_target e) (relatedTarget e) (button e) (which e) (isTrigger e) true (ev_namespace e)
    (namespace_re e) (ev_result e) (ev_data e) (handleObj e) (delegateTarget e) (currentTarget e) (defaultPrevented e)
    (propagationStopped e) (immediateStopped e).

(** ** Special events *)

Definition delegateType (t : jstr) : option jstr :=
  if js_eqb t (u "focus") then Some (u "focusin") else if js_eqb t (u "blur") then Some (u "focusout")
  else if js_eqb t (u "mouseenter") then Some (u "mouseover") else if js_eqb t (u "mouseleave") then Some (u "mouseout")
  else None.
Definition bindType (t : jstr) : option jstr :=
  if js_eqb t (u "mouseenter") then Some (u "mouseover") else if js_eqb t (u "mouseleave") then Some (u "mouseout") else None.
Definition noBubble (t : jstr) : bool := js_eqb t (u "load").
(** [(selector ? special.delegateType : special.bindType) || type] *)
Definition mapped_type (selector : option jstr) (t : jstr) : jstr :=
  default t (if truthy_text selector then delegateType t else bindType t).
(** [special.setup], where there is one: is it focusout. *)
Definition capturing {D : Dom} (t : jstr) : option bool :=
  if focusinBubbles then None
  else if js_eqb t (u "focusin") then Some false else if js_eqb t (u "focusout") then Some true else None.
(** [attaches++ === 0] and [--attaches === 0] *)
Definition attach (blur : bool) (a : event_state) : event_state :=
  if blur then set_attaches ((attaches a).1, (attaches a).2 + 1)
                 ((captures a).1, if (attaches a).2 =? 0 then true else (captures a).2) a
  else set_attaches ((attaches a).1 + 1, (attaches a).2)
         (if (attaches a).1 =? 0 then true else (captures a).1, (captures a).2) a.
Definition detach (blur : bool) (a : event_state) : event_state :=
  if blur then set_attaches ((attaches a).1, (attaches a).2 - 1)
                 ((captures a).1, if (attaches a).2 - 1 =? 0 then false else (captures a).2) a
  else set_attaches ((attaches a).1 - 1, (attaches a).2)
         (if (attaches a).1 - 1 =? 0 then false else (captures a).1, (captures a).2) a.

(** ** Adding and removing *)

Definition guid_of (f : callee) (a : event_state) : option Z := snd <$> find (fun p => bool_decide (p.1 = f)) (guids a).
(** [f.guid || (f.guid = jQuery.guid++)] *)
Definition with_guid (f : callee) (a : event_state) : event_state * Z :=
  match guid_of f a with
  | Some g => (a, g)
  | None => (set_guids ((f, next_guid a) :: guids a) (next_guid a + 1) a, next_guid a)
  end.
Definition type_words (t : jstr) : list jstr := match words t with [] => [[]] | l => l end.
(** The list of handlers of an element's types. *)
Definition lists_of (elem : nat) (a : event_state) : list (jstr * handler_list) := default [] (handlers_of a !! elem).
Definition add_handler (h : handle_obj) (l : handler_list) : handler_list :=
  if truthy_text (h_selector h)
  then HandlerList (take (Z.to_nat (delegateCount l)) (hs l) ++ h :: drop (Z.to_nat (delegateCount l)) (hs l)) (delegateCount l + 1)
  else HandlerList (hs l ++ [h]) (delegateCount l).

Section Code.
Context {D : Dom}.

Definition listen (elem : nat) (type : jstr) (a : event_state) : event_state :=
  match capturing type with
  | Some blur => attach blur a
  | None => if bool_decide ((elem, type) ∈ listeners a) then a else set_listeners (listeners a ++ [(elem, type)]) a
  end.
(** One turn of the loop of [add]. *)
Definition add_type (elem : nat) (given : option handle_obj) (f : callee) (g : Z) (data : value) (selector : option jstr)
    (t : jstr) (a : event_state) : event_state :=
  let p := rtypenamespace t in
  let type := match p with Some q => mapped_type selector q.1 | None => u "undefined" end in
  let h := match given with
           | Some h => HandleObj (h_type h) (match origType h with None => fst <$> p | o => o end) (match h_data h with Prim PUndef => data | v => v end) (handler h) (guid h)
                         (h_selector h) (h_namespace h)
           | None => HandleObj type (fst <$> p) data f g selector
                       (join (u ".") (namespaces_of (match p with Some q => q.2 | None => None end)))
           end in
  let a := match assoc type (lists_of elem a) with
           | Some _ => a
           | None => listen elem type (set_handlers_of (<[elem := assoc_set type (HandlerList [] 0) (lists_of elem a)]> (handlers_of a)) a)
           end in
  set_handlers_of
    (<[elem := assoc_set type (add_handler h (default (HandlerList [] 0) (assoc type (lists_of elem a)))) (lists_of elem a)]> (handlers_of a)) a.
(** [jQuery.event.add] *)
Definition event_add (elem : nat) (types : jstr) (given : option handle_obj) (f : callee) (data : value) (selector : option jstr)
    (a : event_state) : event_state :=
  if acceptData elem then
    let p := with_guid f a in
    fold_right (add_type elem given f p.2 data selector) p.1 (type_words types)
  else a.

(** [tmp.test(text)] for the expression of these names. *)
Definition namespace_test (names : list jstr) (text : jstr) : bool :=
  if existsb (existsb special_char) names then exotic_re names text else matches false (namespace_regex names) text.
(** Which handlers [remove] takes away. *)
Definition removable (mappedTypes : bool) (type : option jstr) (f : option (option Z)) (names : option (list jstr)) (selector : option jstr)
    (h : handle_obj) : bool :=
  (mappedTypes || bool_decide (type = origType h)) &&
  match f with None => true | Some g => bool_decide (g = Some (guid h)) end &&
  match names with None => true | Some l => namespace_test l (h_namespace h) end &&
  (negb (truthy_text selector) || bool_decide (selector = h_selector h) ||
   (bool_decide (selector = Some (u "**")) && truthy_text (h_selector h))).
(** [while (j--)] *)
Fixpoint remove_matching (m : handle_obj -> bool) (j : nat) (l : handler_list) : handler_list :=
  match j with
  | O => l
  | S j =>
      match hs l !! j with
      | Some h =>
          if m h then remove_matching m j
                        (HandlerList (delete j (hs l)) (if truthy_text (h_selector h) then delegateCount l - 1 else delegateCount l))
          else remove_matching m j l
      | None => remove_matching m j l
      end
  end.
(** [type] is the one before it is mapped: its special event has the teardown. *)
Definition unlisten (elem : nat) (orig type : jstr) (a : event_state) : event_state :=
  match capturing orig with
  | Some blur => detach blur a
  | None => set_listeners (filter (fun p => p <> (elem, type)) (listeners a)) a
  end.
Definition remove_type (elem : nat) (f : option (option Z)) (selector : option jstr) (mapped : bool) (type : jstr) (ns : option jstr)
    (a : event_state) : event_state :=
  let key := mapped_type selector type in
  match assoc key (lists_of elem a) with
  | None => a
  | Some l =>
      let names := match ns with Some (_ :: _) => Some (namespaces_of ns) | _ => None end in
      let l' := remove_matching (removable mapped (Some type) f names selector) (length (hs l)) l in
      if bool_decide (hs l <> []) && bool_decide (hs l' = [])
      then let a := unlisten elem type key a in
           set_handlers_of (<[elem := assoc_delete key (lists_of elem a)]> (handlers_of a)) a
      else set_handlers_of (<[elem := assoc_set key l' (lists_of elem a)]> (handlers_of a)) a
  end.
(** What is left without a type is dropped with the data of the element. *)
Definition tidy (elem : nat) (a : event_state) : event_state :=
  match handlers_of a !! elem with
  | Some [] => set_handlers_of (delete elem (handlers_of a)) a
  | _ => a
  end.
(** [jQuery.event.remove]; it calls itself for each type of the element when [types] names none. *)
Fixpoint event_remove (fuel : nat) (elem : nat) (types : jstr) (f : option (option Z)) (selector : option jstr) (mapped : bool)
    (a : event_state) : option event_state :=
  match fuel with
  | O => None
  | S fuel =>
      if acceptData elem && match handlers_of a !! elem with Some _ => true | None => false end then
        let one t (a : event_state) :=
          match rtypenamespace t with
          | Some ((_ :: _) as type, ns) => Some (remove_type elem f selector mapped type ns a)
          | _ => fold_left (fun o key => a ← o; event_remove fuel elem (key ++ t) f selector true a)
                   (map fst (lists_of elem a)) (Some a)
          end in
        tidy elem <$> fold_right (fun t o => a ← o; one t a) (Some a) (type_words types)
      else Some a
  end.

(** ** Event objects *)

Definition the_event (e : nat) : M jevent :=
  a <- get more;; match events a !! e with Some x => ret x | None => throw end.
Definition update_event (e : nat) (f : jevent -> jevent) : M unit := change (fun a => set_events (alter f e (events a)) a).
Definition make_event (x : jevent) : M nat :=
  a <- get more;; change (fun a => set_events (events a ++ [x]) a);;; ret (length (events a)).
Definition preventDefault (e : nat) : M unit :=
  x <- the_event e;;
  update_event e (fun x => set_flags true (propagationStopped x) (immediateStopped x) x);;;
  match originalEvent x with
  | Some (NativeEvent k) =>
      change (fun a => set_natives (alter (fun n => Native (n_type n) (n_target n) (n_relatedTarget n) (n_button n) (n_which n)
        (n_charCode n) (n_keyCode n) (fromElement n) (toElement n) true (returnValue n) (cancelBubble n)) k (natives a)) a)
  | _ => ret tt
  end.
Definition stopPropagation (e : nat) : M unit :=
  x <- the_event e;;
  update_event e (fun x => set_flags (defaultPrevented x) true (immediateStopped x) x);;;
  match originalEvent x with
  | Some (NativeEvent k) =>
      change (fun a => set_natives (alter (fun n => Native (n_type n) (n_target n) (n_relatedTarget n) (n_button n) (n_which n)
        (n_charCode n) (n_keyCode n) (fromElement n) (toElement n) (n_defaultPrevented n) (returnValue n) true) k (natives a)) a)
  | _ => ret tt
  end.
Definition stopImmediatePropagation (e : nat) : M unit :=
  update_event e (fun x => set_flags (defaultPrevented x) (propagationStopped x) true x);;; stopPropagation e.

(** [fix]: the target, and what the hooks for keys and the mouse add. *)
Definition rmouseEvent (t : jstr) : bool := prefix_b (u "mouse") t || prefix_b (u "contextmenu") t || contains t (u "click").
Definition rkeyEvent (t : jstr) : bool := prefix_b (u "key") t.
Definition fixed_target (n : native) (a : event_state) : option nat :=
  let t := default document (n_target n) in
  if node_type t =? 3 then parents a !! t else Some t.
Definition key_which (n : native) : option Z :=
  match n_which n with
  | Some w => Some w
  | None => match n_charCode n with Some c => Some c | None => n_keyCode n end
  end.
Definition mouse_which (n : native) : option Z :=
  match n_which n, n_button n with
  | Some 0, Some b | None, Some b =>
      Some (if Z.testbit b 0 then 1 else if Z.testbit b 1 then 3 else if Z.testbit b 2 then 2 else 0)
  | w, _ => w
  end.
Definition mouse_related (n : native) (target : option nat) : option nat :=
  match n_relatedTarget n, fromElement n with
  | None, Some f => if bool_decide (Some f = target) then toElement n else Some f
  | r, _ => r
  end.
Definition fixed (k : nat) (n : native) (a : event_state) : jevent :=
  let x := new_event (n_type n) (Some (NativeEvent k))
             (n_defaultPrevented n || match returnValue n with Some v => is_false v | None => false end) in
  let t := fixed_target n a in
  let mouse := rmouseEvent (n_type n) in
  JEvent (ev_type x) (originalEvent x) t
    (if mouse then mouse_related n t else n_relatedTarget n)
    (if mouse then n_button n else None)
    (if mouse then mouse_which n else if rkeyEvent (n_type n) then key_which n else n_which n)
    (isTrigger x) (isSimulated x) (ev_namespace x) (namespace_re x) (ev_result x) (ev_data x) (handleObj x)
    (delegateTarget x) (currentTarget x) (defaultPrevented x) (propagationStopped x) (immediateStopped x).
Definition event_fix (k : nat) : M nat :=
  a <- get more;;
  match natives a !! k with Some n => make_event (fixed k n a) | None => throw end.

(** ** The handlers of an event *)

(** The elements from the target up to [this], which is left out. [fuel]: the number of
    nodes that have a parent, and two. *)
Fixpoint up_to (fuel : nat) (par : gmap nat nat) (this cur : nat) : option (list nat) :=
  match fuel with
  | O => None
  | S fuel =>
      if (cur =? this)%nat then Some []
      else cons cur <$> match par !! cur with Some p => up_to fuel par this p | None => Some [] end
  end.
Definition up_fuel (par : gmap nat nat) : nat := S (S (size par)).
Definition delegates (a : event_state) (this : nat) (type : jstr) (l : handler_list) (cur : nat) : list handle_obj :=
  if (node_type cur =? 1) && (negb (disabled cur) || negb (js_eqb type (u "click")))
  then filter (fun h => selects (parents a) (default [] (h_selector h)) this cur = true) (take (Z.to_nat (delegateCount l)) (hs l))
  else [].
(** [jQuery.event.handlers]: the elements with the handlers to run on them. *)
Definition event_handlers (a : event_state) (this : nat) (x : jevent) (l : handler_list) : option (list (nat * list handle_obj)) :=
  let direct := if delegateCount l <? Z.of_nat (length (hs l)) then [(this, drop (Z.to_nat (delegateCount l)) (hs l))] else [] in
  match ev_target x with
  | Some t =>
      if negb (delegateCount l =? 0) && negb (node_type t =? 0)
         && (match button x with None | Some 0 => true | _ => false end || negb (js_eqb (ev_type x) (u "click")))
      then (fun path => filter (fun p => p.2 <> []) (map (fun cur => (cur, delegates a this (ev_type x) l cur)) path) ++ direct)
             <$> up_to (up_fuel (parents a)) (parents a) this t
      else Some direct
  | None => Some direct
  end.

(** ** Dispatching *)

Context (bound : nat).
Context (apply : cb -> value -> list value -> M value).

(** The nodes from [cur] up to the root. *)
Fixpoint climb (fuel : nat) (par : gmap nat nat) (cur : nat) : option (list nat) :=
  match fuel with
  | O => None
  | S fuel => cons cur <$> match par !! cur with Some p => climb fuel par p | None => Some [] end
  end.
Definition ancestors (par : gmap nat nat) (n : nat) : option (list nat) := tail <$> climb (up_fuel par) par n.
Definition lift {A} (o : option A) : M A := match o with Some x => ret x | None => fun _ => None end.
(** The call of a handler, through [special.handle] where there is one. *)
Definition invoke (e elem : nat) (h : handle_obj) (args : list value) : M value :=
  let call := change (ev_happen (Ran e elem h));;; apply (as_cb (handler h)) (node elem) (event_object e :: args) in
  match origType h with
  | Some orig =>
      match bindType orig with
      | Some fix_type =>
          x <- the_event e;;
          a <- get more;;
          outside <- (match relatedTarget x with
                      | Some r => if (r =? elem)%nat then ret false
                                  else l <- lift (ancestors (parents a) r);; ret (negb (bool_decide (elem ∈ l)))
                      | None => ret true
                      end);;
          if outside : bool then
            update_event e (set_ev_type orig);;; v <- call;; update_event e (set_ev_type fix_type);;; ret v
          else ret undef
      | None => call
      end
  | None => call
  end.
Definition dispatch_one (e elem : nat) (h : handle_obj) (args : list value) : M unit :=
  x <- the_event e;;
  if match namespace_re x with None => true | Some names => namespace_test names (h_namespace h) end then
    update_event e (set_handle h);;;
    v <- invoke e elem h args;;
    match v with
    | Prim PUndef => ret tt
    | _ => update_event e (set_ev_result v);;;
           if is_false v then preventDefault e;;; stopPropagation e else ret tt
    end
  else ret tt.
Fixpoint run_matched (e elem : nat) (l : list handle_obj) (args : list value) : M unit :=
  match l with
  | [] => ret tt
  | h :: l =>
      x <- the_event e;;
      if immediateStopped x then ret tt else dispatch_one e elem h args;;; run_matched e elem l args
  end.
Fixpoint run_queue (e : nat) (q : list (nat * list handle_obj)) (args : list value) : M unit :=
  match q with
  | [] => ret tt
  | (elem, l) :: q =>
      x <- the_event e;;
      if propagationStopped x then ret tt
      else update_event e (set_current elem);;; run_matched e elem l args;;; run_queue e q args
  end.
(** [special.postDispatch] of beforeunload *)
Definition postDispatch (e : nat) : M unit :=
  x <- the_event e;;
  match ev_result x, originalEvent x with
  | Prim PUndef, _ | _, Some FakeEvent => ret tt
  | v, Some (NativeEvent k) =>
      change (fun a => set_natives (alter (fun n => Native (n_type n) (n_target n) (n_relatedTarget n) (n_button n) (n_which n)
        (n_charCode n) (n_keyCode n) (fromElement n) (toElement n) (n_defaultPrevented n) (Some v) (cancelBubble n)) k (natives a)) a)
  | _, None => throw
  end.
(** [jQuery.event.dispatch], for an event object of the library *)
Definition event_dispatch (e this : nat) (args : list value) : M value :=
  a <- get more;;
  x <- the_event e;;
  let l := default (HandlerList [] 0) (assoc (ev_type x) (lists_of this a)) in
  update_event e (set_delegate this);;;
  if negb (delegateCount l =? 0) && bool_decide (ev_target x = None) then throw
  else
    q <- lift (event_handlers a this x l);;
    run_queue e q args;;;
    (if js_eqb (ev_type x) (u "beforeunload") then postDispatch e else ret tt);;;
    x <- the_event e;;
    ret (ev_result x).
(** The function [eventHandle] of an element *)
Definition event_handle (e this : nat) (args : list value) : M value :=
  a <- get more;;
  x <- the_event e;;
  if bool_decide (triggered a = Some (ev_type x)) then ret undef else event_dispatch e this args.

(** ** Triggering *)

Definition no_colon (t : jstr) : bool := negb (existsb (fun c => c =? 58) t).
Definition rfocusMorph (t : jstr) : bool := js_eqb t (u "focusinfocus") || js_eqb t (u "focusoutblur").
Definition inline_of (elem : nat) (type : jstr) (a : event_state) : option callee :=
  snd <$> find (fun p => bool_decide (p.1 = (elem, type))) (inline a).
Definition put_inline (elem : nat) (type : jstr) (f : option callee) (a : event_state) : event_state :=
  let rest := filter (fun p => p.1 <> (elem, type)) (inline a) in
  set_inline (match f with Some f => ((elem, type), f) :: rest | None => rest end) a.
(** [eventPath] *)
Definition event_path (par : gmap nat nat) (onlyHandlers : bool) (type : jstr) (elem : nat) : option (list nat) :=
  if negb onlyHandlers && negb (noBubble type) && negb (is_window elem) then
    let bubbleType := default type (delegateType type) in
    (fun above =>
       let above := if rfocusMorph (bubbleType ++ type) then elem :: above else above in
       let tmp := default elem (last above) in
       elem :: above ++ (if (tmp =? default document (ownerDocument elem))%nat then [window_of tmp] else []))
    <$> ancestors par elem
  else Some [elem].
Fixpoint fire_path (e : nat) (type : jstr) (first : bool) (path : list nat) (args : list value) : M unit :=
  match path with
  | [] => ret tt
  | cur :: path =>
      x <- the_event e;;
      if propagationStopped x then ret tt
      else
        let ty := if first then default type (bindType type) else default type (delegateType type) in
        update_event e (set_ev_type ty);;;
        a <- get more;;
        (match assoc ty (lists_of cur a) with Some _ => event_handle e cur args;;; ret tt | None => ret tt end);;;
        a <- get more;;
        (match (if no_colon type then inline_of cur type a else None) with
         | Some f => if acceptData cur
                     then v <- apply (as_cb f) (node cur) (event_object e :: args);; if is_false v then preventDefault e else ret tt
                     else ret tt
         | None => ret tt
         end);;;
        fire_path e type false path args
  end.
(** [special.trigger]: does it return false. *)
Definition call_native (elem : nat) (f : nat) : M value := apply (Fn (User f)) (node elem) [].
Definition special_trigger (type : jstr) (elem : nat) : M bool :=
  a <- get more;;
  match native_method elem type with
  | Some f =>
      if js_eqb type (u "click") then if is_checkbox elem then call_native elem f;;; ret true else ret false
      else if js_eqb type (u "focus") then
        if (elem =? activeElement a)%nat then ret false else catch (call_native elem f;;; ret true) (ret false)
      else if js_eqb type (u "blur") then
        if (elem =? activeElement a)%nat then call_native elem f;;; ret true else ret false
      else ret false
  | None => ret false
  end.
(** The native method of the same name, with the property and further events of the type
    switched off. *)
Definition default_action (e : nat) (type : jstr) (elem : nat) : M unit :=
  x <- the_event e;;
  if negb (defaultPrevented x) && negb (js_eqb type (u "click") && is_anchor elem) && acceptData elem && no_colon type
     && negb (is_window elem)
  then
    match native_method elem type with
    | Some f =>
        a <- get more;;
        let tmp := inline_of elem type a in
        (match tmp with Some _ => change (put_inline elem type None) | None => ret tt end);;;
        change (set_triggered (Some type));;;
        change (ev_happen (Acted elem type));;;
        catch (call_native elem f;;; ret tt) (ret tt);;;
        change (set_triggered None);;;
        match tmp with Some _ => change (put_inline elem type tmp) | None => ret tt end
    | None => ret tt
    end
  else ret tt.
(** The event object of a call of [trigger], with its type and namespaces. *)
Definition trigger_event (t : trigger_arg) (type : jstr) : M nat :=
  match t with
  | TEvent e => ret e
  | TType _ => make_event (new_event type None false)
  | TProps t _ => make_event (new_event t None false)
  end.
Definition trigger_type (t : trigger_arg) : M (jstr * list jstr) :=
  match t with
  | TType t => ret (t, [])
  | TProps t ns => ret (t, match ns with Some n => split_on 46 n | None => [] end)
  | TEvent e => x <- the_event e;; ret (ev_type x, match ev_namespace x with Some n => split_on 46 n | None => [] end)
  end.
Definition split_type (p : jstr * list jstr) : jstr * list jstr :=
  match split_on 46 p.1 with
  | t :: ((_ :: _) as l) => (t, sort_names l)
  | _ => p
  end.
(** [jQuery.event.trigger] *)
Definition event_trigger (t : trigger_arg) (data : list value) (elem : option nat) (onlyHandlers : bool) : M value :=
  let elem := default document elem in
  p <- trigger_type t;;
  a <- get more;;
  if (node_type elem =? 3) || (node_type elem =? 8) || rfocusMorph (p.1 ++ default (u "undefined") (triggered a)) then ret undef
  else
    let '(type, namespaces) := split_type p in
    e <- trigger_event t type;;
    x <- the_event e;;
    update_event e (set_trigger (match ev_target x with None => Some elem | o => o end) namespaces);;;
    stopped <- (if onlyHandlers then ret false else special_trigger type elem);;
    if stopped : bool then ret undef
    else
      a <- get more;;
      path <- lift (event_path (parents a) onlyHandlers type elem);;
      fire_path e type true path data;;;
      update_event e (set_ev_type type);;;
      (if onlyHandlers then ret tt else default_action e type elem);;;
      x <- the_event e;;
      ret (ev_result x).
(** [simulate]: a copy of an event under another type; what prevents the copy prevents it. *)
Definition simulate (type : jstr) (elem : option nat) (e : nat) (bubble : bool) : M unit :=
  x <- the_event e;;
  e2 <- make_event (set_simulated type x);;
  (if bubble then event_trigger (TEvent e2) [] elem false
   else match elem with Some n => event_dispatch e2 n [] | None => throw end);;;
  x2 <- the_event e2;;
  if defaultPrevented x2 then preventDefault e else ret tt.

(** ** [on], [one] and [off] *)

Definition nullish (v : evarg) : bool := match v with EUndef | ENull => true | _ => false end.
Definition evarg_truthy (v : evarg) : bool :=
  match v with
  | EUndef | ENull | EFalse | EStr [] => false
  | EData (Prim p) => truthy p
  | _ => true
  end.
Definition evarg_value (v : evarg) : value :=
  match v with
  | EUndef => undef | ENull => Prim PNull | EFalse => Prim (PBool false) | EStr s => Prim (PStr s)
  | EFun _ => SomeObject | EData v => v
  end.
Definition selector_of (v : evarg) : option jstr := match v with EStr s => Some s | _ => None end.
(** The arguments put in their places: selector, data and function. *)
Definition on_args (selector data fn : evarg) : evarg * evarg * evarg :=
  if nullish data && nullish fn then (EUndef, EUndef, selector)
  else if nullish fn then
    match selector with
    | EStr _ => (selector, EUndef, data)
    | _ => (EUndef, selector, data)
    end
  else (selector, data, fn).
Definition ensure_guid (f : callee) : M Z :=
  a <- get more;; change (fun a => fst (with_guid f a));;; ret (snd (with_guid f a)).
(** The function that [one] puts around another. *)
Definition make_once (f : callee) : M callee :=
  a <- get more;;
  let c := Made (length (closures a)) in
  change (fun a => set_closures (closures a ++ [Once f]) a);;;
  g <- ensure_guid f;;
  change (fun a => set_guids ((c, g) :: guids a) (next_guid a) a);;;
  ret c.
(** [on] for one text of types. A handler that is neither a function nor false is not followed. *)
Definition on_types (elems : list nat) (types : jstr) (selector data fn : evarg) (one : bool) : M unit :=
  let '(selector, data, fn) := on_args selector data fn in
  if negb (evarg_truthy fn) && negb (match fn with EFalse => true | _ => false end) then ret tt
  else
    match (match fn with EFun f => Some (Named f) | EFalse => Some return_false | _ => None end) with
    | Some f =>
        f <- (if one then make_once f else ret f);;
        change (fun a => fold_left (fun a n => event_add n types None f (evarg_value data) (selector_of selector) a) elems a)
    | None => fun _ => None
    end.
Fixpoint each {A} (f : A -> M unit) (l : list A) : M unit :=
  match l with [] => ret tt | x :: l => f x;;; each f l end.
Definition on (elems : list nat) (types : types_arg) (selector data fn : evarg) (one : bool) : M unit :=
  match types with
  | Types t => on_types elems t selector data fn one
  | TypesMap l =>
      let p := match selector with
               | EStr _ => (selector, data)
               | _ => (EUndef, if evarg_truthy data then data else selector)
               end in
      each (fun q => on_types elems q.1 p.1 p.2 q.2 one) l
  end.
Definition remove_all (elems : list nat) (types : jstr) (f : option (option Z)) (selector : option jstr) : M unit :=
  each (fun n => a <- get more;; a' <- lift (event_remove bound n types f selector false a);; change (fun _ => a')) elems.
Definition off_types (elems : list nat) (types : jstr) (selector fn : evarg) : M unit :=
  let '(selector, fn) := match selector with EFalse | EFun _ => (EUndef, selector) | _ => (selector, fn) end in
  a <- get more;;
  let g := match fn with
           | EFun f => Some (guid_of (Named f) a)
           | EFalse => Some (guid_of return_false a)
           | _ => if evarg_truthy fn then Some None else None
           end in
  remove_all elems types g (selector_of selector).
Definition off (elems : list nat) (types : types_arg) (selector fn : evarg) : M unit :=
  match types with
  | Types t => off_types elems t selector fn
  | TypesMap l => each (fun q => off_types elems q.1 selector q.2) l
  end.
(** [off(event)], on no elements: the handler that is being run. *)
Definition off_event (e : nat) : M unit :=
  x <- the_event e;;
  a <- get more;;
  match handleObj x with
  | Some h =>
      let types := default (u "undefined") (origType h) ++ (match h_namespace h with [] => [] | n => u "." ++ n end) in
      remove_all (match delegateTarget x with Some n => [n] | None => [] end) types (Some (guid_of (handler h) a)) (h_selector h)
  | None => ret tt
  end.

(** ** Operations *)

Definition then_undef (m : M unit) : M value := m;;; ret undef.
Definition event_exec (o : event_op) : M value :=
  match o with
  | On elems types selector data fn one => then_undef (on elems types selector data fn one)
  | AddObj n type h => then_undef (change (event_add n type (Some h) (handler h) undef (h_selector h)))
  | Off elems types selector fn => then_undef (off elems types selector fn)
  | OffEvent e => then_undef (off_event e)
  | Trigger elems t data => then_undef (each (fun n => event_trigger t data (Some n) false;;; ret tt) elems)
  | TriggerHandler n t data => match n with Some _ => event_trigger t data n true | None => ret undef end
  | NewEvent type => e <- make_event (new_event type None false);; ret (event_object e)
  | PreventDefault e => then_undef (preventDefault e)
  | StopPropagation e => then_undef (stopPropagation e)
  | StopImmediatePropagation e => then_undef (stopImmediatePropagation e)
  | Look e f => x <- the_event e;; ret (f x)
  | NewNative k =>
      a <- get more;; change (fun a => set_natives (natives a ++ [k]) a);;; ret (native_object (length (natives a)))
  | Deliver n k =>
      a <- get more;;
      match natives a !! k with
      | Some x =>
          if bool_decide ((n, n_type x) ∈ listeners a) && negb (bool_decide (triggered a = Some (n_type x)))
          then e <- event_fix k;; event_dispatch e n []
          else ret undef
      | None => throw
      end
  | Captured blur k =>
      a <- get more;;
      match natives a !! k with
      | Some x =>
          if (if blur then (captures a).2 else (captures a).1)
          then e <- event_fix k;;
               then_undef (simulate (if blur then u "focusout" else u "focusin") (n_target x) e true)
          else ret undef
      | None => throw
      end
  | SetInline n type f => then_undef (change (put_inline n type (Named <$> f)))
  | Append n p =>
      a <- get more;;
      match p with
      | Some q =>
          l <- lift (climb (up_fuel (parents a)) (parents a) q);;
          if bool_decide (n ∈ l) then throw else then_undef (change (fun a => set_parents (<[n := q]> (parents a)) a))
      | None => then_undef (change (fun a => set_parents (delete n (parents a)) a))
      end
  | SetActive n => then_undef (change (set_activeElement n))
  end.
(** The function objects that the code made. *)
Definition closure_call (c : nat) (context : value) (args : list value) : M value :=
  a <- get more;;
  match closures a !! c with
  | Some ReturnFalse => ret (Prim (PBool false))
  | Some (Once f) =>
      match (match args with v :: _ => event_of v | [] => None end) with
      | Some e => off_event e
      | None => ret tt
      end;;;
      apply (as_cb f) context args
  | None => ret undef
  end.
End Code.

#[export] Instance event_code {D : Dom} : LibraryCode event_library :=
  @Build_LibraryCode event_library (fun bound apply _ e => event_exec bound apply e) (fun bound apply _ c context args => closure_call bound apply c context args).

(** ** Examples *)

Section Examples.
(** A document 0 with the elements 1 to 4, each in the one before; node 9 is the window.
    A selector is the number of the node it selects. The native method click of node 4 is
    function 40. *)
Local Instance small_dom : Dom :=
  {| document := 0%nat; node_type n := match n with 0%nat => 9 | 9%nat => 0 | _ => 1 end; is_window n := (n =? 9)%nat; acceptData _ := true;
     disabled _ := false; is_anchor _ := false; is_checkbox _ := false; ownerDocument n := match n with 0%nat => None | _ => Some 0%nat end;
     window_of _ := 9%nat; native_method n t := if (n =? 4)%nat && js_eqb t (u "click") then Some 40%nat else None;
     selects _ s _ n := js_eqb s (Z_to_str (Z.of_nat n)); exotic_re _ _ := false; focusinBubbles := false |}.
Definition build : prog :=
  Do (Ext (Append 1 (Some 0%nat))) (fun _ => Do (Ext (Append 2 (Some 1%nat))) (fun _ =>
  Do (Ext (Append 3 (Some 2%nat))) (fun _ => Do (Ext (Append 4 (Some 3%nat))) Return))).
Definition bind_to (n : nat) (types : jstr) (selector : evarg) (f : nat) (one : bool) (k : prog) : prog :=
  Do (Ext (On [n] (Types types) (match selector with EStr _ => selector | _ => EFun (User f) end)
    (match selector with EStr _ => EFun (User f) | _ => EUndef end) EUndef one)) (fun _ => k).
Fixpoint and_then (p q : prog) : prog :=
  match p with Return _ => q | Throw => Throw | Do o k => Do o (fun v => and_then (k v) q) end.
(** The handlers that ran: the element, and the function, from 100 on for one that [one]
    made; without a function, a native method. *)
Definition ran (w : world) : list (nat * option nat) :=
  omap (fun h => match h with
                 | Ran _ n h => Some (n, match handler h with Named (User f) => Some f | Made c => Some (100 + c)%nat | _ => None end)
                 | Acted n _ => Some (n, None)
                 end) (ev_happened (more w)).
Definition show (r : option (world * result value)) :=
  match r with
  | Some (w, Ok v) => Some (ran w, v)
  | Some (w, Thrown) => Some (ran w, Prim (PStr (u "thrown")))
  | None => None
  end.
Definition does_nothing (f : nat) (context : value) (args : list value) : prog :=
  match f with
  | 7%nat => Return (Prim (PBool false))
  | 40%nat => Do (Ext (NewNative (Native (u "click") (Some 4%nat) None (Some 0) None None None None None false None false)))
                (fun _ => Do (Ext (Deliver 4 0)) (fun _ => Do (Ext (Deliver 2 0)) Return))
  | _ => Return undef
  end.

(** Delegated handlers of an element run before its own, those of inner elements first; the
    namespaces of the trigger select; the native method delivers the event again and is not
    heard. *)
Example trigger_ex :
  show (execute does_nothing 60 (and_then build
    (bind_to 2 (u "click.b.a") EUndef 1 false (bind_to 2 (u "click.a") (EStr (u "4")) 2 false
    (bind_to 2 (u "click.a") (EStr (u "3")) 3 false (bind_to 4 (u "click mouseenter.a") EUndef 4 false
    (bind_to 2 (u "click.a.c.b") EUndef 5 true
    (Do (Ext (Trigger [4%nat] (TType (u "click.a.b")) [])) (fun _ =>
     Do (Ext (Trigger [4%nat] (TType (u "click")) [])) Return)))))))) world0)
  = Some ([(2, Some 1); (2, Some 101); (4, None);
           (4, Some 4); (4, Some 2); (3, Some 3); (2, Some 1); (4, None)]%nat, undef).
Proof. vm_compute. reflexivity. Qed.
(** A handler that returns false: the rest of its element still runs, no other element does. *)
Example return_false_ex :
  show (execute does_nothing 60 (and_then build
    (bind_to 4 (u "click") EUndef 7 false (bind_to 4 (u "click") EUndef 1 false (bind_to 3 (u "click") EUndef 2 false
    (Do (Ext (Trigger [4%nat] (TType (u "click")) [])) Return))))) world0)
  = Some ([(4, Some 7); (4, Some 1)]%nat, undef).
Proof. vm_compute. reflexivity. Qed.
End Examples.
