(* ===== verification/EventFacts.v ===== *)
(** * Events: the promise of a library, and facts about lists of handlers *)

From Stdlib Require Import ZArith Lia.
From stdpp Require Import base tactics list numbers strings gmap.
From S2P Require Import Prelude JsValue ValidPage ValidRules ValidRulesProps Deferred DeferredFacts DeferredFire DeferredProps LibraryFacts Event.
Local Open Scope Z_scope.

Local Open Scope deferred_scope.

(** ** The invariant of the deferreds is kept *)

Section Safe.
Context {T : Blames} {D : Dom} (bound : nat) (apply : cb -> value -> list value -> M value).
Context (Happly : forall f context args, plain f = true -> safe (apply f context args)).

Lemma callee_safe f context args : safe (apply (as_cb f) context args).
Proof. apply Happly. by destruct f. Qed.

Ltac event_step :=
  match goal with
  | |- safe (bind _ _) => apply safe_bind; [|intros ?]
  | |- safe (ret _) => apply safe_ret
  | |- safe throw => apply safe_throw
  | |- safe (get _) => apply safe_get
  | |- safe (change _) => apply change_safe
  | |- safe (apply (as_cb _) _ _) => apply callee_safe
  | |- safe (apply _ _ _) => apply Happly; reflexivity
  | |- safe (catch _ _) => apply catch_safe
  | |- safe (fun _ => None) => apply fuel_safe
  | |- safe (let _ := _ in _) => cbv zeta
  | |- safe (match ?x with _ => _ end) => destruct x
  | |- safe (lift ?o) => unfold lift
  end.

Lemma the_event_safe e : safe (the_event e).
Proof. unfold the_event. repeat event_step. Qed.
Lemma update_event_safe e f : safe (update_event e f).
Proof. apply change_safe. Qed.
Ltac event_step' := first [event_step | apply the_event_safe | apply update_event_safe].
Ltac events := repeat event_step'.

Lemma make_event_safe x : safe (make_event x).
Proof. unfold make_event. events. Qed.
Lemma preventDefault_safe e : safe (preventDefault e).
Proof. unfold preventDefault. events. Qed.
Lemma stopPropagation_safe e : safe (stopPropagation e).
Proof. unfold stopPropagation. events. Qed.
Lemma invoke_safe e elem h args : safe (invoke apply e elem h args).
Proof. unfold invoke. events. Qed.
Lemma run_matched_safe e elem args l : safe (run_matched apply e elem l args).
Proof.
  induction l as [|h l IH]; cbn [run_matched]; [apply safe_ret|]. unfold dispatch_one.
  events; first [apply invoke_safe | apply preventDefault_safe | apply stopPropagation_safe | apply IH].
Qed.
Lemma run_queue_safe e args q : safe (run_queue apply e q args).
Proof.
  induction q as [|[n l] q IH]; cbn [run_queue]; [apply safe_ret|]. events; [apply run_matched_safe|apply IH].
Qed.
Lemma event_dispatch_safe e this args : safe (event_dispatch apply e this args).
Proof. unfold event_dispatch, postDispatch. events. apply run_queue_safe. Qed.
Lemma fire_path_safe e type args path : forall first, safe (fire_path apply e type first path args).
Proof.
  induction path as [|n path IH]; intros first; cbn [fire_path]; [apply safe_ret|]. unfold event_handle.
  events; first [apply event_dispatch_safe | apply preventDefault_safe | apply IH].
Qed.
Lemma event_trigger_safe t data elem only : safe (event_trigger apply t data elem only).
Proof.
  unfold event_trigger, trigger_type, trigger_event, special_trigger, default_action, call_native.
  events; first [apply make_event_safe | apply fire_path_safe].
Qed.
Lemma simulate_safe type elem e bubble : safe (simulate apply type elem e bubble).
Proof.
  unfold simulate. events; first [apply make_event_safe | apply event_trigger_safe | apply event_dispatch_safe | apply preventDefault_safe].
Qed.
Lemma event_each_safe {A} (f : A -> M unit) l : (forall x, safe (f x)) -> safe (each f l).
Proof. intros H. induction l as [|x l IH]; cbn [each]; [apply safe_ret|]. events; [apply H|apply IH]. Qed.
Lemma remove_all_safe elems types f selector : safe (remove_all bound elems types f selector).
Proof. unfold remove_all. apply event_each_safe. intros n. events. Qed.
Lemma off_event_safe e : safe (off_event bound e).
Proof. unfold off_event. events; apply remove_all_safe. Qed.
Lemma event_exec_safe o : safe (event_exec bound apply o).
Proof.
  destruct o; cbn [event_exec]; unfold then_undef, on, on_types, off, off_types, make_once, ensure_guid, event_fix, stopImmediatePropagation;
    events; repeat first [apply event_each_safe; intros ? | progress events];
    first [apply off_event_safe | apply remove_all_safe | apply event_trigger_safe | apply make_event_safe
          | apply preventDefault_safe | apply stopPropagation_safe | apply event_dispatch_safe | apply simulate_safe].
Qed.
Lemma closure_call_safe c context args : safe (closure_call bound apply c context args).
Proof. unfold closure_call. events. apply off_event_safe. Qed.
End Safe.

#[export] Instance event_safe_library {D : Dom} : SafeLibrary.
Proof. split; intros; [by apply event_exec_safe|by apply closure_call_safe]. Qed.

(** * Events: the lists of handlers and what the browser listens to, on every page *)

(** ** One list *)

Definition delegated (h : handle_obj) : bool := truthy_text (h_selector h).
Definition chosen_by (m : handle_obj -> bool) (l : list handle_obj) : list handle_obj := filter (fun h => m h = true) l.
#[local] Arguments chosen_by : simpl never.
(** The handlers with a selector come first, and are counted. *)
Definition list_ok (l : handler_list) : Prop :=
  delegateCount l = Z.of_nat (length (chosen_by delegated (hs l))) /\
  hs l = chosen_by delegated (hs l) ++ chosen_by (fun h => negb (delegated h)) (hs l).

Lemma chosen_app m a b : chosen_by m (a ++ b) = chosen_by m a ++ chosen_by m b.
Proof. apply filter_app. Qed.
Lemma chosen_cons m h l : chosen_by m (h :: l) = if m h then h :: chosen_by m l else chosen_by m l.
Proof.
  unfold chosen_by. destruct (m h) eqn:E; [by rewrite filter_cons_True|rewrite filter_cons_False; [done|by rewrite E]].
Qed.
Lemma chosen_all m l : Forall (fun h => m h = true) l -> chosen_by m l = l.
Proof. induction 1 as [|h l H _ IH]; [done|]. by rewrite chosen_cons, H, IH. Qed.
Lemma chosen_none m l : Forall (fun h => m h = false) l -> chosen_by m l = [].
Proof. induction 1 as [|h l H _ IH]; [done|]. by rewrite chosen_cons, H, IH. Qed.
Lemma chosen_of m l : Forall (fun h => m h = true) (chosen_by m l).
Proof. apply Forall_forall. intros h [H _]%list_elem_of_filter. done. Qed.
Lemma chosen_comm m1 m2 l : chosen_by m1 (chosen_by m2 l) = chosen_by m2 (chosen_by m1 l).
Proof.
  induction l as [|h l IH]; [done|]. rewrite !chosen_cons. destruct (m1 h) eqn:E1, (m2 h) eqn:E2; rewrite ?chosen_cons, ?E1, ?E2, IH; done.
Qed.

(** A list in two parts. *)
Lemma list_ok_parts a b n : Forall (fun h => delegated h = true) a -> Forall (fun h => delegated h = false) b ->
  n = Z.of_nat (length a) -> list_ok (HandlerList (a ++ b) n).
Proof.
  intros Ha Hb ->. unfold list_ok. cbn. rewrite !chosen_app, (chosen_all _ a Ha), (chosen_none delegated b Hb), app_nil_r.
  rewrite (chosen_none _ a), (chosen_all _ b); [done|..]; (eapply Forall_impl; [eassumption|]); cbn; by intros h ->.
Qed.
Lemma parts_of l : list_ok l -> exists a b, hs l = a ++ b /\ Forall (fun h => delegated h = true) a /\
  Forall (fun h => delegated h = false) b /\ delegateCount l = Z.of_nat (length a).
Proof.
  intros [Hn Hl]. exists (chosen_by delegated (hs l)), (chosen_by (fun h => negb (delegated h)) (hs l)).
  split; [done|]. split; [apply chosen_of|]. split; [|done].
  eapply Forall_impl; [apply chosen_of|]. cbn. intros h. by destruct (delegated h).
Qed.
Lemma list_ok_empty : list_ok (HandlerList [] 0).
Proof. done. Qed.
Lemma add_handler_ok h l : list_ok l -> list_ok (add_handler h l) /\ hs (add_handler h l) <> [].
Proof.
  intros (a & b & Hl & Ha & Hb & Hn)%parts_of. unfold add_handler. rewrite Hn, Hl, Nat2Z.id, take_app_length, drop_app_length.
  destruct (truthy_text (h_selector h)) eqn:E; (split; [|intros E'; apply (f_equal length) in E'; cbn in E'; rewrite ?length_app in E'; cbn in E'; lia]).
  - change (a ++ h :: b) with (a ++ [h] ++ b). rewrite app_assoc. apply list_ok_parts; [|done|rewrite length_app; cbn; lia].
    apply Forall_app. split; [done|]. by constructor.
  - rewrite <- app_assoc. apply list_ok_parts; [done| |lia]. apply Forall_app. split; [done|]. by constructor.
Qed.

(** The loop of [remove] keeps the others, and the count with them. *)
Lemma remove_matching_spec m j : forall l, (j <= length (hs l))%nat ->
  hs (remove_matching m j l) = chosen_by (fun h => negb (m h)) (take j (hs l)) ++ drop j (hs l) /\
  delegateCount (remove_matching m j l) =
  delegateCount l - Z.of_nat (length (chosen_by delegated (chosen_by m (take j (hs l))))).
Proof.
  induction j as [|j IH]; intros l Hj; [rewrite take_0; split; [done|change (chosen_by m []) with (@nil handle_obj); change (chosen_by delegated []) with (@nil handle_obj); cbn; lia]|]. cbn [remove_matching].
  destruct (hs l !! j) as [h|] eqn:E; [|apply lookup_ge_None in E; lia].
  rewrite (take_S_r _ _ h) by done. rewrite !chosen_app, chosen_cons, (chosen_cons m). cbn [chosen_by].
  change (chosen_by (fun h => negb (m h)) []) with (@nil handle_obj). change (chosen_by m []) with (@nil handle_obj).
  destruct (m h) eqn:Em; cbn [negb].
  - destruct (IH (HandlerList (delete j (hs l)) (if truthy_text (h_selector h) then delegateCount l - 1 else delegateCount l))) as [-> ->].
    { cbn [hs]. rewrite length_delete by (by exists h). lia. }
    cbn [hs delegateCount]. rewrite app_nil_r, delete_take_drop.
    assert (Hlen : length (take j (hs l)) = j) by (rewrite length_take; lia).
    rewrite take_app_length', drop_app_length' by done. split; [done|].
    rewrite length_app, chosen_cons. change (truthy_text (h_selector h)) with (delegated h).
    change (chosen_by delegated []) with (@nil handle_obj). destruct (delegated h); cbn; lia.
  - destruct (IH l) as [-> ->]; [lia|]. rewrite (drop_S _ h) by done. rewrite <- app_assoc, app_nil_r. done.
Qed.
Lemma remove_all_spec m l : hs (remove_matching m (length (hs l)) l) = chosen_by (fun h => negb (m h)) (hs l).
Proof. rewrite (proj1 (remove_matching_spec m _ l (Nat.le_refl _))), firstn_all, drop_all. apply app_nil_r. Qed.
Lemma chosen_split m l : length l = (length (chosen_by m l) + length (chosen_by (fun h => negb (m h)) l))%nat.
Proof. induction l as [|h l IH]; [done|]. rewrite !chosen_cons. destruct (m h); cbn; lia. Qed.
Lemma remove_matching_ok m l : list_ok l -> list_ok (remove_matching m (length (hs l)) l).
Proof.
  intros Hl. destruct (remove_matching_spec m (length (hs l)) l (Nat.le_refl _)) as [H1 H2]. destruct Hl as [Hn Hf].
  rewrite firstn_all, drop_all, app_nil_r in *. split.
  - rewrite H2, H1, Hn. rewrite (chosen_comm delegated m), (chosen_comm delegated (fun h => negb (m h))).
    pose proof (chosen_split m (chosen_by delegated (hs l))). lia.
  - rewrite H1. rewrite Hf at 1. rewrite chosen_app. by rewrite !(chosen_comm (fun h => negb (m h))).
Qed.

(** ** The invariant *)

Section Invariant.
Context {D : Dom}.

Definition has_type (n : nat) (t : jstr) (a : event_state) : Prop := assoc t (lists_of n a) <> None.
Definition attached (blur : bool) (a : event_state) : Z := if blur then (attaches a).2 else (attaches a).1.
Definition captured (blur : bool) (a : event_state) : bool := if blur then (captures a).2 else (captures a).1.
(** Each type of an element once and with a handler; the browser listens on an element
    to exactly the types that have one, and on the document to focus or blur while an
    element has handlers of focusin or focusout. *)
Record events_ok (a : event_state) : Prop := {
  ev_lists : forall n L, handlers_of a !! n = Some L ->
    NoDup (map fst L) /\ Forall (fun p => hs p.2 <> [] /\ list_ok p.2) L;
  ev_listeners : forall n t, capturing t = None -> (n, t) ∈ listeners a <-> has_type n t a;
  ev_attached : forall t blur l, capturing t = Some blur -> NoDup l -> (forall n, n ∈ l -> has_type n t a) ->
    Z.of_nat (length l) <= attached blur a;
  ev_captures : forall blur, captured blur a = (0 <? attached blur a)
}.
Definition all_tidy (a : event_state) : Prop := forall n L, handlers_of a !! n = Some L -> L <> [].

Lemma capturing_inj t t' blur : capturing t = Some blur -> capturing t' = Some blur -> t = t'.
Proof.
  unfold capturing. destruct focusinBubbles; [done|].
  destruct (js_eqb t (u "focusin")) eqn:E1; [apply js_eqb_true in E1 as ->|destruct (js_eqb t (u "focusout")) eqn:E2; [apply js_eqb_true in E2 as ->|done]];
  (destruct (js_eqb t' (u "focusin")) eqn:E3; [apply js_eqb_true in E3 as ->|destruct (js_eqb t' (u "focusout")) eqn:E4; [apply js_eqb_true in E4 as ->|done]]);
  congruence.
Qed.
Lemma assoc_set_twice {A} k (x y : A) l : assoc_set k y (assoc_set k x l) = assoc_set k y l.
Proof.
  induction l as [|[k' z] l IH]; cbn [assoc_set]; [by rewrite js_eqb_refl|].
  destruct (js_eqb k k') eqn:E; cbn [assoc_set]; rewrite E; [done|by rewrite IH].
Qed.
Lemma Forall_assoc_set {A} (P : A -> Prop) k x l : P x -> Forall (fun p : jstr * A => P p.2) l -> Forall (fun p => P p.2) (assoc_set k x l).
Proof.
  intros Hx. induction 1 as [|[k' z] l Hz H IH]; cbn [assoc_set]; [by repeat constructor|].
  destruct (js_eqb k k'); constructor; done.
Qed.
Lemma assoc_In {A} k (x : A) l : assoc k l = Some x -> (k, x) ∈ l.
Proof.
  induction l as [|[k' z] l IH]; cbn [assoc]; [done|]. destruct (js_eqb k k') eqn:E; [|right; auto].
  apply js_eqb_true in E as <-. intros [= ->]. by left.
Qed.
Lemma assoc_delete_same {A} k (l : list (jstr * A)) : assoc k (assoc_delete k l) = None.
Proof.
  apply assoc_none. intros (p & Hp & Hin)%list_elem_of_fmap. apply list_elem_of_filter in Hin as [Hn _]. by subst.
Qed.

Lemma lists_insert n L a : lists_of n (set_handlers_of (<[n := L]> (handlers_of a)) a) = L.
Proof. unfold lists_of. cbn. by rewrite lookup_insert_eq. Qed.
Lemma lists_insert_ne n m L a : n <> m -> lists_of m (set_handlers_of (<[n := L]> (handlers_of a)) a) = lists_of m a.
Proof. intros H. unfold lists_of. cbn. by rewrite lookup_insert_ne. Qed.
Lemma list_of_ok a n t l : events_ok a -> assoc t (lists_of n a) = Some l -> hs l <> [] /\ list_ok l.
Proof.
  intros Ha H. unfold lists_of in H. destruct (handlers_of a !! n) as [L|] eqn:E; [|done].
  destruct (ev_lists _ Ha n L E) as [_ HF]. rewrite Forall_forall in HF. apply (HF (t, l)). by apply assoc_In.
Qed.
Lemma lists_of_ok a n : events_ok a -> NoDup (map fst (lists_of n a)) /\ Forall (fun p => hs p.2 <> [] /\ list_ok p.2) (lists_of n a).
Proof.
  intros Ha. unfold lists_of. destruct (handlers_of a !! n) as [L|] eqn:E; [by apply (ev_lists _ Ha n)|]. split; constructor.
Qed.

(** The lists of one element are replaced. *)
Definition at_elem (n : nat) (L : list (jstr * handler_list)) (a : event_state) : event_state :=
  set_handlers_of (<[n := L]> (handlers_of a)) a.
Lemma at_elem_ok n L a b : events_ok a -> handlers_of b = handlers_of a ->
  NoDup (map fst L) -> Forall (fun p => hs p.2 <> [] /\ list_ok p.2) L ->
  (forall m t, capturing t = None -> (m, t) ∈ listeners b <-> (if decide (m = n) then assoc t L <> None else has_type m t a)) ->
  (forall t blur l, capturing t = Some blur -> NoDup l -> (forall m, m ∈ l -> if decide (m = n) then assoc t L <> None else has_type m t a) ->
     Z.of_nat (length l) <= attached blur b) ->
  (forall blur, captured blur b = (0 <? attached blur b)) ->
  events_ok (at_elem n L b).
Proof.
  intros Ha Hh Hd HF Hl Hat Hcap. constructor.
  - intros m L' H. cbn in H. rewrite Hh in H. destruct (decide (n = m)) as [<-|Hn].
    + rewrite lookup_insert_eq in H. injection H as <-. done.
    + rewrite lookup_insert_ne in H by done. by apply (ev_lists _ Ha m).
  - intros m t Ht. change (listeners (at_elem n L b)) with (listeners b). rewrite (Hl m t Ht). unfold has_type, at_elem.
    case_decide as E; [subst; by rewrite lists_insert|]. rewrite lists_insert_ne by done. unfold lists_of. by rewrite Hh.
  - intros t blur l Ht Hnd Hty. apply (Hat t blur l Ht Hnd). intros m Hm. specialize (Hty m Hm). unfold has_type, at_elem in Hty.
    case_decide as E; [subst; by rewrite lists_insert in Hty|]. rewrite lists_insert_ne in Hty by done. unfold has_type, lists_of in *. by rewrite Hh in Hty.
  - done.
Qed.
(** Types that stay. *)
Lemma at_elem_same n L a : events_ok a -> NoDup (map fst L) -> Forall (fun p => hs p.2 <> [] /\ list_ok p.2) L ->
  (forall t, assoc t L <> None <-> has_type n t a) -> events_ok (at_elem n L a).
Proof.
  intros Ha Hd HF Hs. apply (at_elem_ok n L a a); try done.
  - intros m t Ht. case_decide as E; [subst; rewrite Hs|]; by apply Ha.
  - intros t blur l Ht Hnd Hty. apply (ev_attached _ Ha t blur l Ht Hnd). intros m Hm. specialize (Hty m Hm).
    case_decide as E; [subst; by apply Hs|done].
  - apply Ha.
Qed.

(** ** Adding *)

Lemma assoc_add t type l (L : list (jstr * handler_list)) : assoc t (assoc_set type l L) <> None <-> t = type \/ assoc t L <> None.
Proof. rewrite assoc_assoc_set. destruct (decide (t = type)) as [->|Hn]; [split; [by left|done]|]. split; [by right|]. by intros [|]. Qed.
Lemma not_holding (l : list nat) n : NoDup l -> n ∈ l -> exists l', NoDup l' /\ length l = S (length l') /\ forall m, m ∈ l' -> m ∈ l /\ m <> n.
Proof.
  intros Hd Hn. apply list_elem_of_split in Hn as (l1 & l2 & ->). exists (l1 ++ l2).
  apply NoDup_app in Hd as (H1 & H2 & H3). apply NoDup_cons in H3 as [H3 H4]. split; [|split].
  - apply NoDup_app. split; [done|]. split; [|done]. intros x Hx Hx2. apply (H2 x Hx). by right.
  - rewrite !length_app. cbn. lia.
  - intros m [Hm|Hm]%elem_of_app.
    + split; [by apply elem_of_app; left|]. intros ->. apply (H2 n Hm). by left.
    + split; [apply elem_of_app; right; by right|]. by intros ->.
Qed.
Lemma attach_captures blur a : (forall b, captured b a = (0 <? attached b a)) -> 0 <= attached blur a ->
  forall b, captured b (attach blur a) = (0 <? attached b (attach blur a)).
Proof.
  intros Hc H0 b. pose proof (Hc blur) as Hb. specialize (Hc b).
  destruct b, blur; cbn in *; rewrite ?Hc; try done; destruct (Z.eqb_spec ((attaches a).1) 0), (Z.eqb_spec ((attaches a).2) 0);
    symmetry; first [apply Z.ltb_lt; lia | rewrite (proj2 (Z.ltb_lt 0 _)) by lia; symmetry; apply Z.ltb_lt; lia].
Qed.
Lemma listen_new n type L a : events_ok a -> ~ has_type n type a ->
  NoDup (map fst L) -> Forall (fun p => hs p.2 <> [] /\ list_ok p.2) L ->
  (forall t, assoc t L <> None <-> t = type \/ has_type n t a) -> events_ok (at_elem n L (listen n type a)).
Proof.
  intros Ha Hno Hd HF Hty. unfold listen. destruct (capturing type) as [blur|] eqn:Ec.
  - apply (at_elem_ok n L a); [done|by destruct blur|done|done|..].
    + intros m t Ht. replace (listeners (attach blur a)) with (listeners a) by (by destruct blur). rewrite (ev_listeners _ Ha m t Ht).
      case_decide as E; [subst|done]. rewrite Hty. split; [by right|]. intros [->|]; [congruence|done].
    + intros t b l Ht Hnd Hl. destruct (decide (b = blur)) as [->|Hb].
      * assert (t = type) as -> by (by apply (capturing_inj t type blur)).
        assert (Hat : attached blur (attach blur a) = attached blur a + 1) by (by destruct blur). rewrite Hat.
        destruct (decide (n ∈ l)) as [Hin|Hin].
        { destruct (not_holding l n Hnd Hin) as (l' & Hd' & Hlen & Hl'). rewrite Hlen.
          enough (Z.of_nat (length l') <= attached blur a) by lia. apply (ev_attached _ Ha type blur l' Ec Hd').
          intros m Hm. destruct (Hl' m Hm) as [Hm1 Hm2]. specialize (Hl m Hm1). by rewrite decide_False in Hl. }
        enough (Z.of_nat (length l) <= attached blur a) by lia. apply (ev_attached _ Ha type blur l Ec Hnd).
        intros m Hm. specialize (Hl m Hm). rewrite decide_False in Hl; [done|]. by intros ->.
      * assert (Hat : attached b (attach blur a) = attached b a) by (by destruct b, blur). rewrite Hat.
        apply (ev_attached _ Ha t b l Ht Hnd). intros m Hm. specialize (Hl m Hm). case_decide as E; [subst|done].
        apply Hty in Hl as [->|Hl]; [congruence|done].
    + apply attach_captures; [apply Ha|]. apply (ev_attached _ Ha type blur [] Ec (NoDup_nil_2)). by intros ? ?%elem_of_nil.
  - case_bool_decide as Hin.
    + exfalso. apply Hno. by apply (ev_listeners _ Ha n type Ec).
    + apply (at_elem_ok n L a); [done|done|done|done| | |apply Ha].
      * intros m t Ht. cbn. rewrite elem_of_app, list_elem_of_singleton, (ev_listeners _ Ha m t Ht).
        destruct (decide (m = n)) as [->|Hn].
        { rewrite Hty. split; [intros [?|[= ->]]; auto|intros [->|?]; auto]. }
        split; [intros [?|[= ? ?]]; [done|congruence]|by left].
      * intros t b l Ht Hnd Hl. apply (ev_attached _ Ha t b l Ht Hnd). intros m Hm. specialize (Hl m Hm).
        case_decide as E; [subst|done]. apply Hty in Hl as [->|Hl]; [congruence|done].
Qed.

(** What [add] makes for one of its types: the key and the handler object. *)
Definition type_key (selector : option jstr) (t : jstr) : jstr :=
  match rtypenamespace t with Some q => mapped_type selector q.1 | None => u "undefined" end.
Definition new_handler (given : option handle_obj) (f : callee) (g : Z) (data : value) (selector : option jstr) (t : jstr) : handle_obj :=
  let p := rtypenamespace t in
  match given with
  | Some h => HandleObj (h_type h) (match origType h with None => fst <$> p | o => o end)
                (match h_data h with Prim PUndef => data | v => v end) (handler h) (guid h) (h_selector h) (h_namespace h)
  | None => HandleObj (type_key selector t) (fst <$> p) data f g selector
              (join (u ".") (namespaces_of (match p with Some q => q.2 | None => None end)))
  end.
Lemma add_type_eq n given f g data selector t a :
  let key := type_key selector t in
  add_type n given f g data selector t a =
  at_elem n (assoc_set key (add_handler (new_handler given f g data selector t) (default (HandlerList [] 0) (assoc key (lists_of n a)))) (lists_of n a))
    (match assoc key (lists_of n a) with Some _ => a | None => listen n key a end).
Proof.
  cbv zeta. unfold add_type, new_handler. fold (type_key selector t). set (key := type_key selector t).
  destruct (assoc key (lists_of n a)) as [l|] eqn:E; [by rewrite E|].
  assert (HL : forall X, lists_of n (listen n key (set_handlers_of (<[n := X]> (handlers_of a)) a)) = X).
  { intros X. unfold listen. destruct (capturing key) as [[|]|]; [by apply lists_insert..|].
    cbn [listeners set_handlers_of]. case_bool_decide; apply lists_insert. }
  rewrite !HL, assoc_assoc_set, decide_True by done. rewrite assoc_set_twice. unfold at_elem.
  unfold listen. destruct (capturing key) as [[|]|]; cbn -[assoc_set lists_of]; [by rewrite insert_insert_eq..|].
  case_bool_decide; cbn -[assoc_set lists_of]; by rewrite insert_insert_eq.
Qed.
Lemma add_type_ok n given f g data selector t a : events_ok a -> events_ok (add_type n given f g data selector t a).
Proof.
  intros Ha. rewrite add_type_eq. cbv zeta. set (key := type_key selector t). destruct (lists_of_ok a n Ha) as [Hd HF].
  destruct (assoc key (lists_of n a)) as [l|] eqn:E; cbn [default].
  - destruct (list_of_ok a n key l Ha E) as [Hne Hl]. apply at_elem_same; [done|by apply NoDup_assoc_set| |].
    + apply (Forall_assoc_set (fun l => hs l <> [] /\ list_ok l)); [|done]. destruct (add_handler_ok (new_handler given f g data selector t) l Hl). done.
    + intros t'. rewrite assoc_add. unfold has_type. split; [intros [->|]; [by rewrite E|done]|by right].
  - apply listen_new; [done|intros HN; by apply HN|by apply NoDup_assoc_set| |intros t'; apply assoc_add].
    apply (Forall_assoc_set (fun l => hs l <> [] /\ list_ok l)); [|done].
    destruct (add_handler_ok (new_handler given f g data selector t) (HandlerList [] 0) list_ok_empty). done.
Qed.
Lemma events_ok_same a b : events_ok a -> handlers_of b = handlers_of a -> listeners b = listeners a -> attaches b = attaches a ->
  captures b = captures a -> events_ok b.
Proof.
  intros [H1 H2 H3 H4] Eh El Ea Ec. constructor; unfold has_type, lists_of, attached, captured in *; rewrite ?Eh, ?El, ?Ea, ?Ec; try done.
Qed.
Lemma with_guid_same f a : handlers_of (with_guid f a).1 = handlers_of a /\ listeners (with_guid f a).1 = listeners a /\
  attaches (with_guid f a).1 = attaches a /\ captures (with_guid f a).1 = captures a.
Proof. unfold with_guid. by destruct (guid_of f a). Qed.
Lemma event_add_ok n types given f data selector a : events_ok a -> events_ok (event_add n types given f data selector a).
Proof.
  intros Ha. unfold event_add. destruct (acceptData n); [|done]. cbv zeta.
  assert (H0 : events_ok (with_guid f a).1) by (destruct (with_guid_same f a) as (? & ? & ? & ?); by apply (events_ok_same a)).
  induction (type_words types) as [|t l IH]; [done|]. cbn [fold_right]. by apply add_type_ok.
Qed.

(** ** Removing *)

Lemma unlisten_handlers n orig key a : handlers_of (unlisten n orig key a) = handlers_of a.
Proof. unfold unlisten. by destruct (capturing orig) as [[|]|]. Qed.
Lemma detach_captures blur a : (forall b, captured b a = (0 <? attached b a)) -> 1 <= attached blur a ->
  forall b, captured b (detach blur a) = (0 <? attached b (detach blur a)).
Proof.
  intros Hc H0 b. pose proof (Hc blur) as Hb. specialize (Hc b).
  destruct b, blur; cbn in *; rewrite ?Hc; try done; case_match; rewrite ?Z.eqb_eq, ?Z.eqb_neq in *;
    symmetry; first [apply Z.ltb_ge; lia | rewrite (proj2 (Z.ltb_lt 0 _)) by lia; symmetry; apply Z.ltb_lt; lia
    | rewrite (proj2 (Z.ltb_lt 0 _)) by lia; apply Z.ltb_lt; lia].
Qed.

Lemma mapped_capturing selector orig blur : capturing orig = Some blur -> mapped_type selector orig = orig.
Proof.
  unfold capturing, mapped_type. destruct focusinBubbles; [done|].
  destruct (js_eqb orig (u "focusin")) eqn:E1; [apply js_eqb_true in E1 as ->; by destruct (truthy_text selector)|].
  destruct (js_eqb orig (u "focusout")) eqn:E2; [apply js_eqb_true in E2 as ->; by destruct (truthy_text selector)|done].
Qed.
Lemma unlisten_gone n orig key L a : events_ok a -> has_type n key a -> key = orig \/ capturing orig = None ->
  NoDup (map fst L) -> Forall (fun p => hs p.2 <> [] /\ list_ok p.2) L ->
  (forall t, assoc t L <> None <-> t <> key /\ has_type n t a) -> events_ok (at_elem n L (unlisten n orig key a)).
Proof.
  intros Ha Hk Ho Hd HF Hty. unfold unlisten. destruct (capturing orig) as [blur|] eqn:Ec.
  - destruct Ho as [->|]; [|done].
    assert (H1 : forall l, NoDup l -> (forall m, m ∈ l -> if decide (m = n) then assoc orig L <> None else has_type m orig a) ->
              Z.of_nat (length l) + 1 <= attached blur a).
    { intros l Hnd Hl. assert (Hn : n ∉ l) by (intros Hn; specialize (Hl n Hn); rewrite decide_True in Hl by done; by apply Hty in Hl as [? _]).
      pose proof (ev_attached _ Ha orig blur (n :: l) Ec) as H. cbn [length] in H. enough (Z.of_nat (S (length l)) <= attached blur a) by lia.
      apply H; [by apply NoDup_cons|]. intros m [->|Hm]%elem_of_cons; [done|]. specialize (Hl m Hm).
      rewrite decide_False in Hl; [done|]. by intros ->. }
    assert (H0 : 1 <= attached blur a) by (specialize (H1 [] (NoDup_nil_2) ltac:(by intros ? ?%elem_of_nil)); cbn in H1; lia).
    apply (at_elem_ok n L a); [done|by destruct blur|done|done|..].
    + intros m t Ht. replace (listeners (detach blur a)) with (listeners a) by (by destruct blur). rewrite (ev_listeners _ Ha m t Ht).
      case_decide as E; [subst|done]. rewrite Hty. split; [|by intros [_ ?]]. intros H. split; [|done]. intros ->. congruence.
    + intros t b l Ht Hnd Hl. destruct (decide (b = blur)) as [->|Hb].
      * assert (t = orig) as -> by (by apply (capturing_inj t orig blur)).
        assert (Hat : attached blur (detach blur a) = attached blur a - 1) by (by destruct blur). rewrite Hat.
        specialize (H1 l Hnd Hl). lia.
      * assert (Hat : attached b (detach blur a) = attached b a) by (by destruct b, blur). rewrite Hat.
        apply (ev_attached _ Ha t b l Ht Hnd). intros m Hm. specialize (Hl m Hm). case_decide as E; [subst|done]. by apply Hty in Hl as [_ Hl].
    + apply detach_captures; [apply Ha|done].
  - apply (at_elem_ok n L a); [done|done|done|done| | |apply Ha].
    + intros m t Ht. cbn. rewrite list_elem_of_filter, (ev_listeners _ Ha m t Ht). destruct (decide (m = n)) as [->|Hn].
      * rewrite Hty. split; intros [H ?]; (split; [|done]); congruence.
      * split; [by intros [_ ?]|]. intros H. split; [congruence|done].
    + intros t b l Ht Hnd Hl. apply (ev_attached _ Ha t b l Ht Hnd). intros m Hm. specialize (Hl m Hm). case_decide as E; [subst|done]. by apply Hty in Hl as [_ Hl].
Qed.
Lemma assoc_gone t key (L : list (jstr * handler_list)) : assoc t (assoc_delete key L) <> None <-> t <> key /\ assoc t L <> None.
Proof.
  destruct (decide (t = key)) as [->|Hn]; [rewrite assoc_delete_same; split; [done|by intros [? _]]|].
  rewrite assoc_delete_other by done. by split; [|intros [_ ?]].
Qed.
Lemma unlisten_lists n orig key a : lists_of n (unlisten n orig key a) = lists_of n a.
Proof. unfold lists_of. by rewrite unlisten_handlers. Qed.
Lemma remove_type_ok n f selector mapped type ns a : events_ok a -> events_ok (remove_type n f selector mapped type ns a).
Proof.
  intros Ha. unfold remove_type. set (key := mapped_type selector type). destruct (assoc key (lists_of n a)) as [l|] eqn:E; [|done].
  destruct (list_of_ok a n key l Ha E) as [Hne Hl]. destruct (lists_of_ok a n Ha) as [Hd HF].
  set (m := removable _ _ _ _ _). cbv zeta. destruct (bool_decide (hs l <> []) && bool_decide (hs (remove_matching m (length (hs l)) l) = [])) eqn:Em.
  - rewrite unlisten_lists, unlisten_handlers.
    replace (set_handlers_of _ _) with (at_elem n (assoc_delete key (lists_of n a)) (unlisten n type key a)) by (unfold at_elem; by rewrite unlisten_handlers).
    apply unlisten_gone; [done|unfold has_type; by rewrite E| |by apply NoDup_keys_filter| |intros t; apply assoc_gone].
    + destruct (capturing type) as [blur|] eqn:Ec; [|by right]. left. by apply (mapped_capturing _ _ blur).
    + apply Forall_forall. intros p [_ Hp]%list_elem_of_filter. rewrite Forall_forall in HF. by apply HF.
  - apply at_elem_same; [done|by apply NoDup_assoc_set| |].
    + apply (Forall_assoc_set (fun l => hs l <> [] /\ list_ok l)); [|done]. split; [|by apply remove_matching_ok].
      intros Hn. rewrite Hn, (bool_decide_eq_true_2 (hs l <> [])), bool_decide_eq_true_2 in Em by done. done.
    + intros t. rewrite assoc_add. unfold has_type. split; [intros [->|]; [by rewrite E|done]|by right].
Qed.
Lemma tidy_ok n a : events_ok a -> events_ok (tidy n a).
Proof.
  intros Ha. unfold tidy. destruct (handlers_of a !! n) as [[|]|] eqn:E; [|done..].
  assert (HL : forall m, lists_of m (set_handlers_of (delete n (handlers_of a)) a) = lists_of m a).
  { intros m. unfold lists_of. cbn. destruct (decide (n = m)) as [<-|Hn]; [by rewrite lookup_delete_eq, E|by rewrite lookup_delete_ne]. }
  destruct Ha as [H1 H2 H3 H4]. constructor; unfold has_type in *.
  - intros m L. cbn. intros [Hn H]%lookup_delete_Some. by apply (H1 m).
  - intros m t Ht. rewrite HL. by apply H2.
  - intros t blur l Ht Hnd Hl. apply (H3 t blur l Ht Hnd). intros m Hm. specialize (Hl m Hm). by rewrite HL in Hl.
  - apply H4.
Qed.
Lemma event_remove_ok fuel : forall n types f selector mapped a b, event_remove fuel n types f selector mapped a = Some b ->
  events_ok a -> events_ok b.
Proof.
  induction fuel as [|fuel IH]; intros n types f selector mapped a b; cbn [event_remove]; [done|].
  destruct (_ && _); [|by intros [= <-]]. intros H Ha. apply fmap_Some in H as (c & Hc & ->). apply tidy_ok.
  revert c Hc. induction (type_words types) as [|t l IHl]; intros c; cbn [fold_right]; [by intros [= <-]|].
  intros (d & Hd & Hc)%bind_Some. specialize (IHl d Hd). clear Hd.
  assert (Hall : forall keys o c, fold_left (fun o key => a ← o; event_remove fuel n (key ++ t) f selector true a) keys o = Some c ->
            (forall a, o = Some a -> events_ok a) -> events_ok c).
  { clear - IH. induction keys as [|key keys IHk]; intros o c; cbn [fold_left]; [by intros -> H; apply H|].
    intros H Ho. apply (IHk _ _ H). intros a' (a0 & -> & Ha')%bind_Some. apply (IH _ _ _ _ _ _ _ Ha'). by apply Ho. }
  destruct (rtypenamespace t) as [[[|x type] ns]|].
  - apply (Hall _ _ _ Hc). by intros a' [= <-].
  - injection Hc as <-. by apply remove_type_ok.
  - apply (Hall _ _ _ Hc). by intros a' [= <-].
Qed.

(** An element without handlers has no data left. *)
Lemma add_tidy n types given f data selector a : all_tidy a -> all_tidy (event_add n types given f data selector a).
Proof.
  intros Ha. unfold event_add. destruct (acceptData n); [|done]. cbv zeta.
  assert (H0 : all_tidy (with_guid f a).1) by (unfold all_tidy; by rewrite (proj1 (with_guid_same f a))).
  induction (type_words types) as [|t l IH]; [done|]. cbn [fold_right]. rewrite add_type_eq. cbv zeta. intros m L. unfold at_elem. cbn.
  set (b := fold_right _ _ _) in *. intros H. destruct (decide (n = m)) as [<-|Hn].
  - rewrite lookup_insert_eq in H. injection H as <-. by destruct (lists_of n b) as [|[k x] L']; cbn; [|destruct (js_eqb _ k)].
  - rewrite lookup_insert_ne in H by done. apply (IH m). rewrite <- H. destruct (assoc _ _); [done|]. unfold listen.
    destruct (capturing _) as [[|]|]; [done..|]. by case_bool_decide.
Qed.
Lemma remove_type_others n f selector mapped type ns a m : m <> n ->
  handlers_of (remove_type n f selector mapped type ns a) !! m = handlers_of a !! m.
Proof.
  intros Hm. unfold remove_type. destruct (assoc _ _) as [l|]; [|done]. cbv zeta. destruct (_ && _); cbn;
    rewrite lookup_insert_ne by done; [by rewrite unlisten_handlers|done].
Qed.
Lemma tidy_others n m a : m <> n -> handlers_of (tidy n a) !! m = handlers_of a !! m.
Proof. intros Hm. unfold tidy. destruct (handlers_of a !! n) as [[|]|]; [|done..]. cbn. by rewrite lookup_delete_ne. Qed.
Lemma event_remove_others fuel : forall n types f selector mapped a b m, event_remove fuel n types f selector mapped a = Some b ->
  m <> n -> handlers_of b !! m = handlers_of a !! m.
Proof.
  induction fuel as [|fuel IH]; intros n types f selector mapped a b m; cbn [event_remove]; [done|].
  destruct (_ && _); [|by intros [= <-]]. intros H Hm. apply fmap_Some in H as (c & Hc & ->). rewrite tidy_others by done.
  revert c Hc. induction (type_words types) as [|t l IHl]; intros c; cbn [fold_right]; [by intros [= <-]|].
  intros (d & Hd & Hc)%bind_Some. rewrite <- (IHl d Hd). clear Hd IHl.
  assert (Hall : forall keys o c, fold_left (fun o key => a ← o; event_remove fuel n (key ++ t) f selector true a) keys o = Some c ->
            exists a0, o = Some a0 /\ handlers_of c !! m = handlers_of a0 !! m).
  { clear - IH Hm. induction keys as [|key keys IHk]; intros o c; cbn [fold_left]; [intros ->; by exists c|].
    intros (a1 & Ha1 & ->)%IHk. apply bind_Some in Ha1 as (a0 & -> & Ha1). exists a0. split; [done|]. by apply (IH _ _ _ _ _ _ _ _ Ha1). }
  destruct (rtypenamespace t) as [[[|x type] ns]|].
  - apply Hall in Hc as (a0 & [= <-] & ->). done.
  - injection Hc as <-. by apply remove_type_others.
  - apply Hall in Hc as (a0 & [= <-] & ->). done.
Qed.
Lemma remove_tidy fuel n types f selector mapped a b : event_remove fuel n types f selector mapped a = Some b -> all_tidy a -> all_tidy b.
Proof.
  intros H Ha m L Hm. destruct (decide (m = n)) as [->|Hn]; [|rewrite (event_remove_others _ _ _ _ _ _ _ _ _ H Hn) in Hm; by apply (Ha m)].
  destruct fuel as [|fuel]; cbn [event_remove] in H; [done|]. destruct (_ && _); [|injection H as <-; by apply (Ha n)].
  apply fmap_Some in H as (c & _ & ->). unfold tidy in Hm. destruct (handlers_of c !! n) as [[|]|] eqn:E; [|congruence..].
  cbn in Hm. by rewrite lookup_delete_eq in Hm.
Qed.

(** ** Every page *)

Definition inv (a : event_state) : Prop := events_ok a /\ all_tidy a.
Definition kept (a b : event_state) : Prop := inv a -> inv b.
#[local] Instance kept_preorder : PreOrder kept.
Proof. split; [by intros a H|]. intros a b c H1 H2 H. auto. Qed.
Lemma kept_same a b : handlers_of b = handlers_of a -> listeners b = listeners a -> attaches b = attaches a ->
  captures b = captures a -> kept a b.
Proof.
  intros Eh El Ea Ec [H1 H2]. split; [by apply (events_ok_same a)|]. unfold all_tidy. by rewrite Eh.
Qed.

Section Steps.
Context (bound : nat) (apply : cb -> value -> list value -> M value).
Context (Happly : forall f context args, moves kept (apply f context args)).

Ltac kept_step :=
  match goal with
  | |- moves _ (bind _ _) => apply moves_bind; [apply _| |intros ?]
  | |- moves _ (ret _) => apply moves_ret; apply _
  | |- moves _ throw => apply moves_throw; apply _
  | |- moves _ (get _) => apply moves_get; apply _
  | |- moves _ (apply _ _ _) => apply Happly
  | |- moves _ (catch _ _) => apply moves_catch; [apply _|..]
  | |- moves _ (fun _ => None) => apply moves_fuel
  | |- moves _ (change (fun a => set_guids _ _ _)) => apply moves_change; intros ?; by apply kept_same
  | |- moves _ (change (fun a => fst (with_guid _ _))) => apply moves_change; intros ?; apply kept_same; apply with_guid_same
  | |- moves _ (change _) => apply moves_change; intros ?; by apply kept_same
  | |- moves _ (update_event _ _) => apply moves_change; intros ?; by apply kept_same
  | |- moves _ (the_event _) => unfold the_event
  | |- moves _ (make_event _) => unfold make_event
  | |- moves _ (let _ := _ in _) => cbv zeta
  | |- moves _ (match ?x with _ => _ end) => destruct x
  | |- moves _ (lift ?o) => unfold lift
  end.
Ltac keeping := repeat kept_step.

Lemma kept_preventDefault e : moves kept (preventDefault e).
Proof. unfold preventDefault. keeping. Qed.
Lemma kept_stopPropagation e : moves kept (stopPropagation e).
Proof. unfold stopPropagation. keeping. Qed.
Lemma kept_run_matched e elem args l : moves kept (run_matched apply e elem l args).
Proof.
  induction l as [|h l IH]; cbn [run_matched]; [keeping|]. unfold dispatch_one, invoke.
  keeping; first [apply kept_preventDefault | apply kept_stopPropagation | apply IH].
Qed.
Lemma kept_run_queue e args q : moves kept (run_queue apply e q args).
Proof. induction q as [|[n l] q IH]; cbn [run_queue]; keeping; [apply kept_run_matched|apply IH]. Qed.
Lemma kept_dispatch e this args : moves kept (event_dispatch apply e this args).
Proof. unfold event_dispatch, postDispatch. keeping. apply kept_run_queue. Qed.
Lemma kept_fire_path e type args path : forall first, moves kept (fire_path apply e type first path args).
Proof.
  induction path as [|n path IH]; intros first; cbn [fire_path]; [keeping|]. unfold event_handle.
  keeping; first [apply kept_dispatch | apply kept_preventDefault | apply IH].
Qed.
Lemma kept_trigger t data elem only : moves kept (event_trigger apply t data elem only).
Proof.
  unfold event_trigger, trigger_type, trigger_event, special_trigger, default_action, call_native, put_inline.
  keeping; apply kept_fire_path.
Qed.
Lemma kept_simulate type elem e bubble : moves kept (simulate apply type elem e bubble).
Proof. unfold simulate. keeping; first [apply kept_trigger | apply kept_dispatch | apply kept_preventDefault]. Qed.
Lemma kept_each {A} (f : A -> M unit) l : (forall x, moves kept (f x)) -> moves kept (each f l).
Proof. intros H. induction l as [|x l IH]; cbn [each]; keeping; [apply H|apply IH]. Qed.
Lemma kept_remove_all elems types f selector : moves kept (remove_all bound elems types f selector).
Proof.
  unfold remove_all. apply kept_each. intros n w. unfold bind at 1, get, lift.
  destruct (event_remove bound n types f selector false (more w)) as [b|] eqn:E; [|done]. intros [H1 H2]. cbn.
  split; [by apply (event_remove_ok _ _ _ _ _ _ _ _ E)|by apply (remove_tidy _ _ _ _ _ _ _ _ E)].
Qed.
Lemma kept_off_event e : moves kept (off_event bound e).
Proof. unfold off_event. keeping; apply kept_remove_all. Qed.
Lemma kept_add n types given f data selector a : kept a (event_add n types given f data selector a).
Proof. intros [H1 H2]. split; [by apply event_add_ok|by apply add_tidy]. Qed.
Lemma kept_add_all types f data selector elems : forall a, kept a (fold_left (fun a n => event_add n types None f data selector a) elems a).
Proof.
  induction elems as [|n elems IH]; intros a; [reflexivity|]. cbn [fold_left]. etransitivity; [apply kept_add|apply IH].
Qed.
Lemma kept_on_types elems types selector data fn one : moves kept (on_types elems types selector data fn one).
Proof.
  unfold on_types, make_once, ensure_guid. destruct (on_args selector data fn) as [[? ?] ?].
  repeat (match goal with |- moves _ (change (fun a => fold_left _ _ _)) => apply moves_change; apply kept_add_all | |- _ => kept_step end).
Qed.
Lemma kept_off_types elems types selector fn : moves kept (off_types bound elems types selector fn).
Proof. unfold off_types. destruct selector, fn; keeping; apply kept_remove_all. Qed.
Lemma event_exec_kept o : moves kept (event_exec bound apply o).
Proof.
  destruct o; cbn [event_exec]; unfold then_undef, on, off, event_fix, stopImmediatePropagation, put_inline, set_parents;
    repeat (match goal with
            | |- moves _ (change (event_add _ _ _ _ _ _)) => apply moves_change; intros ?; apply kept_add
            | |- moves _ (each _ _) => apply kept_each; intros ?
            | |- _ => kept_step
            end);
    first [apply kept_on_types | apply kept_off_types | apply kept_off_event | apply kept_trigger | apply kept_preventDefault
          | apply kept_stopPropagation | apply kept_dispatch | apply kept_simulate].
Qed.
Lemma closure_call_kept c context args : moves kept (closure_call bound apply c context args).
Proof. unfold closure_call. keeping. apply kept_off_event. Qed.
End Steps.

Lemma execute_kept body fuel p : moves kept (execute body fuel p).
Proof.
  apply moves_execute; [apply _| |].
  - intros bound apply fire Ha _ e. by apply event_exec_kept.
  - intros bound apply fire Ha _ c context args. by apply closure_call_kept.
Qed.
Lemma inv_init : inv event_init.
Proof.
  split; [|by intros n L H; cbn in H; rewrite lookup_empty in H]. constructor.
  - by intros n L H; cbn in H; rewrite lookup_empty in H.
  - intros n t _. unfold has_type, lists_of. cbn. rewrite lookup_empty. by split; [intros ?%elem_of_nil|intros []].
  - intros t blur l _ Hnd Hl. destruct l as [|n l]; [by destruct blur|]. exfalso. apply (Hl n); [by left|]. done.
  - by intros [|].
Qed.
Lemma reached_events body w : reached body w -> inv (more w).
Proof.
  induction 1 as [|w fuel p w' o _ IH E]; [apply inv_init|]. pose proof (execute_kept body fuel p w) as H. rewrite E in H. by apply H.
Qed.
End Invariant.
