(* ===== verification/EventQuiet.v ===== *)
(** * Events: which handlers a trigger runs, when they only return

    Pure functions compute the order in which the handlers of a queue, and those of a
    path, run and what becomes of the event object; the code of [Event] does what they say
    on a page whose functions only return. *)

From Stdlib Require Import ZArith Lia.
From stdpp Require Import base tactics list numbers strings gmap.
From S2P Require Import Prelude JsValue ValidPage ValidRules Deferred LibraryFacts Event EventFacts.
Local Open Scope Z_scope.
Local Open Scope deferred_scope.

Section Quiet.
Context {D : Dom}.
(** What each function of the page returns. *)
Context (res : nat -> value -> list value -> value).

Definition passes (x : jevent) (h : handle_obj) : bool :=
  match namespace_re x with None => true | Some names => namespace_test names (h_namespace h) end.
Definition returned (e elem : nat) (args : list value) (h : handle_obj) : value :=
  match handler h with Named (User f) => res f (node elem) (event_object e :: args) | _ => undef end.
(** A handler that is a function of the page and is called directly. *)
Definition simple (h : handle_obj) : Prop :=
  (exists f, handler h = Named (User f)) /\ match origType h with Some t => bindType t = None | None => True end.

(** ** What becomes of the event *)

Definition quiet_one (v : value) (h : handle_obj) (x : jevent) : jevent :=
  let y := set_handle h x in
  match v with
  | Prim PUndef => y
  | _ => let y := set_ev_result v y in if is_false v then set_flags true true (immediateStopped y) y else y
  end.
Fixpoint quiet_matched (e elem : nat) (args : list value) (l : list handle_obj) (x : jevent) : jevent * list ev_happening :=
  match l with
  | [] => (x, [])
  | h :: l =>
      if immediateStopped x then (x, [])
      else if passes x h then
        let p := quiet_matched e elem args l (quiet_one (returned e elem args h) h x) in (p.1, Ran e elem h :: p.2)
      else quiet_matched e elem args l x
  end.
Fixpoint quiet_queue (e : nat) (args : list value) (q : list (nat * list handle_obj)) (x : jevent) : jevent * list ev_happening :=
  match q with
  | [] => (x, [])
  | (elem, l) :: q =>
      if propagationStopped x then (x, [])
      else
        let p := quiet_matched e elem args l (set_current elem x) in
        let p' := quiet_queue e args q p.1 in (p'.1, p.2 ++ p'.2)
  end.

(** The state of the events but for one event and what happened. *)
Definition after (e : nat) (log : list ev_happening) (y : jevent) (a b : event_state) : Prop :=
  events b = <[e := y]> (events a) /\ ev_happened b = ev_happened a ++ log /\ handlers_of b = handlers_of a /\
  parents b = parents a /\ inline b = inline a /\ triggered b = triggered a /\ closures b = closures a /\ guids b = guids a.
Lemma after_trans e l1 l2 y1 y2 a b c : after e l1 y1 a b -> after e l2 y2 b c -> after e (l1 ++ l2) y2 a c.
Proof.
  intros (E1 & H1 & S1) (E2 & H2 & S2). split; [by rewrite E2, E1, list_insert_insert_eq|].
  split; [by rewrite H2, H1, app_assoc|]. destruct S1 as (-> & -> & -> & -> & -> & ->) in S2. done.
Qed.
Lemma after_lookup e l y a b : after e l y a b -> (e < length (events a))%nat -> events b !! e = Some y.
Proof. intros (-> & _) H. by apply list_lookup_insert_eq. Qed.
Lemma after_length e l y a b : after e l y a b -> length (events b) = length (events a).
Proof. intros (-> & _). apply length_insert. Qed.
Lemma after_refl e x a : events a !! e = Some x -> after e [] x a a.
Proof. intros H. split; [by rewrite list_insert_id|]. by rewrite app_nil_r. Qed.

Definition with_more (w : world) (a : event_state) : world := World (lists w) (states w) (whens w) (next_list w) a (trace w).
Lemma bind_change {A} f (k : unit -> M A) (w : world) : bind (change f) k w = k tt (with_more w (f (more w))).
Proof. done. Qed.
Lemma bind_event {A} e (k : jevent -> M A) (w : world) x : events (more w) !! e = Some x -> bind (the_event e) k w = k x w.
Proof. intros H. unfold the_event, bind, get. cbn. by rewrite H. Qed.
Lemma bind_update {A} e f (k : unit -> M A) (w : world) :
  bind (update_event e f) k w = k tt (with_more w (set_events (alter f e (events (more w))) (more w))).
Proof. done. Qed.
Lemma after_update e f (w : world) x : events (more w) !! e = Some x ->
  after e [] (f x) (more w) (set_events (alter f e (events (more w))) (more w)).
Proof.
  intros H. split; [|by rewrite app_nil_r]. cbn. apply list_eq. intros i. destruct (decide (i = e)) as [->|Hn].
  - rewrite list_lookup_alter_eq, H, list_lookup_insert_eq by (by eapply lookup_lt_Some). done.
  - by rewrite list_lookup_alter_ne, list_lookup_insert_ne by done.
Qed.

Section Steps.
Context (apply : cb -> value -> list value -> M value).
Context (Hres : forall f n args w, apply (Fn (User f)) (node n) args w = Some (w, Ok (res f (node n) args))).

Lemma preventDefault_run e (w : world) x : events (more w) !! e = Some x -> exists w',
  preventDefault e w = Some (w', Ok tt) /\ after e [] (set_flags true (propagationStopped x) (immediateStopped x) x) (more w) (more w').
Proof.
  intros H. unfold preventDefault. rewrite (bind_event _ _ _ _ H), bind_update. pose proof (after_update e (fun x => set_flags true (propagationStopped x) (immediateStopped x) x) w x H) as Ha.
  destruct (originalEvent x) as [[k|]|]; eexists; (split; [reflexivity|]); exact Ha.
Qed.
Lemma stopPropagation_run e (w : world) x : events (more w) !! e = Some x -> exists w',
  stopPropagation e w = Some (w', Ok tt) /\ after e [] (set_flags (defaultPrevented x) true (immediateStopped x) x) (more w) (more w').
Proof.
  intros H. unfold stopPropagation. rewrite (bind_event _ _ _ _ H), bind_update. pose proof (after_update e (fun x => set_flags (defaultPrevented x) true (immediateStopped x) x) w x H) as Ha.
  destruct (originalEvent x) as [[k|]|]; eexists; (split; [reflexivity|]); exact Ha.
Qed.
Lemma dispatch_one_run e elem h args (w : world) x : events (more w) !! e = Some x -> simple h -> passes x h = true -> exists w',
  dispatch_one apply e elem h args w = Some (w', Ok tt) /\
  after e [Ran e elem h] (quiet_one (returned e elem args h) h x) (more w) (more w').
Proof.
  intros H [[f Hf] Hb] Hp. unfold dispatch_one. rewrite (bind_event _ _ _ _ H). unfold passes in Hp. rewrite Hp, bind_update.
  pose proof (after_update e (set_handle h) w x H) as A1. set (w1 := with_more w _). change (set_events _ (more w)) with (more w1) in A1.
  assert (Hlt : (e < length (events (more w)))%nat) by (by eapply lookup_lt_Some).
  assert (E1 : invoke apply e elem h args = (change (ev_happen (Ran e elem h));;; apply (as_cb (handler h)) (node elem) (event_object e :: args))).
  { unfold invoke. destruct (origType h) as [t|]; [by rewrite Hb|done]. }
  set (w2 := with_more w1 (ev_happen (Ran e elem h) (more w1))).
  assert (A2 : after e [Ran e elem h] (set_handle h x) (more w) (more w2)).
  { destruct A1 as (Ev & Eh & S). rewrite app_nil_r in Eh. split; [exact Ev|]. split; [done|exact S]. }
  assert (Hv : returned e elem args h = res f (node elem) (event_object e :: args)) by (unfold returned; by rewrite Hf).
  rewrite E1. unfold bind at 1. rewrite bind_change. fold w2. rewrite Hf. cbn [as_cb]. rewrite Hres, Hv. unfold quiet_one.
  set (v := res f _ _). assert (E2 : events (more w2) !! e = Some (set_handle h x)) by (by apply (after_lookup _ _ _ _ _ A2)).
  assert (Hgen : exists w', (update_event e (set_ev_result v);;; (if is_false v then preventDefault e;;; stopPropagation e else ret tt)) w2 = Some (w', Ok tt) /\
     after e [Ran e elem h] (if is_false v then set_flags true true (immediateStopped (set_ev_result v (set_handle h x))) (set_ev_result v (set_handle h x))
                             else set_ev_result v (set_handle h x)) (more w) (more w')).
  { rewrite bind_update. pose proof (after_update e (set_ev_result v) w2 _ E2) as A3. set (w3 := with_more w2 _).
    change (set_events _ (more w2)) with (more w3) in A3. pose proof (after_trans _ _ _ _ _ _ _ _ A2 A3) as A4. rewrite app_nil_r in A4.
    assert (E3 : events (more w3) !! e = Some (set_ev_result v (set_handle h x))) by (by apply (after_lookup _ _ _ _ _ A4)).
    destruct (is_false v); [|by exists w3].
    destruct (preventDefault_run e w3 _ E3) as (w4 & R4 & A5). pose proof (after_trans _ _ _ _ _ _ _ _ A4 A5) as A6. rewrite app_nil_r in A6.
    destruct (stopPropagation_run e w4 _ ltac:(by apply (after_lookup _ _ _ _ _ A6))) as (w5 & R5 & A7).
    pose proof (after_trans _ _ _ _ _ _ _ _ A6 A7) as A8. rewrite app_nil_r in A8.
    exists w5. split; [|exact A8]. unfold bind. by rewrite R4. }
  destruct v as [[]| | | | | | | |]; try exact Hgen. by exists w2.
Qed.

Lemma after_nil e l y z a b c : after e l y a b -> after e [] z b c -> after e l z a c.
Proof. intros H1 H2. pose proof (after_trans _ _ _ _ _ _ _ _ H1 H2) as H. by rewrite app_nil_r in H. Qed.
Lemma run_matched_run e elem args l : forall (w : world) x, events (more w) !! e = Some x -> Forall simple l -> exists w',
  run_matched apply e elem l args w = Some (w', Ok tt) /\
  after e (quiet_matched e elem args l x).2 (quiet_matched e elem args l x).1 (more w) (more w').
Proof.
  induction l as [|h l IH]; intros w x H Hs; cbn [run_matched quiet_matched].
  - exists w. split; [done|]. by apply after_refl.
  - inversion Hs as [|? ? Hh Hl]; subst. rewrite (bind_event _ _ _ _ H). destruct (immediateStopped x).
    { exists w. split; [done|]. by apply after_refl. }
    destruct (passes x h) eqn:Hp.
    + destruct (dispatch_one_run e elem h args w x H Hh Hp) as (w1 & R1 & A1).
      destruct (IH w1 _ (after_lookup _ _ _ _ _ A1 ltac:(by eapply lookup_lt_Some)) Hl) as (w2 & R2 & A2).
      exists w2. unfold bind. rewrite R1. split; [done|]. by apply (after_trans _ _ _ _ _ _ _ _ A1 A2).
    + destruct (IH w x H Hl) as (w2 & R2 & A2). exists w2. split; [|done].
      unfold dispatch_one. unfold bind at 1. rewrite (bind_event _ _ _ _ H). unfold passes in Hp. by rewrite Hp.
Qed.
Lemma run_queue_run e args q : forall (w : world) x, events (more w) !! e = Some x -> Forall (fun p => Forall simple p.2) q -> exists w',
  run_queue apply e q args w = Some (w', Ok tt) /\
  after e (quiet_queue e args q x).2 (quiet_queue e args q x).1 (more w) (more w').
Proof.
  induction q as [|[elem l] q IH]; intros w x H Hs; cbn [run_queue quiet_queue].
  - exists w. split; [done|]. by apply after_refl.
  - inversion Hs as [|? ? Hl Hq]; subst. rewrite (bind_event _ _ _ _ H). destruct (propagationStopped x).
    { exists w. split; [done|]. by apply after_refl. }
    rewrite bind_update. pose proof (after_update e (set_current elem) w x H) as A0. set (w0 := with_more w _).
    change (set_events _ (more w)) with (more w0) in A0.
    assert (Hlt : (e < length (events (more w)))%nat) by (by eapply lookup_lt_Some).
    destruct (run_matched_run e elem args l w0 _ (after_lookup _ _ _ _ _ A0 Hlt) Hl) as (w1 & R1 & A1).
    pose proof (after_trans _ _ _ _ _ _ _ _ A0 A1) as A2. cbn [app] in A2.
    destruct (IH w1 _ (after_lookup _ _ _ _ _ A2 Hlt) Hq) as (w2 & R2 & A3).
    exists w2. unfold bind. rewrite R1. split; [done|]. by apply (after_trans _ _ _ _ _ _ _ _ A2 A3).
Qed.
Lemma dispatch_run e this args (w : world) x t q : events (more w) !! e = Some x -> ev_target x = Some t ->
  event_handlers (more w) this x (default (HandlerList [] 0) (assoc (ev_type x) (lists_of this (more w)))) = Some q ->
  Forall (fun p => Forall simple p.2) q -> ev_type x <> u "beforeunload" ->
  let p := quiet_queue e args q (set_delegate this x) in exists w',
  event_dispatch apply e this args w = Some (w', Ok (ev_result p.1)) /\ after e p.2 p.1 (more w) (more w').
Proof.
  intros H Ht Hq Hs Hb p. unfold event_dispatch. unfold bind at 1, get. rewrite (bind_event _ _ _ _ H), bind_update.
  pose proof (after_update e (set_delegate this) w x H) as A0. set (w0 := with_more w _).
  change (set_events _ (more w)) with (more w0) in A0.
  assert (Hlt : (e < length (events (more w)))%nat) by (by eapply lookup_lt_Some).
  rewrite bool_decide_eq_false_2, andb_false_r by (by rewrite Ht). rewrite Hq. unfold lift, bind at 1, ret at 1.
  destruct (run_queue_run e args q w0 _ (after_lookup _ _ _ _ _ A0 Hlt) Hs) as (w1 & R1 & A1). fold p in A1.
  pose proof (after_trans _ _ _ _ _ _ _ _ A0 A1) as A2. cbn [app] in A2.
  unfold bind at 1. rewrite R1, js_eqb_ne by done. unfold bind at 1, ret at 1.
  rewrite (bind_event _ _ _ _ (after_lookup _ _ _ _ _ A2 Hlt)). by exists w1.
Qed.
End Steps.

(** ** Which handlers run *)

Definition chosen (p : handle_obj -> bool) (l : list handle_obj) : list handle_obj := filter (fun h => p h = true) l.
Definition wanted (names : option (list jstr)) (h : handle_obj) : bool :=
  match names with None => true | Some names => namespace_test names (h_namespace h) end.
Definition refuses1 (e : nat) (args : list value) (names : option (list jstr)) (p : nat * list handle_obj) : bool :=
  existsb (fun h => is_false (returned e p.1 args h)) (chosen (wanted names) p.2).
Definition refuses (e : nat) (args : list value) (names : option (list jstr)) (q : list (nat * list handle_obj)) : bool :=
  existsb (refuses1 e args names) q.
(** All wanted handlers of an element, and those of the next ones unless one of them
    returned false. *)
Fixpoint heard (e : nat) (args : list value) (names : option (list jstr)) (q : list (nat * list handle_obj)) : list ev_happening :=
  match q with
  | [] => []
  | p :: q => map (Ran e p.1) (chosen (wanted names) p.2) ++ if refuses1 e args names p then [] else heard e args names q
  end.
Lemma heard_app e args names q1 q2 :
  heard e args names (q1 ++ q2) = heard e args names q1 ++ if refuses e args names q1 then [] else heard e args names q2.
Proof.
  induction q1 as [|p q1 IH]; [done|]. cbn [heard app refuses existsb]. rewrite IH, <- app_assoc. f_equal.
  by destruct (refuses1 e args names p).
Qed.
Lemma refuses_app e args names q1 q2 : refuses e args names (q1 ++ q2) = refuses e args names q1 || refuses e args names q2.
Proof. apply existsb_app. Qed.

(** What handlers leave of an event. *)
Definition same_event (x y : jevent) : Prop :=
  ev_type y = ev_type x /\ ev_target y = ev_target x /\ button y = button x /\ namespace_re y = namespace_re x /\
  immediateStopped y = immediateStopped x.
#[local] Instance same_event_preorder : PreOrder same_event.
Proof.
  split; [by intros x|]. intros x y z (H1 & H2 & H3 & H4 & H5) (G1 & G2 & G3 & G4 & G5). repeat split; congruence.
Qed.
Lemma quiet_one_same v h x : same_event x (quiet_one v h x) /\
  propagationStopped (quiet_one v h x) = propagationStopped x || is_false v /\
  defaultPrevented (quiet_one v h x) = defaultPrevented x || is_false v.
Proof.
  unfold quiet_one. assert (H : v = undef \/ match v with Prim PUndef => False | _ => True end) by (destruct v as [[]| | | | | | | |]; auto).
  destruct H as [->|H]; [cbn; by rewrite !orb_false_r|].
  replace (match v with Prim PUndef => set_handle h x | _ => _ end) with
    (let y := set_ev_result v (set_handle h x) in if is_false v then set_flags true true (immediateStopped y) y else y)
    by (by destruct v as [[]| | | | | | | |]). cbv zeta.
  destruct (is_false v); cbn; by rewrite ?orb_true_r, ?orb_false_r.
Qed.
Lemma chosen_step p h l : chosen p (h :: l) = if p h then h :: chosen p l else chosen p l.
Proof. unfold chosen. rewrite filter_cons. by destruct (p h). Qed.
Lemma refuses1_step e args names n h l : refuses1 e args names (n, h :: l) =
  if wanted names h then is_false (returned e n args h) || refuses1 e args names (n, l) else refuses1 e args names (n, l).
Proof. unfold refuses1. cbn [fst snd]. rewrite chosen_step. by destruct (wanted names h). Qed.
Lemma quiet_matched_spec e elem args l : forall x, immediateStopped x = false ->
  let p := quiet_matched e elem args l x in
  p.2 = map (Ran e elem) (chosen (wanted (namespace_re x)) l) /\ same_event x p.1 /\
  propagationStopped p.1 = propagationStopped x || refuses1 e args (namespace_re x) (elem, l) /\
  defaultPrevented p.1 = defaultPrevented x || refuses1 e args (namespace_re x) (elem, l).
Proof.
  induction l as [|h l IH]; intros x Hx; cbn [quiet_matched]; [cbn; by rewrite !orb_false_r|]. rewrite Hx.
  change (passes x h) with (wanted (namespace_re x) h). rewrite chosen_step, refuses1_step.
  destruct (wanted (namespace_re x) h) eqn:E; [|by apply IH].
  destruct (quiet_one_same (returned e elem args h) h x) as (Hs & Hp & Hd). pose proof Hs as (_ & _ & _ & Hn & Hi).
  destruct (IH (quiet_one (returned e elem args h) h x)) as (E1 & E2 & E3 & E4); [by rewrite Hi|]. cbn [fst snd].
  rewrite E1, E3, E4, Hn, Hp, Hd, <- !orb_assoc. split; [done|]. split; [|done]. by transitivity (quiet_one (returned e elem args h) h x).
Qed.
Lemma quiet_queue_spec e args q : forall x, immediateStopped x = false -> propagationStopped x = false ->
  let p := quiet_queue e args q x in
  p.2 = heard e args (namespace_re x) q /\ same_event x p.1 /\
  propagationStopped p.1 = refuses e args (namespace_re x) q /\
  defaultPrevented p.1 = defaultPrevented x || refuses e args (namespace_re x) q.
Proof.
  induction q as [|[elem l] q IH]; intros x Hx Hp; cbn [quiet_queue heard refuses existsb]; [cbn; by rewrite !orb_false_r|].
  rewrite Hp. destruct (quiet_matched_spec e elem args l (set_current elem x) Hx) as (E1 & E2 & E3 & E4).
  set (p := quiet_matched e elem args l (set_current elem x)) in *. cbn [fst snd] in *.
  change (namespace_re (set_current elem x)) with (namespace_re x) in *. rewrite E1.
  change (propagationStopped (set_current elem x)) with (propagationStopped x) in E3. rewrite Hp, orb_false_l in E3.
  revert E3 E4. destruct (refuses1 e args (namespace_re x) (elem, l)); intros E3 E4.
  - assert (Eq : quiet_queue e args q p.1 = (p.1, [])) by (destruct q as [|[n2 l2] q2]; cbn [quiet_queue]; by rewrite ?E3).
    rewrite Eq. cbn [fst snd orb]. rewrite E3, E4. split; [done|]. split; [exact E2|]. split; [done|]. by rewrite !orb_true_r.
  - pose proof E2 as (_ & _ & _ & Hn & Hi). destruct (IH p.1) as (F1 & F2 & F3 & F4); [by rewrite Hi|done|].
    rewrite F1, F3, F4, Hn, E4. split; [done|]. split; [by transitivity p.1|]. split; [done|].
    change (defaultPrevented (set_current elem x)) with (defaultPrevented x). by rewrite orb_false_r.
Qed.

(** ** Paths *)

Fixpoint before (this : nat) (l : list nat) : list nat :=
  match l with [] => [] | n :: l => if (n =? this)%nat then [] else n :: before this l end.
Lemma up_to_climb fuel par this : forall cur l, climb fuel par cur = Some l -> up_to fuel par this cur = Some (before this l).
Proof.
  induction fuel as [|fuel IH]; intros cur l; cbn [climb up_to]; [done|]. intros (l' & Hl & ->)%fmap_Some. cbn [before].
  destruct (cur =? this)%nat; [done|]. destruct (par !! cur) as [p|]; [by rewrite (IH p l' Hl)|]. by injection Hl as <-.
Qed.
(** The queue of a node on the path of an event at the target that heads [chain]: from the
    target up, the delegated handlers that select each element, then the node's own. *)
Definition queue_at (a : event_state) (chain : list nat) (elem cur : nat) (ty : jstr) : list (nat * list handle_obj) :=
  let l := default (HandlerList [] 0) (assoc ty (lists_of cur a)) in
  (if negb (delegateCount l =? 0) && negb (node_type elem =? 0)
   then filter (fun p => p.2 <> []) (map (fun n => (n, delegates a cur ty l n)) (before cur chain)) else [])
  ++ (if delegateCount l <? Z.of_nat (length (hs l)) then [(cur, drop (Z.to_nat (delegateCount l)) (hs l))] else []).
Definition all_simple (a : event_state) : Prop :=
  forall n L, handlers_of a !! n = Some L -> Forall (fun p => Forall simple (hs p.2)) L.

Lemma event_handlers_eq a chain elem cur x : climb (up_fuel (parents a)) (parents a) elem = Some chain ->
  ev_target x = Some elem -> button x = None ->
  event_handlers a cur x (default (HandlerList [] 0) (assoc (ev_type x) (lists_of cur a))) = Some (queue_at a chain elem cur (ev_type x)).
Proof.
  intros Hc Ht Hb. unfold event_handlers, queue_at. rewrite Ht, Hb, (up_to_climb _ _ _ _ _ Hc), orb_true_l, andb_true_r.
  cbv zeta. by destruct (negb (delegateCount _ =? 0) && negb (node_type elem =? 0)).
Qed.
Lemma assoc_Forall {A} (P : A -> Prop) k x (l : list (jstr * A)) : Forall (fun p => P p.2) l -> assoc k l = Some x -> P x.
Proof.
  induction 1 as [|[k' y] l H _ IH]; cbn [assoc]; [done|]. destruct (js_eqb k k'); [by intros [= <-]|done].
Qed.
Lemma queue_simple a chain elem cur ty : all_simple a -> Forall (fun p => Forall simple p.2) (queue_at a chain elem cur ty).
Proof.
  intros Ha. unfold queue_at. set (l := default _ _).
  assert (Hl : Forall simple (hs l)).
  { subst l. destruct (assoc ty (lists_of cur a)) as [l|] eqn:E; [|constructor]. unfold lists_of in E.
    destruct (handlers_of a !! cur) as [L|] eqn:EL; [|done]. by apply (assoc_Forall (fun l => Forall simple (hs l)) ty l L (Ha cur L EL)). }
  apply Forall_app. split.
  - destruct (_ && _); [|constructor]. apply Forall_forall. intros p [_ (n & -> & _)%list_elem_of_fmap]%list_elem_of_filter.
    cbn [snd]. unfold delegates. destruct (_ && _); [|constructor]. apply Forall_forall.
    intros h [_ Hh]%list_elem_of_filter. rewrite Forall_forall in Hl. apply Hl. apply (elem_of_take h (Z.to_nat (delegateCount l)) (hs l)) in Hh as (i & Hi & _).
    by eapply list_elem_of_lookup_2.
  - destruct (_ <? _); [|constructor]. constructor; [|constructor]. cbn [snd]. by apply Forall_drop.
Qed.

Lemma queue_empty a chain elem cur ty : assoc ty (lists_of cur a) = None -> queue_at a chain elem cur ty = [].
Proof. intros H. unfold queue_at. by rewrite H. Qed.

(** The nodes of a path with the type that is heard on each. *)
Definition typed (type : jstr) (first : bool) (path : list nat) : list (nat * jstr) :=
  match path with
  | [] => []
  | n :: l => (n, default type (if first then bindType type else delegateType type)) :: map (fun n => (n, default type (delegateType type))) l
  end.
Definition queues (a : event_state) (chain : list nat) (elem : nat) (path : list (nat * jstr)) : list (nat * list handle_obj) :=
  flat_map (fun p => queue_at a chain elem p.1 p.2) path.
Lemma typed_cons type first n path : typed type first (n :: path) =
  (n, default type (if first then bindType type else delegateType type)) :: typed type false path.
Proof. unfold typed. by destruct path. Qed.
Lemma queues_same a b chain elem path : handlers_of b = handlers_of a -> parents b = parents a -> queues b chain elem path = queues a chain elem path.
Proof.
  intros Hh Hp. unfold queues. induction path as [|[n ty] path IH]; [done|]. cbn [flat_map]. rewrite IH. f_equal. cbn [fst snd].
  unfold queue_at, lists_of, delegates. by rewrite Hh, Hp.
Qed.

Section Path.
Context (apply : cb -> value -> list value -> M value).
Context (Hres : forall f n args w, apply (Fn (User f)) (node n) args w = Some (w, Ok (res f (node n) args))).
Context (e elem : nat) (args : list value) (type : jstr) (chain : list nat) (names : option (list jstr)).

(** The event of a trigger on its way. *)
Definition on_the_way (x : jevent) : Prop :=
  ev_target x = Some elem /\ button x = None /\ namespace_re x = names /\ immediateStopped x = false.
Definition at_rest (a : event_state) : Prop :=
  all_simple a /\ climb (up_fuel (parents a)) (parents a) elem = Some chain /\ inline a = [] /\ triggered a = None.
Lemma at_rest_after log y a b : after e log y a b -> at_rest a -> at_rest b.
Proof.
  intros (_ & _ & Hh & Hp & Hi & Ht & _) (H1 & H2 & H3 & H4). unfold at_rest, all_simple. by rewrite Hh, Hp, Hi, Ht.
Qed.
Lemma on_the_way_same x y : same_event x y -> on_the_way x -> on_the_way y.
Proof. intros (_ & H1 & H2 & H3 & H4) (G1 & G2 & G3 & G4). unfold on_the_way. by rewrite H1, H2, H3, H4. Qed.
Lemma stopped_path ty path first (w : world) x : events (more w) !! e = Some x -> propagationStopped x = true ->
  fire_path apply e ty first path args w = Some (w, Ok tt).
Proof. intros H Hp. destruct path as [|n path]; cbn [fire_path]; [done|]. by rewrite (bind_event _ _ _ _ H), Hp. Qed.
(** The handlers of the library on one node of the path. *)
Lemma node_run cur (w : world) x : events (more w) !! e = Some x -> on_the_way x -> at_rest (more w) ->
  propagationStopped x = false -> ev_type x <> u "beforeunload" ->
  let q := queue_at (more w) chain elem cur (ev_type x) in exists w' y,
  (match assoc (ev_type x) (lists_of cur (more w)) with Some _ => event_handle apply e cur args;;; ret tt | None => ret tt end) w = Some (w', Ok tt) /\
  after e (heard e args names q) y (more w) (more w') /\ on_the_way y /\ propagationStopped y = refuses e args names q /\
  defaultPrevented y = defaultPrevented x || refuses e args names q.
Proof.
  intros H Hx (Hsimple & Hclimb & Hin & Htr) Hp Hb. cbv zeta. destruct (assoc (ev_type x) (lists_of cur (more w))) as [l|] eqn:E.
  - pose proof Hx as (Ht & Hbut & Hn & Hi).
    pose proof (event_handlers_eq (more w) chain elem cur x Hclimb Ht Hbut) as Hq. set (q := queue_at _ _ _ _ _) in *.
    destruct (dispatch_run apply Hres e cur args w x elem q H Ht Hq (queue_simple _ _ _ _ _ Hsimple) Hb) as (w' & R & A).
    destruct (quiet_queue_spec e args q (set_delegate cur x) Hi Hp) as (E1 & E2 & E3 & E4).
    cbn [set_delegate namespace_re] in E1, E3, E4. rewrite Hn in E1, E3, E4. rewrite E1 in A.
    exists w'. eexists. split; [|split; [exact A|split; [|by split]]].
    + unfold event_handle. unfold bind at 1. unfold bind at 1, get. rewrite (bind_event _ _ _ _ H).
      rewrite bool_decide_eq_false_2 by (by rewrite Htr). by rewrite R.
    + apply (on_the_way_same (set_delegate cur x)); [done|exact Hx].
  - rewrite (queue_empty _ _ _ _ _ E). exists w, x. split; [done|]. split; [by apply after_refl|]. split; [done|]. cbn. by rewrite orb_false_r.
Qed.
Lemma fire_path_run path : forall first (w : world) x, events (more w) !! e = Some x -> on_the_way x -> at_rest (more w) ->
  propagationStopped x = false -> Forall (fun p => p.2 <> u "beforeunload") (typed type first path) ->
  let q := queues (more w) chain elem (typed type first path) in exists w' y,
  fire_path apply e type first path args w = Some (w', Ok tt) /\ after e (heard e args names q) y (more w) (more w') /\
  on_the_way y /\ propagationStopped y = refuses e args names q /\
  defaultPrevented y = defaultPrevented x || refuses e args names q.
Proof.
  induction path as [|cur path IH]; intros first w x H Hx Ha Hp Hb; cbn [fire_path].
  { exists w, x. split; [done|]. split; [by apply after_refl|]. split; [done|]. cbn. by rewrite orb_false_r. }
  rewrite typed_cons in *. inversion Hb as [|? ? Hb1 Hb2]; subst. cbn [snd] in Hb1. cbv zeta. unfold queues. cbn [flat_map fst snd].
  set (ty := default type (if first then bindType type else delegateType type)) in *. fold (queues (more w) chain elem (typed type false path)).
  replace (if first then default type (bindType type) else default type (delegateType type)) with ty by (by destruct first).
  rewrite (bind_event _ _ _ _ H), Hp, bind_update. pose proof (after_update e (set_ev_type ty) w x H) as A0.
  set (w0 := with_more w _). change (set_events _ (more w)) with (more w0) in A0.
  assert (Hlt : (e < length (events (more w)))%nat) by (by eapply lookup_lt_Some).
  destruct (node_run cur w0 (set_ev_type ty x) (after_lookup _ _ _ _ _ A0 Hlt) Hx (at_rest_after _ _ _ _ A0 Ha) Hp Hb1) as (w1 & y & R1 & A1 & Hy & Hpy & Hdy).
  cbn [set_ev_type ev_type defaultPrevented] in *.
  change (queue_at (more w0) chain elem cur ty) with (queue_at (more w) chain elem cur ty) in *.
  set (q := queue_at (more w) chain elem cur ty) in *. pose proof (after_trans _ _ _ _ _ _ _ _ A0 A1) as A2. cbn [app] in A2.
  pose proof (at_rest_after _ _ _ _ A2 Ha) as Ha2. pose proof Ha2 as (_ & _ & Hin & _).
  pose proof (after_lookup _ _ _ _ _ A2 Hlt) as H1. unfold bind at 1, get. unfold bind at 1. rewrite R1. unfold bind at 1.
  unfold inline_of. rewrite Hin. cbn [find fmap option_fmap option_map]. unfold bind at 1.
  replace ((if no_colon type then None else None) : option callee) with (@None callee) by (by destruct (no_colon type)). unfold ret at 1.
  rewrite heard_app, refuses_app. destruct (refuses e args names q) eqn:Er.
  - rewrite (stopped_path _ _ _ w1 y H1 Hpy). exists w1, y. split; [done|]. rewrite app_nil_r. split; [done|]. split; [done|].
    cbn [orb]. split; [done|]. done.
  - destruct (IH false w1 y H1 Hy Ha2 Hpy Hb2) as (w2 & z & R2 & A3 & Hz & Hpz & Hdz).
    pose proof A2 as (_ & _ & Hh & Hpar & _). rewrite (queues_same _ _ _ _ _ Hh Hpar) in *.
    exists w2, z. split; [done|]. split; [by apply (after_trans _ _ _ _ _ _ _ _ A2 A3)|]. split; [done|]. split; [done|].
    by rewrite Hdz, Hdy, orb_false_r.
Qed.
End Path.
(** ** The way of an event, said of the tree *)

(** A node and its ancestors, up to one that has no parent. *)
Inductive lineage (par : gmap nat nat) : nat -> list nat -> Prop :=
  | LineageTop n : par !! n = None -> lineage par n [n]
  | LineageUp n p l : par !! n = Some p -> lineage par p l -> lineage par n (n :: l).
Lemma lineage_det par n l : lineage par n l -> forall l', lineage par n l' -> l' = l.
Proof.
  induction 1 as [n Hn|n p l Hn H IH]; intros l' H'; inversion H' as [? Hn'|? p' l2 Hn' H2]; subst; try congruence.
  rewrite Hn in Hn'. injection Hn' as <-. by rewrite (IH l2).
Qed.
Lemma lineage_suffix par n l : lineage par n l -> forall m, m ∈ l -> exists l', lineage par m l' /\ l' `suffix_of` l.
Proof.
  induction 1 as [n Hn|n p l Hn H IH]; intros m Hm.
  - apply list_elem_of_singleton in Hm as ->. exists [n]. split; [by constructor|done].
  - apply elem_of_cons in Hm as [->|Hm]; [exists (n :: l); split; [by econstructor|done]|].
    destruct (IH m Hm) as (l' & H1 & H2). exists l'. split; [done|]. by apply suffix_cons_r.
Qed.
Lemma lineage_distinct par n l : lineage par n l -> NoDup l.
Proof.
  induction 1 as [n Hn|n p l Hn H IH]; [apply NoDup_singleton|]. constructor; [|done]. intros Hin.
  destruct (lineage_suffix _ _ _ H n Hin) as (l' & H1 & H2). rewrite (lineage_det par n (n :: l) ltac:(by econstructor) l' H1) in H2.
  apply suffix_length in H2. cbn in H2. lia.
Qed.
Lemma lineage_known par n l : lineage par n l -> forall m, m ∈ removelast l -> m ∈ dom par.
Proof.
  induction 1 as [n Hn|n p l Hn H IH]; intros m Hm; [by apply elem_of_nil in Hm|].
  assert (E : removelast (n :: l) = n :: removelast l) by (by destruct H). rewrite E in Hm.
  apply elem_of_cons in Hm as [->|Hm]; [apply elem_of_dom; by exists p|by apply IH].
Qed.
Lemma lineage_climb par n l : lineage par n l -> forall fuel, (length l <= fuel)%nat -> climb fuel par n = Some l.
Proof.
  induction 1 as [n Hn|n p l Hn H IH]; intros fuel Hf; (destruct fuel as [|fuel]; [cbn in Hf; lia|]); cbn [climb]; rewrite Hn; [done|].
  rewrite IH; [done|]. cbn in Hf. lia.
Qed.
Lemma lineage_up par n l : lineage par n l -> climb (up_fuel par) par n = Some l.
Proof.
  intros H. apply (lineage_climb _ _ _ H). unfold up_fuel.
  assert (Hlen : (length (removelast l) <= size par)%nat).
  { rewrite <- size_dom. change (length (removelast l) <= length (elements (dom par : gset nat)))%nat. apply submseteq_length, NoDup_submseteq.
    - pose proof (lineage_distinct _ _ _ H) as Hd. destruct l as [|x l] using rev_ind; [by constructor|]. rewrite removelast_last.
      by apply NoDup_app in Hd as [Hd _].
    - intros m Hm. apply elem_of_elements. by apply (lineage_known _ _ _ H). }
  destruct l as [|x l] using rev_ind; [cbn; lia|]. rewrite removelast_last in Hlen. rewrite length_app. cbn. lia.
Qed.

(** The nodes an event of a type passes: the target and its ancestors and, where they end
    with the document, its window; a load, or an event of a window, stays where it is. *)
Definition route (type : jstr) (elem : nat) (chain : list nat) : list nat :=
  if js_eqb type (u "load") || is_window elem then [elem]
  else chain ++ (match last chain with
                 | Some top => if (top =? default document (ownerDocument elem))%nat then [window_of top] else []
                 | None => []
                 end).
Lemma no_morph type : js_eqb type (u "focus") = false -> js_eqb type (u "blur") = false ->
  rfocusMorph (default type (delegateType type) ++ type) = false.
Proof.
  intros Hf Hb. enough (H : forall t, default type (delegateType type) ++ type = t -> t <> u "focusinfocus" /\ t <> u "focusoutblur").
  { destruct (H _ eq_refl). unfold rfocusMorph. apply orb_false_iff. split; by apply js_eqb_ne. }
  intros t E. unfold delegateType in E. rewrite Hf, Hb in E.
  destruct (js_eqb type (u "mouseenter")) eqn:E1; [apply js_eqb_true in E1 as ->; by subst t|].
  destruct (js_eqb type (u "mouseleave")) eqn:E2; [apply js_eqb_true in E2 as ->; by subst t|]. cbn [default option_rect] in E.
  assert (Htwice : length t = 12%nat -> take 6 t = drop 6 t).
  { intros Hl. subst t. rewrite length_app in Hl. by rewrite take_app_length', drop_app_length' by lia. }
  split; intros ->; specialize (Htwice eq_refl); discriminate Htwice.
Qed.
Lemma route_path type elem chain par : js_eqb type (u "focus") = false -> js_eqb type (u "blur") = false -> lineage par elem chain ->
  event_path par false type elem = Some (route type elem chain).
Proof.
  intros Hf Hb H. unfold event_path, route, noBubble. destruct (js_eqb type (u "load")); [done|]. destruct (is_window elem); [done|].
  cbn [negb andb orb]. unfold ancestors. rewrite (lineage_up _ _ _ H). cbn [fmap option_fmap option_map]. rewrite no_morph by done.
  assert (E : exists l, chain = elem :: l) by (destruct H; eauto). destruct E as [l ->]. cbn [tail]. f_equal. cbn [app]. f_equal. f_equal.
  destruct l as [|p l] using rev_ind; [done|]. rewrite app_comm_cons, !last_snoc. done.
Qed.
End Quiet.
