(* ===== verification/EventNamespaces.v ===== *)
(** * Events: the expression made of namespaces asks for a subset

    [add] sorts the namespaces of a handler and joins them with dots, [trigger] and [remove]
    make an expression of the sorted names they are given: it matches exactly the texts
    that contain all of these names. *)

From Stdlib Require Import ZArith Lia Sorted.
From stdpp Require Import base tactics list numbers strings.
From S2P Require Import Prelude JsValue Regex Event.
Local Open Scope Z_scope.

(** ** Sorted names *)

Definition js_le (a b : jstr) : Prop := js_leb a b = true.
Lemma js_le_total a b : js_le a b \/ js_le b a.
Proof.
  unfold js_le. revert b. induction a as [|x a IH]; intros [|y b]; cbn; auto.
  destruct (Z.ltb_spec x y), (Z.ltb_spec y x); cbn; auto; try lia. assert (x = y) as -> by lia. rewrite Z.eqb_refl. cbn. apply IH.
Qed.
Lemma js_le_antisym a b : js_le a b -> js_le b a -> a = b.
Proof.
  unfold js_le. revert b. induction a as [|x a IH]; intros [|y b]; cbn; try done.
  destruct (Z.ltb_spec x y), (Z.ltb_spec y x), (Z.eqb_spec x y), (Z.eqb_spec y x); cbn; try done; try lia. subst. intros. f_equal. auto.
Qed.
Lemma js_le_trans a b c : js_le a b -> js_le b c -> js_le a c.
Proof.
  unfold js_le. revert b c. induction a as [|x a IH]; intros [|y b] [|z c]; cbn; try done.
  destruct (Z.ltb_spec x y), (Z.ltb_spec y z), (Z.ltb_spec x z), (Z.eqb_spec x y), (Z.eqb_spec y z), (Z.eqb_spec x z); cbn; try done; try lia.
  apply IH.
Qed.
Lemma insert_name_perm x l : insert_name x l ≡ₚ x :: l.
Proof. induction l as [|y l IH]; cbn; [done|]. destruct (js_leb x y); [done|]. rewrite IH. apply Permutation_swap. Qed.
Lemma sort_names_perm l : sort_names l ≡ₚ l.
Proof. induction l as [|x l IH]; cbn; [done|]. by rewrite insert_name_perm, IH. Qed.
Lemma insert_name_sorted x l : StronglySorted js_le l -> StronglySorted js_le (insert_name x l).
Proof.
  induction 1 as [|y l Hl IH Hy]; cbn; [by repeat constructor|]. destruct (js_leb x y) eqn:E.
  - constructor; [by constructor|]. constructor; [done|]. eapply Forall_impl; [exact Hy|]. intros z. by apply js_le_trans.
  - constructor; [done|]. rewrite Forall_forall. intros z Hz. rewrite insert_name_perm in Hz. apply elem_of_cons in Hz as [->|Hz].
    + destruct (js_le_total x y); [unfold js_le in *; congruence|done].
    + rewrite Forall_forall in Hy. by apply Hy.
Qed.
Lemma sort_names_sorted l : StronglySorted js_le (sort_names l).
Proof. induction l; cbn; [constructor|by apply insert_name_sorted]. Qed.
(** Between sorted lists, being contained and being a subsequence are the same. *)
Lemma sorted_sublist l2 : forall l1, StronglySorted js_le l1 -> StronglySorted js_le l2 -> l1 ⊆+ l2 -> l1 `sublist_of` l2.
Proof.
  induction l2 as [|y l2 IH]; intros l1 S1 S2 H; [apply submseteq_nil_r in H as ->; constructor|].
  inversion S2 as [|? ? S2' Hy]; subst. destruct l1 as [|x l1]; [apply sublist_nil_l|]. inversion S1 as [|? ? S1' Hx]; subst.
  destruct (decide (x = y)) as [->|Hn].
  - apply sublist_skip, IH; [done..|]. by apply (submseteq_app_inv_l l1 l2 [y]).
  - apply sublist_cons, IH; [done..|]. apply submseteq_cons_r in H as [H|(k & Hk & H)]; [done|]. exfalso.
    assert (Hyin : y ∈ x :: l1) by (rewrite Hk; by left). apply elem_of_cons in Hyin as [->|Hyin]; [done|].
    assert (Hxin : x ∈ y :: l2) by (apply (elem_of_submseteq (x :: l1)); [by left|]; rewrite Hk; by apply submseteq_skip).
    apply elem_of_cons in Hxin as [->|Hxin]; [done|]. rewrite Forall_forall in Hx, Hy. apply Hn, js_le_antisym; [by apply Hx|by apply Hy].
Qed.

(** ** The texts of the expression *)

Definition any_char (c : Z) : Prop := 0 <= c <= 65535.
Definition dot_char (c : Z) : Prop := in_ranges [(0, 9); (11, 12); (14, 8231); (8234, 65535)] c = true.
Definition dotless (n : jstr) : Prop := Forall (fun c => c <> 46) n.

(** [(^|\.)], [(?:.*\.|)] and [(\.|$)] *)
Definition head_part (p : jstr) : Prop := p = [] \/ exists x, p = x ++ [46] /\ Forall any_char x.
Definition gap_part (p : jstr) : Prop := p = [] \/ exists x, p = x ++ [46] /\ Forall dot_char x.
Definition tail_part (p : jstr) : Prop := p = [] \/ exists x, p = 46 :: x /\ Forall any_char x.
Fixpoint names_part (l : list jstr) (s : jstr) : Prop :=
  match l with
  | [] => s = []
  | n :: l => exists gap s', s = 46 :: gap ++ n ++ s' /\ gap_part gap /\ names_part l s'
  end.

Lemma in_class_false ranges c : in_class false ranges c = in_ranges ranges c.
Proof. unfold in_class. cbn. by rewrite orb_false_r. Qed.
Lemma lang_one_dot s : lang false (one 46) s <-> s = [46].
Proof. apply lang_one; [reflexivity|by right]. Qed.
Lemma lang_any s : lang false any_unit s <-> Forall any_char s.
Proof.
  unfold any_unit. rewrite lang_star_cls. split; intros H; (eapply Forall_impl; [exact H|]); intros c; cbn beta; rewrite in_class_false; unfold in_ranges, any_char; cbn; lia.
Qed.
Lemma lang_dots s : lang false any_dot s <-> Forall dot_char s.
Proof. unfold any_dot. rewrite lang_star_cls. split; intros H; (eapply Forall_impl; [exact H|]); intros c; cbn beta; by rewrite in_class_false. Qed.
Lemma lang_literal n s : lang false (literal n) s <-> s = n.
Proof.
  revert s. induction n as [|c n IH]; intros s; [apply lang_eps|].
  assert (H1 : forall t, lang false (one c) t <-> t = [c]).
  { intros t. apply lang_one; [|by right]. unfold in_class, in_ranges. cbn. by rewrite Z.leb_refl. }
  destruct n as [|d n]; [by apply H1|]. change (literal (c :: d :: n)) with (Seq (one c) (literal (d :: n))).
  rewrite lang_seq. split.
  - intros (s1 & s2 & -> & Hs1 & Hs2). apply H1 in Hs1 as ->. apply IH in Hs2 as ->. done.
  - intros ->. exists [c], (d :: n). split; [done|]. split; [by apply H1|by apply IH].
Qed.
Lemma lang_cons r l s : lang false (seqs (r :: l)) s <-> exists s1 s2, s = s1 ++ s2 /\ lang false r s1 /\ lang false (seqs l) s2.
Proof.
  destruct l as [|r' l]; [|apply lang_seq]. change (seqs [r]) with r. split.
  - intros H. exists s, []. split; [by rewrite app_nil_r|]. split; [done|]. by apply lang_eps.
  - intros (s1 & s2 & -> & H & Hs2). apply lang_eps in Hs2 as ->. by rewrite app_nil_r.
Qed.
Lemma lang_head s : lang false (opt (Seq any_unit (one 46))) s <-> head_part s.
Proof.
  rewrite lang_opt, lang_seq. apply or_iff_compat_l. split.
  - intros (x & d & -> & Hx & Hd). apply lang_one_dot in Hd as ->. exists x. split; [done|]. by apply lang_any.
  - intros (x & -> & Hx). exists x, [46]. split; [done|]. split; [by apply lang_any|by apply lang_one_dot].
Qed.
Lemma lang_gap s : lang false (opt (Seq any_dot (one 46))) s <-> gap_part s.
Proof.
  rewrite lang_opt, lang_seq. apply or_iff_compat_l. split.
  - intros (x & d & -> & Hx & Hd). apply lang_one_dot in Hd as ->. exists x. split; [done|]. by apply lang_dots.
  - intros (x & -> & Hx). exists x, [46]. split; [done|]. split; [by apply lang_dots|by apply lang_one_dot].
Qed.
Lemma lang_tail s : lang false (opt (Seq (one 46) any_unit)) s <-> tail_part s.
Proof.
  rewrite lang_opt, lang_seq. apply or_iff_compat_l. split.
  - intros (d & x & -> & Hd & Hx). apply lang_one_dot in Hd as ->. exists x. split; [done|]. by apply lang_any.
  - intros (x & -> & Hx). exists [46], x. split; [done|]. split; [by apply lang_one_dot|by apply lang_any].
Qed.
Lemma lang_names l : forall s, lang false (seqs (flat_map (fun n => [one 46; opt (Seq any_dot (one 46)); literal n]) l)) s <-> names_part l s.
Proof.
  induction l as [|n l IH]; intros s; [apply lang_eps|]. cbn [flat_map app names_part]. rewrite lang_cons. split.
  - intros (d & s2 & -> & Hd & H). apply lang_one_dot in Hd as ->. apply lang_cons in H as (gap & s3 & -> & Hg & H).
    apply lang_cons in H as (n' & s4 & -> & Hn & H). apply lang_literal in Hn as ->. exists gap, s4. split; [done|].
    split; [by apply lang_gap|by apply IH].
  - intros (gap & s' & -> & Hg & H). exists [46], (gap ++ n ++ s'). split; [done|]. split; [by apply lang_one_dot|].
    apply lang_cons. exists gap, (n ++ s'). split; [done|]. split; [by apply lang_gap|].
    apply lang_cons. exists n, s'. split; [done|]. split; [by apply lang_literal|by apply IH].
Qed.
Lemma lang_namespace n l s : lang false (namespace_regex (n :: l)) s <->
  exists p m t, s = p ++ n ++ m ++ t /\ head_part p /\ names_part l m /\ tail_part t.
Proof.
  unfold namespace_regex. rewrite lang_cons. split.
  - intros (p & s2 & -> & Hp & H). apply lang_cons in H as (nm & t & -> & Hnm & Ht). change (seqs [?r]) with r in Ht.
    apply lang_cons in Hnm as (n' & m & -> & Hn & Hm). apply lang_literal in Hn as ->. exists p, m, t.
    split; [by rewrite <- app_assoc|]. split; [by apply lang_head|]. split; [by apply lang_names|by apply lang_tail].
  - intros (p & m & t & -> & Hp & Hm & Ht). exists p, (n ++ m ++ t). split; [done|]. split; [by apply lang_head|].
    apply lang_cons. exists (n ++ m), t. split; [by rewrite <- app_assoc|]. split; [|by apply lang_tail].
    apply lang_cons. exists n, m. split; [done|]. split; [by apply lang_literal|by apply lang_names].
Qed.

(** ** The pieces of a text *)

Lemma rest_sublist l : forall m t, names_part l m -> tail_part t -> Forall dotless l ->
  (m ++ t = [] /\ l = []) \/ exists y, m ++ t = 46 :: y /\ l `sublist_of` split_on 46 y.
Proof.
  induction l as [|n l IH]; intros m t Hm Ht Hl; cbn in Hm.
  - subst m. destruct Ht as [->|(x & -> & _)]; [by left|]. right. exists x. split; [done|]. apply sublist_nil_l.
  - inversion Hl as [|? ? Hn Hl']; subst. destruct Hm as (gap & s' & -> & Hg & Hs). right. exists (gap ++ n ++ s' ++ t).
    split; [cbn; by rewrite <- !app_assoc|].
    assert (H : n :: l `sublist_of` split_on 46 (n ++ s' ++ t)).
    { destruct (IH s' t Hs Ht Hl') as [[-> ->]|(y & -> & Hy)]; [by rewrite app_nil_r, split_on_none|].
      rewrite split_on_cons by done. by apply sublist_skip. }
    destruct Hg as [->|(x & -> & _)]; [done|]. rewrite <- app_assoc. cbn [app]. rewrite split_on_app. by apply sublist_inserts_l.
Qed.
Lemma namespace_sublist n l s : lang false (namespace_regex (n :: l)) s -> Forall dotless (n :: l) -> n :: l `sublist_of` split_on 46 s.
Proof.
  intros (p & m & t & -> & Hp & Hm & Ht)%lang_namespace Hl. inversion Hl as [|? ? Hn Hl']; subst.
  assert (H : n :: l `sublist_of` split_on 46 (n ++ m ++ t)).
  { destruct (rest_sublist l m t Hm Ht Hl') as [[-> ->]|(y & -> & Hy)]; [by rewrite app_nil_r, split_on_none|].
    rewrite split_on_cons by done. by apply sublist_skip. }
  destruct Hp as [->|(x & -> & _)]; [done|]. rewrite <- app_assoc. cbn [app]. rewrite split_on_app. by apply sublist_inserts_l.
Qed.

(** The text of pieces, a dot before each. *)
Definition dotted (ps : list jstr) : jstr := concat (map (cons 46) ps).
Lemma join_dotted p ps : join [46] (p :: ps) = p ++ dotted ps.
Proof.
  revert p. induction ps as [|q ps IH]; intros p; [cbn; by rewrite app_nil_r|].
  change (join [46] (p :: q :: ps)) with (p ++ 46 :: join [46] (q :: ps)). by rewrite IH.
Qed.
Lemma dot_chars_join ps : Forall (Forall dot_char) ps -> Forall dot_char (join [46] ps).
Proof.
  destruct ps as [|p ps]; [constructor|]. intros [Hp H]%Forall_cons. rewrite join_dotted. apply Forall_app. split; [done|].
  induction H as [|q ps Hq H IH]; [constructor|]. cbn. constructor; [done|]. by apply Forall_app.
Qed.
Lemma dot_any x : Forall dot_char x -> Forall any_char x.
Proof. intros H. eapply Forall_impl; [exact H|]. intros c. unfold dot_char, any_char, in_ranges. cbn. lia. Qed.
Lemma dotted_parts l : forall ps, l `sublist_of` ps -> Forall (Forall dot_char) ps ->
  exists m t, dotted ps = m ++ t /\ names_part l m /\ tail_part t.
Proof.
  induction l as [|n l IH]; intros ps Hs Hp.
  - exists [], (dotted ps). split; [done|]. split; [done|]. destruct ps as [|p ps]; [by left|]. right. exists (join [46] (p :: ps)).
    split; [by rewrite join_dotted|]. by apply dot_any, dot_chars_join.
  - apply sublist_cons_l in Hs as (ps1 & ps2 & -> & Hs). apply Forall_app in Hp as [Hp1 Hp2]. apply Forall_cons in Hp2 as [Hn Hp2].
    destruct (IH ps2 Hs Hp2) as (m & t & E & Hm & Ht). unfold dotted. rewrite map_app, concat_app. cbn [map concat]. fold (dotted ps2). rewrite E.
    destruct ps1 as [|q ps1].
    + exists (46 :: n ++ m), t. split; [cbn; by rewrite <- app_assoc|]. split; [|done]. exists [], m. split; [done|]. split; [by left|done].
    + exists (46 :: (join [46] (q :: ps1) ++ [46]) ++ n ++ m), t. split; [rewrite join_dotted; cbn; unfold dotted; by rewrite <- !app_assoc|].
      split; [|done]. exists (join [46] (q :: ps1) ++ [46]), m. split; [done|]. split; [|done]. right.
      exists (join [46] (q :: ps1)). split; [done|]. by apply dot_chars_join.
Qed.
Lemma sublist_namespace n l ps : n :: l `sublist_of` ps -> Forall (Forall dot_char) ps ->
  lang false (namespace_regex (n :: l)) (join [46] ps).
Proof.
  intros (ps1 & ps2 & -> & Hs)%sublist_cons_l Hp. apply Forall_app in Hp as [Hp1 Hp2]. apply Forall_cons in Hp2 as [Hn Hp2].
  destruct (dotted_parts l ps2 Hs Hp2) as (m & t & E & Hm & Ht). apply lang_namespace. destruct ps1 as [|q ps1].
  - exists [], m, t. cbn [app]. rewrite join_dotted, E. split; [done|]. split; [by left|done].
  - exists (join [46] (q :: ps1) ++ [46]), m, t. split; [|split; [right; exists (join [46] (q :: ps1))|done]].
    + cbn [app]. rewrite !join_dotted. unfold dotted. rewrite map_app, concat_app. cbn [map concat]. fold (dotted ps2). rewrite E. by rewrite <- !app_assoc.
    + split; [done|]. by apply dot_any, dot_chars_join.
Qed.

Section Subset.
Context {D : Dom}.

Lemma plain_dotless l : existsb (existsb special_char) l = false -> Forall dotless l.
Proof.
  intros H. apply Forall_forall. intros n Hn. apply Forall_forall. intros c Hc ->. enough (existsb (existsb special_char) l = true) by congruence.
  apply existsb_exists. exists n. split; [by apply list_elem_of_In|]. apply existsb_exists. exists 46. split; [by apply list_elem_of_In|reflexivity].
Qed.
Lemma existsb_perm {A} (f : A -> bool) l1 l2 : l1 ≡ₚ l2 -> existsb f l1 = existsb f l2.
Proof. induction 1; cbn; [done|congruence|by rewrite !orb_assoc, (orb_comm (f y))|congruence]. Qed.

(** The expression made of the wanted namespaces matches the text of a handler's namespaces
    exactly if the handler has all of them (each as often as it is wanted): both are sorted,
    so that a subset is a subsequence of the pieces between the dots. *)
Theorem namespace_subset wanted own : wanted <> [] -> own <> [] ->
  existsb (existsb special_char) wanted = false -> Forall dotless own -> Forall (Forall dot_char) own ->
  namespace_test (sort_names wanted) (join (u ".") (sort_names own)) = true <-> wanted ⊆+ own.
Proof.
  intros Hw Ho Hs Hd Hc. unfold namespace_test. rewrite (existsb_perm _ _ _ (sort_names_perm wanted)), Hs, matches_lang.
  assert (Hsub : wanted ⊆+ own <-> sort_names wanted ⊆+ sort_names own) by (by rewrite (sort_names_perm wanted), (sort_names_perm own)).
  rewrite Hsub. clear Hsub. change (u ".") with [46].
  pose proof (sort_names_sorted wanted) as S1. pose proof (sort_names_sorted own) as S2.
  assert (D1 : Forall dotless (sort_names wanted)) by (rewrite sort_names_perm; by apply plain_dotless).
  assert (D2 : Forall dotless (sort_names own)) by (by rewrite sort_names_perm).
  assert (C2 : Forall (Forall dot_char) (sort_names own)) by (by rewrite sort_names_perm).
  assert (N1 : sort_names wanted <> []) by (intros E; pose proof (sort_names_perm wanted) as P; rewrite E in P; by apply Permutation_nil_l in P).
  assert (N2 : sort_names own <> []) by (intros E; pose proof (sort_names_perm own) as P; rewrite E in P; by apply Permutation_nil_l in P).
  destruct (sort_names wanted) as [|n l]; [done|]. split.
  - intros H. apply namespace_sublist in H; [|done]. rewrite split_on_join in H by done. by apply sublist_submseteq.
  - intros H. apply sublist_namespace; [|done]. by apply sorted_sublist.
Qed.
End Subset.

Section Example_of_a_subset.
Local Existing Instance small_dom.
Lemma namespace_subset_witness :
  (namespace_test (sort_names [u "c"; u "a"]) (join (u ".") (sort_names [u "b"; u "c"; u "a"])) = true <->
   [u "c"; u "a"] ⊆+ [u "b"; u "c"; u "a"]) /\
  namespace_test (sort_names [u "c"; u "a"]) (join (u ".") (sort_names [u "b"; u "c"; u "a"])) = true.
Proof.
  split; [|vm_compute; reflexivity]. apply namespace_subset.
  - discriminate.
  - discriminate.
  - reflexivity.
  - repeat constructor; discriminate.
  - repeat constructor.
Defined.
End Example_of_a_subset.
