(* ===== verification/EventProps.v ===== *)
(** * Events: what holds of them on every page *)

From Stdlib Require Import ZArith Lia.
From stdpp Require Import base tactics list numbers strings gmap.
From S2P Require Import Prelude JsValue ValidPage ValidRules ValidRulesProps Deferred DeferredFacts DeferredProps LibraryFacts Event EventFacts EventQuiet.
Local Open Scope Z_scope.
Local Open Scope deferred_scope.

Section Pages.
Context {D : Dom}.

(** C34. Whatever the handlers of a page do - bind, remove, trigger, throw, in the middle of an
    event too - the lists of handlers stay in order: each type of an element has one list,
    which is not empty, delegated handlers first and counted; an element without handlers
    has no data. The browser listens on an element to exactly the types that have handlers,
    but for focusin and focusout in a browser in which they do not bubble: for them it is
    the document that listens, to focus and blur, exactly while their count is above 0, and
    the count is never below the number of elements that have handlers of the type. It can
    be above that: removing a delegated handler of focus does not take it down
    ([focus_stays_captured]). *)
Theorem handlers_invariant body w : reached body w -> events_ok (more w) /\ all_tidy (more w).
Proof. apply reached_events. Qed.

(** ** What a trigger runs *)

Definition names_of (l : list jstr) : option (list jstr) := match join (u ".") l with [] => None | _ => Some l end.
(** The native method of the element is called unless the default is prevented. *)
Definition acts (elem : nat) (type : jstr) (prevented : bool) : list ev_happening :=
  if negb prevented && negb (js_eqb type (u "click") && is_anchor elem) && acceptData elem && no_colon type && negb (is_window elem)
  then match native_method elem type with Some _ => [Acted elem type] | None => [] end
  else [].

Lemma undefined_no_morph t : rfocusMorph (t ++ u "undefined") = false.
Proof.
  unfold rfocusMorph. apply orb_false_iff. split; apply js_eqb_ne; intros H; apply (f_equal last) in H; rewrite last_app in H; discriminate H.
Qed.
Lemma special_trigger_none apply type elem (w : world) : js_eqb type (u "focus") = false -> js_eqb type (u "blur") = false ->
  js_eqb type (u "click") && is_checkbox elem = false -> special_trigger apply type elem w = Some (w, Ok false).
Proof.
  intros Hf Hb Hc. unfold special_trigger. unfold bind at 1, get. destruct (native_method elem type); [|done]. rewrite Hf, Hb.
  destruct (js_eqb type (u "click")); [|done]. cbn in Hc. by rewrite Hc.
Qed.
Lemma default_action_run apply res e type elem (w : world) x :
  (forall f n args w, apply (Fn (User f)) (node n) args w = Some (w, Ok (res f (node n) args))) ->
  events (more w) !! e = Some x -> inline (more w) = [] -> exists w',
  default_action apply e type elem w = Some (w', Ok tt) /\
  ev_happened (more w') = ev_happened (more w) ++ acts elem type (defaultPrevented x) /\ events (more w') = events (more w).
Proof.
  intros Hres H Hin. unfold default_action. rewrite (bind_event _ _ _ _ H). unfold acts.
  destruct (_ && negb (is_window elem)); [|exists w; by rewrite app_nil_r].
  destruct (native_method elem type) as [f|]; [|exists w; by rewrite app_nil_r].
  unfold bind at 1, get. cbv zeta. unfold inline_of at 1 2. rewrite Hin. cbn [find fmap option_fmap option_map].
  unfold bind at 1, ret at 1. rewrite !bind_change. unfold bind at 1, catch, call_native. unfold bind at 1. rewrite Hres.
  unfold ret at 1. rewrite bind_change. eexists. split; [reflexivity|]. done.
Qed.

Lemma typed_not type path first t : type <> t -> t <> u "mouseover" /\ t <> u "mouseout" /\ t <> u "focusin" /\ t <> u "focusout" ->
  Forall (fun p => p.2 <> t) (typed type first path).
Proof.
  intros Ht (H1 & H2 & H3 & H4).
  assert (Hd : default type (delegateType type) <> t) by (unfold delegateType; repeat destruct (js_eqb type _);
    first [exact Ht|exact (not_eq_sym H1)|exact (not_eq_sym H2)|exact (not_eq_sym H3)|exact (not_eq_sym H4)]).
  assert (Hb : default type (bindType type) <> t) by (unfold bindType; repeat destruct (js_eqb type _);
    first [exact Ht|exact (not_eq_sym H1)|exact (not_eq_sym H2)|exact (not_eq_sym H3)|exact (not_eq_sym H4)]).
  unfold typed. destruct path as [|n path]; [constructor|]. constructor; [cbn; by destruct first|]. apply Forall_forall.
  by intros p (m & -> & _)%list_elem_of_fmap.
Qed.

(** C35. A trigger by its type, on a page whose functions only return a value, whose handlers
    are all functions of the page bound for types that have no type of the browser of
    their own (not mouseenter and mouseleave), and which has no inline handlers; not of
    focus, blur or beforeunload, nor of a click on a checkbox, and not on a text or a
    comment. It ends, and on the target, then on each of its ancestors and, where these end
    with the document, on the window - on the target alone for a load, or where that is a
    window - run the delegated handlers from the target up and then the node's own, each
    kind in the order of binding, if their namespaces are wanted; the first element with a
    handler that returns false is the last whose handlers run, and then the native method
    of the target is not called. *)
Theorem trigger_order body res fuel w elem chain t : (forall f context args, body f context args = Return (res f context args)) ->
  let type := (split_type (t, [])).1 in
  let names := names_of (split_type (t, [])).2 in
  all_simple (more w) -> inline (more w) = [] -> triggered (more w) = None ->
  lineage (parents (more w)) elem chain -> node_type elem <> 3 -> node_type elem <> 8 ->
  type <> u "focus" -> type <> u "blur" -> type <> u "beforeunload" -> (type = u "click" -> is_checkbox elem = false) ->
  let e := length (events (more w)) in
  let q := queues (more w) chain elem (typed type true (route type elem chain)) in
  exists w', execute body (S (S fuel)) (Do (Ext (Trigger [elem] (TType t) [])) Return) w = Some (w', Ok undef) /\
    ev_happened (more w') = ev_happened (more w) ++ heard res e [] names q ++ acts elem type (refuses res e [] names q).
Proof.
  intros Hbody type names Hsimple Hinl Htrig Hline H3 H8 Hfocus Hblur Hunload Hclick e q.
  assert (Ha : at_rest elem chain (more w)) by (split; [done|split; [by apply lineage_up|done]]).
  set (path := route type elem chain) in *.
  assert (Hpath : event_path (parents (more w)) false type elem = Some path) by (by apply route_path; [apply js_eqb_ne..|]).
  assert (Hbu : Forall (fun p => p.2 <> u "beforeunload") (typed type true path)) by (by apply typed_not).
  set (apply := fun f context args => eval body (S (S fuel)) (Call f context args)).
  assert (Hres : forall f n args w, apply (Fn (User f)) (node n) args w = Some (w, Ok (res f (node n) args))).
  { intros f n args w'. unfold apply. cbn. by rewrite Hbody. }
  assert (Hrun : exists w' v, event_trigger apply (TType t) [] (Some elem) false w = Some (w', Ok v) /\
            ev_happened (more w') = ev_happened (more w) ++ heard res e [] names q ++ acts elem type (refuses res e [] names q)).
  { unfold event_trigger. change (default document (Some elem)) with elem. cbn [trigger_type]. unfold bind at 1, ret at 1, bind at 1, get. cbn [fst].
    pose proof Ha as (Hs & Hc & Hin & Htr). rewrite Htr. change (default (u "undefined") None) with (u "undefined"). rewrite undefined_no_morph, (proj2 (Z.eqb_neq _ _) H3), (proj2 (Z.eqb_neq _ _) H8).
    cbn [orb]. subst names type. destruct (split_type (t, [])) as [type ns]. cbn [fst snd] in *. cbn [trigger_event].
    unfold make_event. unfold bind at 1, bind at 1, get. rewrite bind_change. unfold ret at 1.
    set (x0 := new_event type None false). set (w0 := with_more w _). fold e.
    assert (H0 : events (more w0) !! e = Some x0) by (cbn; rewrite lookup_app_r, Nat.sub_diag by done; done).
    rewrite (bind_event _ _ _ _ H0), bind_update. cbn [x0 new_event ev_target].
    pose proof (after_update e (set_trigger (Some elem) ns) w0 x0 H0) as A1. set (w1 := with_more w0 _).
    change (set_events _ (more w0)) with (more w1) in A1. set (x1 := set_trigger (Some elem) ns x0) in A1.
    assert (Hlt : (e < length (events (more w0)))%nat) by (by eapply lookup_lt_Some).
    pose proof (after_lookup _ _ _ _ _ A1 Hlt) as H1.
    assert (Hr1 : at_rest elem chain (more w1)) by (eapply at_rest_after; [exact A1|exact Ha]).
    unfold bind at 1. rewrite special_trigger_none; [|by apply js_eqb_ne..|].
    2: { apply andb_false_iff. destruct (js_eqb type (u "click")) eqn:Ec; [right; apply Hclick; by apply js_eqb_true|by left]. }
    unfold bind at 1, get. change (parents (more w1)) with (parents (more w)). rewrite Hpath. unfold lift, bind at 1, ret at 1.
    destruct (fire_path_run res apply Hres e elem [] type chain (names_of ns) path true w1 x1 H1) as (w2 & y & R2 & A2 & Hy & Hpy & Hdy);
      [by repeat split|done|done|done|].
    change (queues (more w1) chain elem (typed type true path)) with q in *. unfold bind at 1. rewrite R2, bind_update.
    pose proof (after_trans _ _ _ _ _ _ _ _ A1 A2) as A3. cbn [app] in A3. pose proof (after_lookup _ _ _ _ _ A3 Hlt) as H2.
    pose proof (after_update e (set_ev_type type) w2 y H2) as A4. set (w3 := with_more w2 _).
    change (set_events _ (more w2)) with (more w3) in A4. pose proof (after_trans _ _ _ _ _ _ _ _ A3 A4) as A5. rewrite app_nil_r in A5.
    pose proof (after_lookup _ _ _ _ _ A5 Hlt) as H5.
    destruct (default_action_run apply res e type elem w3 _ Hres H5) as (w4 & R4 & Hh4 & He4).
    { pose proof A5 as (_ & _ & _ & _ & Hi & _). by rewrite Hi. }
    cbn [set_ev_type defaultPrevented] in Hh4. rewrite Hdy in Hh4. cbn [x1 x0 set_trigger new_event defaultPrevented orb] in Hh4.
    unfold bind at 1. rewrite R4. rewrite (bind_event _ _ _ _ (eq_trans (f_equal (.!! e) He4) H5)).
    eexists _, _. split; [reflexivity|]. rewrite Hh4. pose proof A5 as (_ & Hh5 & _). rewrite Hh5, <- app_assoc. done. }
  destruct Hrun as (w' & v & R & Hh). exists w'. split; [|done].
  unfold execute. cbn [run exec]. unfold bind at 1. change (lib_exec _ _ _ _) with (event_exec (S (S fuel)) apply (Trigger [elem] (TType t) [])).
  cbn [event_exec each]. unfold then_undef, bind. fold apply. by rewrite R.
Qed.

(** ** Removing *)

Definition handlers_at (n : nat) (key : jstr) (a : event_state) : list handle_obj :=
  match assoc key (lists_of n a) with Some l => hs l | None => [] end.
Lemma handlers_at_elem n L m k a : handlers_at m k (at_elem n L a) = if decide (m = n) then match assoc k L with Some l => hs l | None => [] end else handlers_at m k a.
Proof.
  unfold handlers_at, at_elem. case_decide as E; [subst; by rewrite lists_insert|]. by rewrite lists_insert_ne.
Qed.
Lemma handlers_at_tidy n m k a : handlers_at m k (tidy n a) = handlers_at m k a.
Proof.
  unfold handlers_at, tidy, lists_of. destruct (handlers_of a !! n) as [[|]|] eqn:E; [|done..]. cbn.
  destruct (decide (n = m)) as [<-|Hn]; [by rewrite lookup_delete_eq, E|by rewrite lookup_delete_ne].
Qed.
Lemma remove_type_at n f selector mapped type ns a m k : events_ok a ->
  let key := mapped_type selector type in
  let names := match ns with Some (_ :: _) => Some (namespaces_of ns) | _ => None end in
  handlers_at m k (remove_type n f selector mapped type ns a) =
  if decide (m = n /\ k = key) then chosen_by (fun h => negb (removable mapped (Some type) f names selector h)) (handlers_at m k a)
  else handlers_at m k a.
Proof.
  intros Ha key names. unfold remove_type. fold key names. destruct (assoc key (lists_of n a)) as [l|] eqn:E.
  2: { case_decide as Hd; [|done]. destruct Hd as [-> ->]. unfold handlers_at. by rewrite E. }
  set (r := removable mapped (Some type) f names selector). pose proof (remove_all_spec r l) as Hr. cbv zeta.
  destruct (_ && _) eqn:Em.
  - apply andb_true_iff in Em as [_ Hnil%bool_decide_eq_true]. rewrite unlisten_lists, unlisten_handlers.
    assert (Hu : handlers_at m k (unlisten n type key a) = handlers_at m k a) by (unfold handlers_at, lists_of; by rewrite unlisten_handlers).
    replace (set_handlers_of _ _) with (at_elem n (assoc_delete key (lists_of n a)) (unlisten n type key a)) by (unfold at_elem; by rewrite unlisten_handlers).
    rewrite handlers_at_elem, Hu. destruct (decide (m = n)) as [->|Hn]; [|rewrite decide_False by (by intros [? _]); done].
    destruct (decide (k = key)) as [->|Hk].
    + rewrite decide_True by done. rewrite assoc_delete_same. unfold handlers_at. by rewrite E, <- Hr.
    + rewrite decide_False by (by intros [_ ?]). by rewrite assoc_delete_other.
  - change (set_handlers_of _ a) with (at_elem n (assoc_set key (remove_matching r (length (hs l)) l) (lists_of n a)) a).
    rewrite handlers_at_elem. destruct (decide (m = n)) as [->|Hn]; [|rewrite decide_False by (by intros [? _]); done].
    rewrite assoc_assoc_set. destruct (decide (k = key)) as [->|Hk].
    + rewrite decide_True by done. unfold handlers_at. by rewrite E.
    + rewrite decide_False by (by intros [_ ?]). done.
Qed.

(** What a call of [remove] asks of a handler: the type it was bound for, and, where they are
    given, its function, its namespaces and its selector (two stars: any). *)
Definition fits (type : jstr) (g : option (option Z)) (names : option (list jstr)) (selector : option jstr) (h : handle_obj) : Prop :=
  origType h = Some type /\
  match g with Some g => g = Some (guid h) | None => True end /\
  match names with Some l => namespace_test l (h_namespace h) = true | None => True end /\
  (truthy_text selector = true -> h_selector h = selector \/ (selector = Some (u "**") /\ truthy_text (h_selector h) = true)).
#[export] Instance fits_dec type g names selector h : Decision (fits type g names selector h).
Proof. unfold fits. destruct g, names; apply _. Defined.
Lemma removable_fits type g names selector h : removable false (Some type) g names selector h = true <-> fits type g names selector h.
Proof.
  unfold removable, fits. rewrite orb_false_l, !andb_true_iff, bool_decide_eq_true.
  assert (Hg : match g with None => true | Some g => bool_decide (g = Some (guid h)) end = true <-> match g with Some g => g = Some (guid h) | None => True end)
    by (destruct g; [apply bool_decide_eq_true|done]).
  assert (Hn : match names with None => true | Some l => namespace_test l (h_namespace h) end = true <->
               match names with Some l => namespace_test l (h_namespace h) = true | None => True end) by (by destruct names).
  rewrite Hg, Hn, !orb_true_iff, andb_true_iff, !bool_decide_eq_true, negb_true_iff. destruct (truthy_text selector); split.
  - intros [[[H1 H2] H3] [[|H4]|H4]]; [done|by repeat split; try left|by repeat split; try right].
  - intros (H1 & H2 & H3 & H4). split; [done|]. destruct (H4 eq_refl) as [H|H]; [left; by right|by right].
  - intros [[[H1 H2] H3] _]. by repeat split.
  - intros (H1 & H2 & H3 & _). split; [done|]. left. by left.
Qed.

(** Removing a type from an element takes away exactly the handlers that fit, keeps the
    order of the others and leaves all other lists alone. *)
Theorem off_removes fuel n types t type ns g selector a : events_ok a -> acceptData n = true ->
  type_words types = [t] -> rtypenamespace t = Some (type, ns) -> type <> [] ->
  let key := mapped_type selector type in
  let names := match ns with Some (_ :: _) => Some (namespaces_of ns) | _ => None end in
  exists b, event_remove (S fuel) n types g selector false a = Some b /\
    handlers_at n key b = filter (fun h => ~ fits type g names selector h) (handlers_at n key a) /\
    forall m k, (m, k) <> (n, key) -> handlers_at m k b = handlers_at m k a.
Proof.
  intros Ha Hd Hw Ht Htype key names. cbn [event_remove]. rewrite Hd, Hw. cbn [andb fold_right].
  destruct (handlers_of a !! n) as [L|] eqn:EL.
  - rewrite Ht. destruct type as [|c type]; [done|]. cbn [mbind option_bind fmap option_fmap option_map]. eexists. split; [reflexivity|]. split.
    + rewrite handlers_at_tidy, remove_type_at by done. rewrite decide_True by done. unfold chosen_by. apply list_filter_iff.
      intros h. rewrite <- removable_fits. rewrite negb_true_iff. symmetry. apply not_true_iff_false.
    + intros m k Hmk. rewrite handlers_at_tidy, remove_type_at by done. rewrite decide_False; [done|]. intros [-> ->]. by apply Hmk.
  - exists a. split; [done|]. split; [|done]. unfold handlers_at, lists_of. by rewrite EL.
Qed.

(** Handlers bound without a type: removing them by their namespaces never ends, for the
    types of the element that [remove] goes through include the empty one again. *)
Lemma remove_unnamed fuel n t ns f selector l : forall mapped a, acceptData n = true -> type_words t = [t] -> rtypenamespace t = Some ([], ns) ->
  handlers_of a !! n = Some [([], l)] -> event_remove fuel n t f selector mapped a = None.
Proof.
  induction fuel as [|fuel IH]; intros mapped a Hd Hw Ht Ha; cbn [event_remove]; [done|].
  rewrite Hd, Ha, Hw. cbn [andb fold_right mbind option_bind]. rewrite Ht. unfold lists_of. rewrite Ha. cbn -[event_remove]. by rewrite IH.
Qed.
Theorem off_without_type_never_ends body fuel n f : acceptData n = true ->
  execute body fuel (Do (Ext (On [n] (Types (u ".x")) (EFun f) EUndef EUndef false)) (fun _ =>
    Do (Ext (Off [n] (Types (u ".x")) EUndef EUndef)) Return)) world0 = None.
Proof.
  intros Hd. unfold execute. cbn [run exec]. set (apply := fun f context args => eval body fuel (Call f context args)).
  unfold bind at 1. change (lib_exec fuel apply ?fire ?e) with (event_exec fuel apply e). cbn [event_exec on off].
  unfold on_types. cbn [on_args nullish andb evarg_truthy negb]. unfold then_undef at 1. unfold bind at 1. unfold bind at 1, ret at 1, change, modify.
  cbn [fold_left]. set (a := event_add _ _ _ _ _ _ _). assert (Ha : exists l, handlers_of a !! n = Some [([], l)]).
  { unfold a, event_add. rewrite Hd. change (type_words (u ".x")) with [u ".x"]. cbv zeta. cbn [fold_right].
    rewrite add_type_eq. cbv zeta. change (type_key (selector_of EUndef) (u ".x")) with (@nil Z). set (b := fst (with_guid _ _)).
    assert (Hb : lists_of n b = []) by (unfold lists_of, b; cbn; by rewrite lookup_empty).
    rewrite Hb. cbn [assoc_set]. eexists. unfold at_elem. cbn [handlers_of set_handlers_of]. apply lookup_insert_eq. }
  destruct Ha as [l Ha]. unfold ret at 1. unfold bind at 1, then_undef, bind at 1, off_types. unfold bind at 1, get. cbn [more evarg_truthy].
  unfold remove_all. cbn [each]. unfold bind at 1, bind at 1, get. cbn [more].
  rewrite (remove_unnamed fuel n (u ".x") (Some (u "x")) _ _ l) by done. done.
Qed.
End Pages.

(** ** A page *)

Section Page.
Local Existing Instance small_dom.

Definition quiet_page (f : nat) (context : value) (args : list value) : prog :=
  if (f =? 7)%nat then Return (Prim (PBool false)) else Return undef.
Definition page_setup : prog := and_then build
  (bind_to 2 (u "click.b.a") EUndef 1 false (bind_to 2 (u "click.a") (EStr (u "4")) 2 false
  (bind_to 3 (u "click") (EStr (u "4")) 7 false (bind_to 4 (u "click.a") EUndef 3 false (Return undef))))).
Lemma handlers_invariant_witness :
  match execute quiet_page 60 page_setup world0 with
  | Some (w, _) => events_ok (more w) /\ all_tidy (more w)
  | None => False
  end.
Proof.
  pose proof (reached_by quiet_page 60 page_setup) as H.
  destruct (execute quiet_page 60 page_setup world0) as [[w r]|] eqn:E; [|vm_compute in E; discriminate E].
  apply (handlers_invariant quiet_page w H).
Defined.
Definition quiet_results (f : nat) (context : value) (args : list value) : value :=
  if (f =? 7)%nat then Prim (PBool false) else undef.
Lemma page_simple w r : execute quiet_page 60 page_setup world0 = Some (w, r) -> all_simple (more w).
Proof.
  intros E n L H%elem_of_map_to_list. vm_compute in E. injection E as <- _. vm_compute in H.
  repeat (apply elem_of_cons in H as [H|H]; [injection H as -> ->|]); try by apply elem_of_nil in H.
  all: repeat constructor; cbn; try by eexists.
Qed.
Lemma trigger_order_witness :
  match execute quiet_page 60 page_setup world0 with
  | Some (w, _) =>
      exists w', execute quiet_page 60 (Do (Ext (Trigger [4%nat] (TType (u "click.a")) [])) Return) w = Some (w', Ok undef) /\
        ran w' = [(4, Some 3); (4, Some 2); (2, Some 1); (4, None)]%nat
  | None => False
  end.
Proof.
  destruct (execute quiet_page 60 page_setup world0) as [[w r]|] eqn:E; [|vm_compute in E; discriminate E].
  pose proof (page_simple w r E) as Hs. vm_compute in E. injection E as <- _.
  match goal with |- exists w', execute _ _ _ ?w0 = _ /\ _ => set (w := w0) in * end.
  destruct (trigger_order quiet_page quiet_results 58 w 4 [4; 3; 2; 1; 0]%nat (u "click.a")) as (w' & E & H).
  - intros f context args. unfold quiet_page, quiet_results. by destruct (f =? 7)%nat.
  - exact Hs.
  - reflexivity.
  - reflexivity.
  - do 4 (eapply LineageUp; [vm_compute; reflexivity|]). apply LineageTop. vm_compute. reflexivity.
  - discriminate.
  - discriminate.
  - discriminate.
  - discriminate.
  - discriminate.
  - reflexivity.
  - exists w'. split; [exact E|]. unfold ran. rewrite H. vm_compute. reflexivity.
Defined.

Lemma off_removes_witness :
  match execute quiet_page 60 page_setup world0 with
  | Some (w, _) =>
      exists b, event_remove 5 2 (u "click.b") None None false (more w) = Some b /\
        handlers_at 2 (u "click") b = filter (fun h => ~ fits (u "click") None (Some [u "b"]) None h) (handlers_at 2 (u "click") (more w)) /\
        (forall m k, (m, k) <> (2%nat, u "click") -> handlers_at m k b = handlers_at m k (more w)) /\
        (length (handlers_at 2 (u "click") (more w)), length (handlers_at 2 (u "click") b)) = (2, 1)%nat
  | None => False
  end.
Proof.
  pose proof (reached_by quiet_page 60 page_setup) as H.
  destruct (execute quiet_page 60 page_setup world0) as [[w r]|] eqn:E; [|vm_compute in E; discriminate E].
  destruct (reached_events quiet_page w H) as [Hok _].
  destruct (off_removes 4 2 (u "click.b") (u "click.b") (u "click") (Some (u "b")) None None (more w) Hok) as (b & E1 & E2 & E3);
    [reflexivity|reflexivity|reflexivity|discriminate|].
  assert (E4 := E2); change (mapped_type None (u "click")) with (u "click") in E4. exists b. split; [exact E1|]. split; [exact E2|]. split; [exact E3|]. rewrite E4. vm_compute in E. injection E as <- _. vm_compute. reflexivity.
Defined.
Lemma off_without_type_never_ends_witness :
  execute quiet_page 100 (Do (Ext (On [2%nat] (Types (u ".x")) (EFun (User 1)) EUndef EUndef false)) (fun _ =>
    Do (Ext (Off [2%nat] (Types (u ".x")) EUndef EUndef)) Return)) world0 = None.
Proof. apply (off_without_type_never_ends quiet_page 100 2 (User 1)). reflexivity. Defined.

(** Two handlers bound with [one]; the first one triggers the event again: the second runs twice. *)
Definition triggers_again (f : nat) (context : value) (args : list value) : prog :=
  if (f =? 1)%nat then Do (Ext (Trigger [4%nat] (TType (u "tick")) [])) Return else Return undef.
Example one_runs_twice :
  option_map fst (show (execute triggers_again 60
    (bind_to 4 (u "tick") EUndef 1 true (bind_to 4 (u "tick") EUndef 2 true
    (Do (Ext (Trigger [4%nat] (TType (u "tick")) [])) Return))) world0))
  = Some [(4, Some 101); (4, Some 102); (4, Some 102)]%nat.
Proof. vm_compute. reflexivity. Qed.
(** [one] with a function that is bound with [on] too: its first call removes both. *)
Example one_removes_on :
  option_map fst (show (execute quiet_page 60
    (bind_to 4 (u "tick") EUndef 1 false (bind_to 4 (u "tick") EUndef 1 true
    (Do (Ext (Trigger [4%nat] (TType (u "tick")) [])) (fun _ => Do (Ext (Trigger [4%nat] (TType (u "tick")) [])) Return)))) world0))
  = Some [(4, Some 1); (4, Some 101)]%nat.
Proof. vm_compute. reflexivity. Qed.
(** A delegated handler of focus is kept under focusin, whose count of listeners is not
    taken down when it is removed: the document goes on listening. *)
Example focus_stays_captured :
  match execute quiet_page 60
    (bind_to 2 (u "focus") (EStr (u "4")) 1 false (Do (Ext (Off [2%nat] (Types (u "focus")) (EStr (u "4")) EUndef)) Return)) world0 with
  | Some (w, _) => handlers_of (more w) = ∅ /\ attaches (more w) = (1, 0) /\ captures (more w) = (true, false)
  | None => False
  end.
Proof. vm_compute. repeat split. Qed.
End Page.
