(* ===== verification/RegExec.v ===== *)
(** * Regular expressions with captures, as [exec] and [replace] run them

    A backtracking matcher with continuations, as the language defines it: the first
    alternative that lets the rest match wins, repetitions are greedy or lazy, an iteration
    that reads nothing fails, and the captures inside a repetition start each iteration
    undefined. [Regex] has the languages of expressions without captures. *)

From Stdlib Require Import ZArith Lia.
From stdpp Require Import base tactics list numbers strings gmap.
From S2P Require Import Prelude Regex.
Local Open Scope Z_scope.

Inductive re :=
  | Nothing
  | Unit (neg : bool) (ranges : list (Z * Z))
  | Then (r1 r2 : re)
  | Or (r1 r2 : re)
  | Repeat (greedy : bool) (inside : list nat) (r : re)     (* [r*] and [r*?]; the captures inside [r] *)
  | Capture (n : nat) (r : re)
  | Same (n : nat)                                          (* [\n] *)
  | AtStart
  | AtEnd
  | Ahead (r : re).

Definition captures := gmap nat jstr.

Section Match.
(** The flag i, and the length of the text that is searched. *)
Context (i : bool) (total : nat).

Definition orelse {A} (a b : option A) : option A := match a with Some x => Some x | None => b end.

(** The iterations of a repetition, [n] at most. *)
Fixpoint loop (body : jstr -> captures -> (jstr -> captures -> option (jstr * captures)) -> option (jstr * captures))
    (greedy : bool) (inside : list nat) (k : jstr -> captures -> option (jstr * captures)) (n : nat)
    (s : jstr) (c : captures) {struct n} : option (jstr * captures) :=
  match n with
  | O => k s c
  | S n =>
      let more := body s (foldr delete c inside)
        (fun s' c' => if (length s' <? length s)%nat then loop body greedy inside k n s' c' else None) in
      if greedy then orelse more (k s c) else orelse (k s c) more
  end.

(** The rest of the text and the captures of the first match that [k] accepts. *)
Fixpoint run (r : re) (s : jstr) (c : captures) (k : jstr -> captures -> option (jstr * captures)) {struct r} :
    option (jstr * captures) :=
  match r with
  | Nothing => k s c
  | Unit neg ranges =>
      match s with
      | x :: s' => if xorb neg (in_class i ranges x) then k s' c else None
      | [] => None
      end
  | Then r1 r2 => run r1 s c (fun s c => run r2 s c k)
  | Or r1 r2 => orelse (run r1 s c k) (run r2 s c k)
  | Repeat greedy inside r1 => loop (run r1) greedy inside k (S (length s)) s c
  | Capture n r1 => run r1 s c (fun s' c' => k s' (<[n := take (length s - length s') s]> c'))
  | Same n =>
      match c !! n with
      | None => k s c
      | Some t => if prefix_b t s then k (drop (length t) s) c else None
      end
  | AtStart => if (length s =? total)%nat then k s c else None
  | AtEnd => match s with [] => k s c | _ => None end
  | Ahead r1 => match run r1 s c (fun s' c' => Some (s', c')) with Some (_, c') => k s c' | None => None end
  end.
End Match.

(** A match: what is before it, the matched text, the captures, and what is after it. *)
Record found := Found { before : jstr; matched : jstr; caps : captures; after : jstr }.

Definition match_here (i : bool) (total : nat) (r : re) (s : jstr) : option (jstr * jstr * captures) :=
  match run i total r s ∅ (fun s' c' => Some (s', c')) with
  | Some (s', c') => Some (take (length s - length s') s, s', c')
  | None => None
  end.
(** The first position of [s] with a match. *)
Fixpoint search (i : bool) (total : nat) (r : re) (s : jstr) : option found :=
  match match_here i total r s with
  | Some (m, s', c) => Some (Found [] m c s')
  | None =>
      match s with
      | [] => None
      | x :: s' =>
          match search i total r s' with
          | Some f => Some (Found (x :: before f) (matched f) (caps f) (after f))
          | None => None
          end
      end
  end.

(** [new RegExp(r, i).exec(s)] and [test] *)
Definition exec (i : bool) (r : re) (s : jstr) : option found := search i (length s) r s.
Definition test (i : bool) (r : re) (s : jstr) : bool := match exec i r s with Some _ => true | None => false end.

(** [s.replace(r, f)] with the flag g; [fuel]: the length of the text and one. *)
Fixpoint replace_loop (fuel total : nat) (r : re) (f : found -> jstr) (s : jstr) : jstr :=
  match fuel with
  | O => s
  | S fuel =>
      match search false total r s with
      | None => s
      | Some m =>
          before m ++ f m ++
          match matched m, after m with
          | [], [] => []
          | [], x :: t => x :: replace_loop fuel total r f t
          | _, t => replace_loop fuel total r f t
          end
      end
  end.
Definition replace (r : re) (f : found -> jstr) (s : jstr) : jstr := replace_loop (S (length s)) (length s) r f s.

(** [m[n]], the empty string where it is undefined. *)
Definition group (n : nat) (m : found) : jstr := default [] (caps m !! n).

(** ** Derived forms *)

Definition chr (c : Z) : re := Unit false [(c, c)].
Definition of_class (ranges : list (Z * Z)) : re := Unit false ranges.
Definition none_of (ranges : list (Z * Z)) : re := Unit true ranges.
Fixpoint text (s : jstr) : re := match s with [] => Nothing | [c] => chr c | c :: s => Then (chr c) (text s) end.
Fixpoint all (l : list re) : re := match l with [] => Nothing | [r] => r | r :: l => Then r (all l) end.
Fixpoint one_of (l : list re) : re := match l with [] => Unit false [] | [r] => r | r :: l => Or r (one_of l) end.
Definition star (r : re) : re := Repeat true [] r.
Definition many (r : re) : re := Then r (star r).
Definition maybe (r : re) : re := Or r Nothing.
(** [r{1,n}], greedy, for an expression without captures. *)
Fixpoint upto (n : nat) (r : re) : re :=
  match n with O => Nothing | S O => r | S n => Then r (maybe (upto n r)) end.
(** [.], [\d], [\w] *)
Definition dot : re := none_of [(10, 10); (13, 13); (8232, 8233)].
Definition digits : list (Z * Z) := [(48, 57)].
Definition word_units : list (Z * Z) := [(48, 57); (65, 90); (95, 95); (97, 122)].

(** Captures, backtracking, a back reference, the lazy loop and the search. *)
Example exec_ex :
  (exec false (all [Capture 1 (of_class [(34, 34); (39, 39)]); Capture 2 (Repeat false [] dot); Same 1]) (u "a'b'c'")
   = Some (Found (u "a") (u "'b'") {[1%nat := u "'"; 2%nat := u "b"]} (u "c'"))) /\
  (group 1 <$> exec true (all [AtStart; Capture 1 (one_of [text (u "nth"); text (u "nth-last")]); text (u "-child")])
    (u "NTH-last-child")) = Some (u "NTH-last") /\
  replace (many (chr 32)) (fun _ => u "_") (u "a  b c") = u "a_b_c" /\
  replace (Then AtStart (star (chr 32))) (fun _ => u "_") (u "a b") = u "_a b".
Proof. vm_compute. repeat split. Qed.

(** ** A match reads a prefix of what is left *)

Definition suffix_of (s' s : jstr) : Prop := exists p, s = p ++ s'.
#[export] Instance suffix_of_preorder : PreOrder suffix_of.
Proof.
  split; [by exists []|]. intros a b c (p & ->) (q & ->). exists (q ++ p). by rewrite app_assoc.
Qed.
Lemma suffix_of_drop n s : suffix_of (drop n s) s.
Proof. exists (take n s). by rewrite take_drop. Qed.
Lemma suffix_of_tail x s : suffix_of s (x :: s).
Proof. by exists [x]. Qed.
Lemma suffix_of_take s' s : suffix_of s' s -> take (length s - length s') s ++ s' = s.
Proof.
  intros (p & ->). rewrite length_app. replace (length p + length s' - length s')%nat with (length p) by lia.
  by rewrite take_app_length.
Qed.

Lemma run_suffix i total r : forall s c k x, run i total r s c k = Some x ->
  exists s' c', suffix_of s' s /\ k s' c' = Some x.
Proof.
  induction r as [|neg rs|r1 IH1 r2 IH2|r1 IH1 r2 IH2|g ins r IH|n r IH|n| | |r IH]; intros s c k x; cbn [run].
  - intros H. by exists s, c.
  - destruct s as [|y s]; [done|]. destruct (xorb _ _); [|done]. intros H. exists s, c. split; [apply suffix_of_tail|done].
  - intros (s1 & c1 & H1 & (s2 & c2 & H2 & H)%IH2)%IH1. exists s2, c2. split; [by transitivity s1|done].
  - unfold orelse. destruct (run i total r1 s c k) eqn:E; [intros [= <-]; by apply (IH1 _ _ _ _ E)|apply IH2].
  - generalize (S (length s)). intros n. revert s c. induction n as [|n IHn]; intros s c; [by intros H; exists s, c|].
    cbn [loop]. set (more := run _ _ _ _ _ _).
    assert (Hmore : more = Some x -> exists s' c', suffix_of s' s /\ k s' c' = Some x).
    { intros (s1 & c1 & H1 & H)%IH. destruct (_ <? _)%nat; [|done].
      apply IHn in H as (s2 & c2 & H2 & H). exists s2, c2. split; [by transitivity s1|done]. }
    unfold orelse. destruct g.
    + destruct more; [intros [= <-]; by apply Hmore|]. intros H. by exists s, c.
    + destruct (k s c) eqn:E; [intros [= <-]; by exists s, c|apply Hmore].
  - intros (s1 & c1 & H1 & H)%IH. by exists s1, (<[n := take (length s - length s1) s]> c1).
  - destruct (c !! n); [|by intros H; exists s, c]. destruct (prefix_b _ _); [|done].
    intros H. eexists _, c. split; [apply suffix_of_drop|done].
  - destruct (_ =? _)%nat; [|done]. intros H. by exists s, c.
  - destruct s; [|done]. intros H. by exists [], c.
  - destruct (run i total r s c _) as [[s' c']|]; [|done]. intros H. by exists s, c'.
Qed.

Lemma match_here_app i total r s m s' c : match_here i total r s = Some (m, s', c) -> s = m ++ s'.
Proof.
  unfold match_here. destruct (run _ _ _ _ _ _) as [[t d]|] eqn:E; [|done].
  intros [= <- <- <-]. apply run_suffix in E as (s1 & c1 & H & [= -> ->]). by rewrite suffix_of_take.
Qed.
Lemma search_app i total r s f : search i total r s = Some f -> s = before f ++ matched f ++ after f.
Proof.
  revert f. induction s as [|x s IH]; intros f; cbn [search];
    (destruct (match_here _ _ _ _) as [[[m t] c]|] eqn:E; [intros [= <-]; by apply match_here_app in E|]); [done|].
  destruct (search i total r s) as [g|]; [|done]. intros [= <-]. cbn. f_equal. by apply IH.
Qed.

(** An expression that starts with [^] only matches at the start. *)
Lemma search_start i r s f : exec i (Then AtStart r) s = Some f -> before f = [].
Proof.
  unfold exec. destruct s as [|x s]; cbn [search]; (destruct (match_here _ _ _ _) as [[[m t] c]|] eqn:E; [by intros [= <-]|]); [done|].
  enough (forall t, (length t < length (x :: s))%nat -> search i (length (x :: s)) (Then AtStart r) t = None) as ->;
    [done|cbn; lia|].
  intros t. induction t as [|y t IH]; intros Hl; cbn [search]; unfold match_here; cbn [run];
    (rewrite (proj2 (Nat.eqb_neq _ _)) by (cbn in *; lia)); [done|]. rewrite IH; [done|cbn in *; lia].
Qed.
Lemma exec_start i r s f : exec i (Then AtStart r) s = Some f -> s = matched f ++ after f.
Proof. intros H. pose proof (search_app _ _ _ _ _ H) as Hs. by rewrite (search_start _ _ _ _ H) in Hs. Qed.

(** ** The steps of a match *)

Lemma run_then i total r1 r2 s c k : run i total (Then r1 r2) s c k = run i total r1 s c (fun s c => run i total r2 s c k).
Proof. reflexivity. Qed.
Lemma run_start i total s c k : run i total AtStart s c k = if (length s =? total)%nat then k s c else None.
Proof. reflexivity. Qed.
Lemma run_capture i total n r s c k : run i total (Capture n r) s c k = run i total r s c (fun s' c' => k s' (<[n := take (length s - length s') s]> c')).
Proof. reflexivity. Qed.
Lemma run_unit i total neg ranges x s c k : run i total (Unit neg ranges) (x :: s) c k = if xorb neg (in_class i ranges x) then k s c else None.
Proof. reflexivity. Qed.
