(* ===== verification/SizzleTokens.v ===== *)
(** * [html/resource/js/jquery.js]: the selectors of Sizzle as tokens

    The regular expressions of the selector engine, written with [RegExec], the
    pre-filters and [tokenize]. The tokens hold the text they were read from, and the
    arguments for the filter of their type. *)

From Stdlib Require Import ZArith Lia QArith_base.
From stdpp Require Import base tactics list numbers strings gmap.
From S2P Require Import Prelude JsValue Md5 Regex RegExec.
Local Open Scope Z_scope.

(** ** The expressions *)

Definition space : list (Z * Z) := [(32, 32); (9, 9); (13, 13); (10, 10); (12, 12)].
Definition whitespace : re := of_class space.
Definition non_ascii : re := none_of [(0, 160)].
Definition escaped_unit : re := Then (chr 92) dot.
(** The expression of the source with a [w] of its class replaced: [extra] stands after it. *)
Definition characterEncoding_with (extra : list (Z * Z)) : re :=
  many (one_of [escaped_unit; of_class (word_units ++ extra ++ [(45, 45)]); non_ascii]).
Definition characterEncoding : re := characterEncoding_with [].
Definition identifier : re := characterEncoding_with [(35, 35)].
Definition operators (n : nat) : re :=
  Capture n (Then (maybe (of_class [(42, 42); (94, 94); (36, 36); (124, 124); (33, 33); (126, 126)])) (chr 61)).
Definition a_quote : re := of_class [(39, 39); (34, 34)].
Definition in_quotes : re := Repeat false [] (Or escaped_unit (none_of [(92, 92)])).
(** With its captures numbered from [n], and a reference to capture [quote]. *)
Definition attributes_at (n quote : nat) : re :=
  all [chr 91; star whitespace; Capture n characterEncoding; star whitespace;
       Or (all [operators (n + 1); star whitespace;
                one_of [all [Capture (n + 2) a_quote; Capture (n + 3) in_quotes; Same quote];
                        Capture (n + 4) identifier; Nothing]])
          Nothing;
       star whitespace; chr 93].
Definition attributes : re := attributes_at 1 3.
Definition pseudos : re :=
  all [chr 58; Capture 1 characterEncoding;
       Or (all [chr 40;
                Capture 2 (one_of [all [Capture 3 a_quote; Capture 4 in_quotes; Same 3];
                                   Capture 5 (Repeat true [6; 7; 8; 9; 10]%nat
                                     (one_of [escaped_unit; none_of [(92, 92); (40, 41); (91, 91); (93, 93)]; attributes_at 6 8]));
                                   star dot]);
                chr 41])
          Nothing].

Definition rtrim : re :=
  Or (Then AtStart (many whitespace))
     (all [Capture 1 (Then (Or AtStart (none_of [(92, 92)])) (star escaped_unit)); many whitespace; AtEnd]).
Definition rcomma : re := Then AtStart (all [star whitespace; chr 44; star whitespace]).
Definition rcombinators : re :=
  Then AtStart (all [star whitespace; Capture 1 (of_class (space ++ [(62, 62); (43, 43); (126, 126)])); star whitespace]).
Definition rpseudo : re := pseudos.
Definition ridentifier : re := Then AtStart (Then identifier AtEnd).

Definition signs : list (Z * Z) := [(43, 43); (45, 45)].
Definition matchID : re := Then AtStart (Then (chr 35) (Capture 1 characterEncoding)).
Definition matchCLASS : re := Then AtStart (Then (chr 46) (Capture 1 characterEncoding)).
Definition matchTAG : re := Then AtStart (Capture 1 (characterEncoding_with [(42, 42)])).
Definition matchATTR : re := Then AtStart attributes.
Definition matchPSEUDO : re := Then AtStart pseudos.
Definition matchCHILD : re :=
  Then AtStart (all [chr 58;
    Capture 1 (one_of (map (fun s => text (u s)) ["only"; "first"; "last"; "nth"; "nth-last"]%string)); chr 45;
    Capture 2 (one_of [text (u "child"); text (u "of-type")]);
    Or (all [chr 40; star whitespace;
             Capture 3 (one_of [text (u "even"); text (u "odd");
               all [Capture 4 (Or (all [Capture 5 (Or (of_class signs) Nothing); Capture 6 (star (of_class digits)); chr 110]) Nothing);
                    star whitespace;
                    Or (all [Capture 7 (Or (of_class signs) Nothing); star whitespace; Capture 8 (many (of_class digits))])
                       Nothing]]);
             star whitespace; chr 41])
       Nothing]).
Definition needsContext : re :=
  Or (all [AtStart; star whitespace; of_class [(62, 62); (43, 43); (126, 126)]])
     (all [chr 58; Capture 1 (one_of (map (fun s => text (u s)) ["even"; "odd"; "eq"; "gt"; "lt"; "nth"; "first"; "last"]%string));
           Or (all [chr 40; star whitespace;
                    Capture 2 (Then (maybe (Then (chr 45) (of_class digits))) (star (of_class digits)));
                    star whitespace; chr 41])
              Nothing;
           Ahead (Or (none_of [(45, 45)]) AtEnd)]).
Definition rsibling : re := Then (star whitespace) (of_class [(43, 43); (126, 126)]).
Definition rescape : re := of_class [(39, 39); (92, 92)].
Definition rattributeQuotes : re :=
  all [chr 61; star whitespace; Capture 1 (star (none_of [(39, 39); (34, 34); (93, 93)])); star whitespace; chr 93].
Definition runescape : re :=
  Then (chr 92) (Capture 1 (Or (Then (upto 6 (of_class [(48, 57); (97, 102); (65, 70)])) (maybe whitespace)) dot)).

(** [funescape]: [escaped] is the first capture. *)
Definition funescape (escaped : jstr) : jstr :=
  match str_to_num (u "0x" ++ escaped) with
  | Fin q =>
      let high := QArith_base.Qnum q / Zpos (QArith_base.Qden q) - 65536 in
      if high <? 0 then from_char_code (high + 65536)
      else from_char_code (js_or (js_shr high 10) 55296) ++ from_char_code (js_or (js_and high 1023) 56320)
  | _ => escaped
  end.
Definition unescape (s : jstr) : jstr := replace runescape (fun m => funescape (group 1 m)) s.
(** [s.replace(rtrim, "$1")] *)
Definition trimmed (s : jstr) : jstr := replace rtrim (group 1) s.

Example unescape_ex :
  map unescape [u "a\:b"; u "\41 b"; u "\1F600"; u "a\\"] = [u "a:b"; u "Ab"; [55357; 56832]; u "a\"] /\
  map trimmed [u "  a b  "; u "a\ "; u "a\\ "; u "   "] = [u "a b"; u "a\ "; u "a\\"; u ""].
Proof. vm_compute. split; reflexivity. Qed.

(** ** Tokens *)

(** [Expr.relative], by the key: [" "], [">"], ["~"], ["+"]. *)
Inductive relative := Descendant | Child | Sibling | Adjacent.
Inductive dirn := parentNode_ | previousSibling_.
Definition dir_of (r : relative) : dirn := match r with Descendant | Child => parentNode_ | _ => previousSibling_ end.
Definition first_of (r : relative) : bool := match r with Child | Adjacent => true | _ => false end.
#[export] Instance relative_eq_dec : EqDecision relative.
Proof. solve_decision. Defined.
#[export] Instance dirn_eq_dec : EqDecision dirn.
Proof. solve_decision. Defined.
#[export] Instance dirn_countable : Countable dirn.
Proof.
  refine (inj_countable' (fun d => match d with parentNode_ => true | previousSibling_ => false end)
    (fun b : bool => if b then parentNode_ else previousSibling_) _). by intros [].
Defined.

(** The type of a filter with the arguments that [matches] gives it. *)
Inductive filter_args :=
  | TAG (name : jstr)
  | CLASS (name : jstr)
  | ATTR (name : jstr) (operator : jstr) (check : jstr)           (* [operator] is empty where it is undefined *)
  | CHILD (type what : jstr) (xy : option (Z * Z))                (* x and y of an argument xn+y *)
  | PSEUDO (name : jstr) (argument : option jstr)
  | ID (name : jstr).
Inductive token :=
  | Combinator (value : jstr) (r : relative)
  | Filter (value : jstr) (f : filter_args).
#[export] Instance filter_args_eq_dec : EqDecision filter_args.
Proof. solve_decision. Defined.
#[export] Instance token_eq_dec : EqDecision token.
Proof. solve_decision. Defined.
Definition token_value (t : token) : jstr := match t with Combinator v _ | Filter v _ => v end.
Definition toSelector (tokens : list token) : jstr := flat_map token_value tokens.

(** ** Errors *)

Inductive outcome (A : Type) := Good (a : A) | Bad.
Arguments Good {A} a.
Arguments Bad {A}.
(** [None]: out of fuel. *)
Definition attempt (A : Type) := option (outcome A).
Definition andthen {A B} (m : attempt A) (k : A -> attempt B) : attempt B :=
  match m with Some (Good a) => k a | Some Bad => Some Bad | None => None end.

(** ** The pre-filters *)

Definition slice0 (n : Z) (s : jstr) : jstr :=       (* [s.slice(0, n)] for a negative [n] *)
  take (Z.to_nat (js_length s + n)) s.

(** The sign and the digits of a number; [+(...)] of them. *)
Definition signed (sign ds : jstr) : Z :=
  let v := (read_digits 10 ds 0 0).1.1 in if js_eqb sign (u "-") then - v else v.
Definition preCHILD (m : found) : outcome filter_args :=
  let type := to_lower (group 1 m) in
  let arg := group 3 m in
  if js_eqb (take 3 type) (u "nth") then
    if bool_decide (arg = []) then Bad else
    let odd := js_eqb arg (u "odd") in
    let x := match group 4 m with
             | [] => if js_eqb arg (u "even") || odd then 2 else 0
             | _ => signed (group 5 m) (match group 6 m with [] => u "1" | ds => ds end)
             end in
    let y := match group 8 m with
             | [] => if odd then 1 else 0                (* undefined + undefined is not a number *)
             | ds => signed (group 7 m) ds
             end in
    Good (CHILD type (group 2 m) (Some (x, y)))
  else if bool_decide (arg = []) then Good (CHILD type (group 2 m) None) else Bad.

Definition preATTR (m : found) : filter_args :=
  let op := group 2 m in
  let value := unescape (match group 4 m with [] => group 5 m | q => q end) in
  ATTR (unescape (group 1 m)) op (if js_eqb op (u "~=") then u " " ++ value ++ u " " else value).

Section Scan.
(** Whether the selector is in the cache of tokens. *)
Context (is_cached : jstr -> bool).

Section Iteration.
(** [tokenize(text, true)]. *)
Context (excess_of : jstr -> attempt Z).

Definition prePSEUDO (m : found) : attempt (option (jstr * filter_args)) :=
  if test true matchCHILD (matched m) then Some (Good None) else
  let plain := Some (Good (Some (matched m, PSEUDO (group 1 m) (caps m !! 2%nat)))) in
  match group 4 m with
  | (_ :: _) as quoted => Some (Good (Some (matched m, PSEUDO (group 1 m) (Some quoted))))
  | [] =>
      let unquoted := match group 5 m with [] => group 2 m | _ => [] end in
      if bool_decide (unquoted = []) || negb (test false rpseudo unquoted) then plain else
      andthen (excess_of unquoted) (fun excess =>
        if excess =? 0 then plain else
        let from := js_length unquoted - excess in
        let i := index_of (drop (Z.to_nat from) unquoted) (u ")") in
        let cut := (if i <? 0 then -1 else from + i) - js_length unquoted in
        Some (Good (Some (slice0 cut (matched m), PSEUDO (group 1 m) (Some (slice0 cut unquoted))))))
  end.

(** One type of the loop over [Expr.filter]: the matched text and the arguments. *)
Definition simple (r : re) (f : jstr -> filter_args) (soFar : jstr) : attempt (option (jstr * filter_args)) :=
  Some (Good (match exec false r soFar with Some m => Some (matched m, f (group 1 m)) | None => None end)).
Definition match_ATTR (soFar : jstr) : attempt (option (jstr * filter_args)) :=
  Some (Good (match exec false matchATTR soFar with Some m => Some (matched m, preATTR m) | None => None end)).
Definition match_CHILD (soFar : jstr) : attempt (option (jstr * filter_args)) :=
  match exec true matchCHILD soFar with
  | Some m => Some (match preCHILD m with Good f => Good (Some (matched m, f)) | Bad => Bad end)
  | None => Some (Good None)
  end.
Definition match_PSEUDO (soFar : jstr) : attempt (option (jstr * filter_args)) :=
  match exec false matchPSEUDO soFar with Some m => prePSEUDO m | None => Some (Good None) end.
Definition filter_types : list (jstr -> attempt (option (jstr * filter_args))) :=
  [simple matchTAG TAG; simple matchCLASS CLASS; match_ATTR; match_CHILD; match_PSEUDO; simple matchID ID].

(** The loop over the types: what is left, the tokens and whether one matched. *)
Fixpoint filters (types : list (jstr -> attempt (option (jstr * filter_args)))) (soFar : jstr) (tokens : list token)
    (matched : bool) : attempt (jstr * list token * bool) :=
  match types with
  | [] => Some (Good (soFar, tokens, matched))
  | t :: types =>
      andthen (t soFar) (fun o =>
        match o with
        | Some (m, f) => filters types (drop (length m) soFar) (tokens ++ [Filter m f]) true
        | None => filters types soFar tokens matched
        end)
  end.

(** The key of [Expr.relative]; white space is cast to a space. *)
Definition relative_of (c : jstr) : relative :=
  match c with [62] => Child | [43] => Adjacent | [126] => Sibling | _ => Descendant end.
Definition combinator (soFar : jstr) (tokens : list token) : jstr * list token * bool :=
  match exec false rcombinators soFar with
  | Some m => (after m, tokens ++ [Combinator (matched m) (relative_of (group 1 m))], true)
  | None => (soFar, tokens, false)
  end.

(** The loop [while (soFar)]. [groups] are the finished groups, [tokens] is the last one;
    [first]: the first run, where [matched] is undefined. *)
Fixpoint scan (fuel : nat) (first : bool) (soFar : jstr) (groups : list (list token)) (tokens : list token) :
    attempt (jstr * list (list token)) :=
  match soFar with
  | [] => Some (Good ([], if first then [] else groups ++ [tokens]))
  | _ =>
      match fuel with
      | O => None
      | S fuel =>
          let '(soFar, groups, tokens) :=
            if first then (soFar, groups, [])
            else match exec false rcomma soFar with
                 | Some m => (match after m with [] => soFar | rest => rest end, groups ++ [tokens], [])
                 | None => (soFar, groups, tokens)
                 end in
          let '(soFar, tokens, matched) := combinator soFar tokens in
          andthen (filters filter_types soFar tokens matched) (fun '(soFar, tokens, matched) =>
            if matched then scan fuel false soFar groups tokens
            else Some (Good (soFar, groups ++ [tokens])))
      end
  end.
End Iteration.

(** [tokenize(selector, true)]: the length of what is left; [depth] bounds its calls of itself. *)
Fixpoint parse_only (depth : nat) (selector : jstr) : attempt Z :=
  match depth with
  | O => None
  | S depth =>
      if is_cached selector then Some (Good 0) else
      andthen (scan (parse_only depth) (S (length selector)) true selector [] []) (fun r => Some (Good (js_length r.1)))
  end.

(** [tokenize(selector)] where it is not in the cache. *)
Definition tokens_of (selector : jstr) : attempt (list (list token)) :=
  andthen (scan (parse_only (S (length selector))) (S (length selector)) true selector [] []) (fun '(rest, groups) =>
    match rest with [] => Some (Good groups) | _ => Some Bad end).
End Scan.

(** Two groups; a quoted attribute, a position, a nested selector with excess text; errors. *)
Example tokens_ex :
  let t := tokens_of (fun _ => false) in
  t (u "div > .a,#b") = Some (Good [[Filter (u "div") (TAG (u "div")); Combinator (u " > ") Child; Filter (u ".a") (CLASS (u "a"))];
                                    [Filter (u "#b") (ID (u "b"))]]) /\
  t (u "a[x~='y\'z']:nth-child( -2n + 1 )") =
    Some (Good [[Filter (u "a") (TAG (u "a")); Filter (u "[x~='y\'z']") (ATTR (u "x") (u "~=") (u " y'z "));
                 Filter (u ":nth-child( -2n + 1 )") (CHILD (u "nth") (u "child") (Some (-2, 1)))]]) /\
  t (u "a:not(b:has(c)) ~ d:eq(1)") =
    Some (Good [[Filter (u "a") (TAG (u "a")); Filter (u ":not(b:has(c))") (PSEUDO (u "not") (Some (u "b:has(c)")));
                 Combinator (u " ~ ") Sibling; Filter (u "d") (TAG (u "d")); Filter (u ":eq(1)") (PSEUDO (u "eq") (Some (u "1")))]]) /\
  t (u "a,") = Some Bad /\ t (u "a[") = Some Bad /\ t (u ":nth-child()") = Some Bad.
Proof. vm_compute. repeat split. Qed.
