(* ===== verification/Sizzle.v ===== *)
(** * [html/resource/js/jquery.js]: Sizzle, the selector engine of jQuery

    What the engine compiles a selector to is data here ([matcher] for the functions of an
    element, [setm] for those of a whole set, [super] for the function of all groups of a
    selector), and [run_matcher], [run_set] and [run_super] are what these functions do.
    The state has what they share: the caches on the elements, the counters of runs, the
    compiled selectors. *)

From Stdlib Require Import ZArith Lia.
From stdpp Require Import base tactics list numbers strings gmap.
From S2P Require Import Prelude JsValue ValidPage RegExec SizzleTokens.
Set Warnings "-register-all".
Local Open Scope Z_scope.

(** ** The document

    A node is its number in document order; the document itself is node 0. *)
Class Document := {
  size : nat;
  parentNode : nat -> option nat;
  nodeType : nat -> Z;
  nodeName : nat -> jstr;
  getAttribute : nat -> jstr -> option jstr;
  (* properties of an element; [None]: undefined *)
  className : nat -> jstr;
  elem_id : nat -> jstr;
  elem_type : nat -> option jstr;
  elem_href : nat -> jstr;
  elem_lang : nat -> jstr;
  tabIndex : nat -> option Z;
  elem_disabled : nat -> option bool;
  elem_checked : nat -> bool;
  elem_selected : nat -> option bool;
  textContent : nat -> jstr;
  (* of the document and the window *)
  docElem : nat;
  documentIsXML : bool;
  activeElement : option nat;
  hasFocus : bool;
  location_hash : jstr;
  (* native methods; [contains] of an element includes the element *)
  getElementById : jstr -> option nat;
  getElementsByTagName : jstr -> nat -> list nat;
  getElementsByClassName : jstr -> nat -> list nat;
  native_contains : nat -> nat -> bool;
  support_qsa : bool;
  rbuggyQSA : jstr -> bool;
  querySelectorAll : gmap nat jstr -> nat -> jstr -> option (list nat);    (* with the ids set meanwhile; [None]: it throws *)
  (* toLowerCase, and the pseudos that other scripts add to Expr.pseudos *)
  toLowerCase : jstr -> jstr;
  custom : jstr -> option (nat -> option jstr -> bool)
}.

Section Tree.
Context {D : Document}.

Definition childNodes (p : nat) : list nat := filter (fun n => parentNode n = Some p) (seq 0 size).
Definition siblings_of (n : nat) : list nat := match parentNode n with Some p => childNodes p | None => [] end.
Definition previousSibling (n : nat) : option nat := last (filter (fun m => (m < n)%nat) (siblings_of n)).
Definition nextSibling (n : nat) : option nat := head (filter (fun m => (n < m)%nat) (siblings_of n)).
Definition firstChild (n : nat) : option nat := head (childNodes n).
Definition lastChild (n : nat) : option nat := last (childNodes n).
(** [elem[dir]] *)
Definition along (d : dirn) : nat -> option nat :=
  match d with parentNode_ => parentNode | previousSibling_ => previousSibling end.
Definition is_element (n : nat) : bool := nodeType n =? 1.

(** [jQuery.attr(elem, name)], which replaces the attribute retrieval of Sizzle. *)
Definition rboolean (name : jstr) : bool :=
  bool_decide (name ∈ map u ["checked"; "selected"; "autofocus"; "autoplay"; "async"; "controls"; "defer"; "disabled";
                             "hidden"; "loop"; "multiple"; "open"; "readonly"; "required"; "scoped"]%string).
Definition boolHook_get (elem : nat) (name : jstr) : option jstr :=
  match getAttribute elem name with Some _ => Some (toLowerCase name) | None => None end.
Definition attr (elem : nat) (name : jstr) : option jstr :=
  if bool_decide (nodeType elem ∈ [3; 8; 2]) then None else
  if documentIsXML then getAttribute elem name else
  let name := toLowerCase name in
  if rboolean name then boolHook_get elem name else getAttribute elem name.
End Tree.

(** ** Compiled selectors *)

(** A pseudo with its argument, where it looks at one element without calling the engine. *)
Inductive pseudo :=
  | Contains (text : jstr)
  | Lang (lang : jstr)
  | Target | Root | Focus | Enabled | Disabled | Checked | Selected | Empty | Parent | Header | Input | Button | Text
  | InputType (type : jstr)
  | ButtonType (type : jstr)
  | Custom (f : jstr) (argument : option jstr).
Inductive position := First | Last | Eq | Even | Odd | Lt | Gt.

Inductive matcher : Type :=
  | MAny
  | MTag (name : jstr)
  | MClass (name : jstr)
  | MAttr (name operator check : jstr)
  | MChild (type what : jstr) (xy : option (Z * Z))
  | MId (name : jstr)
  | MPseudo (p : pseudo)
  | MHas (selector : option jstr)
  | MNot (s : super)
  | MContext (leading : bool) (r : relative) (context any : nat)    (* the functions matchContext and matchAnyContext by their numbers *)
  | MCombine (r : relative) (doneName : nat) (m : matcher)
  | MElement (ms : list matcher)
with setm : Type :=
  | SPosition (p : position) (argument : num)
  | SNot (s : super)
  | SSet (preFilter : option matcher) (selector : option jstr) (m postFilter postFinder : option setm)
with super : Type :=
  | Super (n : nat) (elementMatchers : list matcher) (setMatchers : list setm).
(** A function that the engine compiled, marked or not. *)
Inductive compiled := Plain (m : matcher) | Marked (s : setm).

(** ** The state *)

(** The number [dirruns]: an integer to which nested searches add random numbers. A random
    number is its position in the sequence of draws: no two sums that differ in these are
    taken to be equal. *)
Record runs := Runs { whole : Z; added : list nat }.
#[export] Instance runs_eq_dec : EqDecision runs.
Proof. solve_decision. Defined.

(** The arrays that [addCombinator] keeps: the key and, when it is set, the result. *)
Inductive cached := Matched | Failed (run : Z).
Record cache_array := CacheArray { dirkey : runs * nat; result_of : option cached }.
(** The variable [outermostContext]. *)
Inductive outermost := Unset | WholeDocument | Within (n : nat).
#[export] Instance outermost_eq_dec : EqDecision outermost.
Proof. solve_decision. Defined.

(** What [createCache] makes: the values by key, and the keys in order. *)
Record cache (A : Type) := Cache { cache_keys : list jstr; cache_values : gmap jstr A }.
Arguments Cache {A} _ _.
Arguments cache_keys {A} _.
Arguments cache_values {A} _.
Definition cacheLength : nat := 50.
Definition cache_put {A} (key : jstr) (a : A) (c : cache A) : cache A :=
  let ks := cache_keys c ++ [key] in
  if (cacheLength <? length ks)%nat
  then match ks with
       | k :: ks => Cache ks (<[key := a]> (delete k (cache_values c)))
       | [] => c
       end
  else Cache ks (<[key := a]> (cache_values c)).

Record state := State {
  slots : gmap (nat * dirn) nat;              (* elem[expando][dir], an array *)
  arrays : list cache_array;
  nth_of : gmap (nat * jstr) (runs * Z * Z);  (* parent[expando][type]: run, nodeIndex, diff *)
  last_of : gmap (nat * jstr) (runs * Z);     (* elem[expando][type]: run, diff *)
  dirruns : runs;
  draws : nat;
  doneNames : nat;                            (* the variable [done] *)
  cachedruns : Z;
  outermostContext : outermost;
  supers : nat;                               (* functions made by matcherFromGroupMatchers *)
  matcherCachedRuns : gmap nat Z;             (* their variable *)
  tokenCache : cache (list (list token));
  compilerCache : cache super;
  ids : gmap nat jstr                         (* id attributes set by the engine *)
}.
Definition state0 : state :=
  State ∅ [] ∅ ∅ (Runs 0 []) 0 0 0 Unset 0 ∅ (Cache [] ∅) (Cache [] ∅) ∅.

Definition with_slots x s := State x (arrays s) (nth_of s) (last_of s) (dirruns s) (draws s) (doneNames s) (cachedruns s) (outermostContext s) (supers s) (matcherCachedRuns s) (tokenCache s) (compilerCache s) (ids s).
Definition with_arrays x s := State (slots s) x (nth_of s) (last_of s) (dirruns s) (draws s) (doneNames s) (cachedruns s) (outermostContext s) (supers s) (matcherCachedRuns s) (tokenCache s) (compilerCache s) (ids s).
Definition with_nth x s := State (slots s) (arrays s) x (last_of s) (dirruns s) (draws s) (doneNames s) (cachedruns s) (outermostContext s) (supers s) (matcherCachedRuns s) (tokenCache s) (compilerCache s) (ids s).
Definition with_last x s := State (slots s) (arrays s) (nth_of s) x (dirruns s) (draws s) (doneNames s) (cachedruns s) (outermostContext s) (supers s) (matcherCachedRuns s) (tokenCache s) (compilerCache s) (ids s).
Definition with_dirruns x s := State (slots s) (arrays s) (nth_of s) (last_of s) x (draws s) (doneNames s) (cachedruns s) (outermostContext s) (supers s) (matcherCachedRuns s) (tokenCache s) (compilerCache s) (ids s).
Definition with_draws x s := State (slots s) (arrays s) (nth_of s) (last_of s) (dirruns s) x (doneNames s) (cachedruns s) (outermostContext s) (supers s) (matcherCachedRuns s) (tokenCache s) (compilerCache s) (ids s).
Definition with_done x s := State (slots s) (arrays s) (nth_of s) (last_of s) (dirruns s) (draws s) x (cachedruns s) (outermostContext s) (supers s) (matcherCachedRuns s) (tokenCache s) (compilerCache s) (ids s).
Definition with_cachedruns x s := State (slots s) (arrays s) (nth_of s) (last_of s) (dirruns s) (draws s) (doneNames s) x (outermostContext s) (supers s) (matcherCachedRuns s) (tokenCache s) (compilerCache s) (ids s).
Definition with_outermost x s := State (slots s) (arrays s) (nth_of s) (last_of s) (dirruns s) (draws s) (doneNames s) (cachedruns s) x (supers s) (matcherCachedRuns s) (tokenCache s) (compilerCache s) (ids s).
Definition with_super n x s := State (slots s) (arrays s) (nth_of s) (last_of s) (dirruns s) (draws s) (doneNames s) (cachedruns s) (outermostContext s) n x (tokenCache s) (compilerCache s) (ids s).
Definition with_tokenCache x s := State (slots s) (arrays s) (nth_of s) (last_of s) (dirruns s) (draws s) (doneNames s) (cachedruns s) (outermostContext s) (supers s) (matcherCachedRuns s) x (compilerCache s) (ids s).
Definition with_compilerCache x s := State (slots s) (arrays s) (nth_of s) (last_of s) (dirruns s) (draws s) (doneNames s) (cachedruns s) (outermostContext s) (supers s) (matcherCachedRuns s) (tokenCache s) x (ids s).
Definition with_ids x s := State (slots s) (arrays s) (nth_of s) (last_of s) (dirruns s) (draws s) (doneNames s) (cachedruns s) (outermostContext s) (supers s) (matcherCachedRuns s) (tokenCache s) (compilerCache s) x.

(** ** Effects: the state, errors, and [None] for a run that does not end in the fuel given *)

Definition M (A : Type) := state -> option (state * outcome A).
Definition ret {A} (a : A) : M A := fun s => Some (s, Good a).
Definition fail {A} : M A := fun s => Some (s, Bad).
Definition no_end {A} : M A := fun _ => None.
Definition bind {A B} (m : M A) (k : A -> M B) : M B := fun s =>
  match m s with
  | Some (s, Good a) => k a s
  | Some (s, Bad) => Some (s, Bad)
  | None => None
  end.
Definition get {A} (f : state -> A) : M A := fun s => Some (s, Good (f s)).
Definition modify (f : state -> state) : M unit := fun s => Some (f s, Good tt).
(** [try { m } finally { h }] *)
Definition finally {A} (m : M A) (h : M unit) : M A := fun s =>
  match m s with
  | Some (s, o) => match h s with Some (s, Good _) => Some (s, o) | Some (s, Bad) => Some (s, Bad) | None => None end
  | None => None
  end.
Definition lift {A} (a : attempt A) : M A := fun s => match a with Some o => Some (s, o) | None => None end.
Declare Scope sizzle_scope.
Notation "x <- m ;; k" := (bind m (fun x => k)) (at level 100, m at next level, right associativity) : sizzle_scope.
Notation "m ;;; k" := (bind m (fun _ => k)) (at level 100, right associativity) : sizzle_scope.
Local Open Scope sizzle_scope.

(** ** The filters of one element *)

Section Filters.
Context {D : Document}.

Definition filter_tag (name : jstr) (e : nat) : bool := js_eqb (toLowerCase (nodeName e)) name.
(** [pattern.test]; the name stands in the pattern with its escapes. *)
Fixpoint literal_text (s : jstr) : jstr :=
  match s with
  | 92 :: c :: s => c :: literal_text s
  | c :: s => c :: literal_text s
  | [] => []
  end.
Definition class_pattern (name : jstr) : re :=
  all [Or AtStart whitespace; text (literal_text name); Or whitespace AtEnd].
Definition filter_class (name : jstr) (e : nat) : bool :=
  test false (class_pattern name)
    (match className e with [] => default [] (getAttribute e (u "class")) | c => c end).
Definition filter_id (name : jstr) (e : nat) : bool :=
  match getAttribute e (u "id") with Some i => js_eqb i (unescape name) | None => false end.

(** [s.slice(-n)] *)
Definition slice_end (n : Z) (s : jstr) : jstr :=
  if n =? 0 then s else drop (Z.to_nat (js_length s - n)) s.
Definition filter_attr (name operator check : jstr) (e : nat) : bool :=
  match attr e name with
  | None => js_eqb operator (u "!=")
  | Some result =>
      if bool_decide (operator = []) then true else
      let some := negb (bool_decide (check = [])) in
      if js_eqb operator (u "=") then js_eqb result check
      else if js_eqb operator (u "!=") then negb (js_eqb result check)
      else if js_eqb operator (u "^=") then some && (index_of result check =? 0)
      else if js_eqb operator (u "*=") then some && (-1 <? index_of result check)
      else if js_eqb operator (u "$=") then some && js_eqb (slice_end (js_length check) result) check
      else if js_eqb operator (u "~=") then -1 <? index_of (u " " ++ result ++ u " ") check
      else if js_eqb operator (u "|=") then js_eqb result check || js_eqb (take (S (length check)) result) (check ++ u "-")
      else false
  end.

(** The language of the nearest node that has one. *)
Fixpoint lang_at (fuel : nat) (lang : jstr) (e : nat) : option bool :=
  match fuel with
  | O => None
  | S fuel =>
      let own := if documentIsXML
                 then match default [] (getAttribute e (u "xml:lang")) with [] => default [] (getAttribute e (u "lang")) | l => l end
                 else elem_lang e in
      match own with
      | _ :: _ => Some (js_eqb (toLowerCase own) lang || (index_of (toLowerCase own) (lang ++ u "-") =? 0))
      | [] => match parentNode e with
              | Some p => if is_element p then lang_at fuel lang p else Some false
              | None => Some false
              end
      end
  end.
Definition is_named (e : nat) (name : string) : bool := js_eqb (toLowerCase (nodeName e)) (u name).
(** The name is greater than [@]. *)
Definition above_at (name : jstr) : bool :=
  match name with c :: rest => (64 <? c) || ((c =? 64) && negb (bool_decide (rest = []))) | [] => false end.
Definition is_empty (e : nat) : bool :=
  forallb (fun c => negb (above_at (nodeName c) || (nodeType c =? 3) || (nodeType c =? 4))) (childNodes e).
Definition rheader : re := Then AtStart (all [chr 104; of_class digits; AtEnd]).
Definition rinputs : re :=
  Then AtStart (Then (one_of (map (fun s => text (u s)) ["input"; "select"; "textarea"; "button"]%string)) AtEnd).
Definition type_is (e : nat) (t : jstr) : bool := bool_decide (elem_type e = Some t).

Definition run_pseudo (p : pseudo) (e : nat) : option bool :=
  match p with
  | Contains text => Some (-1 <? index_of (textContent e) text)
  | Lang lang => lang_at (S e) lang e
  | Target => Some (match location_hash with [] => false | _ :: h => js_eqb h (elem_id e) end)
  | Root => Some (e =? docElem)%nat
  | Focus => Some (bool_decide (activeElement = Some e) && hasFocus &&
                   (match elem_type e with Some (_ :: _) => true | _ => false end
                    || negb (bool_decide (elem_href e = []))
                    || negb (bool_decide (tabIndex e = Some (-1)))))
  | Enabled => Some (bool_decide (elem_disabled e = Some false))
  | Disabled => Some (bool_decide (elem_disabled e = Some true))
  | Checked => Some ((is_named e "input" && elem_checked e)
                     || (is_named e "option" && bool_decide (elem_selected e = Some true)))
  | Selected => Some (bool_decide (elem_selected e = Some true))
  | Empty => Some (is_empty e)
  | Parent => Some (negb (is_empty e))
  | Header => Some (test true rheader (nodeName e))
  | Input => Some (test true rinputs (nodeName e))
  | Button => Some ((is_named e "input" && type_is e (u "button")) || is_named e "button")
  | Text => Some (is_named e "input" && type_is e (u "text") &&
                  match getAttribute e (u "type") with None => true | Some a => js_eqb (toLowerCase a) (u "text") end)
  | InputType t => Some (is_named e "input" && type_is e t)
  | ButtonType t => Some ((is_named e "input" || is_named e "button") && type_is e t)
  | Custom f arg => match custom f with Some g => Some (g e arg) | None => Some false end
  end.

(** ** [:nth-child] and its like *)

(** The nodes that [while ((node = node[dir]))] visits. *)
Fixpoint chain (fuel : nat) (step : nat -> option nat) (n : nat) : option (list nat) :=
  match fuel with
  | O => None
  | S fuel => match step n with Some m => cons m <$> chain fuel step m | None => Some [] end
  end.

(** The search for [elem] from [node], with one more start; [visit] is what is done with every
    counted node. The index and the number of [elem] among the counted nodes. *)
Fixpoint seek (fuel : nat) (step : nat -> option nat) (counts : nat -> bool) (visit : nat -> Z -> Z -> M unit) (elem : nat)
    (node : option nat) (nodeIndex diff : Z) (start : option nat) : M (Z * Z) :=
  match fuel with
  | O => no_end
  | S fuel =>
      let '(node, nodeIndex, diff, start) :=
        match match node with Some n => step n | None => None end with
        | Some n => (Some n, nodeIndex + 1, diff, start)
        | None => (start, 0, 0, None)
        end in
      match node with
      | None => ret (nodeIndex, diff)
      | Some n =>
          if counts n then
            visit n nodeIndex (diff + 1);;;
            if (n =? elem)%nat then ret (nodeIndex, diff + 1)
            else seek fuel step counts visit elem node nodeIndex (diff + 1) start
          else seek fuel step counts visit elem node nodeIndex diff start
      end
  end.

(** Incorporating the offset: [diff] is xn+y for an n that is not negative. *)
Definition in_cycle (x y diff : Z) : bool :=
  let d := diff - y in
  (d =? x) || (negb (x =? 0) && (Z.rem d x =? 0) && (0 <=? Z.quot d x)).

Definition useCache (ofType : bool) : bool := negb documentIsXML && negb ofType.
Definition child_index (type : jstr) (ofType : bool) (elem parent : nat) : M Z :=
  let forward := negb (js_eqb (slice_end 4 type) (u "last")) in
  let name := toLowerCase (nodeName elem) in
  let counts n := if ofType then js_eqb (toLowerCase (nodeName n)) name else is_element n in
  let step := if forward then nextSibling else previousSibling in
  let start := if forward then firstChild parent else lastChild parent in
  let fuel := (2 * size + 2)%nat in
  run <- get dirruns;;
  let count_anew :=
    r <- seek fuel step counts
           (fun n _ d => if useCache ofType then modify (fun s => with_last (<[(n, type) := (run, d)]> (last_of s)) s) else ret tt)
           elem None 0 0 start;;
    ret r.2 in
  if forward && useCache ofType then
    cache <- get (fun s => nth_of s !! (parent, type));;
    let '(node, nodeIndex, diff) :=
      match cache with
      | Some (r, nodeIndex, diff) =>
          if decide (r = run)
          then (if nodeIndex =? 0 then None else childNodes parent !! Z.to_nat nodeIndex, nodeIndex, diff)
          else (None, 0, 0)
      | None => (None, 0, 0)
      end in
    r <- seek fuel step counts
           (fun n i d => if (n =? elem)%nat then modify (fun s => with_nth (<[(parent, type) := (run, i, d)]> (nth_of s)) s) else ret tt)
           elem node nodeIndex diff start;;
    ret r.2
  else
    cache <- get (fun s => last_of s !! (elem, type));;
    match cache with
    | Some (r, diff) => if useCache ofType && bool_decide (r = run) then ret diff else count_anew
    | None => count_anew
    end.

Definition run_child (type what : jstr) (xy : option (Z * Z)) (elem : nat) : M bool :=
  let simple := negb (js_eqb (take 3 type) (u "nth")) in
  let ofType := js_eqb what (u "of-type") in
  if bool_decide (xy = Some (1, 0)) then ret (match parentNode elem with Some _ => true | None => false end) else
  match parentNode elem with
  | None => ret false
  | Some parent =>
      if simple then
        let same n := if ofType then js_eqb (toLowerCase (nodeName n)) (toLowerCase (nodeName elem)) else is_element n in
        let none step := l <- lift (Good <$> chain (S size) step elem);; ret (negb (existsb same l)) in
        if js_eqb (slice_end 4 type) (u "last") then none nextSibling else
        ok <- none previousSibling;;
        if ok && js_eqb type (u "only") then none nextSibling else ret ok
      else
        let '(x, y) := default (0, 0) xy in
        diff <- child_index type ofType elem parent;; ret (in_cycle x y diff)
  end.

(** ** Combinators *)

(** The context of a search: null, a node, or the nodes of an array. *)
Inductive ctx := NoContext | Node (n : nat) | NodeList (l : list nat).

(** With [first]: the closest node. *)
Fixpoint nearest (fuel : nat) (step : nat -> option nat) (nonElements : bool) (inner : nat -> M bool) (elem : nat) : M bool :=
  match fuel with
  | O => no_end
  | S fuel =>
      match step elem with
      | None => ret false
      | Some x => if is_element x || nonElements then inner x else nearest fuel step nonElements inner x
      end
  end.
(** All nodes, of an XML document. *)
Fixpoint walk_xml (fuel : nat) (step : nat -> option nat) (nonElements : bool) (inner : nat -> M bool) (elem : nat) : M bool :=
  match fuel with
  | O => no_end
  | S fuel =>
      match step elem with
      | None => ret false
      | Some x =>
          if is_element x || nonElements
          then r <- inner x;; if r then ret true else walk_xml fuel step nonElements inner x
          else walk_xml fuel step nonElements inner x
      end
  end.
(** All nodes, with the results kept on them. *)
Definition new_array (a : cache_array) : M nat :=
  n <- get (fun s => length (arrays s));; modify (fun s => with_arrays (arrays s ++ [a]) s);;; ret n.
Fixpoint walk (fuel : nat) (d : dirn) (nonElements : bool) (key : runs * nat) (inner : nat -> M bool) (elem : nat) : M bool :=
  match fuel with
  | O => no_end
  | S fuel =>
      match along d elem with
      | None => ret false
      | Some x =>
          if is_element x || nonElements then
            cache <- get (fun s => match slots s !! (x, d) with Some i => arrays s !! i | None => None end);;
            now <- get cachedruns;;
            let go_on := walk fuel d nonElements key inner x in
            let look :=
              i <- new_array (CacheArray key None);;
              modify (fun s => with_slots (<[(x, d) := i]> (slots s)) s);;;
              r <- inner x;;
              modify (fun s => with_arrays
                (<[i := CacheArray key (Some (if r then Matched else Failed (cachedruns s)))]> (arrays s)) s);;;
              if r then ret true else go_on in
            match cache with
            | Some a =>
                if decide (dirkey a = key) then
                  match result_of a with
                  | Some Matched => ret true
                  | Some (Failed run) => if run =? now then ret false else go_on
                  | None => go_on
                  end
                else look
            | None => look
            end
          else walk fuel d nonElements key inner x
      end
  end.

(** [addCombinator(inner, r, base)] on an element. *)
Definition combine (r : relative) (doneName : nat) (base : bool) (inner : nat -> M bool) (elem : nat) : M bool :=
  let d := dir_of r in
  let nonElements := base && bool_decide (d = parentNode_) in
  if first_of r then nearest (S elem) (along d) nonElements inner elem
  else if documentIsXML then walk_xml (S elem) (along d) nonElements inner elem
  else run <- get dirruns;; walk (S elem) d nonElements (run, doneName) inner elem.

(** The first matcher of a group: can [elem] be reached from the context? *)
Definition same_context (c : ctx) (o : outermost) : bool :=
  match c, o with Node n, Within m => (n =? m)%nat | _, _ => false end.
Definition reachable (leading : bool) (r : relative) (context any : nat) (elem : nat) (c : ctx) : M bool :=
  o <- get outermostContext;;
  if negb leading && (documentIsXML || negb (same_context c o)) then ret true else
  match c with
  | NoContext => fail
  | Node n => combine r context true (fun e => ret (e =? n)%nat) elem
  | NodeList l => combine r any true (fun e => ret (bool_decide (e ∈ l))) elem
  end.
End Filters.

(** ** Arrays with empty places *)

Definition array := list (option nat).
Fixpoint array_set (j : nat) (x : option nat) (l : array) : array :=
  match j, l with
  | O, [] => [x]
  | O, _ :: l => x :: l
  | S j, [] => None :: array_set j x []
  | S j, y :: l => y :: array_set j x l
  end.
Definition at_index (j : nat) (l : array) : option nat := match l !! j with Some x => x | None => None end.
(** [condense(l, map)] without a filter: the elements and their indexes. *)
Fixpoint condense_from (i : nat) (l : array) : list (nat * nat) :=
  match l with
  | [] => []
  | Some e :: l => (e, i) :: condense_from (S i) l
  | None :: l => condense_from (S i) l
  end.
Definition condense (l : array) : list (nat * nat) := condense_from 0 l.
Definition elements (l : array) : list nat := (condense l).*1.
(** [indexOf.call(l, e)] *)
Definition index_in (e : nat) (l : array) : option nat := fst <$> list_find (fun x => x = Some e) l.

(** [Sizzle.uniqueSort]: in document order, once each. *)
Fixpoint insert_node (n : nat) (l : list nat) : list nat :=
  match l with
  | [] => [n]
  | m :: l' => if (n <=? m)%nat then n :: l else m :: insert_node n l'
  end.
Definition sort_nodes (l : list nat) : list nat := foldr insert_node [] l.
Fixpoint drop_repeated (l : list nat) : list nat :=
  match l with
  | a :: (b :: _) as l' => if (a =? b)%nat then drop_repeated l' else a :: drop_repeated l'
  | l => l
  end.
Definition uniqueSort (l : list nat) : list nat := drop_repeated (sort_nodes l).

(** ** The positional pseudos *)

(** The indexes for a set of [length] elements; [None]: a loop that does not end. An argument
    that is no integer gives no index of an element. *)
Definition matchIndexes (p : position) (argument : num) (length : Z) : option (list Z) :=
  let every_other from := map (fun k => from + 2 * Z.of_nat k) (seq 0 (Z.to_nat ((length - from + 1) / 2))) in
  let from := match argument with
              | Fin q => if (QArith_base.Qden q =? 1)%positive
                         then let a := QArith_base.Qnum q in Some (if a <? 0 then a + length else a)
                         else None
              | _ => None
              end in
  match p with
  | First => Some [0]
  | Last => Some [length - 1]
  | Even => Some (every_other 0)
  | Odd => Some (every_other 1)
  | Eq => Some (match from with Some i => [i] | None => [] end)
  | Lt => match argument, from with
          | PosInf, _ => None
          | _, Some i => Some (rev (map Z.of_nat (seq 0 (Z.to_nat i))))
          | _, None => Some []
          end
  | Gt => match argument, from with
          | NegInf, _ => None
          | _, Some i => Some (map (fun k => i + 1 + Z.of_nat k) (seq 0 (Z.to_nat (length - 1 - i))))
          | _, None => Some []
          end
  end.
(** The elements at the indexes move from [seed] to [matches], the last index first. *)
Definition pick (indexes : list Z) (seed matches : array) : array * array :=
  foldr (fun j '(seed, matches) =>
    if j <? 0 then (seed, matches) else
    match at_index (Z.to_nat j) seed with
    | Some e => (array_set (Z.to_nat j) None seed, array_set (Z.to_nat j) (Some e) matches)
    | None => (seed, matches)
    end) (seed, matches) indexes.

(** ** Running what was compiled *)

Section Run.
Context {D : Document}.
(** [Sizzle(selector, context, results)], for [:has] and for the contexts of a set. *)
Context (sizzle : jstr -> nat -> list nat -> M (list nat)).

Fixpoint multipleContexts (selector : jstr) (contexts : list nat) (results : list nat) : M (list nat) :=
  match contexts with
  | [] => ret results
  | c :: contexts => results <- sizzle selector c results;; multipleContexts selector contexts results
  end.

(** [dirruns += contextBackup == null ? 1 : Math.random() || 0.1] *)
Definition next_dirruns (contextBackup : outermost) : M runs :=
  r <- get dirruns;;
  r' <- match contextBackup with
        | Unset => ret (Runs (whole r + 1) (added r))
        | _ => n <- get draws;; modify (with_draws (S n));;; ret (Runs (whole r) (added r ++ [n]))
        end;;
  modify (with_dirruns r');;; ret r'.
Definition context_flag (c : ctx) : outermost :=
  match c with Node O => WholeDocument | Node n => Within n | _ => Unset end.

(** Elements taken back from the results for the places that neither array fills, from the end. *)
Fixpoint reintegrate (i : nat) (unmatched setMatched : array) (results : list nat) : array * list nat :=
  match i with
  | O => (setMatched, results)
  | S i =>
      match at_index i unmatched, at_index i setMatched with
      | None, None => reintegrate i unmatched (array_set i (last results) setMatched) (removelast results)
      | _, _ => reintegrate i unmatched setMatched results
      end
  end.

Fixpoint run_matcher (m : matcher) (elem : nat) (c : ctx) {struct m} : M bool :=
  match m with
  | MAny => ret true
  | MTag name => ret (filter_tag name elem)
  | MClass name => ret (filter_class name elem)
  | MAttr name op check => ret (filter_attr name op check elem)
  | MChild type what xy => run_child type what xy elem
  | MId name => ret (filter_id name elem)
  | MPseudo p => lift (Good <$> run_pseudo p elem)
  | MHas selector =>
      match selector with
      | Some t => l <- sizzle t elem [];; ret (negb (bool_decide (l = [])))
      | None => ret false
      end
  | MNot s => r <- run_super s (Some [Some elem]) NoContext [] None;; ret (bool_decide (r.2 = []))
  | MContext leading r context any => reachable leading r context any elem c
  | MCombine r doneName m => combine r doneName false (fun x => run_matcher m x c) elem
  | MElement ms =>
      (fix all_of (ms : list matcher) : M bool :=
         match ms with
         | [] => ret true
         | m :: ms => ok <- all_of ms;; if ok then run_matcher m elem c else ret false
         end) ms
  end
with run_set (s : setm) (seed : option array) (results : array) (c : ctx) {struct s} : M (option array * array) :=
  match s with
  | SPosition p argument =>
      match seed with
      | Some seed =>
          indexes <- lift (Good <$> matchIndexes p argument (Z.of_nat (length seed)));;
          let '(seed, matches) := pick indexes seed results in ret (Some seed, matches)
      | None => fail
      end
  | SNot s =>
      match seed with
      | Some seed =>
          r <- run_super s (Some seed) NoContext [] None;;
          let '(seed, matches) := foldr (fun '(e, i) '(seed, matches) => (array_set i None seed, array_set i (Some e) matches))
                                    (seed, results) (condense (default [] r.1)) in
          ret (Some seed, matches)
      | None => fail
      end
  | SSet pre selector m post finder =>
      let preexisting := length results in
      let given := match seed with Some _ => true | None => false end in
      let sel := match selector with Some ((_ :: _) as t) => Some t | _ => None end in
      elems <- match seed with
               | Some l => ret l
               | None => l <- multipleContexts (default (u "*") sel)
                                (match c with Node n => [n] | NodeList l => l | NoContext => [] end) [];;
                         ret (map Some l)
               end;;
      let filtered := match pre with Some _ => given || match sel with None => true | Some _ => false end | None => false end in
      kept <- match pre with
              | Some p =>
                  if filtered then
                    (fix keep (l : list (nat * nat)) : M (list (nat * nat)) :=
                       match l with
                       | [] => ret []
                       | (e, i) :: l => ok <- run_matcher p e c;; l <- keep l;; ret (if ok then (e, i) :: l else l)
                       end) (condense elems)
                  else ret []
              | None => ret []
              end;;
      let matcherIn := if filtered then map Some kept.*1 else elems in
      let preMap := kept.*2 in
      (* with a matcher and nothing to do afterwards, the results themselves *)
      let direct := match m with Some _ => true | None => false end &&
                    negb (match finder with Some _ => true | None => false end ||
                          if given then match pre with Some _ => true | None => false end
                          else negb (preexisting =? 0)%nat || match post with Some _ => true | None => false end) in
      io <- match m with
            | Some m => r <- run_set m (Some matcherIn) (if direct then results else []) c;; ret (default matcherIn r.1, r.2)
            | None => ret (matcherIn, matcherIn)
            end;;
      let '(matcherIn, matcherOut) := io in
      io <-
        match post with
        | Some p =>
            let temp := condense matcherOut in
            r <- run_set p (Some (map Some temp.*1)) [] c;;
            let failing := omap (fun '(x, i) => match x with Some e => Some (e, i) | None => None end)
                             (zip (default [] r.1) temp.*2) in
            ret (foldr (fun '(e, i) l => array_set i (Some e) l) matcherIn failing,
                 foldr (fun '(e, i) l => array_set i None l) matcherOut failing)
        | None => ret (matcherIn, matcherOut)
        end;;
      let '(matcherIn, matcherOut) := io in
      match seed with
      | Some seed =>
          let results := if direct then matcherOut else results in
          match finder, pre with
          | None, None => ret (Some (if filtered then seed else matcherIn), results)
          | _, _ =>
              (* elements that are not final matches yet go back to where they came from *)
              let seed := if filtered then seed else
                          match finder with
                          | Some _ => foldr (fun '(e, i) l => array_set i (Some e) l) matcherIn (condense matcherOut)
                          | None => matcherIn
                          end in
              out <- match finder with
                     | Some f => r <- run_set f None [] (NodeList (rev (elements matcherOut)));; ret r.2
                     | None => ret matcherOut
                     end;;
              let '(seed, results) :=
                foldr (fun '(e, i) '(seed, results) =>
                    match match finder with Some _ => index_in e seed | None => preMap !! i end with
                    | Some j => (array_set j None seed, array_set j (Some e) results)
                    | None => (seed, results)
                    end) (seed, results) (condense out) in
              ret (Some seed, results)
          end
      | None =>
          let '(results, out) := if direct then (take preexisting matcherOut, elements (drop preexisting matcherOut))
                                 else (results, elements matcherOut) in
          match finder with
          | Some f => r <- run_set f None results (NodeList out);; ret (None, r.2)
          | None => ret (None, results ++ map Some out)
          end
      end
  end
with run_super (s : super) (seed : option array) (c : ctx) (results : list nat) (expandContext : option bool) {struct s} :
    M (option array * list nat) :=
  match s with
  | Super n elementMatchers setMatchers =>
      let bySet := negb (bool_decide (length setMatchers = O)) in
      let byElement := negb (bool_decide (length elementMatchers = O)) in
      let is_outermost := match expandContext with Some _ => true | None => false end in
      contextBackup <- get outermostContext;;
      elems <- match seed with
               | Some l => ret l
               | None =>
                   if byElement then
                     match c with
                     | Node k => let top := if default false expandContext then default k (parentNode k) else k in
                                 ret (map Some (getElementsByTagName (u "*") top))
                     | _ => fail
                     end
                   else ret []
               end;;
      dirrunsUnique <- next_dirruns contextBackup;;
      (if is_outermost
       then modify (with_outermost (context_flag c));;;
            modify (fun s => with_cachedruns (default 0 (matcherCachedRuns s !! n)) s)
       else ret tt);;;
      (* the elements one by one: the results, and in reverse what no matcher took *)
      r <- (fix each (elems : array) (results : list nat) (taken : bool) (unmatched : array) : M (list nat * array) :=
              match elems with
              | [] => ret (results, rev unmatched)
              | x :: elems =>
                  taken <- match x with
                           | Some e =>
                               if byElement then
                                 ok <- (fix one_of (ms : list matcher) : M bool :=
                                          match ms with
                                          | [] => ret false
                                          | m :: ms => ok <- run_matcher m e c;; if ok then ret true else one_of ms
                                          end) elementMatchers;;
                                 (if is_outermost
                                  then modify (with_dirruns dirrunsUnique);;;
                                       modify (fun s => let k := default 0 (matcherCachedRuns s !! n) + 1 in
                                         with_cachedruns k (with_super (supers s) (<[n := k]> (matcherCachedRuns s)) s))
                                  else ret tt);;;
                                 ret ok
                               else ret taken
                           | None => ret taken
                           end;;
                  each elems (match x with Some e => if byElement && taken then results ++ [e] else results | None => results end)
                    taken ((if taken then None else x) :: unmatched)
              end) elems results false [];;
      let '(results, unmatched) := r in
      let i := length elems in
      let matchedCount := (i - length (elements unmatched))%nat in
      r <- (if bySet && ((i =? 0)%nat || negb (i =? matchedCount)%nat) then
              r <- (fix sets (ms : list setm) (unmatched : option array) (setMatched : array) : M (option array * array) :=
                      match ms with
                      | [] => ret (unmatched, setMatched)
                      | m :: ms => r <- run_set m unmatched setMatched c;; sets ms r.1 r.2
                      end) setMatchers (match seed with Some _ => Some unmatched | None => None end) [];;
              let '(after, setMatched) := r in
              match seed with
              | Some _ =>
                  let un := default [] after in
                  let '(setMatched, results) :=
                    if (0 <? matchedCount)%nat then reintegrate i un setMatched results else (setMatched, results) in
                  ret (Some un, results ++ elements setMatched)
              | None =>
                  let results := results ++ elements setMatched in
                  ret (None, if is_outermost && negb (bool_decide (elements setMatched = []))
                                && (1 <? matchedCount + length setMatchers)%nat
                             then uniqueSort results else results)
              end
            else ret (match seed with Some _ => Some (if bySet then unmatched else []) | None => None end, results));;
      (if is_outermost
       then modify (with_dirruns dirrunsUnique);;; modify (with_outermost contextBackup)
       else ret tt);;;
      ret r
  end.
End Run.
