(* ===== verification/SizzleClass.v ===== *)
(** * Sizzle: a class as a word

    The expression of [Expr.filter.CLASS] finds the words of a text ([class_words]). *)

From Stdlib Require Import ZArith Lia.
From stdpp Require Import base tactics list numbers strings gmap.
From S2P Require Import Prelude JsValue ValidPage Regex RegExec SizzleTokens Sizzle.
Local Open Scope Z_scope.


Definition is_space (x : Z) : bool := in_class false space x.
(** The words of a text with white space between them. *)
Fixpoint words (s : jstr) : list jstr :=
  match s with
  | [] => [[]]
  | x :: s => if is_space x then [] :: words s else match words s with w :: ws => (x :: w) :: ws | [] => [[x]] end
  end.

Definition ends (s : jstr) : bool := match s with [] => true | x :: _ => is_space x end.
Definition starts (t s : jstr) : bool := prefix_b t s && ends (drop (length t) s).
Fixpoint starts_later (t s : jstr) : bool :=
  match s with [] => false | x :: s => (is_space x && starts t s) || starts_later t s end.

Lemma words_nonempty s : words s <> [].
Proof. destruct s as [|x s]; cbn; [done|]. destruct (is_space x); [done|]. by destruct (words s). Qed.
Lemma words_eq s : words s = default [] (head (words s)) :: tail (words s).
Proof. destruct (words s) eqn:E; [by apply words_nonempty in E|done]. Qed.
Lemma words_cons x s : words (x :: s) = if is_space x then [] :: words s else (x :: default [] (head (words s))) :: tail (words s).
Proof. cbn. destruct (is_space x); [done|]. by destruct (words s). Qed.
Lemma first_word t s : Forall (fun x => is_space x = false) t -> bool_decide (t = default [] (head (words s))) = starts t s.
Proof.
  revert t. unfold starts. induction s as [|x s IH]; intros t Ht; [by destruct t|]. rewrite words_cons.
  destruct t as [|y t]; cbn [prefix_b andb drop length ends].
  - destruct (is_space x); [done|]. by rewrite bool_decide_eq_false_2.
  - apply Forall_cons in Ht as [Hy Ht]. destruct (is_space x) eqn:Ex; cbn [head default].
    + rewrite bool_decide_eq_false_2 by done. destruct (Z.eqb_spec y x) as [->|]; [congruence|done].
    + destruct (Z.eqb_spec y x) as [->|Hne]; cbn [andb]; [rewrite <- IH by done|].
      * apply bool_decide_ext. split; [by intros [= <-]|by intros <-].
      * apply bool_decide_eq_false_2. by intros [= -> _].
Qed.
Lemma later_word t s : Forall (fun x => is_space x = false) t -> bool_decide (t ∈ tail (words s)) = starts_later t s.
Proof.
  intros Ht. induction s as [|x s IH]; [done|]. rewrite words_cons. cbn [starts_later]. rewrite <- IH, <- first_word by done.
  destruct (is_space x); cbn [tail andb orb]; [|done].
  rewrite <- bool_decide_or. apply bool_decide_ext. rewrite (words_eq s) at 1. by rewrite elem_of_cons.
Qed.
Lemma elem_of_words t s : Forall (fun x => is_space x = false) t -> bool_decide (t ∈ words s) = starts t s || starts_later t s.
Proof.
  intros Ht. rewrite <- first_word, <- later_word, <- bool_decide_or by done. apply bool_decide_ext. rewrite (words_eq s) at 1. by rewrite elem_of_cons.
Qed.

Lemma run_text i total t s c k : i = false -> run i total (text t) s c k = if prefix_b t s then k (drop (length t) s) c else None.
Proof.
  intros ->. revert s. induction t as [|x t IH]; intros s; [done|].
  assert (Hx : forall y, in_class false [(x, x)] y = (x =? y)).
  { intros y. unfold in_class, in_ranges. cbn. rewrite !orb_false_r. apply eq_true_iff_eq. rewrite andb_true_iff. lia. }
  destruct t as [|x' t]; destruct s as [|y s]; try done.
  - cbn [text]. unfold chr. rewrite run_unit, Hx. cbn [prefix_b length drop xorb]. by rewrite andb_true_r.
  - change (text (x :: x' :: t)) with (Then (chr x) (text (x' :: t))). rewrite run_then. unfold chr at 1. rewrite run_unit, Hx, IH.
    cbn [xorb]. change (prefix_b (x :: x' :: t) (y :: s)) with ((x =? y) && prefix_b (x' :: t) s). by destruct (x =? y).
Qed.
(** The expression of a class finds a word. *)
Section ClassPattern.
Context (name : jstr).
Let t := literal_text name.
Let word : re := Then (text t) (Or whitespace AtEnd).
Lemma run_word total s c : match run false total word s c (fun s' c' => Some (s', c')) with Some _ => true | None => false end = starts t s.
Proof.
  unfold word, starts. rewrite run_then, run_text by done. destruct (prefix_b t s); [|done]. cbn [andb].
  destruct (drop (length t) s) as [|x r]; [done|]. cbn [run ends]. unfold orelse, whitespace, of_class, is_space. rewrite run_unit.
  by destruct (in_class false space x).
Qed.
Lemma class_here total s : match match_here false total (class_pattern name) s with Some _ => true | None => false end =
  ((length s =? total)%nat && starts t s) || match s with [] => false | x :: s => is_space x && starts t s end.
Proof.
  unfold match_here, class_pattern. cbn [all]. fold t. fold word. rewrite run_then.
  assert (E : run false total (Or AtStart whitespace) s ∅ (fun s c => run false total word s c (fun s' c' => Some (s', c'))) =
    orelse (if (length s =? total)%nat then run false total word s ∅ (fun s' c' => Some (s', c')) else None)
           (match s with [] => None | x :: s' => if is_space x then run false total word s' ∅ (fun s' c' => Some (s', c')) else None end)).
  { cbn [run]. by destruct s. }
  rewrite E. rewrite <- (run_word total s ∅). unfold orelse.
  destruct (length s =? total)%nat; cbn [andb].
  - destruct (run false total word s ∅ _) as [[]|]; [done|]. cbn [orb]. destruct s as [|x s]; [done|]. rewrite <- (run_word total s ∅).
    destruct (is_space x); [|done]. by destruct (run false total word s ∅ _) as [[]|].
  - destruct s as [|x s]; [done|]. rewrite <- (run_word total s ∅).
    destruct (is_space x); [|done]. by destruct (run false total word s ∅ _) as [[]|].
Qed.
Lemma class_search total s : (length s < total)%nat ->
  match search false total (class_pattern name) s with Some _ => true | None => false end = starts_later t s.
Proof.
  induction s as [|x s IH]; intros Hl; cbn [search starts_later].
  - pose proof (class_here total []) as H. rewrite (proj2 (Nat.eqb_neq _ _)) in H by lia.
    by destruct (match_here _ _ _ _) as [[[]]|].
  - pose proof (class_here total (x :: s)) as H. rewrite (proj2 (Nat.eqb_neq _ _)) in H by lia. cbn [andb orb] in H.
    rewrite <- IH by (cbn in Hl; lia). rewrite <- H.
    destruct (match_here _ _ _ _) as [[[]]|]; [done|]. by destruct (search _ _ _ s).
Qed.
Lemma class_test s : test false (class_pattern name) s = starts t s || starts_later t s.
Proof.
  unfold test, exec. pose proof (class_here (length s) s) as H. rewrite Nat.eqb_refl in H. destruct s as [|x s]; cbn [search].
  - cbn [starts_later andb] in *. rewrite orb_false_r in H. rewrite orb_false_r, <- H. by destruct (match_here _ _ _ _) as [[[]]|].
  - pose proof (class_search (length (x :: s)) s ltac:(cbn; lia)) as Hs. cbn [andb starts_later] in *.
    rewrite orb_assoc, <- H, <- Hs. destruct (match_here _ _ _ _) as [[[]]|]; [done|]. by destruct (search _ _ _ s).
Qed.
End ClassPattern.

Lemma class_words name s : Forall (fun x => is_space x = false) (literal_text name) ->
  test false (class_pattern name) s = bool_decide (literal_text name ∈ words s).
Proof. intros H. by rewrite class_test, elem_of_words. Qed.
