(* ===== verification/SizzleSelect.v ===== *)
(** * [html/resource/js/jquery.js]: Sizzle, from a selector to its elements

    The compilation of tokens, with the caches of tokens and of compiled selectors, and
    the ways to find the elements: the native methods for simple selectors, the native
    querySelectorAll, a seed set filtered from the right, all elements. [engine] ties the
    calls of compilation and search to each other, to a depth. *)

From Stdlib Require Import ZArith Lia.
From stdpp Require Import base tactics list numbers strings gmap.
From S2P Require Import Prelude JsValue Md5 ValidPage RegExec SizzleTokens Sizzle SizzleClass.
Local Open Scope Z_scope.
Local Open Scope sizzle_scope.

Section Compile.
Context {D : Document}.

(** [tokenize(selector)] *)
Definition tokenize (selector : jstr) : M (list (list token)) :=
  cache <- get tokenCache;;
  match cache_values cache !! selector with
  | Some groups => ret groups
  | None =>
      groups <- lift (tokens_of (fun t => match cache_values cache !! t with Some _ => true | None => false end) selector);;
      modify (fun s => with_tokenCache (cache_put selector groups (tokenCache s)) s);;;
      ret groups
  end.

Definition elementMatcher (matchers : list matcher) : matcher :=
  match matchers with [m] => m | _ => MElement matchers end.
(** [done++] *)
Definition next_done : M nat := n <- get doneNames;; modify (with_done (S n));;; ret n.
(** [setMatcher], whose last two arguments may be functions of an element. *)
Definition setMatcher (pre : option matcher) (selector : option jstr) (m : setm) (post finder : option compiled) (postSelector : jstr) : setm :=
  let wrap selector c := match c with Plain m => SSet (Some m) selector None None None | Marked s => s end in
  SSet pre selector (Some m) (wrap None <$> post) (wrap (Some postSelector) <$> finder).

Fixpoint until_combinator (tokens : list token) : list token * list token :=
  match tokens with
  | (Filter _ _ as t) :: tokens => let p := until_combinator tokens in (t :: p.1, p.2)
  | _ => ([], tokens)
  end.

(** The pseudos of the engine by their names. *)
Inductive builtin := BNot | BHas | BContains | BLang | BPosition (p : position) | BPlain (p : pseudo).
Definition builtins : list (jstr * builtin) :=
  map (fun p => (u p.1, p.2))
    [("not", BNot); ("has", BHas); ("contains", BContains); ("lang", BLang);
     ("target", BPlain Target); ("root", BPlain Root); ("focus", BPlain Focus); ("enabled", BPlain Enabled);
     ("disabled", BPlain Disabled); ("checked", BPlain Checked); ("selected", BPlain Selected); ("empty", BPlain Empty);
     ("parent", BPlain Parent); ("header", BPlain Header); ("input", BPlain Input); ("button", BPlain Button);
     ("text", BPlain Text); ("first", BPosition First); ("last", BPosition Last); ("eq", BPosition Eq);
     ("even", BPosition Even); ("odd", BPosition Odd); ("lt", BPosition Lt); ("gt", BPosition Gt); ("nth", BPosition Eq);
     ("radio", BPlain (InputType (u "radio"))); ("checkbox", BPlain (InputType (u "checkbox")));
     ("file", BPlain (InputType (u "file"))); ("password", BPlain (InputType (u "password")));
     ("image", BPlain (InputType (u "image"))); ("submit", BPlain (ButtonType (u "submit")));
     ("reset", BPlain (ButtonType (u "reset")))]%string.

(** [compile(selector)], for the argument of [:not]. *)
Context (compile : jstr -> M super).
Definition is_marked (s : super) : bool := match s with Super _ _ [] => false | _ => true end.

Definition make_builtin (b : builtin) (argument : option jstr) : M compiled :=
  match b with
  | BNot =>
      match argument with
      | Some t => s <- compile (trimmed t);; ret (if is_marked s then Marked (SNot s) else Plain (MNot s))
      | None => fail                                           (* undefined.replace *)
      end
  | BHas => ret (Plain (MHas argument))
  | BContains => ret (Plain (MPseudo (Contains (default (u "undefined") argument))))
  | BLang =>
      let lang := default [] argument in
      if test false ridentifier lang then ret (Plain (MPseudo (Lang (toLowerCase (unescape lang))))) else fail
  | BPosition p =>
      ret (Marked (SPosition p (match argument with Some t => str_to_num t | None => NaN end)))
  | BPlain p => ret (Plain (MPseudo p))
  end.
(** [Expr.filter.PSEUDO]: by the name as it is, then in lower case. *)
Definition filter_pseudo (name : jstr) (argument : option jstr) : M compiled :=
  let named n := match assoc n builtins with
                 | Some b => Some (make_builtin b argument)
                 | None => match custom n with
                           | Some _ => Some (ret (Plain (MPseudo (Custom n argument))))
                           | None => None
                           end
                 end in
  match named name with
  | Some m => m
  | None => match named (toLowerCase name) with Some m => m | None => fail end
  end.
(** [Expr.filter[type].apply(null, matches)] *)
Definition filter_of (f : filter_args) : M compiled :=
  match f with
  | TAG name => ret (Plain (if js_eqb name (u "*") then MAny else MTag (toLowerCase (unescape name))))
  | CLASS name => ret (Plain (MClass name))
  | ATTR name op check => ret (Plain (MAttr name op check))
  | CHILD type what xy => ret (Plain (MChild type what xy))
  | ID name => ret (Plain (MId name))
  | PSEUDO name argument => filter_pseudo name argument
  end.

(** [matcherFromTokens]; [fuel]: the number of tokens and one. *)
Fixpoint matcherFromTokens (fuel : nat) (tokens : list token) : M compiled :=
  match fuel, tokens with
  | O, _ => no_end
  | _, [] => fail
  | S fuel, t0 :: rest0 =>
      let leading := match t0 with Combinator _ r => Some r | Filter _ _ => None end in
      context <- next_done;;
      any <- next_done;;
      let first := MContext (match leading with Some _ => true | None => false end) (default Descendant leading) context any in
      (fix build (rest : list token) (i : nat) (matchers : list matcher) : M compiled :=
         match rest with
         | [] => ret (Plain (elementMatcher matchers))
         | Combinator _ r :: rest => n <- next_done;; build rest (S i) [MCombine r n (elementMatcher matchers)]
         | Filter _ f :: rest =>
             c <- filter_of f;;
             match c with
             | Plain m => build rest (S i) (matchers ++ [m])
             | Marked s =>
                 let '(middle, tail) := until_combinator rest in
                 post <- (match middle with [] => ret None | _ => c <- matcherFromTokens fuel middle;; ret (Some c) end);;
                 finder <- (match tail with [] => ret None | _ => c <- matcherFromTokens fuel tail;; ret (Some c) end);;
                 ret (Marked (setMatcher (if (0 <? i)%nat then Some (elementMatcher matchers) else None)
                                (if (0 <? i)%nat then Some (trimmed (toSelector (take i tokens))) else None)
                                s post finder (toSelector tail)))
             end
         end) (match leading with Some _ => rest0 | None => tokens end)
              (match leading with Some _ => 1 | None => 0 end)%nat [first]
  end.

(** The groups from the last to the first. *)
Fixpoint compile_groups (groups : list (list token)) (elementMatchers : list matcher) (setMatchers : list setm) :
    M (list matcher * list setm) :=
  match groups with
  | [] => ret (elementMatchers, setMatchers)
  | g :: groups =>
      c <- matcherFromTokens (S (length g)) g;;
      match c with
      | Plain m => compile_groups groups (elementMatchers ++ [m]) setMatchers
      | Marked s => compile_groups groups elementMatchers (setMatchers ++ [s])
      end
  end.
Definition matcherFromGroupMatchers (elementMatchers : list matcher) (setMatchers : list setm) : M super :=
  n <- get supers;;
  modify (fun s => with_super (S n) (<[n := 0]> (matcherCachedRuns s)) s);;;
  ret (Super n elementMatchers setMatchers).
Definition compile_with (selector : jstr) (group : option (list (list token))) : M super :=
  cache <- get compilerCache;;
  match cache_values cache !! selector with
  | Some s => ret s
  | None =>
      groups <- match group with Some g => ret g | None => tokenize selector end;;
      p <- compile_groups (rev groups) [] [];;
      s <- matcherFromGroupMatchers p.1 p.2;;
      modify (fun st => with_compilerCache (cache_put selector s (compilerCache st)) st);;;
      ret s
  end.
End Compile.

(** [compile(selector)]; [depth] bounds the selectors in [:not]. *)
Fixpoint compile {D : Document} (depth : nat) (selector : jstr) (group : option (list (list token))) : M super :=
  match depth with
  | O => no_end
  | S depth => compile_with (fun t => compile depth t None) selector group
  end.

Section Select.
Context {D : Document} (depth : nat).

(** [contains(a, b)] *)
Definition contains (a b : nat) : bool :=
  let adown := if nodeType a =? 9 then docElem else a in
  match parentNode b with
  | Some bup => (a =? bup)%nat || (is_element bup && native_contains adown bup)
  | None => false
  end.

(** [Expr.find[type](name, context)]; [None]: there is none, or it gives undefined. *)
Definition find_ID (name : jstr) (context : nat) : option (list nat) :=
  if (nodeType context =? 9) && negb documentIsXML
  then Some (match getElementById name with
             | Some m => match parentNode m with Some _ => [m] | None => [] end
             | None => []
             end)
  else None.
Definition find_in (f : filter_args) (context : nat) : option (list nat) :=
  match f with
  | ID name => find_ID (unescape name) context
  | TAG name => Some (getElementsByTagName (unescape name) context)
  | CLASS name => if documentIsXML then None else Some (getElementsByClassName (unescape name) context)
  | _ => None
  end.

Definition is_sibling (t : token) : bool := match t with Combinator _ (Adjacent | Sibling) => true | _ => false end.
Definition expanded (context : nat) (up : bool) : nat := if up then default context (parentNode context) else context.

(** The search for a seed set from the last token: the set and the tokens without its token. *)
Fixpoint find_seed (before after : list token) (up : bool) (context : nat) : option (list nat * list token) :=
  match before with
  | [] | Combinator _ _ :: _ => None
  | (Filter _ f as t) :: before =>
      match find_in f (expanded context up) with
      | Some seed => Some (seed, rev before ++ after)
      | None => find_seed before (t :: after) up context
      end
  end.

Section Searching.
Context (sizzle : jstr -> nat -> list nat -> M (list nat)).

(** The compiled function on a seed set or on all elements. *)
Definition compile_and_run (selector : jstr) (groups : list (list token)) (seed : option (list nat)) (context : nat)
    (results : list nat) : M (list nat) :=
  s <- compile depth selector (Some groups);;
  r <- run_super sizzle s (map Some <$> seed) (Node context) results (Some (test false rsibling selector));;
  ret r.2.

(** One group of tokens, with the text [selector]. *)
Definition select_from (context : nat) (selector : jstr) (tokens : list token) (results : list nat) : M (list nat) :=
  let up := match tokens with t :: _ => is_sibling t | [] => false end in
  match (if test true needsContext selector then None else find_seed (rev tokens) [] up context) with
  | Some ([], _) => ret results
  | Some (seed, tokens) =>
      match toSelector tokens with
      | [] => ret (results ++ seed)
      | selector => compile_and_run selector [tokens] (Some seed) context results
      end
  | None => compile_and_run selector [tokens] None context results
  end.
(** The context is set if the root selector is an ID. *)
Definition start_of (selector : jstr) (context : nat) (tokens : list token) : option (nat * jstr * list token) :=
  match tokens with
  | Filter v (ID name) :: Combinator _ _ :: _ :: _ =>
      if (nodeType context =? 9) && negb documentIsXML
      then match find_ID (unescape name) context with
           | Some (c :: _) => Some (c, drop (length v) selector, tail tokens)
           | _ => None
           end
      else Some (context, selector, tokens)
  | _ => Some (context, selector, tokens)
  end.
Definition select (selector : jstr) (context : nat) (results : list nat) (seed : option (list nat)) : M (list nat) :=
  groups <- tokenize selector;;
  match seed, groups with
  | None, [tokens] =>
      match start_of selector context tokens with
      | None => ret results
      | Some (context, selector, tokens) => select_from context selector tokens results
      end
  | _, _ => compile_and_run selector groups seed context results
  end.

(** ** The entry *)

Definition rquickExpr : re :=
  let name := many (of_class (word_units ++ [(45, 45)])) in
  all [AtStart; one_of [Then (chr 35) (Capture 1 name); Capture 2 (many (of_class word_units)); Then (chr 46) (Capture 3 name)]; AtEnd].

(** The shortcuts, where they have an answer. *)
Definition shortcut (selector : jstr) (context : nat) (results : list nat) : option (list nat) :=
  match exec false rquickExpr selector with
  | None => None
  | Some m =>
      match group 1 m, group 2 m with
      | (_ :: _) as name, _ =>
          if nodeType context =? 9 then
            match getElementById name with
            | Some e => match parentNode e with
                        | Some _ => if js_eqb (elem_id e) name then Some (results ++ [e]) else None
                        | None => Some results
                        end
            | None => Some results
            end
          else match getElementById name with
               | Some e => if contains context e && js_eqb (elem_id e) name then Some (results ++ [e]) else None
               | None => None
               end
      | [], _ :: _ => Some (results ++ getElementsByTagName selector context)
      | [], [] => Some (results ++ getElementsByClassName (group 3 m) context)
      end
  end.

Definition expando : jstr := u "sizzle-1".
(** querySelectorAll, on an element under an id that is set for it; [None]: there is no answer. *)
Definition native (selector : jstr) (context : nat) (results : list nat) : M (option (list nat)) :=
  let query ids c selector :=
    match querySelectorAll ids c selector with Some l => Some (results ++ l) | None => None end in
  if nodeType context =? 1 then
    if js_eqb (toLowerCase (nodeName context)) (u "object") then ret None else
    groups <- tokenize selector;;
    let old := default [] (getAttribute context (u "id")) in
    let nid := match old with [] => expando | _ => replace rescape (fun m => 92 :: matched m) old end in
    (match old with [] => modify (fun s => with_ids (<[context := expando]> (ids s)) s) | _ => ret tt end);;;
    finally
      (now <- get ids;;
       ret (query now (expanded context (test false rsibling selector))
              (join (u ",") (map (fun g => u "[id='" ++ nid ++ u "'] " ++ toSelector g) groups))))
      (match old with [] => modify (fun s => with_ids (delete context (ids s)) s) | _ => ret tt end)
  else now <- get ids;; ret (query now context selector).

Definition Sizzle_with (selector : jstr) (context : option nat) (results : list nat) (seed : option (list nat)) : M (list nat) :=
  let context := default O context in
  match selector with
  | [] => ret results
  | _ =>
      (* an empty array is returned then, and [results] stays what it is *)
      if negb ((nodeType context =? 1) || (nodeType context =? 9)) then ret results else
      let others := select (trimmed selector) context results seed in
      match seed with
      | Some _ => others
      | None =>
          if documentIsXML then others else
          match shortcut selector context results with
          | Some l => ret l
          | None =>
              if support_qsa && negb (rbuggyQSA selector) then
                r <- native selector context results;;
                match r with Some l => ret l | None => others end
              else others
          end
      end
  end.
End Searching.
End Select.

(** [Sizzle(selector, context, results, seed)]; [depth] bounds the searches of [:has] in each other. *)
Fixpoint Sizzle {D : Document} (depth : nat) (selector : jstr) (context : option nat) (results : list nat) (seed : option (list nat)) :
    M (list nat) :=
  match depth with
  | O => no_end
  | S depth =>
      Sizzle_with (S depth) (fun t c results => Sizzle depth t (Some c) results None) selector context results seed
  end.

(** [Sizzle.matches], which [jQuery.filter] uses. *)
Definition matches {D : Document} (depth : nat) (expr : jstr) (elements : list nat) : M (list nat) :=
  Sizzle depth expr None [] (Some elements).

(** ** A small document: the parents, names and attributes of its nodes *)

Definition entry : Type := option nat * jstr * list (jstr * jstr).
Section Small.
Context (nodes : list entry) (qsa : gmap nat jstr -> nat -> jstr -> option (list nat)).
Definition node_parent (n : nat) : option nat := match nodes !! n with Some (p, _, _) => p | None => None end.
Definition node_name (n : nat) : jstr := match nodes !! n with Some (_, s, _) => s | None => [] end.
Definition node_attr (n : nat) (a : jstr) : option jstr :=
  match nodes !! n with Some (_, _, l) => assoc a l | None => None end.
Definition node_type (n : nat) : Z :=
  match n with O => 9 | _ => match node_name n with 35 :: _ => 3 | _ => 1 end end.
Fixpoint within (fuel : nat) (top n : nat) : bool :=
  match fuel with
  | O => false
  | S fuel => match node_parent n with Some p => (p =? top)%nat || within fuel top p | None => false end
  end.
Definition below (top : nat) : list nat :=
  filter (fun n => within n top n = true /\ node_type n = 1) (seq 0 (length nodes)).
#[local] Instance small : Document := {|
  size := length nodes;
  parentNode := node_parent; nodeType := node_type; nodeName := node_name; getAttribute := node_attr;
  className n := default [] (node_attr n (u "class"));
  elem_id n := default [] (node_attr n (u "id"));
  elem_type n := node_attr n (u "type"); elem_href n := default [] (node_attr n (u "href"));
  elem_lang n := default [] (node_attr n (u "lang")); tabIndex _ := Some (-1);
  elem_disabled n := Some (match node_attr n (u "disabled") with Some _ => true | None => false end);
  elem_checked n := match node_attr n (u "checked") with Some _ => true | None => false end;
  elem_selected _ := None;
  textContent n := default [] (node_attr n (u "text"));
  docElem := 1; documentIsXML := false; activeElement := None; hasFocus := false; location_hash := [];
  getElementById i := head (filter (fun n => node_attr n (u "id") = Some i /\ node_type n = 1) (seq 0 (length nodes)));
  getElementsByTagName t top := filter (fun n => js_eqb t (u "*") || js_eqb (to_lower (node_name n)) (to_lower t) = true) (below top);
  getElementsByClassName c top := filter (fun n => c ∈ words (default [] (node_attr n (u "class")))) (below top);
  native_contains a b := (a =? b)%nat || within b a b;
  support_qsa := true; rbuggyQSA t := -1 <? index_of t (u ":focus"); querySelectorAll := qsa;
  toLowerCase := to_lower; custom _ := None |}.
End Small.
Definition no_qsa : gmap nat jstr -> nat -> jstr -> option (list nat) := fun _ _ _ => None.

(** A page: html > body > (div#a.x > (p, p.y, span.y), div > p.y.z > b, ul > li * 4). *)
Definition page1 : list entry :=
  [(None, u "#document", []); (Some 0%nat, u "HTML", []); (Some 1%nat, u "BODY", []);
   (Some 2%nat, u "DIV", [(u "id", u "a"); (u "class", u "x")]);
   (Some 3%nat, u "P", []); (Some 3%nat, u "P", [(u "class", u "y")]); (Some 3%nat, u "SPAN", [(u "class", u "y")]);
   (Some 2%nat, u "DIV", []); (Some 7%nat, u "P", [(u "class", u "y z")]); (Some 8%nat, u "B", []);
   (Some 2%nat, u "UL", []); (Some 10%nat, u "LI", []); (Some 10%nat, u "#text", []); (Some 10%nat, u "LI", []);
   (Some 10%nat, u "LI", [(u "title", u "t-1")]); (Some 10%nat, u "LI", [])].
Definition found (page : list entry) (selector : string) (context : option nat) : option (list nat) :=
  match @Sizzle (small page no_qsa) 5 (u selector) context [] None state0 with
  | Some (_, Good l) => Some l
  | _ => None
  end.
Example found_ex :
  map (fun s => found page1 s None)
    ["p"; "#a > p, .z"; "div p ~ .y"; "div p + p"; "li:nth-child(2n+1)"; "li:not(:first-child)"; "p:first"; "p:eq(1), b";
     "div:has(b)"; "li[title|='t']"; "li:nth-last-child(2)"; "li:gt(0):lt(2)"; "div:first p"; "div:not(#a) b"; "body > :not(div, ul)"; "li:frst"]%string =
  [Some [4; 5; 8]; Some [4; 5; 8]; Some [5; 6]; Some [5]; Some [11; 14]; Some [13; 14; 15]; Some [4]; Some [5; 9];
   Some [7]; Some [14]; Some [14]; Some [13; 14]; Some [4; 5]; Some [9]; Some []; None]%nat /\
  found page1 "> p" (Some 3%nat) = Some [4; 5]%nat /\ found page1 "div p" (Some 3%nat) = Some [] /\
  found page1 "+ div b" (Some 3%nat) = Some [9]%nat.
Proof. vm_compute. repeat split. Qed.
