(* ===== verification/SizzleSpec.v ===== *)
(** * Sizzle: what a compiled selector means

    [sem] evaluates the function that the engine compiled without its caches, on the tree
    alone, for the shapes of functions that compilation makes without [:has] and
    positions. *)

From Stdlib Require Import ZArith Lia.
From stdpp Require Import base tactics list numbers strings gmap.
From S2P Require Import Prelude JsValue ValidPage RegExec SizzleTokens Sizzle SizzleSelect.
Local Open Scope Z_scope.

(** A tree in document order. *)
Class DocumentLaws (D : Document) := {
  parent_before n p : parentNode n = Some p -> (p < n)%nat;
  node_in_size n p : parentNode n = Some p -> (n < size)%nat
}.

Section Paths.
Context {D : Document} {L : DocumentLaws D}.

Fixpoint path_from (fuel : nat) (step : nat -> option nat) (n : nat) : list nat :=
  match fuel with
  | O => []
  | S fuel => match step n with Some m => m :: path_from fuel step m | None => [] end
  end.
(** The nodes above an element or before it, the closest first. *)
Definition path (d : dirn) (n : nat) : list nat := path_from n (along d) n.

Lemma last_filter_lt l n m : last (filter (fun m => (m < n)%nat) l) = Some m -> (m < n)%nat.
Proof. intros H%last_Some_elem_of. by apply list_elem_of_filter in H as [H _]. Qed.
Lemma along_before d n m : along d n = Some m -> (m < n)%nat.
Proof. destruct d; cbn; [apply parent_before|apply last_filter_lt]. Qed.

Lemma path_from_enough d fuel n : (n <= fuel)%nat -> path_from fuel (along d) n = path d n.
Proof.
  unfold path. revert fuel. induction (lt_wf n) as [n _ IH]. intros fuel Hf.
  destruct n as [|n].
  - destruct fuel; cbn; [done|]. destruct (along d 0) eqn:E; [apply along_before in E; lia|done].
  - destruct fuel as [|fuel]; [lia|]. cbn. destruct (along d (S n)) as [m|] eqn:E; [|done].
    apply along_before in E as Hm. f_equal. rewrite (IH m) by lia. symmetry. apply IH; lia.
Qed.
Lemma path_eq d n : path d n = match along d n with Some m => m :: path d m | None => [] end.
Proof.
  unfold path at 1. destruct n as [|n]; cbn.
  - destruct (along d 0) eqn:E; [apply along_before in E; lia|done].
  - destruct (along d (S n)) as [m|] eqn:E; [|done]. apply along_before in E as Hm. by rewrite path_from_enough by lia.
Qed.
Lemma path_before d n x : x ∈ path d n -> (x < n)%nat.
Proof.
  induction (lt_wf n) as [n _ IH]. rewrite path_eq. destruct (along d n) as [m|] eqn:E; [|by intros ?%not_elem_of_nil].
  apply along_before in E as Hm. intros [->|H]%elem_of_cons; [done|]. specialize (IH m Hm H). lia.
Qed.
(** What [addCombinator] looks at. *)
Definition counted (nonElements : bool) (x : nat) : bool := is_element x || nonElements.
Definition counted_path (d : dirn) (nonElements : bool) (n : nat) : list nat :=
  filter (fun x => counted nonElements x = true) (path d n).
Lemma counted_path_eq d ne n : counted_path d ne n =
  match along d n with Some m => if counted ne m then m :: counted_path d ne m else counted_path d ne m | None => [] end.
Proof.
  unfold counted_path. rewrite path_eq. destruct (along d n) as [m|]; [|done]. rewrite filter_cons.
  destruct (counted ne m) eqn:E; [by rewrite decide_True|by rewrite decide_False].
Qed.

(** The elements that a combinator goes to. *)
Definition targets (r : relative) (nonElements : bool) (n : nat) : list nat :=
  let l := counted_path (dir_of r) nonElements n in if first_of r then take 1 l else l.
Definition base_of (r : relative) : bool := bool_decide (dir_of r = parentNode_).
End Paths.

(** ** The meaning of what is compiled *)

Section Meaning.
Context {D : Document}.

(** The position of an element among its siblings of a kind, from the front or the back. *)
Definition kin (ofType : bool) (e n : nat) : bool :=
  if ofType then js_eqb (toLowerCase (nodeName n)) (toLowerCase (nodeName e)) else is_element n.
Definition kin_before (ofType : bool) (e : nat) : list nat :=
  filter (fun n => kin ofType e n = true /\ (n < e)%nat) (siblings_of e).
Definition kin_after (ofType : bool) (e : nat) : list nat :=
  filter (fun n => kin ofType e n = true /\ (e < n)%nat) (siblings_of e).
Definition sem_child (type what : jstr) (xy : option (Z * Z)) (e : nat) : bool :=
  let ofType := js_eqb what (u "of-type") in
  let before := length (kin_before ofType e) in
  let after := length (kin_after ofType e) in
  let from_end := js_eqb (slice_end 4 type) (u "last") in
  match parentNode e with
  | None => false
  | Some _ =>
      if bool_decide (xy = Some (1, 0)) then true
      else if js_eqb (take 3 type) (u "nth") then
        let '(x, y) := default (0, 0) xy in in_cycle x y (Z.of_nat (if from_end then after else before) + 1)
      else if from_end then (after =? 0)%nat
      else (before =? 0)%nat && (negb (js_eqb type (u "only")) || (after =? 0)%nat)
  end.

Definition sem_context (o : outermost) (leading : bool) (r : relative) (e : nat) (c : ctx) : bool :=
  if negb leading && (documentIsXML || negb (same_context c o)) then true else
  match c with
  | Node n => bool_decide (n ∈ targets r (base_of r) e)
  | NodeList l => existsb (fun x => bool_decide (x ∈ l)) (targets r (base_of r) e)
  | NoContext => false
  end.

Fixpoint sem (o : outermost) (m : matcher) (c : ctx) (e : nat) {struct m} : bool :=
  match m with
  | MAny => true
  | MTag name => filter_tag name e
  | MClass name => filter_class name e
  | MAttr name op check => filter_attr name op check e
  | MChild type what xy => sem_child type what xy e
  | MId name => filter_id name e
  | MPseudo p => default false (run_pseudo p e)
  | MHas _ => false
  | MNot s => negb (sem_super o s NoContext e)
  | MContext leading r _ _ => sem_context o leading r e c
  | MCombine r _ m => existsb (sem o m c) (targets r false e)
  | MElement ms => (fix all_of (ms : list matcher) : bool := match ms with [] => true | m :: ms => all_of ms && sem o m c e end) ms
  end
with sem_super (o : outermost) (s : super) (c : ctx) (e : nat) {struct s} : bool :=
  match s with
  | Super _ ms _ => (fix any_of (ms : list matcher) : bool := match ms with [] => false | m :: ms => sem o m c e || any_of ms end) ms
  end.

(** The numbers of the combinators of a matcher: its own, which lie on the way to the
    context, and all. *)
Fixpoint own (m : matcher) : list nat :=
  match m with
  | MContext _ _ k k' => [k; k']
  | MCombine _ k m => k :: own m
  | MElement (m :: _) => own m
  | _ => []
  end.
Fixpoint numbers (m : matcher) : list nat :=
  match m with
  | MContext _ _ k k' => [k; k']
  | MCombine _ k m => k :: numbers m
  | MElement ms => (fix all (ms : list matcher) : list nat := match ms with [] => [] | m :: ms => numbers m ++ all ms end) ms
  | MNot s => super_numbers s
  | _ => []
  end
with super_numbers (s : super) : list nat :=
  match s with
  | Super _ ms _ => (fix all (ms : list matcher) : list nat := match ms with [] => [] | m :: ms => numbers m ++ all ms end) ms
  end.
Definition all_numbers (ms : list matcher) : list nat := super_numbers (Super 0 ms []).
End Meaning.

(** ** The matchers that compilation makes of selectors without [:has] and positions

    [alone]: the matcher of a filter, which looks at one element; [linked]: the way to the
    context first, then the filters of the element. [free]: inside [:not], where there is
    no context, so that no group starts with a combinator. *)
Inductive alone : matcher -> Prop :=
  | alone_any : alone MAny
  | alone_tag n : alone (MTag n)
  | alone_class n : alone (MClass n)
  | alone_attr n op check : alone (MAttr n op check)
  | alone_child t w xy : alone (MChild t w xy)
  | alone_id n : alone (MId n)
  | alone_pseudo p : alone (MPseudo p)
  | alone_not n ms : grouped true ms -> alone (MNot (Super n ms []))
with linked : bool -> matcher -> Prop :=
  | linked_context free leading r k k' : (free && leading = false) -> linked free (MContext leading r k k')
  | linked_combine free r k m : linked free m -> k ∉ numbers m -> linked free (MCombine r k m)
  | linked_element free m ms : linked free m -> filters ms -> own m ## all_numbers ms -> linked free (MElement (m :: ms))
with filters : list matcher -> Prop :=
  | filters_nil : filters []
  | filters_cons m ms : alone m -> filters ms -> filters (m :: ms)
with grouped : bool -> list matcher -> Prop :=
  | grouped_nil free : grouped free []
  | grouped_cons free m ms : linked free m -> grouped free ms ->
      own m ## all_numbers ms -> flat_map own ms ## numbers m -> grouped free (m :: ms).
Scheme alone_mind := Minimality for alone Sort Prop
  with linked_mind := Minimality for linked Sort Prop
  with filters_mind := Minimality for filters Sort Prop
  with grouped_mind := Minimality for grouped Sort Prop.
Combined Scheme shape_ind from alone_mind, linked_mind, filters_mind, grouped_mind.
