(* ===== verification/SizzleFrame.v ===== *)
(** * Sizzle: what a run keeps of the state

    [yields] is the post-condition of a computation that returns. [tidy] is the invariant
    of the caches between searches; [frame] relates the states before and after a matcher
    has run on an element; [comb_ok] says of the entries of a combinator that they are
    true. *)

From Stdlib Require Import ZArith Lia.
From stdpp Require Import base tactics list numbers strings gmap.
From S2P Require Import Prelude JsValue ValidPage RegExec SizzleTokens Sizzle SizzleSelect SizzleSpec.
Local Open Scope Z_scope.
Local Open Scope sizzle_scope.

(** ** Computations that return *)

Definition yields {A} (m : M A) (s : state) (Q : A -> state -> Prop) : Prop :=
  exists a s', m s = Some (s', Good a) /\ Q a s'.
Lemma yields_ret {A} (a : A) s (Q : A -> state -> Prop) : Q a s -> yields (ret a) s Q.
Proof. intros H. by exists a, s. Qed.
Lemma yields_bind {A B} (m : M A) (k : A -> M B) s (P : A -> state -> Prop) (Q : B -> state -> Prop) :
  yields m s P -> (forall a s', P a s' -> yields (k a) s' Q) -> yields (bind m k) s Q.
Proof. intros (a & s' & E & Ha) H. destruct (H a s' Ha) as (b & s'' & E' & Hb). exists b, s''. unfold bind. by rewrite E. Qed.
Lemma yields_mono {A} (m : M A) s (P Q : A -> state -> Prop) : yields m s P -> (forall a s', P a s' -> Q a s') -> yields m s Q.
Proof. intros (a & s' & E & Ha) H. exists a, s'. auto. Qed.
Lemma yields_get {A B} (f : state -> A) (k : A -> M B) s Q : yields (k (f s)) s Q -> yields (bind (get f) k) s Q.
Proof. done. Qed.
Lemma yields_modify {B} f (k : unit -> M B) s Q : yields (k tt) (f s) Q -> yields (bind (modify f) k) s Q.
Proof. done. Qed.
Lemma yields_pure {A B} (a : A) (k : A -> M B) s Q : yields (k a) s Q -> yields (bind (ret a) k) s Q.
Proof. done. Qed.

(** ** Numbers of runs *)

Definition extends (v0 v : runs) : Prop := whole v = whole v0 /\ exists l, added v = added v0 ++ l.
#[export] Instance extends_preorder : PreOrder extends.
Proof.
  split; [intros v; split; [done|]; exists []; by rewrite app_nil_r|].
  intros a b c [H1 (l1 & H2)] [H3 (l2 & H4)]. split; [congruence|]. exists (l1 ++ l2). rewrite H4, H2. by rewrite app_assoc.
Qed.
Definition known (s : state) (v : runs) : Prop := whole v <= whole (dirruns s) /\ Forall (fun i => (i < draws s)%nat) (added v).

(** An array that a node has for a direction. *)
Definition has_entry (s : state) (p : nat * dirn) (a : cache_array) : Prop :=
  exists j, slots s !! p = Some j /\ arrays s !! j = Some a.

(** The caches between searches: every key is of a run that began. *)
Record tidy (s : state) : Prop := {
  t_slots p j : slots s !! p = Some j -> exists a, arrays s !! j = Some a /\ known s (dirkey a).1;
  t_nth p t v i d : nth_of s !! (p, t) = Some (v, i, d) -> known s v;
  t_last n t v d : last_of s !! (n, t) = Some (v, d) -> known s v;
  t_now : known s (dirruns s)
}.

(** ** The indexes of [:nth-child] *)

Section Frame.
Context {D : Document}.

Definition elements_upto (p : nat) (i : nat) : nat := length (filter (fun n => is_element n = true) (take (S i) (childNodes p))).
Definition nth_right (p : nat) (i d : Z) : Prop :=
  0 <= i /\ (Z.to_nat i < length (childNodes p))%nat /\ d = Z.of_nat (elements_upto p (Z.to_nat i)).
Definition last_right (n : nat) (d : Z) : Prop := d = Z.of_nat (length (kin_after false n)) + 1.
Definition kids_right (v0 : runs) (s : state) : Prop :=
  (forall p t v i d, nth_of s !! (p, t) = Some (v, i, d) -> extends v0 v -> nth_right p i d) /\
  (forall n t v d, last_of s !! (n, t) = Some (v, d) -> extends v0 v -> last_right n d).

(** ** What a run on an element changes *)

Record frame (ks : list nat) (e : nat) (s s' : state) : Prop := {
  f_arrays i : (i < length (arrays s))%nat -> arrays s' !! i = arrays s !! i;
  f_slots x d j : slots s' !! (x, d) = Some j ->
    slots s !! (x, d) = Some j \/
    ((length (arrays s) <= j)%nat /\ (x < e)%nat /\ exists a, arrays s' !! j = Some a /\ (dirkey a).2 ∈ ks);
  f_nth p t v i d : nth_of s' !! (p, t) = Some (v, i, d) -> nth_of s !! (p, t) = Some (v, i, d) \/ nth_right p i d;
  f_last n t v d : last_of s' !! (n, t) = Some (v, d) -> last_of s !! (n, t) = Some (v, d) \/ last_right n d;
  f_runs : cachedruns s' = cachedruns s;
  f_out : outermostContext s' = outermostContext s;
  f_dirruns : extends (dirruns s) (dirruns s');
  f_draws : (draws s <= draws s')%nat;
  f_matcher : matcherCachedRuns s' = matcherCachedRuns s;
  f_supers : supers s' = supers s;
  f_done : doneNames s' = doneNames s;
  f_tokens : tokenCache s' = tokenCache s;
  f_compiled : compilerCache s' = compilerCache s;
  f_ids : ids s' = ids s
}.
Lemma frame_refl ks e s : frame ks e s s.
Proof. split; try done; try by left. Qed.
Lemma frame_trans ks e ks1 e1 ks2 e2 s1 s2 s3 : frame ks1 e1 s1 s2 -> frame ks2 e2 s2 s3 ->
  ks1 ⊆ ks -> ks2 ⊆ ks -> (e1 <= e)%nat -> (e2 <= e)%nat -> frame ks e s1 s3.
Proof.
  intros H1 H2 K1 K2 E1 E2.
  assert (Hlen : (length (arrays s1) <= length (arrays s2))%nat).
  { destruct (decide (length (arrays s1) = 0)%nat) as [->|Hn]; [lia|].
    assert (is_Some (arrays s2 !! pred (length (arrays s1)))) as Hs%lookup_lt_is_Some; [|lia].
    rewrite (f_arrays _ _ _ _ H1) by lia. apply lookup_lt_is_Some. lia. }
  split; try (etrans; [by eapply f_runs|by eapply f_runs]).
  - intros i Hi. rewrite (f_arrays _ _ _ _ H2) by lia. by apply (f_arrays _ _ _ _ H1).
  - intros x d j [H|(Hl & Hx & a & Ha & Hk)]%(f_slots _ _ _ _ H2).
    + apply (f_slots _ _ _ _ H1) in H as [H|(Hl & Hx & a & Ha & Hk)]; [by left|]. right. split; [done|]. split; [lia|].
      exists a. split; [|set_solver]. rewrite (f_arrays _ _ _ _ H2); [done|]. by apply lookup_lt_Some in Ha.
    + right. split; [lia|]. split; [lia|]. exists a. split; [done|set_solver].
  - intros p t v i d [H|H]%(f_nth _ _ _ _ H2); [by apply (f_nth _ _ _ _ H1) in H|by right].
  - intros n t v d [H|H]%(f_last _ _ _ _ H2); [by apply (f_last _ _ _ _ H1) in H|by right].
  - rewrite (f_out _ _ _ _ H2). apply H1.
  - etrans; [apply H1|apply H2].
  - pose proof (f_draws _ _ _ _ H1). pose proof (f_draws _ _ _ _ H2). lia.
  - rewrite (f_matcher _ _ _ _ H2). apply H1.
  - rewrite (f_supers _ _ _ _ H2). apply H1.
  - rewrite (f_done _ _ _ _ H2). apply H1.
  - rewrite (f_tokens _ _ _ _ H2). apply H1.
  - rewrite (f_compiled _ _ _ _ H2). apply H1.
  - rewrite (f_ids _ _ _ _ H2). apply H1.
Qed.
Lemma frame_weaken ks ks' e e' s s' : frame ks e s s' -> ks ⊆ ks' -> (e <= e')%nat -> frame ks' e' s s'.
Proof. intros H K E. eapply frame_trans; [exact H|apply frame_refl with (ks := ks') (e := e')|..]; done. Qed.

Lemma known_frame ks e s s' v : frame ks e s s' -> known s v -> known s' v.
Proof.
  intros H [H1 H2]. destruct (f_dirruns _ _ _ _ H) as [Hw _]. split; [lia|].
  eapply Forall_impl; [exact H2|]. cbn. pose proof (f_draws _ _ _ _ H). lia.
Qed.
Lemma kids_frame ks e v0 s s' : frame ks e s s' -> kids_right v0 s -> kids_right v0 s'.
Proof.
  intros H [K1 K2]. split.
  - intros p t v i d [Hn|Hn]%(f_nth _ _ _ _ H); [eauto|done].
  - intros n t v d [Hn|Hn]%(f_last _ _ _ _ H); [eauto|done].
Qed.

(** States in which the matchers of a run work: the run began at [v0], the outermost
    context is [o]. *)
Record good (v0 : runs) (o : outermost) (s : state) : Prop := {
  g_tidy : tidy s;
  g_kids : kids_right v0 s;
  g_now : extends v0 (dirruns s);
  g_out : outermostContext s = o;
  g_set : o <> Unset
}.

(** ** The entries of a combinator *)

(** No entries but those of [ks] are new. *)
Definition only (ks : list nat) (s s' : state) : Prop :=
  cachedruns s' = cachedruns s /\ forall p a, has_entry s' p a -> (dirkey a).2 ∉ ks -> has_entry s p a.
Lemma frame_entry ks e s s' x d a : frame ks e s s' -> tidy s -> has_entry s' (x, d) a ->
  has_entry s (x, d) a \/ ((x < e)%nat /\ (dirkey a).2 ∈ ks).
Proof.
  intros H T (j & Hs & Ha). apply (f_slots _ _ _ _ H) in Hs as [Hs|(Hl & Hx & b & Hb & Hk)].
  - left. exists j. split; [done|]. destruct (t_slots _ T _ _ Hs) as (b & Hb & _). apply lookup_lt_Some in Hb as Hlt.
    by rewrite <- (f_arrays _ _ _ _ H).
  - right. rewrite Hb in Ha. by injection Ha as ->.
Qed.
Lemma frame_only ks e s s' : frame ks e s s' -> tidy s -> only ks s s'.
Proof.
  intros H T. split; [apply H|]. intros [x d] a Ha Hk. by apply (frame_entry _ _ _ _ _ _ _ H T) in Ha as [Ha|[_ ?]].
Qed.

(** What the combinator number [k] has kept is true: [f] is what it looks for. Where [P]
    holds, a failure of the present run has been followed to the end. *)
Definition comb_ok (P : nat -> Prop) (v0 : runs) (k : nat) (d : dirn) (ne : bool) (f : nat -> bool) (s : state) : Prop :=
  forall x a, has_entry s (x, d) a -> extends v0 (dirkey a).1 -> (dirkey a).2 = k ->
    match result_of a with
    | Some Matched => f x = true
    | Some (Failed n) => f x = false /\ n <= cachedruns s /\ (P x -> n = cachedruns s -> existsb f (counted_path d ne x) = false)
    | None => False
    end.
Lemma comb_ok_only P v0 k d ne f ks s s' : only ks s s' -> k ∉ ks -> comb_ok P v0 k d ne f s -> comb_ok P v0 k d ne f s'.
Proof. intros [Hr Ho] Hk H x a Ha Hv <-. rewrite Hr. apply H; auto. Qed.
Lemma comb_ok_mono (P P' : nat -> Prop) v0 k d ne f s : (forall x, P' x -> P x) -> comb_ok P v0 k d ne f s -> comb_ok P' v0 k d ne f s.
Proof. intros HP H x a Ha Hv Hk. specialize (H x a Ha Hv Hk). destruct (result_of a) as [[|n]|]; naive_solver. Qed.

(** The invariant of the own combinators of a matcher; [strong]: no failure of the present
    run is unfinished. *)
Definition every (strong : bool) : nat -> Prop := fun _ => strong = true.
Fixpoint inv (strong : bool) (v0 : runs) (o : outermost) (c : ctx) (m : matcher) (s : state) : Prop :=
  match m with
  | MContext leading r k _ =>
      match c with
      | Node n => comb_ok (every strong) v0 k (dir_of r) (base_of r) (fun x => (x =? n)%nat) s
      | _ => True
      end
  | MCombine r k m => comb_ok (every strong) v0 k (dir_of r) false (sem o m c) s /\ inv strong v0 o c m s
  | MElement (m :: _) => inv strong v0 o c m s
  | _ => True
  end.
Lemma every_false x : every false x -> False.
Proof. discriminate. Qed.
(** Induction along the own combinators. *)
Lemma head_ind (P : matcher -> Prop) :
  (forall m, match m with MCombine _ _ _ | MElement (_ :: _) => False | _ => True end -> P m) ->
  (forall r k m, P m -> P (MCombine r k m)) -> (forall m ms, P m -> P (MElement (m :: ms))) -> forall m, P m.
Proof.
  intros H0 H1 H2. fix IH 1. intros m. destruct m as [| | | | | | | | | |r k m|[|m ms]];
    [apply H0; exact I..|apply H1, IH|apply H0; exact I|apply H2, IH].
Qed.
Lemma inv_only strong v0 o c m ks s s' : only ks s s' -> own m ## ks -> inv strong v0 o c m s -> inv strong v0 o c m s'.
Proof.
  intros Ho. induction m as [m Hm|r k m IH|m ms IH] using head_ind; intros Hk; cbn in *.
  - destruct m as [| | | | | | | | |lead r k k'| |[]]; try done. destruct c; [done| |done].
    apply comb_ok_only with ks; [done|set_solver].
  - intros [H1 H2]. split; [|apply IH; [set_solver|done]]. eapply comb_ok_only; [done| |done]. set_solver.
  - by apply IH.
Qed.
Lemma inv_weak strong v0 o c m s : inv strong v0 o c m s -> inv false v0 o c m s.
Proof.
  induction m as [m Hm|r k m IH|m ms IH] using head_ind; cbn in *.
  - destruct m as [| | | | | | | | |lead r k k'| |[]]; try done. destruct c; [done| |done]. apply comb_ok_mono. by intros x ?%every_false.
  - intros [H1 H2]. split; [eapply comb_ok_mono; [|done]; by intros x ?%every_false|by apply IH].
  - by apply IH.
Qed.
(** Before anything is kept under the numbers of a run. *)
Definition unused (v0 : runs) (s : state) : Prop := forall p a, has_entry s p a -> extends v0 (dirkey a).1 -> False.
Lemma inv_unused v0 o c m s : unused v0 s -> inv true v0 o c m s.
Proof.
  intros Hu. induction m as [m Hm|r k m IH|m ms IH] using head_ind; cbn in *.
  - destruct m as [| | | | | | | | |lead r k k'| |[]]; try done. destruct c; [done| |done].
    intros x a Ha Hv _. by destruct (Hu _ _ Ha).
  - split; [|done]. intros x a Ha Hv _. by destruct (Hu _ _ Ha).
  - done.
Qed.
End Frame.
