(* ===== verification/SizzleChild.v ===== *)
(** * Sizzle: [:nth-child] and its like

    The search with its indexes kept on the parent, or on the siblings, computes the
    position of the element; [run_child_ok] says that the filter is [sem_child], whatever
    the caches of the run hold. *)

From Stdlib Require Import ZArith Lia Sorted.
From stdpp Require Import base tactics list numbers strings gmap.
From S2P Require Import Prelude JsValue ValidPage RegExec SizzleTokens Sizzle SizzleSelect SizzleSpec SizzleFrame.
Local Open Scope Z_scope.
Local Open Scope sizzle_scope.

Lemma rev_is_reverse {A} (l : list A) : rev l = reverse l.
Proof. apply rev_alt. Qed.

Section Child.
Context {D : Document} {L : DocumentLaws D}.

(** ** The children in order *)

Lemma sorted_filter_seq (P : nat -> Prop) `{!forall n, Decision (P n)} a n : StronglySorted Nat.lt (filter P (seq a n)).
Proof.
  revert a. induction n as [|n IH]; intros a; cbn [seq]; [constructor|]. rewrite filter_cons. case_decide; [|apply IH].
  constructor; [apply IH|]. apply Forall_forall. intros x Hx. apply list_elem_of_filter in Hx as [_ Hx].
  apply list_elem_of_In, in_seq in Hx. lia.
Qed.
Lemma children_sorted p : StronglySorted Nat.lt (childNodes p).
Proof. apply sorted_filter_seq. Qed.
Lemma in_children n p : n ∈ childNodes p <-> parentNode n = Some p.
Proof.
  unfold childNodes. rewrite list_elem_of_filter. split; [by intros [H _]|intros H; split; [done|]].
  apply list_elem_of_In, in_seq. apply node_in_size in H. lia.
Qed.
Lemma siblings_children n p : parentNode n = Some p -> siblings_of n = childNodes p.
Proof. intros H. unfold siblings_of. by rewrite H. Qed.

(** The siblings before and after the element in a list in order. *)
Lemma filter_before l1 e l2 : StronglySorted Nat.lt (l1 ++ e :: l2) -> filter (fun m => (m < e)%nat) (l1 ++ e :: l2) = l1.
Proof.
  induction l1 as [|x l1 IH]; cbn [app]; intros H; apply StronglySorted_inv in H as [H Hf]; rewrite filter_cons.
  - rewrite decide_False by lia. clear -Hf. induction Hf as [|x l Hx Hf IH]; [done|]. rewrite filter_cons, decide_False; [done|lia].
  - rewrite decide_True; [by rewrite IH|]. rewrite Forall_forall in Hf. apply Hf. set_solver.
Qed.
Lemma filter_after l1 e l2 : StronglySorted Nat.lt (l1 ++ e :: l2) -> filter (fun m => (e < m)%nat) (l1 ++ e :: l2) = l2.
Proof.
  induction l1 as [|x l1 IH]; cbn [app]; intros H; apply StronglySorted_inv in H as [H Hf]; rewrite filter_cons.
  - rewrite decide_False by lia. clear -Hf. induction Hf as [|x l Hx Hf IH]; [done|]. rewrite filter_cons, decide_True; [by rewrite IH|done].
  - rewrite decide_False; [by rewrite IH|]. rewrite Forall_forall in Hf. specialize (Hf e ltac:(set_solver)). lia.
Qed.

(** ** The search *)

(** A list in the order in which [step] goes. *)
Record ordered (l : list nat) (step : nat -> option nat) : Prop := {
  o_step i n : l !! i = Some n -> step n = l !! S i;
  o_once : NoDup l
}.
Definition before_index (counts : nat -> bool) (l : list nat) (k : nat) : nat :=
  length (filter (fun n => counts n = true) (take k l)).
Lemma before_index_S counts l k n : l !! k = Some n ->
  before_index counts l (S k) = (before_index counts l k + if counts n then 1 else 0)%nat.
Proof.
  intros H. unfold before_index. rewrite (take_S_r _ _ _ H), filter_app, length_app. f_equal.
  rewrite filter_cons. destruct (counts n); [by rewrite decide_True|by rewrite decide_False].
Qed.

Section Seek.
Context (l : list nat) (step : nat -> option nat) (counts : nat -> bool) (visit : nat -> Z -> Z -> M unit).
Context (e : nat) (j : nat) (Inv : state -> Prop).
Context (Hl : ordered l step) (He : l !! j = Some e) (Hc : counts e = true).
Context (Hvisit : forall s i n, Inv s -> l !! i = Some n -> counts n = true ->
  yields (visit n (Z.of_nat i) (Z.of_nat (before_index counts l (S i)))) s (fun _ s' => Inv s')).
Let result (r : Z * Z) (s : state) : Prop := r = (Z.of_nat j, Z.of_nat (before_index counts l (S j))) /\ Inv s.

(** The node at index [k] is looked at. *)
Lemma look_at fuel k n start s : l !! k = Some n -> Inv s ->
  (n <> e -> forall s', Inv s' -> yields (seek fuel step counts visit e (Some n) (Z.of_nat k) (Z.of_nat (before_index counts l (S k))) start) s' result) ->
  yields (if counts n
          then visit n (Z.of_nat k) (Z.of_nat (before_index counts l k) + 1);;;
               (if (n =? e)%nat then ret (Z.of_nat k, Z.of_nat (before_index counts l k) + 1)
                else seek fuel step counts visit e (Some n) (Z.of_nat k) (Z.of_nat (before_index counts l k) + 1) start)
          else seek fuel step counts visit e (Some n) (Z.of_nat k) (Z.of_nat (before_index counts l k)) start) s result.
Proof.
  intros Hk Hs H. pose proof (before_index_S counts l k n Hk) as Hb. destruct (counts n) eqn:E.
  - assert (Z.of_nat (before_index counts l k) + 1 = Z.of_nat (before_index counts l (S k))) as -> by lia.
    eapply yields_bind; [by apply Hvisit|]. intros ? s' Hs'. cbn in Hs' |- *. destruct (n =? e)%nat eqn:En.
    + apply Nat.eqb_eq in En as ->. apply yields_ret. split; [|done].
      assert (k = j) as -> by (eapply NoDup_lookup; [apply Hl|done|done]). done.
    + apply Nat.eqb_neq in En. by apply H.
  - assert (before_index counts l k = before_index counts l (S k)) as -> by lia. apply H; [|done]. congruence.
Qed.

Lemma seek_forward fuel k n start s : l !! k = Some n -> (k < j)%nat -> (j - k <= fuel)%nat -> Inv s ->
  yields (seek fuel step counts visit e (Some n) (Z.of_nat k) (Z.of_nat (before_index counts l (S k))) start) s result.
Proof.
  revert k n s. induction fuel as [|fuel IH]; intros k n s Hk Hj Hf Hs; [lia|]. cbn [seek].
  rewrite (o_step _ _ Hl _ _ Hk). assert (is_Some (l !! S k)) as [m Hm].
  { apply lookup_lt_is_Some. apply lookup_lt_Some in He. lia. }
  rewrite Hm. replace (Z.of_nat k + 1) with (Z.of_nat (S k)) by lia. apply look_at; [done|done|].
  intros Hne s' Hs'. assert (S k <> j) by (intros <-; congruence). apply IH; [done|lia|lia|done].
Qed.
Lemma seek_start fuel h s : l !! 0%nat = Some h -> (S j <= fuel)%nat -> Inv s ->
  yields (seek fuel step counts visit e None 0 0 (Some h)) s result.
Proof.
  intros Hh Hf Hs. destruct fuel as [|fuel]; [lia|]. cbn [seek]. change 0 with (Z.of_nat 0) at 1 3 4 5.
  change 0 with (Z.of_nat (before_index counts l 0)). apply (look_at fuel 0); [done|done|].
  intros Hne s' Hs'. assert (0 <> j)%nat by (intros <-; congruence). apply seek_forward; [done|lia|lia|done].
Qed.
Lemma seek_around fuel k n h s : l !! k = Some n -> l !! 0%nat = Some h -> (length l + S j <= fuel + k)%nat -> (j < length l)%nat -> Inv s ->
  yields (seek fuel step counts visit e (Some n) (Z.of_nat k) (Z.of_nat (before_index counts l (S k))) (Some h)) s result.
Proof.
  intros Hk Hh Hf Hj. revert k n Hk Hf s. induction fuel as [|fuel IH]; intros k n Hk Hf s Hs.
  - apply lookup_lt_Some in Hk. lia.
  - destruct (decide (k < j)%nat) as [Hkj|Hkj]; [apply seek_forward; [done|done|lia|done]|]. cbn [seek].
    rewrite (o_step _ _ Hl _ _ Hk). destruct (l !! S k) as [m|] eqn:Em.
    + replace (Z.of_nat k + 1) with (Z.of_nat (S k)) by lia. apply look_at; [done|done|].
      intros _ s' Hs'. apply IH; [done|lia|done].
    + apply lookup_ge_None in Em. change 0 with (Z.of_nat 0) at 1 3 4 5.
      change 0 with (Z.of_nat (before_index counts l 0)). apply (look_at fuel 0); [done|done|].
      intros Hne s' Hs'. assert (0 <> j)%nat by (intros <-; congruence). apply lookup_lt_Some in Hk.
      apply seek_forward; [done|lia|lia|done].
Qed.
End Seek.

Lemma chain_ordered l step fuel k n : ordered l step -> l !! k = Some n -> (length l <= fuel + k)%nat ->
  chain fuel step n = Some (drop (S k) l).
Proof.
  intros Ho. revert k n. induction fuel as [|fuel IH]; intros k n Hk Hf; [apply lookup_lt_Some in Hk; lia|].
  cbn [chain]. rewrite (o_step _ _ Ho _ _ Hk). destruct (l !! S k) as [m|] eqn:Em.
  - rewrite (IH (S k) m Em) by lia. cbn. by rewrite (drop_S l m (S k)).
  - by rewrite drop_ge by (by apply lookup_ge_None).
Qed.

Lemma split_children n p : parentNode n = Some p -> exists l1 l2, childNodes p = l1 ++ n :: l2.
Proof. intros H%in_children. apply list_elem_of_split in H as (l1 & l2 & H). eauto. Qed.
Lemma next_split n p l1 l2 : childNodes p = l1 ++ n :: l2 -> nextSibling n = head l2 /\ previousSibling n = last l1.
Proof.
  intros E. assert (parentNode n = Some p) as Hp by (apply in_children; rewrite E; set_solver).
  pose proof (children_sorted p) as Hs. unfold nextSibling, previousSibling. rewrite (siblings_children _ _ Hp), E in *.
  by rewrite filter_after, filter_before.
Qed.
Lemma children_forward p : ordered (childNodes p) nextSibling.
Proof.
  split.
  - intros i n H. pose proof (take_drop_middle _ _ _ H) as E. symmetry in E. apply next_split in E as [-> _].
    by rewrite head_lookup, lookup_drop, Nat.add_0_r.
  - apply NoDup_filter, NoDup_ListNoDup, seq_NoDup.
Qed.
Lemma children_backward p : ordered (rev (childNodes p)) previousSibling.
Proof.
  split.
  - intros i n H. pose proof (take_drop_middle _ _ _ H) as E. apply (f_equal (@rev nat)) in E.
    rewrite rev_involutive, rev_app_distr in E. cbn in E. rewrite <- app_assoc in E. symmetry in E. cbn in E.
    apply next_split in E as [_ ->]. rewrite rev_is_reverse, last_reverse. by rewrite head_lookup, lookup_drop, Nat.add_0_r.
  - apply NoDup_ListNoDup, NoDup_rev, NoDup_ListNoDup, children_forward.
Qed.

Lemma kin_before_index ofType e p l1 l2 : childNodes p = l1 ++ e :: l2 ->
  length (kin_before ofType e) = before_index (kin ofType e) (childNodes p) (length l1) /\
  length (kin_after ofType e) = before_index (kin ofType e) (rev (childNodes p)) (length l2).
Proof.
  intros E. assert (parentNode e = Some p) as Hp by (apply in_children; rewrite E; set_solver).
  pose proof (children_sorted p) as Hs. unfold kin_before, kin_after, before_index.
  rewrite (siblings_children _ _ Hp), E in *. split.
  - rewrite <- list_filter_filter, filter_before by done. by rewrite take_app_length.
  - rewrite <- list_filter_filter, filter_after by done. rewrite rev_app_distr. cbn. rewrite <- app_assoc.
    rewrite <- (length_rev l2), take_app_length. rewrite rev_is_reverse, (filter_reverse (fun n => kin ofType e n = true) l2).
    by rewrite length_reverse.
Qed.

(** ** The caches of indexes *)

Lemma frame_nth s p t i d : nth_right p i d -> frame [] 0 s (with_nth (<[(p, t) := (dirruns s, i, d)]> (nth_of s)) s).
Proof.
  intros H. split; try done; try by left. intros p' t' v i' d'. cbn. rewrite lookup_insert_Some.
  intros [[[= <- <-] [= <- <- <-]]|[_ Hn]]; [by right|by left].
Qed.
Lemma frame_last s n t d : last_right n d -> frame [] 0 s (with_last (<[(n, t) := (dirruns s, d)]> (last_of s)) s).
Proof.
  intros H. split; try done; try by left. intros n' t' v d'. cbn. rewrite lookup_insert_Some.
  intros [[[= <- <-] [= <- <-]]|[_ Hn]]; [by right|by left].
Qed.
Lemma tidy_nth s p t i d : tidy s -> tidy (with_nth (<[(p, t) := (dirruns s, i, d)]> (nth_of s)) s).
Proof.
  intros [H1 H2 H3 H4]. split; try done. intros p' t' v i' d'. cbn. rewrite lookup_insert_Some.
  intros [[_ [= <- <- <-]]|[_ Hn]]; [done|by apply (H2 _ _ _ _ _ Hn)].
Qed.
Lemma tidy_last s n t d : tidy s -> tidy (with_last (<[(n, t) := (dirruns s, d)]> (last_of s)) s).
Proof.
  intros [H1 H2 H3 H4]. split; try done. intros n' t' v d'. cbn. rewrite lookup_insert_Some.
  intros [[_ [= <- <-]]|[_ Hn]]; [done|by apply (H3 _ _ _ _ Hn)].
Qed.
Lemma with_same_dirruns_kids v0 s s' : frame [] 0 s s' -> kids_right v0 s -> kids_right v0 s'.
Proof. apply kids_frame. Qed.

Definition child_post {A} (s : state) (Q : A -> Prop) (a : A) (s' : state) : Prop := Q a /\ tidy s' /\ frame [] 0 s s'.
(** The invariant of the search: nothing but right indexes is new. *)
Definition searching (s s' : state) : Prop := tidy s' /\ frame [] 0 s s' /\ dirruns s' = dirruns s.

Lemma searching_step s s1 s2 : searching s s1 -> tidy s2 -> frame [] 0 s1 s2 -> dirruns s2 = dirruns s1 -> searching s s2.
Proof.
  intros (T1 & F1 & E1) T2 F2 E2. split; [done|]. split; [|congruence]. by eapply frame_trans.
Qed.
Lemma searching_nth s s1 p t i d : searching s s1 -> nth_right p i d ->
  yields (modify (fun s1 => with_nth (<[(p, t) := (dirruns s, i, d)]> (nth_of s1)) s1)) s1 (fun _ s' => searching s s').
Proof.
  intros Hs Hn. pose proof Hs as (T & _ & E). eexists _, _. split; [done|]. rewrite <- E.
  apply (searching_step _ s1); [done|by apply tidy_nth|by apply frame_nth|done].
Qed.
Lemma searching_last s s1 n t d : searching s s1 -> last_right n d ->
  yields (modify (fun s1 => with_last (<[(n, t) := (dirruns s, d)]> (last_of s1)) s1)) s1 (fun _ s' => searching s s').
Proof.
  intros Hs Hn. pose proof Hs as (T & _ & E). eexists _, _. split; [done|]. rewrite <- E.
  apply (searching_step _ s1); [done|by apply tidy_last|by apply frame_last|done].
Qed.

Section Index.
Context (v0 : runs) (s : state) (type : jstr) (ofType : bool) (e p : nat).
Context (T : tidy s) (K : kids_right v0 s) (V : extends v0 (dirruns s)).
Context (Hp : parentNode e = Some p) (He : ofType = false -> is_element e = true).
Let counts := kin ofType e.

Lemma searching_refl : searching s s.
Proof. split; [done|]. split; [apply frame_refl|done]. Qed.
Lemma kin_self : counts e = true.
Proof. unfold counts, kin. destruct ofType; [apply js_eqb_refl|auto]. Qed.
Lemma children_bound : (length (childNodes p) <= size)%nat.
Proof.
  unfold childNodes. pose proof (length_filter (fun n => parentNode n = Some p) (seq 0 size)) as H. by rewrite length_seq in H.
Qed.
Lemma places : exists i j, childNodes p !! i = Some e /\ rev (childNodes p) !! j = Some e /\
  length (kin_before ofType e) = before_index counts (childNodes p) i /\
  length (kin_after ofType e) = before_index counts (rev (childNodes p)) j.
Proof.
  destruct (split_children e p Hp) as (l1 & l2 & E). exists (length l1), (length l2).
  split; [rewrite E; by apply list_lookup_middle|]. split; [|by apply kin_before_index].
  rewrite E, rev_app_distr. cbn. rewrite <- app_assoc, <- (length_rev l2). by apply list_lookup_middle.
Qed.
Lemma counted_to l i : l !! i = Some e -> before_index counts l (S i) = S (before_index counts l i).
Proof. intros H. rewrite (before_index_S _ _ _ _ H), kin_self. lia. Qed.

(** What the search does with a counted node. *)
Lemma visit_last s1 i n (H : searching s s1) : rev (childNodes p) !! i = Some n -> counts n = true ->
  yields (if useCache ofType then modify (fun s1 => with_last (<[(n, type) := (dirruns s, Z.of_nat (before_index counts (rev (childNodes p)) (S i)))]> (last_of s1)) s1)
          else ret tt) s1 (fun _ s' => searching s s').
Proof.
  intros Hi Hc. unfold useCache. destruct (negb documentIsXML && negb ofType) eqn:E; [|by apply yields_ret].
  apply andb_true_iff in E as [_ E]. apply negb_true_iff in E. apply searching_last; [done|]. unfold last_right, counts in *. rewrite E in *.
  assert (Hn : parentNode n = Some p) by (apply in_children; apply list_elem_of_lookup_2 in Hi; rewrite rev_is_reverse in Hi; set_solver).
  destruct (split_children n p Hn) as (l1 & l2 & El). destruct (kin_before_index false n p l1 l2 El) as [_ ->].
  assert (Hl2 : rev (childNodes p) !! length l2 = Some n).
  { rewrite El, rev_app_distr. cbn. rewrite <- app_assoc, <- (length_rev l2). by apply list_lookup_middle. }
  assert (i = length l2) as -> by (eapply NoDup_lookup; [apply (children_backward p)|done|done]).
  rewrite (before_index_S _ _ _ _ Hi). rewrite Hc. change (kin false n) with (kin false e). lia.
Qed.
Lemma visit_nth s1 i n (H : searching s s1) : ofType = false -> childNodes p !! i = Some n ->
  yields (if (n =? e)%nat then modify (fun s1 => with_nth (<[(p, type) := (dirruns s, Z.of_nat i, Z.of_nat (before_index counts (childNodes p) (S i)))]> (nth_of s1)) s1)
          else ret tt) s1 (fun _ s' => searching s s').
Proof.
  intros Ho Hi. destruct (n =? e)%nat; [|by apply yields_ret]. apply searching_nth; [done|].
  apply lookup_lt_Some in Hi. unfold nth_right, elements_upto. rewrite Nat2Z.id. split; [lia|]. split; [done|].
  unfold counts, before_index. by rewrite Ho.
Qed.
Lemma visit_none s1 (n : nat) (H : searching s s1) : yields (ret tt : M unit) s1 (fun _ s' => searching s s').
Proof. by apply yields_ret. Qed.

Definition answer (d : Z) (s' : state) : Prop :=
  d = Z.of_nat (length (if js_eqb (slice_end 4 type) (u "last") then kin_after ofType e else kin_before ofType e)) + 1 /\
  tidy s' /\ frame [] 0 s s'.
Lemma searching_answer d s' : searching s s' ->
  d = Z.of_nat (length (if js_eqb (slice_end 4 type) (u "last") then kin_after ofType e else kin_before ofType e)) + 1 -> answer d s'.
Proof. intros (T' & F & _) ->. by split. Qed.

(** Without a node the search begins anew. *)
Lemma seek_anew fuel step visit k d start :
  seek fuel step counts visit e None k d start = seek fuel step counts visit e None 0 0 start.
Proof. by destruct fuel. Qed.
(** A search over the whole list. *)
Lemma seek_all l step visit j fuel : ordered l step -> l !! j = Some e -> (length l + S j <= fuel)%nat ->
  (forall s1 i n, searching s s1 -> l !! i = Some n -> counts n = true ->
     yields (visit n (Z.of_nat i) (Z.of_nat (before_index counts l (S i)))) s1 (fun _ s' => searching s s')) ->
  yields (seek fuel step counts visit e None 0 0 (head l)) s
    (fun r s' => r = (Z.of_nat j, Z.of_nat (before_index counts l (S j))) /\ searching s s').
Proof.
  intros Hl Hj Hf Hv. destruct l as [|h l]; [done|]. cbn [head].
  apply (seek_start (h :: l) step counts visit e j (searching s) Hl Hj kin_self Hv); [done|lia|apply searching_refl].
Qed.

Lemma child_index_ok : yields (child_index type ofType e p) s answer.
Proof.
  destruct places as (i & j & Hi & Hj & Hb & Ha). pose proof children_bound as Hsize.
  pose proof (lookup_lt_Some _ _ _ Hi) as Hil. pose proof (lookup_lt_Some _ _ _ Hj) as Hjl. rewrite length_rev in Hjl.
  unfold child_index. apply yields_get. fold counts.
  destruct (js_eqb (slice_end 4 type) (u "last")) eqn:El; cbn [negb andb].
  - (* from the end *)
    assert (Hlast : lastChild p = head (rev (childNodes p))) by (unfold lastChild; by rewrite rev_is_reverse, <- last_reverse, reverse_involutive).
    rewrite Hlast.
    assert (Hanew : yields (r <- seek (2 * size + 2) previousSibling counts
        (fun n _ d => if useCache ofType then modify (fun s0 => with_last (<[(n, type) := (dirruns s, d)]> (last_of s0)) s0) else ret tt)
        e None 0 0 (head (rev (childNodes p)));; ret r.2) s answer).
    { eapply yields_bind; [apply (seek_all _ _ _ j); [apply children_backward|done|rewrite length_rev; lia|]|].
      - intros s1 k n Hs Hk Hc. by apply visit_last.
      - intros r s' [-> Hs]. apply yields_ret, searching_answer; [done|]. rewrite El, Ha. cbn. rewrite (counted_to _ _ Hj). lia. }
    apply yields_get. destruct (last_of s !! (e, type)) as [[r d]|] eqn:Ec; [|exact Hanew].
    destruct (useCache ofType && bool_decide (r = dirruns s)) eqn:E; [|exact Hanew].
    apply andb_true_iff in E as [Eu Er%bool_decide_eq_true]. apply yields_ret, searching_answer; [apply searching_refl|].
    rewrite El. apply andb_true_iff in Eu as [_ Eo%negb_true_iff]. rewrite Eo. destruct K as [_ K2].
    rewrite (K2 _ _ _ _ Ec) by (by rewrite Er). done.
  - assert (Hfirst : firstChild p = head (childNodes p)) by done. rewrite Hfirst. destruct (useCache ofType) eqn:Eu.
    + (* from the front, with the index on the parent *)
      assert (Ho : ofType = false) by (unfold useCache in Eu; apply andb_true_iff in Eu as [_ ?%negb_true_iff]; done).
      apply yields_get.
      set (visit := fun n i d => if (n =? e)%nat then modify (fun s0 => with_nth (<[(p, type) := (dirruns s, i, d)]> (nth_of s0)) s0) else ret tt).
      assert (Hv : forall s1 k n, searching s s1 -> childNodes p !! k = Some n -> counts n = true ->
        yields (visit n (Z.of_nat k) (Z.of_nat (before_index counts (childNodes p) (S k)))) s1 (fun _ s' => searching s s')).
      { intros s1 k n Hs Hk _. by apply visit_nth. }
      assert (Hdone : forall node k d start, yields (seek (2 * size + 2) nextSibling counts visit e node k d start) s
          (fun r s' => r = (Z.of_nat i, Z.of_nat (before_index counts (childNodes p) (S i))) /\ searching s s') ->
        yields (r <- seek (2 * size + 2) nextSibling counts visit e node k d start;; ret r.2) s answer).
      { intros node k d start H. eapply yields_bind; [exact H|]. intros r s' [-> Hs]. apply yields_ret, searching_answer; [done|].
        rewrite El, Hb. cbn. rewrite (counted_to _ _ Hi). lia. }
      assert (Hstart : yields (seek (2 * size + 2) nextSibling counts visit e None 0 0 (head (childNodes p))) s
          (fun r s' => r = (Z.of_nat i, Z.of_nat (before_index counts (childNodes p) (S i))) /\ searching s s')).
      { apply seek_all; [apply children_forward|done|lia|done]. }
      destruct (nth_of s !! (p, type)) as [[[r k] d]|] eqn:Ec; [|by apply Hdone].
      destruct (decide (r = dirruns s)) as [->|]; [|by apply Hdone].
      destruct K as [K1 _]. destruct (K1 _ _ _ _ _ Ec V) as (Hk0 & Hkl & ->).
      assert (is_Some (childNodes p !! 0%nat)) as [h Hh] by (apply lookup_lt_is_Some; lia).
      assert (Hup : elements_upto p (Z.to_nat k) = before_index counts (childNodes p) (S (Z.to_nat k))).
      { unfold elements_upto, before_index, counts. by rewrite Ho. }
      destruct (k =? 0) eqn:Ek.
      * apply Hdone. rewrite seek_anew. exact Hstart.
      * apply Hdone. apply lookup_lt_is_Some in Hkl as [n Hn]. rewrite Hn, Hup, <- (Z2Nat.id k) at 1 by lia.
        rewrite Z2Nat.id by lia. rewrite <- (Z2Nat.id k) at 1 by lia.
        replace (head (childNodes p)) with (Some h) by (by rewrite head_lookup).
        apply (seek_around (childNodes p) nextSibling counts visit e i (searching s) (children_forward p) Hi kin_self Hv);
          [done|done|lia|done|apply searching_refl].
    + (* from the front, without an index *)
      cbn [andb]. apply yields_get.
      assert (Hanew : yields (r <- seek (2 * size + 2) nextSibling counts (fun _ _ _ => ret tt) e None 0 0 (head (childNodes p));; ret r.2) s answer).
      { eapply yields_bind; [apply (seek_all _ _ _ i); [apply children_forward|done|lia|]|].
        - intros s1 k n Hs Hk Hc. by apply visit_none.
        - intros r s' [-> Hs]. apply yields_ret, searching_answer; [done|]. rewrite El, Hb. cbn. rewrite (counted_to _ _ Hi). lia. }
      destruct (last_of s !! (e, type)) as [[r d]|]; exact Hanew.
Qed.
End Index.

(** The loops of [:first-child] and its like. *)
Lemma existsb_filter {A} (f : A -> bool) (P : A -> Prop) `{!forall x, Decision (P x)} l :
  (length (filter (fun x => f x = true /\ P x) l) =? 0)%nat = negb (existsb f (filter P l)).
Proof.
  induction l as [|x l IH]; [done|]. rewrite !filter_cons. destruct (f x) eqn:E.
  - case_decide as H1; [|].
    + destruct H1 as [_ H1]. rewrite decide_True by done. cbn. by rewrite E.
    + rewrite decide_False by naive_solver. done.
  - rewrite decide_False by (intros [? _]; congruence). rewrite IH. case_decide; [cbn; by rewrite E|done].
Qed.
Lemma chain_next e p : parentNode e = Some p -> chain (S size) nextSibling e = Some (filter (fun m => (e < m)%nat) (siblings_of e)).
Proof.
  intros Hp. destruct (split_children e p Hp) as (l1 & l2 & E). pose proof (children_sorted p) as Hs.
  rewrite (siblings_children _ _ Hp). rewrite (chain_ordered (childNodes p) nextSibling (S size) (length l1) e (children_forward p)).
  - rewrite E in Hs |- *. rewrite filter_after by done. by rewrite (drop_app_ge _ _ (S (length l1))) by lia; replace (S (length l1) - length l1)%nat with 1%nat by lia.
  - rewrite E. by apply list_lookup_middle.
  - pose proof (children_bound p). lia.
Qed.
Lemma chain_previous e p : parentNode e = Some p -> chain (S size) previousSibling e = Some (rev (filter (fun m => (m < e)%nat) (siblings_of e))).
Proof.
  intros Hp. destruct (split_children e p Hp) as (l1 & l2 & E). pose proof (children_sorted p) as Hs.
  rewrite (siblings_children _ _ Hp).
  assert (Er : rev (childNodes p) = rev l2 ++ e :: rev l1) by (rewrite E, rev_app_distr; cbn; by rewrite <- app_assoc).
  rewrite (chain_ordered (rev (childNodes p)) previousSibling (S size) (length l2) e (children_backward p)).
  - rewrite E in Hs |- *. rewrite filter_before by done. rewrite <- E, Er. f_equal.
    rewrite drop_app_ge by (rewrite length_rev; lia). rewrite length_rev. by replace (S (length l2) - length l2)%nat with 1%nat by lia.
  - rewrite Er, <- (length_rev l2). by apply list_lookup_middle.
  - pose proof (children_bound p). rewrite length_rev. lia.
Qed.
Lemma existsb_rev {A} (f : A -> bool) l : existsb f (rev l) = existsb f l.
Proof. induction l as [|x l IH]; [done|]. cbn. rewrite existsb_app, IH. cbn. rewrite orb_false_r. apply orb_comm. Qed.

Lemma run_child_ok v0 s type what xy e : tidy s -> kids_right v0 s -> extends v0 (dirruns s) -> is_element e = true ->
  yields (run_child type what xy e) s (child_post s (fun b => b = sem_child type what xy e)).
Proof.
  intros T K V He. unfold run_child, sem_child. destruct (bool_decide (xy = Some (1, 0))) eqn:Exy.
  { apply yields_ret. split; [by destruct (parentNode e)|]. split; [done|apply frame_refl]. }
  destruct (parentNode e) as [p|] eqn:Hp; [|apply yields_ret; split; [done|]; split; [done|apply frame_refl]].
  set (ofType := js_eqb what (u "of-type")).
  destruct (js_eqb (take 3 type) (u "nth")); cbn [negb].
  - destruct (default (0, 0) xy) as [x y]. eapply yields_bind.
    + apply (child_index_ok v0 s type ofType e p); auto.
    + intros d s' (-> & T' & F). apply yields_ret. split; [|done]. by destruct (js_eqb (slice_end 4 type) (u "last")).
  - assert (Hnone : forall step l, chain (S size) step e = Some l ->
        (l <- lift (Good <$> chain (S size) step e);;
         ret (negb (existsb (fun n => if ofType then js_eqb (toLowerCase (nodeName n)) (toLowerCase (nodeName e)) else is_element n) l))) s
        = Some (s, Good (negb (existsb (kin ofType e) l)))).
    { intros step l H. unfold bind, lift. by rewrite H. }
    assert (Hn := Hnone nextSibling _ (chain_next e p Hp)). assert (Hb := Hnone previousSibling _ (chain_previous e p Hp)).
    rewrite existsb_rev in Hb. unfold kin_before, kin_after. rewrite !existsb_filter.
    destruct (js_eqb (slice_end 4 type) (u "last")).
    + eexists _, _. split; [exact Hn|]. split; [done|]. split; [done|apply frame_refl].
    + unfold yields. unfold bind at 1. rewrite Hb. destruct (negb (existsb (kin ofType e) (filter (fun n => (n < e)%nat) (siblings_of e)))) eqn:Ok; cbn [andb].
      * destruct (js_eqb type (u "only")); cbn [negb orb].
        -- eexists _, _. split; [exact Hn|]. split; [done|]. split; [done|apply frame_refl].
        -- eexists _, _. split; [done|]. split; [done|]. split; [done|apply frame_refl].
      * eexists _, _. split; [done|]. split; [done|]. split; [done|apply frame_refl].
Qed.
End Child.
