(* ===== verification/SizzleRun.v ===== *)
(** * Sizzle: the results that combinators keep on the nodes

    [walk_ok] is about the loop of [addCombinator] with its cache: whatever the entries of
    the combinator, as long as they are true it answers as the plain loop does, and leaves
    true entries behind. [run_matcher_ok] puts the combinators of a group together. *)

From Stdlib Require Import ZArith Lia.
From stdpp Require Import base tactics list numbers strings gmap.
From S2P Require Import Prelude JsValue ValidPage RegExec SizzleTokens Sizzle SizzleSelect SizzleSpec SizzleFrame SizzleChild.
Local Open Scope Z_scope.

Local Open Scope sizzle_scope.

Section Walk.
Context {D : Document} {L : DocumentLaws D}.

(** ** A combinator *)

(** [inner] answers [f] on every counted node, keeps its invariant [Inv], and writes under
    the numbers [ks] only. *)
Section Combinator.
Context (v0 : runs) (o : outermost) (k : nat) (d : dirn) (ne : bool) (f : nat -> bool) (ks : list nat).
Context (inner : nat -> M bool) (Inv : bool -> state -> Prop).
Context (Hinner : forall x s, good v0 o s -> Inv true s -> counted ne x = true ->
  yields (inner x) s (fun b s' => b = f x /\ good v0 o s' /\ frame ks x s s' /\ Inv (negb b) s')).
Context (Hstable : forall b s s', only [k] s s' -> Inv b s -> Inv b s').
Context (Hweak : forall b s, Inv b s -> Inv false s).
Context (Hk : k ∉ ks).

Lemma good_frame s s' ks' e : frame ks' e s s' -> tidy s' -> good v0 o s -> good v0 o s'.
Proof.
  intros F T' [T K V O S]. split; [done|by eapply kids_frame|etrans; [done|apply F]|rewrite (f_out _ _ _ _ F); done|done].
Qed.

(** What holds after the combinator has run on [e]. *)
Record after_walk (P : nat -> Prop) (e : nat) (s : state) (b : bool) (s' : state) : Prop := {
  w_good : good v0 o s';
  w_frame : frame (k :: ks) e s s';
  w_inv : Inv (negb b) s';
  w_comb : comb_ok (fun x => b = false /\ P x) v0 k d ne f s'
}.

(** The state in which the node [x] has the new array. *)
Definition marked (s : state) (x : nat) (v : runs) : state :=
  let s1 := with_arrays (arrays s ++ [CacheArray (v, k) None]) s in
  with_slots (<[(x, d) := length (arrays s)]> (slots s1)) s1.
Definition settled (s : state) (i : nat) (v : runs) (b : bool) : state :=
  with_arrays (<[i := CacheArray (v, k) (Some (if b then Matched else Failed (cachedruns s)))]> (arrays s)) s.

Lemma marked_frame s x v e : (x < e)%nat -> frame [k] e s (marked s x v).
Proof.
  intros Hx. split; try done; try by left.
  - intros i Hi. cbn. by rewrite lookup_app_l.
  - intros y d' j. cbn. rewrite lookup_insert_Some. intros [[[= <- <-] <-]|[_ H]]; [|by left]. right.
    split; [done|]. split; [done|]. eexists. split; [by rewrite lookup_app_r, Nat.sub_diag|]. cbn. set_solver.
Qed.
Lemma marked_tidy s x v : tidy s -> known s v -> tidy (marked s x v).
Proof.
  intros [T1 T2 T3 T4] Hv. split; try done. intros p j. cbn. rewrite lookup_insert_Some.
  intros [[<- <-]|[_ H]].
  - eexists. split; [by rewrite lookup_app_r, Nat.sub_diag|]. done.
  - destruct (T1 _ _ H) as (a & Ha & Hka). exists a. split; [|done]. rewrite lookup_app_l; [done|]. by apply lookup_lt_Some in Ha.
Qed.
Lemma settled_frame s x v e s3 b : (x < e)%nat -> frame ks x (marked s x v) s3 -> frame (k :: ks) e s (settled s3 (length (arrays s)) v b).
Proof.
  intros Hx F.
  assert (Hi : arrays s3 !! length (arrays s) = Some (CacheArray (v, k) None)).
  { rewrite (f_arrays _ _ _ _ F); cbn; [by rewrite lookup_app_r, Nat.sub_diag|rewrite length_app; cbn; lia]. }
  assert (F' : frame (k :: ks) e s s3).
  { eapply frame_trans; [apply (marked_frame s x v e Hx)|exact F|set_solver|set_solver|lia|lia]. }
  pose proof (lookup_lt_Some _ _ _ Hi) as Hlt.
  split; try (by apply F').
  - intros i Hl. cbn. rewrite list_lookup_insert_ne by lia. by apply F'.
  - intros y d' j Hj. apply (f_slots _ _ _ _ F') in Hj as [Hj|(Hl & Hy & a & Ha & Hka)]; [by left|]. right. split; [done|]. split; [done|].
    cbn. destruct (decide (length (arrays s) = j)) as [<-|Hne].
    + eexists. rewrite list_lookup_insert_eq by done. split; [done|]. cbn. set_solver.
    + exists a. by rewrite list_lookup_insert_ne.
Qed.
Lemma settled_tidy s v s3 b : tidy s3 -> known s3 v -> tidy (settled s3 (length (arrays s)) v b).
Proof.
  intros [T1 T2 T3 T4] Hv. split; try done. intros p j Hj. destruct (T1 _ _ Hj) as (a & Ha & Hka). cbn.
  destruct (decide (length (arrays s) = j)) as [<-|Hne].
  - eexists. rewrite list_lookup_insert_eq by (by apply lookup_lt_Some in Ha). split; [done|]. done.
  - exists a. by rewrite list_lookup_insert_ne.
Qed.
Lemma settled_only s3 i v b : arrays s3 !! i = Some (CacheArray (v, k) None) -> only [k] s3 (settled s3 i v b).
Proof.
  intros Hi. split; [done|]. intros p a (j & Hj & Ha) Hne. exists j. split; [done|]. cbn in Ha.
  destruct (decide (i = j)) as [<-|Hij]; [|by rewrite list_lookup_insert_ne in Ha].
  rewrite list_lookup_insert_eq in Ha by (by apply lookup_lt_Some in Hi). injection Ha as <-. cbn in Hne. set_solver.
Qed.
(** The entries after [inner] has answered: the new one is true, the others are as they were. *)
Lemma settled_comb P s x v s3 b : tidy s -> frame ks x (marked s x v) s3 -> tidy s3 -> comb_ok P v0 k d ne f s ->
  b = f x -> comb_ok (fun y => P y /\ y <> x) v0 k d ne f (settled s3 (length (arrays s)) v b).
Proof.
  intros T F T3 H -> y a (j & Hj & Ha) Hv Hka. cbn in Hj, Ha |- *.
  assert (Hi : arrays s3 !! length (arrays s) = Some (CacheArray (v, k) None)).
  { rewrite (f_arrays _ _ _ _ F); cbn; [by rewrite lookup_app_r, Nat.sub_diag|rewrite length_app; cbn; lia]. }
  pose proof (lookup_lt_Some _ _ _ Hi) as Hlt. destruct (decide (length (arrays s) = j)) as [<-|Hij].
  - rewrite list_lookup_insert_eq in Ha by done. injection Ha as <-.
    assert (y = x) as ->.
    { apply (f_slots _ _ _ _ F) in Hj as [Hj|(Hl & _)]; [|cbn in Hl; rewrite length_app in Hl; cbn in Hl; lia].
      cbn in Hj. apply lookup_insert_Some in Hj as [[[= ->] _]|[_ Hj]]; [done|].
      destruct (t_slots _ T _ _ Hj) as (a & Ha & _). apply lookup_lt_Some in Ha. lia. }
    cbn. destruct (f x) eqn:Ef; cbn; [done|]. split; [done|]. split; [lia|]. by intros [_ ?].
  - rewrite list_lookup_insert_ne in Ha by done.
    apply (f_slots _ _ _ _ F) in Hj as [Hj|(_ & _ & a' & Ha' & Hka')].
    + cbn in Hj. apply lookup_insert_Some in Hj as [[_ Hj]|[Hp Hj]]; [done|].
      destruct (t_slots _ T _ _ Hj) as (a' & Ha' & _). pose proof (lookup_lt_Some _ _ _ Ha') as Hjl.
      assert (arrays s3 !! j = Some a') as Ha3.
      { rewrite (f_arrays _ _ _ _ F); cbn; [by rewrite lookup_app_l|rewrite length_app; lia]. }
      rewrite Ha3 in Ha. injection Ha as ->. specialize (H y a ltac:(by exists j) Hv Hka).
      rewrite (f_runs _ _ _ _ F). cbn. destruct (result_of a) as [[|n]|]; [done| |done].
      destruct H as (H1 & H2 & H3). split; [done|]. split; [done|]. intros [Hy _]. by apply H3.
    + rewrite Ha' in Ha. injection Ha as ->. rewrite Hka in Hka'. done.
Qed.

(** A run from [x] on: the entries that it does not reach are as they were. *)
Lemma walk_comb (P Q : nat -> Prop) x s s' ks' : tidy s -> frame ks' x s s' ->
  (forall y, P y -> (x <= y)%nat -> Q y \/ (y = x /\ existsb f (counted_path d ne x) = false)) ->
  comb_ok Q v0 k d ne f s -> comb_ok (fun y => (y < x)%nat /\ P y) v0 k d ne f s' ->
  comb_ok P v0 k d ne f s'.
Proof.
  intros T F HP H H' y a Ha Hv Hka. pose proof (H' y a Ha Hv Hka) as Hw.
  destruct (result_of a) as [[|n]|] eqn:Er; [done| |done]. destruct Hw as (H1 & H2 & H3). split; [done|]. split; [done|].
  intros Hy Hn. destruct (decide (y < x)%nat) as [Hlt|Hge]; [by apply H3|].
  destruct (HP y Hy ltac:(lia)) as [HQ|[-> Hrest]]; [|done].
  apply (frame_entry _ _ _ _ _ _ _ F T) in Ha as [Ha|[Hlt _]]; [|lia].
  specialize (H y a Ha Hv Hka). rewrite Er in H. destruct H as (_ & _ & H). rewrite (f_runs _ _ _ _ F) in Hn. by apply H.
Qed.

Definition upto (e : nat) : nat -> Prop := fun y => (y < e)%nat.
(** A run from [x], the node after [e], as a run from [e]. *)
Lemma after_further e x s b s' : (x < e)%nat -> tidy s -> comb_ok (upto e) v0 k d ne f s ->
  after_walk (upto x) x s b s' -> after_walk (upto e) e s b s'.
Proof.
  intros Hx T H [W1 W2 W3 W4]. split; [done|eapply frame_weaken; [done|done|lia]|done|].
  apply (walk_comb _ (upto e) x s s' (k :: ks)); [done|done| |done|].
  - intros y [_ Hy] _. by left.
  - eapply comb_ok_mono; [|exact W4]. intros y (Hy & Hb & _). by split.
Qed.
Lemma after_nothing e s b : good v0 o s -> Inv true s -> comb_ok (upto e) v0 k d ne f s -> after_walk (upto e) e s b s.
Proof.
  intros G I C. split; [done|apply frame_refl|destruct b; [by eapply Hweak|done]|]. eapply comb_ok_mono; [|exact C]. by intros y [_ Hy].
Qed.

(** The new array, the answer of [inner], and what is done then. *)
Lemma look_ok (go_on : M bool) e x s v : good v0 o s -> Inv true s -> comb_ok (upto e) v0 k d ne f s ->
  extends v0 v -> known s v -> (x < e)%nat -> counted ne x = true ->
  (forall s4, good v0 o s4 -> Inv true s4 -> comb_ok (upto x) v0 k d ne f s4 -> known s4 v ->
     yields go_on s4 (fun b s' => b = existsb f (counted_path d ne x) /\ after_walk (upto x) x s4 b s')) ->
  yields (i <- new_array (CacheArray (v, k) None);;
          modify (fun s => with_slots (<[(x, d) := i]> (slots s)) s);;;
          r <- inner x;;
          modify (fun s => with_arrays (<[i := CacheArray (v, k) (Some (if r then Matched else Failed (cachedruns s)))]> (arrays s)) s);;;
          if r then ret true else go_on) s
    (fun b s' => b = f x || existsb f (counted_path d ne x) /\ after_walk (upto e) e s b s').
Proof.
  intros G I C Hv Hkn Hx Hc Hgo. pose proof (g_tidy _ _ _ G) as T.
  assert (F0 : frame [k] e s (marked s x v)) by (by apply marked_frame).
  assert (T0 : tidy (marked s x v)) by (by apply marked_tidy).
  assert (G0 : good v0 o (marked s x v)) by (by eapply good_frame).
  assert (I0 : Inv true (marked s x v)) by (eapply Hstable; [by apply (frame_only _ _ _ _ F0)|done]).
  destruct (Hinner x _ G0 I0 Hc) as (b & s3 & E3 & Hb & G3 & F3 & I3).
  assert (Hrun : forall m : bool -> M bool, (i <- new_array (CacheArray (v, k) None);;
          modify (fun s => with_slots (<[(x, d) := i]> (slots s)) s);;; r <- inner x;;
          modify (fun s => with_arrays (<[i := CacheArray (v, k) (Some (if r then Matched else Failed (cachedruns s)))]> (arrays s)) s);;;
          m r) s = m b (settled s3 (length (arrays s)) v b)).
  { intros m. change (match inner x (marked s x v) with
      | Some (s', Good a) => m a (settled s' (length (arrays s)) v a) | Some (s', Bad) => Some (s', Bad) | None => None end
      = m b (settled s3 (length (arrays s)) v b)). by rewrite E3. }
  unfold yields. rewrite (Hrun (fun r => if r then ret true else go_on)). clear Hrun.
  set (s4 := settled s3 (length (arrays s)) v b).
  assert (Hkn3 : known s3 v) by (eapply known_frame; [exact F3|]; eapply known_frame; [exact F0|done]).
  assert (F4 : frame (k :: ks) e s s4) by (by eapply settled_frame).
  assert (T4 : tidy s4) by (by apply settled_tidy; [apply G3|]).
  assert (G4 : good v0 o s4) by (by eapply good_frame).
  assert (C4 : comb_ok (fun y => upto e y /\ y <> x) v0 k d ne f s4) by (apply settled_comb; [done|done|apply G3|done|done]).
  assert (I4 : Inv (negb b) s4).
  { eapply Hstable; [|exact I3]. apply settled_only. rewrite (f_arrays _ _ _ _ F3); cbn; [by rewrite lookup_app_r, Nat.sub_diag|].
    rewrite length_app. cbn. lia. }
  destruct b.
  - eexists _, _. split; [done|]. rewrite <- Hb. split; [done|]. split; [done|done|done|].
    eapply comb_ok_mono; [|exact C4]. by intros y [].
  - destruct (Hgo s4 G4 I4) as (b' & s5 & E5 & Hb' & W5).
    { eapply comb_ok_mono; [|exact C4]. unfold upto. intros y Hy. split; lia. }
    { by eapply known_frame. }
    eexists _, _. split; [exact E5|]. rewrite <- Hb. split; [done|]. destruct W5 as [W1 W2 W3 W4]. split; [done| |done|].
    + eapply frame_trans; [exact F4|exact W2|done|done|lia|lia].
    + apply (walk_comb _ (fun y => upto e y /\ y <> x) x s4 s5 (k :: ks)); [done|done| |done|].
      * intros y [-> Hy] _. destruct (decide (y = x)) as [->|]; [right; by split|by left].
      * eapply comb_ok_mono; [|exact W4]. unfold upto. intros y (Hy & Hbb & _). by split.
Qed.

Lemma walk_ok fuel : forall e s v, (e < fuel)%nat -> good v0 o s -> Inv true s -> comb_ok (upto e) v0 k d ne f s ->
  extends v0 v -> known s v ->
  yields (walk fuel d ne (v, k) inner e) s (fun b s' => b = existsb f (counted_path d ne e) /\ after_walk (upto e) e s b s').
Proof.
  induction fuel as [|fuel IH]; intros e s v Hf G I C Hv Hkn; [lia|]. cbn [walk]. rewrite counted_path_eq.
  destruct (along d e) as [x|] eqn:Ex; [|apply yields_ret; split; [done|by apply after_nothing]].
  apply along_before in Ex as Hx. fold (counted ne x).
  assert (Cx : comb_ok (upto x) v0 k d ne f s) by (eapply comb_ok_mono; [|exact C]; unfold upto; lia).
  assert (Hgo : yields (walk fuel d ne (v, k) inner x) s (fun b s' => b = existsb f (counted_path d ne x) /\ after_walk (upto e) e s b s')).
  { eapply yields_mono; [apply IH; [lia|done|done|done|done|done]|]. intros b s' [-> W]. split; [done|].
    by apply (after_further e x); [|apply G| |]. }
  destruct (counted ne x) eqn:Hc; [|exact Hgo]. cbn [existsb]. apply yields_get, yields_get.
  assert (Hlook := look_ok (walk fuel d ne (v, k) inner x) e x s v G I C Hv Hkn Hx Hc
    (fun s4 G4 I4 C4 K4 => IH x s4 v ltac:(lia) G4 I4 C4 Hv K4)).
  destruct (slots s !! (x, d)) as [i|] eqn:Es; [|exact Hlook].
  destruct (arrays s !! i) as [a|] eqn:Ea; [|exact Hlook]. destruct (decide (dirkey a = (v, k))) as [Hka|]; [|exact Hlook].
  assert (Ha : has_entry s (x, d) a) by (by exists i).
  pose proof (C x a Ha) as Cx'. rewrite Hka in Cx'. specialize (Cx' Hv eq_refl).
  destruct (result_of a) as [[|n]|]; [| |done].
  - apply yields_ret. rewrite Cx'. split; [done|]. by apply after_nothing.
  - destruct Cx' as (Hf0 & Hn & Hrest). destruct (n =? cachedruns s) eqn:En.
    + apply yields_ret. rewrite Hf0, Hrest by (done || lia). split; [done|]. by apply after_nothing.
    + rewrite Hf0. exact Hgo.
Qed.

(** ** The other loops, and all together *)

Definition after_loop (e : nat) (s : state) (b : bool) (s' : state) : Prop :=
  good v0 o s' /\ frame ks e s s' /\ Inv (negb b) s'.
Lemma after_loop_weaken e x s b s' : (x <= e)%nat -> after_loop x s b s' -> after_loop e s b s'.
Proof. intros Hx (G & F & I). split; [done|]. split; [|done]. by eapply frame_weaken. Qed.
Lemma nearest_ok fuel : forall e s, (e < fuel)%nat -> good v0 o s -> Inv true s ->
  yields (nearest fuel (along d) ne inner e) s (fun b s' => b = existsb f (take 1 (counted_path d ne e)) /\ after_loop e s b s').
Proof.
  induction fuel as [|fuel IH]; intros e s Hf G I; [lia|]. cbn [nearest]. rewrite counted_path_eq.
  destruct (along d e) as [x|] eqn:Ex; [|apply yields_ret; split; [done|]; split; [done|split; [apply frame_refl|done]]].
  apply along_before in Ex as Hx. fold (counted ne x). destruct (counted ne x) eqn:Hc.
  - eapply yields_mono; [by apply Hinner|]. intros b s' (-> & G' & F' & I'). cbn. rewrite orb_false_r.
    split; [done|]. split; [done|]. split; [eapply frame_weaken; [done|done|lia]|done].
  - eapply yields_mono; [apply IH; [lia|done|done]|]. intros b s' [-> H]. split; [done|]. eapply after_loop_weaken; [|done]. lia.
Qed.
Lemma walk_xml_ok fuel : forall e s, (e < fuel)%nat -> good v0 o s -> Inv true s ->
  yields (walk_xml fuel (along d) ne inner e) s (fun b s' => b = existsb f (counted_path d ne e) /\ after_loop e s b s').
Proof.
  induction fuel as [|fuel IH]; intros e s Hf G I; [lia|]. cbn [walk_xml]. rewrite counted_path_eq.
  destruct (along d e) as [x|] eqn:Ex; [|apply yields_ret; split; [done|]; split; [done|split; [apply frame_refl|done]]].
  apply along_before in Ex as Hx. fold (counted ne x). destruct (counted ne x) eqn:Hc.
  - eapply yields_bind; [by apply Hinner|]. intros b s' (Hb & G' & F' & I'). cbn [existsb]. rewrite <- Hb. destruct b.
    + apply yields_ret. split; [done|]. split; [done|]. split; [eapply frame_weaken; [done|done|lia]|done].
    + eapply yields_mono; [apply IH; [lia|done|done]|]. intros b s'' [-> (G2 & F2 & I2)]. split; [done|]. split; [done|].
      split; [|done]. eapply frame_trans; [exact F'|exact F2|done|done|lia|lia].
  - eapply yields_mono; [apply IH; [lia|done|done]|]. intros b s' [-> H]. split; [done|]. eapply after_loop_weaken; [|done]. lia.
Qed.

(** [addCombinator(...)] on an element. *)
Lemma combine_ok (r : relative) (base : bool) e s : dir_of r = d -> ne = (base && base_of r) ->
  good v0 o s -> Inv true s -> comb_ok (every true) v0 k d ne f s ->
  yields (combine r k base inner e) s (fun b s' =>
    b = existsb f (targets r ne e) /\ good v0 o s' /\ frame (k :: ks) e s s' /\ Inv (negb b) s' /\ comb_ok (every (negb b)) v0 k d ne f s').
Proof.
  intros Hd Hne G I C. unfold combine, targets. rewrite Hd. unfold base_of in Hne. rewrite Hd in Hne. rewrite <- Hne.
  assert (Hloop : forall b s', after_loop e s b s' ->
    good v0 o s' /\ frame (k :: ks) e s s' /\ Inv (negb b) s' /\ comb_ok (every (negb b)) v0 k d ne f s').
  { intros b s' (G' & F' & I'). split; [done|]. split; [eapply frame_weaken; [done|set_solver|lia]|]. split; [done|].
    eapply comb_ok_mono; [|eapply comb_ok_only; [apply (frame_only _ _ _ _ F'), G|done|exact C]]. intros x _. reflexivity. }
  destruct (first_of r).
  - eapply yields_mono; [apply nearest_ok; [lia|done|done]|]. intros b s' [-> H]. split; [done|]. by apply Hloop.
  - destruct documentIsXML.
    + eapply yields_mono; [apply walk_xml_ok; [lia|done|done]|]. intros b s' [-> H]. split; [done|]. by apply Hloop.
    + apply yields_get. eapply yields_mono; [apply walk_ok; [lia|done|done| |apply G|apply (t_now _ (g_tidy _ _ _ G))]|].
      { eapply comb_ok_mono; [|exact C]. intros x _. reflexivity. }
      intros b s' [-> [W1 W2 W3 W4]]. split; [done|]. split; [done|]. split; [done|]. split; [done|].
      apply (walk_comb _ (every true) e s s' (k :: ks)); [apply G|done|intros y _ _; left; reflexivity|done|].
      eapply comb_ok_mono; [|exact W4]. intros y [Hy Hb]. split; [|done]. unfold every in Hb. by apply negb_true_iff.
Qed.
End Combinator.
End Walk.

(** * Sizzle: a compiled selector does what it means

    [run_shapes]: every matcher that compilation makes without [:has] and positions
    answers [sem], whatever the caches of the run hold, and keeps the invariant of the
    caches. *)

Section Run.
Context {D : Document} {L : DocumentLaws D}.
Context (sizzle : jstr -> nat -> list nat -> M (list nat)).

(** ** The loops over matchers *)

Definition run_all (ms : list matcher) (e : nat) (c : ctx) : M bool :=
  (fix all_of (ms : list matcher) : M bool :=
     match ms with
     | [] => ret true
     | m :: ms => ok <- all_of ms;; if ok then run_matcher sizzle m e c else ret false
     end) ms.
Definition run_one (ms : list matcher) (e : nat) (c : ctx) : M bool :=
  (fix one_of (ms : list matcher) : M bool :=
     match ms with
     | [] => ret false
     | m :: ms => ok <- run_matcher sizzle m e c;; if ok then ret true else one_of ms
     end) ms.
Lemma run_all_cons m ms e c : run_all (m :: ms) e c = (ok <- run_all ms e c;; if ok then run_matcher sizzle m e c else ret false).
Proof. reflexivity. Qed.
Lemma run_one_cons m ms e c : run_one (m :: ms) e c = (ok <- run_matcher sizzle m e c;; if ok then ret true else run_one ms e c).
Proof. reflexivity. Qed.
Lemma run_element_eq ms e c : run_matcher sizzle (MElement ms) e c = run_all ms e c.
Proof. reflexivity. Qed.

Lemma all_numbers_cons m ms : all_numbers (m :: ms) = numbers m ++ all_numbers ms.
Proof. reflexivity. Qed.
Lemma numbers_element ms : numbers (MElement ms) = all_numbers ms.
Proof. reflexivity. Qed.
Lemma own_numbers m : own m ⊆ numbers m.
Proof.
  induction m as [m Hm|r k m IH|m ms IH] using head_ind.
  - destruct m as [| | | | | | | | | | |[]]; cbn in *; try done; set_solver.
  - cbn. set_solver.
  - rewrite numbers_element, all_numbers_cons. cbn. set_solver.
Qed.

(** ** What is to be shown of the four kinds *)

Definition fits (free : bool) (c : ctx) : Prop := if free then c = NoContext else exists n, c = Node n.
Definition runs_alone (m : matcher) : Prop := forall v0 o c e s, good v0 o s -> is_element e = true ->
  yields (run_matcher sizzle m e c) s (fun b s' => b = sem o m c e /\ good v0 o s' /\ frame (numbers m) e s s').
Definition runs_linked (free : bool) (m : matcher) : Prop := forall v0 o c e s, fits free c -> good v0 o s ->
  inv true v0 o c m s -> is_element e = true ->
  yields (run_matcher sizzle m e c) s (fun b s' =>
    b = sem o m c e /\ good v0 o s' /\ frame (numbers m) e s s' /\ inv (negb b) v0 o c m s').
Definition runs_filters (ms : list matcher) : Prop := forall v0 o c e s, good v0 o s -> is_element e = true ->
  yields (run_all ms e c) s (fun b s' => b = sem o (MElement ms) c e /\ good v0 o s' /\ frame (all_numbers ms) e s s').
Definition runs_grouped (free : bool) (ms : list matcher) : Prop := forall v0 o c e s, fits free c -> good v0 o s ->
  Forall (fun m => inv true v0 o c m s) ms -> is_element e = true ->
  yields (run_one ms e c) s (fun b s' => b = sem_super o (Super 0 ms []) c e /\ good v0 o s' /\
    frame (all_numbers ms) e s s' /\ Forall (fun m => inv (negb b) v0 o c m s') ms).

(** ** The filters of one element *)

Lemma lang_at_enough fuel : forall lang e, (e < fuel)%nat -> lang_at fuel lang e <> None.
Proof.
  induction fuel as [|fuel IH]; intros lang e He; [lia|]. cbn [lang_at]. repeat (case_match; try done).
  all: match goal with H : parentNode _ = Some _ |- _ => apply parent_before in H end.
  all: apply IH; lia.
Qed.
Lemma run_pseudo_some p e : exists b, run_pseudo p e = Some b.
Proof.
  destruct p; cbn [run_pseudo]; eauto.
  - destruct (lang_at (S e) lang e) as [b|] eqn:E; [by exists b|]. by destruct (lang_at_enough (S e) lang e ltac:(lia)).
  - destruct (custom f); eauto.
Qed.

(** A matcher that leaves the state as it is. *)
Lemma runs_pure m : (forall e c s, run_matcher sizzle m e c s = Some (s, Good (sem Unset m c e))) ->
  (forall o c e, sem o m c e = sem Unset m c e) -> runs_alone m.
Proof.
  intros H Ho v0 o c e s G _. eexists _, _. split; [apply H|]. rewrite (Ho o c e). split; [done|]. split; [done|apply frame_refl].
Qed.
Lemma runs_child t w xy : runs_alone (MChild t w xy).
Proof.
  intros v0 o c e s G He. eapply yields_mono; [apply (run_child_ok v0); [apply G..|done]|].
  intros b s' (-> & T' & F). assert (F' : frame (numbers (MChild t w xy)) e s s') by (eapply frame_weaken; [exact F|set_solver|lia]).
  split; [done|]. split; [|done]. by eapply good_frame.
Qed.

(** ** [:not] *)

(** The state in which the matcher of a [:not] starts. *)
Definition nested (s : state) : state :=
  let s1 := with_draws (S (draws s)) s in
  with_dirruns (Runs (whole (dirruns s)) (added (dirruns s) ++ [draws s])) s1.
Lemma nested_frame ks e s : frame ks e s (nested s).
Proof. split; try done; try by left. - split; [done|]. by exists [draws s]. - cbn. lia. Qed.
Lemma nested_tidy s : tidy s -> tidy (nested s).
Proof.
  intros T. pose proof (nested_frame [] 0 s) as F. destruct T as [T1 T2 T3 T4]. split.
  - intros p j Hj. destruct (T1 _ _ Hj) as (a & Ha & Hk). exists a. split; [done|]. by eapply known_frame.
  - intros p t v i d H. eapply known_frame; [done|]. by eapply T2.
  - intros n t v d H. eapply known_frame; [done|]. by eapply T3.
  - destruct T4 as [_ T4]. split; [done|]. cbn. apply Forall_app. split; [|repeat constructor].
    eapply Forall_impl; [exact T4|]. cbn. lia.
Qed.
Lemma nested_unused s : tidy s -> unused (dirruns (nested s)) (nested s).
Proof.
  intros T p a (j & Hj & Ha) [_ (l & Hl)]. destruct (t_slots _ T _ _ Hj) as (a' & Ha' & [_ Hk]).
  cbn in Ha. rewrite Ha' in Ha. injection Ha as ->. rewrite Hl in Hk. cbn in Hk.
  apply Forall_app in Hk as [[_ Hk]%Forall_app _]. inversion Hk; lia.
Qed.
Lemma next_dirruns_nested s : outermostContext s <> Unset ->
  next_dirruns (outermostContext s) s = Some (nested s, Good (dirruns (nested s))).
Proof. intros H. unfold next_dirruns, bind, get. by destruct (outermostContext s). Qed.
Lemma runs_super_not n ms e s Q : outermostContext s <> Unset -> ms <> [] ->
  yields (run_one ms e NoContext) (nested s) Q ->
  yields (run_super sizzle (Super n ms []) (Some [Some e]) NoContext [] None) s
    (fun r s' => exists b : bool, r.2 = (if b then [e] else []) /\ Q b s').
Proof.
  intros Ho Hms HQ. cbn [run_super]. rewrite (bool_decide_eq_false_2 (length ms = 0%nat)) by (by destruct ms).
  apply yields_get, yields_pure.
  apply (yields_bind _ _ _ (fun (_ : runs) s1 => s1 = nested s)); [eexists _, _; by split; [apply next_dirruns_nested|]|].
  intros v s1 ->. apply yields_pure.
  apply (yields_bind _ _ _ (fun (r : list nat * array) (s' : state) => exists b : bool, r.1 = (if b then [e] else []) /\ Q b s')).
  - eapply yields_bind; [eapply yields_bind; [exact HQ|]|].
    + intros b s' Hb. apply yields_pure, yields_ret. instantiate (1 := Q). exact Hb.
    + intros b s' Hb. apply yields_ret. exists b. cbn. by destruct b.
  - intros r s' (b & Hr & Hb). destruct r as [l un]. cbn in Hr. subst l. cbn. exists (Some [], if b then [e] else []), s'. split; [done|].
    by exists b.
Qed.

Lemma runs_not n ms : runs_grouped true ms -> runs_alone (MNot (Super n ms [])).
Proof.
  intros H v0 o c e s G He. cbn [run_matcher].
  destruct (decide (ms = [])) as [->|Hms].
  { destruct G as [T K V O S].
    apply (yields_bind _ _ _ (fun (r : option array * list nat) s' => r.2 = [] /\ s' = nested s)).
    - cbn [run_super]. apply yields_get, yields_pure.
      apply (yields_bind _ _ _ (fun (_ : runs) (s1 : state) => s1 = nested s)); [eexists _, _; by split; [apply next_dirruns_nested; congruence|]|].
      intros v s1 ->. eexists _, _. split; [done|]. done.
    - intros r s' [-> ->]. apply yields_ret. split; [done|]. split; [|apply nested_frame].
      split; [by apply nested_tidy|by apply (kids_frame [] 0 _ s _ (nested_frame _ _ _))|etrans; [done|apply (nested_frame [] 0)]|done|done]. }
  assert (G1 : good (dirruns (nested s)) o (nested s)).
  { destruct G as [T K V O S]. split; [by apply nested_tidy| |done|done|done].
    destruct (kids_frame [] 0 v0 _ _ (nested_frame _ _ _) K) as [K1 K2].
    assert (Hv : extends v0 (dirruns (nested s))) by (etrans; [done|apply (nested_frame [] 0)]).
    split; [intros p t v i d Hp Hx; eapply K1; [done|by etrans]|intros n' t v d Hp Hx; eapply K2; [done|by etrans]]. }
  eapply yields_bind; [eapply (runs_super_not n ms e s); [destruct G; congruence|done|]|].
  - apply (H (dirruns (nested s)) o NoContext e); [done|done| |done]. apply Forall_forall. intros m _. apply inv_unused, nested_unused, G.
  - intros r s' (b & Hr & Hb & G' & F' & _). apply yields_ret.
    assert (F : frame (all_numbers ms) e s s') by (eapply frame_trans; [apply (nested_frame [] 0)|exact F'|set_solver|done|lia|lia]).
    split; [|split; [|exact F]].
    + change (sem o (MNot (Super n ms [])) c e) with (negb (sem_super o (Super 0 ms []) NoContext e)).
      rewrite Hr, <- Hb. by destruct b.
    + destruct G as [T K V O S]. split; [apply G'|by eapply kids_frame|etrans; [done|apply F]|apply G'|done].
Qed.

(** ** The way to the context *)

Lemma in_targets n l : existsb (fun x => (x =? n)%nat) l = bool_decide (n ∈ l).
Proof.
  apply eq_true_iff_eq. rewrite existsb_exists, bool_decide_eq_true. split.
  - intros (x & Hx & ->%Nat.eqb_eq). by apply list_elem_of_In.
  - intros H. exists n. split; [by apply list_elem_of_In|apply Nat.eqb_refl].
Qed.
Lemma runs_context free lead r k k' : free && negb lead = free -> runs_linked free (MContext lead r k k').
Proof.
  intros Hf v0 o c e s Hc G I He. cbn [run_matcher]. unfold reachable. apply yields_get. cbn [sem]. unfold sem_context.
  rewrite (g_out _ _ _ G).
  destruct (negb lead && (documentIsXML || negb (same_context c o))) eqn:E.
  { apply yields_ret. split; [done|]. split; [done|]. split; [apply frame_refl|]. by eapply inv_weak. }
  destruct free; cbn in Hc.
  { subst c. destruct lead; [done|]. cbn in E. by rewrite orb_true_r in E. }
  destruct Hc as (n & ->). cbn in I.
  eapply yields_mono; [apply (combine_ok v0 o k (dir_of r) (base_of r) (fun x => (x =? n)%nat) [] _ (fun _ _ => True)); try done|].
  - intros x s' G' _ _. apply yields_ret. split; [done|]. split; [done|]. split; [apply frame_refl|done].
  - set_solver.
  - intros b s' (-> & G' & F' & _ & C'). rewrite in_targets. split; [done|]. split; [done|].
    split; [eapply frame_weaken; [done|set_solver|lia]|]. cbn. by rewrite <- in_targets.
Qed.
Lemma runs_combine free r k m : runs_linked free m -> k ∉ numbers m -> runs_linked free (MCombine r k m).
Proof.
  intros H Hk v0 o c e s Hc G [C I] He. cbn [run_matcher].
  eapply yields_mono; [apply (combine_ok v0 o k (dir_of r) false (sem o m c) (numbers m) _ (fun b s => inv b v0 o c m s)); try done|].
  - intros x s' G' I' Hx. apply (H v0 o c x s' Hc G' I'). unfold counted in Hx. by rewrite orb_false_r in Hx.
  - intros b s1 s2 Ho. apply inv_only with [k]; [done|]. pose proof (own_numbers m). set_solver.
  - intros b s'. apply inv_weak.
  - intros b s' (-> & G' & F' & I' & C'). split; [done|]. split; [done|]. split; [done|]. by split.
Qed.
Lemma runs_element free m ms : runs_linked free m -> runs_filters ms -> own m ## all_numbers ms -> runs_linked free (MElement (m :: ms)).
Proof.
  intros H Hs Hd v0 o c e s Hc G I He. rewrite run_element_eq, run_all_cons, numbers_element, all_numbers_cons.
  change (sem o (MElement (m :: ms)) c e) with (sem o (MElement ms) c e && sem o m c e). cbn [inv] in I |- *.
  eapply yields_bind; [by apply Hs|]. intros b s1 (Hb & G1 & F1).
  assert (I1 : inv true v0 o c m s1) by (eapply inv_only; [apply (frame_only _ _ _ _ F1), G|done|done]).
  rewrite <- Hb. destruct b; cbn [andb].
  - eapply yields_mono; [by apply (H v0 o c e)|]. intros b s2 (-> & G2 & F2 & I2). split; [done|]. split; [done|]. split; [|done].
    eapply frame_trans; [exact F1|exact F2|set_solver|set_solver|lia|lia].
  - apply yields_ret. split; [done|]. split; [done|]. split; [|done]. eapply frame_weaken; [exact F1|set_solver|lia].
Qed.
Lemma runs_cons m ms : runs_alone m -> runs_filters ms -> runs_filters (m :: ms).
Proof.
  intros H Hs v0 o c e s G He. rewrite run_all_cons, all_numbers_cons.
  change (sem o (MElement (m :: ms)) c e) with (sem o (MElement ms) c e && sem o m c e).
  eapply yields_bind; [by apply Hs|]. intros b s1 (Hb & G1 & F1). rewrite <- Hb. destruct b; cbn [andb].
  - eapply yields_mono; [by apply (H v0 o c e)|]. intros b s2 (-> & G2 & F2). split; [done|]. split; [done|].
    eapply frame_trans; [exact F1|exact F2|set_solver|set_solver|lia|lia].
  - apply yields_ret. split; [done|]. split; [done|]. eapply frame_weaken; [exact F1|set_solver|lia].
Qed.
Lemma all_inv b b' v0 o c ms ks s s' : only ks s s' -> flat_map own ms ## ks -> (b = true \/ b' = false) ->
  Forall (fun m => inv b v0 o c m s) ms -> Forall (fun m => inv b' v0 o c m s') ms.
Proof.
  intros Ho Hd Hb H. induction H as [|m ms Hm Hms IH]; [done|]. cbn in Hd. constructor; [|apply IH; set_solver].
  eapply inv_only; [exact Ho|set_solver|]. destruct b'; [|by eapply inv_weak]. destruct Hb as [->|?]; [done|congruence].
Qed.
Lemma runs_group_cons free m ms : runs_linked free m -> runs_grouped free ms ->
  own m ## all_numbers ms -> flat_map own ms ## numbers m -> runs_grouped free (m :: ms).
Proof.
  intros H Hs D1 D2 v0 o c e s Hc G I He. apply Forall_cons in I as [I Is]. rewrite run_one_cons, all_numbers_cons.
  change (sem_super o (Super 0 (m :: ms) []) c e) with (sem o m c e || sem_super o (Super 0 ms []) c e).
  eapply yields_bind; [by apply (H v0 o c e)|]. intros b s1 (Hb & G1 & F1 & I1). rewrite <- Hb.
  pose proof (frame_only _ _ _ _ F1 (g_tidy _ _ _ G)) as O1. destruct b; cbn [orb negb].
  - apply yields_ret. split; [done|]. split; [done|]. split; [eapply frame_weaken; [exact F1|set_solver|lia]|].
    constructor; [done|]. apply (all_inv true _ _ _ _ _ _ _ _ O1); [done|by left|exact Is].
  - eapply yields_mono; [apply (Hs v0 o c e); [done|done| |done]|].
    + apply (all_inv true _ _ _ _ _ _ _ _ O1); [done|by left|exact Is].
    + intros b s2 (-> & G2 & F2 & I2). split; [done|]. split; [done|].
      split; [eapply frame_trans; [exact F1|exact F2|set_solver|set_solver|lia|lia]|].
      constructor; [|done]. eapply inv_only; [apply (frame_only _ _ _ _ F2), G1|done|].
      cbn in I1. destruct (negb _); [done|by eapply inv_weak].
Qed.

(** ** All shapes *)

Lemma run_shapes :
  (forall m, alone m -> runs_alone m) /\ (forall free m, linked free m -> runs_linked free m) /\
  (forall ms, filters ms -> runs_filters ms) /\ (forall free ms, grouped free ms -> runs_grouped free ms).
Proof.
  apply shape_ind; intros; try (by apply runs_pure).
  - apply runs_child.
  - apply runs_pure; [|done]. intros e c s. cbn. destruct (run_pseudo_some p e) as [b ->]. done.
  - by apply runs_not.
  - apply runs_context. by destruct free, leading.
  - by apply runs_combine.
  - by apply runs_element.
  - intros v0 o c e s G He. apply yields_ret. split; [done|]. split; [done|apply frame_refl].
  - by apply runs_cons.
  - intros v0 o c e s Hc G I He. apply yields_ret. split; [done|]. split; [done|]. split; [apply frame_refl|done].
  - by apply runs_group_cons.
Qed.
End Run.
