(* ===== verification/SizzleSearch.v ===== *)
(** * Sizzle: a whole search

    [search_ok]: the function of all groups, run on a list of elements, adds those that
    the selector means, in order, whatever earlier searches have left in the caches. *)

From Stdlib Require Import ZArith Lia.
From stdpp Require Import base tactics list numbers strings gmap.
From S2P Require Import Prelude JsValue ValidPage RegExec SizzleTokens Sizzle SizzleSelect SizzleSpec SizzleFrame SizzleChild SizzleRun.
Local Open Scope Z_scope.
Local Open Scope sizzle_scope.

(** ** The start of a search *)

(** The state after [dirruns] has got its new number. *)
Definition begun (s : state) : state :=
  match outermostContext s with
  | Unset => with_dirruns (Runs (whole (dirruns s) + 1) (added (dirruns s))) s
  | _ => nested s
  end.
Lemma next_dirruns_begun s : next_dirruns (outermostContext s) s = Some (begun s, Good (dirruns (begun s))).
Proof. unfold next_dirruns, begun, bind, get. by destruct (outermostContext s). Qed.
Lemma begun_known s v : known s v -> known (begun s) v.
Proof.
  intros [H1 H2]. unfold begun. destruct (outermostContext s); (split; cbn; [lia|]); [done|..];
    (eapply Forall_impl; [exact H2|]; cbn; lia).
Qed.
Lemma begun_fresh s v : known s v -> ~ extends (dirruns (begun s)) v.
Proof.
  intros [H1 H2] [H3 (l & H4)]. unfold begun in *. destruct (outermostContext s); cbn in *; [lia|..];
    (rewrite H4 in H2; apply Forall_app in H2 as [[_ H2]%Forall_app _]; inversion H2; lia).
Qed.
Lemma begun_tidy s : tidy s -> tidy (begun s).
Proof.
  intros [T1 T2 T3 T4]. assert (Hs : slots (begun s) = slots s /\ arrays (begun s) = arrays s /\ nth_of (begun s) = nth_of s /\ last_of (begun s) = last_of s)
    by (unfold begun; by destruct (outermostContext s)).
  destruct Hs as (E1 & E2 & E3 & E4). split; rewrite ?E1, ?E2, ?E3, ?E4.
  - intros p j Hj. destruct (T1 _ _ Hj) as (a & Ha & Hk). exists a. split; [done|]. by apply begun_known.
  - intros p t v i d H. apply begun_known. by eapply T2.
  - intros n t v d H. apply begun_known. by eapply T3.
  - destruct T4 as [T4 T5]. unfold begun. destruct (outermostContext s); (split; [cbn; lia|]); cbn; [done|..];
      (apply Forall_app; split; [eapply Forall_impl; [exact T5|]; cbn; lia|repeat constructor]).
Qed.

(** What a search leaves alone. *)
Definition same_rest (s s' : state) : Prop :=
  supers s' = supers s /\ doneNames s' = doneNames s /\ tokenCache s' = tokenCache s /\ compilerCache s' = compilerCache s /\ ids s' = ids s.
#[export] Instance same_rest_preorder : PreOrder same_rest.
Proof. split; [done|]. intros a b c (H1 & H2 & H3 & H4 & H5) (K1 & K2 & K3 & K4 & K5). repeat split; congruence. Qed.

Section Search.
Context {D : Document} {L : DocumentLaws D}.
Context (sizzle : jstr -> nat -> list nat -> M (list nat)).

Lemma flag_node n : context_flag (Node n) <> Unset.
Proof. by destruct n. Qed.
(** The state in which the first element is looked at. *)
Definition started (q : nat) (c : ctx) (s : state) : state :=
  let s1 := with_outermost (context_flag c) (begun s) in
  with_cachedruns (default 0 (matcherCachedRuns s1 !! q)) s1.
Lemma started_good q n s : tidy s -> good (dirruns (begun s)) (context_flag (Node n)) (started q (Node n) s).
Proof.
  intros T. pose proof (begun_tidy s T) as [B1 B2 B3 B4]. split; [by split| |done|done|apply flag_node].
  assert (Hs : nth_of (begun s) = nth_of s /\ last_of (begun s) = last_of s) by (unfold begun; by destruct (outermostContext s)).
  destruct Hs as [E3 E4]. split.
  - intros p t v i d H Hv. change (nth_of (started q (Node n) s)) with (nth_of (begun s)) in H. rewrite E3 in H.
    by destruct (begun_fresh s v (t_nth _ T _ _ _ _ _ H)).
  - intros m t v d H Hv. change (last_of (started q (Node n) s)) with (last_of (begun s)) in H. rewrite E4 in H.
    by destruct (begun_fresh s v (t_last _ T _ _ _ _ H)).
Qed.
Lemma started_unused q c s : tidy s -> unused (dirruns (begun s)) (started q c s).
Proof.
  intros T p a (j & Hj & Ha). 
  assert (Hs : slots (begun s) = slots s /\ arrays (begun s) = arrays s) by (unfold begun; by destruct (outermostContext s)).
  destruct Hs as [E1 E2]. cbn in Hj, Ha. rewrite E1 in Hj. rewrite E2 in Ha.
  destruct (t_slots _ T _ _ Hj) as (a' & Ha' & Hk). rewrite Ha' in Ha. injection Ha as ->. by apply begun_fresh.
Qed.

(** ** From one element to the next *)

Definition bumped (v : runs) (q : nat) (s : state) : state :=
  let k := default 0 (matcherCachedRuns s !! q) + 1 in
  with_cachedruns k (with_super (supers s) (<[q := k]> (matcherCachedRuns s)) (with_dirruns v s)).
Lemma bumped_good v o q s : good v o s -> good v o (bumped v q s).
Proof.
  intros [T K V O S]. split; [|done|done|done|done]. destruct V as [V1 (l & V2)]. destruct T as [T1 T2 T3 T4].
  assert (Hk : forall v', known s v' -> known (bumped v q s) v').
  { intros v' [H1 H2]. split; [cbn; lia|done]. }
  split.
  - intros p j Hj. destruct (T1 _ _ Hj) as (a & Ha & Hka). exists a. split; [done|]. by apply Hk.
  - intros p t v' i d H. by eapply Hk, T2.
  - intros n t v' d H. by eapply Hk, T3.
  - split; [done|]. cbn. destruct T4 as [_ T4]. rewrite V2 in T4. by apply Forall_app in T4 as [T4 _].
Qed.
Lemma bumped_comb v0 k d ne f v q s : cachedruns s = default 0 (matcherCachedRuns s !! q) ->
  comb_ok (every false) v0 k d ne f s -> comb_ok (every true) v0 k d ne f (bumped v q s).
Proof.
  intros Hq H x a Ha Hv Hk. specialize (H x a Ha Hv Hk). destruct (result_of a) as [[|n]|]; [done| |done].
  destruct H as (H1 & H2 & _). split; [done|]. cbn. split; [lia|]. intros _ Hn. lia.
Qed.
Lemma bumped_inv v0 o c m v q s : cachedruns s = default 0 (matcherCachedRuns s !! q) ->
  inv false v0 o c m s -> inv true v0 o c m (bumped v q s).
Proof.
  intros Hq. induction m as [m Hm|r k m IH|m ms IH] using head_ind; cbn [inv].
  - destruct m as [| | | | | | | | |lead r k k'| |[]]; try done. destruct c; [done| |done]. by apply bumped_comb.
  - intros [H1 H2]. split; [by apply bumped_comb|by apply IH].
  - done.
Qed.

(** The loop over the elements, of an outermost search without set matchers. *)
Definition each_of (ms : list matcher) (q : nat) (c : ctx) (v : runs) :=
  fix each (elems : array) (results : list nat) (taken : bool) (unmatched : array) : M (list nat * array) :=
    match elems with
    | [] => ret (results, rev unmatched)
    | x :: elems =>
        taken <- match x with
                 | Some e =>
                     ok <- run_one sizzle ms e c;;
                     (modify (with_dirruns v);;;
                      modify (fun s => let k := default 0 (matcherCachedRuns s !! q) + 1 in
                        with_cachedruns k (with_super (supers s) (<[q := k]> (matcherCachedRuns s)) s)));;;
                     ret ok
                 | None => ret taken
                 end;;
        each elems (match x with Some e => if taken then results ++ [e] else results | None => results end)
          taken ((if taken then None else x) :: unmatched)
    end.

Section Loop.
Context (ms : list matcher) (q n : nat) (v : runs) (Hms : grouped false ms).
Let o := context_flag (Node n).
Definition ready (s : state) : Prop :=
  good v o s /\ cachedruns s = default 0 (matcherCachedRuns s !! q) /\ Forall (fun m => inv true v o (Node n) m s) ms.
Lemma frame_rest ks e s s' : frame ks e s s' -> same_rest s s'.
Proof. intros F. repeat split; apply F. Qed.

Lemma ready_bumped b s : good v o s -> cachedruns s = default 0 (matcherCachedRuns s !! q) ->
  Forall (fun m => inv b v o (Node n) m s) ms -> ready (bumped v q s).
Proof.
  intros G Hq I. split; [by apply bumped_good|]. split; [cbn; by rewrite lookup_insert_eq|].
  eapply Forall_impl; [exact I|]. intros m Hm. apply bumped_inv; [done|]. eapply inv_weak. exact Hm.
Qed.
Lemma each_ok l : forall results taken unmatched s, ready s -> Forall (fun e => is_element e = true) l ->
  yields (each_of ms q (Node n) v (map Some l) results taken unmatched) s (fun r s' =>
    r.1 = results ++ filter (fun e => sem_super o (Super q ms []) (Node n) e = true) l /\ ready s' /\ same_rest s s').
Proof.
  induction l as [|e l IH]; intros results taken unmatched s R Hl.
  - apply yields_ret. cbn. by rewrite app_nil_r.
  - apply Forall_cons in Hl as [He Hl]. destruct R as (G & Hq & I). cbn [map each_of].
    destruct (proj2 (proj2 (proj2 (run_shapes sizzle))) false ms Hms v o (Node n) e s ltac:(by exists n) G I He)
      as (b & s1 & E1 & Hb & G1 & F1 & I1).
    assert (R1 : ready (bumped v q s1)).
    { eapply ready_bumped; [done| |exact I1]. by rewrite (f_runs _ _ _ _ F1), (f_matcher _ _ _ _ F1). }
    apply (yields_bind _ _ _ (fun b' s' => b' = b /\ s' = bumped v q s1)).
    { exists b, (bumped v q s1). split; [|done]. unfold bind. rewrite E1. reflexivity. }
    intros b' s' [-> ->]. eapply yields_mono; [by apply IH|]. intros r s' (-> & R' & S').
    split; [|split; [done|]].
    + rewrite filter_cons. change (sem_super o (Super q ms []) (Node n) e) with (sem_super o (Super 0 ms []) (Node n) e).
      rewrite <- Hb. destruct b; [rewrite decide_True by done; by rewrite <- app_assoc|by rewrite decide_False].
    + etrans; [by eapply frame_rest|]. exact S'.
Qed.
End Loop.

(** ** The search *)

Definition search_frame (s s' : state) : Prop :=
  tidy s' /\ outermostContext s' = outermostContext s /\ same_rest s s'.

Lemma search_end v s0 s : v = dirruns (begun s0) -> tidy s0 -> good v (context_flag (Node 0)) s \/ (exists n, good v (context_flag (Node n)) s) ->
  same_rest s0 s -> search_frame s0 (with_outermost (outermostContext s0) (with_dirruns v s)).
Proof.
  intros -> T0 G R. assert (exists o, good (dirruns (begun s0)) o s) as [o [T K V O S]] by (destruct G as [G|[n G]]; eauto).
  split; [|split; [done|exact R]]. destruct V as [V1 (l & V2)]. destruct T as [T1 T2 T3 T4].
  assert (Hk : forall v', known s v' -> known (with_outermost (outermostContext s0) (with_dirruns (dirruns (begun s0)) s)) v').
  { intros v' [H1 H2]. split; [cbn; lia|done]. }
  split.
  - intros p j Hj. destruct (T1 _ _ Hj) as (a & Ha & Hka). exists a. split; [done|]. by apply Hk.
  - intros p t v' i d H. by eapply Hk, T2.
  - intros n t v' d H. by eapply Hk, T3.
  - split; [done|]. cbn. destruct T4 as [_ T4]. rewrite V2 in T4. by apply Forall_app in T4 as [T4 _].
Qed.
(** The part of the search after its elements are known. *)
Lemma search_tail q ms n l results s (k : runs -> list nat * array -> M (option array * list nat)) :
  ms <> [] -> grouped false ms -> tidy s -> Forall (fun e => is_element e = true) l ->
  (forall v r s', exists w, k v r s' = Some (with_outermost (outermostContext s) (with_dirruns v s'), Good (w, r.1))) ->
  yields (dirrunsUnique <- next_dirruns (outermostContext s);;
          (modify (with_outermost (context_flag (Node n)));;; modify (fun s => with_cachedruns (default 0 (matcherCachedRuns s !! q)) s));;;
          r <- each_of ms q (Node n) dirrunsUnique (map Some l) results false [];;
          k dirrunsUnique r) s
    (fun r s' => r.2 = results ++ filter (fun e => sem_super (context_flag (Node n)) (Super q ms []) (Node n) e = true) l /\ search_frame s s').
Proof.
  intros Hms Hg T Hl Hk.
  apply (yields_bind _ _ _ (fun v s1 => v = dirruns (begun s) /\ s1 = begun s)).
  { eexists _, _. split; [apply next_dirruns_begun|]. done. }
  intros v s1 [-> ->]. apply (yields_bind _ _ _ (fun _ s1 => s1 = started q (Node n) s)).
  { eexists tt, _. split; reflexivity. }
  intros ? s1 ->. eapply yields_bind.
  - apply (each_ok ms q n (dirruns (begun s)) Hg l results false []); [|done].
    split; [by apply started_good|]. split; [done|]. apply Forall_forall. intros m _. by apply inv_unused, started_unused.
  - intros r s2 (Hr & (G & _) & R). destruct (Hk (dirruns (begun s)) r s2) as [w Hw].
    eexists _, _. split; [exact Hw|]. split; [exact Hr|].
    apply search_end; [done|done|by right; exists n|].
    etrans; [|exact R]. unfold started, begun, nested. by destruct (outermostContext s).
Qed.

(** On a seed set. *)
Lemma search_seed q ms n l results b s : ms <> [] -> grouped false ms -> tidy s -> Forall (fun e => is_element e = true) l ->
  yields (run_super sizzle (Super q ms []) (Some (map Some l)) (Node n) results (Some b)) s
    (fun r s' => r.2 = results ++ filter (fun e => sem_super (context_flag (Node n)) (Super q ms []) (Node n) e = true) l /\ search_frame s s').
Proof.
  intros Hms Hg T Hl. cbn [run_super]. rewrite (bool_decide_eq_false_2 (length ms = 0%nat)) by (by destruct ms).
  apply yields_get, yields_pure.
  apply (search_tail q ms n l results s); [done..|]. intros v [r1 r2] s'. by exists (Some [] : option array).
Qed.
(** On all elements. *)
Lemma search_all q ms n results (b : bool) s : ms <> [] -> grouped false ms -> tidy s ->
  let top := if b then default n (parentNode n) else n in
  Forall (fun e => is_element e = true) (getElementsByTagName (u "*") top) ->
  yields (run_super sizzle (Super q ms []) None (Node n) results (Some b)) s
    (fun r s' => r.2 = results ++ filter (fun e => sem_super (context_flag (Node n)) (Super q ms []) (Node n) e = true)
                                     (getElementsByTagName (u "*") top) /\ search_frame s s').
Proof.
  intros Hms Hg T top Hl. cbn [run_super]. rewrite (bool_decide_eq_false_2 (length ms = 0%nat)) by (by destruct ms).
  apply yields_get, yields_pure.
  apply (search_tail q ms n (getElementsByTagName (u "*") top) results s); [done..|]. intros v [r1 r2] s'. by exists (None : option array).
Qed.
End Search.
