(* ===== verification/SizzleTidy.v ===== *)
(** * Sizzle: the caches after any search

    Whatever is searched, on whatever document, also when the search ends with an error,
    the keys of the caches are of runs that began: [sizzle_tidy]. *)

From Stdlib Require Import ZArith Lia.
From stdpp Require Import base tactics list numbers strings gmap.
From S2P Require Import Prelude JsValue ValidPage RegExec SizzleTokens Sizzle SizzleSelect SizzleSpec SizzleFrame SizzleRun SizzleSearch.
Local Open Scope Z_scope.

Local Open Scope sizzle_scope.

(** ** What a computation keeps *)

Record later (s s' : state) : Prop := {
  l_tidy : tidy s';
  l_draws : (draws s <= draws s')%nat;
  l_whole : whole (dirruns s) <= whole (dirruns s');
  l_outer : outermostContext s <> Unset -> outermostContext s' <> Unset /\ whole (dirruns s') = whole (dirruns s)
}.
Lemma later_refl s : tidy s -> later s s.
Proof. by split. Qed.
Lemma later_trans s1 s2 s3 : later s1 s2 -> later s2 s3 -> later s1 s3.
Proof.
  intros [T1 D1 W1 O1] [T2 D2 W2 O2]. split; [done|lia|lia|]. intros H. destruct (O1 H) as [H1 E1].
  destruct (O2 H1) as [H2 E2]. split; [done|congruence].
Qed.
Lemma known_later s s' v : later s s' -> known s v -> known s' v.
Proof. intros [T D W O] [H1 H2]. split; [lia|]. eapply Forall_impl; [exact H2|]. cbn. lia. Qed.

Definition kept {A} (s : state) (o : option (state * outcome A)) : Prop :=
  match o with
  | Some (s', Good _) => later s s' /\ outermostContext s' = outermostContext s
  | Some (s', Bad) => later s s'
  | None => True
  end.
(** [keeps_at v]: where the number [v] is one of a run that began. *)
Definition keeps_at {A} (v : runs) (m : M A) : Prop := forall s, tidy s -> known s v -> kept s (m s).
Definition keeps {A} (m : M A) : Prop := forall s, tidy s -> kept s (m s).
Lemma keeps_any {A} v (m : M A) : keeps m -> keeps_at v m.
Proof. intros H s T _. by apply H. Qed.

Lemma kept_bind {A B} (m : M A) (k : A -> M B) s : tidy s -> kept s (m s) ->
  (forall a s', tidy s' -> later s s' -> kept s' (k a s')) -> kept s (bind m k s).
Proof.
  intros T H Hk. unfold bind. destruct (m s) as [[s1 [a|]]|]; [|done|done]. destruct H as [H1 H2].
  specialize (Hk a s1 (l_tidy _ _ H1) H1). unfold kept in *. destruct (k a s1) as [[s2 [b|]]|]; [|by eapply later_trans|done].
  destruct Hk as [H3 H4]. split; [by eapply later_trans|congruence].
Qed.
Lemma keep_ret {A} (a : A) : keeps (ret a).
Proof. intros s T. split; [by apply later_refl|done]. Qed.
Lemma keeps_fail {A} : keeps (@fail A).
Proof. intros s T. by apply later_refl. Qed.
Lemma keeps_no_end {A} : keeps (@no_end A).
Proof. done. Qed.
Lemma keeps_lift {A} (a : attempt A) : keeps (lift a).
Proof. intros s T. unfold lift. destruct a as [[a|]|]; [|by apply later_refl|done]. split; [by apply later_refl|done]. Qed.
Lemma keep_get {A} (g : state -> A) : keeps (get g).
Proof. intros s T. split; [by apply later_refl|done]. Qed.
Lemma keep_bind {A B} (m : M A) (k : A -> M B) : keeps m -> (forall a, keeps (k a)) -> keeps (bind m k).
Proof. intros H Hk s T. apply kept_bind; [done|by apply H|]. intros a s' T' _. by apply Hk. Qed.
Lemma keeps_at_bind {A B} v (m : M A) (k : A -> M B) : keeps_at v m -> (forall a, keeps_at v (k a)) -> keeps_at v (bind m k).
Proof. intros H Hk s T K. apply kept_bind; [done|by apply H|]. intros a s' T' L. apply Hk; [done|]. by eapply known_later. Qed.
(** The number of the present run. *)
Lemma keeps_now {A} (k : runs -> M A) : (forall v, keeps_at v (k v)) -> keeps (bind (get dirruns) k).
Proof. intros H s T. apply H; [done|by apply T]. Qed.
(** What does not touch the caches. *)
Lemma keeps_rest f : (forall s, slots (f s) = slots s /\ arrays (f s) = arrays s /\ nth_of (f s) = nth_of s /\ last_of (f s) = last_of s /\
    dirruns (f s) = dirruns s /\ draws (f s) = draws s /\ outermostContext (f s) = outermostContext s) -> keeps (modify f).
Proof.
  intros H s [T1 T2 T3 T4]. destruct (H s) as (E1 & E2 & E3 & E4 & E5 & E6 & E7). unfold known in *. cbn. split; [|done].
  split; rewrite ?E5, ?E6, ?E7; [|done|done|done]. split; unfold known; rewrite ?E1, ?E2, ?E3, ?E4, ?E5, ?E6; done.
Qed.

(** A change of the caches that adds keys of known runs only. *)
Lemma later_caches s s' : dirruns s' = dirruns s -> draws s' = draws s -> outermostContext s' = outermostContext s -> tidy s' ->
  later s s' /\ outermostContext s' = outermostContext s.
Proof. intros E1 E2 E3 T. split; [|done]. split; [done|by rewrite E2|by rewrite E1|by rewrite E1, E3]. Qed.
Lemma keeps_nth v key i d : keeps_at v (modify (fun s => with_nth (<[key := (v, i, d)]> (nth_of s)) s)).
Proof.
  intros s [T1 T2 T3 T4] K. apply later_caches; [done..|]. split; try done. intros p t v' i' d'. cbn. rewrite lookup_insert_Some.
  intros [[_ [= <- <- <-]]|[_ H]]; [done|by eapply T2].
Qed.
Lemma keeps_last v key d : keeps_at v (modify (fun s => with_last (<[key := (v, d)]> (last_of s)) s)).
Proof.
  intros s [T1 T2 T3 T4] K. apply later_caches; [done..|]. split; try done. intros p t v' d'. cbn. rewrite lookup_insert_Some.
  intros [[_ [= <- <-]]|[_ H]]; [done|by eapply T3].
Qed.
Lemma keeps_array v k i r : keeps_at v (modify (fun s => with_arrays (<[i := CacheArray (v, k) (r s)]> (arrays s)) s)).
Proof.
  intros s [T1 T2 T3 T4] K. apply later_caches; [done..|]. split; try done. intros p j Hj. destruct (T1 _ _ Hj) as (a & Ha & Hk). cbn.
  destruct (decide (i = j)) as [<-|Hne].
  - eexists. rewrite list_lookup_insert_eq by (by apply lookup_lt_Some in Ha). done.
  - exists a. by rewrite list_lookup_insert_ne.
Qed.
Lemma keeps_mark {A} v k x d (h : nat -> M A) : (forall i, keeps_at v (h i)) ->
  keeps_at v (i <- new_array (CacheArray (v, k) None);; modify (fun s => with_slots (<[(x, d) := i]> (slots s)) s);;; h i).
Proof.
  intros H s T K.
  change (kept s (h (length (arrays s)) (marked k d s x v))).
  assert (T' : tidy (marked k d s x v)) by (by apply marked_tidy).
  assert (L : later s (marked k d s x v)) by (by apply later_caches).
  pose proof (H (length (arrays s)) _ T' (known_later _ _ _ L K)) as Hh. unfold kept in *.
  destruct (h _ _) as [[s2 [b|]]|]; [|by eapply later_trans|done]. destruct Hh as [H3 H4]. split; [by eapply later_trans|done].
Qed.

(** ** The loops on the nodes *)

Ltac keep_step :=
  match goal with
  | |- keeps (bind _ _) => apply keep_bind; [|intros ?]
  | |- keeps_at _ (bind _ _) => apply keeps_at_bind; [|intros ?]
  | |- keeps (ret _) => apply keep_ret
  | |- keeps fail => apply keeps_fail
  | |- keeps no_end => apply keeps_no_end
  | |- keeps (lift _) => apply keeps_lift
  | |- keeps (get _) => apply keep_get
  | |- keeps_at _ (ret _) => apply keeps_any, keep_ret
  | |- keeps_at _ no_end => apply keeps_any, keeps_no_end
  | |- keeps_at _ (get _) => apply keeps_any, keep_get
  | |- keeps_at _ (modify (fun s => with_nth _ _)) => apply keeps_nth
  | |- keeps_at _ (modify (fun s => with_last _ _)) => apply keeps_last
  | |- keeps (match ?x with _ => _ end) => destruct x
  | |- keeps_at _ (match ?x with _ => _ end) => destruct x
  end.
Ltac keeping := repeat (keep_step || (progress cbn zeta)); try done.

Section Loops.
Context {D : Document}.

Lemma seek_keeps v fuel step counts visit e : (forall n i d, keeps_at v (visit n i d)) -> forall node k d start,
  keeps_at v (seek fuel step counts visit e node k d start).
Proof.
  intros Hv. induction fuel as [|fuel IH]; intros node k d start; cbn [seek]; [apply keeps_any, keeps_no_end|].
  destruct (match node with Some n => step n | None => None end) as [n|].
  - destruct (counts n); [|apply IH]. apply keeps_at_bind; [apply Hv|intros _]. keeping.
  - destruct start as [n|]; [|apply keeps_any, keep_ret]. destruct (counts n); [|apply IH]. apply keeps_at_bind; [apply Hv|intros _]. keeping.
Qed.
Lemma child_index_keeps t o e p : keeps (child_index t o e p).
Proof.
  unfold child_index. apply keeps_now. intros v.
  assert (Hanew : forall step counts start, keeps_at v (r <- seek (2 * size + 2) step counts
    (fun n _ d => if useCache o then modify (fun s => with_last (<[(n, t) := (v, d)]> (last_of s)) s) else ret tt) e None 0 0 start;; ret r.2)).
  { intros step counts start. apply keeps_at_bind; [|intros ?; keeping]. apply seek_keeps. intros n i d. keeping. }
  destruct (_ && _).
  - apply keeps_at_bind; [keeping|]. intros c. match goal with |- context [match c with Some _ => _ | None => _ end] => set (z := match c with Some _ => _ | None => _ end) end.
    destruct z as [[node k] d]. apply keeps_at_bind; [|intros ?; keeping]. apply seek_keeps. intros n i d'. keeping.
  - apply keeps_at_bind; [keeping|]. intros [[r d]|]; [|apply Hanew]. destruct (_ && _); [keeping|apply Hanew].
Qed.
Lemma run_child_keeps t w xy e : keeps (run_child t w xy e).
Proof.
  unfold run_child. destruct (bool_decide _); [keeping|]. destruct (parentNode e); [|keeping].
  destruct (negb _); [keeping|]. destruct (default (0, 0) xy). apply keep_bind; [apply child_index_keeps|intros ?; keeping].
Qed.

Context (inner : nat -> M bool) (Hinner : forall x, keeps (inner x)).
Lemma nearest_keeps fuel step ne : forall e, keeps (nearest fuel step ne inner e).
Proof. induction fuel as [|fuel IH]; intros e; cbn [nearest]; keeping. Qed.
Lemma walk_xml_keeps fuel step ne : forall e, keeps (walk_xml fuel step ne inner e).
Proof. induction fuel as [|fuel IH]; intros e; cbn [walk_xml]; keeping. Qed.
Lemma walk_keeps v k fuel d ne : forall e, keeps_at v (walk fuel d ne (v, k) inner e).
Proof.
  induction fuel as [|fuel IH]; intros e; cbn [walk]; [keeping|]. destruct (along d e) as [x|]; [|keeping].
  destruct (is_element x || ne); [|apply IH]. apply keeps_at_bind; [keeping|intros c]. apply keeps_at_bind; [keeping|intros now].
  match goal with |- context [match c with Some _ => _ | None => ?l end] => assert (Hlook : keeps_at v l) end.
  { apply keeps_mark. intros i. apply keeps_at_bind; [by apply keeps_any|intros r].
    apply keeps_at_bind; [apply (keeps_array v k i (fun s => Some (if r then Matched else Failed (cachedruns s))))|intros ?]. destruct r; [keeping|apply IH]. }
  destruct c as [a|]; [|exact Hlook]. destruct (decide _); [|exact Hlook]. destruct (result_of a) as [[|n]|]; [keeping| |apply IH].
  destruct (n =? now); [keeping|apply IH].
Qed.
Lemma combine_keeps r k base e : keeps (combine r k base inner e).
Proof.
  unfold combine. destruct (first_of r); [apply nearest_keeps|]. destruct documentIsXML; [apply walk_xml_keeps|].
  apply keeps_now. intros v. apply walk_keeps.
Qed.
End Loops.
Lemma reachable_keeps {D : Document} lead r k k' e c : keeps (reachable lead r k k' e c).
Proof.
  unfold reachable. apply keep_bind; [keeping|intros o]. destruct (_ && _); [keeping|].
  destruct c; [keeping|..]; apply combine_keeps; intros x; keeping.
Qed.

(** ** Induction on what is compiled *)

Section Induction.
Context (P : matcher -> Prop) (Q : setm -> Prop) (R : super -> Prop).
Context (H_one : forall m, match m with MNot _ | MCombine _ _ _ | MElement _ => False | _ => True end -> P m).
Context (H_not : forall s, R s -> P (MNot s)) (H_combine : forall r k m, P m -> P (MCombine r k m)).
Context (H_element : forall ms, Forall P ms -> P (MElement ms)).
Context (H_position : forall p a, Q (SPosition p a)) (H_snot : forall s, R s -> Q (SNot s)).
Context (H_set : forall pre sel m post finder, (forall p, pre = Some p -> P p) -> (forall x, m = Some x -> Q x) ->
  (forall x, post = Some x -> Q x) -> (forall x, finder = Some x -> Q x) -> Q (SSet pre sel m post finder)).
Context (H_super : forall n ms ss, Forall P ms -> Forall Q ss -> R (Super n ms ss)).
Fixpoint matcher_all (m : matcher) : P m
with setm_all (s : setm) : Q s
with super_all (s : super) : R s.
Proof.
  - destruct m as [| | | | | | | |s| |r k m|ms]; [apply H_one; exact I..|apply H_not, super_all|apply H_one; exact I|apply H_combine, matcher_all|].
    apply H_element. induction ms as [|m ms IH]; constructor; [apply matcher_all|exact IH].
  - destruct s as [p a|s|pre sel m post finder]; [apply H_position|apply H_snot, super_all|].
    apply H_set.
    + destruct pre as [p|]; [intros q [= <-]; apply matcher_all|intros q e; discriminate e].
    + destruct m as [p|]; [intros q [= <-]; apply setm_all|intros q e; discriminate e].
    + destruct post as [p|]; [intros q [= <-]; apply setm_all|intros q e; discriminate e].
    + destruct finder as [p|]; [intros q [= <-]; apply setm_all|intros q e; discriminate e].
  - destruct s as [n ms ss]. apply H_super.
    + induction ms as [|m ms IH]; constructor; [apply matcher_all|exact IH].
    + induction ss as [|m ss IH]; constructor; [apply setm_all|exact IH].
Qed.
End Induction.

(** ** What was compiled *)

Section Run.
Context {D : Document}.
Context (sizzle : jstr -> nat -> list nat -> M (list nat)) (Hsizzle : forall t c l, keeps (sizzle t c l)).

Definition keeps_matcher (m : matcher) : Prop := forall e c, keeps (run_matcher sizzle m e c).
Definition keeps_set (s : setm) : Prop := forall seed results c, keeps (run_set sizzle s seed results c).
(** With a context when it is the outermost search. *)
Definition keeps_super (s : super) : Prop := forall seed c results expand,
  (expand = None \/ exists n, c = Node n) -> keeps (run_super sizzle s seed c results expand).

Lemma multiple_keeps t cs : forall l, keeps (multipleContexts sizzle t cs l).
Proof. induction cs as [|c cs IH]; intros l; cbn; [apply keep_ret|]. apply keep_bind; [apply Hsizzle|done]. Qed.
Lemma begun_later s : tidy s -> later s (begun s).
Proof.
  intros T. split; [by apply begun_tidy|..]; unfold begun; destruct (outermostContext s) eqn:E; cbn; rewrite ?E; try lia; done.
Qed.
Lemma next_keeps : keeps (bind (get outermostContext) next_dirruns).
Proof.
  intros s T. change (kept s (next_dirruns (outermostContext s) s)). rewrite next_dirruns_begun.
  split; [by apply begun_later|]. unfold begun. destruct (outermostContext s) eqn:E; cbn; by rewrite ?E.
Qed.

(** Inside an outermost search of the number [v]. *)
Definition inside (o : outermost) (v : runs) (s : state) : Prop :=
  tidy s /\ outermostContext s = o /\ whole (dirruns s) = whole v /\ known s v.
Definition stays {A} (o : outermost) (v : runs) (m : M A) : Prop := forall s, inside o v s ->
  match m s with
  | Some (s', Good _) => inside o v s' /\ (draws s <= draws s')%nat
  | Some (s', Bad) => tidy s' /\ outermostContext s' <> Unset /\ whole (dirruns s') = whole v /\ (draws s <= draws s')%nat
  | None => True
  end.
Lemma stays_keeps {A} o v (m : M A) : o <> Unset -> keeps m -> stays o v m.
Proof.
  intros Ho H s (T & <- & Hw & K). specialize (H s T). unfold kept in H. destruct (m s) as [[s' [a|]]|]; [| |done].
  - destruct H as [L E]. destruct (l_outer _ _ L Ho) as [_ E']. split; [|apply L]. split; [apply L|]. split; [done|]. split; [congruence|].
    by eapply known_later.
  - destruct (l_outer _ _ H Ho) as [O' E']. split; [apply H|]. split; [done|]. split; [congruence|apply H].
Qed.
Lemma stays_bind {A B} o v (m : M A) (k : A -> M B) : stays o v m -> (forall a, stays o v (k a)) -> stays o v (bind m k).
Proof.
  intros H Hk s Hs. specialize (H s Hs). unfold bind. destruct (m s) as [[s1 [a|]]|]; [|done|done]. destruct H as [H D1].
  specialize (Hk a s1 H). destruct (k a s1) as [[s2 [b|]]|]; [| |done].
  - destruct Hk. split; [done|lia].
  - destruct Hk as (H2 & H3 & H4 & H5). split; [done|]. split; [done|]. split; [done|lia].
Qed.
Lemma stays_reset o v : stays o v (modify (with_dirruns v)).
Proof.
  intros s ([T1 T2 T3 T4] & Ho & Hw & K). cbn. split; [|done]. 
  assert (Hk : forall v', known s v' -> known (with_dirruns v s) v') by (intros v' [H1 H2]; split; [cbn; lia|done]).
  split; [split|split; [done|split; [done|by apply Hk]]].
  - intros p j Hj. destruct (T1 _ _ Hj) as (a & Ha & Hka). exists a. split; [done|]. by apply Hk.
  - intros p t v' i d H. by eapply Hk, T2.
  - intros n t v' d H. by eapply Hk, T3.
  - by apply Hk.
Qed.
Lemma stays_ret {A} o v (a : A) : o <> Unset -> stays o v (ret a).
Proof. intros Ho. apply stays_keeps; [done|apply keep_ret]. Qed.

(** ** The loops over matchers *)

Lemma run_one_keeps ms e c : Forall keeps_matcher ms -> keeps (run_one sizzle ms e c).
Proof.
  induction 1 as [|m ms Hm Hms IH]; [apply keep_ret|]. rewrite run_one_cons. apply keep_bind; [apply Hm|intros []; [apply keep_ret|exact IH]].
Qed.
Lemma run_all_keeps ms e c : Forall keeps_matcher ms -> keeps (run_all sizzle ms e c).
Proof.
  induction 1 as [|m ms Hm Hms IH]; [apply keep_ret|]. rewrite run_all_cons. apply keep_bind; [exact IH|intros []; [apply Hm|apply keep_ret]].
Qed.
(** Every instance of a loop, for a goal about one. *)
Ltac each_instance :=
  match goal with
  | |- keeps (?f ?x1 ?x2 ?x3 ?x4) => cut (forall a b c d, keeps (f a b c d)); [by intros H; apply H|]; intros a' b' c' d'; revert b' c' d'
  | |- stays ?o ?v (?f ?x1 ?x2 ?x3 ?x4) => cut (forall a b c d, stays o v (f a b c d)); [by intros H; apply H|]; intros a' b' c' d'; revert b' c' d'
  end.

Section Super.
Context (n : nat) (ms : list matcher) (ss : list setm) (Hms : Forall keeps_matcher ms) (Hss : Forall keeps_set ss).

Lemma sets_keeps c : forall unmatched (setMatched : array),
  keeps ((fix sets (ms : list setm) (unmatched : option array) (setMatched : array) : M (option array * array) :=
            match ms with
            | [] => ret (unmatched, setMatched)
            | m :: ms => r <- run_set sizzle m unmatched setMatched c;; sets ms r.1 r.2
            end) ss unmatched setMatched).
Proof.
  pose proof Hss as H. revert H. generalize ss. intros l H.
  induction H as [|m l Hm Hl IH]; intros unmatched setMatched; [apply keep_ret|]. apply keep_bind; [apply Hm|]. intros r. apply IH.
Qed.
Lemma bump_keeps : keeps (modify (fun s => let k := default 0 (matcherCachedRuns s !! n) + 1 in
  with_cachedruns k (with_super (supers s) (<[n := k]> (matcherCachedRuns s)) s))).
Proof. by apply keeps_rest. Qed.

Lemma super_nested seed c results : keeps (run_super sizzle (Super n ms ss) seed c results None).
Proof.
  intros s T. cbn [run_super].
  set (elems := match seed with Some l => _ | None => _ end).
  assert (He : elems s = Some (s, Bad) \/ exists l, elems s = Some (s, Good l)).
  { unfold elems. destruct seed; [right; by eexists|]. destruct (negb _); [|right; by eexists]. destruct c; [by left|right; by eexists|by left]. }
  unfold bind at 1, get at 1. unfold bind at 1. destruct He as [->|[l ->]]; [by apply later_refl|].
  unfold bind at 1. rewrite next_dirruns_begun.
  match goal with |- kept s (?m (begun s)) => assert (H : keeps m) end.
  2:{ pose proof (begun_later s T) as L. specialize (H (begun s) (begun_tidy s T)). unfold kept in *.
      assert (E : outermostContext (begun s) = outermostContext s) by (unfold begun; destruct (outermostContext s) eqn:E; cbn; by rewrite ?E).
      match goal with |- match ?x with _ => _ end => destruct x as [[s' [r|]]|] end; [|by eapply later_trans|done].
      destruct H as [H1 H2]. split; [by eapply later_trans|congruence]. }
  apply keep_bind; [apply keep_ret|intros _]. apply keep_bind.
  - each_instance. induction a' as [|x a' IH]; intros b' c' d'; [apply keep_ret|]. apply keep_bind; [|intros t; apply IH].
    destruct x as [e|]; [|apply keep_ret]. destruct (negb _); [|apply keep_ret]. apply keep_bind; [apply (run_one_keeps ms e c Hms)|].
    intros ok. apply keep_bind; intros; apply keep_ret.
  - intros [res un]. apply keep_bind; [|intros r; apply keep_bind; intros; apply keep_ret].
    destruct (_ && _); [|apply keep_ret]. apply keep_bind; [apply sets_keeps|]. intros [w sm]. destruct seed; [|apply keep_ret].
    destruct (if (0 <? _)%nat then _ else _). apply keep_ret.
Qed.

(** The end of an outermost search. *)
Lemma outer_end {A} s o v s' (a : A) : tidy s -> v = dirruns (begun s) -> inside o v s' -> (draws (begun s) <= draws s')%nat ->
  kept s (Some (with_outermost (outermostContext s) (with_dirruns v s'), Good a)).
Proof.
  intros T -> I Hd. pose proof (begun_later s T) as [_ D1 W1 O1].
  destruct (stays_reset o (dirruns (begun s)) s' I) as [(T2 & O2 & W2 & K2) _]. split; [|done].
  split; [destruct T2; by split|cbn; lia|cbn; lia|]. intros Ho. split; [done|]. cbn. by apply O1.
Qed.
Lemma outer_error {A} s v s' : tidy s -> v = dirruns (begun s) ->
  tidy s' -> outermostContext s' <> Unset -> whole (dirruns s') = whole v -> (draws (begun s) <= draws s')%nat -> kept s (Some (s', @Bad A)).
Proof.
  intros T -> T' O' W' D'. pose proof (begun_later s T) as [_ D1 W1 O1]. split; [done|lia|lia|].
  intros Ho. split; [done|]. rewrite W'. by apply O1.
Qed.
Lemma super_outer seed k results b : keeps (run_super sizzle (Super n ms ss) seed (Node k) results (Some b)).
Proof.
  intros s T. cbn [run_super].
  set (elems := match seed with Some l => _ | None => _ end).
  assert (He : exists l, elems s = Some (s, Good l)).
  { unfold elems. destruct seed; [by eexists|]. destruct (negb _); by eexists. }
  unfold bind at 1, get at 1. unfold bind at 1. destruct He as [l ->]. unfold bind at 1. rewrite next_dirruns_begun.
  unfold bind at 1. unfold bind at 1. unfold modify at 1 2. set (o := context_flag (Node k)). assert (Ho : o <> Unset) by (by destruct k).
  set (v := dirruns (begun s)).
  match goal with |- kept s (bind _ _ ?t) => set (s2 := t) end.
  assert (I2 : inside o v s2 /\ draws s2 = draws (begun s)).
  { split; [|done]. destruct (begun_tidy s T) as [T1 T2 T3 T4]. split; [by split|]. split; [done|]. by split. }
  destruct I2 as [I2 D2]. clearbody s2.
  match goal with |- kept s (bind ?m _ s2) => assert (Hm : stays o v m) end.
  { each_instance. induction a' as [|x a' IH]; intros b' c' d'; [by apply stays_ret|]. apply stays_bind; [|intros t; apply IH].
    destruct x as [e|]; [|by apply stays_ret]. destruct (negb _); [|by apply stays_ret].
    apply stays_bind; [apply stays_keeps; [done|apply (run_one_keeps ms e (Node k) Hms)]|]. intros ok.
    apply stays_bind; [|intros _; by apply stays_ret].
    apply stays_bind; [apply stays_reset|intros _; apply stays_keeps; [done|apply bump_keeps]]. }
  specialize (Hm s2 I2). unfold bind at 1.
  match goal with |- kept s (match ?m with _ => _ end) => destruct m as [[s3 [[res un]|]]|] end; [| |done].
  2:{ destruct Hm as (M1 & M2 & M3 & M4). apply (outer_error s v); [done|done|done|done|done|lia]. }
  destruct Hm as [I3 D3]. cbn [fst snd].
  match goal with |- kept s (bind ?m _ s3) => assert (Hm : stays o v m) end.
  { apply stays_keeps; [done|]. destruct (_ && _); [|apply keep_ret]. apply keep_bind; [apply sets_keeps|]. intros [w sm].
    destruct seed; [|apply keep_ret]. destruct (if (0 <? _)%nat then _ else _). apply keep_ret. }
  specialize (Hm s3 I3). unfold bind at 1.
  match goal with |- kept s (match ?m with _ => _ end) => destruct m as [[s4 [r|]]|] end; [| |done].
  - destruct Hm as [I4 D4]. apply (outer_end s o v); [done|done|done|lia].
  - destruct Hm as (M1 & M2 & M3 & M4). apply (outer_error s v); [done|done|done|done|done|lia].
Qed.
Lemma super_keeps : keeps_super (Super n ms ss).
Proof. intros seed c results [b|] [He|[k ->]]; [done|apply super_outer|apply super_nested|apply super_nested]. Qed.
End Super.

(** ** Sets *)

Lemma set_keeps pre sel m post finder : (forall p, pre = Some p -> keeps_matcher p) -> (forall x, m = Some x -> keeps_set x) ->
  (forall x, post = Some x -> keeps_set x) -> (forall x, finder = Some x -> keeps_set x) -> keeps_set (SSet pre sel m post finder).
Proof.
  intros Hpre Hm Hpost Hf seed results c. cbn [run_set].
  apply keep_bind; [destruct seed; [apply keep_ret|apply keep_bind; [apply multiple_keeps|intros l; apply keep_ret]]|].
  intros elems. apply keep_bind.
  { destruct pre as [p|]; [|apply keep_ret]. specialize (Hpre p eq_refl). match goal with |- keeps (if ?x then _ else _) => destruct x end; [|apply keep_ret].
    generalize (condense elems). intros l. induction l as [|[e i] l IH]; [apply keep_ret|].
    apply keep_bind; [apply Hpre|]. intros ok. apply keep_bind; [exact IH|]. intros l'. apply keep_ret. }
  intros pairs. apply keep_bind.
  { destruct m as [x|]; [|apply keep_ret]. apply keep_bind; [by apply Hm|intros r; apply keep_ret]. }
  intros [i o]. apply keep_bind.
  { destruct post as [x|]; [|apply keep_ret]. apply keep_bind; [by apply Hpost|intros r; apply keep_ret]. }
  intros [i' o']. destruct seed as [seed|].
  - destruct finder as [f|], pre as [p|]; try apply keep_ret.
    all: apply keep_bind; [first [apply keep_ret|apply keep_bind; [by apply Hf|intros r; apply keep_ret]]|intros out].
    all: match goal with |- keeps (let '_ := ?x in _) => destruct x end; apply keep_ret.
  - match goal with |- keeps (let '_ := ?x in _) => destruct x as [res out] end.
    destruct finder as [f|]; [apply keep_bind; [by apply Hf|intros r]|]; apply keep_ret.
Qed.

Lemma run_keeps : (forall m, keeps_matcher m) /\ (forall s, keeps_set s) /\ (forall s, keeps_super s).
Proof.
  assert (H1 : forall m, match m with MNot _ | MCombine _ _ _ | MElement _ => False | _ => True end -> keeps_matcher m).
  { intros m Hm e c. destruct m as [| | | | | | |[t|]| |lead r k k'| |]; cbn [run_matcher]; try done;
      try apply keep_ret; [apply run_child_keeps|apply keeps_lift|apply keep_bind; [apply Hsizzle|intros l; apply keep_ret]|apply reachable_keeps]. }
  assert (H2 : forall s, keeps_super s -> keeps_matcher (MNot s)).
  { intros s Hs e c. apply keep_bind; [apply Hs; by left|intros r; apply keep_ret]. }
  assert (H3 : forall r k m, keeps_matcher m -> keeps_matcher (MCombine r k m)).
  { intros r k m Hm e c. apply combine_keeps. intros x. apply Hm. }
  assert (H4 : forall ms, Forall keeps_matcher ms -> keeps_matcher (MElement ms)).
  { intros ms Hms e c. by apply (run_all_keeps ms e c). }
  assert (H5 : forall p a, keeps_set (SPosition p a)).
  { intros p a [seed|] results c; [|apply keeps_fail]. apply keep_bind; [apply keeps_lift|]. intros l. destruct (pick _ _ _). apply keep_ret. }
  assert (H6 : forall s, keeps_super s -> keeps_set (SNot s)).
  { intros s Hs [seed|] results c; [|apply keeps_fail]. apply keep_bind; [apply Hs; by left|]. intros r. destruct (foldr _ _ _). apply keep_ret. }
  split; [|split].
  - apply (matcher_all _ _ _ H1 H2 H3 H4 H5 H6 set_keeps super_keeps).
  - apply (setm_all _ _ _ H1 H2 H3 H4 H5 H6 set_keeps super_keeps).
  - apply (super_all _ _ _ H1 H2 H3 H4 H5 H6 set_keeps super_keeps).
Qed.
End Run.

(** * Sizzle: the caches between searches

    [visited] are the states of the engine after some searches, of any selectors, on any
    documents, with results or with errors. They are [tidy]. *)

Lemma keeps_finally {A} (m : M A) (h : M unit) : keeps m -> keeps h -> keeps (finally m h).
Proof.
  intros Hm Hh s T. specialize (Hm s T). unfold finally, kept in *. destruct (m s) as [[s1 o]|]; [|done].
  assert (L1 : later s s1) by (destruct o; [apply Hm|done]). specialize (Hh s1 (l_tidy _ _ L1)).
  destruct (h s1) as [[s2 [[]|]]|]; [| |done].
  - destruct Hh as [H3 H4]. destruct o; [|by eapply later_trans]. split; [by eapply later_trans|]. destruct Hm. congruence.
  - by eapply later_trans.
Qed.

Section History.
Context {D : Document}.

(** ** Compilation *)

Lemma tokenize_keeps t : keeps (tokenize t).
Proof. unfold tokenize. keeping. by apply keeps_rest. Qed.
Lemma next_done_keeps : keeps next_done.
Proof. unfold next_done. keeping. by apply keeps_rest. Qed.

Section Compile.
Context (comp : jstr -> M super) (Hcomp : forall t, keeps (comp t)).
Lemma make_builtin_keeps b a : keeps (make_builtin comp b a).
Proof. destruct b; cbn [make_builtin]; keeping. Qed.
Lemma filter_pseudo_keeps n a : keeps (filter_pseudo comp n a).
Proof.
  unfold filter_pseudo. cbn zeta.
  repeat match goal with |- context [assoc ?t builtins] => destruct (assoc t builtins) end;
    repeat match goal with |- context [custom ?t] => destruct (custom t) end; try apply make_builtin_keeps; keeping.
Qed.
Lemma filter_of_keeps f : keeps (filter_of comp f).
Proof. destruct f; cbn [filter_of]; try apply keep_ret. apply filter_pseudo_keeps. Qed.

Lemma matcherFromTokens_keeps fuel : forall tokens, keeps (matcherFromTokens comp fuel tokens).
Proof.
  induction fuel as [|fuel IH]; intros tokens; cbn [matcherFromTokens]; [apply keeps_no_end|].
  destruct tokens as [|t0 rest0]; [apply keeps_fail|].
  apply keep_bind; [apply next_done_keeps|intros context]. apply keep_bind; [apply next_done_keeps|intros any].
  match goal with |- keeps (?f ?x1 ?x2 ?x3) => cut (forall a b c, keeps (f a b c)); [by intros H; apply H|] end.
  intros rest. induction rest as [|[v r|v f] rest IHr]; intros i ms; [apply keep_ret|..].
  - apply keep_bind; [apply next_done_keeps|intros n]. apply IHr.
  - apply keep_bind; [apply filter_of_keeps|intros [m|s]]; [apply IHr|]. destruct (until_combinator rest) as [middle tail].
    assert (Hopt : forall l, keeps (match l with [] => ret None | _ => c <- matcherFromTokens comp fuel l;; ret (Some c) end)).
    { intros [|t l]; [apply keep_ret|apply keep_bind; [apply IH|intros c; apply keep_ret]]. }
    apply keep_bind; [apply Hopt|intros post]. apply keep_bind; [apply Hopt|intros finder]. apply keep_ret.
Qed.
Lemma compile_groups_keeps groups : forall ms ss, keeps (compile_groups comp groups ms ss).
Proof.
  induction groups as [|g groups IH]; intros ms ss; [apply keep_ret|].
  apply keep_bind; [apply matcherFromTokens_keeps|intros [m|s]; apply IH].
Qed.
Lemma compile_with_keeps t g : keeps (compile_with comp t g).
Proof.
  unfold compile_with, matcherFromGroupMatchers. keeping; try by apply keeps_rest. 1: apply tokenize_keeps. apply compile_groups_keeps.
Qed.
End Compile.
Lemma compile_keeps depth : forall t g, keeps (compile depth t g).
Proof. induction depth as [|depth IH]; intros t g; [apply keeps_no_end|]. apply compile_with_keeps. intros t'. apply IH. Qed.

(** ** Searches *)

Section Search.
Context (depth : nat) (sizzle : jstr -> nat -> list nat -> M (list nat)) (Hsizzle : forall t c l, keeps (sizzle t c l)).
Lemma compile_and_run_keeps t g seed c l : keeps (compile_and_run depth sizzle t g seed c l).
Proof.
  unfold compile_and_run. apply keep_bind; [apply compile_keeps|intros s]. apply keep_bind; [|intros r; apply keep_ret].
  destruct (run_keeps sizzle Hsizzle) as (_ & _ & H). apply H. right. by exists c.
Qed.
Lemma select_keeps t c l seed : keeps (select depth sizzle t c l seed).
Proof.
  unfold select, select_from. apply keep_bind; [apply tokenize_keeps|intros groups].
  repeat match goal with |- keeps (match ?x with _ => _ end) => destruct x end; try apply compile_and_run_keeps; apply keep_ret.
Qed.
Lemma native_keeps t c l : keeps (native t c l).
Proof.
  unfold native. destruct (_ =? 1); [|keeping]. destruct (js_eqb _ _); [apply keep_ret|].
  apply keep_bind; [apply tokenize_keeps|intros groups].
  destruct (default [] (getAttribute c (u "id"))).
  - apply keep_bind; [by apply keeps_rest|intros _]. apply keeps_finally; [keeping|by apply keeps_rest].
  - apply keep_bind; [apply keep_ret|intros _]. apply keeps_finally; [keeping|apply keep_ret].
Qed.
Lemma Sizzle_with_keeps t c l seed : keeps (Sizzle_with depth sizzle t c l seed).
Proof.
  unfold Sizzle_with. destruct t as [|x t]; [apply keep_ret|]. destruct (negb _); [apply keep_ret|].
  destruct seed; [apply select_keeps|]. destruct documentIsXML; [apply select_keeps|]. destruct (shortcut _ _ _); [apply keep_ret|].
  destruct (_ && _); [|apply select_keeps]. apply keep_bind; [apply native_keeps|intros [r|]]; [apply keep_ret|apply select_keeps].
Qed.
End Search.
Lemma Sizzle_keeps depth : forall t c l seed, keeps (Sizzle depth t c l seed).
Proof.
  induction depth as [|depth IH]; intros t c l seed; [apply keeps_no_end|]. apply Sizzle_with_keeps. intros t' c' l'. apply IH.
Qed.
End History.

(** ** The states of the engine *)

Inductive visited : state -> Prop :=
  | visited_start : visited state0
  | visited_search D depth selector context results seed s s' o : visited s ->
      @Sizzle D depth selector context results seed s = Some (s', o) -> visited s'.
Lemma state0_tidy : tidy state0.
Proof.
  split; cbn; try (intros; set_solver). by split.
Qed.
Lemma visited_tidy s : visited s -> tidy s.
Proof.
  induction 1 as [|D depth selector context results seed s s' o H IH E]; [apply state0_tidy|].
  pose proof (Sizzle_keeps (D := D) depth selector context results seed s IH) as K. rewrite E in K. destruct o; [apply K|]; apply K.
Qed.
