(* ===== verification/SizzleMeaning.v ===== *)
(** * Sizzle: what the tokens of a group mean

    [holds n tokens e]: the element [e] is what the group says, read from left to right,
    in a search from the node [n]. [compile_ok]: for the groups without [:not], [:has] and
    positions the engine compiles matchers that mean this. *)

From Stdlib Require Import ZArith Lia.
From stdpp Require Import base tactics list numbers strings gmap.
From S2P Require Import Prelude JsValue ValidPage RegExec SizzleTokens Sizzle SizzleSelect SizzleSpec SizzleFrame.
Local Open Scope Z_scope.
Local Open Scope sizzle_scope.

Section Meaning.
Context {D : Document}.

(** ** The filters that look at one element *)

Definition builtin_pseudo (b : builtin) (argument : option jstr) : option pseudo :=
  match b with
  | BContains => Some (Contains (default (u "undefined") argument))
  | BLang => if test false ridentifier (default [] argument)
             then Some (Lang (toLowerCase (unescape (default [] argument)))) else None
  | BPlain p => Some p
  | _ => None
  end.
Definition pseudo_named (name : jstr) (argument : option jstr) : option (option pseudo) :=
  match assoc name builtins with
  | Some b => Some (builtin_pseudo b argument)
  | None => match custom name with Some _ => Some (Some (Custom name argument)) | None => None end
  end.
Definition pseudo_of (name : jstr) (argument : option jstr) : option pseudo :=
  match pseudo_named name argument with
  | Some p => p
  | None => default None (pseudo_named (toLowerCase name) argument)
  end.
(** Its meaning; [None]: it is not one of these. *)
Definition filter_meaning (f : filter_args) : option (nat -> bool) :=
  match f with
  | TAG name => Some (fun e => js_eqb name (u "*") || filter_tag (toLowerCase (unescape name)) e)
  | CLASS name => Some (filter_class name)
  | ATTR name op check => Some (filter_attr name op check)
  | CHILD type what xy => Some (sem_child type what xy)
  | ID name => Some (filter_id name)
  | PSEUDO name argument => (fun p e => default false (run_pseudo p e)) <$> pseudo_of name argument
  end.
Definition means (f : filter_args) (e : nat) : bool := match filter_meaning f with Some g => g e | None => false end.

(** ** Groups *)

(** [P]: what is known of the elements so far. *)
Fixpoint holds_after (P : nat -> bool) (tokens : list token) (e : nat) : bool :=
  match tokens with
  | [] => P e
  | Filter _ f :: tokens => holds_after (fun x => means f x && P x) tokens e
  | Combinator _ r :: tokens => holds_after (fun x => existsb P (targets r false x)) tokens e
  end.
Definition holds_in (o : outermost) (c : ctx) (tokens : list token) (e : nat) : bool :=
  match tokens with
  | Combinator _ r :: rest => holds_after (fun x => sem_context o true r x c) rest e
  | _ => holds_after (fun x => sem_context o false Descendant x c) tokens e
  end.
(** In a search from a node: below it, or at the combinator that the group starts with. *)
Definition holds (n : nat) : list token -> nat -> bool := holds_in (context_flag (Node n)) (Node n).
Definition any_holds (n : nat) (groups : list (list token)) (e : nat) : bool := existsb (fun g => holds n g e) groups.

Definition plain_token (t : token) : Prop := match t with Filter _ f => filter_meaning f <> None | Combinator _ _ => True end.
Definition plain_group (g : list token) : Prop := g <> [] /\ Forall plain_token g.

Lemma existsb_ext {A} (f g : A -> bool) l : (forall x, f x = g x) -> existsb f l = existsb g l.
Proof. intros H. induction l as [|x l IH]; cbn; [done|]. by rewrite H, IH. Qed.
Lemma holds_after_ext P Q tokens : (forall e, P e = Q e) -> forall e, holds_after P tokens e = holds_after Q tokens e.
Proof.
  revert P Q. induction tokens as [|[v r|v f] tokens IH]; intros P Q H e; cbn; [done|..]; apply IH; intros x.
  - by apply existsb_ext.
  - by rewrite H.
Qed.

(** ** The compiled filter *)

Section Compile.
Context (comp : jstr -> M super).
Lemma make_builtin_plain b argument p : builtin_pseudo b argument = Some p -> make_builtin comp b argument = ret (Plain (MPseudo p)).
Proof. destruct b; cbn; try done; [by intros [= <-]| |by intros [= <-]]. destruct (test _ _ _); [by intros [= <-]|done]. Qed.
Lemma filter_pseudo_plain name argument p : pseudo_of name argument = Some p ->
  filter_pseudo comp name argument = ret (Plain (MPseudo p)).
Proof.
  assert (Hn : forall n q, pseudo_named n argument = Some (Some q) ->
    match assoc n builtins with Some b => Some (make_builtin comp b argument)
    | None => match custom n with Some _ => Some (ret (Plain (MPseudo (Custom n argument)))) | None => None end end
    = Some (ret (Plain (MPseudo q)))).
  { intros n q. unfold pseudo_named. destruct (assoc n builtins); [intros [= H]; f_equal; by apply make_builtin_plain|].
    destruct (custom n); [by intros [= <-]|done]. }
  assert (H0 : forall n, pseudo_named n argument = None ->
    match assoc n builtins with Some b => Some (make_builtin comp b argument)
    | None => match custom n with Some _ => Some (ret (Plain (MPseudo (Custom n argument)))) | None => None end end = None).
  { intros n. unfold pseudo_named. destruct (assoc n builtins); [done|]. by destruct (custom n). }
  unfold pseudo_of, filter_pseudo. cbn zeta. destruct (pseudo_named name argument) as [q|] eqn:E.
  - intros ->. by rewrite (Hn _ _ E).
  - rewrite (H0 _ E). destruct (pseudo_named (toLowerCase name) argument) as [q|] eqn:E2; [|discriminate]. intros Hq.
    change (q = Some p) in Hq. subst q. by rewrite (Hn _ _ E2).
Qed.
Lemma filter_of_plain f : filter_meaning f <> None ->
  exists m, filter_of comp f = ret (Plain m) /\ alone m /\ numbers m = [] /\ forall o c e, sem o m c e = means f e.
Proof.
  unfold means. destruct f as [n|n|n op check|t w xy|n argument|n]; cbn [filter_of filter_meaning]; intros H.
  - destruct (js_eqb n (u "*")); (eexists; split; [reflexivity|]); (split; [constructor|done]).
  - eexists. split; [done|]. by split; [constructor|].
  - eexists. split; [done|]. by split; [constructor|].
  - eexists. split; [done|]. by split; [constructor|].
  - destruct (pseudo_of n argument) as [p|] eqn:E; [|by destruct H]. exists (MPseudo p). split; [by apply filter_pseudo_plain|].
    by split; [constructor|].
  - eexists. split; [done|]. by split; [constructor|].
Qed.

(** ** The compiled group *)

Lemma nil_apart_l (l : list nat) : [] ## l.
Proof. by intros k ?%not_elem_of_nil. Qed.
Lemma nil_apart_r (l : list nat) : l ## [].
Proof. by intros k _ ?%not_elem_of_nil. Qed.
(** The loop of [matcherFromTokens]. *)
Definition build (fuel : nat) (tokens : list token) :=
  fix build (rest : list token) (i : nat) (matchers : list matcher) : M compiled :=
    match rest with
    | [] => ret (Plain (elementMatcher matchers))
    | Combinator _ r :: rest => n <- next_done;; build rest (S i) [MCombine r n (elementMatcher matchers)]
    | Filter _ f :: rest =>
        c <- filter_of comp f;;
        match c with
        | Plain m => build rest (S i) (matchers ++ [m])
        | Marked s =>
            let '(middle, tail) := until_combinator rest in
            post <- (match middle with [] => ret None | _ => c <- matcherFromTokens comp fuel middle;; ret (Some c) end);;
            finder <- (match tail with [] => ret None | _ => c <- matcherFromTokens comp fuel tail;; ret (Some c) end);;
            ret (Marked (setMatcher (if (0 <? i)%nat then Some (elementMatcher matchers) else None)
                           (if (0 <? i)%nat then Some (trimmed (toSelector (take i tokens))) else None)
                           s post finder (toSelector tail)))
        end
    end.
Definition leading_of (t : token) : option relative := match t with Combinator _ r => Some r | Filter _ _ => None end.
Lemma matcherFromTokens_eq fuel t0 rest0 : matcherFromTokens comp (S fuel) (t0 :: rest0) =
  (context <- next_done;; any <- next_done;;
   build fuel (t0 :: rest0) (match leading_of t0 with Some _ => rest0 | None => t0 :: rest0 end) (match leading_of t0 with Some _ => 1 | None => 0 end)%nat
     [MContext (match leading_of t0 with Some _ => true | None => false end) (default Descendant (leading_of t0)) context any]).
Proof. reflexivity. Qed.

(** The matchers so far, of which the first is the way to the context; the numbers from
    [lo] on are theirs. *)
Record built (lo hi : nat) (P : outermost -> ctx -> nat -> bool) (ms : list matcher) : Prop := {
  b_head : exists m fs, ms = m :: fs /\ linked false m /\ filters fs /\ all_numbers fs = [];
  b_numbers : Forall (fun k => (lo <= k < hi)%nat) (all_numbers ms);
  b_means o c e : sem o (elementMatcher ms) c e = P o c e
}.
Lemma all_numbers_app l1 l2 : all_numbers (l1 ++ l2) = all_numbers l1 ++ all_numbers l2.
Proof.
  induction l1 as [|m l1 IH]; [done|]. change (all_numbers ((m :: l1) ++ l2)) with (numbers m ++ all_numbers (l1 ++ l2)).
  change (all_numbers (m :: l1)) with (numbers m ++ all_numbers l1). by rewrite IH, app_assoc.
Qed.
Lemma filters_snoc fs m : filters fs -> alone m -> filters (fs ++ [m]).
Proof. induction 1; intros Ha; cbn; constructor; try done; [constructor|auto]. Qed.
Lemma element_linked lo hi P ms : built lo hi P ms -> linked false (elementMatcher ms) /\ numbers (elementMatcher ms) = all_numbers ms.
Proof.
  intros [(m & fs & -> & Hl & Hf & Hn) _ _]. destruct fs as [|f fs]; cbn [elementMatcher].
  - split; [done|]. change (all_numbers [m]) with (numbers m ++ []). by rewrite app_nil_r.
  - split; [|done]. constructor; [done|done|]. rewrite Hn. apply nil_apart_r.
Qed.
Lemma sem_element o ms c e : sem o (MElement ms) c e = forallb (fun m => sem o m c e) ms.
Proof.
  induction ms as [|m ms IH]; [done|]. change (sem o (MElement (m :: ms)) c e) with (sem o (MElement ms) c e && sem o m c e).
  rewrite IH. cbn. apply andb_comm.
Qed.
Lemma sem_elementMatcher o ms c e : ms <> [] -> sem o (elementMatcher ms) c e = forallb (fun m => sem o m c e) ms.
Proof. destruct ms as [|m [|m' ms]]; [done|cbn; by rewrite andb_true_r|intros _; apply sem_element]. Qed.

Lemma built_combine lo hi P ms r : (lo <= hi)%nat -> built lo hi P ms ->
  built lo (S hi) (fun o c x => existsb (P o c) (targets r false x)) [MCombine r hi (elementMatcher ms)].
Proof.
  intros Hlo B. destruct (element_linked _ _ _ _ B) as [Hl Hn]. pose proof (b_numbers _ _ _ _ B) as Hf.
  split.
  - exists (MCombine r hi (elementMatcher ms)), []. split; [done|]. split; [|by split; [constructor|]].
    constructor; [done|]. rewrite Hn. intros H. rewrite Forall_forall in Hf. apply Hf in H. lia.
  - change (all_numbers [MCombine r hi (elementMatcher ms)]) with (hi :: numbers (elementMatcher ms) ++ []).
    rewrite app_nil_r, Hn. constructor; [lia|]. eapply Forall_impl; [exact Hf|]; cbv beta; lia.
  - intros o c e. change (existsb (sem o (elementMatcher ms) c) (targets r false e) = existsb (P o c) (targets r false e)).
    apply existsb_ext. apply B.
Qed.
Lemma built_filter lo hi P ms m g : built lo hi P ms -> alone m -> numbers m = [] -> (forall o c e, sem o m c e = g e) ->
  built lo hi (fun o c x => g x && P o c x) (ms ++ [m]).
Proof.
  intros [(m0 & fs & -> & Hl & Hf & Hn) Hnum Hm] Ha Hnm Hg. split.
  - exists m0, (fs ++ [m]). split; [done|]. split; [done|]. split; [by apply filters_snoc|].
    rewrite all_numbers_app, Hn. change (all_numbers [m]) with (numbers m ++ []). by rewrite Hnm.
  - rewrite all_numbers_app. change (all_numbers [m]) with (numbers m ++ []). by rewrite Hnm, !app_nil_r.
  - intros o c e. rewrite <- Hm, !sem_elementMatcher by done. rewrite forallb_app. cbn [forallb]. rewrite Hg, andb_true_r. apply andb_comm.
Qed.

Lemma with_done_twice a b s : with_done b (with_done a s) = with_done b s.
Proof. reflexivity. Qed.
(** The counter after the combinators of the tokens. *)
Definition after_tokens (tokens : list token) (s : state) (s' : state) : Prop := exists k, s' = with_done (doneNames s + k) s.
Lemma build_ok fuel tokens0 lo rest : forall i P ms s, Forall plain_token rest -> (lo <= doneNames s)%nat ->
  built lo (doneNames s) P ms ->
  yields (build fuel tokens0 rest i ms) s (fun c s' => after_tokens rest s s' /\ exists m, c = Plain m /\ linked false m /\
    Forall (fun k => (lo <= k < doneNames s')%nat) (numbers m) /\ forall o c e, sem o m c e = holds_after (P o c) rest e).
Proof.
  induction rest as [|[v r|v f] rest IH]; intros i P ms s Hp Hlo B.
  - apply yields_ret. split; [exists 0%nat; rewrite Nat.add_0_r; by destruct s|]. exists (elementMatcher ms). split; [done|].
    destruct (element_linked _ _ _ _ B) as [Hl Hn]. split; [done|]. split; [rewrite Hn; apply B|]. intros o c e. cbn. apply B.
  - apply Forall_cons in Hp as [_ Hp]. cbn [build].
    apply (yields_bind _ _ _ (fun n s' => n = doneNames s /\ s' = with_done (S (doneNames s)) s)).
    { eexists _, _. split; [reflexivity|done]. }
    intros n s1 [-> ->]. eapply yields_mono.
    + apply (IH _ (fun o c x => existsb (P o c) (targets r false x))); [done|cbn; lia|]. cbn. by apply built_combine.
    + intros c s2 [[k ->] H]. split; [exists (S k); rewrite ?with_done_twice; f_equal; cbn; lia|exact H].
  - apply Forall_cons in Hp as [Hf Hp]. cbn [build]. destruct (filter_of_plain f Hf) as (m & E & Ha & Hn & Hs).
    rewrite E. apply yields_pure. eapply yields_mono.
    + apply (IH _ (fun o c x => means f x && P o c x)); [done|done|]. by eapply built_filter.
    + intros c s2 [H1 H2]. split; [exact H1|exact H2].
Qed.
Lemma matcherFromTokens_ok tokens s : plain_group tokens ->
  yields (matcherFromTokens comp (S (length tokens)) tokens) s (fun c s' => after_tokens tokens s s' /\ exists m, c = Plain m /\ linked false m /\
    Forall (fun k => (doneNames s <= k < doneNames s')%nat) (numbers m) /\ forall o c e, sem o m c e = holds_in o c tokens e).
Proof.
  intros [Hne Hp]. destruct tokens as [|t0 rest0]; [done|]. rewrite matcherFromTokens_eq.
  set (s2 := with_done (S (S (doneNames s))) s).
  apply (yields_bind _ _ _ (fun n s' => n = doneNames s /\ s' = with_done (S (doneNames s)) s)); [eexists _, _; split; [reflexivity|done]|].
  intros n s1 [-> ->].
  apply (yields_bind _ _ _ (fun n s' => n = S (doneNames s) /\ s' = s2)); [eexists _, _; split; [reflexivity|done]|].
  intros n s1 [-> ->].
  assert (B : forall lead r, built (doneNames s) (doneNames s2) (fun o c x => sem_context o lead r x c) [MContext lead r (doneNames s) (S (doneNames s))]).
  { intros lead r. split; [|cbn; repeat constructor; lia|done]. eexists _, []. split; [done|]. split; [by constructor|]. by split; [constructor|]. }
  eapply yields_mono.
  - apply (build_ok _ _ (doneNames s)); [|cbn; lia|apply B]. apply Forall_cons in Hp as [H1 H2]. destruct t0; [done|by constructor].
  - intros c s3 [[k ->] (m & -> & Hl & Hn & Hs)]. split; [exists (S (S k)); subst s2; rewrite ?with_done_twice; f_equal; cbn; lia|]. exists m. split; [done|].
    split; [done|]. split; [done|]. intros o c e. rewrite Hs. by destruct t0.
Qed.

(** ** The compiled groups *)

Lemma grouped_snoc ms m d : grouped false ms -> linked false m -> Forall (fun k => (k < d)%nat) (all_numbers ms) ->
  Forall (fun k => (d <= k)%nat) (numbers m) -> grouped false (ms ++ [m]).
Proof.
  intros Hg Hl. assert (Ho : forall m, own m ⊆ numbers m).
  { intros m0. induction m0 as [m' Hm|r k m' IH|m' ms' IH] using head_ind.
    - destruct m' as [| | | | | | | | | | |[]]; cbn in *; try done; set_solver.
    - cbn. set_solver.
    - change (numbers (MElement (m' :: ms'))) with (numbers m' ++ all_numbers ms'). cbn. set_solver. }
  remember false as free eqn:Hfree in Hg. revert Hfree. induction Hg as [free|free m1 ms H1 Hg IH H2 H3]; intros -> Hlt Hge; cbn [app].
  - constructor; [done|constructor|apply nil_apart_r|apply nil_apart_l].
  - change (all_numbers (m1 :: ms)) with (numbers m1 ++ all_numbers ms) in Hlt. apply Forall_app in Hlt as [Hlt1 Hlt2].
    assert (Hd : forall l1 l2, l1 ⊆ numbers m1 -> l2 ⊆ numbers m -> l1 ## l2).
    { intros l1 l2 S1 S2 k K1%S1 K2%S2. rewrite Forall_forall in Hlt1, Hge. apply Hlt1 in K1. apply Hge in K2. lia. }
    constructor; [done|by apply IH|..].
    + rewrite all_numbers_app. change (all_numbers [m]) with (numbers m ++ []). rewrite app_nil_r.
      intros k K1 [K2|K2]%elem_of_app; [by apply (H2 k)|]. by apply (Hd (own m1) (numbers m) (Ho m1) ltac:(done) k).
    + rewrite flat_map_app. cbn. rewrite app_nil_r. intros k [K1|K1]%elem_of_app K2; [by apply (H3 k)|].
      by apply (Hd (numbers m1) (own m) ltac:(done) (Ho m) k).
Qed.
Definition any_in (o : outermost) (c : ctx) (groups : list (list token)) (e : nat) : bool := existsb (fun g => holds_in o c g e) groups.
Lemma sem_super_app o q l1 l2 c e : sem_super o (Super q (l1 ++ l2) []) c e = sem_super o (Super q l1 []) c e || sem_super o (Super q l2 []) c e.
Proof.
  induction l1 as [|m l1 IH]; [done|].
  change (sem_super o (Super q ((m :: l1) ++ l2) []) c e) with (sem o m c e || sem_super o (Super q (l1 ++ l2) []) c e).
  change (sem_super o (Super q (m :: l1) []) c e) with (sem o m c e || sem_super o (Super q l1 []) c e). by rewrite IH, orb_assoc.
Qed.
Lemma compile_groups_ok groups : forall ms done_groups s, Forall plain_group groups -> grouped false ms ->
  Forall (fun k => (k < doneNames s)%nat) (all_numbers ms) -> (forall o c e, sem_super o (Super 0 ms []) c e = any_in o c done_groups e) ->
  yields (compile_groups comp groups ms []) s (fun p s' => (exists k, s' = with_done (doneNames s + k) s) /\ p.2 = [] /\
    length p.1 = (length ms + length groups)%nat /\ grouped false p.1 /\
    forall o c e, sem_super o (Super 0 p.1 []) c e = any_in o c (done_groups ++ groups) e).
Proof.
  induction groups as [|g groups IH]; intros ms dg s Hp Hg Hn Hs.
  - apply yields_ret. split; [exists 0%nat; rewrite Nat.add_0_r; by destruct s|]. split; [done|]. split; [cbn; lia|]. split; [done|].
    intros o c e. by rewrite app_nil_r.
  - apply Forall_cons in Hp as [Hp1 Hp2]. cbn [compile_groups]. eapply yields_bind; [by apply matcherFromTokens_ok|].
    intros c s1 [[k ->] (m & -> & Hl & Hm & Hsem)]. cbn beta iota.
    assert (Hsnoc : forall o c e, sem_super o (Super 0 (ms ++ [m]) []) c e = any_in o c (dg ++ [g]) e).
    { intros o c e. rewrite sem_super_app, Hs. unfold any_in. rewrite existsb_app. f_equal.
      change (sem o m c e || false = holds_in o c g e || false). by rewrite Hsem. }
    eapply yields_mono.
    + apply (IH (ms ++ [m]) (dg ++ [g])); [done| | |exact Hsnoc].
      * eapply grouped_snoc; [done|done|exact Hn|]. eapply Forall_impl; [exact Hm|]; cbn; lia.
      * rewrite all_numbers_app. apply Forall_app. change (all_numbers [m]) with (numbers m ++ []). rewrite app_nil_r.
        split; (eapply Forall_impl; [first [exact Hn|exact Hm]|]); cbn; lia.
    + intros [p1 p2] s2 [[k' ->] (H2 & H3 & H4 & H5)]. split; [exists (k + k')%nat; rewrite ?with_done_twice; f_equal; cbn; lia|]. split; [done|].
      split; [rewrite H3, length_app; cbn; lia|]. split; [done|]. intros o c e. by rewrite H5, <- app_assoc.
Qed.
End Compile.

Lemma any_in_rev o c groups e : any_in o c (rev groups) e = any_in o c groups e.
Proof.
  unfold any_in. induction groups as [|g groups IH]; [done|]. cbn. rewrite existsb_app, IH. cbn. rewrite orb_false_r. apply orb_comm.
Qed.

(** A selector that is compiled for the first time. *)
Lemma compile_ok depth selector groups s : groups <> [] -> Forall plain_group groups -> cache_values (compilerCache s) !! selector = None ->
  yields (compile (S depth) selector (Some groups)) s (fun sup s' => exists q ms, sup = Super q ms [] /\ ms <> [] /\ grouped false ms /\
    forall o c e, sem_super o sup c e = any_in o c groups e).
Proof.
  intros Hne Hp Hc. cbn [compile]. unfold compile_with. apply yields_get. rewrite Hc. apply yields_pure.
  eapply yields_bind.
  - apply (compile_groups_ok _ (rev groups) [] []); [by apply Forall_rev|constructor|constructor|done].
  - intros [ms ss] s1 ([k ->] & -> & H3 & H4 & H5). cbn [fst snd] in *. eexists _, _. split; [reflexivity|].
    eexists _, ms. split; [done|]. split; [|split; [done|]].
    + intros ->. cbn in H3. rewrite length_rev in H3. by destruct groups.
    + intros o c e. change (sem_super o (Super 0 ms []) c e = any_in o c groups e). rewrite H5. apply any_in_rev.
Qed.
End Meaning.
