(* ===== verification/SizzleText.v ===== *)
(** * Sizzle: the tokens are the text

    [tokens_spelled]: where tokenize accepts a selector, the texts of the tokens of each
    group, with the commas between the groups, are the selector. [sibling_seen]: where a
    token is one of the combinators of siblings, the expression [rsibling] finds it. *)

From Stdlib Require Import ZArith Lia.
From stdpp Require Import base tactics list numbers strings gmap.
From S2P Require Import Prelude JsValue Regex RegExec SizzleTokens.
Local Open Scope Z_scope.

(** ** Searching *)

Lemma search_exists i total r t s : suffix_of t s -> match_here i total r t <> None -> search i total r s <> None.
Proof.
  intros (p & ->) H. induction p as [|x p IH]; cbn [app].
  - destruct (match_here i total r t) as [[[m s'] c]|] eqn:E; [|congruence]. destruct t; cbn [search]; rewrite E; discriminate.
  - cbn [search]. destruct (match_here i total r (x :: p ++ t)) as [[[m s'] c]|]; [discriminate|]. destruct (search i total r (p ++ t)); [discriminate|exact IH].
Qed.
(** A repeated class keeps the captures. *)
Lemma star_class_run i total ranges s c k x : run i total (star (of_class ranges)) s c k = Some x ->
  exists q s', s = q ++ s' /\ Forall (fun z => in_class i ranges z = true) q /\ k s' c = Some x.
Proof.
  cbn [run star]. generalize (S (length s)). intros n. revert s. induction n as [|n IH]; intros s; [intros H; by exists [], s|].
  cbn [loop foldr]. unfold orelse. destruct (run i total (of_class ranges) s c _) as [y|] eqn:E; [|intros H; by exists [], s].
  intros [= ->]. cbn in E. destruct s as [|z s]; [done|]. destruct (in_class i ranges z) eqn:Ez; [|done]. cbn in E. destruct (_ <=? _)%nat; [|done].
  destruct (IH s E) as (q & s' & -> & H1 & H2). exists (z :: q), s'. split; [done|]. split; [by constructor|done].
Qed.
Lemma match_here_run i total r s m s' c : match_here i total r s = Some (m, s', c) ->
  run i total r s ∅ (fun s' c' => Some (s', c')) = Some (s', c) /\ m = take (length s - length s') s.
Proof. unfold match_here. destruct (run _ _ _ _ _ _) as [[t d]|]; [|done]. by intros [= <- <- <-]. Qed.

(** A match of an expression that starts with [^]. *)
Lemma exec_run i r s m : exec i (Then AtStart r) s = Some m -> exists s',
  exists c, run i (length s) (Then AtStart r) s ∅ (fun s' c' => Some (s', c')) = Some (s', c) /\
  matched m = take (length s - length s') s /\ caps m = c.
Proof.
  intros H. pose proof (search_start _ _ _ _ H) as Hb. unfold exec in H.
  assert (exists s', match_here i (length s) (Then AtStart r) s = Some (matched m, s', caps m)) as [s' E].
  { destruct s as [|z s]; cbn [search] in H; destruct (match_here _ _ _ _) as [[[m0 t] d]|]; try done; try (injection H as <-; by eexists).
    destruct (search _ _ _ _) as [f|]; [|done]. by injection H as <-. }
  apply match_here_run in E as [E Em]. by exists s', (caps m).
Qed.
Ltac peel E := rewrite ?run_then, ?run_start, ?run_capture in E; cbv beta in E.

(** What [rcombinators] captures is in the text it matches. *)
Lemma rcombinators_capture s m : exec false rcombinators s = Some m -> exists x, group 1 m = [x] /\ x ∈ matched m.
Proof.
  intros H. apply exec_run in H as (s' & c & E & Em & Hc). unfold rcombinators in E. cbn [all] in E. peel E. rewrite Nat.eqb_refl in E. peel E.
  apply star_class_run in E as (p & s1 & Hp & _ & E). peel E. destruct s1 as [|x s2]; [done|].
  unfold of_class in E at 1. rewrite run_unit in E. destruct (xorb _ _); [|done]. apply star_class_run in E as (q & s3 & Hq & _ & [= <- <-]).
  exists x. split.
  - unfold group. rewrite Hc. by replace (S (length s2) - length s2)%nat with 1%nat by lia.
  - rewrite Em, Hp, Hq. rewrite !length_app. cbn [length]. rewrite length_app.
    replace (p ++ x :: q ++ s3) with ((p ++ x :: q) ++ s3) by (by rewrite <- app_assoc).
    rewrite take_app_length' by (rewrite length_app; cbn; lia). apply elem_of_app. right. apply elem_of_cons. by left.
Qed.
Definition is_sibling_unit (x : Z) : bool := (x =? 43) || (x =? 126).
Lemma rsibling_finds s x : x ∈ s -> is_sibling_unit x = true -> test false rsibling s = true.
Proof.
  intros (a & b & ->)%list_elem_of_split Hx. unfold test, exec.
  assert (H : search false (length (a ++ x :: b)) rsibling (a ++ x :: b) <> None).
  { apply (search_exists _ _ _ (x :: b)); [by exists a|]. unfold match_here, is_sibling_unit in *.
    apply orb_true_iff in Hx as [->%Z.eqb_eq| ->%Z.eqb_eq]; done. }
  by destruct (search _ _ _ _).
Qed.

(** ** Texts *)

(** White space and commas. *)
Definition separator (c : jstr) : Prop := Forall (fun x => in_class false ((44, 44) :: space) x = true) c.
Fixpoint spelled (groups : list (list token)) (t : jstr) : Prop :=
  match groups with
  | [] => False
  | [g] => t = toSelector g
  | g :: gs => exists c t', t = toSelector g ++ c ++ t' /\ separator c /\ spelled gs t'
  end.
Lemma toSelector_snoc g t : toSelector (g ++ [t]) = toSelector g ++ token_value t.
Proof. unfold toSelector. rewrite flat_map_app. cbn. by rewrite app_nil_r. Qed.
Lemma spelled_cons g g' gs t : spelled (g :: g' :: gs) t <-> exists c t', t = toSelector g ++ c ++ t' /\ separator c /\ spelled (g' :: gs) t'.
Proof. reflexivity. Qed.
Lemma spelled_token gs g t p : spelled (gs ++ [g]) p -> spelled (gs ++ [g ++ [t]]) (p ++ token_value t).
Proof.
  revert p. induction gs as [|g0 gs IH]; intros p; cbn [app]; [cbn; intros ->; by rewrite toSelector_snoc|].
  destruct (gs ++ [g]) as [|g1 r1] eqn:E1; [by destruct gs|]. destruct (gs ++ [g ++ [t]]) as [|g2 r2] eqn:E2; [by destruct gs|].
  rewrite !spelled_cons. intros (c & t' & -> & Hc & H). exists c, (t' ++ token_value t). split; [by rewrite <- !app_assoc|].
  split; [done|]. by apply IH.
Qed.
Lemma spelled_comma gs p c : spelled gs p -> separator c -> spelled (gs ++ [[]]) (p ++ c).
Proof.
  intros H Hc. revert p H. induction gs as [|g gs IH]; intros p H; [done|].
  destruct gs as [|g' gs].
  - cbn in *. subst p. exists c, []. by rewrite app_nil_r.
  - apply spelled_cons in H as (c' & t' & -> & Hc' & H). change ((g :: g' :: gs) ++ [[]]) with (g :: g' :: (gs ++ [[]])).
    apply spelled_cons. exists c', (t' ++ c). split; [by rewrite <- !app_assoc|]. split; [done|]. by apply IH.
Qed.
Lemma spelled_app gs g ts p q : spelled (gs ++ [g]) p -> q = toSelector ts -> spelled (gs ++ [g ++ ts]) (p ++ q).
Proof.
  intros H ->. revert g p H. induction ts as [|t ts IH]; intros g p H; [by rewrite !app_nil_r|].
  replace (g ++ t :: ts) with ((g ++ [t]) ++ ts) by (by rewrite <- app_assoc).
  replace (p ++ toSelector (t :: ts)) with ((p ++ token_value t) ++ toSelector ts) by (by rewrite <- app_assoc).
  apply IH. by apply spelled_token.
Qed.

(** Where the combinator is one of siblings, its text says so. *)
Definition honest_token (t : token) : Prop :=
  match t with Combinator v r => (r = Sibling \/ r = Adjacent) -> exists x, x ∈ v /\ is_sibling_unit x = true | Filter _ _ => True end.
Lemma combinator_text soFar tokens soFar' tokens' b : combinator soFar tokens = (soFar', tokens', b) ->
  exists ts, tokens' = tokens ++ ts /\ soFar = toSelector ts ++ soFar' /\ Forall honest_token ts.
Proof.
  unfold combinator. destruct (exec false rcombinators soFar) as [m|] eqn:E.
  - intros [= <- <- _]. exists [Combinator (matched m) (relative_of (group 1 m))]. split; [done|].
    split; [cbn; rewrite app_nil_r; by apply exec_start in E|]. constructor; [|constructor]. cbn. intros Hr.
    destruct (rcombinators_capture _ _ E) as (x & Hx & Hin). exists x. split; [done|]. rewrite Hx in Hr. unfold relative_of in Hr.
    unfold is_sibling_unit. revert Hr. clear. destruct (decide (x = 43)) as [->|H1]; [done|]. destruct (decide (x = 126)) as [->|H2]; [done|].
    intros Hr. exfalso.
    assert (Hd : match [x] with [62] => Child | [43] => Adjacent | [126] => Sibling | _ => Descendant end = Child \/
                 match [x] with [62] => Child | [43] => Adjacent | [126] => Sibling | _ => Descendant end = Descendant).
    { destruct (decide (x = 62)) as [->|H3]; [by left|]. right. 
      destruct x as [|x|x]; [done| |done]. do 7 (destruct x as [x|x|]; try done). }
    destruct Hd as [Hd|Hd], Hr as [Hr|Hr]; congruence.
  - intros [= <- <- _]. exists []. by rewrite app_nil_r.
Qed.

(** ** The scan *)

Section Scan.
Context (excess_of : jstr -> attempt Z).
(** A type of filter reads a prefix. *)
Definition reads_prefix (t : jstr -> attempt (option (jstr * filter_args))) : Prop :=
  forall s m f, t s = Some (Good (Some (m, f))) -> exists rest, s = m ++ rest.
Lemma slice0_prefix n s : exists rest, s = slice0 n s ++ rest.
Proof. unfold slice0. eexists. symmetry. apply take_drop. Qed.
Lemma prePSEUDO_prefix m v f : prePSEUDO excess_of m = Some (Good (Some (v, f))) -> exists rest, matched m = v ++ rest.
Proof.
  unfold prePSEUDO. cbn zeta. destruct (test _ _ _); [done|]. assert (H0 : exists rest, matched m = matched m ++ rest) by (exists []; by rewrite app_nil_r).
  destruct (group 4 m); [|by intros [= <- _]].
  destruct (_ || _); [by intros [= <- _]|]. unfold andthen. destruct (excess_of _) as [[e|]|]; [|done|done].
  destruct (e =? 0); [by intros [= <- _]|]. intros [= <- _]. apply slice0_prefix.
Qed.
Lemma filter_types_prefix : Forall reads_prefix (filter_types excess_of).
Proof.
  assert (Hs : forall i r, (exists r', r = Then AtStart r') -> forall s m, exec i r s = Some m -> exists rest, s = matched m ++ rest).
  { intros i r [r' ->] s m H%exec_start. by eexists. }
  assert (H1 : forall r f, (exists r', r = Then AtStart r') -> reads_prefix (simple r f)).
  { intros r f Hr s m g. unfold simple. destruct (exec false r s) as [x|] eqn:E; [|done]. intros [= <- _]. by eapply Hs. }
  unfold filter_types. repeat constructor; try (apply H1; by eexists).
  - intros s m f. unfold match_ATTR. destruct (exec false matchATTR s) as [x|] eqn:E; [|done]. intros [= <- _]. eapply Hs; [by eexists|exact E].
  - intros s m f. unfold match_CHILD. destruct (exec true matchCHILD s) as [x|] eqn:E; [|done]. destruct (preCHILD x); [|done].
    intros [= <- _]. eapply Hs; [by eexists|exact E].
  - intros s m f. unfold match_PSEUDO. destruct (exec false matchPSEUDO s) as [x|] eqn:E; [|done]. intros (r1 & H)%prePSEUDO_prefix.
    destruct (Hs _ _ ltac:(by eexists) _ _ E) as (r2 & ->). rewrite H. exists (r1 ++ r2). by rewrite <- app_assoc.
Qed.
Lemma filters_text types : Forall reads_prefix types -> forall soFar tokens b soFar' tokens' b',
  SizzleTokens.filters types soFar tokens b = Some (Good (soFar', tokens', b')) ->
  exists ts, tokens' = tokens ++ ts /\ soFar = toSelector ts ++ soFar' /\ Forall honest_token ts.
Proof.
  induction 1 as [|t types Ht Hts IH]; intros soFar tokens b soFar' tokens' b'; cbn [SizzleTokens.filters].
  - intros [= <- <- _]. exists []. by rewrite app_nil_r.
  - unfold andthen. destruct (t soFar) as [[[[m f]|]|]|] eqn:E; [| |done|done].
    + intros (ts & -> & H & Hh)%IH. destruct (Ht _ _ _ E) as (rest & ->). rewrite drop_app_length in H.
      exists (Filter m f :: ts). split; [by rewrite <- app_assoc|]. split; [|by constructor].
      change (toSelector (Filter m f :: ts)) with (m ++ toSelector ts). by rewrite <- app_assoc, <- H.
    + apply IH.
Qed.
Lemma in_class_cons r ranges z : in_class false (r :: ranges) z = in_class false [r] z || in_class false ranges z.
Proof. unfold in_class. cbn [andb]. rewrite !orb_false_r. destruct r as [a b]. unfold in_ranges. cbn [existsb]. by rewrite orb_false_r. Qed.
Lemma rcomma_separator s m : exec false rcomma s = Some m -> separator (matched m).
Proof.
  intros H. apply exec_run in H as (s' & c & E & Em & _). unfold rcomma in E. cbn [all] in E. peel E. rewrite Nat.eqb_refl in E. peel E.
  apply star_class_run in E as (p & s1 & Hp & Hs & E). peel E. destruct s1 as [|x s1]; [done|].
  unfold chr in E at 1. rewrite run_unit in E. destruct (xorb _ _) eqn:Ex; [|done]. apply star_class_run in E as (q & s2 & Hq & Hs2 & [= <- _]).
  assert (Hm : matched m = p ++ [x] ++ q).
  { rewrite Em, Hp, Hq. replace (p ++ x :: q ++ s2) with ((p ++ [x] ++ q) ++ s2) by (by rewrite <- !app_assoc).
    rewrite take_app_length' by (rewrite !length_app; cbn; lia). done. }
  rewrite Hm. unfold separator. rewrite !Forall_app.
  assert (Hsp : forall l, Forall (fun z => in_class false space z = true) l -> Forall (fun z => in_class false ((44, 44) :: space) z = true) l).
  { intros l Hl. eapply Forall_impl; [exact Hl|]. intros z Hz. by rewrite in_class_cons, Hz, orb_true_r. }
  split; [by apply Hsp|]. split; [|by apply Hsp]. constructor; [|constructor].
  rewrite in_class_cons. destruct (in_class false [(44, 44)] x); [done|discriminate Ex].
Qed.

Definition read_to (selector soFar : jstr) (gs : list (list token)) : Prop :=
  exists p, selector = p ++ soFar /\ spelled gs p /\ Forall (Forall honest_token) gs.
Lemma read_tokens selector soFar ts soFar' groups tokens : read_to selector soFar (groups ++ [tokens]) -> soFar = toSelector ts ++ soFar' ->
  Forall honest_token ts -> read_to selector soFar' (groups ++ [tokens ++ ts]).
Proof.
  intros (p & -> & Hs & Hh) -> Hts. exists (p ++ toSelector ts). split; [by rewrite <- app_assoc|]. split; [by apply (spelled_app _ _ ts)|].
  apply Forall_app in Hh as [H1 H2]. apply Forall_app. split; [done|]. rewrite Forall_singleton in H2. constructor; [|constructor].
  apply Forall_app. split; [exact H2|exact Hts].
Qed.
Lemma scan_text selector fuel : forall (first : bool) soFar groups tokens rest gs,
  (if first then soFar = selector /\ groups = [] else read_to selector soFar (groups ++ [tokens])) ->
  scan excess_of fuel first soFar groups tokens = Some (Good (rest, gs)) -> gs = [] /\ selector = [] \/ read_to selector rest gs.
Proof.
  induction fuel as [|fuel IH]; intros first soFar groups tokens rest gs Hr.
  { cbn [scan]. destruct soFar; [|done]. intros [= <- <-]. destruct first; [by destruct Hr as [-> ->]; left|by right]. }
  cbn [scan]. destruct soFar as [|x soFar0] eqn:Es; [intros [= <- <-]; destruct first; [by destruct Hr as [-> ->]; left|by right]|].
  rewrite <- Es in *. clear Es.
  set (start := if first then _ else _). assert (Hs : read_to selector start.1.1 (start.1.2 ++ [start.2])).
  { unfold start. destruct first.
    - destruct Hr as [-> ->]. exists []. split; [done|]. split; [done|]. by repeat constructor.
    - destruct (exec false rcomma soFar) as [m|] eqn:E; [|done]. destruct Hr as (p & Hp & Hsp & Hh).
      assert (Hc : exists c, separator c /\ soFar = c ++ match after m with [] => soFar | rest => rest end).
      { destruct (after m) as [|y t] eqn:Ea; [exists []; split; [constructor|done]|]. exists (matched m). split; [by eapply rcomma_separator|].
        pose proof (exec_start _ _ _ _ E) as H. rewrite Ea in H. exact H. }
      destruct Hc as (c & Hc & Hsof). cbn [fst snd]. exists (p ++ c). split; [by rewrite <- app_assoc, <- Hsof|].
      split; [by apply spelled_comma|]. apply Forall_app. split; [done|]. by repeat constructor. }
  destruct start as [[soFar1 groups1] tokens1]. cbn [fst snd] in Hs.
  destruct (combinator soFar1 tokens1) as [[soFar2 tokens2] b2] eqn:Ec. apply combinator_text in Ec as (ts & -> & E2 & Hh).
  pose proof (read_tokens _ _ _ _ _ _ Hs E2 Hh) as H2. unfold andthen.
  destruct (SizzleTokens.filters _ soFar2 _ _) as [[[[soFar3 tokens3] b3]|]|] eqn:Ef; [|done|done].
  apply filters_text in Ef as (ts' & -> & E3 & Hh'); [|apply filter_types_prefix].
  pose proof (read_tokens _ _ _ _ _ _ H2 E3 Hh') as H3. destruct b3; [by apply IH|]. intros [= <- <-]. by right.
Qed.
End Scan.

Lemma tokens_spelled cached selector groups : selector <> [] -> tokens_of cached selector = Some (Good groups) ->
  spelled groups selector /\ Forall (Forall honest_token) groups.
Proof.
  unfold tokens_of, andthen. intros Hne. destruct (scan _ _ _ _ _ _) as [[[rest gs]|]|] eqn:E; [|done|done]. destruct rest; [|done].
  intros [= <-]. apply (scan_text _ selector) in E; [|done]. destruct E as [[_ E]|(p & -> & H)]; [done|]. by rewrite app_nil_r.
Qed.
Lemma sibling_seen v r s : honest_token (Combinator v r) -> (r = Sibling \/ r = Adjacent) -> (exists a b, s = a ++ v ++ b) ->
  test false rsibling s = true.
Proof.
  intros H Hr (a & b & ->). destruct (H Hr) as (x & Hx & Hu). apply (rsibling_finds _ x); [|done]. rewrite !elem_of_app. tauto.
Qed.
