(* ===== verification/SizzleScope.v ===== *)
(** * Sizzle: documents, and the elements that a group can hold of

    [QueryLaws] is what the engine relies on of the native queries of a document. [inside]:
    an element that a group holds of is in the part of the document that is searched. *)

From Stdlib Require Import ZArith Lia.
From stdpp Require Import base tactics list numbers strings gmap.
From S2P Require Import Prelude JsValue Md5 Regex ValidPage RegExec SizzleTokens Sizzle SizzleClass SizzleSelect SizzleSpec SizzleFrame SizzleMeaning SizzleText.
Local Open Scope Z_scope.

Local Open Scope sizzle_scope.

Definition class_text {D : Document} (e : nat) : jstr :=
  match className e with [] => default [] (getAttribute e (u "class")) | c => c end.
(** All elements, in document order. *)
Definition all_elements {D : Document} : list nat := filter (fun e => is_element e = true) (seq 0 size).

(** An HTML document. *)
Class QueryLaws (D : Document) := {
  q_html : documentIsXML = false;
  q_document n : nodeType n = 9 <-> n = O;
  q_rooted n : (0 < n < size)%nat -> exists p, parentNode n = Some p;
  q_parents n p : parentNode n = Some p -> is_element p = true \/ p = O;
  q_all c : getElementsByTagName (u "*") c = filter (fun e => c ∈ path parentNode_ e) all_elements;
  q_tag t c : t <> u "*" ->
    getElementsByTagName t c = filter (fun e => toLowerCase (nodeName e) = toLowerCase t) (getElementsByTagName (u "*") c);
  q_class t c : getElementsByClassName t c = filter (fun e => t ∈ words (class_text e)) (getElementsByTagName (u "*") c);
  q_id t : getElementById t = head (filter (fun e => getAttribute e (u "id") = Some t) all_elements);
  q_ids a b t : a ∈ all_elements -> b ∈ all_elements ->
    getAttribute a (u "id") = Some t -> getAttribute b (u "id") = Some t -> a = b
}.

Section Scope.
Context {D : Document} {L : DocumentLaws D} {Q : QueryLaws D}.

Lemma elem_of_all e : e ∈ all_elements <-> is_element e = true /\ (e < size)%nat.
Proof. unfold all_elements. rewrite list_elem_of_filter, elem_of_seq. naive_solver lia. Qed.
Lemma element_not_root e : is_element e = true -> e <> O.
Proof. intros H ->. pose proof (proj2 (q_document 0) eq_refl) as H0. unfold is_element in H. rewrite H0 in H. done. Qed.

(** ** Inside a node *)

Definition inside_of (top e : nat) : Prop := top ∈ path parentNode_ e.
Lemma inside_parent top e p : parentNode e = Some p -> inside_of top e <-> top = p \/ inside_of top p.
Proof. intros H. unfold inside_of. rewrite path_eq. cbn [along]. by rewrite H, elem_of_cons. Qed.
Lemma inside_trans a b e : inside_of a b -> inside_of b e -> inside_of a e.
Proof.
  intros Ha. induction (lt_wf e) as [e _ IH]. intros Hb. destruct (parentNode e) as [p|] eqn:E.
  - apply parent_before in E as Hlt. apply (inside_parent _ _ _ E) in Hb. apply (inside_parent _ _ _ E). right.
    destruct Hb as [<-|Hb]; [done|]. by apply IH.
  - unfold inside_of in Hb. rewrite path_eq in Hb. cbn [along] in Hb. rewrite E in Hb. by apply not_elem_of_nil in Hb.
Qed.
Lemma inside_root e : is_element e = true -> (e < size)%nat -> inside_of 0 e.
Proof.
  induction (lt_wf e) as [e _ IH]. intros He Hs. apply element_not_root in He as Hne. destruct (q_rooted e ltac:(lia)) as [p Hp].
  apply (inside_parent _ _ _ Hp). destruct (q_parents _ _ Hp) as [Hpe| ->]; [|by left]. right.
  apply parent_before in Hp. apply IH; [lia|done|lia].
Qed.
Lemma previous_parent e m : previousSibling e = Some m -> parentNode m = parentNode e /\ exists p, parentNode e = Some p.
Proof.
  unfold previousSibling. intros H%last_Some_elem_of. apply list_elem_of_filter in H as [_ H]. unfold siblings_of in H.
  destruct (parentNode e) as [p|] eqn:E; [|by apply not_elem_of_nil in H]. apply list_elem_of_filter in H as [H _]. rewrite H. by split; [|exists p].
Qed.
Lemma sibling_parent e m : m ∈ path previousSibling_ e -> exists p, parentNode m = Some p /\ parentNode e = Some p.
Proof.
  induction (lt_wf e) as [e _ IH]. rewrite path_eq. destruct (along previousSibling_ e) as [x|] eqn:E; [|by intros ?%not_elem_of_nil].
  apply along_before in E as Hlt. apply previous_parent in E as [E1 [p E2]]. intros [->|H]%elem_of_cons.
  - exists p. by rewrite E1.
  - destruct (IH x Hlt H) as (q & H1 & H2). exists q. split; [done|congruence].
Qed.
Lemma targets_path r ne e m : m ∈ targets r ne e -> m ∈ path (dir_of r) e /\ counted ne m = true.
Proof.
  unfold targets. intros H. assert (m ∈ counted_path (dir_of r) ne e) as H'.
  { destruct (first_of r); [|done]. rewrite <- (take_drop 1 (counted_path _ _ _)). apply elem_of_app. by left. }
  unfold counted_path in H'. apply list_elem_of_filter in H'. naive_solver.
Qed.
Lemma inside_targets top r ne e m : m ∈ targets r ne e -> inside_of top m -> inside_of top e.
Proof.
  intros [H _]%targets_path. destruct (dir_of r); [by intros; eapply inside_trans|].
  destruct (sibling_parent _ _ H) as (p & Hm & He). by rewrite (inside_parent _ _ _ Hm), (inside_parent _ _ _ He).
Qed.
Lemma inside_after top P tokens e : (forall x, P x = true -> inside_of top x) -> holds_after P tokens e = true -> inside_of top e.
Proof.
  revert P. induction tokens as [|[v r|v f] tokens IH]; intros P HP; cbn [holds_after]; [apply HP|..]; apply IH; intros x.
  - intros (m & Hm & H)%existsb_exists. apply list_elem_of_In in Hm. by eapply inside_targets, HP.
  - intros [_ H]%andb_true_iff. by apply HP.
Qed.

Definition starts_sibling (tokens : list token) : bool := match tokens with t :: _ => is_sibling t | [] => false end.
(** The part that is searched for the elements of a group. *)
Lemma holds_inside n tokens e : is_element e = true -> (e < size)%nat -> holds n tokens e = true ->
  inside_of (expanded n (starts_sibling tokens)) e.
Proof.
  intros He Hs Hh. unfold holds, holds_in in Hh.
  assert (Hplain : holds_after (fun x => sem_context (context_flag (Node n)) false Descendant x (Node n)) tokens e = true -> inside_of n e).
  { intros H. destruct n as [|n]; [by apply inside_root|]. eapply inside_after; [|exact H]. intros x.
    unfold sem_context. cbn [context_flag same_context negb andb]. rewrite Nat.eqb_refl, q_html. cbn [negb orb].
    rewrite bool_decide_eq_true. intros Hx%targets_path. apply Hx. }
  destruct tokens as [|[v r|v f] rest]; [by apply Hplain| |by apply Hplain]. clear Hplain.
  eapply inside_after; [|exact Hh]. intros x Hx. unfold sem_context in Hx. cbn [negb andb] in Hx. apply bool_decide_eq_true in Hx.
  apply targets_path in Hx as [Hx _]. destruct r; cbn in *; try exact Hx.
  all: destruct (sibling_parent _ _ Hx) as (p & Hn & He'); unfold expanded; rewrite Hn; cbn; apply (inside_parent _ _ _ He'); by left.
Qed.
Lemma inside_expanded n b e : inside_of n e -> inside_of (expanded n b) e.
Proof.
  intros H. unfold expanded. destruct b; [|done]. destruct (parentNode n) as [p|] eqn:E; [|done]. cbn.
  eapply inside_trans; [|exact H]. apply (inside_parent _ _ _ E). by left.
Qed.
(** All elements that hold are found in any part with them. *)
Lemma scoped (P : nat -> bool) top : (forall e, e ∈ all_elements -> P e = true -> inside_of top e) ->
  filter (fun e => P e = true) (getElementsByTagName (u "*") top) = filter (fun e => P e = true) all_elements.
Proof.
  intros H. rewrite q_all, list_filter_filter. assert (Hsub : forall e, e ∈ all_elements -> P e = true -> inside_of top e) by done.
  clear H. revert Hsub. generalize all_elements. intros l. induction l as [|e l IH]; intros H; [done|].
  rewrite !filter_cons. rewrite IH by (intros e' He'; apply H; by apply elem_of_cons; right).
  destruct (decide (P e = true)) as [Hp|Hp].
  - rewrite decide_True; [done|]. split; [done|]. apply H; [by apply elem_of_cons; left|done].
  - rewrite decide_False; [done|naive_solver].
Qed.
End Scope.

(** * Sizzle: pages of a few nodes

    The documents that [small] makes of a list of nodes have the laws of a document
    ([small_laws], [small_queries]) where the list passes a check. *)

Section Page.
Context (nodes : list entry) (qsa : gmap nat jstr -> nat -> jstr -> option (list nat)).
#[local] Instance page : Document := small nodes qsa.

Definition node_ok (n : nat) : bool :=
  match node_parent nodes n with
  | Some p => (p <? n)%nat && ((p =? 0)%nat || (node_type nodes p =? 1))
  | None => (n =? 0)%nat
  end.
Definition id_ok (a b : nat) : bool :=
  match node_attr nodes a (u "id"), node_attr nodes b (u "id") with
  | Some i, Some j => implb (js_eqb i j) (a =? b)%nat
  | _, _ => true
  end.
Definition well_formed : bool :=
  forallb node_ok (seq 0 (length nodes)) && forallb (fun a => forallb (id_ok a) (seq 0 (length nodes))) (seq 0 (length nodes)).
Context (Hpage : well_formed = true).

Lemma page_node n : (n < length nodes)%nat -> node_ok n = true.
Proof.
  intros Hn. apply andb_true_iff in Hpage as [H _]. rewrite forallb_forall in H. apply H. apply in_seq. lia.
Qed.
Lemma page_parent n p : node_parent nodes n = Some p -> (p < n)%nat /\ (n < length nodes)%nat /\ (p = O \/ node_type nodes p = 1).
Proof.
  intros H. assert (Hn : (n < length nodes)%nat).
  { unfold node_parent in H. destruct (nodes !! n) eqn:E; [by apply lookup_lt_Some in E|done]. }
  pose proof (page_node n Hn) as Hok. unfold node_ok in Hok. rewrite H in Hok. apply andb_true_iff in Hok as [H1 H2].
  apply Nat.ltb_lt in H1. apply orb_true_iff in H2 as [H2%Nat.eqb_eq|H2%Z.eqb_eq]; auto.
Qed.
#[local] Instance small_laws : DocumentLaws page.
Proof. split; cbn; intros n p H%page_parent; [lia|tauto]. Qed.

Lemma within_path fuel top n : within nodes fuel top n = true <-> top ∈ path_from fuel (node_parent nodes) n.
Proof.
  revert n. induction fuel as [|fuel IH]; intros n; cbn; [split; [done|by intros ?%not_elem_of_nil]|].
  destruct (node_parent nodes n) as [p|]; [|split; [done|by intros ?%not_elem_of_nil]].
  rewrite orb_true_iff, Nat.eqb_eq, IH, elem_of_cons. naive_solver.
Qed.
Lemma below_path top : below nodes top = filter (fun e => top ∈ path parentNode_ e) all_elements.
Proof.
  unfold below, all_elements. rewrite list_filter_filter. apply list_filter_iff. intros n. rewrite within_path.
  unfold is_element. cbn [nodeType page small]. rewrite Z.eqb_eq. reflexivity.
Qed.
Lemma small_tag t top : getElementsByTagName t top =
  filter (fun n => js_eqb t (u "*") || js_eqb (to_lower (node_name nodes n)) (to_lower t) = true) (below nodes top).
Proof. reflexivity. Qed.
Lemma small_all top : getElementsByTagName (u "*") top = below nodes top.
Proof.
  rewrite small_tag. generalize (below nodes top). intros l. induction l as [|n l IH]; [done|].
  rewrite filter_cons, decide_True by done. by rewrite IH.
Qed.
Lemma small_queries : QueryLaws page.
Proof.
  split.
  - done.
  - intros n. cbn. destruct n; [done|]. cbn. split; [|done]. by repeat case_match.
  - intros n [H1 H2]. pose proof (page_node n H2) as Hok. unfold node_ok in Hok. cbn. destruct (node_parent nodes n) as [p|]; [by exists p|].
    apply Nat.eqb_eq in Hok. lia.
  - intros n p H%page_parent. cbn. unfold is_element. cbn. rewrite Z.eqb_eq. tauto.
  - intros top. by rewrite small_all, below_path.
  - intros t top Ht. rewrite small_all, small_tag. apply list_filter_iff. intros n.
    assert (js_eqb t (u "*") = false) as -> by (by apply bool_decide_eq_false_2). cbn [orb]. unfold js_eqb. by rewrite bool_decide_eq_true.
  - intros t top. rewrite small_all. apply list_filter_iff. intros n. unfold class_text. cbn. by destruct (default [] _).
  - intros t. unfold all_elements. rewrite list_filter_filter.
    change (getElementById t) with (head (filter (fun n => node_attr nodes n (u "id") = Some t /\ node_type nodes n = 1) (seq 0 (length nodes)))).
    f_equal. apply list_filter_iff. intros n. unfold is_element. cbn.
    rewrite Z.eqb_eq. reflexivity.
  - intros a b t [_ Ha]%elem_of_all [_ Hb]%elem_of_all H1 H2. apply andb_true_iff in Hpage as [_ H]. rewrite forallb_forall in H.
    assert (Hab : id_ok a b = true).
    { specialize (H a ltac:(apply in_seq; cbn in Ha; lia)). rewrite forallb_forall in H. apply H. apply in_seq. cbn in Hb. lia. }
    unfold id_ok in Hab. change (node_attr nodes a (u "id") = Some t) in H1. change (node_attr nodes b (u "id") = Some t) in H2.
    rewrite H1, H2 in Hab. rewrite js_eqb_refl in Hab. by apply Nat.eqb_eq in Hab.
Qed.
End Page.

Example page1_ok : well_formed page1 = true.
Proof. vm_compute. reflexivity. Qed.
