(* ===== verification/SizzleExact.v ===== *)
(** * Sizzle: a search finds what the selector says

    The native lookups give the elements of their filters ([find_ok]), the seed set is a
    part of a group ([find_seed_ok]), an id at the start can be the context ([start_ok]),
    so [select] gives the elements of the document that one of the groups holds of
    ([select_ok]). *)

From Stdlib Require Import ZArith Lia.
From stdpp Require Import base tactics list numbers strings gmap.
From S2P Require Import Prelude JsValue ValidPage Regex RegExec SizzleTokens Sizzle SizzleSelect SizzleSpec SizzleFrame SizzleSearch SizzleTidy SizzleMeaning SizzleText SizzleClass SizzleScope.
Local Open Scope Z_scope.
Local Open Scope sizzle_scope.

(** A filter that the native lookup of its type reads like the engine: no tag name that is
    a star only after its escapes, and class names that are words. *)
Definition sound_find (f : filter_args) : Prop :=
  match f with
  | TAG name => name = u "*" \/ unescape name <> u "*"
  | CLASS name => literal_text name = unescape name /\ Forall (fun x => is_space x = false) (literal_text name)
  | _ => True
  end.

Section Exact.
Context {D : Document} {L : DocumentLaws D} {Q : QueryLaws D}.

Lemma filter_true {A} (f : A -> bool) (l : list A) : (forall x, f x = true) -> filter (fun x => f x = true) l = l.
Proof. intros H. induction l as [|x l IH]; [done|]. rewrite filter_cons, decide_True by done. by rewrite IH. Qed.
Lemma filter_none {A} (l : list A) : filter (fun x => (fun _ => false) x = true) l = [].
Proof. induction l as [|x l IH]; [done|]. by rewrite filter_cons, decide_False. Qed.
Lemma filter_bool_ext {A} (f g : A -> bool) (l : list A) : (forall x, x ∈ l -> f x = g x) -> filter (fun x => f x = true) l = filter (fun x => g x = true) l.
Proof.
  induction l as [|x l IH]; intros H; [done|]. rewrite !filter_cons, IH by (intros; apply H; by apply elem_of_cons; right).
  assert (E : f x = g x) by (apply H; by apply elem_of_cons; left). destruct (decide (f x = true)), (decide (g x = true)); congruence.
Qed.
Lemma filter_and {A} (f g : A -> bool) (l : list A) : filter (fun x => f x = true) (filter (fun x => g x = true) l) = filter (fun x => f x && g x = true) l.
Proof.
  induction l as [|x l IH]; [done|]. rewrite (filter_cons (fun x => g x = true)), (filter_cons (fun x => f x && g x = true)), <- IH.
  destruct (decide (g x = true)) as [Hg|Hg].
  - rewrite filter_cons, Hg, andb_true_r. done.
  - rewrite decide_False; [done|]. by intros [_ H]%andb_true_iff.
Qed.
Lemma filter_one {A} (P : A -> Prop) `{!forall x, Decision (P x)} (l : list A) : NoDup l -> (forall a b, a ∈ l -> b ∈ l -> P a -> P b -> a = b) ->
  filter P l = match head (filter P l) with Some m => [m] | None => [] end.
Proof.
  intros Hd Hu. induction Hd as [|x l Hx Hd IH]; [done|]. rewrite filter_cons. destruct (decide (P x)) as [Hp|Hp].
  - cbn. f_equal. destruct (filter P l) as [|y r] eqn:E; [done|]. exfalso. apply Hx.
    assert (y ∈ filter P l) as Hy by (rewrite E; by apply elem_of_cons; left). apply list_elem_of_filter in Hy as [Hpy Hy].
    rewrite (Hu x y); [done| |by apply elem_of_cons; right|done|done]. by apply elem_of_cons; left.
  - apply IH. intros a b Ha Hb. by apply Hu; apply elem_of_cons; right.
Qed.

(** ** Native lookups *)

Definition below_of (c : nat) : list nat := getElementsByTagName (u "*") c.
Lemma below_root : below_of 0 = all_elements.
Proof.
  unfold below_of. rewrite q_all. assert (H : forall e, e ∈ all_elements -> 0%nat ∈ path parentNode_ e).
  { intros e [H1 H2]%elem_of_all. by apply inside_root. }
  revert H. generalize all_elements. intros l. induction l as [|e l IH]; intros H; [done|].
  rewrite filter_cons, decide_True by (apply H; by apply elem_of_cons; left). f_equal. apply IH. intros; apply H; by apply elem_of_cons; right.
Qed.
Lemma elem_of_below c e : e ∈ below_of c -> is_element e = true /\ e ∈ all_elements.
Proof. unfold below_of. rewrite q_all, list_elem_of_filter. intros [_ H]. split; [|done]. apply elem_of_all in H as [H _]. exact H. Qed.

Lemma find_ID_ok name c l : find_ID (unescape name) c = Some l -> c = O /\ l = filter (fun e => means (ID name) e = true) all_elements.
Proof.
  unfold find_ID. destruct (nodeType c =? 9) eqn:Ec; [|done]. rewrite q_html. cbn [andb negb]. intros [= <-].
  apply Z.eqb_eq, q_document in Ec as ->. split; [done|].
  assert (E : forall e, means (ID name) e = true <-> getAttribute e (u "id") = Some (unescape name)).
  { intros e. unfold means. cbn [filter_meaning]. unfold filter_id. destruct (getAttribute e (u "id")) as [i|]; [|done].
    unfold js_eqb; rewrite bool_decide_eq_true. naive_solver. }
  rewrite (filter_one (fun e => means (ID name) e = true)).
  - rewrite q_id. assert (E' : filter (fun e => getAttribute e (u "id") = Some (unescape name)) all_elements =
      filter (fun e => means (ID name) e = true) all_elements) by (apply list_filter_iff; intros; by rewrite E).
    rewrite E'. destruct (head _) as [m|] eqn:Em; [|done].
    assert (Hm : m ∈ all_elements) by (apply head_Some_elem_of in Em; by apply list_elem_of_filter in Em as [_ ?]).
    apply elem_of_all in Hm as [He Hs]. apply element_not_root in He. destruct (q_rooted m) as [p ->]; [lia|done].
  - unfold all_elements. apply NoDup_filter, NoDup_seq.
  - intros a b Ha Hb. rewrite !E. by apply q_ids.
Qed.
Lemma find_ok f c l : sound_find f -> find_in f c = Some l -> l = filter (fun e => means f e = true) (below_of c).
Proof.
  unfold below_of. destruct f as [name|name| | | |name]; cbn [find_in sound_find]; try done.
  - intros Hs [= <-]. destruct (decide (name = u "*")) as [->|Hne].
    + rewrite filter_true; [done|]. intros e. done.
    + destruct Hs as [Hs|Hs]; [done|]. rewrite q_tag by done. apply list_filter_iff. intros e. unfold means. cbn [filter_meaning].
      assert (js_eqb name (u "*") = false) as -> by (by apply bool_decide_eq_false_2).
      cbn [orb]. unfold filter_tag. by unfold js_eqb; rewrite bool_decide_eq_true.
  - intros [H1 H2]. rewrite q_html. intros [= <-]. rewrite q_class. apply list_filter_iff. intros e. unfold means. cbn [filter_meaning].
    unfold filter_class. rewrite class_words by done. rewrite H1. unfold class_text. by rewrite bool_decide_eq_true.
  - intros _ [-> ->]%find_ID_ok. by rewrite <- below_root.
Qed.

(** ** The seed set is a filter of the last element *)

Definition is_filter (t : token) : Prop := match t with Filter _ _ => True | _ => False end.
Lemma find_seed_shape before : forall after up c seed rest, find_seed before after up c = Some (seed, rest) -> Forall is_filter after ->
  exists pre v f post, rev before ++ after = pre ++ Filter v f :: post /\ Forall is_filter post /\ rest = pre ++ post /\
    find_in f (expanded c up) = Some seed.
Proof.
  induction before as [|[v r|v f] before IH]; intros after up c seed rest; cbn [find_seed]; [done|done|].
  destruct (find_in f (expanded c up)) as [l|] eqn:E.
  - intros [= <- <-] Ha. exists (rev before), v, f, after. cbn. by rewrite <- app_assoc.
  - intros H Ha. apply IH in H as (pre & v' & f' & post & H1 & H2); [|by constructor]. exists pre, v', f', post.
    split; [|done]. cbn. by rewrite <- app_assoc.
Qed.
Lemma holds_after_app P pre post e : holds_after P (pre ++ post) e = holds_after (holds_after P pre) post e.
Proof. revert P. induction pre as [|[v r|v f] pre IH]; intros P; cbn; [done|apply IH|apply IH]. Qed.
Lemma holds_after_filters P post e : Forall is_filter post ->
  holds_after P post e = forallb (fun t => match t with Filter _ f => means f e | _ => true end) post && P e.
Proof.
  intros H. revert P. induction H as [|[v r|v f] post Ht H IH]; intros P; [done|done|]. cbn. rewrite IH.
  destruct (means f e); [done|]. cbn. by rewrite andb_false_r.
Qed.
Lemma holds_filter n pre v f post e : Forall is_filter post ->
  holds n (pre ++ Filter v f :: post) e = holds n (pre ++ post) e && means f e.
Proof.
  intros Hp.
  assert (H : forall P, holds_after P (Filter v f :: post) e = holds_after P post e && means f e).
  { intros P. cbn. rewrite !holds_after_filters by done. rewrite (andb_comm (means f e)), andb_assoc. done. }
  unfold holds, holds_in. destruct pre as [|[v' r|v' f'] pre]; cbn [app].
  - rewrite H. by destruct Hp as [|[v' r'|v' f'] post []].
  - by rewrite !holds_after_app, H.
  - change (Filter v' f' :: pre ++ Filter v f :: post) with ((Filter v' f' :: pre) ++ Filter v f :: post).
    change (Filter v' f' :: pre ++ post) with ((Filter v' f' :: pre) ++ post). by rewrite !holds_after_app, H.
Qed.

(** ** One group *)

Definition missing (s : state) (key : jstr) : Prop := cache_values (compilerCache s) !! key = None.
(** Tokens with texts, of which the engine compiles plain functions. *)
Definition searchable (tokens : list token) : Prop :=
  Forall (fun t => plain_token t /\ token_value t <> [] /\ match t with Filter _ f => sound_find f | _ => True end /\ honest_token t) tokens.
Lemma searchable_plain tokens : searchable tokens -> Forall plain_token tokens.
Proof. intros H. eapply Forall_impl; [exact H|]. by intros t (? & _). Qed.
Lemma text_empty tokens : searchable tokens -> toSelector tokens = [] -> tokens = [].
Proof.
  intros [|t l (_ & Ht & _) H]; [done|]. cbn. intros E. by apply app_eq_nil in E as [E _].
Qed.
Lemma starts_sibling_filter pre v f post : Forall is_filter post -> starts_sibling (pre ++ Filter v f :: post) = starts_sibling (pre ++ post).
Proof. intros H. destruct pre; [|done]. cbn. destruct H as [|[] ? []]; done. Qed.

Section Select.
Context (sizzle : jstr -> nat -> list nat -> M (list nat)) (depth n : nat).
Definition hits (groups : list (list token)) : list nat := filter (fun e => any_holds n groups e = true) all_elements.
Definition gives (m : M (list nat)) (s : state) (groups : list (list token)) (results : list nat) : Prop :=
  yields m s (fun l _ => l = results ++ hits groups).

Lemma any_one g e : any_holds n [g] e = holds n g e.
Proof. unfold any_holds. cbn. by rewrite orb_false_r. Qed.
Lemma sem_holds sup groups : (forall o c e, sem_super o sup c e = any_in o c groups e) ->
  forall e, sem_super (context_flag (Node n)) sup (Node n) e = any_holds n groups e.
Proof. intros H e. rewrite H. reflexivity. Qed.

(** Compilation, then a search among [seed] or all elements. *)
Lemma compile_run_seed key groups seed results s : tidy s -> groups <> [] -> Forall plain_group groups -> missing s key ->
  Forall (fun e => is_element e = true) seed ->
  yields (compile_and_run (S depth) sizzle key groups (Some seed) n results) s
    (fun l _ => l = results ++ filter (fun e => any_holds n groups e = true) seed).
Proof.
  intros T Hne Hp Hm Hs. unfold compile_and_run.
  destruct (compile_ok depth key groups s Hne Hp Hm) as (sup & s1 & E & q & ms & -> & Hms & Hg & Hsem).
  assert (T1 : tidy s1). { pose proof (compile_keeps (S depth) key (Some groups) s T) as K. rewrite E in K. apply K. }
  eapply (yields_bind _ _ _ (fun x s' => x = Super q ms [] /\ s' = s1)); [by exists (Super q ms []), s1|].
  intros ? ? [-> ->]. eapply yields_bind; [by apply search_seed|]. intros r s2 [Hr _]. apply yields_ret. rewrite Hr. f_equal.
  apply list_filter_iff. intros e. by rewrite (sem_holds _ groups Hsem).
Qed.
Lemma compile_run_all key groups results s : tidy s -> groups <> [] -> Forall plain_group groups -> missing s key ->
  yields (compile_and_run (S depth) sizzle key groups None n results) s
    (fun l _ => l = results ++ filter (fun e => any_holds n groups e = true) (below_of (expanded n (test false rsibling key)))).
Proof.
  intros T Hne Hp Hm. unfold compile_and_run.
  destruct (compile_ok depth key groups s Hne Hp Hm) as (sup & s1 & E & q & ms & -> & Hms & Hg & Hsem).
  assert (T1 : tidy s1). { pose proof (compile_keeps (S depth) key (Some groups) s T) as K. rewrite E in K. apply K. }
  eapply (yields_bind _ _ _ (fun x s' => x = Super q ms [] /\ s' = s1)); [by exists (Super q ms []), s1|].
  intros ? ? [-> ->]. eapply yields_bind.
  - apply (search_all sizzle q ms n results (test false rsibling key)); [done..|]. apply Forall_forall. intros e He. by apply elem_of_below in He as [? _].
  - intros r s2 [Hr _]. apply yields_ret. rewrite Hr. f_equal. apply list_filter_iff. intros e. by rewrite (sem_holds _ groups Hsem).
Qed.

Lemma hits_scope groups top : (forall e, e ∈ all_elements -> any_holds n groups e = true -> inside_of top e) ->
  filter (fun e => any_holds n groups e = true) (below_of top) = hits groups.
Proof. apply scoped. Qed.
Lemma sibling_key tokens : searchable tokens -> starts_sibling tokens = true -> test false rsibling (toSelector tokens) = true.
Proof.
  intros H. destruct tokens as [|t rest]; [done|]. apply Forall_cons in H as [(_ & _ & _ & Hh) _]. cbn. intros Hs.
  destruct t as [v r|v f]; [|done]. apply (sibling_seen v r); [done|destruct r; try done; [by left|by right]|]. by exists [], (toSelector rest).
Qed.
Lemma holds_scope tokens b e : e ∈ all_elements -> (starts_sibling tokens = true -> b = true) -> any_holds n [tokens] e = true ->
  inside_of (expanded n b) e.
Proof.
  intros [He Hs]%elem_of_all Hb. rewrite any_one. intros H%holds_inside; [|done|done]. destruct (starts_sibling tokens).
  - by rewrite Hb.
  - by apply inside_expanded.
Qed.

Lemma select_from_ok selector tokens results s : tidy s -> tokens <> [] -> searchable tokens -> selector = toSelector tokens ->
  (forall i, missing s (toSelector (delete i tokens))) -> missing s selector ->
  gives (select_from (S depth) sizzle n selector tokens results) s [tokens] results.
Proof.
  intros T Hne Hs Hsel Hd Hm. unfold gives, select_from. cbn zeta. fold (starts_sibling tokens).
  assert (Hall : yields (compile_and_run (S depth) sizzle selector [tokens] None n results) s (fun l _ => l = results ++ hits [tokens])).
  { eapply yields_mono; [apply compile_run_all; [done|done| |done]|].
    - constructor; [|constructor]. split; [done|by apply searchable_plain].
    - intros l _ ->. f_equal. apply hits_scope. intros e He. apply holds_scope; [done|]. rewrite Hsel. by apply sibling_key. }
  destruct (test true needsContext selector); [exact Hall|].
  destruct (find_seed (rev tokens) [] (starts_sibling tokens) n) as [[seed rest]|] eqn:E; [|exact Hall]. clear Hall.
  apply find_seed_shape in E as (pre & v & f & post & Ht & Hp & -> & Hf); [|constructor]. rewrite rev_involutive, app_nil_r in Ht.
  assert (Hsf : sound_find f). { rewrite Ht in Hs. apply Forall_app in Hs as [_ Hs]. apply Forall_cons in Hs as [(_ & _ & H & _) _]. exact H. }
  apply find_ok in Hf; [|done].
  assert (Hhits : hits [tokens] = filter (fun e => any_holds n [pre ++ post] e = true) seed).
  { rewrite Hf, filter_and. rewrite <- (hits_scope [tokens] (expanded n (starts_sibling tokens))) by (intros e He; by apply holds_scope).
    apply filter_bool_ext. intros e _. rewrite !any_one, Ht. by apply holds_filter. }
  assert (Hsr : searchable (pre ++ post)).
  { rewrite Ht in Hs. apply Forall_app in Hs as [H1 H2]. apply Forall_cons in H2 as [_ H2]. apply Forall_app. by split. }
  assert (Hkey : missing s (toSelector (pre ++ post))).
  { specialize (Hd (length pre)). by rewrite Ht, delete_middle in Hd. }
  assert (Helem : Forall (fun e => is_element e = true) seed).
  { rewrite Hf. apply Forall_forall. intros e He. apply list_elem_of_filter in He as [_ He]. by apply elem_of_below in He as [? _]. }
  destruct seed as [|e0 seed0] eqn:Es; [apply yields_ret; rewrite Hhits; by rewrite app_nil_r|]. rewrite <- Es in *. clear Es.
  destruct (toSelector (pre ++ post)) as [|x key] eqn:Ek.
  - apply yields_ret. apply text_empty in Ek; [|done]. rewrite Hhits, Ek. f_equal. symmetry.
    rewrite (filter_bool_ext _ (fun _ => true)); [by apply filter_true|]. intros e He. rewrite any_one.
    assert (Hin : e ∈ below_of (expanded n (starts_sibling tokens))) by (rewrite Hf in He; by apply list_elem_of_filter in He as [_ ?]).
    apply app_eq_nil in Ek as [-> ->]. rewrite Ht in Hin. cbn in Hin. unfold below_of in Hin. rewrite q_all, list_elem_of_filter in Hin.
    destruct Hin as [Hin Hel]. apply elem_of_all in Hel as [Hel _]. unfold holds, holds_in. cbn [holds_after]. unfold sem_context.
    rewrite q_html. destruct n as [|k]; [done|]. cbn [context_flag same_context negb andb orb]. rewrite Nat.eqb_refl. cbn [negb].
    apply bool_decide_eq_true. unfold targets. cbn [first_of dir_of base_of]. unfold counted_path. apply list_elem_of_filter. split; [|done].
    unfold counted. apply orb_true_r.
  - rewrite <- Ek in *. rewrite Hhits. apply compile_run_seed; [done|done| |done|done].
    constructor; [|constructor]. split; [|by apply searchable_plain]. intros E. by rewrite E in Ek.
Qed.
End Select.

(** ** An id as the context *)

Lemma path_in_size d x m : m ∈ path d x -> (m < size)%nat.
Proof.
  induction (lt_wf x) as [x _ IH]. rewrite path_eq. destruct (along d x) as [y|] eqn:E; [|by intros ?%not_elem_of_nil].
  apply along_before in E as Hlt. intros [->|H]%elem_of_cons; [|by apply (IH y)]. destruct d; cbn in E.
  - apply node_in_size in E. lia.
  - apply previous_parent in E as [E1 [p E2]]. rewrite E2 in E1. by apply node_in_size in E1.
Qed.
Lemma child_targets ne x c : is_element c = true -> c ∈ targets Child ne x <-> parentNode x = Some c.
Proof.
  intros Hc. unfold targets. cbn [first_of dir_of]. rewrite counted_path_eq. cbn [along]. destruct (parentNode x) as [p|] eqn:E.
  - destruct (counted ne p) eqn:Ep.
    + cbn. rewrite list_elem_of_singleton. naive_solver.
    + assert (p = O) as ->.
      { destruct (q_parents _ _ E) as [H|H]; [|done]. unfold counted in Ep. by rewrite H in Ep. }
      rewrite counted_path_eq. cbn [along]. destruct (parentNode 0) as [q|] eqn:E0; [apply parent_before in E0; lia|].
      cbn. split; [by intros ?%not_elem_of_nil|]. intros [= <-]. by apply element_not_root in Hc.
  - cbn. split; [by intros ?%not_elem_of_nil|done].
Qed.
Lemma targets_base r x c : is_element c = true -> c ∈ targets r (base_of r) x <-> c ∈ targets r false x.
Proof.
  intros Hc. destruct r; [|by rewrite !child_targets|done|done]. unfold targets, counted_path. cbn [first_of dir_of base_of].
  rewrite !list_elem_of_filter. unfold counted. rewrite Hc. done.
Qed.
Lemma holds_after_false tokens e : holds_after (fun _ => false) tokens e = false.
Proof.
  assert (H : forall P, (forall x, P x = false) -> holds_after P tokens e = false); [|by apply H].
  induction tokens as [|[v r|v f] tokens IH]; intros P HP; cbn; [apply HP|..]; apply IH; intros x.
  - induction (targets r false x) as [|m l IHl]; [done|]. cbn. by rewrite HP.
  - by rewrite HP, andb_false_r.
Qed.
(** The elements with the id that a combinator goes to. *)
Lemma id_targets name r x :
  existsb (fun y => means (ID name) y) (targets r false x) =
  match filter (fun e => means (ID name) e = true) all_elements with
  | c :: _ => bool_decide (c ∈ targets r (base_of r) x)
  | [] => false
  end.
Proof.
  assert (Ht : forall y, y ∈ targets r false x -> y ∈ all_elements).
  { intros y [H1 H2]%targets_path. apply elem_of_all. split; [|by eapply path_in_size]. unfold counted in H2. by rewrite orb_false_r in H2. }
  assert (Hid : forall y, means (ID name) y = true -> getAttribute y (u "id") = Some (unescape name)).
  { intros y. unfold means. cbn [filter_meaning]. unfold filter_id. destruct (getAttribute y (u "id")) as [i|]; [|done].
    unfold js_eqb. rewrite bool_decide_eq_true. by intros ->. }
  destruct (filter _ all_elements) as [|c l] eqn:E.
  - apply not_true_iff_false. intros (y & Hy & Hm)%existsb_exists. apply list_elem_of_In, Ht in Hy.
    assert (y ∈ filter (fun e => means (ID name) e = true) all_elements) as H by (by apply list_elem_of_filter).
    rewrite E in H. by apply not_elem_of_nil in H.
  - assert (c ∈ filter (fun e => means (ID name) e = true) all_elements) as [Hc Hca]%list_elem_of_filter by (rewrite E; by apply elem_of_cons; left).
    apply elem_of_all in Hca as Hcel. destruct Hcel as [Hcel _]. apply eq_true_iff_eq. rewrite existsb_exists, bool_decide_eq_true, targets_base by done.
    split.
    + intros (y & Hy%list_elem_of_In & Hm). by rewrite <- (q_ids y c (unescape name) (Ht y Hy) Hca (Hid y Hm) (Hid c Hc)).
    + intros H. exists c. split; [by apply list_elem_of_In|done].
Qed.
Lemma id_group v name v2 r rest e : holds 0 (Filter v (ID name) :: Combinator v2 r :: rest) e =
  match filter (fun x => means (ID name) x = true) all_elements with
  | c :: _ => holds c (Combinator v2 r :: rest) e
  | [] => false
  end.
Proof.
  unfold holds, holds_in. cbn [holds_after].
  rewrite (holds_after_ext _ (fun x => existsb (fun y => means (ID name) y) (targets r false x))).
  - destruct (filter _ all_elements) as [|c l] eqn:E.
    + transitivity (holds_after (fun _ => false) rest e); [|apply holds_after_false]. apply holds_after_ext. intros x. cbv beta. by rewrite id_targets, E.
    + apply holds_after_ext. intros x. cbv beta. by rewrite id_targets, E.
  - intros x. apply existsb_ext. intros y.
    assert (sem_context (context_flag (Node 0)) false Descendant y (Node 0) = true) as -> by (unfold sem_context; cbn; by rewrite orb_true_r).
    apply andb_true_r.
Qed.

Lemma start_ok selector n tokens : selector = toSelector tokens -> searchable tokens -> tokens <> [] ->
  match start_of selector n tokens with
  | None => hits n [tokens] = []
  | Some (c, selector', tokens') => hits n [tokens] = hits c [tokens'] /\ selector' = toSelector tokens' /\ tokens' <> [] /\
      (tokens' = tokens \/ tokens' = tail tokens)
  end.
Proof.
  intros -> Hs Hne. unfold start_of.
  destruct tokens as [|[v0 r0|v [ | | | | |name]] [|[v2 r|v2 f2] [|t rest]]]; try (repeat split; try done; by left).
  destruct (nodeType n =? 9) eqn:En; [|repeat split; try done; by left]. rewrite q_html. cbn [andb negb].
  apply Z.eqb_eq, q_document in En as ->.
  destruct (find_ID (unescape name) 0) as [l|] eqn:E.
  - apply find_ID_ok in E as [_ El]. 
    assert (H : forall e, any_holds 0 [Filter v (ID name) :: Combinator v2 r :: t :: rest] e =
      match l with c :: _ => any_holds c [Combinator v2 r :: t :: rest] e | [] => false end).
    { intros e. rewrite any_one, id_group, <- El. destruct l; [done|]. by rewrite any_one. }
    unfold hits. destruct l as [|c l].
    + rewrite (filter_bool_ext _ (fun _ => false)) by (intros; apply H). apply filter_none.
    + split; [apply filter_bool_ext; intros; apply H|]. split; [|by split; [|right]].
      change (toSelector (Filter v (ID name) :: ?x)) with (v ++ toSelector x). by rewrite drop_app_length.
  - unfold find_ID in E. rewrite (proj2 (q_document 0) eq_refl), q_html in E. done.
Qed.

(** ** A search *)

Lemma spelled_part groups text g : spelled groups text -> g ∈ groups -> exists a b, text = a ++ toSelector g ++ b.
Proof.
  revert text. induction groups as [|g0 groups IH]; intros text Hs Hg; [done|]. destruct groups as [|g1 groups].
  - apply list_elem_of_singleton in Hg as ->. cbn in Hs. exists [], []. by rewrite app_nil_r.
  - apply spelled_cons in Hs as (c & t' & -> & _ & Hs). apply elem_of_cons in Hg as [->|Hg]; [by exists [], (c ++ t')|].
    destruct (IH t' Hs Hg) as (a & b & ->). exists (toSelector g0 ++ c ++ a), b. by rewrite <- !app_assoc.
Qed.
Lemma sibling_in_groups groups text g : spelled groups text -> g ∈ groups -> searchable g -> starts_sibling g = true ->
  test false rsibling text = true.
Proof.
  intros Hsp Hg Hs Hst. destruct (spelled_part _ _ _ Hsp Hg) as (a & b & ->). destruct g as [|t rest]; [done|].
  apply Forall_cons in Hs as [(_ & _ & _ & Hh) _]. destruct t as [v r|v f]; [|done].
  apply (sibling_seen v r); [done|destruct r; try done; [by left|by right]|]. exists a, (toSelector rest ++ b).
  change (toSelector (Combinator v r :: rest)) with (v ++ toSelector rest). by rewrite <- app_assoc.
Qed.

(** No part of the selector was compiled before. *)
Definition uncompiled (s : state) (selector : jstr) (groups : list (list token)) : Prop :=
  missing s selector /\
  forall g, g ∈ groups -> forall i, missing s (toSelector (delete i g)) /\ missing s (toSelector (delete i (tail g))).
Definition untokenized (s : state) (selector : jstr) : Prop := cache_values (tokenCache s) !! selector = None.
Definition in_tokens (s : state) (t : jstr) : bool := match cache_values (tokenCache s) !! t with Some _ => true | None => false end.

Lemma delete_all {A} (l : list A) : delete (length l) l = l.
Proof. induction l as [|x l IH]; [done|]. cbn. f_equal. exact IH. Qed.
Lemma tokenize_first s selector groups : untokenized s selector -> tokens_of (in_tokens s) selector = Some (Good groups) ->
  tokenize selector s = Some (with_tokenCache (cache_put selector groups (tokenCache s)) s, Good groups).
Proof. unfold untokenized, tokenize, bind, get, lift, in_tokens. intros -> Ht. by rewrite Ht. Qed.
Lemma select_ok sizzle depth n selector groups results s : tidy s -> selector <> [] -> untokenized s selector ->
  tokens_of (in_tokens s) selector = Some (Good groups) -> Forall (fun g => g <> [] /\ searchable g) groups -> uncompiled s selector groups ->
  gives n (select (S depth) sizzle selector n results None) s groups results.
Proof.
  intros T Hsel Hut Htok Hg Hunc. unfold gives, select.
  destruct (tokens_spelled _ _ _ Hsel Htok) as [Hsp _].
  eapply (yields_bind _ _ _ (fun gs s' => gs = groups /\ tidy s' /\ uncompiled s' selector groups)).
  { pose proof (tokenize_first _ _ _ Hut Htok) as E. exists groups, (with_tokenCache (cache_put selector groups (tokenCache s)) s).
    split; [exact E|]. split; [done|]. split; [|exact Hunc]. pose proof (tokenize_keeps selector s T) as K. rewrite E in K. apply K. }
  clear T Hut Htok Hunc s. intros gs s (-> & T & Hm & Hd). destruct groups as [|tokens [|g2 groups]]; [by destruct Hsp| |].
  - apply Forall_cons in Hg as [[Hne Hs] _]. cbn in Hsp. pose proof (start_ok selector n tokens Hsp Hs Hne) as H.
    destruct (start_of selector n tokens) as [[[c sel'] tok']|].
    + destruct H as (-> & Hsel' & Hne' & Htok').
      assert (Hdel : forall i, missing s (toSelector (delete i tok'))).
      { intros i. destruct (Hd tokens ltac:(by apply elem_of_cons; left) i) as [H1 H2]. by destruct Htok' as [->| ->]. }
      apply select_from_ok; [done|done| |done|exact Hdel|].
      * destruct Htok' as [->| ->]; [done|]. destruct tokens as [|t r]; [done|]. by apply Forall_cons in Hs as [_ Hs].
      * rewrite Hsel'. specialize (Hdel (length tok')). by rewrite delete_all in Hdel.
    + apply yields_ret. by rewrite H, app_nil_r.
  - set (all := tokens :: g2 :: groups) in *. eapply yields_mono.
    + apply compile_run_all; [done|done| |done]. eapply Forall_impl; [exact Hg|]. intros g [H1 H2]. split; [done|by apply searchable_plain].
    + intros l _ ->. f_equal. apply hits_scope. intros e He Hh. unfold any_holds in Hh. apply existsb_exists in Hh as (g & Hin%list_elem_of_In & Hh).
      rewrite Forall_forall in Hg. destruct (Hg g Hin) as [_ Hs]. apply (holds_scope n g); [done| |by rewrite any_one].
      intros Hst. eapply sibling_in_groups; done.
Qed.
End Exact.
