(* ===== verification/SizzleProps.v ===== *)
(** * Sizzle: properties of the selector engine

    Searches find exactly the elements that the selector describes, also with caches full
    of older results; compiled selectors stay right; the caches of [:nth-child] count
    right; the tokens are the text. [has_loses_results]: with [:has] a result is lost. *)

From Stdlib Require Import ZArith Lia.
From stdpp Require Import base tactics list numbers strings gmap.
From S2P Require Import Prelude JsValue ValidPage RegExec SizzleTokens Sizzle SizzleClass SizzleSelect SizzleSpec SizzleFrame SizzleChild SizzleRun SizzleSearch SizzleTidy SizzleMeaning SizzleText SizzleScope SizzleExact.
Local Open Scope Z_scope.
Local Open Scope sizzle_scope.

(** ** Groups without [:not], [:has] and positions, whose names the browser reads like the engine *)



(** ** Any search *)

(** The engine after a search of a page. *)
Definition after_search (page : list entry) (selector : string) (s : state) : state :=
  match @Sizzle (small page no_qsa) 5 (u selector) None [] None s with Some (s', _) => s' | None => s end.
Lemma visited_next page selector s : visited s -> visited (after_search page selector s).
Proof.
  intros V. unfold after_search. destruct (@Sizzle (small page no_qsa) 5 (u selector) None [] None s) as [[s' o]|] eqn:E; [|done].
  by eapply visited_search.
Qed.
(** After two searches, the second with an error. *)
Definition used : state := after_search page1 "div p:frst" (after_search page1 "li:nth-child(2n+1), #a p ~ .y" state0).
Lemma used_visited : visited used.
Proof. apply visited_next, visited_next, visited_start. Qed.

(** ** What was compiled stays right *)

(** C9. A selector without :not, :has and the pseudos of positions ([plain_group]) that was
    compiled once gives, run on the elements of any list at any later time, exactly those
    that one of its groups holds of, in the order of the list, whatever was searched between. *)
Theorem compiled_selectors_stay_right (D : Document) (L : DocumentLaws D) depth selector groups s1 :
  visited s1 -> groups <> [] -> Forall plain_group groups -> cache_values (compilerCache s1) !! selector = None ->
  exists sup s1', compile (S depth) selector (Some groups) s1 = Some (s1', Good sup) /\
    forall s2 sizzle n l results b, visited s2 -> Forall (fun e => is_element e = true) l ->
      exists un s2', run_super sizzle sup (Some (map Some l)) (Node n) results (Some b) s2 =
        Some (s2', Good (un, results ++ filter (fun e => any_holds n groups e = true) l)).
Proof.
  intros V Hne Hp Hm. destruct (compile_ok depth selector groups s1 Hne Hp Hm) as (sup & s1' & E & q & ms & -> & Hms & Hg & Hsem).
  exists (Super q ms []), s1'. split; [exact E|]. intros s2 sizzle n l results b V2 Hl.
  destruct (search_seed sizzle q ms n l results b s2 Hms Hg (visited_tidy s2 V2) Hl) as ([un r] & s2' & E2 & Hr & _).
  exists un, s2'. rewrite E2. cbn in Hr. rewrite Hr.
  rewrite (filter_bool_ext _ (any_holds n groups)); [done|]. intros e _. apply (sem_holds n _ groups Hsem).
Qed.
Lemma compiled_selectors_stay_right_witness : exists un s2',
  match @compile (small page1 no_qsa) 1 (u "div p ~ .y") (Some [[Filter (u "div") (TAG (u "div")); Combinator (u " ") Descendant;
    Filter (u "p") (TAG (u "p")); Combinator (u " ~ ") Sibling; Filter (u ".y") (CLASS (u "y"))]]) state0 with
  | Some (_, Good sup) => @run_super (small page1 no_qsa) (fun _ _ _ => fail) sup (Some (map Some [6; 8; 5]%nat)) (Node 0) [] (Some true) used
  | _ => None
  end = Some (s2', Good (un, [6; 5]%nat)).
Proof.
  destruct (compiled_selectors_stay_right (small page1 no_qsa) (small_laws page1 no_qsa page1_ok) 0 (u "div p ~ .y")
    [[Filter (u "div") (TAG (u "div")); Combinator (u " ") Descendant; Filter (u "p") (TAG (u "p")); Combinator (u " ~ ") Sibling;
      Filter (u ".y") (CLASS (u "y"))]] state0) as (sup & s1' & E & H).
  - apply visited_start.
  - done.
  - repeat constructor; done.
  - reflexivity.
  - rewrite E. apply (H used (fun _ _ _ => fail) 0%nat [6; 8; 5]%nat [] true).
    + apply used_visited.
    + repeat constructor.
Defined.

(** ** The position of a child *)

(** The filter on the elements of a list, one after the other. *)
Fixpoint tested {D : Document} (type what : jstr) (xy : option (Z * Z)) (l : list nat) : M (list bool) :=
  match l with
  | [] => ret []
  | e :: l => b <- run_child type what xy e;; bs <- tested type what xy l;; ret (b :: bs)
  end.
Lemma tested_ok {D : Document} {L : DocumentLaws D} v0 type what xy l : forall s, tidy s -> kids_right v0 s -> extends v0 (dirruns s) ->
  Forall (fun e => is_element e = true) l ->
  yields (tested type what xy l) s (fun bs _ => bs = map (sem_child type what xy) l).
Proof.
  induction l as [|e l IH]; intros s T K V Hl; [by apply yields_ret|]. apply Forall_cons in Hl as [He Hl].
  cbn [tested]. eapply yields_bind; [by eapply run_child_ok|]. intros b s1 (-> & T1 & F).
  eapply yields_bind; [apply IH|].
  - done.
  - by eapply kids_frame.
  - etrans; [exact V|]. by eapply f_dirruns.
  - done.
  - intros bs s2 ->. by apply yields_ret.
Qed.
Lemma begun_kids {D : Document} s : tidy s -> kids_right (dirruns (begun s)) (begun s).
Proof.
  intros T. assert (Hs : nth_of (begun s) = nth_of s /\ last_of (begun s) = last_of s) by (unfold begun; by destruct (outermostContext s)).
  destruct Hs as [E3 E4]. split.
  - intros p t v i d H Hv. rewrite E3 in H. by destruct (begun_fresh s v (t_nth _ T _ _ _ _ _ H)).
  - intros m t v d H Hv. rewrite E4 in H. by destruct (begun_fresh s v (t_last _ T _ _ _ _ H)).
Qed.
Lemma in_cycle_iff x y diff : in_cycle x y diff = true <-> exists k, 0 <= k /\ diff = x * k + y.
Proof.
  unfold in_cycle. rewrite orb_true_iff, !andb_true_iff, negb_true_iff, !Z.eqb_eq, Z.eqb_neq, Z.leb_le. split.
  - intros [H|[[H1 H2] H3]]; [exists 1; lia|]. exists (Z.quot (diff - y) x). split; [done|]. pose proof (Z.quot_rem (diff - y) x H1). lia.
  - intros (k & Hk & ->). replace (x * k + y - y) with (k * x) by lia. destruct (Z.eq_dec x 0) as [->|Hx]; [left; lia|right].
    rewrite Z.rem_mul, Z.quot_mul by done. done.
Qed.

(** C10. In a search that begins, whatever older searches left in the caches, the filters of
    the position of a child say for each element of any list what its siblings say; for
    :nth-child the position is xn + y for an n that is not negative. *)
Theorem child_positions (D : Document) (L : DocumentLaws D) s type what xy l :
  visited s -> Forall (fun e => is_element e = true) l ->
  (exists s', tested type what xy l (begun s) = Some (s', Good (map (sem_child type what xy) l))) /\
  (forall x y e, sem_child (u "nth") (u "child") (Some (x, y)) e = true <->
     parentNode e <> None /\ exists k, 0 <= k /\ Z.of_nat (length (kin_before false e)) + 1 = x * k + y).
Proof.
  intros V Hl. apply visited_tidy in V as T. split.
  - destruct (tested_ok (dirruns (begun s)) type what xy l (begun s) (begun_tidy s T) (begun_kids s T) ltac:(reflexivity) Hl)
      as (bs & s' & E & ->). by exists s'.
  - intros x y e. unfold sem_child. destruct (parentNode e) as [p|]; [|by split; [|intros []]].
    case_bool_decide as Exy.
    + injection Exy as -> ->. split; [|done]. intros _. split; [done|]. eexists. split; [|rewrite Z.mul_1_l, Z.add_0_r; reflexivity]. lia.
    + change (js_eqb (take 3 (u "nth")) (u "nth")) with true. change (js_eqb (slice_end 4 (u "nth")) (u "last")) with false.
      cbn [default]. change (js_eqb (u "child") (u "of-type")) with false. cbn iota. unfold id. cbn iota. rewrite in_cycle_iff. split; [by split|by intros [_ H]].
Qed.
Lemma child_positions_witness : exists s', @tested (small page1 no_qsa) (u "nth") (u "child") (Some (2, 1)) [15; 11; 14; 13]%nat (begun used) =
  Some (s', Good [false; true; true; false]).
Proof.
  apply (child_positions (small page1 no_qsa) (small_laws page1 no_qsa page1_ok) used (u "nth") (u "child") (Some (2, 1)) [15; 11; 14; 13]%nat).
  - apply used_visited.
  - repeat constructor.
Defined.

(** ** The tokens are the text *)

(** The tokens that a selector is read as, whatever is in the cache of tokens, are its
    text: written one after the other, with white space and commas between the groups,
    they are the selector. *)
Theorem tokens_are_the_text cached selector groups : selector <> [] -> tokens_of cached selector = Some (Good groups) ->
  spelled groups selector.
Proof. intros H1 H2. by apply (tokens_spelled cached). Qed.
Lemma tokens_are_the_text_witness :
  spelled [[Filter (u "a") (TAG (u "a")); Combinator (u " > ") Child; Filter (u ".b") (CLASS (u "b"))]; [Filter (u "i") (TAG (u "i"))]] (u "a > .b , i").
Proof. apply (tokens_are_the_text (fun _ => false)); [done|]. vm_compute. reflexivity. Defined.

(** ** A search in a search *)

(** html > body > div (3) > (div (4) > (b, i, i, i), b), with a text in the last b. *)
Definition page2 : list entry :=
  [(None, u "#document", []); (Some 0%nat, u "HTML", []); (Some 1%nat, u "BODY", []); (Some 2%nat, u "DIV", []);
   (Some 3%nat, u "DIV", []); (Some 4%nat, u "B", []); (Some 4%nat, u "I", []); (Some 4%nat, u "I", []); (Some 4%nat, u "I", []);
   (Some 3%nat, u "B", [(u "text", u "x")])].
(** The search of [:has] sets the number of the run that the walk over the ancestors keeps
    with a failure; the failure is then taken for a final one, and the second element is
    not found. Without [:has] all three are. *)
Theorem has_loses_results :
  found page2 "div:has(b:contains('x')) i" None = Some [6; 8]%nat /\ found page2 "div i" None = Some [6; 7; 8]%nat /\
  found page2 "div:has(b:contains('x'))" None = Some [3]%nat.
Proof. vm_compute. repeat split. Qed.

(** The case of the argument and of the kind is not ignored after the expression ignored it. *)
Theorem position_case :
  map (fun s => found page1 s None) ["li:nth-child(even)"; "li:nth-child(EVEN)"; "span:first-of-type"; "span:first-OF-TYPE"]%string =
  [Some [13; 15]; Some []; Some [6]; Some []]%nat.
Proof. vm_compute. reflexivity. Qed.
(** A star with an escape is a name for the filter and all elements for the seed. *)
Theorem star_escaped : (length <$> found page1 "\*" None) = Some 14%nat /\ found page1 "\* b" None = Some [].
Proof. vm_compute. split; reflexivity. Qed.
