(* ===== verification/Traverse.v ===== *)
(** * [html/resource/js/jquery.js]: sets of elements

    A jQuery object with its nodes, its context, its selector and the object it was made
    from; [$(selector, context)]; and the methods that go from one set to another: find,
    has, not, filter, is, closest, index, add, and those along parents and siblings. The
    selector engine is an interface ([Engine]), which [Sizzle] implements. *)

From Stdlib Require Import ZArith Lia.
From stdpp Require Import base tactics list numbers strings gmap.
From S2P Require Import Prelude JsValue ValidPage RegExec SizzleTokens Sizzle SizzleSelect.
Local Open Scope Z_scope.
Local Open Scope sizzle_scope.

(** What the browser and the rest of the library supply. *)
Class Browser := {
  support_matchesSelector : bool;
  rbuggyMatches : jstr -> bool;
  native_matches : nat -> jstr -> option bool;     (* [None]: it throws *)
  disconnectedMatch : bool;
  not_in_fragment : nat -> bool;                   (* elem.document && elem.document.nodeType !== 11 *)
  frame_document : nat -> nat;                     (* of an iframe *)
  parseHTML : jstr -> option nat -> list nat
}.

(** ** The engine *)

Class Engine := {
  engine_find : jstr -> nat -> list nat -> M (list nat);       (* jQuery.find(selector, context, results) *)
  engine_matches : jstr -> list nat -> M (list nat);           (* jQuery.find.matches(expr, elements) *)
  engine_matchesSelector : nat -> jstr -> M bool               (* jQuery.find.matchesSelector(elem, expr) *)
}.

Section SizzleEngine.
Context {D : Document} {B : Browser}.
(** Attribute values with quotes. *)
Definition quoted (expr : jstr) : jstr := replace rattributeQuotes (fun m => u "='" ++ group 1 m ++ u "']") expr.
Definition matchesSelector (depth : nat) (elem : nat) (expr : jstr) : M bool :=
  let expr := quoted expr in
  let others := l <- Sizzle depth expr (Some O) [] (Some [elem]);; ret (negb (bool_decide (l = []))) in
  if support_matchesSelector && negb documentIsXML && negb (rbuggyMatches expr) && negb (rbuggyQSA expr) then
    match native_matches elem expr with
    | Some r => if r || disconnectedMatch || not_in_fragment elem then ret r else others
    | None => others
    end
  else others.
Definition sizzle_engine (depth : nat) : Engine := {|
  engine_find selector context results := Sizzle depth selector (Some context) results None;
  engine_matches := matches depth;
  engine_matchesSelector := matchesSelector depth |}.
End SizzleEngine.

(** ** The objects *)

Inductive jq := Jq (nodes : list nat) (context : option nat) (selector : jstr) (prevObject : option jq).
Definition nodes_of (o : jq) : list nat := match o with Jq l _ _ _ => l end.
Definition context_of (o : jq) : option nat := match o with Jq _ c _ _ => c end.
Definition selector_of (o : jq) : jstr := match o with Jq _ _ s _ => s end.
Definition prevObject_of (o : jq) : option jq := match o with Jq _ _ _ p => p end.
Definition js_len (o : jq) : Z := Z.of_nat (length (nodes_of o)).

Definition pushStack (self : jq) (elems : list nat) : jq := Jq elems (context_of self) [] (Some self).
Definition get_node (self : jq) (num : Z) : option nat :=
  let i := if num <? 0 then js_len self + num else num in if i <? 0 then None else nodes_of self !! Z.to_nat i.
Definition eq_ (self : jq) (i : Z) : jq :=
  let j := i + (if i <? 0 then js_len self else 0) in
  pushStack self (match (if (0 <=? j) && (j <? js_len self) then nodes_of self !! Z.to_nat j else None) with Some n => [n] | None => [] end).
Definition first_ (self : jq) : jq := eq_ self 0.
Definition last_ (self : jq) : jq := eq_ self (-1).
Definition empty_set : jq := Jq [] None [] None.
Definition end_ (self : jq) : jq := default empty_set (prevObject_of self).

(** [jQuery.inArray(elem, arr)] *)
Definition inArray (elem : nat) (l : list nat) : Z := match list_find (eq elem) l with Some (i, _) => Z.of_nat i | None => -1 end.

(** What a selector argument can be: a string, a node or a jQuery object. *)
Inductive source := Text (t : jstr) | Single (n : nat) | Many (o : jq).
(** The argument of filter and not: nothing, a source, or a function of the index and the element. *)
Inductive qualifier := Nothing_ | From (s : source) | By (f : nat -> nat -> M bool).

Section Sets.
Context {D : Document} {B : Browser} {E : Engine}.

(** [jQuery(document)] *)
Definition rootjQuery : jq := Jq [O] (Some O) [] None.

(** [find(selector)] of a string. *)
Fixpoint find_each (t : jstr) (l : list nat) (results : list nat) : M (list nat) :=
  match l with
  | [] => ret results
  | n :: l => results <- engine_find t n results;; find_each t l results
  end.
Definition find_text (self : jq) (t : jstr) : M jq :=
  l <- find_each t (nodes_of self) [];;
  ret (Jq (if 1 <? js_len self then uniqueSort l else l) (context_of self)
        ((match selector_of self with [] => [] | s => s ++ u " " end) ++ t) (Some self)).

(** ** [jQuery(selector, context)] *)

Definition root_quickExpr : re :=
  all [AtStart;
       Or (Then (Capture 1 (all [chr 60; many (none_of []); chr 62])) (star (none_of [(62, 62)])))
          (Then (chr 35) (Capture 2 (star (of_class (word_units ++ [(45, 45)])))));
       AtEnd].
(** The captures 1 and 2. *)
Definition root_match (t : jstr) : option (jstr * jstr) :=
  if bool_decide (head t = Some 60) && bool_decide (last t = Some 62) && (3 <=? js_length t) then Some (t, [])
  else match exec false root_quickExpr t with Some m => Some (group 1 m, group 2 m) | None => None end.
Definition init (selector : source) (context : option (nat + jq)) : M jq :=
  match selector with
  | Text [] => ret empty_set
  | Text t =>
      let by_context :=
        match context with
        | None => find_text rootjQuery t
        | Some (inr o) => find_text o t
        | Some (inl n) => find_text (Jq [n] (Some n) [] None) t
        end in
      match root_match t with
      | Some ((_ :: _) as html, _) =>
          let owner := match context with Some (inr o) => head (nodes_of o) | Some (inl n) => Some n | None => None end in
          ret (Jq (parseHTML html owner) None [] None)
      | Some ([], id) =>
          match context with
          | None =>
              match getElementById id with
              | Some e => match parentNode e with
                          | Some _ => if js_eqb (elem_id e) id then ret (Jq [e] (Some O) t None) else find_text rootjQuery t
                          | None => ret (Jq [] (Some O) t None)
                          end
              | None => ret (Jq [] (Some O) t None)
              end
          | Some _ => by_context
          end
      | None => by_context
      end
  | Single n => ret (Jq [n] (Some n) [] None)
  | Many o => ret (Jq (nodes_of o) (context_of o) (selector_of o) None)
  end.

(** ** Filters *)

(** [jQuery.filter(expr, elems, not)] *)
Definition jq_filter (expr : jstr) (elems : list nat) (not : bool) : M (list nat) :=
  let expr := if not then u ":not(" ++ expr ++ u ")" else expr in
  match elems with
  | [e] => ok <- engine_matchesSelector e expr;; ret (if (ok : bool) then [e] else [])
  | _ => engine_matches expr elems
  end.
Definition isSimple : re :=
  all [AtStart; dot; star (none_of [(58, 58); (35, 35); (91, 91); (46, 46); (44, 44)]); AtEnd].
(** [jQuery.grep] with a function of the page. *)
Fixpoint grep_from (i : nat) (f : nat -> nat -> M bool) (keep : bool) (l : list nat) : M (list nat) :=
  match l with
  | [] => ret []
  | e :: l => r <- f i e;; rest <- grep_from (S i) f keep l;; ret (if eqb r keep then e :: rest else rest)
  end.
Definition grep (f : nat -> bool) (keep : bool) (l : list nat) : list nat := filter (fun e => eqb (f e) keep = true) l.
Definition winnow (elements : list nat) (q : qualifier) (keep : bool) : M (list nat) :=
  match q with
  | By f => grep_from 0 f keep elements
  | From (Single n) => ret (grep (fun e => (e =? n)%nat) keep elements)
  | From (Text ((_ :: _) as t)) =>
      let filtered := filter (fun e => is_element e = true) elements in
      if test false isSimple t then jq_filter t filtered (negb keep)
      else l <- jq_filter t filtered false;; ret (grep (fun e => 0 <=? inArray e l) keep elements)
  | From (Many o) => ret (grep (fun e => 0 <=? inArray e (nodes_of o)) keep elements)
  | Nothing_ | From (Text []) => ret (grep (fun _ => false) keep elements)
  end.
Definition not_ (self : jq) (q : qualifier) : M jq := l <- winnow (nodes_of self) q false;; ret (pushStack self l).
Definition filter_ (self : jq) (q : qualifier) : M jq := l <- winnow (nodes_of self) q true;; ret (pushStack self l).

Definition find (self : jq) (selector : source) : M jq :=
  match selector with
  | Text t => find_text self t
  | _ =>
      o <- init selector None;;
      o <- filter_ o (By (fun _ e => ret (existsb (fun n => contains n e) (nodes_of self))));;
      ret (pushStack self (nodes_of o))
  end.
Definition has (self : jq) (target : source) : M jq :=
  targets <- init target (Some (inr self));;
  filter_ self (By (fun _ e => ret (existsb (contains e) (nodes_of targets)))).

(** ** Along parents and siblings *)

(** [jQuery.dir(elem, dir, until)], where [stop] is [jQuery(cur).is(until)]. *)
Fixpoint dir_from (fuel : nat) (step : nat -> option nat) (stop : nat -> M bool) (cur : option nat) : M (list nat) :=
  match fuel with
  | O => no_end
  | S fuel =>
      match cur with
      | None => ret []
      | Some n =>
          if nodeType n =? 9 then ret [] else
          if is_element n then
            s <- stop n;;
            if (s : bool) then ret [] else l <- dir_from fuel step stop (step n);; ret (n :: l)
          else dir_from fuel step stop (step n)
      end
  end.
Definition dir (elem : nat) (step : nat -> option nat) (stop : nat -> M bool) : M (list nat) :=
  dir_from (S (S size)) step stop (step elem).
(** [jQuery.sibling(n, elem)] *)
Fixpoint sibling_from (fuel : nat) (n elem : option nat) : M (list nat) :=
  match fuel with
  | O => no_end
  | S fuel =>
      match n with
      | None => ret []
      | Some m =>
          l <- sibling_from fuel (nextSibling m) elem;;
          ret (if is_element m && negb (bool_decide (elem = Some m)) then m :: l else l)
      end
  end.
Definition sibling_list (n elem : option nat) : M (list nat) := sibling_from (S (S size)) n elem.
(** [sibling(cur, dir)] *)
Fixpoint sibling_next (fuel : nat) (step : nat -> option nat) (cur : nat) : M (option nat) :=
  match fuel with
  | O => no_end
  | S fuel => match step cur with
              | None => ret None
              | Some n => if is_element n then ret (Some n) else sibling_next fuel step n
              end
  end.
Definition no_stop (_ : nat) : M bool := ret false.

(** ** Membership *)

(** [index(elem)]; [None]: without an argument. *)
Definition index_in_parent (self : jq) : M Z :=
  match nodes_of self with
  | n :: _ => match parentNode n with
              | Some _ => l <- dir n previousSibling no_stop;; ret (Z.of_nat (length l))
              | None => ret (-1)
              end
  | [] => ret (-1)
  end.
Definition index (self : jq) (elem : option source) : M Z :=
  match elem with
  | None | Some (Text []) => index_in_parent self
  | Some (Text t) =>
      o <- init (Text t) None;;
      ret (match nodes_of self with n :: _ => inArray n (nodes_of o) | [] => -1 end)
  | Some (Many o) => ret (match nodes_of o with n :: _ => inArray n (nodes_of self) | [] => -1 end)
  | Some (Single n) => ret (inArray n (nodes_of self))
  end.
(** [this[0]] as an argument. *)
Definition head_source (self : jq) : option source := Single <$> head (nodes_of self).

Definition is_ (self : jq) (q : qualifier) : M bool :=
  match q with
  | Nothing_ | From (Text []) => ret false
  | From (Text t) =>
      if test true needsContext t
      then o <- init (Text t) (inl <$> context_of self);; i <- index o (head_source self);; ret (0 <=? i)
      else l <- jq_filter t (nodes_of self) false;; ret (negb (bool_decide (l = [])))
  | _ => o <- filter_ self q;; ret (negb (bool_decide (nodes_of o = [])))
  end.

(** [while ( cur && cur.ownerDocument && cur !== context && cur.nodeType !== 11 )] *)
Fixpoint climb (fuel : nat) (found : nat -> M bool) (context : option nat) (cur : option nat) : M (option nat) :=
  match fuel with
  | O => no_end
  | S fuel =>
      match cur with
      | None => ret None
      | Some n =>
          if (nodeType n =? 9) || bool_decide (context = Some n) || (nodeType n =? 11) then ret None else
          ok <- found n;;
          if (ok : bool) then ret (Some n) else climb fuel found context (parentNode n)
      end
  end.
Fixpoint closest_each (found : nat -> M bool) (context : option nat) (l : list nat) : M (list nat) :=
  match l with
  | [] => ret []
  | n :: l => o <- climb (S (S n)) found context (Some n);; rest <- closest_each found context l;;
              ret (match o with Some m => m :: rest | None => rest end)
  end.
Definition closest (self : jq) (selectors : source) (context : option nat) : M jq :=
  let with_set := o <- init selectors (inl <$> match context with Some n => Some n | None => context_of self end);;
                  ret (Some (nodes_of o)) in
  pos <- match selectors with
         | Text t => if test true needsContext t then with_set else ret None
         | _ => with_set
         end;;
  l <- closest_each (fun n => match pos, selectors with
                              | Some l, _ => ret (-1 <? inArray n l)
                              | None, Text t => engine_matchesSelector n t
                              | None, _ => ret false
                              end) context (nodes_of self);;
  ret (pushStack self (if (1 <? length l)%nat then uniqueSort l else l)).

Definition add (self : jq) (selector : option source) (context : option nat) : M jq :=
  set <- match selector with
         | Some (Text t) => o <- init (Text t) (inl <$> context);; ret (nodes_of o)
         | Some (Single n) => ret [n]
         | Some (Many o) => ret (nodes_of o)
         | None => ret []
         end;;
  ret (pushStack self (uniqueSort (nodes_of self ++ set))).
Definition addBack (self : jq) (q : qualifier) : M jq :=
  match prevObject_of self, q with
  | Some p, Nothing_ => add self (Some (Many p)) None
  | Some p, q => o <- filter_ p q;; add self (Some (Many o)) None
  | None, Nothing_ => add self None None
  | None, _ => fail
  end.

(** ** The methods of the table *)

Inductive method :=
  | parent | parents | parentsUntil | next | prev | nextAll | prevAll | nextUntil | prevUntil | siblings | children | contents.
#[export] Instance method_eq_dec : EqDecision method.
Proof. solve_decision. Defined.
Definition list_of (o : option nat) : list nat := match o with Some n => [n] | None => [] end.
Definition run_method (m : method) (until : option source) (elem : nat) : M (list nat) :=
  let stop := match until with
              | None => no_stop
              | Some s => fun n => is_ (Jq [n] (Some n) [] None) (From s)
              end in
  match m with
  | parent => ret (match parentNode elem with Some p => if nodeType p =? 11 then [] else [p] | None => [] end)
  | parents => dir elem parentNode no_stop
  | parentsUntil => dir elem parentNode stop
  | next => o <- sibling_next (S (S size)) nextSibling elem;; ret (list_of o)
  | prev => o <- sibling_next (S (S size)) previousSibling elem;; ret (list_of o)
  | nextAll => dir elem nextSibling no_stop
  | prevAll => dir elem previousSibling no_stop
  | nextUntil => dir elem nextSibling stop
  | prevUntil => dir elem previousSibling stop
  | siblings => sibling_list (match parentNode elem with Some p => firstChild p | None => None end) (Some elem)
  | children => sibling_list (firstChild elem) None
  | contents => ret (if js_eqb (toLowerCase (nodeName elem)) (u "iframe") then [frame_document elem] else childNodes elem)
  end.
Definition guaranteedUnique (m : method) : bool := bool_decide (m ∈ [children; contents; next; prev]).
Definition runtil (m : method) : bool := bool_decide (m ∈ [parentsUntil; nextUntil; prevUntil]).
Definition rparentsprev (m : method) : bool := bool_decide (m ∈ [parents; parentsUntil; prevUntil; prevAll]).
(** [jQuery.map(this, fn, until)] *)
Fixpoint map_method (m : method) (until : option source) (l : list nat) : M (list nat) :=
  match l with
  | [] => ret []
  | e :: l => r <- run_method m until e;; rest <- map_method m until l;; ret (r ++ rest)
  end.
Definition traverse (m : method) (self : jq) (until selector : option source) : M jq :=
  l <- map_method m until (nodes_of self);;
  l <- match (if runtil m then selector else until) with
       | Some (Text ((_ :: _) as t)) => jq_filter t l false
       | _ => ret l
       end;;
  let several := 1 <? js_len self in
  let l := if several && negb (guaranteedUnique m) then uniqueSort l else l in
  ret (pushStack self (if several && rparentsprev m then rev l else l)).
End Sets.

(** ** On a page *)

#[local] Instance plain_browser : Browser := {|
  support_matchesSelector := false; rbuggyMatches _ := false; native_matches _ _ := None; disconnectedMatch := true;
  not_in_fragment _ := false; frame_document n := n; parseHTML _ _ := [] |}.
Definition on_page1 {A} (m : forall (D : Document) (E : Engine), M A) : option A :=
  match m (small page1 no_qsa) (@sizzle_engine (small page1 no_qsa) plain_browser 5) state0 with
  | Some (_, Good a) => Some a
  | _ => None
  end.
Definition start (l : list nat) : jq := Jq l None [] None.
Example traverse_ex :
  on_page1 (fun D E => o <- closest (start [9; 4; 6]%nat) (Text (u "div")) None;; ret (nodes_of o)) = Some [3; 7]%nat /\
  on_page1 (fun D E => o <- traverse parents (start [9; 4]%nat) None None;; ret (nodes_of o)) = Some [8; 7; 3; 2; 1]%nat /\
  on_page1 (fun D E => o <- traverse parentsUntil (start [9]%nat) (Some (Text (u "body"))) (Some (Text (u "p")));; ret (nodes_of o)) = Some [8]%nat /\
  on_page1 (fun D E => o <- traverse siblings (start [13]%nat) (Some (Text (u "[title]"))) None;; ret (nodes_of o)) = Some [14]%nat /\
  on_page1 (fun D E => o <- find (start [3; 7; 8]%nat) (Text (u "p, b"));; ret (nodes_of o, selector_of o)) = Some ([4; 5; 8; 9]%nat, u "p, b") /\
  on_page1 (fun D E => o <- not_ (start [4; 5; 12; 6]%nat) (From (Text (u ".y")));; ret (nodes_of o)) = Some [4]%nat /\
  on_page1 (fun D E => o <- init (Text (u "#a")) None;; o <- traverse children o None None;; i <- index o (Some (Single 6%nat));; ret i) = Some 2 /\
  on_page1 (fun D E => o <- has (start [3; 7]%nat) (Text (u "b"));; ret (nodes_of o)) = Some [7]%nat.
Proof. vm_compute. repeat split. Qed.
