(* ===== verification/TraverseFacts.v ===== *)
(** * Sets of elements: what the engine promises, and what the walks give

    [Promise expr P ok]: in the states [ok] the engine answers about the selector [expr]
    what [P] says, and leaves such a state. [sizzle_promise]: Sizzle keeps it. *)

From Stdlib Require Import ZArith Lia Sorted.
From stdpp Require Import base tactics list numbers strings gmap.
From S2P Require Import Prelude JsValue ValidPage RegExec SizzleTokens Sizzle SizzleSelect SizzleSpec SizzleFrame SizzleChild SizzleSearch SizzleTidy SizzleMeaning SizzleText SizzleScope SizzleExact Traverse.
Local Open Scope Z_scope.

Local Open Scope sizzle_scope.

Class Promise {D : Document} (E : Engine) (expr : jstr) (P : nat -> bool) (ok : state -> Prop) := {
  promise_matches l s : ok s -> Forall (fun e => is_element e = true) l ->
    yields (engine_matches expr l) s (fun r s' => r = filter (fun e => P e = true) l /\ ok s');
  promise_selects e s : ok s -> is_element e = true ->
    yields (engine_matchesSelector e expr) s (fun b s' => b = P e /\ ok s')
}.

(** [jQuery.filter], whose selector is put into [:not] for the others. *)
Definition negated (not : bool) (t : jstr) : jstr := if not then u ":not(" ++ t ++ u ")" else t.
Lemma jq_filter_ok {D : Document} {J : Engine} not t P ok l s : Promise J (negated not t) P ok -> ok s -> Forall (fun e => is_element e = true) l ->
  yields (jq_filter t l not) s (fun r s' => r = filter (fun e => P e = true) l /\ ok s').
Proof.
  intros HP Hs Hl. change (jq_filter t l not) with
    (match l with [e] => ok <- engine_matchesSelector e (negated not t);; ret (if (ok : bool) then [e] else []) | _ => engine_matches (negated not t) l end).
  destruct l as [|e [|e' l]]; [by apply promise_matches| |by apply promise_matches].
  apply Forall_cons in Hl as [He _]. eapply yields_bind; [by apply promise_selects|]. intros b s' [-> Hs']. apply yields_ret. split; [|done].
  rewrite filter_cons. destruct (P e); [by rewrite decide_True|by rewrite decide_False].
Qed.

Section Sizzle.
Context {D : Document} {L : DocumentLaws D} {Q : QueryLaws D} {B : Browser}.

(** A compiled selector that means its groups. *)
Definition right_super (sup : super) (groups : list (list token)) : Prop :=
  exists q ms, sup = Super q ms [] /\ ms <> [] /\ grouped false ms /\ forall o c e, sem_super o sup c e = any_in o c groups e.
(** What the caches hold of the selector is right, if they hold it. *)
Definition settled (selector : jstr) (groups : list (list token)) (s : state) : Prop :=
  tidy s /\
  match cache_values (tokenCache s) !! selector with Some gs => gs = groups | None => True end /\
  match cache_values (compilerCache s) !! selector with Some sup => right_super sup groups | None => True end.

Lemma cache_put_lookup {A} key (a : A) c : cache_values (cache_put key a c) !! key = Some a.
Proof.
  unfold cache_put. destruct (_ <? _)%nat; [|apply lookup_insert_eq]. destruct (cache_keys c ++ [key]) eqn:E; [by destruct (cache_keys c)|].
  apply lookup_insert_eq.
Qed.

Section Selector.
Context (selector : jstr) (groups : list (list token)).
Context (Hgroups : groups <> []) (Hplain : Forall plain_group groups).
Context (Htokens : forall cached, tokens_of cached selector = Some (Good groups)).

Lemma tokenize_settled s : settled selector groups s ->
  yields (tokenize selector) s (fun gs s' => gs = groups /\ settled selector groups s').
Proof.
  intros (T & Ht & Hc). destruct (cache_values (tokenCache s) !! selector) as [gs|] eqn:E.
  - exists gs, s. split; [unfold tokenize, bind, get; by rewrite E|]. split; [done|]. split; [done|]. by rewrite E.
  - pose proof (tokenize_first s selector groups E (Htokens _)) as E1. eexists _, _. split; [exact E1|]. split; [done|].
    pose proof (tokenize_keeps selector s T) as K. rewrite E1 in K. split; [apply K|]. split; [|exact Hc].
    change (match cache_values (cache_put selector groups (tokenCache s)) !! selector with Some gs => gs = groups | None => True end).
    by rewrite cache_put_lookup.
Qed.
Lemma compile_settled depth s : settled selector groups s ->
  yields (compile (S depth) selector (Some groups)) s (fun sup s' => right_super sup groups /\ settled selector groups s').
Proof.
  intros (T & Ht & Hc). cbn [compile]. unfold compile_with. apply yields_get.
  destruct (cache_values (compilerCache s) !! selector) as [sup|] eqn:E; [apply yields_ret; split; [done|]; split; [done|by rewrite E]|].
  apply yields_pure. pose proof (compile_groups_keeps (fun t => compile depth t None) (fun t => compile_keeps depth t None) (rev groups) [] [] s T) as K.
  destruct (compile_groups_ok (fun t => compile depth t None) (rev groups) [] [] s) as (p & s1 & E1 & [k ->] & H2 & H3 & H4 & H5);
    [by apply Forall_rev|constructor|constructor|done|]. rewrite E1 in K. destruct K as [K _].
  destruct p as [ms ss]. cbn [fst snd] in *. subst ss. eexists _, _. split; [unfold bind at 1; rewrite E1; reflexivity|].
  assert (R : right_super (Super (supers s) ms []) groups).
  { exists (supers s), ms. split; [done|]. split; [intros ->; cbn in H3; rewrite length_rev in H3; by destruct groups|]. split; [done|].
    intros o c e. change (sem_super o (Super 0 ms []) c e = any_in o c groups e). rewrite H5. apply any_in_rev. }
  split; [exact R|]. destruct (l_tidy _ _ K) as [T1 T2 T3 T4]. split; [by split|]. split; [exact Ht|].
  cbn [compilerCache with_compilerCache]. by rewrite cache_put_lookup.
Qed.
Lemma run_settled sizzle depth l s : settled selector groups s -> Forall (fun e => is_element e = true) l ->
  yields (compile_and_run (S depth) sizzle selector groups (Some l) 0 []) s
    (fun r s' => r = filter (fun e => any_holds 0 groups e = true) l /\ settled selector groups s').
Proof.
  intros S Hl. unfold compile_and_run. eapply yields_bind; [by apply compile_settled|].
  intros sup s1 [(q & ms & -> & Hms & Hg & Hsem) (T & Ht & Hc)]. eapply yields_bind; [by apply search_seed|].
  intros r s2 (Hr & T2 & _ & H1 & H2 & H3 & H4 & H5). apply yields_ret. split.
  - rewrite Hr. cbn [app]. apply list_filter_iff. intros e. by rewrite (sem_holds 0 _ groups Hsem).
  - split; [done|]. by rewrite H3, H4.
Qed.
Lemma select_settled sizzle depth l s : settled selector groups s -> Forall (fun e => is_element e = true) l ->
  yields (select (S depth) sizzle selector 0 [] (Some l)) s
    (fun r s' => r = filter (fun e => any_holds 0 groups e = true) l /\ settled selector groups s').
Proof.
  intros S Hl. unfold select. eapply yields_bind; [by apply tokenize_settled|]. intros gs s1 [-> S1]. by apply run_settled.
Qed.
End Selector.

(** A native answer is right, where the engine asks for one. *)
Definition native_right (expr : jstr) (P : nat -> bool) : Prop :=
  forall e b, is_element e = true -> native_matches e expr = Some b -> b = P e.
Lemma sizzle_seeded depth expr groups l s : expr <> [] -> groups <> [] -> Forall plain_group groups ->
  (forall cached, tokens_of cached (trimmed expr) = Some (Good groups)) -> settled (trimmed expr) groups s ->
  Forall (fun e => is_element e = true) l ->
  forall c, default O c = O -> yields (Sizzle (S depth) expr c [] (Some l)) s
    (fun r s' => r = filter (fun e => any_holds 0 groups e = true) l /\ settled (trimmed expr) groups s').
Proof.
  intros He Hg Hp Ht S Hl c Hc. cbn [Sizzle]. unfold Sizzle_with. cbn zeta. rewrite Hc. destruct expr as [|x expr]; [done|].
  rewrite (proj2 (q_document 0) eq_refl). change (negb ((9 =? 1) || (9 =? 9))) with false. cbn iota. by apply select_settled.
Qed.
Lemma sizzle_keeps_promise depth expr groups : expr <> [] -> groups <> [] -> Forall plain_group groups ->
  (forall cached, tokens_of cached (trimmed expr) = Some (Good groups)) -> quoted expr = expr ->
  native_right expr (any_holds 0 groups) ->
  Promise (sizzle_engine (S depth)) expr (any_holds 0 groups) (settled (trimmed expr) groups).
Proof.
  intros He Hg Hp Ht Hq Hn. split.
  - intros l s S Hl. by apply (sizzle_seeded depth expr groups l s He Hg Hp Ht S Hl None).
  - intros e s S Hel. cbn [engine_matchesSelector sizzle_engine]. unfold matchesSelector. rewrite Hq.
    set (others := bind _ _).
    assert (Ho : yields others s (fun b s' => b = any_holds 0 groups e /\ settled (trimmed expr) groups s')).
    { eapply yields_bind; [apply (sizzle_seeded depth expr groups [e] s He Hg Hp Ht S ltac:(by constructor) (Some O)); done|].
      intros r s' [-> S']. apply yields_ret. split; [|done]. rewrite filter_cons. destruct (decide _) as [Hd|Hd]; [by rewrite Hd|].
      apply not_true_is_false in Hd. by rewrite Hd. }
    cbn zeta. destruct (_ && _); [|exact Ho]. destruct (native_matches e expr) as [b|] eqn:E; [|exact Ho].
    destruct (_ || _); [|exact Ho]. apply yields_ret. split; [by apply (Hn e)|done].
Qed.
End Sizzle.

(** * Sets of elements: what the walks give

    [trail]: the nodes a walk visits. The lists of the methods along parents and siblings
    ([dir_ok], [sibling_list_ok]), the sorting ([uniqueSort_sorted], [elem_of_uniqueSort])
    and the methods that ask the engine ([jq_filter_ok], [climb_ok]). *)

(** ** Sorting *)

Lemma elem_of_insert_node x n l : x ∈ insert_node n l <-> x = n \/ x ∈ l.
Proof.
  induction l as [|m l IH]; cbn; [by rewrite list_elem_of_singleton, elem_of_nil; naive_solver|].
  destruct (n <=? m)%nat; rewrite !elem_of_cons; [done|]. rewrite IH. naive_solver.
Qed.
Lemma insert_node_sorted n l : StronglySorted le l -> StronglySorted le (insert_node n l).
Proof.
  induction 1 as [|m l Hl IH Hm]; cbn; [by repeat constructor|]. destruct (Nat.leb_spec n m).
  - constructor; [by constructor|]. constructor; [done|]. eapply Forall_impl; [exact Hm|]. cbn. lia.
  - constructor; [done|]. apply Forall_forall. intros x [->|Hx]%elem_of_insert_node; [lia|]. rewrite Forall_forall in Hm. by apply Hm.
Qed.
Lemma drop_repeated_cons a b l : drop_repeated (a :: b :: l) = if (a =? b)%nat then drop_repeated (b :: l) else a :: drop_repeated (b :: l).
Proof. reflexivity. Qed.
Lemma elem_of_drop_repeated x l : x ∈ drop_repeated l <-> x ∈ l.
Proof.
  induction l as [|a l IH]; [done|]. destruct l as [|b l]; [done|]. rewrite drop_repeated_cons. destruct (Nat.eqb_spec a b) as [->|Hab].
  - rewrite IH, !elem_of_cons. naive_solver.
  - rewrite (elem_of_cons (drop_repeated (b :: l))), IH. by rewrite (elem_of_cons (b :: l) x a).
Qed.
Lemma drop_repeated_sorted l : StronglySorted le l -> StronglySorted lt (drop_repeated l).
Proof.
  induction 1 as [|a l Hl IH Ha]; [constructor|]. destruct l as [|b l]; [by repeat constructor|].
  rewrite drop_repeated_cons. destruct (Nat.eqb_spec a b) as [->|Hab]; [done|]. constructor; [done|].
  apply Forall_forall. intros x Hx. rewrite elem_of_drop_repeated in Hx. apply Forall_cons in Ha as [Hb _].
  apply StronglySorted_inv in Hl as [_ Hl]. rewrite Forall_forall in Hl. apply elem_of_cons in Hx as [->|Hx]; [lia|]. specialize (Hl x Hx). lia.
Qed.
Lemma uniqueSort_sorted l : StronglySorted lt (uniqueSort l).
Proof.
  apply drop_repeated_sorted. induction l as [|n l IH]; [constructor|]. by apply insert_node_sorted.
Qed.
Lemma elem_of_uniqueSort x l : x ∈ uniqueSort l <-> x ∈ l.
Proof.
  unfold uniqueSort. rewrite elem_of_drop_repeated. induction l as [|n l IH]; [done|]. cbn [sort_nodes foldr].
  rewrite elem_of_insert_node, elem_of_cons. fold (sort_nodes l). by rewrite IH.
Qed.

(** ** Walks *)

Fixpoint trail (step : nat -> option nat) (cur : option nat) (l : list nat) : Prop :=
  match l with
  | [] => cur = None
  | n :: l => cur = Some n /\ trail step (step n) l
  end.
(** Up to a document. *)
Fixpoint before_document {D : Document} (l : list nat) : list nat :=
  match l with
  | [] => []
  | n :: l => if nodeType n =? 9 then [] else n :: before_document l
  end.

Definition elements_of {D : Document} (l : list nat) : list nat := filter (fun n => is_element n = true) l.

Section Walks.
Context {D : Document} {L : DocumentLaws D} {Q : QueryLaws D}.

(** What comes before the first element where the walk stops. *)
Fixpoint until_ (stop : nat -> bool) (l : list nat) : list nat :=
  match l with
  | [] => []
  | n :: l => if stop n then [] else n :: until_ stop l
  end.
Lemma until_never (stop : nat -> bool) l : (forall n, stop n = false) -> until_ stop l = l.
Proof. intros H. induction l as [|n l IH]; cbn; [done|]. by rewrite H, IH. Qed.
(** The function that tells where to stop answers what [stop] says. *)
Definition stops (f : nat -> M bool) (stop : nat -> bool) (ok : state -> Prop) : Prop :=
  forall n s, is_element n = true -> ok s -> yields (f n) s (fun b s' => b = stop n /\ ok s').
Lemma no_stop_stops s : stops no_stop (fun _ => false) (eq s).
Proof. intros n s' _ <-. by apply yields_ret. Qed.
Lemma dir_from_ok step f stop ok l : stops f stop ok -> forall fuel cur s, ok s -> trail step cur l -> (length l < fuel)%nat ->
  yields (dir_from fuel step f cur) s (fun r s' => r = until_ stop (elements_of (before_document l)) /\ ok s').
Proof.
  intros Hf. induction l as [|n l IH]; intros fuel cur s Hs Ht Hl; (destruct fuel as [|fuel]; [cbn in Hl; lia|]); cbn [dir_from].
  - rewrite Ht. by apply yields_ret.
  - destruct Ht as [-> Ht]. cbn [before_document]. destruct (nodeType n =? 9); [by apply yields_ret|].
    specialize (fun s Hs => IH fuel (step n) s Hs Ht ltac:(cbn in Hl; lia)). unfold elements_of. rewrite filter_cons.
    destruct (is_element n) eqn:En; [|by rewrite decide_False; auto; apply IH]. rewrite decide_True by done. cbn [until_].
    eapply yields_bind; [by apply Hf|]. intros b s1 [-> Hs1]. destruct (stop n); [by apply yields_ret|].
    eapply yields_bind; [by apply IH|]. intros r s2 [-> Hs2]. by apply yields_ret.
Qed.
Lemma sibling_from_ok elem s l : forall fuel n, trail nextSibling n l -> (length l < fuel)%nat ->
  sibling_from fuel n elem s = Some (s, Good (filter (fun m => is_element m && negb (bool_decide (elem = Some m)) = true) l)).
Proof.
  induction l as [|m l IH]; intros fuel n Ht Hf; (destruct fuel as [|fuel]; [cbn in Hf; lia|]); cbn [sibling_from].
  - by rewrite Ht.
  - destruct Ht as [-> Ht]. rewrite filter_cons. unfold bind. rewrite (IH fuel _ Ht) by (cbn in Hf; lia).
    destruct (_ && _); [by rewrite decide_True|by rewrite decide_False].
Qed.
Lemma along_trail d e : trail (along d) (along d e) (path d e).
Proof.
  induction (lt_wf e) as [e _ IH]. rewrite path_eq. destruct (along d e) as [m|] eqn:E; [|done]. split; [done|].
  apply along_before in E as Hm. by apply IH.
Qed.
Lemma next_trail p l1 l2 : childNodes p = l1 ++ l2 -> trail nextSibling (head l2) l2.
Proof.
  revert l1. induction l2 as [|n l2 IH]; intros l1 E; [done|]. split; [done|]. destruct (next_split _ _ _ _ E) as [-> _].
  apply (IH (l1 ++ [n])). by rewrite E, <- app_assoc.
Qed.
Lemma previous_path e p l1 l2 : childNodes p = l1 ++ e :: l2 -> path previousSibling_ e = rev l1.
Proof.
  revert e l2. induction l1 as [|x l1 IH] using rev_ind; intros e l2 E.
  - rewrite path_eq. cbn [along]. destruct (next_split _ _ _ _ E) as [_ ->]. done.
  - rewrite path_eq. cbn [along]. destruct (next_split _ _ _ _ E) as [_ ->]. rewrite last_snoc, rev_app_distr. cbn. f_equal.
    apply (IH x (e :: l2)). by rewrite E, <- app_assoc.
Qed.
Lemma children_few p l1 l2 : childNodes p = l1 ++ l2 -> (length l1 <= size /\ length l2 <= size)%nat.
Proof. intros E. pose proof (children_bound p) as H. rewrite E, length_app in H. lia. Qed.
Lemma path_few d e : (e < size)%nat -> (length (path d e) <= size)%nat.
Proof.
  intros He. enough (length (path d e) <= e)%nat by lia. clear He. induction (lt_wf e) as [e _ IH]. rewrite path_eq.
  destruct (along d e) as [m|] eqn:E; [|cbn; lia]. apply along_before in E as Hm. cbn. specialize (IH m Hm). lia.
Qed.
Lemma before_document_elements l : Forall (fun n => n <> O) l -> before_document l = l.
Proof.
  induction 1 as [|n l Hn Hl IH]; [done|]. cbn. rewrite (proj2 (Z.eqb_neq _ _)); [by rewrite IH|]. intros H. by apply q_document in H.
Qed.
Lemma children_not_root p : Forall (fun n => n <> O) (childNodes p).
Proof. apply Forall_forall. intros n Hn. apply in_children, parent_before in Hn. lia. Qed.

(** Of the ancestors, all but the document are elements. *)
Lemma ancestors_before x : filter (fun n => is_element n = true) (before_document (path parentNode_ x)) = elements_of (path parentNode_ x).
Proof.
  induction (lt_wf x) as [x _ IH]. rewrite path_eq. cbn [along]. destruct (parentNode x) as [p|] eqn:E; [|done].
  apply parent_before in E as Hlt. unfold elements_of in *. cbn [before_document]. destruct (nodeType p =? 9) eqn:Ep.
  - apply Z.eqb_eq, q_document in Ep as ->. rewrite filter_cons, decide_False by (intros H; by apply element_not_root in H).
    rewrite path_eq. cbn [along]. destruct (parentNode 0) as [q|] eqn:E0; [apply parent_before in E0; lia|done].
  - rewrite !filter_cons. by rewrite IH by lia.
Qed.
Lemma parents_ok f stop ok e s : stops f stop ok -> ok s -> (e < size)%nat ->
  yields (dir e parentNode f) s (fun r s' => r = until_ stop (elements_of (path parentNode_ e)) /\ ok s').
Proof.
  intros Hf Hs He. unfold dir. eapply yields_mono; [apply (dir_from_ok parentNode f stop ok (path parentNode_ e)); [done|done|apply (along_trail parentNode_)|]|].
  - pose proof (path_few parentNode_ e He). lia.
  - intros r s' [-> Hs']. split; [|done]. f_equal. apply ancestors_before.
Qed.
(** The elements after and before a node among its siblings, the nearest_match first. *)
Definition after (e : nat) : list nat := elements_of (filter (fun m => (e < m)%nat) (siblings_of e)).
Definition before (e : nat) : list nat := elements_of (rev (filter (fun m => (m < e)%nat) (siblings_of e))).
Lemma sibling_next_ok step s l : forall fuel n, trail step (step n) l -> (length l < fuel)%nat ->
  sibling_next fuel step n s = Some (s, Good (head (elements_of l))).
Proof.
  induction l as [|m l IH]; intros fuel n Ht Hf; (destruct fuel as [|fuel]; [cbn in Hf; lia|]); cbn [sibling_next].
  - by rewrite Ht.
  - destruct Ht as [-> Ht]. unfold elements_of. rewrite filter_cons. destruct (is_element m) eqn:Em; [by rewrite decide_True|].
    rewrite decide_False by done. apply IH; [done|cbn in Hf; lia].
Qed.
(** The way along the siblings in one direction. *)
Definition walk_ok (step : nat -> option nat) (e : nat) (l : list nat) : Prop :=
  (forall f stop ok s, stops f stop ok -> ok s -> yields (dir e step f) s (fun r s' => r = until_ stop l /\ ok s')) /\
  forall s, sibling_next (S (S size)) step e s = Some (s, Good (head l)).
Lemma walks_beside (step : nat -> option nat) e l : trail step (step e) l -> (length l <= size)%nat -> Forall (fun n => n <> O) l ->
  walk_ok step e (elements_of l).
Proof.
  intros Ht Hl Hr. split; [|intros s; apply sibling_next_ok; [done|lia]]. intros f stop ok s Hf Hs. unfold dir.
  eapply yields_mono; [apply (dir_from_ok step f stop ok l); [done|done|done|lia]|]. intros r s' [-> Hs']. by rewrite before_document_elements.
Qed.
Lemma beside_ok e : walk_ok nextSibling e (after e) /\ walk_ok previousSibling e (before e).
Proof.
  unfold after, before, siblings_of. destruct (parentNode e) as [p|] eqn:E.
  - destruct (split_children e p E) as (l1 & l2 & Hs). pose proof (children_few _ _ _ Hs) as [F1 F2]. cbn in F2.
    pose proof (children_not_root p) as Hr. pose proof (children_sorted p) as Hc. rewrite Hs in Hr, Hc |- *.
    rewrite (filter_after _ _ _ Hc), (filter_before _ _ _ Hc). apply Forall_app in Hr as [R1 R2]. apply Forall_cons in R2 as [_ R2].
    split; apply walks_beside; try done.
    + destruct (next_split _ _ _ _ Hs) as [-> _]. eapply (next_trail p (l1 ++ [e])). by rewrite Hs, <- app_assoc.
    + lia.
    + rewrite <- (previous_path e p l1 l2 Hs). apply (along_trail previousSibling_).
    + by rewrite length_rev.
    + by apply Forall_rev.
  - split; apply (walks_beside _ e []); try done; unfold trail, nextSibling, previousSibling, siblings_of; try (by rewrite E); cbn; lia.
Qed.
Lemma sibling_list_ok p elem s : sibling_list (firstChild p) elem s =
  Some (s, Good (filter (fun m => is_element m && negb (bool_decide (elem = Some m)) = true) (childNodes p))).
Proof.
  unfold sibling_list. apply sibling_from_ok; [by apply (next_trail p [])|]. pose proof (children_bound p). lia.
Qed.

(** ** Order *)

Lemma ordered_sublist (R : nat -> nat -> Prop) (P : nat -> Prop) `{!forall n, Decision (P n)} l : StronglySorted R l -> StronglySorted R (filter P l).
Proof.
  induction 1 as [|a l Hl IH Ha]; [constructor|]. rewrite filter_cons. case_decide; [|done]. constructor; [done|].
  apply Forall_forall. intros x Hx. apply list_elem_of_filter in Hx as [_ Hx]. rewrite Forall_forall in Ha. by apply Ha.
Qed.
Lemma rev_sorted l : StronglySorted lt l -> StronglySorted gt (rev l).
Proof.
  induction 1 as [|a l Hl IH Ha]; [constructor|]. cbn [rev].
  assert (H : Forall (fun x => x > a)%nat (rev l)) by (apply Forall_rev; eapply Forall_impl; [exact Ha|]; cbn; lia).
  clear Hl Ha. induction IH as [|b r Hr IHr Hb]; [by repeat constructor|]. apply Forall_cons in H as [H1 H2]. cbn. constructor; [by apply IHr|].
  apply Forall_app. split; [done|by constructor].
Qed.
Lemma path_sorted d e : StronglySorted gt (path d e).
Proof.
  induction (lt_wf e) as [e _ IH]. rewrite path_eq. destruct (along d e) as [m|] eqn:E; [|constructor]. apply along_before in E as Hm.
  constructor; [by apply IH|]. apply Forall_forall. intros x Hx. apply path_before in Hx. lia.
Qed.
Lemma siblings_sorted e : StronglySorted lt (siblings_of e).
Proof. unfold siblings_of. destruct (parentNode e); [apply children_sorted|constructor]. Qed.
Lemma after_sorted e : StronglySorted lt (after e).
Proof. apply ordered_sublist, ordered_sublist, siblings_sorted. Qed.
Lemma before_sorted e : StronglySorted gt (before e).
Proof. apply ordered_sublist, rev_sorted, ordered_sublist, siblings_sorted. Qed.
Lemma head_first (R : nat -> nat -> Prop) l x : (forall a b, R a b -> R b a -> False) -> StronglySorted R l ->
  head l = Some x <-> x ∈ l /\ forall y, y ∈ l -> y = x \/ R x y.
Proof.
  intros Has Hs. destruct l as [|a l]; [split; [done|by intros [?%elem_of_nil _]]|]. apply StronglySorted_inv in Hs as [_ Ha]. rewrite Forall_forall in Ha.
  cbn [head]. split.
  - intros [= ->]. split; [apply elem_of_cons; by left|]. intros y [->|Hy]%elem_of_cons; [by left|right; by apply Ha].
  - intros [[->|Hx]%elem_of_cons H]; [done|]. destruct (H a) as [->|Hxa]; [apply elem_of_cons; by left|done|]. destruct (Has a x); auto.
Qed.

(** ** The methods of the table *)

Definition beside (e x : nat) : Prop := exists p, parentNode e = Some p /\ parentNode x = Some p.
Definition follows (e x : nat) : Prop := is_element x = true /\ beside e x /\ (e < x)%nat.
Definition precedes (e x : nat) : Prop := is_element x = true /\ beside e x /\ (x < e)%nat.
(** An element of a walk comes before the first where it stops. *)
Definition unstopped (stop : nat -> bool) (R : nat -> nat -> Prop) (P : nat -> Prop) (x : nat) : Prop :=
  P x /\ forall y, P y -> y = x \/ R y x -> stop y = false.
Lemma elem_of_until stop (R : nat -> nat -> Prop) l x : (forall a b, R a b -> R b a -> False) -> StronglySorted R l ->
  x ∈ until_ stop l <-> unstopped stop R (.∈ l) x.
Proof.
  unfold unstopped. intros Has. induction 1 as [|a l Hl IH Ha]; cbn [until_]; [rewrite elem_of_nil; naive_solver|].
  rewrite Forall_forall in Ha. destruct (stop a) eqn:Ea.
  - rewrite elem_of_nil. split; [done|]. intros [Hx H]. enough (stop a = false) by congruence.
    apply H; [apply elem_of_cons; by left|]. apply elem_of_cons in Hx as [->|Hx]; [by left|right; by apply Ha].
  - rewrite elem_of_cons, IH. split.
    + intros [->|[Hx H]].
      * split; [apply elem_of_cons; by left|]. intros y [->|Hy]%elem_of_cons [Hyx|Hyx]; [done|done|by subst|]. destruct (Has y a); auto.
      * split; [apply elem_of_cons; by right|]. intros y [->|Hy]%elem_of_cons Hyx; [done|by apply H].
    + intros [[->|Hx]%elem_of_cons H]; [by left|]. right. split; [done|]. intros y Hy. apply H. apply elem_of_cons. by right.
Qed.
(** The elements above a node. *)
Definition above (e x : nat) : Prop := is_element x = true /\ x ∈ path parentNode_ e.
(** The nodes that a method goes to; those with an end stop at the first element where [stop] holds. *)
Definition reaches (stop : nat -> bool) (m : method) (e x : nat) : Prop :=
  match m with
  | parent => parentNode e = Some x
  | parents => above e x
  | children => is_element x = true /\ parentNode x = Some e
  | contents => parentNode x = Some e
  | siblings => is_element x = true /\ beside e x /\ x <> e
  | nextAll => follows e x
  | prevAll => precedes e x
  | next => follows e x /\ forall y, follows e y -> y = x \/ (x < y)%nat
  | prev => precedes e x /\ forall y, precedes e y -> y = x \/ (x > y)%nat
  | parentsUntil => unstopped stop gt (above e) x
  | nextUntil => unstopped stop lt (follows e) x
  | prevUntil => unstopped stop gt (precedes e) x
  end.
Definition direction (m : method) : nat -> nat -> Prop := if rparentsprev m then gt else lt.

Lemma elem_of_siblings e x : x ∈ siblings_of e <-> beside e x.
Proof.
  unfold siblings_of, beside. destruct (parentNode e) as [p|]; [rewrite in_children; naive_solver|].
  split; [by intros ?%elem_of_nil|naive_solver].
Qed.
Lemma elem_of_after e x : x ∈ after e <-> follows e x.
Proof. unfold after, elements_of, follows. rewrite !list_elem_of_filter, elem_of_siblings. naive_solver. Qed.
Lemma elem_of_before e x : x ∈ before e <-> precedes e x.
Proof. unfold before, elements_of, precedes. rewrite list_elem_of_filter, rev_is_reverse, elem_of_reverse, list_elem_of_filter, elem_of_siblings. naive_solver. Qed.
Lemma elem_of_list_of o (x : nat) : x ∈ list_of o <-> o = Some x.
Proof. destruct o; cbn; [rewrite list_elem_of_singleton; naive_solver|rewrite elem_of_nil; naive_solver]. Qed.
Lemma list_of_sorted (R : nat -> nat -> Prop) o : StronglySorted R (list_of o).
Proof. destruct o; repeat constructor. Qed.
Lemma parent_type e p : parentNode e = Some p -> (nodeType p =? 11) = false.
Proof.
  intros [He| ->]%q_parents; [|by rewrite (proj2 (q_document 0) eq_refl)]. unfold is_element in He. apply Z.eqb_eq in He. by rewrite He.
Qed.
Lemma sibling_list_at stop m e : m = siblings \/ m = children ->
  exists l, (forall s, sibling_list (match m with siblings => match parentNode e with Some p => firstChild p | None => None end | _ => firstChild e end)
    (match m with siblings => Some e | _ => None end) s = Some (s, Good l)) /\ StronglySorted lt l /\ forall x, x ∈ l <-> reaches stop m e x.
Proof.
  intros [-> | ->]; cbn [reaches].
  - destruct (parentNode e) as [p|] eqn:E.
    + eexists. split; [intros s; apply sibling_list_ok|]. split; [apply ordered_sublist, children_sorted|]. intros x. unfold beside.
      rewrite list_elem_of_filter, in_children, andb_true_iff, negb_true_iff, bool_decide_eq_false, E. naive_solver.
    + exists []. split; [done|]. split; [constructor|]. intros x. unfold beside. rewrite elem_of_nil, E. naive_solver.
  - eexists. split; [intros s; apply sibling_list_ok|]. split; [apply ordered_sublist, children_sorted|]. intros x.
    rewrite list_elem_of_filter, in_children. cbn. rewrite andb_true_r. done.
Qed.

Section Methods.
Context {B : Browser} {J : Engine}.

(** What a method with the end [until] gives. *)
Definition gives (until : option source) (stop : nat -> bool) (ok : state -> Prop) (m : method) (e : nat) : Prop :=
  forall s, ok s -> yields (run_method m until e) s (fun l s' =>
    (StronglySorted (direction m) l /\ forall x, x ∈ l <-> reaches stop m e x) /\ ok s').
Lemma gives_pure until stop ok m e l : (forall s, run_method m until e s = Some (s, Good l)) -> StronglySorted (direction m) l ->
  (forall x, x ∈ l <-> reaches stop m e x) -> gives until stop ok m e.
Proof. intros H H1 H2 s Hs. exists l, s. by rewrite H. Qed.
Lemma until_sorted stop (R : nat -> nat -> Prop) l : StronglySorted R l -> StronglySorted R (until_ stop l).
Proof.
  induction 1 as [|a l Hl IH Ha]; cbn; [constructor|]. destruct (stop a); constructor; [done|]. rewrite Forall_forall in Ha.
  apply Forall_forall. intros x Hx. apply Ha. clear -Hx. induction l as [|b l IH]; cbn in Hx; [done|]. destruct (stop b); [by apply elem_of_nil in Hx|].
  apply elem_of_cons in Hx as [->|Hx]; apply elem_of_cons; [by left|right; by apply IH].
Qed.
Definition stop_of (until : option source) : nat -> M bool :=
  match until with
  | None => no_stop
  | Some s => fun n => is_ (Jq [n] (Some n) [] None) (From s)
  end.
(** A walk with an end, and one without. *)
Lemma gives_until until stop ok m e l (P : nat -> Prop) :
  (forall s, ok s -> yields (run_method m until e) s (fun r s' => r = until_ stop l /\ ok s')) ->
  StronglySorted (direction m) l -> (forall x, x ∈ l <-> P x) -> (forall x, reaches stop m e x <-> unstopped stop (direction m) P x) ->
  gives until stop ok m e.
Proof.
  intros H Hl HP Hr s Hs. eapply yields_mono; [by apply H|]. intros r s' [-> Hs']. split; [|done]. split; [by apply until_sorted|].
  intros x. rewrite Hr, (elem_of_until stop (direction m)) by (done || unfold direction; destruct (rparentsprev m); lia).
  unfold unstopped. by setoid_rewrite HP.
Qed.
Lemma gives_all until stop ok m e l (w : M (list nat)) : run_method m until e = w ->
  (forall s, yields w s (fun r s' => r = until_ (fun _ => false) l /\ s = s')) -> StronglySorted (direction m) l -> (forall x, x ∈ l <-> reaches stop m e x) ->
  gives until stop ok m e.
Proof.
  intros Hw H Hl Hr. apply (gives_pure _ _ _ _ _ l); [|done|done]. intros s. destruct (H s) as (r & s' & E & -> & <-). rewrite Hw, E.
  by rewrite until_never.
Qed.
(** No frames where their documents would be taken. *)
Definition frameless (m : method) (e : nat) : Prop := m = contents -> js_eqb (toLowerCase (nodeName e)) (u "iframe") = false.
Lemma run_method_ok m until stop ok e : (runtil m = true -> stops (stop_of until) stop ok) -> (e < size)%nat -> frameless m e -> gives until stop ok m e.
Proof.
  intros Hm He Hf. destruct (beside_ok e) as [[An An'] [Bn Bn']]. pose proof (after_sorted e) as Sa. pose proof (before_sorted e) as Sb.
  pose proof (elem_of_after e) as Ea. pose proof (elem_of_before e) as Eb. pose proof no_stop_stops as Hn.
  assert (Sp : StronglySorted gt (elements_of (path parentNode_ e))) by (apply ordered_sublist, path_sorted).
  assert (Ep : forall x, x ∈ elements_of (path parentNode_ e) <-> above e x) by (intros x; unfold elements_of; by rewrite list_elem_of_filter).
  destruct m.
  - eapply gives_pure; [done| |]; cbn [reaches]; destruct (parentNode e) as [p|] eqn:E; rewrite ?(parent_type e p E); try by repeat constructor.
    + intros x. rewrite list_elem_of_singleton. naive_solver.
    + intros x. rewrite elem_of_nil. naive_solver.
  - eapply gives_all; [done| |exact Sp|exact Ep]. intros s. by apply (parents_ok no_stop (fun _ => false) (eq s)).
  - eapply gives_until; [|exact Sp|exact Ep|done]. intros s Hs. by apply (parents_ok (stop_of until) stop ok); [apply Hm| |].
  - eapply gives_pure; [intros s; cbn [run_method]; unfold bind; by rewrite An'|apply list_of_sorted|]. intros x.
    rewrite elem_of_list_of, (head_first lt) by (done || lia). cbn [reaches]. by setoid_rewrite Ea.
  - eapply gives_pure; [intros s; cbn [run_method]; unfold bind; by rewrite Bn'|apply list_of_sorted|]. intros x.
    rewrite elem_of_list_of, (head_first gt) by (done || lia). cbn [reaches]. by setoid_rewrite Eb.
  - eapply gives_all; [done| |exact Sa|exact Ea]. intros s. by apply An.
  - eapply gives_all; [done| |exact Sb|exact Eb]. intros s. by apply Bn.
  - eapply gives_until; [|exact Sa|exact Ea|done]. intros s Hs. by apply An; [apply Hm|].
  - eapply gives_until; [|exact Sb|exact Eb|done]. intros s Hs. by apply Bn; [apply Hm|].
  - destruct (sibling_list_at stop siblings e (or_introl eq_refl)) as (l & E & Hl & Hr). eapply gives_pure; [exact E|exact Hl|exact Hr].
  - destruct (sibling_list_at stop children e (or_intror eq_refl)) as (l & E & Hl & Hr). eapply gives_pure; [exact E|exact Hl|exact Hr].
  - eapply gives_pure; [intros s; cbn [run_method]; by rewrite (Hf eq_refl)|apply children_sorted|]. intros x. apply in_children.
Qed.
(** The lists that a method gives for the nodes of a set. *)
Definition found_lists (stop : nat -> bool) (m : method) : list nat -> list (list nat) -> Prop :=
  Forall2 (fun e r => StronglySorted (direction m) r /\ forall x, x ∈ r <-> reaches stop m e x).
Lemma map_method_ok m until stop ok l s : (runtil m = true -> stops (stop_of until) stop ok) -> ok s ->
  Forall (fun e => (e < size)%nat /\ frameless m e) l ->
  yields (map_method m until l) s (fun r s' => (exists rs, r = concat rs /\ found_lists stop m l rs) /\ ok s').
Proof.
  intros Hm Hs Hl. revert s Hs. induction Hl as [|e l [He Hf] Hl IH]; intros s Hs; cbn [map_method].
  - apply yields_ret. split; [|done]. exists []. by repeat constructor.
  - eapply yields_bind; [by eapply run_method_ok|]. intros r s1 [Hr Hs1]. eapply yields_bind; [by apply IH|].
    intros r' s2 [(rs & -> & Hrs) Hs2]. apply yields_ret. split; [|done]. exists (r :: rs). split; [done|by constructor].
Qed.
End Methods.
End Walks.
