(* ===== verification/TraverseProps.v ===== *)
(** * Sets of elements: closest, filter, not, is, index

    What these methods give with an engine that keeps its promise ([climb_ok],
    [winnow_ok], [is_ok], [index_ok]), and the properties. *)

From Stdlib Require Import ZArith Lia Sorted.
From stdpp Require Import base tactics list numbers strings gmap.
From S2P Require Import Prelude JsValue ValidPage RegExec SizzleTokens Sizzle SizzleSelect SizzleSpec SizzleFrame SizzleChild SizzleTidy SizzleMeaning SizzleText SizzleScope SizzleExact Traverse TraverseFacts.
Local Open Scope Z_scope.

Local Open Scope sizzle_scope.

Section Closest.
Context {D : Document} {L : DocumentLaws D} {Q : QueryLaws D} {B : Browser} {J : Engine}.

(** The first of a node and its ancestors that [P] holds of, below the context. *)
Definition nearest_match (P : nat -> bool) (context : option nat) (e x : nat) : Prop :=
  is_element x = true /\ P x = true /\
  exists below above, e :: path parentNode_ e = below ++ x :: above /\
    forall y, y ∈ below ++ [x] -> context <> Some y /\ (P y = true -> y = x).

Lemma nearest_here (P : nat -> bool) context e x : is_element e = true -> P e = true -> context <> Some e -> nearest_match P context e x <-> x = e.
Proof.
  intros He Hp Hc. split.
  - intros (_ & _ & below & above & E & H). destruct below as [|b below]; [by injection E|]. injection E as -> _.
    symmetry. apply H; [|done]. apply elem_of_cons. by left.
  - intros ->. split; [done|]. split; [done|]. exists [], (path parentNode_ e). split; [done|]. by intros y ->%list_elem_of_singleton.
Qed.
Lemma nearest_up (P : nat -> bool) context e p x : P e = false -> context <> Some e -> parentNode e = Some p ->
  nearest_match P context e x <-> nearest_match P context p x.
Proof.
  intros Hp Hc E. unfold nearest_match. rewrite (path_eq parentNode_ e). cbn [along]. rewrite E. apply and_iff_compat_l.
  split; intros (Hx & below & above & Eq & H); split; try done.
  - destruct below as [|b below]; [injection Eq; intros; by subst; congruence|]. injection Eq as <- Eq. exists below, above. split; [done|].
    intros y Hy. apply H. apply elem_of_cons. by right.
  - exists (e :: below), above. split; [by rewrite Eq|]. intros y [->|Hy]%elem_of_cons; [split; [done|congruence]|by apply H].
Qed.
Lemma nearest_none (P : nat -> bool) context e x : context = Some e \/ e = O -> ~ nearest_match P context e x.
Proof.
  intros Hc (Hx & _ & below & above & Eq & H). destruct Hc as [Hc| ->].
  - destruct below as [|b below]; injection Eq as <- _; by destruct (H e ltac:(apply elem_of_cons; by left)).
  - assert (x ∈ 0%nat :: path parentNode_ 0) as Hin by (rewrite Eq; apply elem_of_app; right; apply elem_of_cons; by left).
    apply elem_of_cons in Hin as [->|Hin%path_before]; [by apply element_not_root in Hx|lia].
Qed.
Lemma nearest_alone (P : nat -> bool) context e x : P e = false -> parentNode e = None -> ~ nearest_match P context e x.
Proof.
  intros Hp E (Hx & Hpx & below & above & Eq & H). rewrite path_eq in Eq. cbn [along] in Eq. rewrite E in Eq.
  destruct below as [|b [|c below]]; [injection Eq; congruence|done|done].
Qed.

Section Answers.
Context (t : jstr) (P : nat -> bool) (ok : state -> Prop) {HP : Promise J t P ok}.

Lemma climb_ok context n : n = O \/ is_element n = true -> forall fuel s, (S n < fuel)%nat -> ok s ->
  yields (climb fuel (fun n => engine_matchesSelector n t) context (Some n)) s
    (fun o s' => (forall x, o = Some x <-> nearest_match P context n x) /\ ok s').
Proof.
  induction (lt_wf n) as [n _ IH]. intros Hn fuel s Hf Hs. destruct fuel as [|fuel]; [lia|]. cbn [climb].
  destruct (decide (context = Some n \/ n = O)) as [Hc|Hc].
  - assert ((nodeType n =? 9) || bool_decide (context = Some n) = true) as ->.
    { apply orb_true_iff. rewrite bool_decide_eq_true, Z.eqb_eq, q_document. tauto. }
    cbn [orb]. apply yields_ret. split; [|done]. intros x. split; [done|]. intros H. by eapply nearest_none in H.
  - destruct Hn as [Hn|He]; [tauto|].
    assert ((nodeType n =? 9) || bool_decide (context = Some n) || (nodeType n =? 11) = false) as ->.
    { unfold is_element in He. apply Z.eqb_eq in He. rewrite He. rewrite bool_decide_eq_false_2 by tauto. done. }
    eapply yields_bind; [by apply promise_selects|]. intros b s1 [-> Hs1]. destruct (P n) eqn:Ep.
    + apply yields_ret. split; [|done]. intros x. rewrite nearest_here by tauto. naive_solver.
    + destruct (parentNode n) as [p|] eqn:E.
      * apply parent_before in E as Hlt. eapply yields_mono; [apply IH; try done; [|lia]|].
        -- destruct (q_parents _ _ E); tauto.
        -- intros o s' [H Hs']. split; [|done]. intros x. rewrite H. symmetry. apply nearest_up; tauto.
      * destruct fuel as [|fuel]; [lia|]. cbn [climb]. apply yields_ret. split; [|done]. intros x. split; [done|].
        intros H. by eapply nearest_alone in H.
Qed.
Lemma closest_each_ok context l s : Forall (fun e => is_element e = true) l -> ok s ->
  yields (closest_each (fun n => engine_matchesSelector n t) context l) s
    (fun r s' => (forall x, x ∈ r <-> exists e, e ∈ l /\ nearest_match P context e x) /\ ok s').
Proof.
  intros Hl. revert s. induction Hl as [|e l He Hl IH]; intros s Hs; cbn [closest_each].
  - apply yields_ret. split; [|done]. intros x. rewrite elem_of_nil. split; [done|]. by intros (e & ?%elem_of_nil & _).
  - eapply yields_bind; [apply (climb_ok context e); [by right|lia|done]|]. intros o s1 [Ho Hs1]. eapply yields_bind; [by apply IH|].
    intros r s2 [Hr Hs2]. apply yields_ret. split; [|done]. intros x. setoid_rewrite elem_of_cons.
    transitivity (o = Some x \/ x ∈ r); [|rewrite Ho, Hr; naive_solver]. destruct o; rewrite ?elem_of_cons; naive_solver.
Qed.
End Answers.

(** ** Filters *)

Lemma inArray_in e l : (0 <=? inArray e l) = bool_decide (e ∈ l).
Proof.
  unfold inArray. destruct (list_find (eq e) l) as [[i x]|] eqn:E.
  - apply list_find_Some in E as (H & -> & _). rewrite bool_decide_eq_true_2 by (by eapply list_elem_of_lookup_2). apply Z.leb_le. lia.
  - rewrite list_find_None, Forall_forall in E. rewrite bool_decide_eq_false_2; [done|]. intros H. by apply (E e H).
Qed.
Lemma all_elements_kept l : Forall (fun e => is_element e = true) l -> filter (fun e => is_element e = true) l = l.
Proof. induction 1 as [|e l He Hl IH]; [done|]. rewrite filter_cons, decide_True by done. by rewrite IH. Qed.
Lemma grep_array (P : nat -> bool) keep (l : list nat) : grep (fun e => 0 <=? inArray e (filter (fun e => P e = true) l)) keep l = filter (fun e => eqb (P e) keep = true) l.
Proof.
  unfold grep. apply filter_bool_ext. intros e He. rewrite inArray_in. f_equal.
  destruct (P e) eqn:Ep; [apply bool_decide_eq_true_2|apply bool_decide_eq_false_2]; rewrite list_elem_of_filter, Ep; naive_solver.
Qed.
Lemma keep_true (P : nat -> bool) (l : list nat) : filter (fun e => eqb (P e) true = true) l = filter (fun e => P e = true) l.
Proof. apply list_filter_iff. intros e. by destruct (P e). Qed.
Lemma keep_false (P : nat -> bool) (l : list nat) : filter (fun e => eqb (P e) false = true) l = filter (fun e => P e = false) l.
Proof. apply list_filter_iff. intros e. by destruct (P e). Qed.

(** The engine's answer about a selector and, where it is asked, about its negation. *)
Definition answers (t : jstr) (P : nat -> bool) (ok : state -> Prop) : Prop :=
  t <> [] /\ Promise J t P ok /\ (test false isSimple t = true -> Promise J (negated true t) (fun e => negb (P e)) ok).
Lemma winnow_ok t P ok l keep s : answers t P ok -> ok s -> Forall (fun e => is_element e = true) l ->
  yields (winnow l (From (Text t)) keep) s (fun r s' => r = filter (fun e => eqb (P e) keep = true) l /\ ok s').
Proof.
  intros (Ht & HP & Hn) Hs Hl. unfold winnow. destruct t as [|c t]; [done|]. rewrite (all_elements_kept l Hl).
  destruct (test false isSimple (c :: t)).
  - destruct keep; cbn [negb].
    + eapply yields_mono; [by apply (jq_filter_ok false (c :: t) P ok)|]. intros r s' [-> Hs']. split; [|done]. symmetry. apply keep_true.
    + eapply yields_mono; [apply (jq_filter_ok true (c :: t) (fun e => negb (P e)) ok); [by apply Hn|done|done]|]. intros r s' [-> Hs']. split; [|done].
      apply list_filter_iff. intros e. by destruct (P e).
  - eapply yields_bind; [by apply (jq_filter_ok false (c :: t) P ok)|]. intros r s' [-> Hs']. apply yields_ret. split; [|done]. apply grep_array.
Qed.
Lemma is_ok self t P ok s : answers t P ok -> test true needsContext t = false -> ok s -> Forall (fun e => is_element e = true) (nodes_of self) ->
  yields (is_ self (From (Text t))) s (fun r s' => r = existsb P (nodes_of self) /\ ok s').
Proof.
  intros (Ht & HP & _) Hc Hs Hl. unfold is_. destruct t as [|c t]; [done|]. rewrite Hc.
  eapply yields_bind; [by apply (jq_filter_ok false (c :: t) P ok)|]. intros r s' [-> Hs']. apply yields_ret. split; [|done].
  clear. induction (nodes_of self) as [|e l IH]; [done|]. rewrite filter_cons. cbn [existsb]. destruct (P e); [by rewrite decide_True|].
  by rewrite decide_False.
Qed.

(** ** Positions *)

Lemma rev_elements l : length (elements_of (rev l)) = length (elements_of l).
Proof.
  unfold elements_of. induction l as [|e l IH]; [done|]. cbn [rev]. rewrite filter_app, length_app, IH, !filter_cons, filter_nil.
  destruct (decide _); cbn; lia.
Qed.
Lemma place_of e p : is_element e = true -> parentNode e = Some p -> elements_of (childNodes p) !! length (before e) = Some e.
Proof.
  intros He Hp. unfold before. rewrite rev_elements. destruct (split_children e p Hp) as (l1 & l2 & Hs). pose proof (children_sorted p) as Hc.
  unfold siblings_of. rewrite Hp. rewrite Hs in Hc |- *. rewrite (filter_before _ _ _ Hc). unfold elements_of.
  rewrite filter_app, filter_cons, decide_True by done. by apply list_lookup_middle.
Qed.
Lemma eq_at self i n : nodes_of self !! i = Some n -> nodes_of (eq_ self (Z.of_nat i)) = [n].
Proof.
  intros H. pose proof (lookup_lt_Some _ _ _ H) as Hi. unfold eq_, js_len. cbn zeta. rewrite (proj2 (Z.ltb_ge (Z.of_nat i) 0)), Z.add_0_r by lia.
  rewrite (proj2 (Z.leb_le 0 (Z.of_nat i))), (proj2 (Z.ltb_lt (Z.of_nat i) _)) by lia. cbn [andb nodes_of pushStack]. by rewrite Nat2Z.id, H.
Qed.
Lemma index_place self e p s : head (nodes_of self) = Some e -> parentNode e = Some p -> index self None s = Some (s, Good (Z.of_nat (length (before e)))).
Proof.
  intros Hh Hp. unfold index, index_in_parent. destruct (nodes_of self) as [|n l]; [done|]. injection Hh as ->. rewrite Hp.
  destruct (beside_ok e) as [_ [Hb _]]. destruct (Hb no_stop (fun _ => false) (eq s) s (no_stop_stops s) eq_refl) as (r & s' & E & -> & <-).
  unfold bind. rewrite E. by rewrite until_never.
Qed.
Lemma inArray_place n l : n ∈ l -> exists i, inArray n l = Z.of_nat i /\ l !! i = Some n.
Proof.
  intros H. unfold inArray. destruct (list_find (eq n) l) as [[i x]|] eqn:E.
  - apply list_find_Some in E as (E & <- & _). by exists i.
  - rewrite list_find_None, Forall_forall in E. by destruct (E n H).
Qed.
End Closest.

(** * Sets of elements: properties

    The methods of the table give exactly the nodes that they are to reach, in order and
    each once ([traverse_exact]); closest finds the nearest_match ancestor ([closest_exact]);
    filter, not and is agree ([filter_not_is]); index and eq ([index_eq]). They hold with
    any engine that keeps its promise, and Sizzle keeps it. *)

Section Facts.
Context {D : Document} {L : DocumentLaws D} {Q : QueryLaws D} {B : Browser} {J : Engine}.

(** ** Each once *)

Lemma sorted_no_repeats (R : nat -> nat -> Prop) l : (forall a, ~ R a a) -> StronglySorted R l -> NoDup l.
Proof.
  intros HR. induction 1 as [|a l Hl IH Ha]; constructor; [|done]. rewrite Forall_forall in Ha. intros H%Ha. by apply (HR a).
Qed.
Lemma direction_no_repeats m l : StronglySorted (direction m) l -> NoDup l.
Proof. apply sorted_no_repeats. intros a. unfold direction. destruct (rparentsprev m); lia. Qed.
Lemma reaches_once stop m e e' x : guaranteedUnique m = true -> is_element e = true -> is_element e' = true ->
  reaches stop m e x -> reaches stop m e' x -> e = e'.
Proof.
  intros Hm He He'. assert (Hb : forall p q, beside p x -> beside q x -> beside p q) by (intros p q (a & ? & ?) (b & ? & ?); exists a; split; congruence).
  destruct m; try done; cbn [reaches].
  - intros [(Hx & Hex & Hlt) H1] [(_ & Hex' & Hlt') H2]. destruct (Nat.lt_trichotomy e e') as [Hee|[?|Hee]]; [|done|].
    + destruct (H1 e') as [?|?]; [split; [done|]; split; [by apply Hb|done]|lia|lia].
    + destruct (H2 e) as [?|?]; [split; [done|]; split; [by apply Hb|done]|lia|lia].
  - intros [(Hx & Hex & Hlt) H1] [(_ & Hex' & Hlt') H2]. destruct (Nat.lt_trichotomy e e') as [Hee|[?|Hee]]; [|done|].
    + destruct (H2 e) as [?|?]; [split; [done|]; split; [by apply Hb|done]|lia|lia].
    + destruct (H1 e') as [?|?]; [split; [done|]; split; [by apply Hb|done]|lia|lia].
  - intros [_ H1] [_ H2]. congruence.
  - intros H1 H2. congruence.
Qed.
Lemma elem_of_lists stop m l rs x : found_lists stop m l rs -> x ∈ concat rs <-> exists e, e ∈ l /\ reaches stop m e x.
Proof.
  induction 1 as [|e r l rs [_ Hr] _ IH]; cbn [concat].
  - rewrite elem_of_nil. split; [done|]. by intros (e & ?%elem_of_nil & _).
  - rewrite elem_of_app, Hr, IH. setoid_rewrite elem_of_cons. naive_solver.
Qed.
Lemma lists_no_repeats stop m l rs : guaranteedUnique m = true -> found_lists stop m l rs -> NoDup l -> Forall (fun e => is_element e = true) l -> NoDup (concat rs).
Proof.
  intros Hm. induction 1 as [|e r l rs [Hs Hr] Hl IH]; intros Hn He; [constructor|].
  apply NoDup_cons in Hn as [Hn1 Hn2]. apply Forall_cons in He as [He1 He2]. cbn [concat]. apply NoDup_app. split; [by eapply direction_no_repeats|].
  split; [|by apply IH]. intros x Hx Hc. apply (elem_of_lists _ _ _ _ _ Hl) in Hc as (e' & He' & Hx'). apply Hr in Hx.
  rewrite Forall_forall in He2. rewrite (reaches_once stop m e e' x) in Hn1; auto.
Qed.
Lemma unique_forward m : guaranteedUnique m = true -> rparentsprev m = false.
Proof. by destruct m. Qed.
(** ** The engine's part *)

(** The selector of a method: none, or one that the engine answers about, on elements. *)
Definition asked (stop : nat -> bool) (m : method) (l : list nat) (selector : option jstr) (P : nat -> bool) (ok : state -> Prop) : Prop :=
  match selector with
  | None => forall x, P x = true
  | Some t => t <> [] /\ Promise J t P ok /\ forall e x, e ∈ l -> reaches stop m e x -> is_element x = true
  end.
Lemma asked_ok stop m l rs selector P ok s : ok s -> asked stop m l selector P ok -> found_lists stop m l rs ->
  yields (match (Text <$> selector : option source) with
          | Some (Text ((_ :: _) as t)) => jq_filter t (concat rs) false
          | _ => ret (concat rs)
          end) s (fun r s' => r = filter (fun e => P e = true) (concat rs) /\ ok s').
Proof.
  intros Hs Ha Hl. destruct selector as [[|c t]|]; cbn in *; [by destruct Ha| |].
  - destruct Ha as (_ & HP & He). apply (jq_filter_ok false (c :: t) P ok); [done|done|]. apply Forall_forall. intros x Hx.
    apply (elem_of_lists _ _ _ _ _ Hl) in Hx as (e & H1 & H2). by eapply He.
  - apply yields_ret. split; [|done]. induction (concat rs) as [|x r IH]; [done|]. rewrite filter_cons, decide_True by apply Ha. by rewrite <- IH.
Qed.
(** The end of a method: none, or a selector without positions that the engine answers about. *)
Definition ended (until : option jstr) (stop : nat -> bool) (ok : state -> Prop) : Prop :=
  match until with
  | None => forall x, stop x = false
  | Some t => t <> [] /\ test true needsContext t = false /\ Promise J t stop ok
  end.
Lemma ended_ok until stop ok : ended until stop ok -> stops (stop_of (Text <$> until)) stop ok.
Proof.
  intros He n s Hn Hs. destruct until as [[|c t]|]; cbn [ended fmap option_fmap option_map stop_of] in *.
  - by destruct He.
  - destruct He as (_ & Ht & HP). unfold is_. rewrite Ht. cbn [nodes_of]. eapply yields_bind; [apply (jq_filter_ok false (c :: t) stop ok); [done|done|by constructor]|].
    intros r s' [-> Hs']. apply yields_ret. split; [|done]. rewrite filter_cons. by destruct (stop n).
  - apply yields_ret. by rewrite He.
Qed.
(** What is made of the nodes that were found. *)
Definition arranged (m : method) (self : jq) (l : list nat) : jq :=
  let several := 1 <? js_len self in
  let l := if several && negb (guaranteedUnique m) then uniqueSort l else l in
  pushStack self (if several && rparentsprev m then rev l else l).
Lemma arranged_sorted m self rs stop P : found_lists stop m (nodes_of self) rs -> guaranteedUnique m = false ->
  StronglySorted (direction m) (nodes_of (arranged m self (filter (fun e => P e = true) (concat rs)))).
Proof.
  intros Hrs Hm. unfold arranged. cbn zeta. cbn [nodes_of pushStack]. rewrite Hm. destruct (1 <? js_len self) eqn:E.
  - cbn [andb negb]. unfold direction. destruct (rparentsprev m); [apply rev_sorted|]; apply uniqueSort_sorted.
  - apply ordered_sublist. apply Z.ltb_ge in E. unfold js_len in E. destruct Hrs as [|e r ? ? [Hr _] [|]]; cbn in *; [constructor|by rewrite app_nil_r|lia].
Qed.
Lemma elem_of_arranged m self l x : x ∈ nodes_of (arranged m self l) <-> x ∈ l.
Proof.
  unfold arranged. cbn zeta. cbn [nodes_of pushStack].
  destruct (_ && rparentsprev m), (_ && negb _); rewrite ?rev_is_reverse, ?elem_of_reverse, ?elem_of_uniqueSort; done.
Qed.
Lemma arranged_no_repeats m self rs stop P : found_lists stop m (nodes_of self) rs -> NoDup (nodes_of self) ->
  Forall (fun e => is_element e = true) (nodes_of self) -> NoDup (nodes_of (arranged m self (filter (fun e => P e = true) (concat rs)))).
Proof.
  intros Hrs Hn He. destruct (guaranteedUnique m) eqn:Hg; [|by eapply direction_no_repeats, arranged_sorted].
  unfold arranged. cbn zeta. cbn [nodes_of pushStack]. rewrite Hg, (unique_forward m Hg), !andb_false_r. apply NoDup_filter. by eapply lists_no_repeats.
Qed.
Lemma some_kept (P : nat -> bool) (l : list nat) : negb (bool_decide (filter (fun e => P e = true) l = [])) = existsb P l.
Proof.
  induction l as [|e l IH]; [done|]. rewrite filter_cons. cbn [existsb]. destruct (P e); [by rewrite decide_True|]. by rewrite decide_False.
Qed.
End Facts.

(** ** Along parents and siblings *)

(** C11. Where the engine answers about the selector of a method of the table, and about the
    selector of its end, element by element ([Promise]; Sizzle does for selectors without
    :not, :has and positions, [sizzle_promise], and not always for :has), where the end has
    no positions and contents meets no frames: the method gives exactly the nodes that it
    reaches from the nodes of the set, up to its end if it has one, and that its selector
    holds of. None is missing, and they are in document order, or in reverse order for
    parents, prevAll and the like, unless the method is one of those whose results are not
    sorted; from a set of elements, each once, come results that are each once. The set it
    came from is kept for end. *)
Theorem traverse_exact (D : Document) (L : DocumentLaws D) (Q : QueryLaws D) (B : Browser) (J : Engine) m self until stop selector P ok s :
  Forall (fun e => (e < size)%nat /\ frameless m e) (nodes_of self) -> ok s -> ended until stop ok -> asked stop m (nodes_of self) selector P ok ->
  exists r s', (if runtil m then traverse m self (Text <$> until) (Text <$> selector) else traverse m self (Text <$> selector) None) s = Some (s', Good r) /\
    ok s' /\ end_ r = self /\
    (forall x, x ∈ nodes_of r <-> P x = true /\ exists e, e ∈ nodes_of self /\ reaches stop m e x) /\
    (guaranteedUnique m = false -> StronglySorted (direction m) (nodes_of r)) /\
    (NoDup (nodes_of self) -> Forall (fun e => is_element e = true) (nodes_of self) -> NoDup (nodes_of r)).
Proof.
  intros Hl Hs Hu Ha.
  assert (E : yields (if runtil m then traverse m self (Text <$> until) (Text <$> selector) else traverse m self (Text <$> selector) None) s
    (fun r s' => (exists rs, found_lists stop m (nodes_of self) rs /\ r = arranged m self (filter (fun e => P e = true) (concat rs))) /\ ok s')).
  { unfold traverse. destruct (runtil m) eqn:Hm; (eapply yields_bind; [apply (map_method_ok m _ stop ok); [|done|done]|]).
    - intros _. by apply ended_ok.
    - intros l s1 [(rs & -> & Hrs) Hs1]. eapply yields_bind; [by eapply asked_ok|]. intros l s2 [-> Hs2]. apply yields_ret. split; [by exists rs|done].
    - by rewrite Hm.
    - intros l s1 [(rs & -> & Hrs) Hs1]. eapply yields_bind; [by eapply asked_ok|]. intros l s2 [-> Hs2]. apply yields_ret. split; [by exists rs|done]. }
  destruct E as (r & s' & E & (rs & Hrs & ->) & Hs'). eexists _, s'. split; [exact E|]. split; [done|]. split; [done|].
  split; [|split; [by apply (arranged_sorted m self rs stop)|by apply (arranged_no_repeats m self rs stop)]].
  intros x. by rewrite elem_of_arranged, list_elem_of_filter, (elem_of_lists _ _ _ _ _ Hrs).
Qed.
Lemma start_settled {D : Document} selector groups : settled selector groups state0.
Proof. split; [apply visited_tidy, visited_start|]. done. Qed.
(** Sizzle, of the page, about the name of an element. *)
Lemma sizzle_about_body : @Promise (small page1 no_qsa) (@sizzle_engine (small page1 no_qsa) plain_browser 1) (u "body")
  (@any_holds (small page1 no_qsa) 0 [[Filter (u "body") (TAG (u "body"))]]) (@settled (small page1 no_qsa) (u "body") [[Filter (u "body") (TAG (u "body"))]]).
Proof.
  apply (@sizzle_keeps_promise (small page1 no_qsa) (small_laws page1 no_qsa page1_ok) (small_queries page1 no_qsa page1_ok) plain_browser 0 (u "body")
    [[Filter (u "body") (TAG (u "body"))]]); [done|done|by repeat constructor|done|done|done].
Qed.
Lemma traverse_exact_witness : exists r s',
  @traverse (small page1 no_qsa) plain_browser (@sizzle_engine (small page1 no_qsa) plain_browser 1) parentsUntil (start [9; 5]%nat) (Some (Text (u "body"))) None state0 =
    Some (s', Good r) /\ StronglySorted gt (nodes_of r) /\ nodes_of r = [8; 7; 3]%nat.
Proof.
  destruct (traverse_exact (small page1 no_qsa) (small_laws page1 no_qsa page1_ok) (small_queries page1 no_qsa page1_ok) plain_browser
    (@sizzle_engine (small page1 no_qsa) plain_browser 1) parentsUntil (start [9; 5]%nat) (Some (u "body"))
    (@any_holds (small page1 no_qsa) 0 [[Filter (u "body") (TAG (u "body"))]]) None (fun _ => true)
    (@settled (small page1 no_qsa) (u "body") [[Filter (u "body") (TAG (u "body"))]]) state0) as (r & s' & E & _ & _ & Hr & Hs & _).
  - repeat constructor; try (cbn; lia); done.
  - apply start_settled.
  - split; [done|]. split; [vm_compute; reflexivity|]. apply sizzle_about_body.
  - done.
  - exists r, s'. split; [exact E|]. split; [by apply Hs|]. vm_compute in E. by injection E as <- <-.
Defined.

(** ** The nearest_match ancestor *)

(** C12. closest of a selector without positions, about which the engine answers element by
    element, gives exactly the nodes that are, for an element of the set, the first among it
    and its ancestors, below the context, that the selector holds of; each once and in
    document order. *)
Theorem closest_exact (D : Document) (L : DocumentLaws D) (Q : QueryLaws D) (B : Browser) (J : Engine) self t context P ok s :
  test true needsContext t = false -> Promise J t P ok -> ok s -> Forall (fun e => is_element e = true) (nodes_of self) ->
  exists r s', closest self (Text t) context s = Some (s', Good r) /\ ok s' /\ end_ r = self /\ StronglySorted lt (nodes_of r) /\
    forall x, x ∈ nodes_of r <-> exists e, e ∈ nodes_of self /\ nearest_match P context e x.
Proof.
  intros Ht HP Hs Hl. unfold closest. cbn zeta iota beta. rewrite Ht.
  destruct (closest_each_ok t P ok context (nodes_of self) s Hl Hs) as (r & s' & E & Hr & Hs').
  eexists _, s'. split; [unfold bind at 1, ret at 1; cbn iota beta; unfold bind at 1; rewrite E; reflexivity|]. split; [done|]. split; [done|].
  cbn [nodes_of pushStack]. destruct (Nat.ltb_spec 1 (length r)) as [Hlen|Hlen].
  - split; [apply uniqueSort_sorted|]. intros x. rewrite elem_of_uniqueSort. apply Hr.
  - split; [|exact Hr]. destruct r as [|x [|y r]]; [constructor|by repeat constructor|cbn in Hlen; lia].
Qed.
Lemma closest_exact_witness : exists r s',
  @closest (small page1 no_qsa) plain_browser (@sizzle_engine (small page1 no_qsa) plain_browser 1) (start [9; 5; 1]%nat) (Text (u "body")) (Some 3%nat) state0 =
    Some (s', Good r) /\ nodes_of r = [2]%nat /\ StronglySorted lt (nodes_of r).
Proof.
  destruct (closest_exact (small page1 no_qsa) (small_laws page1 no_qsa page1_ok) (small_queries page1 no_qsa page1_ok) plain_browser
    (@sizzle_engine (small page1 no_qsa) plain_browser 1) (start [9; 5; 1]%nat) (u "body") (Some 3%nat)
    (@any_holds (small page1 no_qsa) 0 [[Filter (u "body") (TAG (u "body"))]])
    (@settled (small page1 no_qsa) (u "body") [[Filter (u "body") (TAG (u "body"))]]) state0) as (r & s' & E & _ & _ & Hr & _).
  - vm_compute. reflexivity.
  - apply sizzle_about_body.
  - apply start_settled.
  - repeat constructor.
  - exists r, s'. split; [exact E|]. split; [vm_compute in E; by injection E as <- <-|exact Hr].
Defined.

(** ** filter, not and is *)

(** On a set of elements filter keeps those that the selector holds of, not keeps the
    others, both in the order of the set, and is says whether filter would keep any; the
    set that they came from is kept. *)
Theorem filter_not_is (D : Document) (L : DocumentLaws D) (Q : QueryLaws D) (B : Browser) (J : Engine) self t P ok s :
  answers t P ok -> test true needsContext t = false -> ok s -> Forall (fun e => is_element e = true) (nodes_of self) ->
  exists s1 s2 s3,
    filter_ self (From (Text t)) s = Some (s1, Good (pushStack self (filter (fun e => P e = true) (nodes_of self)))) /\
    not_ self (From (Text t)) s1 = Some (s2, Good (pushStack self (filter (fun e => P e = false) (nodes_of self)))) /\
    is_ self (From (Text t)) s2 = Some (s3, Good (negb (bool_decide (filter (fun e => P e = true) (nodes_of self) = [])))) /\ ok s3.
Proof.
  intros Ha Ht Hs Hl. destruct (winnow_ok t P ok (nodes_of self) true s Ha Hs Hl) as (r1 & s1 & E1 & -> & Hs1).
  destruct (winnow_ok t P ok (nodes_of self) false s1 Ha Hs1 Hl) as (r2 & s2 & E2 & -> & Hs2).
  destruct (is_ok self t P ok s2 Ha Ht Hs2 Hl) as (b & s3 & E3 & -> & Hs3). exists s1, s2, s3.
  split; [|split; [|split; [|done]]].
  - unfold filter_, bind. rewrite E1. by rewrite keep_true.
  - unfold not_, bind. rewrite E2. by rewrite keep_false.
  - rewrite E3. repeat f_equal. symmetry. apply some_kept.
Qed.

Definition p_y : list (list token) := [[Filter (u "p") (TAG (u "p")); Filter (u ".y") (CLASS (u "y"))]].
Lemma filter_not_is_witness : exists s1 s2,
  @filter_ (small page1 no_qsa) (@sizzle_engine (small page1 no_qsa) plain_browser 1) (start [8; 6; 4; 8]%nat) (From (Text (u "p.y"))) state0 =
    Some (s1, Good (pushStack (start [8; 6; 4; 8]%nat) [8; 8]%nat)) /\
  @not_ (small page1 no_qsa) (@sizzle_engine (small page1 no_qsa) plain_browser 1) (start [8; 6; 4; 8]%nat) (From (Text (u "p.y"))) s1 =
    Some (s2, Good (pushStack (start [8; 6; 4; 8]%nat) [6; 4]%nat)).
Proof.
  destruct (filter_not_is (small page1 no_qsa) (small_laws page1 no_qsa page1_ok) (small_queries page1 no_qsa page1_ok) plain_browser
    (@sizzle_engine (small page1 no_qsa) plain_browser 1) (start [8; 6; 4; 8]%nat) (u "p.y") (@any_holds (small page1 no_qsa) 0 p_y)
    (@settled (small page1 no_qsa) (u "p.y") p_y) state0) as (s1 & s2 & s3 & E1 & E2 & _).
  - split; [done|]. split; [|intros H; vm_compute in H; discriminate H].
    apply (@sizzle_keeps_promise (small page1 no_qsa) (small_laws page1 no_qsa page1_ok) (small_queries page1 no_qsa page1_ok) plain_browser 0 (u "p.y") p_y);
      [done|done|by repeat constructor|intros cached; vm_compute; reflexivity|vm_compute; reflexivity|done].
  - vm_compute. reflexivity.
  - apply start_settled.
  - repeat constructor.
  - exists s1, s2. split; [exact E1|exact E2].
Defined.

(** ** Positions *)

(** index without an argument is the position of the first node among the children of
    its parent: eq of the children at that position is the node; and index of a node of a
    set is a position where eq finds it, or -1 for a node that is not in the set. *)
Theorem index_eq (D : Document) (L : DocumentLaws D) (Q : QueryLaws D) (B : Browser) (J : Engine) self e p s :
  head (nodes_of self) = Some e -> is_element e = true -> parentNode e = Some p ->
  (exists i r, index self None s = Some (s, Good i) /\ traverse children (start [p]) None None s = Some (s, Good r) /\ nodes_of (eq_ r i) = [e]) /\
  (forall n, exists i, index self (Some (Single n)) s = Some (s, Good i) /\
    if decide (n ∈ nodes_of self) then nodes_of (eq_ self i) = [n] else i = -1).
Proof.
  intros Hh He Hp. split.
  - pose proof (place_of e p He Hp) as H. eexists _, _. split; [by apply (index_place self e p)|].
    pose proof (sibling_list_ok p None s) as E'.
    split; [unfold traverse; cbn [map_method run_method nodes_of start]; unfold bind; rewrite E'; reflexivity|]. apply eq_at. cbn [nodes_of pushStack]. cbn [js_len start nodes_of length].
    rewrite app_nil_r. rewrite <- H. unfold elements_of. f_equal. apply list_filter_iff. intros x. cbn. by rewrite andb_true_r.
  - intros n. eexists. split; [done|]. case_decide as Hn.
    + destruct (inArray_place n _ Hn) as (i & -> & Hi). by apply eq_at.
    + unfold inArray. destruct (list_find (eq n) (nodes_of self)) as [[i x]|] eqn:E; [|done].
      apply list_find_Some in E as (E & <- & _). by apply list_elem_of_lookup_2 in E.
Qed.
Lemma index_eq_witness : exists i r,
  @index (small page1 no_qsa) plain_browser (@sizzle_engine (small page1 no_qsa) plain_browser 1) (start [13; 5]%nat) None state0 = Some (state0, Good i) /\
  @traverse (small page1 no_qsa) plain_browser (@sizzle_engine (small page1 no_qsa) plain_browser 1) children (start [10]%nat) None None state0 = Some (state0, Good r) /\
  nodes_of (eq_ r i) = [13]%nat.
Proof.
  apply (index_eq (small page1 no_qsa) (small_laws page1 no_qsa page1_ok) (small_queries page1 no_qsa page1_ok) plain_browser
    (@sizzle_engine (small page1 no_qsa) plain_browser 1) (start [13; 5]%nat) 13 10 state0); reflexivity.
Defined.

(** ** Two elements and a text *)

#[local] Existing Instance plain_browser.

(** next from an element and the text after it: the element that follows is found twice. *)
Theorem next_repeats :
  on_page1 (fun D E => o <- traverse next (start [11; 12]%nat) None None;; ret (nodes_of o)) = Some [13; 13]%nat /\
  guaranteedUnique next = true.
Proof. vm_compute. done. Qed.
(** is of an empty set is true for a selector with a position where the document's root
    element has a position: index then has no argument. *)
Theorem empty_set_is :
  on_page1 (fun D E => is_ (start []) (From (Text (u "html:first")))) = Some true /\
  on_page1 (fun D E => is_ (start []) (From (Text (u "html")))) = Some false.
Proof. vm_compute. done. Qed.
(** not drops a text for a simple selector and keeps it for another. *)
Theorem not_and_texts :
  on_page1 (fun D E => o <- not_ (start [11; 12]%nat) (From (Text (u "p")));; ret (nodes_of o)) = Some [11]%nat /\
  on_page1 (fun D E => o <- not_ (start [11; 12]%nat) (From (Text (u "p.y")));; ret (nodes_of o)) = Some [11; 12]%nat.
Proof. vm_compute. done. Qed.
