(* ===== verification/DataCache.v ===== *)
(** * [html/resource/js/jquery.js]: data of elements and objects

    [internalData] and [internalRemoveData] on the store that all elements share: the
    numbers that elements carry, the table with an object for each number, and the numbers
    that are free again. An object holds what the library keeps for itself and, in [public],
    what the page keeps. *)

From Stdlib Require Import ZArith Lia.
From stdpp Require Import base tactics list numbers strings gmap.
From S2P Require Import Prelude JsValue Md5 ValidPage Deferred Event.
Local Open Scope Z_scope.

(** What the browser says of its nodes. *)
Class Nodes := {
  node_type : nat -> Z;
  node_name : nat -> jstr;                          (* nodeName.toLowerCase(); empty if there is none *)
  classid : nat -> option jstr;
  parse_json : jstr -> option value                 (* JSON.parse; [None]: it throws *)
}.

(** ** Names *)

Definition is_alnum (c : Z) : bool := (48 <=? c) && (c <=? 57) || (65 <=? c) && (c <=? 90) || (97 <=? c) && (c <=? 122).
Definition upper (c : Z) : Z := if (97 <=? c) && (c <=? 122) then c - 32 else c.
(** [string.replace( rdashAlpha, fcamelCase )] *)
Fixpoint camelize (s : jstr) : jstr :=
  match s with
  | [] => []
  | c :: t =>
      match t with
      | d :: t' => if (c =? 45) && is_alnum d then upper d :: camelize t' else c :: camelize t
      | [] => [c]
      end
  end.
Definition camelCase (s : jstr) : jstr := camelize (if prefix_b (u "-ms-") s then u "ms-" ++ drop 4 s else s).

#[global] Arguments camelCase : simpl never.

(** ** The store *)

Record data_entry := Entry { public : option (gmap jstr value); private : gmap jstr value }.
(** A DOM node, or an object of the page. *)
Inductive holder := Node (n : nat) | Plain (o : nat).
#[export] Instance holder_eq_dec : EqDecision holder.
Proof. solve_decision. Defined.
Record store := Store {
  expandos : gmap nat Z;            (* elem[ jQuery.expando ] *)
  cache : gmap Z data_entry;             (* jQuery.cache *)
  deletedIds : list Z;
  guid : Z;
  own : gmap nat data_entry;             (* the data that an object has itself *)
  unlistened : list (nat * jstr)    (* the types that were taken from the browser *)
}.
Definition store0 : store := Store ∅ ∅ [] 1 ∅ [].

Definition undefined (v : value) : bool := match v with Prim PUndef => true | _ => false end.
Definition null_or_undefined (v : value) : bool := match v with Prim PUndef | Prim PNull => true | _ => false end.
(** [jQuery.noop] *)
Definition noop : value := SomeObject.

Definition entry_of (e : holder) (s : store) : option data_entry :=
  match e with
  | Node n => match expandos s !! n with Some id => cache s !! id | None => None end
  | Plain o => own s !! o
  end.
Definition put_entry (e : holder) (c : data_entry) (s : store) : store :=
  match e with
  | Node n => match expandos s !! n with
              | Some id => Store (expandos s) (<[id := c]> (cache s)) (deletedIds s) (guid s) (own s) (unlistened s)
              | None => s
              end
  | Plain o => Store (expandos s) (cache s) (deletedIds s) (guid s) (<[o := c]> (own s)) (unlistened s)
  end.
Definition isEmptyDataObject (c : data_entry) : bool :=
  match public c with Some m => bool_decide (m = ∅) | None => true end && bool_decide (delete (u "toJSON") (private c) = ∅).
(** [core_deletedIds.pop() || jQuery.guid++] *)
Definition new_id (s : store) : Z * store :=
  match last (deletedIds s) with
  | Some id => (id, Store (expandos s) (cache s) (removelast (deletedIds s)) (guid s) (own s) (unlistened s))
  | None => (guid s, Store (expandos s) (cache s) (deletedIds s) (guid s + 1) (own s) (unlistened s))
  end.
Definition with_id (e : holder) (s : store) : store :=
  match e with
  | Plain _ => s
  | Node n =>
      match expandos s !! n with
      | Some _ => s
      | None => let '(id, s) := new_id s in
                Store (<[n := id]> (expandos s)) (cache s) (deletedIds s) (guid s) (own s) (unlistened s)
      end
  end.
Definition new_entry (e : holder) : data_entry :=
  Entry None (match e with Node _ => ∅ | Plain _ => {[ u "toJSON" := noop ]} end).
(** An entry for the element, if it has none. *)
Definition ensure (e : holder) (s : store) : store :=
  let s := with_id e s in
  match entry_of e s with Some _ => s | None => put_entry e (new_entry e) s end.

Section Data.
Context {N : Nodes}.

Definition noData : list jstr := [u "embed"; u "object"; u "applet"].
Definition acceptData (e : holder) : bool :=
  match e with
  | Plain _ => true
  | Node n =>
      if negb (bool_decide (node_type n ∈ [1; 9])) then false
      else if bool_decide (node_name n ∈ noData)
           then js_eqb (node_name n) (u "object") && bool_decide (classid n = Some (u "clsid:D27CDB6E-AE6D-11cf-96B8-444553540000"))
           else true
  end.

(** ** Reading and writing *)

(** The argument [name]: nothing, a name, or an object. *)
Inductive name_arg := NoKey | Key (k : jstr) | Props (l : list (jstr * value)).
(** What comes back: a value, or the object that holds the data. *)
Inductive data_answer := Value (v : value) | Whole (pvt : bool).
(** [jQuery.extend(target, props)] *)
Definition extend_with (l : list (jstr * value)) (m : gmap jstr value) : gmap jstr value :=
  fold_left (fun m p => if undefined p.2 then m else <[p.1 := p.2]> m) l m.
Definition part_of (pvt : bool) (c : data_entry) : gmap jstr value := if pvt then private c else default ∅ (public c).
Definition with_part (pvt : bool) (m : gmap jstr value) (c : data_entry) : data_entry :=
  if pvt then Entry (public c) m else Entry (Some m) (private c).
Definition read_key (k : jstr) (m : gmap jstr value) : value :=
  let ret := default undef (m !! k) in if null_or_undefined ret then default undef (m !! camelCase k) else ret.
Definition internalData (e : holder) (name : name_arg) (data : value) (pvt : bool) (s : store) : store * result data_answer :=
  if negb (acceptData e) then (s, Ok (Value undef))
  else
    let known := match entry_of e s with Some c => pvt || match public c with Some _ => true | None => false end | None => false end in
    let getByName := match name with Key _ => true | _ => false end in
    if negb known && getByName && undefined data then (s, Ok (Value undef))
    else
      let s := ensure e s in
      let c := default (new_entry e) (entry_of e s) in
      let m := part_of pvt c in
      let m := match name with Props l => extend_with l m | _ => m end in
      let s := put_entry e (with_part pvt m c) s in
      match name with
      | Key k =>
          let m := if undefined data then m else <[camelCase k := data]> m in
          (put_entry e (with_part pvt m c) s, Ok (Value (read_key k m)))
      | _ => (s, if undefined data then Ok (Whole pvt) else Thrown)
      end.

(** ** Removing *)

(** The object [events] of an element: its types with the original types of their handlers. *)
Definition text_of (v : value) : jstr := match v with Prim (PStr t) => t | _ => [] end.
Definition items (v : value) : list value := match v with Arr l => l | _ => [] end.
Definition event_type (v : value) : jstr := text_of (default undef (head (items v))).
Definition events_of_type (type : jstr) (origs : list value) : value := Arr [Prim (PStr type); Arr origs].
Definition origs_of (v : value) : list value := items (default undef (items v !! 1%nat)).
(** The types in [jQuery.event.special], of a browser in which focusin does not bubble. *)
Definition special_types : list jstr :=
  map u ["load"; "click"; "focus"; "blur"; "beforeunload"; "mouseenter"; "mouseleave"; "focusin"; "focusout"]%string.
(** What [jQuery.event.remove(elem, type)] leaves, and the types that the browser has no
    handlers of any more. *)
Fixpoint events_without (type : jstr) (l : list value) : list value * list jstr :=
  match l with
  | [] => ([], [])
  | v :: l =>
      let '(rest, gone) := events_without type l in
      if js_eqb (event_type v) (default type (bindType type)) then
        let origs := filter (fun o => text_of o <> type) (origs_of v) in
        if bool_decide (origs = []) && negb (bool_decide (origs_of v = [])) then (rest, event_type v :: gone)
        else (events_of_type (event_type v) origs :: rest, gone)
      else (v :: rest, gone)
  end.
Definition record_unlistened (n : nat) (types : list jstr) (s : store) : store :=
  Store (expandos s) (cache s) (deletedIds s) (guid s) (own s) (unlistened s ++ map (pair n) types).
(** The end of [cleanData] for one element. *)
Definition drop_node (n : nat) (s : store) : store :=
  match expandos s !! n with
  | Some id => match cache s !! id with
               | Some _ => Store (delete n (expandos s)) (delete id (cache s)) (deletedIds s ++ [id]) (guid s) (own s) (unlistened s)
               | None => s
               end
  | None => s
  end.
Definition drop_entry (e : holder) (s : store) : store :=
  match e with
  | Node n => drop_node n s
  | Plain o => Store (expandos s) (cache s) (deletedIds s) (guid s) (delete o (own s)) (unlistened s)
  end.
Definition event_remove_type (n : nat) (type : jstr) (s : store) : store :=
  match entry_of (Node n) s with
  | Some c =>
      match private c !! u "events" with
      | Some v =>
          if isEmptyDataObject c then s else
          let '(now, gone) := events_without type (items v) in
          let s := record_unlistened n gone s in
          if bool_decide (now = []) then
            let c := Entry (public c) (delete (u "events") (delete (u "handle") (private c))) in
            let s := put_entry (Node n) c s in
            if isEmptyDataObject c then drop_node n s else s
          else put_entry (Node n) (Entry (public c) (<[u "events" := Arr now]> (private c))) s
      | None => s
      end
  | None => s
  end.
Definition clean_types (n : nat) (types : list jstr) (s : store) : store :=
  fold_left (fun s type => if bool_decide (type ∈ special_types) then event_remove_type n type s
                           else record_unlistened n [type] s) types s.
(** [jQuery.cleanData(elems, acceptData)] *)
Definition clean_node (accept : bool) (n : nat) (s : store) : store :=
  if accept || acceptData (Node n) then
    match entry_of (Node n) s with
    | Some c =>
        let s := match private c !! u "events" with
                 | Some v => clean_types n (map event_type (items v)) s
                 | None => s
                 end in
        drop_node n s
    | None => s
    end
  else s.
Definition cleanData (elems : list nat) (accept : bool) (s : store) : store := fold_left (fun s n => clean_node accept n s) elems s.

(** The argument of the removal: nothing, a name or names separated by spaces, or an array of names. *)
Inductive rkey := RAll | RKey (k : jstr) | RKeys (l : list jstr).
Definition in_map (k : jstr) (m : gmap jstr value) : bool := match m !! k with Some _ => true | None => false end.
Definition removed_keys (r : rkey) (m : gmap jstr value) : list jstr :=
  match r with
  | RAll => []
  | RKey k => if in_map k m then [k] else if in_map (camelCase k) m then [camelCase k] else split_on 32 (camelCase k)
  | RKeys l => l ++ map camelCase l
  end.
Definition delete_keys (l : list jstr) (m : gmap jstr value) : gmap jstr value := fold_left (fun m k => delete k m) l m.
Definition destroy (e : holder) (s : store) : store :=
  match e with Node n => cleanData [n] true s | Plain _ => drop_entry e s end.
Definition internalRemoveData (e : holder) (name : rkey) (pvt : bool) (s : store) : store :=
  if negb (acceptData e) then s
  else match entry_of e s with
  | None => s
  | Some c =>
      (* the end: without the public data, and without the entry *)
      let rest c :=
        if pvt then destroy e (put_entry e c s)
        else let c := Entry None (private c) in
             if isEmptyDataObject c then destroy e (put_entry e c s) else put_entry e c s in
      let named := match name with RAll | RKey [] => false | _ => true end in
      match (if named then (if pvt then Some (private c) else public c) else None) with
      | None => rest c
      | Some m =>
          let c := with_part pvt (delete_keys (removed_keys name m) m) c in
          if (if pvt then isEmptyDataObject c else bool_decide (part_of false c = ∅)) then rest c else put_entry e c s
      end
  end.
Definition hasData (e : holder) (s : store) : bool := match entry_of e s with Some c => negb (isEmptyDataObject c) | None => false end.

(** ** data-* attributes *)

Definition is_upper (c : Z) : bool := (65 <=? c) && (c <=? 90).
(** [key.replace( rmultiDash, "-$1" ).toLowerCase()] *)
Definition dashed (k : jstr) : jstr := to_lower (flat_map (fun c => if is_upper c then [45; c] else [c]) k).
(** [rbrace.test( data )] *)
Definition ends_braced (t : jstr) : bool :=
  match last t with
  | Some 125 => bool_decide (123 ∈ removelast t)
  | Some 93 => bool_decide (91 ∈ removelast t)
  | _ => false
  end.
Definition attribute_value (t : jstr) : value :=
  if js_eqb t (u "true") then Prim (PBool true)
  else if js_eqb t (u "false") then Prim (PBool false)
  else if js_eqb t (u "null") then Prim PNull
  else if js_eqb (num_to_str (str_to_num t)) t then Prim (PNum (str_to_num t))
  else if ends_braced t then default (Prim (PStr t)) (parse_json t)
  else Prim (PStr t).
(** [attrs]: the attributes that the element has now. *)
Definition dataAttr (e : holder) (attrs : list (jstr * jstr)) (k : jstr) (data : value) (s : store) : store * value :=
  match e with
  | Node n =>
      if undefined data && (node_type n =? 1) then
        match assoc (u "data-" ++ dashed k) attrs with
        | Some t => let v := attribute_value t in (fst (internalData e (Key k) v false s), v)
        | None => (s, undef)
        end
      else (s, data)
  | Plain _ => (s, data)
  end.

(** ** The methods of sets *)

Definition value_of (r : result data_answer) : value := match r with Ok (Value v) => v | _ => undef end.
(** [data(key)] *)
Definition data_get (elems : list holder) (attrs : list (jstr * jstr)) (k : jstr) (s : store) : store * value :=
  match elems with
  | [] => (s, Prim PNull)
  | e :: _ => let '(s, r) := internalData e (Key k) undef false s in dataAttr e attrs k (value_of r) s
  end.
(** [data(key, value)] and [data(object)] *)
Definition data_set (elems : list holder) (name : name_arg) (v : value) (s : store) : store :=
  match name with
  | Key _ => if undefined v then s else fold_left (fun s e => fst (internalData e name v false s)) elems s
  | _ => fold_left (fun s e => fst (internalData e name undef false s)) elems s
  end.
(** [data()]: afterwards the data of the first element is complete. *)
Fixpoint parse_attributes (e : holder) (attrs l : list (jstr * jstr)) (s : store) : store * result unit :=
  match l with
  | [] => (s, Ok tt)
  | (name, _) :: l =>
      if prefix_b (u "data-") name then
        match entry_of e s with
        | Some c =>
            let k := camelCase (drop 5 name) in
            parse_attributes e attrs l (fst (dataAttr e attrs k (default undef (part_of false c !! k)) s))
        | None => (s, Thrown)
        end
      else parse_attributes e attrs l s
  end.
Definition data_all (elems : list holder) (attrs : list (jstr * jstr)) (s : store) : store * result unit :=
  match elems with
  | [] => (s, Ok tt)
  | e :: _ =>
      let s := fst (internalData e NoKey undef false s) in
      match e with
      | Node n =>
          let '(s, r) := internalData e (Key (u "parsedAttrs")) undef true s in
          if (node_type n =? 1) && negb (match value_of r with Prim p => truthy p | _ => true end) then
            match parse_attributes e attrs attrs s with
            | (s, Ok _) => (fst (internalData e (Key (u "parsedAttrs")) (Prim (PBool true)) true s), Ok tt)
            | r => r
            end
          else (s, Ok tt)
      | Plain _ => (s, Ok tt)
      end
  end.
Definition data_remove (elems : list holder) (name : rkey) (s : store) : store :=
  fold_left (fun s e => internalRemoveData e name false s) elems s.
End Data.

(** ** Examples *)

#[local] Instance page_nodes : Nodes := {|
  node_type n := if (n =? 9)%nat then 3 else 1; node_name n := if (n =? 8)%nat then u "embed" else u "div"; classid _ := None;
  parse_json _ := None |}.
Definition text_value (t : string) : value := Prim (PStr (u t)).
Example data_ex :
  let s := data_set [Node 1; Node 2; Node 9] (Key (u "foo-bar")) (text_value "x") store0 in
  (data_get [Node 1] [] (u "fooBar") s).2 = text_value "x" /\ (data_get [Node 2] [] (u "foo-bar") s).2 = text_value "x" /\
  (data_get [Node 9] [] (u "fooBar") s).2 = undef /\ expandos s !! 2%nat = Some 2 /\
  (let s := data_remove [Node 1] (RKey (u "foo-bar")) s in
   expandos s !! 1%nat = None /\ deletedIds s = [1] /\ (data_get [Node 2] [] (u "fooBar") s).2 = text_value "x" /\
   expandos (data_set [Node 5] (Key (u "a")) (text_value "y") s) !! 5%nat = Some 1) /\
  (data_get [Node 1] [(u "data-max-width", u "12"); (u "data-on", u "true"); (u "data-x", u "012")] (u "maxWidth") store0).2 = Prim (PNum (of_Z 12)) /\
  (data_get [Node 1] [(u "data-x", u "012")] (u "x") store0).2 = text_value "012" /\
  (data_all [Node 8] [(u "data-x", u "1")] store0).2 = Thrown.
Proof. vm_compute. repeat split. Qed.
