(* ===== verification/DataProps.v ===== *)
(** * Data: facts and properties

    [sound]: the numbers of the elements are different and none of them is free. With
    that, the operations on the shared store are operations on the element's own object
    ([data_spec], [remove_spec], [clean_spec]), and leave all other elements alone. So the
    store does what one object for each element does ([data_store_refines]). *)

From Stdlib Require Import ZArith Lia.
From stdpp Require Import base tactics list numbers strings gmap.
From S2P Require Import Prelude JsValue ValidPage Deferred Event DataCache.
Local Open Scope Z_scope.

Record sound (s : store) : Prop := {
  s_guid : 0 < guid s;
  s_used n id : expandos s !! n = Some id -> 0 < id < guid s /\ is_Some (cache s !! id);
  s_one n n' id : expandos s !! n = Some id -> expandos s !! n' = Some id -> n = n';
  s_cached id : is_Some (cache s !! id) -> exists n, expandos s !! n = Some id;
  s_distinct : NoDup (deletedIds s);
  s_free id : id ∈ deletedIds s -> 0 < id < guid s /\ cache s !! id = None
}.
Lemma sound0 : sound store0.
Proof.
  split; cbn.
  - done.
  - intros n id H. by rewrite lookup_empty in H.
  - intros n n' id H. by rewrite lookup_empty in H.
  - intros id H. rewrite lookup_empty in H. by destruct H.
  - constructor.
  - intros id H. by apply elem_of_nil in H.
Qed.

(** [s'] has [o] for the element and everything else as in [s]. *)
Definition becomes (e : holder) (o : option data_entry) (s s' : store) : Prop :=
  sound s' /\ entry_of e s' = o /\ forall e', e' <> e -> entry_of e' s' = entry_of e' s.
Lemma becomes_then e o1 o2 s s1 s2 : becomes e o1 s s1 -> becomes e o2 s1 s2 -> becomes e o2 s s2.
Proof. intros (_ & _ & H1) (H2 & H3 & H4). split; [done|]. split; [done|]. intros e' He. by rewrite H4, H1. Qed.
Lemma becomes_same e s : sound s -> becomes e (entry_of e s) s s.
Proof. by split. Qed.
(** Changes of the listeners only. *)
Lemma becomes_record n types e s : sound s -> becomes e (entry_of e s) s (record_unlistened n types s).
Proof.
  intros [H0 H1 H2 H3 H4 H5]. split; [split; assumption|]. split; [by destruct e|]. intros e' _. by destruct e'.
Qed.

Lemma entry_id n c s : entry_of (Node n) s = Some c -> exists id, expandos s !! n = Some id /\ cache s !! id = Some c.
Proof. cbn. destruct (expandos s !! n) as [id|]; [|done]. intros H. by exists id. Qed.
Lemma put_becomes e c s : sound s -> is_Some (entry_of e s) -> becomes e (Some c) s (put_entry e c s).
Proof.
  intros S [c0 Hc]. destruct e as [n|o].
  - apply entry_id in Hc as (id & Hn & Hid). cbn [put_entry]. rewrite Hn. destruct S as [H0 H1 H2 H3 H4 H5]. split.
    + split; cbn; try done.
      * intros n' id' Hn'. destruct (H1 n' id' Hn') as [Hr Hc]. split; [done|]. destruct (decide (id = id')) as [->|Hne]; [by rewrite lookup_insert_eq|].
        by rewrite lookup_insert_ne.
      * intros id' Hid'. destruct (decide (id = id')) as [->|Hne]; [by exists n|]. rewrite lookup_insert_ne in Hid' by done. by apply H3.
      * intros id' Hid'. destruct (H5 id' Hid') as [Hr Hf]. split; [done|]. destruct (decide (id = id')) as [->|Hne]; [congruence|].
        by rewrite lookup_insert_ne.
    + cbn. rewrite Hn, lookup_insert_eq. split; [done|]. intros [n'|o'] He; [|done]. cbn.
      destruct (expandos s !! n') as [id'|] eqn:Hn'; [|done]. rewrite lookup_insert_ne; [done|]. intros ->. apply He. f_equal. by eapply H2.
  - cbn. destruct S as [H0 H1 H2 H3 H4 H5]. split; [split; assumption|]. cbn. rewrite lookup_insert_eq. split; [done|].
    intros [n'|o'] He; [done|]. cbn. rewrite lookup_insert_ne; [done|congruence].
Qed.
Lemma drop_node_becomes n s : sound s -> becomes (Node n) None s (drop_node n s).
Proof.
  intros S. unfold drop_node. destruct (expandos s !! n) as [id|] eqn:Hn.
  - destruct (s_used _ S n id Hn) as [Hr [c Hc]]. rewrite Hc. destruct S as [H0 H1 H2 H3 H4 H5]. split.
    + split; cbn; [done|..].
      * intros n' id' Hn'. destruct (decide (n = n')) as [->|Hne]; [by rewrite lookup_delete_eq in Hn'|]. rewrite lookup_delete_ne in Hn' by done.
        destruct (H1 n' id' Hn') as [Hr' Hc']. split; [done|]. rewrite lookup_delete_ne; [done|]. intros ->. apply Hne. by eapply H2.
      * intros n1 n2 id' Hn1 Hn2. apply lookup_delete_Some in Hn1 as [_ Hn1]. apply lookup_delete_Some in Hn2 as [_ Hn2]. by eapply H2.
      * intros id' [c' Hid']. apply lookup_delete_Some in Hid' as [Hne Hid']. destruct (H3 id' ltac:(by exists c')) as [n' Hn'].
        exists n'. rewrite lookup_delete_ne; [done|]. intros ->. congruence.
      * apply NoDup_app. split; [done|]. split; [|apply NoDup_singleton]. intros x Hx ->%list_elem_of_singleton. destruct (H5 id Hx). congruence.
      * intros id' [Hid'| ->%list_elem_of_singleton]%elem_of_app; [|split; [done|apply lookup_delete_eq]].
        destruct (H5 id' Hid') as [Hr' Hf']. split; [done|]. apply lookup_delete_None. by right.
    + cbn. rewrite lookup_delete_eq. split; [done|]. intros [n'|o'] He; [|done]. cbn. rewrite lookup_delete_ne by congruence.
      destruct (expandos s !! n') as [id'|] eqn:Hn'; [|done]. rewrite lookup_delete_ne; [done|]. intros ->. apply He. f_equal. by eapply H2.
  - split; [done|]. split; [|done]. cbn. by rewrite Hn.
Qed.
Lemma drop_becomes e s : sound s -> becomes e None s (drop_entry e s).
Proof.
  intros S. destruct e as [n|o]; [by apply drop_node_becomes|]. destruct S as [H0 H1 H2 H3 H4 H5]. split; [split; assumption|]. cbn. rewrite lookup_delete_eq. split; [done|]. intros [n'|o'] He; [done|]. cbn. rewrite lookup_delete_ne; [done|congruence].
Qed.

(** A new number is not in use. *)
Record fresh_id (s : store) (id : Z) (s' : store) : Prop := {
  f_range : 0 < id < guid s';
  f_unused : cache s !! id = None;
  f_same : expandos s' = expandos s /\ cache s' = cache s /\ own s' = own s;
  f_guid : guid s <= guid s';
  f_distinct : NoDup (deletedIds s');
  f_free i : i ∈ deletedIds s' -> i ∈ deletedIds s /\ i <> id
}.
Lemma new_id_fresh s : sound s -> fresh_id s (new_id s).1 (new_id s).2.
Proof.
  intros S. unfold new_id. destruct (last (deletedIds s)) as [id|] eqn:E.
  - apply last_Some in E as [l E]. pose proof (s_distinct _ S) as Hd. pose proof (s_free _ S) as Hf.
    rewrite E, removelast_last in *. apply NoDup_app in Hd as (Hl & Hi & _).
    destruct (Hf id ltac:(apply elem_of_app; right; by apply list_elem_of_singleton)) as [Hr Hc].
    split; cbn; try done. intros i Hi'. rewrite E. split; [apply elem_of_app; by left|]. intros ->. apply (Hi id); [done|by apply list_elem_of_singleton].
  - apply last_None in E. pose proof (s_guid _ S). split; cbn; try done; try lia.
    + destruct (cache s !! guid s) eqn:E2; [|done]. destruct (s_cached _ S (guid s) ltac:(by eexists)) as [n Hn].
      destruct (s_used _ S _ _ Hn). lia.
    + rewrite E. constructor.
    + intros i. rewrite E. by intros ?%elem_of_nil.
Qed.

Lemma ensure_becomes e s : sound s -> becomes e (Some (default (new_entry e) (entry_of e s))) s (ensure e s).
Proof.
  intros S. unfold ensure. destruct e as [n|o].
  - cbn [with_id]. destruct (expandos s !! n) as [id|] eqn:Hn.
    + destruct (s_used _ S n id Hn) as [_ [c Hc]]. assert (E : entry_of (Node n) s = Some c) by (cbn; by rewrite Hn). rewrite E.
      change (default (new_entry (Node n)) (Some c)) with c. rewrite <- E. by apply becomes_same.
    + pose proof (new_id_fresh s S) as [Hr Hu (He & Hc & Ho) Hg Hd Hf]. destruct (new_id s) as [id s1]. cbn [fst snd] in *.
      rewrite He, Hc, Ho. cbn [entry_of expandos cache]. rewrite lookup_insert_eq, Hu. rewrite Hn. cbn [default put_entry expandos]. rewrite lookup_insert_eq.
      assert (Hid : forall m i, expandos s !! m = Some i -> i <> id) by (intros m i Hm ->; destruct (s_used _ S m id Hm) as [_ [c Hc']]; congruence).
      split.
      * destruct S as [H0 H1 H2 H3 H4 H5]. split; cbn; [lia|..|done|].
        -- intros m i Hm. destruct (decide (n = m)) as [->|Hne].
           ++ rewrite lookup_insert_eq in Hm. injection Hm as <-. split; [done|]. by rewrite lookup_insert_eq.
           ++ rewrite lookup_insert_ne in Hm by done. destruct (H1 m i Hm) as [Hr' Hc']. split; [lia|]. rewrite lookup_insert_ne; [done|]. by apply not_eq_sym, (Hid m).
        -- intros m1 m2 i. rewrite !lookup_insert_Some. intros [[<- <-]|[Hn1 E1]] [[<- E2]|[Hn2 E2]]; [done| | |by eapply H2].
           ++ by apply Hid in E2.
           ++ subst. by apply Hid in E1.
        -- intros i Hi. destruct (decide (id = i)) as [->|Hne]; [exists n; apply lookup_insert_eq|]. rewrite lookup_insert_ne in Hi by done.
           destruct (H3 i Hi) as [m Hm]. exists m. rewrite lookup_insert_ne; [done|]. intros ->. congruence.
        -- intros i Hi. destruct (Hf i Hi) as [Hi1 Hi2]. destruct (H5 i Hi1) as [Hr' Hc']. split; [lia|]. by rewrite lookup_insert_ne.
      * cbn. rewrite lookup_insert_eq, lookup_insert_eq. split; [done|]. intros [m|o'] Hm; [|done]. cbn. rewrite lookup_insert_ne by congruence.
        destruct (expandos s !! m) as [i|] eqn:E; [|done]. rewrite lookup_insert_ne; [done|]. by apply not_eq_sym, (Hid m).
  - cbn [with_id]. destruct (entry_of (Plain o) s) as [c|] eqn:E; [change (default (new_entry (Plain o)) (Some c)) with c; rewrite <- E; by apply becomes_same|]. cbn [default].
    destruct S as [H0 H1 H2 H3 H4 H5]. split; [split; assumption|]. cbn. rewrite lookup_insert_eq. split; [done|].
    intros [n'|o'] He; [done|]. cbn. rewrite lookup_insert_ne; [done|congruence].
Qed.

Section Spec.
Context {N : Nodes}.

(** ** The operations on the object of one element *)

Definition data_spec (e : holder) (name : name_arg) (data : value) (pvt : bool) (o : option data_entry) : option data_entry * result data_answer :=
  if negb (acceptData e) then (o, Ok (Value undef))
  else
    let known := match o with Some c => pvt || match public c with Some _ => true | None => false end | None => false end in
    if negb known && match name with Key _ => true | _ => false end && undefined data then (o, Ok (Value undef))
    else
      let c := default (new_entry e) o in
      match name with
      | Key k =>
          let m := if undefined data then part_of pvt c else <[camelCase k := data]> (part_of pvt c) in
          (Some (with_part pvt m c), Ok (Value (read_key k m)))
      | Props l => (Some (with_part pvt (extend_with l (part_of pvt c)) c), if undefined data then Ok (Whole pvt) else Thrown)
      | NoKey => (Some (with_part pvt (part_of pvt c) c), if undefined data then Ok (Whole pvt) else Thrown)
      end.
(** What stays of an object whose public data is given up, [None] for an empty one. *)
Definition without_public (c : data_entry) : option data_entry :=
  let c := Entry None (private c) in if isEmptyDataObject c then None else Some c.
Definition remove_spec (e : holder) (name : rkey) (pvt : bool) (o : option data_entry) : option data_entry :=
  if negb (acceptData e) then o
  else match o with
  | None => None
  | Some c =>
      let rest c := if pvt then None else without_public c in
      match (if match name with RAll | RKey [] => false | _ => true end then (if pvt then Some (private c) else public c) else None) with
      | None => rest c
      | Some m =>
          let c := with_part pvt (delete_keys (removed_keys name m) m) c in
          if (if pvt then isEmptyDataObject c else bool_decide (part_of false c = ∅)) then rest c else Some c
      end
  end.
Definition clean_spec (accept : bool) (n : nat) (o : option data_entry) : option data_entry := if accept || acceptData (Node n) then None else o.

(** ** The store does what they say *)

Lemma put_twice e c1 c2 s : sound s -> is_Some (entry_of e s) -> becomes e (Some c2) s (put_entry e c2 (put_entry e c1 s)).
Proof.
  intros S H. pose proof (put_becomes e c1 s S H) as B. eapply becomes_then; [exact B|]. destruct B as (S1 & E1 & _).
  apply put_becomes; [done|]. by rewrite E1.
Qed.
Lemma internalData_becomes e name data pvt s : sound s ->
  becomes e (data_spec e name data pvt (entry_of e s)).1 s (internalData e name data pvt s).1 /\
  (internalData e name data pvt s).2 = (data_spec e name data pvt (entry_of e s)).2.
Proof.
  intros S. unfold internalData, data_spec. destruct (acceptData e); cbn [negb]; [|by split; [apply becomes_same|]].
  set (known := match entry_of e s with Some c => _ | None => _ end).
  destruct (negb known && _ && _); [by split; [apply becomes_same|]|].
  pose proof (ensure_becomes e s S) as B. destruct B as (S1 & E1 & O1). rewrite E1. change (default (new_entry e) (Some ?x)) with x.
  set (c := default (new_entry e) (entry_of e s)) in *.
  assert (Hput : forall c', becomes e (Some c') s (put_entry e c' (ensure e s))).
  { intros c'. eapply becomes_then; [by apply ensure_becomes|]. apply put_becomes; [done|]. by rewrite E1. }
  assert (Hput2 : forall c1 c', becomes e (Some c') s (put_entry e c' (put_entry e c1 (ensure e s)))).
  { intros c1 c'. eapply becomes_then; [by apply ensure_becomes|]. apply put_twice; [done|]. by rewrite E1. }
  destruct name as [|k|l]; cbn [fst snd]; by split.
Qed.
Lemma becomes_nothing e s : sound s -> entry_of e s = None -> becomes e None s s.
Proof. intros S E. rewrite <- E. by apply becomes_same. Qed.
(** Changes of one element, whatever it has then. *)
Definition stays_with (e : holder) (s s' : store) : Prop := exists o, becomes e o s s'.
Lemma stays_then e s s1 s2 : stays_with e s s1 -> stays_with e s1 s2 -> stays_with e s s2.
Proof. intros [o1 H1] [o2 H2]. exists o2. by eapply becomes_then. Qed.
Lemma event_remove_stays n type s : sound s -> stays_with (Node n) s (event_remove_type n type s).
Proof.
  intros S. unfold event_remove_type. destruct (entry_of (Node n) s) as [c|] eqn:E; [|by eexists; apply becomes_same].
  destruct (private c !! u "events") as [v|]; [|by eexists; apply becomes_same].
  destruct (isEmptyDataObject c); [by eexists; apply becomes_same|]. destruct (events_without type (items v)) as [now gone].
  assert (B : becomes (Node n) (Some c) s (record_unlistened n gone s)) by (rewrite <- E; by apply becomes_record).
  eapply stays_then; [by eexists|]. destruct B as (S1 & E1 & _). assert (H : is_Some (entry_of (Node n) (record_unlistened n gone s))) by (by rewrite E1).
  case_bool_decide; [|eexists; by apply put_becomes]. set (c' := Entry _ _). pose proof (put_becomes (Node n) c' _ S1 H) as B.
  destruct (isEmptyDataObject c'); [|by eexists]. eapply stays_then; [by eexists|]. eexists. apply drop_node_becomes. apply B.
Qed.
Lemma clean_types_stays n types : forall s, sound s -> stays_with (Node n) s (clean_types n types s).
Proof.
  induction types as [|t types IH]; intros s S; [eexists; by apply becomes_same|]. cbn [clean_types fold_left].
  assert (H : stays_with (Node n) s (if bool_decide (t ∈ special_types) then event_remove_type n t s else record_unlistened n [t] s)).
  { case_bool_decide; [by apply event_remove_stays|]. eexists. by apply becomes_record. }
  eapply stays_then; [exact H|]. apply IH. destruct H as [o H]. apply H.
Qed.
Lemma clean_node_becomes accept n s : sound s -> becomes (Node n) (clean_spec accept n (entry_of (Node n) s)) s (clean_node accept n s).
Proof.
  intros S. unfold clean_node, clean_spec. destruct (accept || _); [|by apply becomes_same].
  destruct (entry_of (Node n) s) as [c|] eqn:E; [|by apply becomes_nothing].
  assert (H : stays_with (Node n) s (match private c !! u "events" with Some v => clean_types n (map event_type (items v)) s | None => s end)).
  { destruct (private c !! u "events"); [by apply clean_types_stays|]. eexists. by apply becomes_same. }
  destruct H as [o H]. eapply becomes_then; [exact H|]. apply drop_node_becomes, H.
Qed.
Lemma destroy_becomes e s : sound s -> becomes e None s (destroy e s).
Proof. intros S. destruct e as [n|o]; [|by apply drop_becomes]. apply (clean_node_becomes true n s S). Qed.
Lemma internalRemoveData_becomes e name pvt s : sound s ->
  becomes e (remove_spec e name pvt (entry_of e s)) s (internalRemoveData e name pvt s).
Proof.
  intros S. unfold internalRemoveData, remove_spec. destruct (acceptData e); cbn [negb]; [|by apply becomes_same].
  destruct (entry_of e s) as [c|] eqn:E; [|by apply becomes_nothing].
  assert (Hput : forall c', becomes e (Some c') s (put_entry e c' s)) by (intros c'; apply put_becomes; [done|by rewrite E]).
  assert (Hdestroy : forall c', becomes e None s (destroy e (put_entry e c' s))).
  { intros c'. eapply becomes_then; [apply Hput|]. apply destroy_becomes. apply (Hput c'). }
  assert (Hrest : forall c', becomes e (if pvt then None else without_public c') s
    (if pvt then destroy e (put_entry e c' s) else
       let c := Entry None (private c') in if isEmptyDataObject c then destroy e (put_entry e c s) else put_entry e c s)).
  { intros c'. destruct pvt; [apply Hdestroy|]. unfold without_public. cbn zeta. destruct (isEmptyDataObject _); [apply Hdestroy|apply Hput]. }
  cbn zeta. destruct (if match name with RAll | RKey [] => false | _ => true end then _ else None) as [m|]; [|apply Hrest].
  destruct (if pvt then isEmptyDataObject _ else _); [apply Hrest|apply Hput].
Qed.
End Spec.

(** * Data: properties

    Each element has data of its own, whatever is done with the shared store
    ([data_store_refines]); what was written is read back under every spelling of the
    name, until it is removed ([data_read_back]). *)

Section Commands.
Context {N : Nodes}.

(** ** Any sequence of operations *)

Inductive command :=
  | Data_ (e : holder) (name : name_arg) (data : value) (pvt : bool)
  | Remove_ (e : holder) (name : rkey) (pvt : bool)
  | Clean (elems : list nat) (accept : bool)
  | Has_ (e : holder).
Inductive output := Answered (r : result data_answer) | Tested (b : bool) | Nothing_.
Definition step_store (c : command) (s : store) : store * output :=
  match c with
  | Data_ e name data pvt => let '(s, r) := internalData e name data pvt s in (s, Answered r)
  | Remove_ e name pvt => (internalRemoveData e name pvt s, Nothing_)
  | Clean elems accept => (cleanData elems accept s, Nothing_)
  | Has_ e => (s, Tested (hasData e s))
  end.
Fixpoint run_store (l : list command) (s : store) : store * list output :=
  match l with
  | [] => (s, [])
  | c :: l => let '(s, o) := step_store c s in let '(s, os) := run_store l s in (s, o :: os)
  end.

(** The same with an object for each element and nothing else. *)
Definition world := holder -> option data_entry.
Definition put (e : holder) (o : option data_entry) (f : world) : world := fun e' => if decide (e' = e) then o else f e'.
Definition step_spec (c : command) (f : world) : world * output :=
  match c with
  | Data_ e name data pvt => let '(o, r) := data_spec e name data pvt (f e) in (put e o f, Answered r)
  | Remove_ e name pvt => (put e (remove_spec e name pvt (f e)) f, Nothing_)
  | Clean elems accept => (fold_left (fun f n => put (Node n) (clean_spec accept n (f (Node n))) f) elems f, Nothing_)
  | Has_ e => (f, Tested (match f e with Some c => negb (isEmptyDataObject c) | None => false end))
  end.
Fixpoint run_spec (l : list command) (f : world) : world * list output :=
  match l with
  | [] => (f, [])
  | c :: l => let '(f, o) := step_spec c f in let '(f, os) := run_spec l f in (f, o :: os)
  end.

Definition matches (s : store) (f : world) : Prop := sound s /\ forall e, entry_of e s = f e.
Lemma becomes_matches e o s s' f : matches s f -> becomes e o s s' -> matches s' (put e o f).
Proof. intros [_ Hf] (S & E & O). split; [done|]. intros e'. unfold put. case_decide as He; [by rewrite He|]. by rewrite O. Qed.
Lemma cleanData_matches accept elems : forall s f, matches s f ->
  matches (cleanData elems accept s) (fold_left (fun f n => put (Node n) (clean_spec accept n (f (Node n))) f) elems f).
Proof.
  induction elems as [|n elems IH]; intros s f H; [done|]. cbn [cleanData fold_left]. apply IH. destruct H as [S Hf].
  eapply becomes_matches; [by split|]. rewrite <- Hf. by apply clean_node_becomes.
Qed.
Lemma step_matches c s f : matches s f -> matches (step_store c s).1 (step_spec c f).1 /\ (step_store c s).2 = (step_spec c f).2.
Proof.
  intros H. pose proof H as [S Hf]. destruct c as [e name data pvt|e name pvt|elems accept|e]; cbn [step_store step_spec].
  - destruct (internalData_becomes e name data pvt s S) as [B E]. rewrite Hf in B, E. destruct (internalData e name data pvt s) as [s' r].
    destruct (data_spec e name data pvt (f e)) as [o r']. cbn in *. split; [by eapply becomes_matches|by rewrite E].
  - split; [|done]. cbn. eapply becomes_matches; [done|]. rewrite <- Hf. by apply internalRemoveData_becomes.
  - split; [|done]. by apply cleanData_matches.
  - split; [done|]. cbn. unfold hasData. by rewrite Hf.
Qed.
Lemma run_matches l : forall s f, matches s f -> matches (run_store l s).1 (run_spec l f).1 /\ (run_store l s).2 = (run_spec l f).2.
Proof.
  induction l as [|c l IH]; intros s f H; [done|]. cbn [run_store run_spec]. destruct (step_matches c s f H) as [H1 E1].
  destruct (step_store c s) as [s1 o], (step_spec c f) as [f1 o']. cbn in *. subst o'. destruct (IH s1 f1 H1) as [H2 E2].
  destruct (run_store l s1) as [s2 os], (run_spec l f1) as [f2 os']. cbn in *. by subst.
Qed.
End Commands.

(** C13. Whatever is written, read and removed, and whichever elements are cleaned, the
    answers are those of a store in which each element and object has an object of its own:
    the table that all share, its numbers and their use again make no difference. *)
Theorem data_store_refines (N : Nodes) (l : list command) :
  (run_store l store0).2 = (run_spec l (fun _ => None)).2 /\
  forall e, entry_of e (run_store l store0).1 = (run_spec l (fun _ => None)).1 e.
Proof.
  assert (H : matches store0 (fun _ => None)) by (split; [apply sound0|by intros [n|o]]).
  destruct (run_matches l _ _ H) as [[_ H1] H2]. by split.
Qed.

(** ** Written and read *)

Section Sets.
Context {N : Nodes}.

Lemma fold_data name v elems : forall s, sound s -> let s' := fold_left (fun s e => (internalData e name v false s).1) elems s in
  sound s' /\ (forall e, e ∉ elems -> entry_of e s' = entry_of e s) /\
  forall e (P : option data_entry -> Prop), e ∈ elems -> (forall o, P o -> P (data_spec e name v false o).1) ->
    P (data_spec e name v false (entry_of e s)).1 -> P (entry_of e s').
Proof.
  induction elems as [|e elems IH]; intros s S; cbn [fold_left].
  - split; [done|]. split; [done|]. by intros e P He%elem_of_nil.
  - destruct (internalData_becomes e name v false s S) as [(S1 & E1 & O1) _]. destruct (IH _ S1) as (S2 & O2 & P2). split; [done|]. split.
    + intros e' [Hne Hin]%not_elem_of_cons. by rewrite O2, O1.
    + intros e' P He' HP Hstart. destruct (decide (e' ∈ elems)) as [Hin|Hin].
      * apply P2; [done..|]. destruct (decide (e' = e)) as [->|Hne]; [apply HP; by rewrite E1|by rewrite O1].
      * rewrite O2 by done. apply elem_of_cons in He' as [->|?]; [|done]. by rewrite E1.
Qed.

(** Nothing else under the name as it is written. *)
Definition unshadowed (k k' : jstr) (o : option data_entry) : Prop :=
  k' = camelCase k \/ match o with Some c => part_of false c !! k' = None | None => True end.
(** What is stored under the names that are spelled like [k]. *)
Definition holds_value (k k' : jstr) (v : value) (o : option data_entry) : Prop :=
  exists c m, o = Some c /\ public c = Some m /\ m !! camelCase k = Some v /\ (k' = camelCase k \/ m !! k' = None).
Lemma data_spec_holds e k k' v o : acceptData e = true -> undefined v = false -> unshadowed k k' o ->
  holds_value k k' v (data_spec e (Key k) v false o).1.
Proof.
  intros Ha Hv Hu. unfold data_spec. rewrite Ha, Hv, andb_false_r. cbn [negb fst]. eexists _, _. split; [done|]. split; [done|].
  split; [apply lookup_insert_eq|]. destruct Hu as [->|Hu]; [by left|]. destruct (decide (k' = camelCase k)) as [->|Hne]; [by left|]. right.
  rewrite lookup_insert_ne by done. destruct o as [c|]; [done|]. destruct e; cbn; by rewrite lookup_empty.
Qed.
Lemma read_spec e k' o : acceptData e = true -> (data_spec e (Key k') undef false o).2 =
  Ok (Value (match o with Some c => match public c with Some m => read_key k' m | None => undef end | None => undef end)).
Proof. intros Ha. unfold data_spec. rewrite Ha. by destruct o as [[[m|] p]|]. Qed.
Lemma read_key_value k k' v m : camelCase k' = camelCase k -> m !! camelCase k = Some v -> k' = camelCase k \/ m !! k' = None -> read_key k' m = v.
Proof.
  intros Hk Hm Hu. unfold read_key. rewrite Hk, Hm. destruct Hu as [->|Hu]; [|by rewrite Hu]. rewrite Hm. cbn. by destruct (null_or_undefined v).
Qed.
Lemma read_key_nothing k k' m : camelCase k' = camelCase k -> m !! camelCase k = None -> m !! k' = None -> read_key k' m = undef.
Proof. intros Hk Hm Hu. unfold read_key. by rewrite Hk, Hm, Hu. Qed.
(** What [data(key)] gives an element, where there is no attribute. *)
Lemma data_get_reads e attrs k s : sound s -> acceptData e = true -> assoc (u "data-" ++ dashed k) attrs = None ->
  (data_get [e] attrs k s).2 = match entry_of e s with Some c => match public c with Some m => read_key k m | None => undef end | None => undef end.
Proof.
  intros S Ha Hattr. unfold data_get. destruct (internalData_becomes e (Key k) undef false s S) as [_ E]. rewrite read_spec in E by done.
  destruct (internalData _ _ _ _ _) as [s' r]. cbn in E. subst r. cbn [value_of]. set (v := match entry_of e s with Some _ => _ | None => _ end).
  unfold dataAttr. destruct e as [n|o]; [|done]. rewrite Hattr. destruct (undefined v) eqn:Ev; [|done]. cbn [andb].
  destruct (node_type n =? 1); [|done]. cbn. by destruct v as [[]| | | | | | | | ].
Qed.
(** Removing the name again. *)
Lemma remove_spec_forgets e k k' v o : acceptData e = true -> k <> [] -> camelCase k' = camelCase k ->
  holds_value k k' v o -> holds_value k k v o ->
  match remove_spec e (RKey k) false o with Some c => match public c with Some m => read_key k' m = undef | None => True end | None => True end.
Proof.
  intros Ha Hne Hk (c & m & -> & Hp & Hm & Hu) (c' & m' & [= <-] & Hp' & _ & Hu'). rewrite Hp in Hp'. injection Hp' as <-.
  unfold remove_spec. rewrite Ha, Hp. cbn [negb]. destruct k as [|x k]; [done|].
  assert (E : removed_keys (RKey (x :: k)) m = [camelCase (x :: k)]).
  { cbn [removed_keys]. unfold in_map. destruct Hu' as [Heq|Hnone]; [rewrite <- Heq in Hm; by rewrite Hm, <- Heq|]. by rewrite Hnone, Hm. }
  rewrite E. cbn [delete_keys fold_left]. case_bool_decide.
  - unfold without_public. by destruct (isEmptyDataObject _).
  - cbn. apply (read_key_nothing (x :: k)); [done|apply lookup_delete_eq|]. apply lookup_delete_None. destruct Hu as [->|Hu]; [by left|by right].
Qed.
End Sets.

(** A value written for the elements of a set is read, under every name with the same
    camel case, from each of them that takes data - unless something else was put under
    that very name with an object - until it is removed; all other elements and objects
    keep what they have. *)
Theorem data_read_back (N : Nodes) elems e attrs k k' v s :
  sound s -> e ∈ elems -> acceptData e = true -> undefined v = false -> k <> [] -> camelCase k' = camelCase k ->
  unshadowed k k' (entry_of e s) -> unshadowed k k (entry_of e s) -> assoc (u "data-" ++ dashed k') attrs = None ->
  let s1 := data_set elems (Key k) v s in
  let s2 := data_remove [e] (RKey k) s1 in
  (data_get [e] attrs k' s1).2 = v /\ (forall e', e' ∉ elems -> entry_of e' s1 = entry_of e' s) /\ (data_get [e] attrs k' s2).2 = undef.
Proof.
  intros S He Ha Hv Hne Hk Hu Huk Hattr s1 s2. destruct (fold_data (Key k) v elems s S) as (S1 & O1 & P1).
  assert (Es1 : fold_left (fun s e => (internalData e (Key k) v false s).1) elems s = s1) by (unfold s1, data_set; by rewrite Hv).
  rewrite Es1 in *. clear Es1.
  assert (H : forall k'', unshadowed k k'' (entry_of e s) -> holds_value k k'' v (entry_of e s1)).
  { intros k'' H''. apply (P1 e (holds_value k k'' v)); [done| |by apply data_spec_holds]. intros o (c & m & -> & Hp & _ & Hm).
    apply data_spec_holds; [done..|]. destruct Hm as [->|Hm]; [by left|right]. unfold part_of. by rewrite Hp. }
  pose proof (H k' Hu) as H1. pose proof (H k Huk) as H2. split; [|split; [done|]].
  - rewrite data_get_reads by done. destruct H1 as (c & m & -> & -> & Hm & Hs). by apply (read_key_value k k' v m).
  - destruct (internalRemoveData_becomes e (RKey k) false s1 S1) as (S2 & E2 & _). cbn [data_remove fold_left] in s2. fold s2 in S2, E2.
    rewrite data_get_reads, E2 by done. pose proof (remove_spec_forgets e k k' v _ Ha Hne Hk H1 H2) as Hf.
    destruct (remove_spec _ _ _ _) as [c|]; [|done]. by destruct (public c).
Qed.
Lemma data_read_back_witness :
  let s1 := @data_set page_nodes [Node 1; Node 2] (Key (u "foo-bar")) (text_value "x") store0 in
  let s2 := @data_remove page_nodes [Node 2] (RKey (u "foo-bar")) s1 in
  (@data_get page_nodes [Node 2] [] (u "fooBar") s1).2 = text_value "x" /\ (forall e', e' ∉ [Node 1; Node 2] -> entry_of e' s1 = entry_of e' store0) /\
  (@data_get page_nodes [Node 2] [] (u "fooBar") s2).2 = undef.
Proof.
  apply (data_read_back page_nodes [Node 1; Node 2] (Node 2) [] (u "foo-bar") (u "fooBar") (text_value "x") store0).
  - apply sound0.
  - apply elem_of_cons. right. by apply list_elem_of_singleton.
  - vm_compute. reflexivity.
  - vm_compute. reflexivity.
  - done.
  - vm_compute. reflexivity.
  - right. done.
  - right. done.
  - done.
Defined.

(** An object puts its names as they are: a value written later under such a name with a
    dash goes under the other one, and reading gives the old value. *)
Theorem written_not_read :
  let s := @data_set page_nodes [Node 1] (Props [(u "foo-bar", text_value "old")]) undef store0 in
  let s := @data_set page_nodes [Node 1] (Key (u "foo-bar")) (text_value "new") s in
  (@data_get page_nodes [Node 1] [] (u "foo-bar") s).2 = text_value "old" /\ (@data_get page_nodes [Node 1] [] (u "fooBar") s).2 = text_value "new".
Proof. vm_compute. done. Qed.
(** data() of an element that takes no data throws if the element has a data attribute. *)
Theorem no_data_throws : (@data_all page_nodes [Node 8] [(u "data-x", u "1")] store0).2 = Thrown.
Proof. vm_compute. reflexivity. Qed.
