(* ===== verification/Queue.v ===== *)
(** * [html/resource/js/jquery.js]: queues of functions

    jQuery.queue, dequeue and the methods queue, dequeue, delay, clearQueue and promise, as
    a library of the pages of [Deferred]: the functions in a queue are functions of the
    page, which get [next] and the hooks of the queue and may queue again. The queues and
    the hooks are private data of the elements ([DataCache]); what is stored there are
    references to arrays and objects of the state. *)

From Stdlib Require Import ZArith Lia.
From stdpp Require Import base tactics list numbers strings gmap.
From S2P Require Import Prelude JsValue ValidPage ValidRules Deferred DataCache.
Local Open Scope Z_scope.
Local Open Scope deferred_scope.

(** ** The state *)

(** A function in a queue: of the page, or the one that delay makes. *)
Inductive qfn := Given (f : func) | DelayFor (time : prim).
Inductive item := Sentinel | Run (f : qfn).
#[export] Instance qfn_eq_dec : EqDecision qfn.
Proof. solve_decision. Defined.
#[export] Instance item_eq_dec : EqDecision item.
Proof. solve_decision. Defined.
Record hooks := Hooks { h_empty : nat; h_cur : option item; h_stop : option nat }.
(** The functions that the library makes. *)
Inductive qclosure := Next (e : holder) (type : jstr) | Emptied (e : holder) (type : jstr) | Resolve (p : nat).
(** The variables of a call of promise. *)
Record promise_rec := PromiseRec { p_defer : nat; p_count : Z }.
(** What happened to the arrays: functions put at the end of one, the first item taken, the
    sentinel put in front. *)
Inductive q_event := Put (a : nat) (fs : list qfn) | Shifted (a : nat) (i : item) | Unshifted (a : nat).

Record queue_state := QueueState {
  q_store : store;
  arrays : list (list item);
  all_hooks : list hooks;
  q_closures : list qclosure;
  timers : list (option nat);               (* the closure of each timer that is set *)
  promises : list promise_rec;
  q_log : list q_event
}.
Definition queue_init : queue_state := QueueState store0 [] [] [] [] [] [].

(** What a page and its clock can do. *)
Inductive queue_op :=
  | QueueOf (e : holder) (type : jstr) (data : option (list func + func))       (* jQuery.queue *)
  | DequeueOf (e : holder) (type : jstr)                                        (* jQuery.dequeue *)
  | QueueAll (elems : list holder) (type : option jstr) (data : list func + func)
  | DequeueAll (elems : list holder) (type : jstr)
  | Delay (elems : list holder) (time : prim) (type : jstr)
  | ClearQueue (elems : list holder) (type : jstr)
  | PromiseOf (elems : list holder) (type : option jstr)
  | CallFunction (v : value)                                                    (* next() *)
  | CallStop (v : value)                                                        (* hooks.stop() *)
  | Timeout (t : nat).
#[export] Instance queue_library : Library := {| lib_state := queue_state; lib_op := queue_op; lib_init := queue_init |}.

Definition array_ref (a : nat) : value := Obj [20%nat; a].
Definition hooks_ref (h : nat) : value := Obj [21%nat; h].
Definition closure_ref (c : nat) : value := Obj [22%nat; c].
Definition elements_ref (p : nat) : value := Obj [23%nat; p].
Definition array_of (v : value) : option nat := match v with Obj [20%nat; a] => Some a | _ => None end.
Definition hooks_of (v : value) : option nat := match v with Obj [21%nat; h] => Some h | _ => None end.
Definition closure_of (v : value) : option nat := match v with Obj [22%nat; c] => Some c | _ => None end.
Definition holder_value (e : holder) : value := match e with Node n => Obj [3%nat; n] | Plain o => Obj [10%nat; o] end.

Definition set_store (x : store) (a : queue_state) : queue_state :=
  QueueState x (arrays a) (all_hooks a) (q_closures a) (timers a) (promises a) (q_log a).
Definition set_arrays (x : list (list item)) (es : list q_event) (a : queue_state) : queue_state :=
  QueueState (q_store a) x (all_hooks a) (q_closures a) (timers a) (promises a) (q_log a ++ es).
Definition set_hooks (x : list hooks) (a : queue_state) : queue_state :=
  QueueState (q_store a) (arrays a) x (q_closures a) (timers a) (promises a) (q_log a).
Definition set_closures (x : list qclosure) (a : queue_state) : queue_state :=
  QueueState (q_store a) (arrays a) (all_hooks a) x (timers a) (promises a) (q_log a).
Definition set_timers (x : list (option nat)) (a : queue_state) : queue_state :=
  QueueState (q_store a) (arrays a) (all_hooks a) (q_closures a) x (promises a) (q_log a).
Definition set_promises (x : list promise_rec) (a : queue_state) : queue_state :=
  QueueState (q_store a) (arrays a) (all_hooks a) (q_closures a) (timers a) x (q_log a).

(** ** Arrays *)

Definition push_fns (a : nat) (fs : list qfn) (s : queue_state) : queue_state :=
  match arrays s !! a with
  | Some l => set_arrays (<[a := l ++ map Run fs]> (arrays s)) [Put a fs] s
  | None => s
  end.
Definition shift (a : nat) (s : queue_state) : option item * queue_state :=
  match arrays s !! a with
  | Some (i :: l) => (Some i, set_arrays (<[a := l]> (arrays s)) [Shifted a i] s)
  | _ => (None, s)
  end.
Definition unshift (a : nat) (s : queue_state) : queue_state :=
  match arrays s !! a with
  | Some l => set_arrays (<[a := Sentinel :: l]> (arrays s)) [Unshifted a] s
  | None => s
  end.
Definition add_array (fs : list qfn) (s : queue_state) : queue_state :=
  set_arrays (arrays s ++ [map Run fs]) [Put (length (arrays s)) fs] s.
Definition items_of (a : option nat) (s : queue_state) : list item :=
  match a with Some a => default [] (arrays s !! a) | None => [] end.

Section Code.
Context {N : Nodes}.
Context (bound : nat) (apply : cb -> value -> list value -> M value) (fire : lid -> data -> M unit).

Definition look {A} (f : queue_state -> A) : M A := get (fun w => f (more w)).
(** [jQuery._data] and [jQuery._removeData] *)
Definition private_data (e : holder) (k : jstr) (v : value) : M value :=
  r <- look (fun a => internalData e (Key k) v true (q_store a));; change (set_store r.1);;; ret (value_of r.2).
Definition remove_private (e : holder) (k : jstr) : M unit :=
  change (fun a => set_store (internalRemoveData e (RKey k) true (q_store a)) a).
Definition new_closure (c : qclosure) : M nat :=
  n <- look (fun a => length (q_closures a));; change (fun a => set_closures (q_closures a ++ [c]) a);;; ret n.

(** ** jQuery.queue and its hooks *)

Definition fx_default (type : jstr) : jstr := match type with [] => u "fx" | _ => type end.
Definition queue (e : holder) (type : jstr) (data : option (list qfn + qfn)) : M (option nat) :=
  let k := fx_default type ++ u "queue" in
  v <- private_data e k undef;;
  match data, array_of v with
  | None, o => ret o
  | Some (inr f), Some a => change (push_fns a [f]);;; ret (Some a)
  | Some d, _ =>
      a <- look (fun s => length (arrays s));;
      change (add_array (match d with inl l => l | inr f => [f] end));;;
      v <- private_data e k (array_ref a);;
      ret (array_of v)
  end.
(** [jQuery.Callbacks("once memory").add(f)] *)
Definition new_list (f : cb) : M nat :=
  n <- get next_list;;
  put_list (0%nat, n) (Callbacks (createOptions (u "once memory")));;;
  modify (fun w => World (lists w) (states w) (whens w) (S n) (more w) (trace w));;;
  add_to fire (0%nat, n) [f];;;
  ret n.
Definition queueHooks (e : holder) (type : jstr) : M (option nat) :=
  let k := type ++ u "queueHooks" in
  v <- private_data e k undef;;
  match hooks_of v with
  | Some h => ret (Some h)
  | None =>
      c <- new_closure (Emptied e type);;
      n <- new_list (Lib c);;
      h <- look (fun a => length (all_hooks a));;
      change (fun a => set_hooks (all_hooks a ++ [Hooks n None None]) a);;;
      v <- private_data e k (hooks_ref h);;
      ret (hooks_of v)
  end.
Definition the_hooks (h : nat) : M hooks :=
  o <- look (fun a => all_hooks a !! h);; match o with Some x => ret x | None => throw end.
Definition update_hooks (h : nat) (f : hooks -> hooks) : M unit := change (fun a => set_hooks (alter f h (all_hooks a)) a).

(** ** jQuery.dequeue *)

Definition shift_of (q : option nat) : M (option item) :=
  match q with
  | Some a => i <- look (fun s => fst (shift a s));; change (fun s => snd (shift a s));;; ret i
  | None => ret None
  end.
(** The call of what was taken from the queue. *)
Definition run_item (e : holder) (f : qfn) (next h : nat) : M unit :=
  match f with
  | Given f => apply (Fn f) (holder_value e) [closure_ref next; hooks_ref h];;; ret tt
  | DelayFor _ =>
      t <- look (fun a => length (timers a));;
      change (fun a => set_timers (timers a ++ [Some next]) a);;;
      update_hooks h (fun x => Hooks (h_empty x) (h_cur x) (Some t))
  end.
Definition dequeue (e : holder) (type : jstr) : M unit :=
  let type := fx_default type in
  q <- queue e type None;;
  startLength <- look (fun s => Z.of_nat (length (items_of q s)));;
  fn <- shift_of q;;
  o <- queueHooks e type;;
  next <- new_closure (Next e type);;
  r <- (if bool_decide (fn = Some Sentinel) then fn <- shift_of q;; ret (fn, startLength - 1) else ret (fn, startLength));;
  match o with
  | None => throw
  | Some h =>
      update_hooks h (fun x => Hooks (h_empty x) r.1 (h_stop x));;;
      match r.1 with
      | Some i =>
          (if js_eqb type (u "fx") then change (fun s => match q with Some a => unshift a s | None => s end) else ret tt);;;
          update_hooks h (fun x => Hooks (h_empty x) (h_cur x) None);;;
          match i with
          | Run f => run_item e f next h
          | Sentinel => throw
          end
      | None => ret tt
      end;;;
      if r.2 =? 0 then x <- the_hooks h;; fireWith fire (0%nat, h_empty x) (CallbacksRef (h_empty x)) [] else ret tt
  end.

(** ** The methods *)

Fixpoint each {A} (f : A -> M unit) (l : list A) : M unit :=
  match l with [] => ret tt | x :: l => f x;;; each f l end.
(** [queue(type, data)]; [None]: the type is left out. *)
Definition queue_one (type : jstr) (d : list qfn + qfn) (e : holder) : M unit :=
  q <- queue e type (Some d);;
  queueHooks e type;;;
  l <- look (items_of q);;
  if js_eqb type (u "fx") && negb (bool_decide (head l = Some Sentinel)) then
    dequeue e type
  else ret tt.
Definition queue_all (elems : list holder) (type : option jstr) (d : list qfn + qfn) : M unit :=
  each (queue_one (default (u "fx") type) d) elems.
(** [jQuery.fx.speeds[ time ] || time] *)
Definition speed_of (time : prim) : prim :=
  match time with
  | PStr t => if js_eqb t (u "slow") then PNum (of_Z 600) else if js_eqb t (u "fast") then PNum (of_Z 200)
              else if js_eqb t (u "_default") then PNum (of_Z 400) else time
  | _ => time
  end.
Definition delay (elems : list holder) (time : prim) (type : jstr) : M unit :=
  queue_all elems (Some (fx_default type)) (inr (DelayFor (speed_of time))).
Definition clearQueue (elems : list holder) (type : jstr) : M unit := queue_all elems (Some (fx_default type)) (inl []).
(** The function [resolve] of a call of promise. *)
Definition resolve (p : nat) : M unit :=
  o <- look (fun a => promises a !! p);;
  match o with
  | None => throw
  | Some x =>
      change (fun a => set_promises (<[p := PromiseRec (p_defer x) (p_count x - 1)]> (promises a)) a);;;
      if p_count x - 1 =? 0 then fireWith fire (S (p_defer x), 0%nat) (elements_ref p) [elements_ref p] else ret tt
  end.
Definition wait_for (p c : nat) (type : jstr) (e : holder) : M unit :=
  v <- private_data e (type ++ u "queueHooks") undef;;
  match hooks_of v with
  | Some h =>
      x <- the_hooks h;;
      change (fun a => set_promises (alter (fun x => PromiseRec (p_defer x) (p_count x + 1)) p (promises a)) a);;;
      add_to fire (0%nat, h_empty x) [Lib c]
  | None => ret tt
  end.
Definition promise (elems : list holder) (type : option jstr) : M value :=
  d <- new_deferred fire;;
  p <- look (fun a => length (promises a));;
  change (fun a => set_promises (promises a ++ [PromiseRec d 1]) a);;;
  c <- new_closure (Resolve p);;
  each (wait_for p c (fx_default (default [] type))) (rev elems);;;
  resolve p;;;
  ret (PromiseRef d).

(** ** Operations *)

Definition call_closure (c : nat) : M unit :=
  o <- look (fun a => q_closures a !! c);;
  match o with
  | Some (Next e type) => dequeue e type
  | Some (Emptied e type) => remove_private e (type ++ u "queue");;; remove_private e (type ++ u "queueHooks")
  | Some (Resolve p) => resolve p
  | None => throw
  end.
Definition given (d : list func + func) : list qfn + qfn := match d with inl l => inl (map Given l) | inr f => inr (Given f) end.
Definition then_undef (m : M unit) : M value := m;;; ret undef.
Definition queue_exec (o : queue_op) : M value :=
  match o with
  | QueueOf e type d => q <- queue e type (given <$> d);; ret (match q with Some a => array_ref a | None => SomeObject end)
  | DequeueOf e type => then_undef (dequeue e type)
  | QueueAll elems type d => then_undef (queue_all elems type (given d))
  | DequeueAll elems type => then_undef (each (fun e => dequeue e type) elems)
  | Delay elems time type => then_undef (delay elems time type)
  | ClearQueue elems type => then_undef (clearQueue elems type)
  | PromiseOf elems type => promise elems type
  | CallFunction v => match closure_of v with Some c => then_undef (call_closure c) | None => throw end
  | CallStop v =>
      match hooks_of v with
      | Some h => x <- the_hooks h;;
                  match h_stop x with
                  | Some t => change (fun a => set_timers (<[t := None]> (timers a)) a);;; ret undef
                  | None => throw
                  end
      | None => throw
      end
  | Timeout t =>
      o <- look (fun a => timers a !! t);;
      match o with
      | Some (Some c) => change (fun a => set_timers (<[t := None]> (timers a)) a);;; then_undef (call_closure c)
      | _ => ret undef
      end
  end.
Definition queue_call (c : nat) (context : value) (args : list value) : M value := then_undef (call_closure c).
End Code.

#[export] Instance queue_code {N : Nodes} : LibraryCode queue_library :=
  @Build_LibraryCode queue_library (fun _ apply fire e => queue_exec apply fire e) (fun _ apply fire c context args => queue_call apply fire c context args).

(** ** Examples *)

Section Examples.
#[local] Instance all_elements : Nodes := {| node_type _ := 1; node_name _ := u "div"; classid _ := None; parse_json _ := None |}.
(** Function 1 calls [next]; function 2 lists its number only; function 3 does it when a
    promise is resolved. *)
Definition ex_body (f : nat) (context : value) (args : list value) : prog :=
  match f, args with
  | 1%nat, next :: _ => Do (Ext (CallFunction next)) (fun _ => Return undef)
  | _, _ => Return undef
  end.
Definition begun (w : world) : list item := omap (fun e => match e with Shifted _ i => Some i | _ => None end) (q_log (more w)).
Definition page_of (p : prog) : option (list item * list (cb * list value) * list jstr) :=
  match execute ex_body 40 p world0 with Some (w, Ok _) => Some (begun w, calls w, states w) | _ => None end.
Definition el : holder := Node 7.
Definition go (o : queue_op) (k : prog) : prog := Do (Ext o) (fun _ => k).
Definition fn_ (n : nat) : qfn := Given (User n).
(** A queue with a name of its own waits for the page; fx starts alone and then waits for
    [next]. The promise of a queue is resolved when it is run to its end. *)
Example queue_ex :
  page_of (go (QueueAll [el] (Some (u "q")) (inl [User 1; User 1; User 2])) (go (DequeueAll [el] (u "q")) (Return undef))) =
    Some ([Run (fn_ 1); Run (fn_ 1); Run (fn_ 2)], [], []) /\
  page_of (go (QueueAll [el] None (inr (User 2))) (go (QueueAll [el] None (inr (User 1)))
    (Do (Ext (PromiseOf [el] None)) (fun v => Do (Listen 0 0 [AFun (User 3)]) (fun _ => go (DequeueAll [el] []) (Return undef)))))) =
    Some ([Run (fn_ 2); Sentinel; Run (fn_ 1); Sentinel], [(Fn (User 3), [elements_ref 0])], [u "resolved"]).
Proof. vm_compute. split; reflexivity. Qed.
(** clearQueue while a function of fx runs empties the queue without its sentinel: the
    queue is taken for finished, the promise is resolved and the next function starts. *)
Theorem cleared_too_early :
  page_of (go (QueueAll [el] None (inr (User 2))) (Do (Ext (PromiseOf [el] None)) (fun v => go (ClearQueue [el] []) (Return undef)))) =
    Some ([Run (fn_ 2)], [], [u "resolved"]).
Proof. vm_compute. reflexivity. Qed.
End Examples.
