(* ===== verification/QueueProps.v ===== *)
(** * Queues: properties

    Whatever the functions of a page do, a queue gives its functions out in the order in
    which they were put there, each once; going on to the next function calls it, with the
    sentinel in front of what is left in fx, and queueing calls none while the sentinel is
    there ([queue_order]). *)

From Stdlib Require Import ZArith Lia.
From stdpp Require Import base tactics list numbers strings gmap.
From S2P Require Import Prelude JsValue ValidPage ValidRules Deferred DeferredProps LibraryFacts DataCache Queue.
From S2P Require DataProps.
Local Open Scope Z_scope.
Local Open Scope deferred_scope.

(** ** The history of an array *)

(** The functions put into the array, and those taken out. *)
Definition put_in (a : nat) (h : list q_event) : list qfn :=
  flat_map (fun e => match e with Put b fs => if decide (a = b) then fs else [] | _ => [] end) h.
Definition taken (a : nat) (h : list q_event) : list qfn :=
  omap (fun e => match e with Shifted b (Run f) => if decide (a = b) then Some f else None | _ => None end) h.
(** The sentinels put in front and not taken away: a function was started and nobody has
    gone on to the next since then. *)
Definition running1 (a : nat) (e : q_event) : Z :=
  match e with
  | Unshifted b => if decide (a = b) then 1 else 0
  | Shifted b Sentinel => if decide (a = b) then -1 else 0
  | _ => 0
  end.
Definition running (a : nat) (h : list q_event) : Z := fold_left (fun n e => n + running1 a e) h 0.
Definition waiting (l : list item) : list qfn := omap (fun i => match i with Run f => Some f | Sentinel => None end) l.

Lemma put_in_app a h e : put_in a (h ++ e) = put_in a h ++ put_in a e.
Proof. unfold put_in. by rewrite flat_map_app. Qed.
Lemma taken_app a h e : taken a (h ++ e) = taken a h ++ taken a e.
Proof. unfold taken. by rewrite omap_app. Qed.
Lemma running_snoc a h e : running a (h ++ [e]) = running a h + running1 a e.
Proof. unfold running. by rewrite fold_left_app. Qed.
Lemma waiting_app l k : waiting (l ++ k) = waiting l ++ waiting k.
Proof. unfold waiting. by rewrite omap_app. Qed.
Lemma waiting_run fs : waiting (map Run fs) = fs.
Proof. induction fs as [|f fs IH]; [done|]. change (f :: waiting (map Run fs) = f :: fs). by rewrite IH. Qed.
Lemma waiting_sentinels k : waiting (replicate k Sentinel) = [].
Proof. by induction k. Qed.

(** ** The invariant *)

Definition array_ok (h : list q_event) (a : nat) (l : list item) : Prop :=
  0 <= running a h /\ l = replicate (Z.to_nat (running a h)) Sentinel ++ map Run (waiting l) /\ put_in a h = taken a h ++ waiting l.
Definition untouched (h : list q_event) (a : nat) : Prop := put_in a h = [] /\ taken a h = [] /\ running a h = 0.
Record queues_ok (s : queue_state) : Prop := {
  q_arrays a l : arrays s !! a = Some l -> array_ok (q_log s) a l;
  q_new a : (length (arrays s) <= a)%nat -> untouched (q_log s) a
}.
Lemma queues_ok_init : queues_ok queue_init.
Proof. by split. Qed.

(** An event about one array. *)
Definition about (e : q_event) : nat := match e with Put a _ | Shifted a _ | Unshifted a => a end.
Lemma other_event h a e : about e <> a -> put_in a (h ++ [e]) = put_in a h /\ taken a (h ++ [e]) = taken a h /\ running a (h ++ [e]) = running a h.
Proof.
  intros H. rewrite put_in_app, taken_app, running_snoc. destruct e as [b fs|b [|f]|b]; cbn in *; rewrite ?decide_False by done;
    by rewrite ?app_nil_r, ?Z.add_0_r.
Qed.
(** A change of one array with its event. *)
Lemma changed_ok s a l e : about e = a -> (a < length (arrays s))%nat ->
  (array_ok (q_log s ++ [e]) a l) -> queues_ok s -> queues_ok (set_arrays (<[a := l]> (arrays s)) [e] s).
Proof.
  intros He Ha Hl [H1 H2]. split; cbn.
  - intros b k Hk. destruct (decide (b = a)) as [->|Hne].
    + rewrite list_lookup_insert_eq in Hk by done. by injection Hk as <-.
    + rewrite list_lookup_insert_ne in Hk by done. destruct (H1 b k Hk) as (R & E & P).
      destruct (other_event (q_log s) b e ltac:(congruence)) as (E1 & E2 & E3). unfold array_ok. by rewrite E1, E2, E3.
  - intros b Hb. rewrite length_insert in Hb. destruct (other_event (q_log s) b e ltac:(lia)) as (E1 & E2 & E3). unfold untouched.
    rewrite E1, E2, E3. by apply H2.
Qed.
Lemma replicate_plus k : 0 <= k -> replicate (Z.to_nat (k + 1)) Sentinel = Sentinel :: replicate (Z.to_nat k) Sentinel.
Proof. intros Hk. by rewrite Z2Nat.inj_add, Nat.add_1_r by lia. Qed.
Lemma push_ok a fs s : queues_ok s -> queues_ok (push_fns a fs s).
Proof.
  intros H. unfold push_fns. destruct (arrays s !! a) as [l|] eqn:E; [|done]. destruct (q_arrays _ H a l E) as (R & El & P).
  apply changed_ok; [done|by eapply lookup_lt_Some| |done]. unfold array_ok. rewrite put_in_app, taken_app, running_snoc. cbn.
  rewrite decide_True, !app_nil_r, Z.add_0_r by done. split; [done|]. rewrite waiting_app, waiting_run. split.
  - rewrite map_app, app_assoc. by rewrite <- El.
  - by rewrite P, <- app_assoc.
Qed.
Lemma unshift_ok a s : queues_ok s -> queues_ok (unshift a s).
Proof.
  intros H. unfold unshift. destruct (arrays s !! a) as [l|] eqn:E; [|done]. destruct (q_arrays _ H a l E) as (R & El & P).
  apply changed_ok; [done|by eapply lookup_lt_Some| |done]. unfold array_ok. rewrite put_in_app, taken_app, running_snoc. cbn.
  rewrite decide_True, !app_nil_r by done. split; [lia|]. split; [|done]. rewrite replicate_plus by done. cbn [app]. f_equal. exact El.
Qed.
Lemma shift_ok a s : queues_ok s -> queues_ok (shift a s).2.
Proof.
  intros H. unfold shift. destruct (arrays s !! a) as [[|i l]|] eqn:E; [done| |done]. destruct (q_arrays _ H a _ E) as (R & El & P).
  apply changed_ok; [done|by eapply lookup_lt_Some| |done]. unfold array_ok. rewrite put_in_app, taken_app, running_snoc.
  destruct (decide (running a (q_log s) = 0)) as [Hz|Hz].
  - rewrite Hz in El |- *. change (i :: l = map Run (waiting (i :: l))) in El. destruct i as [|f]; [destruct (waiting (Sentinel :: l)); discriminate El|].
    change (waiting (Run f :: l)) with (f :: waiting l) in El, P. injection El as El. cbn [put_in flat_map taken omap list_omap running1 about].
    rewrite decide_True, app_nil_r by done. split; [done|]. split; [exact El|]. by rewrite P, <- app_assoc.
  - replace (running a (q_log s)) with (running a (q_log s) - 1 + 1) in El by lia. rewrite replicate_plus in El by lia. injection El as -> El.
    change (waiting (Sentinel :: l)) with (waiting l) in El, P. cbn [put_in flat_map taken omap list_omap running1 about].
    rewrite decide_True, !app_nil_r by done. split; [lia|]. split; [|done]. exact El.
Qed.
Lemma add_array_ok fs s : queues_ok s -> queues_ok (add_array fs s).
Proof.
  intros [H1 H2]. unfold add_array. split; cbn.
  - intros a l Hl. destruct (decide (a = length (arrays s))) as [->|Hne].
    + rewrite list_lookup_middle in Hl by done. injection Hl as <-. destruct (H2 _ (le_n _)) as (E1 & E2 & E3). unfold array_ok.
      rewrite put_in_app, taken_app, running_snoc, E1, E2, E3. cbn. rewrite decide_True, !app_nil_r, waiting_run by done. done.
    + apply lookup_snoc_Some in Hl as [[Hlt Hl]|[-> _]]; [|done]. destruct (H1 a l Hl) as (R & E & P).
      destruct (other_event (q_log s) a (Put (length (arrays s)) fs) ltac:(done)) as (E1 & E2 & E3). unfold array_ok. by rewrite E1, E2, E3.
  - intros a Ha. rewrite length_app in Ha. cbn in Ha. destruct (other_event (q_log s) a (Put (length (arrays s)) fs) ltac:(cbn; lia)) as (E1 & E2 & E3).
    unfold untouched. rewrite E1, E2, E3. apply H2. lia.
Qed.
Lemma same_ok s s' : arrays s' = arrays s -> q_log s' = q_log s -> queues_ok s -> queues_ok s'.
Proof. intros E1 E2 [H1 H2]. split; rewrite ?E1, ?E2; done. Qed.

(** ** Every operation keeps it *)

Section Steps.
Context {N : Nodes}.
Definition step_ok (s s' : queue_state) : Prop := queues_ok s -> queues_ok s'.
#[export] Instance step_preorder : PreOrder step_ok.
Proof. split; [by intros s H|]. intros s1 s2 s3 H1 H2 H. by apply H2, H1. Qed.

Context (apply : cb -> value -> list value -> M value) (fire : lid -> data -> M unit).
Context (Happly : forall f context args, moves step_ok (apply f context args)) (Hfire : forall l D, moves step_ok (fire l D)).

(** Changes of what the invariant does not look at. *)
Lemma moves_same f : (forall s, arrays (f s) = arrays s /\ q_log (f s) = q_log s) -> moves step_ok (change f).
Proof. intros H. apply moves_change. intros s Hs. destruct (H s). by apply (same_ok s). Qed.
Ltac known := fail.
Ltac queue_step :=
  first [known|match goal with
  | |- moves _ (bind _ _) => apply moves_bind; [apply _| |intros ?]
  | |- moves _ (ret _) => apply moves_ret; apply _
  | |- moves _ throw => apply moves_throw; apply _
  | |- moves _ (get _) => apply moves_get; apply _
  | |- moves _ (look _) => apply moves_get; apply _
  | |- moves _ (put_list _ _) => apply moves_rest; intros ?; reflexivity
  | |- moves _ (modify _) => apply moves_rest; intros ?; reflexivity
  | |- moves _ (change (push_fns _ _)) => apply moves_change; intros ? ?; by apply push_ok
  | |- moves _ (change (add_array _)) => apply moves_change; intros ? ?; by apply add_array_ok
  | |- moves _ (change (fun s => snd (shift _ s))) => apply moves_change; intros ? ?; by apply shift_ok
  | |- moves _ (change _) => by apply moves_same; intros ?
  | |- moves _ (then_undef _) => unfold then_undef
  | |- moves _ (let _ := _ in _) => cbv zeta
  | |- moves _ (match ?x with _ => _ end) => destruct x
  end].
Ltac queue_steps := repeat queue_step.

Lemma moves_private e k v : moves step_ok (private_data e k v).
Proof. unfold private_data. queue_steps. Qed.
Lemma moves_remove_private e k : moves step_ok (remove_private e k).
Proof. unfold remove_private. queue_steps. Qed.
Lemma moves_closure c : moves step_ok (new_closure c).
Proof. unfold new_closure. queue_steps. Qed.
Ltac known ::= match goal with
  | |- moves _ (private_data _ _ _) => apply moves_private
  | |- moves _ (remove_private _ _) => apply moves_remove_private
  | |- moves _ (new_closure _) => apply moves_closure
  end.
Lemma moves_queue e type d : moves step_ok (queue e type d).
Proof. unfold queue. queue_steps. Qed.
Lemma moves_fireWith_queue l c args : moves step_ok (fireWith fire l c args).
Proof. apply moves_fireWith; [apply _|done]. Qed.
Lemma moves_add_queue l fs : moves step_ok (add_to fire l fs).
Proof. apply moves_add; [apply _|done]. Qed.
Ltac known ::= match goal with
  | |- moves _ (private_data _ _ _) => apply moves_private
  | |- moves _ (remove_private _ _) => apply moves_remove_private
  | |- moves _ (new_closure _) => apply moves_closure
  | |- moves _ (add_to _ _ _) => apply moves_add_queue
  | |- moves _ (fireWith _ _ _ _) => apply moves_fireWith_queue
  | |- moves _ (apply _ _ _) => apply Happly
  end.
Lemma moves_new_list f : moves step_ok (new_list fire f).
Proof. unfold new_list. queue_steps. Qed.
Lemma moves_queueHooks e type : moves step_ok (queueHooks fire e type).
Proof. unfold queueHooks. repeat first [apply moves_new_list|queue_step]. Qed.
Lemma moves_the_hooks h : moves step_ok (the_hooks h).
Proof. unfold the_hooks. queue_steps. Qed.
Lemma moves_update_hooks h f : moves step_ok (update_hooks h f).
Proof. unfold update_hooks. queue_steps. Qed.
Lemma moves_shift_of q : moves step_ok (shift_of q).
Proof. unfold shift_of. queue_steps. Qed.
Lemma moves_run_item e f next h : moves step_ok (run_item apply e f next h).
Proof. unfold run_item. repeat first [apply moves_update_hooks|queue_step]. Qed.
Lemma moves_unshift q : moves step_ok (change (fun s => match q with Some a => unshift a s | None => s end)).
Proof. apply moves_change. intros s Hs. destruct q; [by apply unshift_ok|done]. Qed.
Ltac known ::= match goal with
  | |- moves _ (private_data _ _ _) => apply moves_private
  | |- moves _ (remove_private _ _) => apply moves_remove_private
  | |- moves _ (new_closure _) => apply moves_closure
  | |- moves _ (add_to _ _ _) => apply moves_add_queue
  | |- moves _ (fireWith _ _ _ _) => apply moves_fireWith_queue
  | |- moves _ (queue _ _ _) => apply moves_queue
  | |- moves _ (shift_of _) => apply moves_shift_of
  | |- moves _ (queueHooks _ _ _) => apply moves_queueHooks
  | |- moves _ (the_hooks _) => apply moves_the_hooks
  | |- moves _ (update_hooks _ _) => apply moves_update_hooks
  | |- moves _ (run_item _ _ _ _ _) => apply moves_run_item
  | |- moves _ (change (fun s => match _ with Some _ => _ | None => _ end)) => apply moves_unshift
  | |- moves _ (new_deferred _) => apply (@moves_new_deferred queue_library step_ok _ fire Hfire)
  end.
Lemma moves_dequeue e type : moves step_ok (dequeue apply fire e type).
Proof.
  unfold dequeue. queue_steps.
Qed.
Lemma moves_queue_one type d e : moves step_ok (queue_one apply fire type d e).
Proof.
  unfold queue_one. apply moves_bind; [apply _|apply moves_queue|]. intros q. apply moves_bind; [apply _|apply moves_queueHooks|]. intros _.
  apply moves_bind; [apply _|apply moves_get; apply _|]. intros l. destruct (_ && _); [apply moves_dequeue|apply moves_ret; apply _].
Qed.
Lemma moves_each {A} (f : A -> M unit) l : (forall x, moves step_ok (f x)) -> moves step_ok (each f l).
Proof. intros H. induction l as [|x l IH]; cbn [each]; [apply moves_ret; apply _|]. apply moves_bind; [apply _|done|done]. Qed.
Lemma moves_queue_all elems type d : moves step_ok (queue_all apply fire elems type d).
Proof. apply moves_each. intros e. apply moves_queue_one. Qed.
Lemma moves_resolve p : moves step_ok (resolve fire p).
Proof. unfold resolve. queue_steps. Qed.
Lemma moves_wait_for p c type e : moves step_ok (wait_for fire p c type e).
Proof. unfold wait_for. queue_steps. Qed.
Lemma moves_promise elems type : moves step_ok (promise fire elems type).
Proof.
  unfold promise. repeat first [apply moves_resolve|apply moves_each; apply moves_wait_for|queue_step].
Qed.
Lemma moves_call_closure c : moves step_ok (call_closure apply fire c).
Proof. unfold call_closure. repeat first [apply moves_dequeue|apply moves_resolve|queue_step]. Qed.
Ltac page_step :=
  match goal with
  | |- moves _ (dequeue _ _ _ _) => apply moves_dequeue
  | |- moves _ (queue_all _ _ _ _ _) => apply moves_queue_all
  | |- moves _ (promise _ _ _) => apply moves_promise
  | |- moves _ (call_closure _ _ _) => apply moves_call_closure
  | |- moves _ (each _ _) => apply moves_each; intros ?
  end.
Lemma moves_queue_exec o : moves step_ok (queue_exec apply fire o).
Proof.
  unfold queue_exec, delay, clearQueue. repeat first [page_step|queue_step].
Qed.
End Steps.
Lemma reached_queues (N : Nodes) body w : reached body w -> queues_ok (more w).
Proof.
  induction 1 as [|w fuel p w' o _ IH E]; [apply queues_ok_init|].
  assert (H : moves step_ok (execute body fuel p)).
  { apply moves_execute; [apply _| |].
    - intros bound apply fire Ha Hf e. by apply moves_queue_exec.
    - intros bound apply fire Ha Hf c context args. apply moves_bind; [apply _|by apply moves_call_closure|intros ?; apply moves_ret; apply _]. }
  specialize (H w). rewrite E in H. by apply H.
Qed.

(** ** One step

    What going on to the next function and queueing do, whatever calls and firings are. *)

Lemma camelize_plain k : 45 ∉ k -> camelize k = k.
Proof.
  induction k as [|c k IH]; [done|]. intros [Hc Hk]%not_elem_of_cons. cbn [camelize]. rewrite (IH Hk).
  destruct k as [|d k]; [done|]. destruct (Z.eqb_spec c 45) as [->|_]; [done|]. done.
Qed.
Lemma camelCase_plain k : 45 ∉ k -> camelCase k = k.
Proof.
  intros H. unfold camelCase. destruct (prefix_b (u "-ms-") k) eqn:E; [|by apply camelize_plain].
  exfalso. apply H. destruct k as [|c k]; [discriminate E|]. cbn in E. apply andb_true_iff in E as [E _].
  destruct c as [|q|]; [discriminate E| |discriminate E]. apply Pos.eqb_eq in E. subst q. by left.
Qed.
Lemma bind_ok {L : Library} {A B} (m : M A) (k : A -> M B) w w' a : m w = Some (w', Ok a) -> bind m k w = k a w'.
Proof. unfold bind. by intros ->. Qed.

Section OneStep.
Context {N : Nodes}.
Context (apply : cb -> value -> list value -> M value) (fire : lid -> data -> M unit).

(** What the library keeps for an element under a name. *)
Definition kept (e : holder) (k : jstr) (s : store) : option value :=
  match entry_of e s with Some c => private c !! k | None => None end.
Definition with_more (f : queue_state -> queue_state) (w : world) : world :=
  World (lists w) (states w) (whens w) (next_list w) (f (more w)) (trace w).

Lemma put_same e c s : entry_of e s = Some c -> put_entry e c s = s.
Proof.
  intros E. destruct e as [n|o].
  - apply DataProps.entry_id in E as (id & E1 & E2). cbn [put_entry]. rewrite E1, insert_id by done. by destruct s.
  - cbn in *. rewrite insert_id by done. by destruct s.
Qed.
Lemma private_read e k w : acceptData e = true -> camelCase k = k ->
  private_data e k undef w = Some (w, Ok (default undef (kept e k (q_store (more w))))).
Proof.
  intros Ha Hk. unfold private_data, bind, look, get, ret, change, modify, kept.
  destruct (entry_of e (q_store (more w))) as [c|] eqn:E.
  - assert (Hen : ensure e (q_store (more w)) = q_store (more w)).
    { unfold ensure. replace (with_id e (q_store (more w))) with (q_store (more w)); [by rewrite E|].
      destruct e as [n|o]; [|done]. apply DataProps.entry_id in E as (id & E1 & _). cbn. by rewrite E1. }
    unfold internalData. rewrite Ha, E. cbn [negb andb orb]. rewrite Hen, E. cbn [default option_rect part_of with_part].
    assert (Hp : Entry (public c) (private c) = c) by (by destruct c). change (undefined undef) with true. cbv iota zeta.
    change (default (new_entry e) (Some c)) with c. unfold id.
    rewrite Hp, !(put_same e c (q_store (more w)) E). cbn [fst snd value_of].
    assert (Hw : World (lists w) (states w) (whens w) (next_list w) (set_store (q_store (more w)) (more w)) (trace w) = w).
    { destruct w as [? ? ? ? m ?]. cbn. by destruct m. }
    rewrite Hw. unfold read_key. rewrite Hk. by destruct (null_or_undefined _).
  - unfold internalData. rewrite Ha, E. cbn. destruct w as [? ? ? ? m ?]. cbn. by destruct m.
Qed.
Lemma private_write e k v w : acceptData e = true -> camelCase k = k -> null_or_undefined v = false -> DataProps.sound (q_store (more w)) ->
  exists s, private_data e k v w = Some (with_more (set_store s) w, Ok v) /\ DataProps.sound s /\ kept e k s = Some v /\
    (forall k', k' <> k -> k' <> u "toJSON" -> kept e k' s = kept e k' (q_store (more w))) /\
    forall e', e' <> e -> entry_of e' s = entry_of e' (q_store (more w)).
Proof.
  intros Ha Hk Hv S. pose proof (DataProps.internalData_becomes e (Key k) v true _ S) as [(S' & E & O) R].
  assert (Hu : undefined v = false) by (by destruct v as [[]| | | | | | | |]).
  unfold DataProps.data_spec in E, R. rewrite Ha, Hu, andb_false_r in E, R. cbn [negb fst snd part_of with_part] in E, R. rewrite Hk in E, R.
  exists (internalData e (Key k) v true (q_store (more w))).1. split; [|split; [done|split; [|split; [|done]]]].
  - unfold private_data, bind, look, get, ret, change, modify. rewrite R. cbn [value_of]. unfold read_key. rewrite Hk, lookup_insert_eq. cbn.
    by rewrite Hv.
  - unfold kept. rewrite E. cbn. apply lookup_insert_eq.
  - intros k' Hne Hj. unfold kept. rewrite E. cbn. rewrite lookup_insert_ne by done.
    destruct (entry_of e (q_store (more w))) as [c|]; [done|]. destruct e as [n|o]; [apply lookup_empty|].
    change (({[u "toJSON" := noop]} : gmap jstr value) !! k' = None). apply lookup_singleton_ne. congruence.
Qed.

(** The array and the hooks of a queue that is there. *)
Record stands (w : world) (e : holder) (type : jstr) (a h : nat) (l : list item) (x : hooks) : Prop := {
  st_data : acceptData e = true;
  st_queue : kept e (type ++ u "queue") (q_store (more w)) = Some (array_ref a);
  st_key : kept e (type ++ u "queueHooks") (q_store (more w)) = Some (hooks_ref h);
  st_array : arrays (more w) !! a = Some l;
  st_hooks : all_hooks (more w) !! h = Some x
}.
(** Nothing else is touched: lists of callbacks, what was called, data, timers, other arrays and hooks. *)
Record only_queue (a h : nat) (w w1 : world) : Prop := {
  oq_lists : lists w1 = lists w;
  oq_trace : trace w1 = trace w;
  oq_store : q_store (more w1) = q_store (more w);
  oq_timers : timers (more w1) = timers (more w);
  oq_promises : promises (more w1) = promises (more w);
  oq_arrays b : b <> a -> arrays (more w1) !! b = arrays (more w) !! b;
  oq_hooks b : b <> h -> all_hooks (more w1) !! b = all_hooks (more w) !! b
}.
Definition plain_type (type : jstr) : Prop := type <> [] /\ 45 ∉ type.
Lemma plain_key type s : plain_type type -> 45 ∉ u s -> camelCase (type ++ u s) = type ++ u s.
Proof. intros [_ H] Hs. apply camelCase_plain. by rewrite not_elem_of_app. Qed.
Lemma plain_queue type : plain_type type -> camelCase (type ++ u "queue") = type ++ u "queue".
Proof. intros H. apply plain_key; [done|]. refine (bool_decide_unpack _ _). by vm_compute. Qed.
Lemma plain_hooks type : plain_type type -> camelCase (type ++ u "queueHooks") = type ++ u "queueHooks".
Proof. intros H. apply plain_key; [done|]. refine (bool_decide_unpack _ _). by vm_compute. Qed.
Lemma plain_default type : plain_type type -> fx_default type = type.
Proof. intros [H _]. by destruct type. Qed.

Lemma queue_there w e type a : plain_type type -> acceptData e = true ->
  kept e (type ++ u "queue") (q_store (more w)) = Some (array_ref a) -> queue e type None w = Some (w, Ok (Some a)).
Proof.
  intros Ht Ha Hq. unfold queue. rewrite plain_default by done. cbv zeta.
  rewrite (bind_ok _ _ w w (array_ref a)); [done|]. by rewrite private_read, Hq by (done || by apply plain_queue).
Qed.
Lemma hooks_there w e type h : plain_type type -> acceptData e = true ->
  kept e (type ++ u "queueHooks") (q_store (more w)) = Some (hooks_ref h) -> queueHooks fire e type w = Some (w, Ok (Some h)).
Proof.
  intros Ht Ha Hq. unfold queueHooks. cbv zeta.
  rewrite (bind_ok _ _ w w (hooks_ref h)); [done|]. by rewrite private_read, Hq by (done || by apply plain_hooks).
Qed.

(** What is called, and in which state: the function is the current one, fx has its sentinel
    in front again, and [next] is a new closure. *)
Record starts (w w1 : world) (e : holder) (type : jstr) (a h : nat) (x : hooks) (f : qfn) (rest : list item) : Prop := {
  ss_stands : stands w1 e type a h (if js_eqb type (u "fx") then Sentinel :: rest else rest) (Hooks (h_empty x) (Some (Run f)) None);
  ss_next : q_closures (more w1) !! length (q_closures (more w)) = Some (Next e type);
  ss_only : only_queue a h w w1
}.
Lemma shift_there w a i l : arrays (more w) !! a = Some (i :: l) ->
  shift_of (Some a) w = Some (with_more (set_arrays (<[a := l]> (arrays (more w))) [Shifted a i]) w, Ok (Some i)).
Proof. intros E. unfold shift_of, bind, look, get, change, modify, ret, shift. by rewrite E. Qed.
Lemma stands_shifted w e type a h l x l' es : stands w e type a h l x ->
  stands (with_more (set_arrays (<[a := l']> (arrays (more w))) es) w) e type a h l' x.
Proof. intros [Ha Hq Hk Hl Hx]. split; [done..| |done]. cbn. rewrite list_lookup_insert_eq; [done|by eapply lookup_lt_Some]. Qed.
Lemma bind_unit {L : Library} (m : M unit) w : bind m (fun _ => ret tt) w = m w.
Proof. unfold bind. by destruct (m w) as [[w1 [[]|]]|]. Qed.
Lemma only_queue_then a h w w1 w2 : only_queue a h w w1 -> only_queue a h w1 w2 -> only_queue a h w w2.
Proof.
  intros [A1 A2 A3 A4 A5 A6 A7] [B1 B2 B3 B4 B5 B6 B7]. split; try congruence; intros b Hb; [by rewrite B6, A6|by rewrite B7, A7].
Qed.
Lemma only_arrays a h l es w : only_queue a h w (with_more (set_arrays (<[a := l]> (arrays (more w))) es) w).
Proof. split; try done. intros b Hb. by apply list_lookup_insert_ne. Qed.
Lemma only_hooks a h f w : only_queue a h w (with_more (set_hooks (alter f h (all_hooks (more w)))) w).
Proof. split; try done. intros b Hb. by apply list_lookup_alter_ne. Qed.
Lemma only_closures a h l w : only_queue a h w (with_more (set_closures l) w).
Proof. by split. Qed.
Lemma stands_hooks w e type a h l x f : stands w e type a h l x ->
  stands (with_more (set_hooks (alter f h (all_hooks (more w)))) w) e type a h l (f x).
Proof. intros [Ha Hq Hk Hl Hx]. split; [done..|]. cbn. by rewrite list_lookup_alter_eq, Hx. Qed.
(** The middle of [dequeue]: the hooks, the sentinel, the call. *)
Lemma launch v e type a h x f rest n z : stands v e type a h rest x -> z <> 0 ->
  exists w1, stands w1 e type a h (if js_eqb type (u "fx") then Sentinel :: rest else rest) (Hooks (h_empty x) (Some (Run f)) None) /\
    q_closures (more w1) = q_closures (more v) /\ only_queue a h v w1 /\
    (update_hooks h (fun x => Hooks (h_empty x) (Some (Run f)) (h_stop x));;;
     ((if js_eqb type (u "fx") then change (fun s => unshift a s) else ret tt);;;
      update_hooks h (fun x => Hooks (h_empty x) (h_cur x) None);;;
      run_item apply e f n h);;;
     (if z =? 0 then x <- the_hooks h;; fireWith fire (0%nat, h_empty x) (CallbacksRef (h_empty x)) [] else ret tt)) v =
    run_item apply e f n h w1.
Proof.
  intros Hst Hz. apply Z.eqb_neq in Hz. rewrite Hz.
  set (g1 := fun x => Hooks (h_empty x) (Some (Run f)) (h_stop x)). set (g2 := fun x => Hooks (h_empty x) (h_cur x) None).
  set (v1 := with_more (set_hooks (alter g1 h (all_hooks (more v)))) v).
  rewrite (bind_ok (update_hooks h g1) _ v v1 tt) by done. pose proof (stands_hooks _ _ _ _ _ _ _ g1 Hst) as H1. fold v1 in H1.
  pose proof (only_hooks a h g1 v) as O1. fold v1 in O1. rewrite bind_unit.
  assert (Hu : exists v2, stands v2 e type a h (if js_eqb type (u "fx") then Sentinel :: rest else rest) (g1 x) /\
    q_closures (more v2) = q_closures (more v1) /\ only_queue a h v1 v2 /\
    (if js_eqb type (u "fx") then change (fun s => unshift a s) else ret tt) v1 = Some (v2, Ok tt)).
  { destruct (js_eqb type (u "fx")); [|by exists v1].
    exists (with_more (set_arrays (<[a := Sentinel :: rest]> (arrays (more v1))) [Unshifted a]) v1).
    split; [by eapply stands_shifted|]. split; [done|]. split; [apply only_arrays|].
    unfold change, modify, unshift. by rewrite (st_array _ _ _ _ _ _ _ H1). }
  destruct Hu as (v2 & H2 & C2 & O2 & E2). rewrite (bind_ok _ _ _ _ _ E2).
  set (v3 := with_more (set_hooks (alter g2 h (all_hooks (more v2)))) v2).
  rewrite (bind_ok (update_hooks h g2) _ v2 v3 tt) by done. exists v3. split; [by eapply (stands_hooks _ _ _ _ _ _ _ g2 H2)|].
  split; [by change (q_closures (more v2) = q_closures (more v)); rewrite C2|]. split; [|done]. by eapply only_queue_then; [|eapply only_queue_then; [|apply only_hooks]].
Qed.
(** The beginning of [dequeue]: what it finds, the first item taken, the new closure. *)
Definition opened (w : world) (e : holder) (type : jstr) (a : nat) (l : list item) (es : list q_event) : world :=
  with_more (set_closures (q_closures (more w) ++ [Next e type])) (with_more (set_arrays (<[a := l]> (arrays (more w))) es) w).
Lemma opened_stands w e type a h l x l' es : stands w e type a h l x -> stands (opened w e type a l' es) e type a h l' x.
Proof. intros H. by destruct (stands_shifted w e type a h l x l' es H). Qed.
Lemma opened_only w e type a h l es : only_queue a h w (opened w e type a l es).
Proof. eapply only_queue_then; [apply only_arrays|apply only_closures]. Qed.
Lemma opened_next w e type a l es : q_closures (more (opened w e type a l es)) !! length (q_closures (more w)) = Some (Next e type).
Proof. by apply list_lookup_middle. Qed.
Lemma opens w e type a h l x {B} (k : option nat -> Z -> option item -> option nat -> nat -> M B) : plain_type type -> stands w e type a h l x ->
  (q <- queue e type None;; n <- look (fun s => Z.of_nat (length (items_of q s)));; fn <- shift_of q;; o <- queueHooks fire e type;;
   next <- new_closure (Next e type);; k q n fn o next) w =
  k (Some a) (Z.of_nat (length l)) (head l) (Some h) (length (q_closures (more w)))
    (opened w e type a (tail l) (match l with i :: _ => [Shifted a i] | [] => [] end)).
Proof.
  intros Ht Hst. rewrite (bind_ok _ _ _ _ _ (queue_there w e type a Ht (st_data _ _ _ _ _ _ _ Hst) (st_queue _ _ _ _ _ _ _ Hst))).
  rewrite (bind_ok (look _) _ w w (Z.of_nat (length l))) by (unfold look, get, items_of; by rewrite (st_array _ _ _ _ _ _ _ Hst)).
  destruct l as [|i l].
  - assert (E : with_more (set_arrays (<[a := []]> (arrays (more w))) []) w = w).
    { rewrite list_insert_id by apply Hst. destruct w as [? ? ? ? m ?]. cbn. destruct m. unfold with_more, set_arrays. cbn. by rewrite app_nil_r. }
    rewrite (bind_ok _ _ w w None).
    + rewrite (bind_ok _ _ _ _ _ (hooks_there _ e type h Ht (st_data _ _ _ _ _ _ _ Hst) (st_key _ _ _ _ _ _ _ Hst))). unfold opened. cbn [tail].
      by rewrite E.
    + unfold shift_of, bind, look, get, change, modify, ret, shift. rewrite (st_array _ _ _ _ _ _ _ Hst). by destruct w.
  - rewrite (bind_ok _ _ _ _ _ (shift_there w a _ _ (st_array _ _ _ _ _ _ _ Hst))).
    pose proof (stands_shifted w e type a h _ x l [Shifted a i] Hst) as [Ha Hq Hk Hl Hx].
    by rewrite (bind_ok _ _ _ _ _ (hooks_there _ e type h Ht Ha Hk)).
Qed.
(** Going on to a function that waits. *)
Lemma dequeue_starts w e type a h l x f rest : plain_type type -> stands w e type a h l x ->
  l = Run f :: rest \/ l = Sentinel :: Run f :: rest ->
  exists w1, starts w w1 e type a h x f rest /\
    dequeue apply fire e type w = run_item apply e f (length (q_closures (more w))) h w1.
Proof.
  intros Ht Hst Hcases. unfold dequeue. rewrite (plain_default type Ht). cbv zeta.
  rewrite (opens w e type a h l x _ Ht Hst). pose proof (opened_stands w e type a h l x (tail l)
    (match l with i :: _ => [Shifted a i] | [] => [] end) Hst) as Ho.
  pose proof (opened_only w e type a h (tail l) (match l with i :: _ => [Shifted a i] | [] => [] end)) as Oo.
  pose proof (opened_next w e type a (tail l) (match l with i :: _ => [Shifted a i] | [] => [] end)) as No.
  destruct Hcases as [-> | ->]; cbn [head tail] in *.
  - rewrite bool_decide_eq_false_2 by done.
    rewrite (bind_ok (ret _) _ (opened w e type a rest [Shifted a (Run f)]) _ _ eq_refl). cbn [fst snd].
    destruct (launch (opened w e type a rest [Shifted a (Run f)]) e type a h x f rest (length (q_closures (more w)))
      (Z.of_nat (length (Run f :: rest))) Ho ltac:(done)) as (w1 & S1 & C1 & O1 & E1).
    exists w1. split; [|exact E1]. split; [done|by rewrite C1|by eapply only_queue_then].
  - rewrite bool_decide_eq_true_2 by done. set (v := opened w e type a (Run f :: rest) [Shifted a Sentinel]) in *.
    rewrite (bind_ok _ _ v (with_more (set_arrays (<[a := rest]> (arrays (more v))) [Shifted a (Run f)]) v) (Some (Run f), Z.of_nat (length (Sentinel :: Run f :: rest)) - 1)).
    2:{ by rewrite (bind_ok _ _ _ _ _ (shift_there v a _ _ (st_array _ _ _ _ _ _ _ Ho))). }
    destruct (launch _ e type a h x f rest (length (q_closures (more w))) (Z.of_nat (length (Sentinel :: Run f :: rest)) - 1)
      (stands_shifted _ _ _ _ _ _ _ rest [Shifted a (Run f)] Ho) ltac:(cbn [length]; lia)) as (w1 & S1 & C1 & O1 & E1).
    exists w1. split; [|exact E1]. split; [done|by rewrite C1|]. eapply only_queue_then; [exact Oo|]. by eapply only_queue_then; [apply only_arrays|].
Qed.
(** Going on where nothing waits. *)
Lemma dequeue_ends w e type a h l x : plain_type type -> stands w e type a h l x -> l = [] \/ l = [Sentinel] ->
  exists w1, stands w1 e type a h [] (Hooks (h_empty x) None (h_stop x)) /\ only_queue a h w w1 /\
    dequeue apply fire e type w = fireWith fire (0%nat, h_empty x) (CallbacksRef (h_empty x)) [] w1.
Proof.
  intros Ht Hst Hcases. unfold dequeue. rewrite (plain_default type Ht). cbv zeta. rewrite (opens w e type a h l x _ Ht Hst).
  set (es := match l with i :: _ => [Shifted a i] | [] => [] end).
  pose proof (opened_stands w e type a h l x (tail l) es Hst) as Ho. pose proof (opened_only w e type a h (tail l) es) as Oo.
  set (v := opened w e type a (tail l) es) in *. set (g := fun x => Hooks (h_empty x) None (h_stop x)).
  assert (E : exists v', stands v' e type a h [] x /\ only_queue a h v v' /\
    (if bool_decide (head l = Some Sentinel) then fn <- shift_of (Some a);; ret (fn, Z.of_nat (length l) - 1) else ret (head l, Z.of_nat (length l))) v =
      Some (v', Ok (None, 0))).
  { exists v. destruct Hcases as [-> | ->]; (split; [done|]); (split; [by split|]); [done|]. rewrite bool_decide_eq_true_2 by done.
    rewrite (bind_ok _ _ v v None); [done|]. unfold shift_of, bind, look, get, change, modify, ret, shift. rewrite (st_array _ _ _ _ _ _ _ Ho).
    cbn [tail fst snd]. by destruct v. }
  destruct E as (v' & S' & O' & E). rewrite (bind_ok _ _ _ _ _ E). cbn [fst snd].
  set (v2 := with_more (set_hooks (alter g h (all_hooks (more v')))) v').
  pose proof (stands_hooks _ _ _ _ _ _ _ g S') as S2. fold v2 in S2. exists v2. split; [exact S2|]. split.
  - eapply only_queue_then; [exact Oo|]. by eapply only_queue_then; [|apply only_hooks].
  - rewrite (bind_ok (update_hooks h g) _ v' v2 tt) by done. rewrite (bind_ok (ret tt) _ v2 v2 tt) by done. cbn [Z.eqb].
    rewrite (bind_ok (the_hooks h) _ v2 v2 (g x)); [done|]. unfold the_hooks, bind, look, get. by rewrite (st_hooks _ _ _ _ _ _ _ S2).
Qed.

(** What an element has before something is queued: perhaps an array, perhaps hooks. *)
Definition queue_now (w : world) (e : holder) (type : jstr) (l : list item) : Prop :=
  kept e (type ++ u "queue") (q_store (more w)) = None /\ l = [] \/
  exists a, kept e (type ++ u "queue") (q_store (more w)) = Some (array_ref a) /\ arrays (more w) !! a = Some l.
Definition hooks_now (w : world) (e : holder) (type : jstr) : Prop :=
  kept e (type ++ u "queueHooks") (q_store (more w)) = None \/
  exists h x, kept e (type ++ u "queueHooks") (q_store (more w)) = Some (hooks_ref h) /\ all_hooks (more w) !! h = Some x.
(** A function goes to the end; an array of functions takes the place of the queue. *)
Definition queued (l : list item) (d : list qfn + qfn) : list item :=
  match d with inl fs => map Run fs | inr f => l ++ [Run f] end.
(** Nothing is called, and only this queue is touched. *)
Record only_queued (e : holder) (a : nat) (w w1 : world) : Prop := {
  od_calls : calls w1 = calls w;
  od_timers : timers (more w1) = timers (more w);
  od_promises : promises (more w1) = promises (more w);
  od_sound : DataProps.sound (q_store (more w1));
  od_data e' : e' <> e -> entry_of e' (q_store (more w1)) = entry_of e' (q_store (more w));
  od_arrays b l : b <> a -> arrays (more w) !! b = Some l -> arrays (more w1) !! b = Some l
}.
Lemma hooks_not_json (type : jstr) : type ++ u "queueHooks" <> u "toJSON".
Proof. intros E. apply (f_equal length) in E. rewrite length_app in E. cbn in E. lia. Qed.
Lemma hooks_not_queue (type : jstr) : type ++ u "queueHooks" <> type ++ u "queue".
Proof. intros E%app_inv_head. discriminate E. Qed.
Lemma queue_not_json (type : jstr) : type ++ u "queue" <> u "toJSON".
Proof. intros E. destruct type as [|c [|d type]]; [discriminate E..|]. apply (f_equal length) in E. cbn in E. rewrite length_app in E. cbn in E. lia. Qed.
Lemma lookup_snoc_same {A} (l : list A) x b y : l !! b = Some y -> (l ++ [x]) !! b = Some y.
Proof. intros E. rewrite lookup_app_l; [done|by eapply lookup_lt_Some]. Qed.

Lemma queue_puts w e type d l : plain_type type -> acceptData e = true -> DataProps.sound (q_store (more w)) -> queue_now w e type l ->
  exists a w1, queue e type (Some d) w = Some (w1, Ok (Some a)) /\ only_queued e a w w1 /\
    kept e (type ++ u "queue") (q_store (more w1)) = Some (array_ref a) /\ arrays (more w1) !! a = Some (queued l d) /\
    kept e (type ++ u "queueHooks") (q_store (more w1)) = kept e (type ++ u "queueHooks") (q_store (more w)) /\
    all_hooks (more w1) = all_hooks (more w).
Proof.
  intros Ht Ha S Hnow. unfold queue. rewrite (plain_default type Ht). cbv zeta.
  rewrite (bind_ok _ _ _ _ _ (private_read e _ w Ha (plain_queue type Ht))).
  assert (Hnew : forall fs, exists a w1,
    (a <- look (fun s => length (arrays s));; change (add_array fs);;; v <- private_data e (type ++ u "queue") (array_ref a);; ret (array_of v)) w =
      Some (w1, Ok (Some a)) /\ only_queued e a w w1 /\
    kept e (type ++ u "queue") (q_store (more w1)) = Some (array_ref a) /\ arrays (more w1) !! a = Some (map Run fs) /\
    kept e (type ++ u "queueHooks") (q_store (more w1)) = kept e (type ++ u "queueHooks") (q_store (more w)) /\
    all_hooks (more w1) = all_hooks (more w)).
  { intros fs. set (w0 := with_more (add_array fs) w). set (a := length (arrays (more w))).
    destruct (private_write e (type ++ u "queue") (array_ref a) w0 Ha (plain_queue type Ht) eq_refl S) as (s & E & S' & K & O & O').
    exists a, (with_more (set_store s) w0). split.
    { rewrite (bind_ok (look _) _ w w a) by done. rewrite (bind_ok (change _) _ w w0 tt) by done. by rewrite (bind_ok _ _ _ _ _ E). }
    split; [split; try done|].
    - intros b l' Hb El. by apply lookup_snoc_same.
    - split; [exact K|]. split; [by apply list_lookup_middle|]. split; [|done]. apply O; [apply hooks_not_queue|apply hooks_not_json]. }
  destruct Hnow as [[-> ->]|(a & Ea & El)].
  - cbn [default option_rect]. destruct d as [fs|f]; [apply Hnew|apply (Hnew [f])].
  - rewrite Ea. change (default undef (Some (array_ref a))) with (array_ref a). destruct d as [fs|f]; [apply Hnew|].
    exists a, (with_more (set_arrays (<[a := l ++ [Run f]]> (arrays (more w))) [Put a [f]]) w). split.
    { cbn [array_of array_ref]. unfold bind, change, modify, push_fns. by rewrite El. }
    split; [split; try done; intros b l' Hb Eb; cbn; by rewrite list_lookup_insert_ne|].
    split; [exact Ea|]. split; [|done]. cbn. apply list_lookup_insert_eq. by eapply lookup_lt_Some.
Qed.
Lemma new_list_there f w : exists w1, new_list fire f w = Some (w1, Ok (next_list w)) /\ more w1 = more w /\ calls w1 = calls w.
Proof.
  unfold new_list, add_to, get_list, put_list, record, get, modify, bind. cbn [lists next_list]. rewrite lookup_insert_eq.
  cbn. eexists. split; [reflexivity|]. split; [done|]. unfold calls. cbn. by rewrite omap_app, app_nil_r.
Qed.
(** Queueing makes the array and the hooks that are missing, and goes on by itself only
    where the queue is fx and has no sentinel. *)
Lemma queues w e type d l : plain_type type -> acceptData e = true -> DataProps.sound (q_store (more w)) ->
  queue_now w e type l -> hooks_now w e type ->
  exists a h x w1, stands w1 e type a h (queued l d) x /\ only_queued e a w w1 /\
    queue_one apply fire type d e w =
      (if js_eqb type (u "fx") && negb (bool_decide (head (queued l d) = Some Sentinel)) then dequeue apply fire e type else ret tt) w1.
Proof.
  intros Ht Ha S Hq Hh. destruct (queue_puts w e type d l Ht Ha S Hq) as (a & w1 & E1 & [O1 O2 O3 O4 O5 O6] & K1 & A1 & H1 & X1).
  unfold queue_one. rewrite (bind_ok _ _ _ _ _ E1).
  assert (Hend : exists h x w2, queueHooks fire e type w1 = Some (w2, Ok (Some h)) /\ stands w2 e type a h (queued l d) x /\ only_queued e a w w2).
  { destruct Hh as [Hh|(h & x & Hh & Hx)].
    - unfold queueHooks. cbv zeta. rewrite (bind_ok _ _ _ _ _ (private_read e _ w1 Ha (plain_hooks type Ht))). rewrite H1, Hh.
      change (hooks_of (default undef None)) with (@None nat). cbv iota.
      set (v1 := with_more (set_closures (q_closures (more w1) ++ [Emptied e type])) w1).
      rewrite (bind_ok (new_closure _) _ w1 v1 (length (q_closures (more w1)))) by done.
      destruct (new_list_there (Lib (length (q_closures (more w1)))) v1) as (v2 & E2 & M2 & C2). rewrite (bind_ok _ _ _ _ _ E2).
      set (h := length (all_hooks (more v2))). rewrite (bind_ok (look _) _ v2 v2 h) by done.
      set (x := Hooks (next_list v1) None None). set (v3 := with_more (set_hooks (all_hooks (more v2) ++ [x])) v2).
      rewrite (bind_ok (change _) _ v2 v3 tt) by done.
      destruct (private_write e (type ++ u "queueHooks") (hooks_ref h) v3 Ha (plain_hooks type Ht) eq_refl) as (s & E3 & S' & K & P & P').
      { cbn. by rewrite M2. }
      rewrite (bind_ok _ _ _ _ _ E3). exists h, x, (with_more (set_store s) v3). cbn in P, P'. rewrite M2 in P, P'. cbn in P, P'. split; [done|]. split.
      + split; [done| |done| |by apply list_lookup_middle].
        * cbn. rewrite P; [done| |apply queue_not_json]. intros E. by apply (hooks_not_queue type).
        * cbn. by rewrite M2.
      + split; [transitivity (calls v2); [done|by rewrite C2]|cbn; by rewrite M2..|by cbn|intros e' He; cbn; by rewrite P', O5|].
        intros b l' Hb El. cbn. rewrite M2. by apply O6.
    - rewrite <- H1 in Hh. rewrite <- X1 in Hx. exists h, x, w1. split; [by apply hooks_there|]. by split; split. }
  destruct Hend as (h & x & w2 & E2 & S2 & O). rewrite (bind_ok _ _ _ _ _ E2). exists a, h, x, w2. split; [done|]. split; [done|].
  rewrite (bind_ok (look _) _ w2 w2 (queued l d)); [by destruct (_ && _)|]. unfold look, get, items_of. by rewrite (st_array _ _ _ _ _ _ _ S2).
Qed.
End OneStep.

(** C14. Whatever the functions of a page, its timers and its calls of [next] do: the
    functions that were put into an array are those that were taken out of it, in the same
    order and each once, and those that wait in it, with the sentinels all in front.

    And whatever calls and firings do, for an element that takes data and a name without a
    dash: where array and hooks are there, [dequeue] takes the sentinel away if there is
    one and calls the first function that waits, on the element, with a new [next] and the
    hooks - a function of [delay] sets its timer -, in a state in which it is the current
    one, the others wait and fx has its sentinel in front; where none waits, nothing but
    the list of the hooks fires. [next] is [dequeue] again. Queueing puts a function at
    the end, or an array in the place of the queue, and calls nothing, except that for fx
    it goes on where no sentinel is in front - which after clearQueue may be while a
    function runs ([cleared_too_early]). *)
Theorem queue_order (N : Nodes) :
  (forall body w a l, reached body w -> arrays (more w) !! a = Some l ->
    put_in a (q_log (more w)) = taken a (q_log (more w)) ++ waiting l /\ exists k, l = replicate k Sentinel ++ map Run (waiting l)) /\
  forall apply fire w e type, plain_type type ->
    (forall a h l x, stands w e type a h l x -> let n := length (q_closures (more w)) in
      (forall f rest, l = Run (Given f) :: rest \/ l = Sentinel :: Run (Given f) :: rest ->
        exists w1, starts w w1 e type a h x (Given f) rest /\
          dequeue apply fire e type w = (apply (Fn f) (holder_value e) [closure_ref n; hooks_ref h];;; ret tt) w1) /\
      (forall t rest, l = Run (DelayFor t) :: rest \/ l = Sentinel :: Run (DelayFor t) :: rest ->
        exists w1 w2, starts w w1 e type a h x (DelayFor t) rest /\ dequeue apply fire e type w = Some (w2, Ok tt) /\
          timers (more w2) = timers (more w) ++ [Some n] /\ arrays (more w2) = arrays (more w1) /\
          all_hooks (more w2) !! h = Some (Hooks (h_empty x) (Some (Run (DelayFor t))) (Some (length (timers (more w)))))) /\
      (l = [] \/ l = [Sentinel] ->
        exists w1, stands w1 e type a h [] (Hooks (h_empty x) None (h_stop x)) /\ only_queue a h w w1 /\
          dequeue apply fire e type w = fireWith fire (0%nat, h_empty x) (CallbacksRef (h_empty x)) [] w1)) /\
    (forall d l, acceptData e = true -> DataProps.sound (q_store (more w)) -> queue_now w e type l -> hooks_now w e type ->
      exists a h x w1, stands w1 e type a h (queued l d) x /\ only_queued e a w w1 /\
        queue_one apply fire type d e w =
          (if js_eqb type (u "fx") && negb (bool_decide (head (queued l d) = Some Sentinel)) then dequeue apply fire e type w1
           else Some (w1, Ok tt))) /\
    (forall n, q_closures (more w) !! n = Some (Next e type) -> call_closure apply fire n w = dequeue apply fire e type w).
Proof.
  split.
  - intros body w a l H%reached_queues Hl. destruct (q_arrays _ H a l Hl) as (_ & E & P). split; [exact P|]. eauto.
  - intros apply fire w e type Ht. split; [|split].
    + intros a h l x Hst n. split; [|split].
      * intros f rest Hl. by apply (dequeue_starts apply fire w e type a h l x (Given f) rest).
      * intros t rest Hl. destruct (dequeue_starts apply fire w e type a h l x (DelayFor t) rest Ht Hst Hl) as (w1 & S1 & E1).
        pose proof (oq_timers _ _ _ _ (ss_only _ _ _ _ _ _ _ _ _ S1)) as Et. eexists w1, _. split; [done|]. split; [exact E1|].
        cbn. rewrite Et. split; [done|]. split; [done|]. rewrite list_lookup_alter_eq, (st_hooks _ _ _ _ _ _ _ (ss_stands _ _ _ _ _ _ _ _ _ S1)). done.
      * by apply dequeue_ends.
    + intros d l Ha S Hq Hh. destruct (queues apply fire w e type d l Ht Ha S Hq Hh) as (a & h & x & w1 & S1 & O1 & E1). exists a, h, x, w1.
      split; [done|]. split; [done|]. rewrite E1. by destruct (_ && _).
    + intros n Hn. unfold call_closure. by rewrite (bind_ok (look _) _ w w (Some (Next e type))) by (unfold look, get; by rewrite Hn).
Qed.
#[local] Existing Instance all_elements.
(** Two functions were queued on fx; the first was called, and going on calls the second. *)
Lemma queue_order_witness :
  match execute ex_body 40 (go (QueueAll [el] None (inr (User 2))) (go (QueueAll [el] None (inr (User 1))) (Return undef))) world0 with
  | Some (w, _) => put_in 0 (q_log (more w)) = [fn_ 2; fn_ 1] /\ taken 0 (q_log (more w)) = [fn_ 2] /\
      put_in 0 (q_log (more w)) = taken 0 (q_log (more w)) ++ [fn_ 1] /\
      forall apply fire, exists w1, starts w w1 el (u "fx") 0 0 (Hooks 0 (Some (Run (fn_ 2))) None) (fn_ 1) [] /\
        dequeue apply fire el (u "fx") w = (apply (Fn (User 1)) (holder_value el) [closure_ref 2; hooks_ref 0];;; ret tt) w1
  | None => False
  end.
Proof.
  pose proof (@reached_by queue_library (@queue_code all_elements) ex_body 40 (go (QueueAll [el] None (inr (User 2))) (go (QueueAll [el] None (inr (User 1))) (Return undef)))) as H.
  destruct (execute _ _ _ world0) as [[w r]|] eqn:E; [|vm_compute in E; discriminate E].
  assert (Hl : arrays (more w) !! 0%nat = Some [Sentinel; Run (fn_ 1)]) by (vm_compute in E; injection E as <- _; reflexivity).
  assert (E1 : put_in 0 (q_log (more w)) = [fn_ 2; fn_ 1]) by (vm_compute in E; injection E as <- _; reflexivity).
  assert (E2 : taken 0 (q_log (more w)) = [fn_ 2]) by (vm_compute in E; injection E as <- _; reflexivity).
  assert (Hst : stands w el (u "fx") 0 0 [Sentinel; Run (fn_ 1)] (Hooks 0 (Some (Run (fn_ 2))) None) /\ length (q_closures (more w)) = 2%nat).
  { vm_compute in E. injection E as <- _. by split; [split|]. }
  destruct Hst as [Hst Hn]. assert (Ht : plain_type (u "fx")) by (split; [done|refine (bool_decide_unpack _ _); by vm_compute]).
  destruct (queue_order all_elements) as [Hglobal Hstep].
  split; [exact E1|]. split; [exact E2|]. split; [apply (Hglobal ex_body w 0%nat [Sentinel; Run (fn_ 1)] H Hl)|].
  intros apply fire. pose proof (proj1 (proj1 (Hstep apply fire w el (u "fx") Ht) 0%nat 0%nat _ _ Hst)) as Hrun. rewrite Hn in Hrun.
  apply Hrun. by right.
Defined.
