(* ===== verification/Classes.v ===== *)
(** * [html/resource/js/jquery.js]: class names

    addClass, removeClass, toggleClass and hasClass on the texts of the attribute class,
    and the saved class of toggleClass among the private data of the elements. *)

From Stdlib Require Import ZArith Lia.
From stdpp Require Import base tactics list numbers strings gmap.
From S2P Require Import Prelude JsValue ValidPage ValidRules Deferred DataCache.
Local Open Scope Z_scope.

Record class_state := ClassState { class_of : gmap nat jstr; class_store : store }.
Definition className (n : nat) (s : class_state) : jstr := default [] (class_of s !! n).
Definition set_className (n : nat) (t : jstr) (s : class_state) : class_state :=
  ClassState (<[n := t]> (class_of s)) (class_store s).

(** What is given as a class, and where it may be a function of the index and the class. *)
Inductive class_value := CText (t : jstr) | CUndef | CBool (b : bool) | COther.
Inductive class_arg := Is (v : class_value) | By (f : nat -> jstr -> class_value).

(** [(" " + className + " ").replace( rclass, " " )] *)
Definition rclass (c : Z) : Z := if (c =? 9) || (c =? 13) || (c =? 10) then 32 else c.
Definition spaced (c : jstr) : jstr := map rclass (u " " ++ c ++ u " ").
Definition padded (w : jstr) : jstr := u " " ++ w ++ u " ".
Definition occurs (w cur : jstr) : bool := 0 <=? index_of cur (padded w).

(** ** The texts *)

Definition add_one (cur w : jstr) : jstr := if occurs w cur then cur else cur ++ w ++ u " ".
Definition added_class (value c : jstr) : jstr :=
  let cur := match c with [] => u " " | _ => spaced c end in trim (fold_left add_one (words value) cur).
(** [while ( cur.indexOf( clazz ) >= 0 )]; [None]: it does not end within the fuel. *)
Fixpoint remove_loop (fuel : nat) (w cur : jstr) : option jstr :=
  match fuel with
  | O => None
  | S fuel => if occurs w cur then remove_loop fuel w (replace_first (padded w) (u " ") cur) else Some cur
  end.
Fixpoint remove_words (ws : list jstr) (cur : jstr) : option jstr :=
  match ws with
  | [] => Some cur
  | w :: ws => cur ← remove_loop (S (length cur)) w cur; remove_words ws cur
  end.
Definition removed_class (value c : jstr) : option jstr :=
  match c with
  | [] => Some []
  | _ => cur ← remove_words (words value) (spaced c); Some (match value with [] => [] | _ => trim cur end)
  end.
Definition has_class (w c : jstr) : bool := occurs w (spaced c).

Section Sets.
Context {N : Nodes}.

(** ** The methods *)

Fixpoint each_index {A} (f : nat -> nat -> A -> A) (i : nat) (l : list nat) (s : A) : A :=
  match l with [] => s | n :: l => each_index f (S i) l (f i n s) end.
Definition value_for (a : class_arg) (i n : nat) (s : class_state) : class_value :=
  match a with Is v => v | By f => f i (className n s) end.
Definition is_element (n : nat) : bool := node_type n =? 1.
Definition add_class_to (v : class_value) (n : nat) (s : class_state) : class_state :=
  match v with
  | CText ((_ :: _) as t) => if is_element n then set_className n (added_class t (className n s)) s else s
  | _ => s
  end.
Definition addClass (elems : list nat) (a : class_arg) (s : class_state) : class_state :=
  each_index (fun i n s => add_class_to (value_for a i n s) n s) 0 elems s.
(** [None]: without an argument. *)
Definition remove_class_from (v : option class_value) (n : nat) (s : class_state) : class_state :=
  match (match v with None => Some [] | Some (CText ((_ :: _) as t)) => Some t | _ => None end) with
  | Some t =>
      if is_element n && negb (bool_decide (className n s = [])) then set_className n (default [] (removed_class t (className n s))) s else s
  | None => s
  end.
Definition removeClass (elems : list nat) (a : option class_arg) (s : class_state) : class_state :=
  each_index (fun i n s => remove_class_from ((fun a => value_for a i n s) <$> a) n s) 0 elems s.
Definition hasClass (elems : list nat) (w : jstr) (s : class_state) : bool :=
  existsb (fun n => is_element n && has_class w (className n s)) elems.
Definition toggle_word (stateVal : option bool) (n : nat) (s : class_state) (w : jstr) : class_state :=
  let state := match stateVal with Some b => b | None => negb (hasClass [n] w s) end in
  if state then add_class_to (CText w) n s else remove_class_from (Some (CText w)) n s.
Definition saved : jstr := u "__className__".
Definition toggle_class_of (v : class_value) (stateVal : option bool) (n : nat) (s : class_state) : class_state :=
  match v with
  | CText t => fold_left (toggle_word stateVal n) (words t) s
  | COther => s
  | _ =>
      let c := className n s in
      let st := if bool_decide (c = []) then class_store s
                else (internalData (Node n) (Key saved) (Prim (PStr c)) true (class_store s)).1 in
      if negb (bool_decide (c = [])) || match v with CBool false => true | _ => false end then ClassState (<[n := []]> (class_of s)) st
      else let '(st, r) := internalData (Node n) (Key saved) undef true st in
           ClassState (<[n := text_of (value_of r)]> (class_of s)) st
  end.
Definition toggleClass (elems : list nat) (a : class_arg) (stateVal : option bool) (s : class_state) : class_state :=
  each_index (fun i n s => toggle_class_of (value_for a i n s) stateVal n s) 0 elems s.
End Sets.

(** ** Examples *)

Example class_ex :
  added_class (u "b c") (u "a") = u "a b c" /\ added_class (u "b a") (u "a  b") = u "a  b" /\
  removed_class (u "a") (u "a b a a c") = Some (u "b c") /\ has_class (u "b") (u "a b") = true /\ has_class (u "a") (u "ab") = false /\
  has_class (u "a") (u "x" ++ [12] ++ u "a") = false.
Proof. vm_compute. repeat split. Qed.
