(* ===== verification/ClassesProps.v ===== *)
(** * Class names: facts and properties

    A text between two spaces, cut at spaces, is a list of names between two empty pieces
    ([framed]); finding, adding and removing a padded name are operations on that list.
    So the methods are operations on lists of names ([classes_are_lists]). *)

From Stdlib Require Import ZArith Lia.
From stdpp Require Import base tactics list numbers strings gmap.
From S2P Require Import Prelude JsValue ValidPage ValidRules Deferred DataCache DataProps Classes.
Local Open Scope Z_scope.

(** ** Finding and replacing *)

Lemma index_from_found p s : forall i, 0 <= i -> (0 <=? index_from s p i) = true <-> exists a b, s = a ++ p ++ b.
Proof.
  induction s as [|c s IH]; intros i Hi; cbn [index_from]; (destruct (prefix_b p _) eqn:E;
    [apply prefix_b_spec in E as [r E]; split; [intros _; by exists [], r|intros _; apply Z.leb_le; lia]|]).
  - split; [done|]. intros (a & b & H). symmetry in H. apply app_eq_nil in H as [-> [-> ->]%app_eq_nil]. done.
  - rewrite IH by lia. split; intros (a & b & H); [exists (c :: a), b; by rewrite H|]. destruct a as [|d a].
    + exfalso. assert (prefix_b p (c :: s) = true) by (apply prefix_b_spec; by exists b). congruence.
    + injection H as -> ->. by exists a, b.
Qed.
Lemma replace_first_found p r s a b : s = a ++ p ++ b -> exists a' b', s = a' ++ p ++ b' /\ replace_first p r s = a' ++ r ++ b'.
Proof.
  revert a. induction s as [|c s IH]; intros a H.
  - symmetry in H. apply app_eq_nil in H as [-> [-> ->]%app_eq_nil]. exists [], []. split; [done|]. cbn. by rewrite app_nil_r.
  - cbn [replace_first]. destruct (prefix_b p (c :: s)) eqn:E.
    + apply prefix_b_spec in E as [t E]. exists [], t. split; [done|]. by rewrite E, drop_app_length.
    + destruct a as [|d a]; [exfalso; assert (prefix_b p (c :: s) = true) by (apply prefix_b_spec; by exists b); congruence|].
      injection H as -> H. destruct (IH a H) as (a' & b' & E1 & E2). exists (d :: a'), b'. rewrite E1 at 1. split; [done|]. by rewrite E2.
Qed.

(** ** Pieces *)

Definition spaceless (w : jstr) : Prop := Forall (fun c => c <> 32) w.
Abbreviation cells := (split_on 32).
Lemma cells_nonempty s : cells s <> [].
Proof. destruct s as [|c s]; cbn; [done|]. destruct (c =? 32); [done|]. by destruct (cells s). Qed.
Lemma cells_spaceless s : Forall spaceless (cells s).
Proof.
  induction s as [|c s IH]; cbn; [by repeat constructor|]. destruct (Z.eqb_spec c 32) as [->|Hc]; [by constructor; [constructor|]|].
  destruct (cells s); [by repeat constructor|]. apply Forall_cons in IH as [H1 H2]. by repeat constructor.
Qed.
Lemma join_cells s : join [32] (cells s) = s.
Proof.
  induction s as [|c s IH]; [done|]. cbn [split_on]. pose proof (cells_nonempty s) as Hn. destruct (Z.eqb_spec c 32) as [->|Hc].
  - destruct (cells s) as [|w ws]; [done|]. cbn [join app] in *. by rewrite IH.
  - destruct (cells s) as [|w [|w' ws]]; [done|..]; cbn [join app] in *; by rewrite <- IH.
Qed.
Lemma join_app x y : x <> [] -> y <> [] -> join [32] (x ++ y) = join [32] x ++ 32 :: join [32] y.
Proof.
  intros Hx Hy. induction x as [|w x IH]; [done|]. destruct x as [|w' x].
  - cbn [app]. by destruct y.
  - change (join [32] ((w :: w' :: x) ++ y)) with (w ++ 32 :: join [32] ((w' :: x) ++ y)). rewrite IH by done.
    change (join [32] (w :: w' :: x)) with (w ++ 32 :: join [32] (w' :: x)). by rewrite <- app_assoc.
Qed.
Lemma length_cells s : (length (cells s) <= S (length s))%nat.
Proof. induction s as [|c s IH]; cbn; [done|]. destruct (c =? 32); cbn; [lia|]. destruct (cells s); cbn in *; lia. Qed.
Lemma cells_word w b : spaceless w -> cells (w ++ 32 :: b) = w :: cells b.
Proof. apply split_on_cons. Qed.

Definition framed (cur : jstr) (l : list jstr) : Prop := cells cur = [] :: l ++ [[]].
Lemma framed_inner x l y l1 w l2 : [] :: l ++ [[]] = (x :: l1) ++ w :: l2 ++ [y : jstr] -> x = [] /\ y = [] /\ l = l1 ++ w :: l2.
Proof.
  intros [= <- H]. rewrite app_comm_cons, app_assoc in H. apply app_inj_tail in H as [-> <-]. done.
Qed.
Lemma cells_split a : exists x l, cells a = x :: l.
Proof. pose proof (cells_nonempty a). destruct (cells a); [done|]. by eexists _, _. Qed.
Lemma cells_split_last a : exists l x, cells a = l ++ [x].
Proof. pose proof (cells_nonempty a). destruct (cells a) as [|x l] using rev_ind; [done|]. by eexists _, _. Qed.
Lemma framed_occurrence cur l w a b : framed cur l -> spaceless w -> cur = a ++ padded w ++ b ->
  exists l1 l2, l = l1 ++ w :: l2 /\ framed (a ++ u " " ++ b) (l1 ++ l2).
Proof.
  intros F Hw ->. unfold framed, padded in *. rewrite <- !app_assoc in F. change (u " ") with [32] in *. cbn [app] in *.
  rewrite split_on_app, cells_word in F by done. destruct (cells_split a) as (x & l1 & Ea), (cells_split_last b) as (l2 & y & Eb).
  rewrite Ea, Eb in F. symmetry in F. apply framed_inner in F as (-> & -> & ->). exists l1, l2. split; [done|].
  rewrite split_on_app, Ea, Eb. cbn. by rewrite app_assoc.
Qed.
Lemma occurs_framed cur l w : framed cur l -> spaceless w -> occurs w cur = bool_decide (w ∈ l).
Proof.
  intros F Hw. apply eq_true_iff_eq. rewrite bool_decide_eq_true. unfold occurs, index_of. rewrite index_from_found by lia. split.
  - intros (a & b & E). destruct (framed_occurrence _ _ _ _ _ F Hw E) as (l1 & l2 & -> & _). apply elem_of_app. right. apply elem_of_cons. by left.
  - intros (l1 & l2 & ->)%list_elem_of_split. exists (join [32] ([] :: l1)), (join [32] (l2 ++ [[]])). rewrite <- (join_cells cur), F.
    replace ([] :: (l1 ++ w :: l2) ++ [[]]) with (([] :: l1) ++ (w :: l2 ++ [[]])) by (cbn; by rewrite <- app_assoc).
    rewrite join_app by done. change (w :: l2 ++ [[]]) with ([w] ++ (l2 ++ [[]])). rewrite join_app by (done || by destruct l2).
    unfold padded. change (u " ") with [32]. cbn [app join]. by rewrite <- app_assoc.
Qed.
(** Adding a name at the end. *)
Lemma framed_add cur l w : framed cur l -> spaceless w -> framed (cur ++ w ++ u " ") (l ++ [w]).
Proof.
  intros F Hw. assert (Hl : Forall spaceless ([] :: l)).
  { pose proof (cells_spaceless cur) as H. rewrite F in H. change ([] :: l ++ [[]]) with (([] :: l) ++ [[]]) in H. by apply Forall_app in H as [H _]. }
  rewrite <- (join_cells cur), F. change ([] :: l ++ [[]]) with (([] :: l) ++ [[]]). rewrite join_app by done. unfold framed.
  rewrite <- app_assoc. change (join [32] [[]]) with ([] : jstr). change (u " ") with [32]. cbn [app].
  rewrite split_on_app, cells_word by done. rewrite split_on_join by done. cbn. by rewrite <- app_assoc.
Qed.
Lemma framed_spaced c : framed (spaced c) (cells (map rclass c)).
Proof.
  unfold framed, spaced. rewrite !map_app. change (map rclass (u " ")) with [32]. cbn [app split_on].
  change (32 =? 32) with true. cbn iota. change (map rclass c ++ [32]) with (map rclass c ++ 32 :: []). by rewrite split_on_app.
Qed.

(** ** The loops *)

Lemma keep_all {A} (P : A -> Prop) {D : forall x, Decision (P x)} (l : list A) : (forall x, x ∈ l -> P x) -> filter P l = l.
Proof.
  induction l as [|x l IH]; intros H; [done|]. rewrite filter_cons, decide_True by (apply H; by left).
  f_equal. apply IH. intros y Hy. apply H. by right.
Qed.

Definition add_name (l : list jstr) (w : jstr) : list jstr := if decide (w ∈ l) then l else l ++ [w].
Lemma add_framed ws : forall cur l, framed cur l -> Forall spaceless ws -> framed (fold_left add_one ws cur) (fold_left add_name ws l).
Proof.
  induction ws as [|w ws IH]; intros cur l F Hw; [done|]. apply Forall_cons in Hw as [Hw Hws]. cbn [fold_left]. apply IH; [|done].
  unfold add_one, add_name. rewrite (occurs_framed cur l w F Hw). case_bool_decide; case_decide; try done. by apply framed_add.
Qed.
Lemma remove_loop_framed w : spaceless w -> forall fuel cur l, framed cur l -> (length l < fuel)%nat ->
  exists cur', remove_loop fuel w cur = Some cur' /\ framed cur' (filter (fun x => x <> w) l).
Proof.
  intros Hw. induction fuel as [|fuel IH]; intros cur l F Hf; [lia|]. cbn [remove_loop]. rewrite (occurs_framed cur l w F Hw).
  case_bool_decide as Hin.
  - assert (Ho : occurs w cur = true) by (rewrite (occurs_framed cur l w F Hw); by apply bool_decide_eq_true).
    unfold occurs, index_of in Ho. apply index_from_found in Ho as (a & b & E); [|lia].
    destruct (replace_first_found _ (u " ") _ _ _ E) as (a' & b' & E1 & ->). destruct (framed_occurrence _ _ _ _ _ F Hw E1) as (l1 & l2 & -> & F').
    rewrite length_app in Hf. cbn in Hf. destruct (IH _ _ F' ltac:(rewrite length_app; lia)) as (cur' & E' & F''). exists cur'. split; [done|].
    rewrite filter_app, filter_cons, decide_False by auto. by rewrite filter_app in F''.
  - exists cur. split; [done|]. rewrite keep_all; [done|]. intros x Hx ->. done.
Qed.
Lemma remove_words_framed ws : forall cur l, framed cur l -> Forall spaceless ws ->
  exists cur', remove_words ws cur = Some cur' /\ framed cur' (filter (fun x => x ∉ ws) l).
Proof.
  induction ws as [|w ws IH]; intros cur l F Hw; cbn [remove_words].
  - exists cur. split; [done|]. rewrite keep_all; [done|]. intros x _. apply not_elem_of_nil.
  - apply Forall_cons in Hw as [Hw Hws].
    destruct (remove_loop_framed w Hw (S (length cur)) cur l F) as (c1 & -> & F1).
    { pose proof (length_cells cur) as H. rewrite F in H. cbn in H. rewrite length_app in H. cbn in H. lia. }
    cbn [mbind option_bind]. destruct (IH c1 _ F1 Hws) as (c2 & -> & F2). exists c2. split; [done|].
    rewrite list_filter_filter in F2. rewrite (list_filter_iff _ (fun x => x ∉ ws /\ x <> w)); [done|]. intros x. rewrite not_elem_of_cons. tauto.
Qed.

(** ** Names

    The names in a text are its words; for a text whose white space is what [rclass]
    replaces, they are the pieces between spaces that are not empty. *)

Abbreviation spacy c := (is_space c = true).
Definition plain (t : jstr) : Prop := Forall (fun c => is_space c = true -> c ∈ [9; 10; 13; 32]) t.
Abbreviation named := (fun w : jstr => w <> []).

Lemma words_nospace t : Forall no_space (words t).
Proof.
  unfold words. apply Forall_forall. intros w [_ Hw]%list_elem_of_filter. revert w Hw. apply Forall_forall.
  induction t as [|c t IH]; cbn; [by repeat constructor|]. destruct (is_space c) eqn:E; [by constructor; [constructor|]|].
  destruct (split_where is_space t); [repeat constructor; done|]. apply Forall_cons in IH as [H1 H2]. constructor; [by constructor|done].
Qed.
Lemma words_named t : Forall named (words t).
Proof. unfold words. apply Forall_forall. by intros w [H _]%list_elem_of_filter. Qed.
Lemma no_space_spaceless w : no_space w -> spaceless w.
Proof. intros F. eapply Forall_impl; [exact F|]. intros c H ->. by vm_compute in H. Qed.
Lemma rclass_space c : (is_space c = true -> c ∈ [9; 10; 13; 32]) -> is_space c = (rclass c =? 32).
Proof.
  intros H. unfold rclass. destruct (is_space c) eqn:E.
  - specialize (H eq_refl). rewrite !elem_of_cons, elem_of_nil in H. destruct H as [->|[->|[->|[->|[]]]]]; done.
  - destruct (Z.eqb_spec c 9) as [->|]; [done|]. destruct (Z.eqb_spec c 13) as [->|]; [done|]. destruct (Z.eqb_spec c 10) as [->|]; [done|]. cbn.
    symmetry. apply Z.eqb_neq. by intros ->.
Qed.
Lemma words_plain t : plain t -> words t = filter named (cells (map rclass t)).
Proof.
  intros H. unfold words. f_equal. induction H as [|c t Hc H IH]; [done|]. cbn [map split_on split_where].
  rewrite (rclass_space c Hc). destruct (Z.eqb_spec (rclass c) 32) as [E|E]; [by rewrite IH|]. rewrite IH.
  replace (rclass c) with c; [done|]. unfold rclass in *. destruct ((c =? 9) || (c =? 13) || (c =? 10)); done.
Qed.
Lemma split_where_spaces p s : Forall (fun c => is_space c = true) p -> words (p ++ s) = words s.
Proof. intros H. induction H as [|c p Hc H IH]; [done|]. cbn [app]. rewrite <- IH. unfold words. cbn [split_where]. by rewrite Hc. Qed.
Lemma words_app_space a c b : is_space c = true -> words (a ++ c :: b) = words a ++ words b.
Proof.
  intros Hc. unfold words. rewrite <- filter_app. f_equal. induction a as [|d a IH]; cbn [app split_where]; [by rewrite Hc|].
  destruct (is_space d); [by rewrite IH|]. rewrite IH. by destruct (split_where is_space a) as [|w ws] eqn:E; [destruct a as [|e a]; cbn in E; [|destruct (is_space e); [|destruct (split_where is_space a)]]|].
Qed.
Lemma words_tail s p : Forall (fun c => is_space c = true) p -> words (s ++ p) = words s.
Proof.
  destruct p as [|c p]; intros H; [by rewrite app_nil_r|]. apply Forall_cons in H as [Hc H]. rewrite words_app_space by done.
  rewrite <- (app_nil_r p), split_where_spaces by done. cbn. by rewrite app_nil_r.
Qed.
Lemma trim_left_parts s : exists p, s = p ++ trim_left s /\ Forall (fun c => is_space c = true) p.
Proof.
  induction s as [|c s IH]; [by exists []|]. cbn. destruct (is_space c) eqn:E; [|by exists []].
  destruct IH as (p & E' & H). exists (c :: p). cbn. by rewrite <- E'; split; [|constructor].
Qed.
Lemma trim_parts s : exists p q, s = p ++ trim s ++ q /\ Forall (fun c => is_space c = true) p /\ Forall (fun c => is_space c = true) q.
Proof.
  unfold trim. destruct (trim_left_parts s) as (p & E & Hp), (trim_left_parts (rev (trim_left s))) as (q & E' & Hq).
  exists p, (rev q). split; [|split; [done|by apply Forall_rev]]. rewrite <- rev_app_distr, <- E', rev_involutive. done.
Qed.
Lemma words_trim s : words (trim s) = words s.
Proof. destruct (trim_parts s) as (p & q & E & Hp & Hq). rewrite E at 2. by rewrite split_where_spaces, words_tail. Qed.
Lemma plain_trim s : plain s -> plain (trim s).
Proof. destruct (trim_parts s) as (p & q & E & _). unfold plain. rewrite E at 1. rewrite !Forall_app. tauto. Qed.

(** The texts between the loops and [trim]: the only white space is the space. *)
Definition single (t : jstr) : Prop := Forall (fun c => is_space c = true -> c = 32) t.
Lemma single_plain t : single t -> plain t.
Proof. intros F. eapply Forall_impl; [exact F|]. intros c H E. rewrite (H E). set_solver. Qed.
Lemma single_rclass t : single t -> map rclass t = t.
Proof.
  intros H. induction H as [|c t Hc H IH]; [done|]. cbn. f_equal; [|done]. unfold rclass.
  destruct (Z.eqb_spec c 9) as [->|]; [by specialize (Hc eq_refl)|]. destruct (Z.eqb_spec c 13) as [->|]; [by specialize (Hc eq_refl)|].
  by destruct (Z.eqb_spec c 10) as [->|]; [specialize (Hc eq_refl)|].
Qed.
Lemma no_space_single w : no_space w -> single w.
Proof. intros F. eapply Forall_impl; [exact F|]. intros c H E. congruence. Qed.
Lemma spaced_single t : plain t -> single (spaced t).
Proof.
  intros H. unfold spaced, single. rewrite !map_app, !Forall_app. split; [by repeat constructor|]. split; [|by repeat constructor].
  rewrite Forall_map. eapply Forall_impl; [exact H|]. intros c Hc. cbn. unfold rclass. intros E.
  destruct ((c =? 9) || (c =? 13) || (c =? 10)) eqn:E'; [done|]. specialize (Hc E). rewrite !elem_of_cons, elem_of_nil in Hc.
  destruct Hc as [->|[->|[->|[->|[]]]]]; done.
Qed.
Lemma single_framed cur : single cur <-> Forall (Forall (fun c => is_space c = true -> c = 32)) (cells cur).
Proof.
  unfold single. induction cur as [|c s IH]; cbn; [split; by repeat constructor|]. pose proof (cells_nonempty s). rewrite Forall_cons, IH.
  destruct (Z.eqb_spec c 32) as [->|Hc]; [rewrite Forall_cons; split; [intros [_ H']; by split|intros [_ H']; by split]|].
  destruct (cells s); [done|]. rewrite !Forall_cons. tauto.
Qed.
Lemma framed_words cur l : framed cur l -> single cur -> words (trim cur) = filter named l.
Proof.
  intros F H. rewrite words_trim, words_plain by (by apply single_plain). rewrite single_rclass by done. rewrite F.
  rewrite filter_cons, decide_False by auto. rewrite filter_app. cbn. by rewrite app_nil_r.
Qed.
Lemma named_add ws l : Forall named ws -> filter named (fold_left add_name ws l) = fold_left add_name ws (filter named l).
Proof.
  revert l. induction ws as [|w ws IH]; intros l H; [done|]. apply Forall_cons in H as [Hw H]. cbn [fold_left]. rewrite IH by done. f_equal.
  unfold add_name. rewrite (decide_ext (w ∈ filter named l) (w ∈ l)) by (rewrite list_elem_of_filter; tauto).
  case_decide; [done|]. rewrite filter_app, filter_cons, decide_True by done. done.
Qed.

(** * Class names: the methods are operations on lists of names *)

(** ** The texts *)

Lemma single_adds ws : forall cur, single cur -> Forall no_space ws -> single (fold_left add_one ws cur).
Proof.
  induction ws as [|w ws IH]; intros cur H Hw; [done|]. apply Forall_cons in Hw as [Hw Hws]. cbn [fold_left]. apply IH; [|done].
  unfold add_one. destruct (occurs w cur); [done|]. apply Forall_app. split; [done|]. apply Forall_app. split; [by apply no_space_single|].
  by repeat constructor.
Qed.
Lemma words_spaceless t : Forall spaceless (words t).
Proof. eapply Forall_impl; [apply words_nospace|]. apply no_space_spaceless. Qed.
Lemma added_words t c : plain c -> words (added_class t c) = fold_left add_name (words t) (words c) /\ plain (added_class t c).
Proof.
  intros H. unfold added_class. set (cur := match c with [] => _ | _ => _ end).
  assert (Hc : framed cur (cells (map rclass c)) \/ c = [] /\ framed cur []) by (destruct c; [right|left; apply framed_spaced]; done).
  assert (Hs : single cur) by (destruct c; [by repeat constructor|by apply spaced_single]).
  pose proof (single_adds (words t) cur Hs (words_nospace t)) as Hs'. split; [|by apply plain_trim, single_plain].
  destruct Hc as [F|[-> F]].
  - rewrite (framed_words _ _ (add_framed (words t) _ _ F (words_spaceless t)) Hs'), named_add by apply words_named. by rewrite <- words_plain.
  - rewrite (framed_words _ _ (add_framed (words t) _ _ F (words_spaceless t)) Hs'), named_add by apply words_named. done.
Qed.
Lemma removed_words t c : plain c -> c <> [] -> t <> [] ->
  exists r, removed_class t c = Some r /\ words r = filter (fun w => w ∉ words t) (words c) /\ plain r.
Proof.
  intros H Hc Ht. unfold removed_class. destruct c as [|x c]; [done|]. destruct t as [|y t]; [done|]. set (ws := words (y :: t)). set (c' := x :: c) in *.
  destruct (remove_words_framed ws _ _ (framed_spaced c') (words_spaceless _)) as (cur & -> & F). exists (trim cur). split; [done|].
  assert (Hs : single cur).
  { pose proof (spaced_single _ H) as Hs. rewrite single_framed, framed_spaced in Hs. rewrite single_framed, F.
    apply Forall_forall. intros v Hv. rewrite Forall_forall in Hs. apply Hs. rewrite elem_of_cons, elem_of_app in *.
    destruct Hv as [->|[[_ Hv]%list_elem_of_filter|Hv]]; auto. }
  split; [|by apply plain_trim, single_plain]. rewrite (framed_words _ _ F Hs), (words_plain _ H), !list_filter_filter.
  apply list_filter_iff. intros v. tauto.
Qed.
Lemma has_words w c : plain c -> no_space w -> w <> [] -> has_class w c = bool_decide (w ∈ words c).
Proof.
  intros H Hw Hn. unfold has_class. rewrite (occurs_framed _ _ _ (framed_spaced c) (no_space_spaceless _ Hw)).
  apply bool_decide_ext. rewrite (words_plain _ H), list_elem_of_filter. tauto.
Qed.
Lemma words_one w : no_space w -> w <> [] -> words w = [w].
Proof.
  intros H Hn. unfold words. assert (E : split_where is_space w = [w]).
  { clear Hn. induction H as [|c w Hc H IH]; [done|]. cbn. by rewrite Hc, IH. }
  by rewrite E, filter_cons, decide_True.
Qed.

(** ** One element *)

Section Elements.
Context {N : Nodes}.
Definition names (n : nat) (s : class_state) : list jstr := words (className n s).
Definition toggle_name (state : option bool) (l : list jstr) (w : jstr) : list jstr :=
  if default (bool_decide (w ∉ l)) state then add_name l w else filter (fun v => v <> w) l.
Definition given_names (v : class_value) : list jstr := match v with CText t => words t | _ => [] end.

(** What one step does: to the class of its element, and to nothing else. *)
Definition at_one (f : jstr -> jstr) (n : nat) (s s' : class_state) : Prop :=
  forall m, className m s' = if decide (m = n) then f (className m s) else className m s.
Lemma className_set n t s m : className m (set_className n t s) = if decide (m = n) then t else className m s.
Proof. unfold className, set_className. cbn. case_decide as E; [subst; by rewrite lookup_insert_eq|by rewrite lookup_insert_ne]. Qed.

Definition added_text (n : nat) (v : class_value) (c : jstr) : jstr :=
  match v with CText ((_ :: _) as t) => if is_element n then added_class t c else c | _ => c end.
Definition removed_text (n : nat) (v : option class_value) (c : jstr) : jstr :=
  if is_element n && negb (bool_decide (c = [])) then
    match v with None => [] | Some (CText ((_ :: _) as t)) => default [] (removed_class t c) | _ => c end
  else c.
Definition toggle_text (state : option bool) (n : nat) (c w : jstr) : jstr :=
  if default (negb (is_element n && has_class w c)) state then added_text n (CText w) c else removed_text n (Some (CText w)) c.
Lemma at_same n s s' : s' = s -> at_one id n s s'.
Proof. intros -> m. by case_decide. Qed.
Lemma add_at v n s : at_one (added_text n v) n s (add_class_to v n s).
Proof.
  intros m. unfold add_class_to, added_text. destruct v as [[|c t]| | |]; try by case_decide. destruct (is_element n); [|by case_decide].
  rewrite className_set. by case_decide; subst.
Qed.
Lemma remove_at v n s : at_one (removed_text n v) n s (remove_class_from v n s).
Proof.
  intros m. unfold remove_class_from, removed_text. destruct (decide (m = n)) as [->|Hm].
  - destruct v as [[[|c t]| | |]|]; try by destruct (_ && _). all: destruct (is_element n && _); [|done]; rewrite className_set, decide_True by done.
    + done.
    + unfold removed_class. by destruct (className n s).
  - destruct v as [[[|c t]| | |]|]; try done. all: destruct (is_element n && _); [|done]. all: by rewrite className_set, decide_False.
Qed.
Lemma toggle_word_at st n s w : at_one (fun c => toggle_text st n c w) n s (toggle_word st n s w).
Proof.
  intros m. unfold toggle_word, toggle_text, hasClass. cbn [existsb]. rewrite orb_false_r. destruct (decide (m = n)) as [->|Hm].
  - destruct st as [[]|]; cbn [default from_option id]; [by rewrite add_at, decide_True|by rewrite remove_at, decide_True|].
    destruct (is_element n && has_class w (className n s)); cbn [negb]; [by rewrite remove_at, decide_True|by rewrite add_at, decide_True].
  - destruct (match st with Some _ => _ | None => _ end); [by rewrite add_at, decide_False|by rewrite remove_at, decide_False].
Qed.
Lemma toggle_words_at st n ws : forall s, at_one (fun c => fold_left (toggle_text st n) ws c) n s (fold_left (toggle_word st n) ws s).
Proof.
  induction ws as [|w ws IH]; intros s m; cbn [fold_left]; [by case_decide|]. rewrite IH, (toggle_word_at st n s w m). by case_decide.
Qed.
Lemma each_at (f : nat -> nat -> class_state -> class_state) (g : nat -> nat -> jstr -> jstr) :
  (forall i n s, at_one (g i n) n s (f i n s)) -> forall l k s, NoDup l ->
  (forall i n, l !! i = Some n -> className n (each_index f k l s) = g (k + i)%nat n (className n s)) /\
  (forall n, n ∉ l -> className n (each_index f k l s) = className n s).
Proof.
  intros Hf l. induction l as [|x l IH]; intros k s Hd; cbn [each_index]; [done|]. apply NoDup_cons in Hd as [Hx Hd].
  destruct (IH (S k) (f k x s) Hd) as [H1 H2]. split.
  - intros [|i] n Hi; cbn in Hi.
    + injection Hi as ->. rewrite H2 by done. rewrite Hf, decide_True by done. by rewrite Nat.add_0_r.
    + rewrite (H1 i n Hi), Hf, decide_False by (intros ->; by apply Hx, list_elem_of_lookup; exists i). f_equal. lia.
  - intros n [Hn1 Hn2]%not_elem_of_cons. rewrite H2 by done. by rewrite Hf, decide_False.
Qed.

(** The texts as names. *)
Lemma added_text_names n v c : plain c -> is_element n = true ->
  words (added_text n v c) = fold_left add_name (given_names v) (words c) /\ plain (added_text n v c).
Proof.
  intros H Hn. unfold added_text. destruct v as [[|x t]| | |]; try done. rewrite Hn. by apply added_words.
Qed.
Lemma removed_text_names n v c : plain c -> is_element n = true ->
  words (removed_text n v c) = match v with None => [] | Some v => filter (fun w => w ∉ given_names v) (words c) end /\ plain (removed_text n v c).
Proof.
  intros H Hn. unfold removed_text. rewrite Hn. cbn [andb]. case_bool_decide as Hc; cbn [negb].
  - subst. by destruct v.
  - destruct v as [[[|x t]| | |]|]; try (split; [|done]; rewrite keep_all; [done|]; intros w _; apply not_elem_of_nil).
    + destruct (removed_words (x :: t) c H Hc) as (r & -> & E1 & E2); done.
    + split; [done|constructor].
Qed.
Lemma toggle_text_names n st c w : plain c -> is_element n = true -> no_space w -> w <> [] ->
  words (toggle_text st n c w) = toggle_name st (words c) w /\ plain (toggle_text st n c w).
Proof.
  intros H Hn Hw Hw'. unfold toggle_text, toggle_name. rewrite Hn, has_words by done. cbn [andb].
  replace (negb (bool_decide (w ∈ words c))) with (bool_decide (w ∉ words c)) by (case_bool_decide; case_bool_decide; done).
  destruct (default _ st).
  - destruct (added_text_names n (CText w) c H Hn) as [-> E]. cbn [given_names]. by rewrite words_one.
  - destruct (removed_text_names n (Some (CText w)) c H Hn) as [-> E]. cbn [given_names]. rewrite words_one by done. split; [|done].
    apply list_filter_iff. intros v. rewrite list_elem_of_singleton. tauto.
Qed.
Lemma toggles_names n st ws : is_element n = true -> Forall no_space ws -> Forall named ws -> forall c, plain c ->
  words (fold_left (toggle_text st n) ws c) = fold_left (toggle_name st) ws (words c) /\ plain (fold_left (toggle_text st n) ws c).
Proof.
  intros Hn. induction ws as [|w ws IH]; intros H1 H2 c Hc; [done|]. apply Forall_cons in H1 as [Hw1 H1], H2 as [Hw2 H2]. cbn [fold_left].
  destruct (toggle_text_names n st c w Hc Hn Hw1 Hw2) as [<- E]. by apply IH.
Qed.
Lemma at_ext f g n s s' : f (className n s) = g (className n s) -> at_one f n s s' -> at_one g n s s'.
Proof. intros E H m. rewrite H. case_decide as Hm; [by subst|done]. Qed.
(** A method that goes through a set. *)
Lemma each_names (f : nat -> nat -> class_state -> class_state) (g : nat -> nat -> jstr -> jstr) (h : nat -> jstr -> list jstr) elems s :
  (forall i n s, at_one (g i n) n s (f i n s)) ->
  (forall i n c, plain c -> is_element n = true -> words (g i n c) = h i c /\ plain (g i n c)) ->
  NoDup elems -> Forall (fun n => is_element n = true /\ plain (className n s)) elems -> let s' := each_index f 0 elems s in
  (forall i n, elems !! i = Some n -> names n s' = h i (className n s)) /\
  (forall n, n ∈ elems -> plain (className n s')) /\ (forall n, n ∉ elems -> className n s' = className n s).
Proof.
  intros Hf Hg Hd He s'. rewrite Forall_lookup in He. destruct (each_at f g Hf elems 0 s Hd) as [H1 H2].
  assert (H : forall i n, elems !! i = Some n -> names n s' = h i (className n s) /\ plain (className n s')).
  { intros i n Hi. destruct (He i n Hi) as [He1 He2]. unfold names, s'. rewrite (H1 i n Hi). by apply Hg. }
  split; [by intros i n [E _]%H|]. split; [by intros n [i [_ E]%H]%list_elem_of_lookup|done].
Qed.
Definition value_of_text (a : class_arg) (i : nat) (c : jstr) : class_value := match a with Is v => v | By f => f i c end.
End Elements.

(** C15. On a set of elements, none of them twice in it, whose class texts have no white space
    but space, tab, CR and LF - with a form feed a class that is there is not seen
    ([form_feed_missed]) - the methods that change classes work as the operations on lists
    of names: addClass puts the names that are missing at the end, in order; removeClass
    takes out the names given, or all; toggleClass of a text switches each name in turn, or
    adds or removes it where the wanted state is given; hasClass asks for one name.
    The texts stay such texts, and other elements keep their classes. *)
Theorem classes_are_lists (N : Nodes) (elems : list nat) (a : class_arg) (t w : jstr) (state : option bool) (s : class_state) :
  NoDup elems -> Forall (fun n => is_element n = true /\ plain (className n s)) elems -> no_space w -> w <> [] ->
  let added := addClass elems a s in let removed := removeClass elems (Some a) s in
  let cleared := removeClass elems None s in let toggled := toggleClass elems (Is (CText t)) state s in
  (forall i n, elems !! i = Some n ->
     names n added = fold_left add_name (given_names (value_for a i n s)) (names n s) /\
     names n removed = filter (fun w => w ∉ given_names (value_for a i n s)) (names n s) /\
     names n cleared = [] /\
     names n toggled = fold_left (toggle_name state) (words t) (names n s)) /\
  Forall (fun s' => (forall n, n ∈ elems -> plain (className n s')) /\ (forall n, n ∉ elems -> className n s' = className n s))
         [added; removed; cleared; toggled] /\
  hasClass elems w s = existsb (fun n => bool_decide (w ∈ names n s)) elems.
Proof.
  intros Hd He Hw Hw' added removed cleared toggled.
  destruct (each_names (fun i n s => add_class_to (value_for a i n s) n s) (fun i n c => added_text n (value_of_text a i c) c)
    (fun i c => fold_left add_name (given_names (value_of_text a i c)) (words c)) elems s) as (A1 & A2 & A3); [|intros; by apply added_text_names|done..|].
  { intros i n s0. eapply at_ext, add_at. by destruct a. }
  destruct (each_names (fun i n s => remove_class_from (Some (value_for a i n s)) n s) (fun i n c => removed_text n (Some (value_of_text a i c)) c)
    (fun i c => filter (fun w => w ∉ given_names (value_of_text a i c)) (words c)) elems s) as (R1 & R2 & R3);
    [|intros i n c Hc Hn; apply (removed_text_names n (Some _) c Hc Hn)|done..|].
  { intros i n s0. eapply at_ext, remove_at. by destruct a. }
  destruct (each_names (fun _ n s => remove_class_from None n s) (fun _ n c => removed_text n None c) (fun _ _ => []) elems s) as (C1 & C2 & C3);
    [intros; apply remove_at|intros i n c Hc Hn; apply (removed_text_names n None c Hc Hn)|done..|].
  destruct (each_names (fun _ n s => toggle_class_of (CText t) state n s) (fun _ n c => fold_left (toggle_text state n) (words t) c)
    (fun _ c => fold_left (toggle_name state) (words t) (words c)) elems s) as (T1 & T2 & T3);
    [intros; apply toggle_words_at|intros; by apply toggles_names; [|apply words_nospace|apply words_named|]|done..|].
  split; [|split].
  - intros i n Hi. split; [etransitivity; [exact (A1 i n Hi)|by destruct a]|]. split; [etransitivity; [exact (R1 i n Hi)|by destruct a]|]. split; [by apply (C1 i)|by apply (T1 i)].
  - by repeat constructor.
  - unfold hasClass. clear -He Hw Hw'. induction He as [|n l [Hn Hc] He IH]; [done|]. cbn [existsb]. by rewrite IH, Hn, has_words.
Qed.

(** ** The whole class *)

Section Whole.
Context {N : Nodes}.

Definition saved_text (n : nat) (s : class_state) : option value :=
  match entry_of (Node n) (class_store s) with Some c => private c !! saved | None => None end.
(** What a step leaves of the other elements. *)
Definition only_at (n : nat) (s s' : class_state) : Prop :=
  sound (class_store s') /\ forall m, m <> n -> className m s' = className m s /\ saved_text m s' = saved_text m s.
Lemma saved_spec n v o : acceptData (Node n) = true -> undefined v = false ->
  match (data_spec (Node n) (Key saved) v true o).1 with Some c => private c !! saved | None => None end = Some v.
Proof.
  intros Ha Hv. unfold data_spec. rewrite Ha, Hv, andb_false_r. cbn [negb fst with_part private part_of].
  change (camelCase saved) with saved. apply lookup_insert_eq.
Qed.
Lemma saved_read n t c : acceptData (Node n) = true -> private c !! saved = Some (Prim (PStr t)) ->
  (data_spec (Node n) (Key saved) undef true (Some c)).2 = Ok (Value (Prim (PStr t))).
Proof. intros Ha Hc. unfold data_spec. rewrite Ha. cbn -[saved lookup read_key]. unfold read_key. cbn -[saved lookup]. rewrite Hc. done. Qed.
Lemma take_off n s : sound (class_store s) -> acceptData (Node n) = true -> className n s <> [] ->
  let s' := toggle_class_of CUndef None n s in
  only_at n s s' /\ className n s' = [] /\ saved_text n s' = Some (Prim (PStr (className n s))).
Proof.
  intros S Ha Hc s'. unfold s', toggle_class_of. rewrite bool_decide_eq_false_2 by done. cbn [negb orb].
  destruct (internalData_becomes (Node n) (Key saved) (Prim (PStr (className n s))) true (class_store s) S) as [(S1 & E1 & O1) _].
  destruct (internalData _ _ _ _ _) as [st r]. cbn [fst] in *. split; [split; [done|]|split].
  - intros m Hm. split; [unfold className; cbn [class_of]; by rewrite lookup_insert_ne|unfold saved_text; cbn [class_store]; by rewrite O1 by congruence].
  - unfold className. cbn. by rewrite lookup_insert_eq.
  - unfold saved_text. cbn [class_store]. rewrite E1. by apply saved_spec.
Qed.
Lemma put_on n t s : sound (class_store s) -> acceptData (Node n) = true -> className n s = [] -> saved_text n s = Some (Prim (PStr t)) ->
  let s' := toggle_class_of CUndef None n s in only_at n s s' /\ className n s' = t.
Proof.
  intros S Ha Hc Hs s'. unfold s', toggle_class_of. rewrite bool_decide_eq_true_2 by done. cbn [negb orb].
  destruct (internalData_becomes (Node n) (Key saved) undef true (class_store s) S) as [(S1 & E1 & O1) R].
  unfold saved_text in Hs. destruct (entry_of (Node n) (class_store s)) as [c|]; [|done]. rewrite (saved_read n t c Ha Hs) in R.
  destruct (internalData _ _ _ _ _) as [st r]. cbn [fst snd] in *. subst r. split; [split; [done|]|].
  - intros m Hm. split; [unfold className; cbn [class_of]; by rewrite lookup_insert_ne|unfold saved_text; cbn [class_store]; by rewrite O1 by congruence].
  - unfold className. cbn. by rewrite lookup_insert_eq.
Qed.
Lemma off_all elems : forall k s, NoDup elems -> sound (class_store s) ->
  Forall (fun n => acceptData (Node n) = true /\ className n s <> []) elems ->
  let s' := each_index (fun _ n s => toggle_class_of CUndef None n s) k elems s in
  sound (class_store s') /\ (forall n, n ∈ elems -> className n s' = [] /\ saved_text n s' = Some (Prim (PStr (className n s)))) /\
  forall n, n ∉ elems -> className n s' = className n s /\ saved_text n s' = saved_text n s.
Proof.
  induction elems as [|n elems IH]; intros k s Hd S He; cbn [each_index].
  { split; [done|]. split; [by intros n Hn%elem_of_nil|done]. }
  apply NoDup_cons in Hd as [Hn Hd]. apply Forall_cons in He as [[Ha Hc] He]. destruct (take_off n s S Ha Hc) as ([S1 O1] & E1 & E2).
  destruct (IH (Datatypes.S k) _ Hd S1) as (S2 & I2 & O2).
  { apply Forall_forall. intros m Hm. rewrite Forall_forall in He. destruct (He m Hm) as [H1 H2].
    destruct (O1 m) as [-> _]; [by intros ->|done]. }
  split; [done|]. split; intros m Hm.
  - destruct (decide (m = n)) as [->|Hne]; [by rewrite (proj1 (O2 n Hn)), (proj2 (O2 n Hn))|].
    apply elem_of_cons in Hm as [->|Hm]; [done|]. destruct (O1 m Hne) as [<- _]. by apply I2.
  - apply not_elem_of_cons in Hm as [Hne Hm]. destruct (O1 m Hne) as [<- <-]. by apply O2.
Qed.
Lemma on_all elems (t : nat -> jstr) : forall k s, NoDup elems -> sound (class_store s) ->
  Forall (fun n => acceptData (Node n) = true /\ className n s = [] /\ saved_text n s = Some (Prim (PStr (t n)))) elems ->
  let s' := each_index (fun _ n s => toggle_class_of CUndef None n s) k elems s in
  forall n, className n s' = if decide (n ∈ elems) then t n else className n s.
Proof.
  induction elems as [|n elems IH]; intros k s Hd S He s' m; unfold s'; cbn [each_index]; [by rewrite decide_False by apply not_elem_of_nil|].
  apply NoDup_cons in Hd as [Hn Hd]. apply Forall_cons in He as [(Ha & Hc & Hs) He]. destruct (put_on n (t n) s S Ha Hc Hs) as ([S1 O1] & E1).
  rewrite (IH (Datatypes.S k) _ Hd S1).
  - rewrite (decide_ext (m ∈ n :: elems) (m = n \/ m ∈ elems)) by apply elem_of_cons. destruct (decide (m ∈ elems)) as [Hm|Hm].
    + by rewrite decide_True by auto.
    + destruct (decide (m = n)) as [->|Hne]; [by rewrite decide_True by auto|]. rewrite decide_False by (by intros [|]). by apply O1.
  - apply Forall_forall. intros x Hx. rewrite Forall_forall in He. destruct (He x Hx) as (H1 & H2 & H3).
    destruct (O1 x) as [-> ->]; [by intros ->|done].
Qed.
End Whole.

(** toggleClass without a name takes the classes of a set off, and brings them back. *)
Theorem whole_class_restored (N : Nodes) (elems : list nat) (s : class_state) :
  NoDup elems -> sound (class_store s) -> Forall (fun n => acceptData (Node n) = true /\ className n s <> []) elems ->
  let off := toggleClass elems (Is CUndef) None s in
  Forall (fun n => className n off = []) elems /\ forall n, className n (toggleClass elems (Is CUndef) None off) = className n s.
Proof.
  intros Hd S He off. destruct (off_all elems 0 s Hd S He) as (S1 & I1 & O1). split.
  - apply Forall_forall. intros n Hn. by apply I1.
  - intros n. etransitivity; [apply (on_all elems (fun n => className n s) 0 off Hd S1)|].
    + apply Forall_forall. intros m Hm. rewrite Forall_forall in He. split; [by apply He|by apply I1].
    + case_decide as Hn; [done|]. by apply O1.
Qed.

(** ** Examples *)

#[local] Instance some_nodes : Nodes := {| node_type n := if (n =? 9)%nat then 3 else 1; node_name _ := u "div"; classid _ := None; parse_json _ := None |}.
Definition two_divs : class_state := ClassState {[ 1%nat := u "a b a"; 2%nat := u "b" ++ [9] ++ u "c" ]} store0.
Lemma text_plain (t : jstr) : forallb (fun c => negb (is_space c) || bool_decide (c ∈ [9; 10; 13; 32])) t = true -> plain t.
Proof.
  intros H. rewrite forallb_forall in H. apply Forall_forall. intros c Hc E. apply list_elem_of_In in Hc. specialize (H c Hc).
  rewrite E in H. by apply bool_decide_eq_true in H.
Qed.
Lemma classes_are_lists_witness :
  (names 1 (removeClass [1; 2]%nat (Some (Is (CText (u "b")))) two_divs) = [u "a"; u "a"] /\
   names 2 (toggleClass [1; 2]%nat (Is (CText (u "c d"))) None two_divs) = [u "b"; u "d"]) /\
  hasClass [1; 2]%nat (u "c") two_divs = existsb (fun n => bool_decide (u "c" ∈ names n two_divs)) [1; 2]%nat.
Proof.
  split; [by vm_compute|]. apply (classes_are_lists some_nodes [1; 2]%nat (Is (CText (u "b"))) (u "c d") (u "c") None two_divs).
  - apply (bool_decide_unpack (NoDup [1; 2]%nat)). by vm_compute.
  - do 2 (constructor; [by split; [done|apply text_plain; vm_compute]|]). constructor.
  - by repeat constructor.
  - done.
Defined.
Lemma whole_class_restored_witness :
  forall n, className n (toggleClass [1; 2]%nat (Is CUndef) None (toggleClass [1; 2]%nat (Is CUndef) None two_divs)) = className n two_divs.
Proof.
  apply (whole_class_restored some_nodes [1; 2]%nat two_divs).
  - apply (bool_decide_unpack (NoDup [1; 2]%nat)). by vm_compute.
  - apply sound0.
  - by repeat constructor.
Defined.

(** A form feed divides the classes of an element for the browser, and for the class
    selectors of the same file, but not for these methods. *)
Theorem form_feed_missed :
  words (u "x" ++ [12] ++ u "a") = [u "x"; u "a"] /\ has_class (u "a") (u "x" ++ [12] ++ u "a") = false /\
  words (added_class (u "a") (u "x" ++ [12] ++ u "a")) = [u "x"; u "a"; u "a"].
Proof. by vm_compute. Qed.
